(* ===== verification/_CoqProject ===== *)
-Q . S2P
Prelude.v
Text.v
ApiLimits.v
Budget.v
BodyStore.v
LedgerDb.v
Accounts.v
Settlement.v
LedgerInv.v
Billing.v
SettleSpec.v
Admission.v
LedgerDemo.v
Tariffs.v
MeterUsage.v
TurnMeter.v
KimiTariffs.v
GlmTariffs.v
CodexTariffs.v
GeminiTariffs.v
Controls.v
Calendar.v
TurnQueue.v
Breaker.v
Waits.v
PoolHealth.v
CodexHealth.v
CodexPool.v
Tripo3d.v
MediaTariffs.v
TariffPayload.v
TariffBook.v
GlmSelect.v
KimiPlane.v
GlmAttempt.v
GlmPoll.v
GlmSettle.v
RouterWire.v
RouterCatalog.v
RouterPolicy.v
RouterRoute.v
RouterBody.v
RouterModels.v
Ingress.v
RouterAuthority.v
Affinity.v
MediaPlane.v
MediaLease.v
MediaDrain.v
SunoPlane.v
SunoSettle.v
TripoAdmit.v
TripoPlane.v
TripoSettle.v
GeminiQuota.v
GeminiPool.v
GeminiMoney.v
GeminiTurn.v
