(* ===== verification/Prelude.v ===== *)
(** * Verification of the engine's money and capacity core

    The engine is a Rust workspace ([crates/]) that serves customer requests to
    language, image, song and 3D models through pools of provider subscriptions.
    A router authenticates a request, buffers its body under byte budgets,
    resolves the requested models and runs a chain of attempts on the provider
    planes.  A plane admits the request against a prepaid account, places it on a
    provider profile, retries on others while nothing has been delivered, meters
    it from the provider's own usage report, prices it, and settles it in a
    durable ledger.  This library models the parts that
    decide about money and capacity, as executable definitions that follow the
    code, and proves the properties the rest of the engine relies on.

    ** Conventions

    Integers are [Z] at the width of the code: [checked_*] for checked
    arithmetic and conversions, [sat_*] for saturating, [wrap_*] for the plain
    operators of the release profile (which wraps).  [Result] is [result] with
    its error monad; [Option] is [option].  SQL tables and hash maps are [gmap]s,
    vectors are lists.  The clock, random identifiers and the answers of the
    operating system, the network and other processes are arguments.  A
    transaction that fails leaves no database; an operation over several
    transactions returns the database it leaves behind.  Atomics and mutexes
    become step relations whose steps are single atomic operations.

    ** Files

    - [Prelude]: widths, [result], finite sums, transition systems, tactics.
    - [Text]: the [str] operations of the standard library the engine uses.
    - [ApiLimits] ([crates/api-limits]): byte limits, admission units, parsing of
      limit variables, relations between limits.
    - [Budget] ([crates/bounded-body/src/budget.rs]): shared weighted budgets and
      owned reservations, sequentially and as interleaved atomic steps.
    - [BodyStore] ([crates/bounded-body/src/storage.rs]): the body store in memory
      and in a spool file, with every I/O outcome explicit.
    - [LedgerDb], [Accounts], [Settlement] ([crates/registry/src/lib.rs], SQLite
      lane): the billing tables with their unique indexes and triggers; accounts,
      keys, discounts, top-ups; reservations, delivery leases, the settlement
      outbox, group election, cancellation, crash recovery, retention.
    - [LedgerInv], [Billing], [SettleSpec], [Admission], [LedgerDemo]: the
      accounting invariant, all operations as one transition system, and the
      specifications of single operations; a concrete run for the witnesses.
    - [Tariffs], [MeterUsage] ([crates/metering/src/lib.rs]): price tables, costs,
      multipliers; usage read from JSON bodies and event streams.
    - [TurnMeter]: price epochs, usage records, stream merging and checked costs
      that [kimi.rs] and [glm.rs] of [crates/metering/src] carry in the same form;
      [KimiTariffs], [GlmTariffs], [CodexTariffs], [GeminiTariffs]: the catalogues,
      tariffs, credits and usage readers of the four providers.
    - [Tripo3d], [MediaTariffs] ([crates/metering/src/tripo3d.rs],
      [openai_image.rs], [suno.rs]): credit and image tariffs.
    - [TariffPayload] ([crates/registry/src/pricing/tariffs.rs],
      [crates/forward/src/pricing/tariff_book.rs],
      [crates/server/src/tariff_admin.rs]): the payloads of tariff overrides, their
      parsing, and the compiled catalogue they are seeded from.
    - [TariffBook] (the same files and [crates/server/src/admin.rs]): the override
      table, the book read from it, reserve and charge bases, the Control API.
    - [Controls] ([crates/forward/src/validation.rs]): optional request fields.
    - [Calendar] ([crates/forward/src/lifecycle.rs]): subscription expiry dates.
    - [TurnQueue] ([crates/forward/src/glm/queue.rs] and its copies): the bounded
      delivery queue of priced turns.
    - [Breaker] ([crates/forward/src/breaker.rs]): the upstream circuit breaker.
    - [Waits]: the quiet wait between rounds and stable sorting by a key.
    - [PoolHealth] ([crates/pool/src/lib.rs]): authentication health, slots and
      cooling of the subscription pool.
    - [CodexHealth], [CodexPool] ([crates/forward/src/codex/health.rs], [mod.rs],
      [transport.rs], [runner.rs]): health and admission of a home, selection in
      three passes, rotation of a turn.
    - [GlmSelect], [GlmAttempt], [GlmPoll] ([crates/forward/src/glm/selection.rs],
      [transport.rs], [pool.rs], [gateway.rs]): placement of a request on a
      profile, the attempt loop with profile health, and idle quota polling.
    - [KimiPlane] ([crates/forward/src/kimi/selection.rs], [transport.rs],
      [pool.rs], [gateway.rs]): verdicts, profile and model health, placement and
      the two nested attempt loops.
    - [GlmSettle] ([gateway.rs], [crates/forward/src/settlement_policy.rs]): the
      amount a delivered turn settles for.
    - [RouterWire], [RouterCatalog], [RouterPolicy], [RouterRoute], [RouterBody],
      [RouterModels] ([crates/router/src]): headers, the proxied hop and the
      authentication preflight; the model catalogue with its cache; selectors and
      the account policy; the universal route with serial fallback; reading a
      body; configuration and the public model list.
    - [Ingress] ([crates/forward/src/execution.rs], [proxy.rs]): the identity and
      the credentials a plane reads from a request.
    - [RouterAuthority] ([crates/server/src/router_*.rs]): the producers behind
      the router's preflights, composed with the router's readers.
    - [Affinity] ([crates/forward/src/affinity.rs]): cache-lineage affinity.
    - [MediaPlane], [MediaLease], [MediaDrain]: what the Suno and Tripo3D planes
      share, selection and attempts, leases and quota readers under interleaving,
      and the detached drain with its records.
    - [SunoPlane], [SunoSettle] ([crates/forward/src/suno]): verdicts, health,
      admission and creation; polls, drain and settlement.
    - [TripoAdmit], [TripoPlane], [TripoSettle] ([crates/forward/src/tripo3d]):
      admission of every task kind with upload pins; verdicts, health, balance and
      creation; polls, drain and settlement.
    - [GeminiQuota], [GeminiPool], [GeminiMoney], [GeminiTurn]
      ([crates/forward/src/gemini/pool.rs], [config.rs], [calibration.rs],
      [billing.rs], [api.rs]): quota evidence with its binary64 shares; health,
      tokens, probes and selection; reservations and settlement; the verdicts of an
      attempt, the rotation of a request and the task behind a started stream.

    ** How the parts interact

    [Settlement] writes through [LedgerDb] and [Accounts]; [BodyStore] pays for
    its bytes with the reservations of [Budget]; [MeterUsage] produces the usage
    that [Tariffs] prices; [TariffPayload] turns the compiled tariffs of every
    provider into payloads and back, and [TariffBook] stores, resolves and charges
    them.  [GlmAttempt] and [KimiPlane] select with [GlmSelect], which is generic in
    the reason a profile is ineligible; [CodexPool] admits with [CodexHealth];
    [GlmPoll] drains [TurnQueue] under the barrier that its leases respect.
    [RouterRoute] stamps the identities that [Ingress] reads, and
    [RouterAuthority] answers the preflights of [RouterWire], [RouterPolicy] and
    [RouterModels] from the definitions that admit and price a request.
    [GeminiTurn] selects with [GeminiPool], which reads [GeminiQuota], and closes
    its admission with [GeminiMoney], which charges through [TariffBook] and
    [GeminiTariffs].

    Interfaces are classes.  [UsageCodec] of [LedgerDb] is the stored form of a
    usage record ([serde_json]); its law is that reading returns what was written,
    the ledger theorems hold for every codec and [LedgerDemo] gives an instance.
    [TurnWire] of [TurnMeter] is what differs between the KIMI and GLM usage
    readers.  [PayloadSerde] of [TariffPayload] is the set of derived struct
    codecs with the laws [PayloadSerdeOk]; [FieldCodec] is an instance.
    [Authority] of [TariffBook] is the digest and the order of a listing, with the
    laws [AuthorityOk] and an instance in [Demo].  [PlaneVerdict] of [MediaPlane]
    is what a verdict of a media plane permits, with its laws; the two planes are
    its instances, and selection and attempts are proved once.  JSON parsers are
    parameters of the sections that use them.

    ** What the theorems show

    - C1-C5, the ledger.  In every reachable database money is conserved per
      account and the reserved column is the sum of open holds; as long as a
      request of an execution group is stored at most one attempt of it is paid;
      settlement and admission are exact; closed reservations are final.
    - C6, Anthropic costs are the exact sum modulo [2^128], and the exact sum at
      rates of at most a dollar per token, which every compiled card has and a
      stored override may not.
    - C7-C15, the router.  A failed attempt is replaced only on proof that nothing
      was executed; a chain holds only models that were resolved, preferred and
      granted; bodies leak no budget; the catalogue cache has one refresh in
      flight and accepts only well-formed entries; the policy preflight acts on
      the first verdict; selectors are read unambiguously; the hop to a plane
      passes what it may; the authentication preflight ends.
    - C16-C20, the contracts between router and planes.  Prices, policy and
      credentials mean the same on both sides, a price list being dropped whole
      exactly when an override starts a tier at zero; authorization depends on
      the set of credentials and admits a customer key with its balance capped by
      what its limit leaves; the stamped identity is read back.
    - C21-C22, affinity.  Sessions do not cross tenants; a growing conversation
      without native ids stays at its home, in a store that is below its cap and
      holds no conflicting binding.
    - C23-C29, the media planes.  Creations are acknowledged at most once and
      answered only with a drain, and capacity counts as exhausted only when it
      is for the admitted request; attributed credits are the generation's own
      plus what moved without a lease; admission of Tripo3D tasks reserves the
      published price, but for an unannounced style picture; settlements are
      exact, and a drain ends and settles once.
    - C30-C33, the Gemini plane.  A request is left without a profile exactly by
      shutdown, exclusion, lost grants and the hard axes (quota and the deadline of
      the model), never by cooling the profile; one refresh serves a burst; the
      rotation ends and never replays a request a profile judged, and an answer or
      a stream, however it ends, is settled by one call, or none once the pinned
      version is gone; measured usage is charged its exact cost at the pinned
      tariff, at rates of at most a dollar per token.
    - C34-C35, tariff overrides.  What admission pinned is what settlement
      charges on every later table for the pinned family, other families being
      repriced; publishing never retries, and its answers after a lost race are
      enumerated.
    - C36, a subscription is dead exactly by an operator's kill, an imported
      verdict, or what clean probes corroborate.
    - C37-C38, the rotations of the Codex and KIMI planes end and replace only what
      may be replaced; the KIMI plane reports exhausted capacity only from a step
      that was starved, a calibrated request being bound to its one profile.
    - C39-C40, turns leave the delivery queue in order and none silently; a body
      is read back exactly.

    Further theorems of the files state the remaining parts in the same way, among
    them idempotent settlement and top-ups, crash recovery, exact and conservative
    tariffs of every provider, the GLM plane, the health of Codex homes, the
    breaker, the priced model list, the Suno drain and interleaved budgets.

    ** Bounds and fuel

    [drain_loop] of [GlmPoll] runs with the queue's length plus one, since every
    round but the last removes an event ([drain_loop_enough]); [attempt_loop] of
    [GlmAttempt] and that of [MediaPlane] run with one more than the number of
    profiles, that of [KimiPlane] with the waits plus three times the profiles plus
    one (C38), [rotate] of [CodexPool] with the waits plus the homes plus one (C37),
    and [run_turn] of [GeminiTurn] with the waits times one more than the profiles,
    plus the profiles, plus one (C32).  The drains of Suno and Tripo3D run 601 and
    901 polls, their deadline of 1800 seconds over the interval plus one (C29 for
    Tripo3D).  [chunks] of [RouterModels] runs with the length of its list and
    [fraction_end] of [RouterCatalog] with the length of its text.  The loops
    are shown to have enough, and the last two advance through their input in every
    step; every other recursion is structural.  Environment assumptions are stated where they are used: a clock that does not go back and
    stays below the [i64] maximum ([Breaker]), signals in the order of their times
    ([CodexHealth]), fewer than [2^32] live leases and [2^64] turns ([GlmPoll]),
    64-bit token counts (tariffs).

    ** Not modelled

    The PostgreSQL lane repeats the billing lifecycle on another SQL engine; the
    analytics and calibration tables record what was decided elsewhere.  HTTP
    forwarding, configuration, metrics and process wiring are I/O (of a started
    Gemini stream the sends, reads and translated chunks are arguments), and the
    auth bot talks to a messenger and to browsers.  A Codex turn may also end early
    on an abort that races with it; [run_turn] of [CodexPool] leaves that out.
    The translation of Gemini bodies, its batch jobs and capacity calibration, the
    upload routes and roster reload of the media planes, and session cookies are
    left out.  The subscription pool's capacity estimate and placement, and the
    window caps of the Codex reserve are floating point without a bearing on money;
    the latter are an argument of [CodexPool]. *)
From stdpp Require Export base tactics decidable numbers list list_numbers strings pretty gmap sets relations.
From Stdlib Require Export Lia.
#[global] Open Scope Z_scope.

(** ** Machine widths *)
Definition u8_max : Z := 255.
Definition u32_max : Z := 4294967295.
Definition i32_max : Z := 2147483647.
Definition u64_max : Z := 18446744073709551615.
Definition i64_min : Z := -9223372036854775808.
Definition i64_max : Z := 9223372036854775807.
Definition i128_min : Z := -170141183460469231731687303715884105728.
Definition i128_max : Z := 170141183460469231731687303715884105727.

Definition is_u32 (z : Z) : Prop := 0 <= z <= u32_max.
Definition is_u64 (z : Z) : Prop := 0 <= z <= u64_max.
Definition is_i64 (z : Z) : Prop := i64_min <= z <= i64_max.
Definition is_i128 (z : Z) : Prop := i128_min <= z <= i128_max.

#[global] Instance is_u32_dec z : Decision (is_u32 z).
Proof. unfold is_u32. apply _. Defined.
#[global] Instance is_u64_dec z : Decision (is_u64 z).
Proof. unfold is_u64. apply _. Defined.
#[global] Instance is_i64_dec z : Decision (is_i64 z).
Proof. unfold is_i64. apply _. Defined.
#[global] Instance is_i128_dec z : Decision (is_i128 z).
Proof. unfold is_i128. apply _. Defined.

(** [checked_*]: the result of a Rust [checked_] operation or [try_from]
    whose mathematical value is [z]. *)
Definition checked_u32 (z : Z) : option Z := if decide (is_u32 z) then Some z else None.
Definition checked_u64 (z : Z) : option Z := if decide (is_u64 z) then Some z else None.
Definition checked_i64 (z : Z) : option Z := if decide (is_i64 z) then Some z else None.
Definition checked_i128 (z : Z) : option Z := if decide (is_i128 z) then Some z else None.

(** [wrap_*]: two's-complement wrap-around of the release profile. *)
Definition wrap_u64 (z : Z) : Z := z mod 2 ^ 64.
Definition wrap_i64 (z : Z) : Z := (z + 2 ^ 63) mod 2 ^ 64 - 2 ^ 63.
Definition wrap_i128 (z : Z) : Z := (z + 2 ^ 127) mod 2 ^ 128 - 2 ^ 127.

(** [sat_*]: the saturating operations. *)
Definition sat_u64 (z : Z) : Z := Z.max 0 (Z.min u64_max z).
Definition sat_i64 (z : Z) : Z := Z.max i64_min (Z.min i64_max z).
Definition sat_i128 (z : Z) : Z := Z.max i128_min (Z.min i128_max z).

(** [width_lia]: [lia] after exposing the width constants. *)
Ltac unfold_widths :=
  unfold is_u32, is_u64, is_i64, is_i128, sat_u64, sat_i64, sat_i128,
    u8_max, u32_max, i32_max, u64_max, i64_min, i64_max, i128_min, i128_max in *.
Ltac width_lia := unfold_widths; lia.
(** [div_mod_lia]: [lia] with quotients and remainders by constants. *)
Ltac div_mod_lia := Z.div_mod_to_equations; lia.

Lemma wrap_u64_id z : is_u64 z -> wrap_u64 z = z.
Proof. intros ?. unfold wrap_u64. rewrite Z.mod_small; width_lia. Qed.
Lemma wrap_i64_id z : is_i64 z -> wrap_i64 z = z.
Proof. intros ?. unfold wrap_i64. rewrite Z.mod_small; width_lia. Qed.
Lemma wrap_i128_id z : is_i128 z -> wrap_i128 z = z.
Proof. intros ?. unfold wrap_i128. rewrite Z.mod_small; width_lia. Qed.
Lemma wrap_i128_add a b : wrap_i128 (wrap_i128 a + wrap_i128 b) = wrap_i128 (a + b).
Proof.
  unfold wrap_i128. f_equal. replace (_ + _ + 2 ^ 127) with
    ((a + 2 ^ 127) mod 2 ^ 128 + ((b + 2 ^ 127) mod 2 ^ 128 - 2 ^ 127)) by lia.
  rewrite Zplus_mod_idemp_l. replace (a + 2 ^ 127 + _) with ((b + 2 ^ 127) mod 2 ^ 128 + a) by lia.
  rewrite Zplus_mod_idemp_l. f_equal. lia.
Qed.
Lemma wrap_u64_range z : is_u64 (wrap_u64 z).
Proof. unfold wrap_u64. pose proof (Z.mod_pos_bound z (2 ^ 64)). width_lia. Qed.
Lemma wrap_i64_range z : is_i64 (wrap_i64 z).
Proof. unfold wrap_i64. pose proof (Z.mod_pos_bound (z + 2 ^ 63) (2 ^ 64)). width_lia. Qed.

(** Wrap-around disappears where the value is in range. *)
Create HintDb widths discriminated.
Create Rewrite HintDb widths.
#[export] Hint Resolve wrap_u64_range wrap_i64_range : widths.
#[export] Hint Rewrite wrap_u64_id wrap_i64_id wrap_i128_id using (solve [width_lia]) : widths.
(** [unwrap]: remove every wrap-around whose argument [lia] shows to be in range. *)
Ltac unwrap := autorewrite with widths.

Lemma checked_u64_Some z r : checked_u64 z = Some r <-> r = z /\ is_u64 z.
Proof. unfold checked_u64. case_decide; naive_solver. Qed.
Lemma checked_u64_None z : checked_u64 z = None <-> ~ is_u64 z.
Proof. unfold checked_u64. case_decide; naive_solver. Qed.
Lemma checked_i64_Some z r : checked_i64 z = Some r <-> r = z /\ is_i64 z.
Proof. unfold checked_i64. case_decide; naive_solver. Qed.
Lemma checked_i64_None z : checked_i64 z = None <-> ~ is_i64 z.
Proof. unfold checked_i64. case_decide; naive_solver. Qed.
Lemma checked_i128_Some z r : checked_i128 z = Some r <-> r = z /\ is_i128 z.
Proof. unfold checked_i128. case_decide; naive_solver. Qed.
Lemma checked_u32_Some z r : checked_u32 z = Some r <-> r = z /\ is_u32 z.
Proof. unfold checked_u32. case_decide; naive_solver. Qed.

(** Rounding up: [(b + (u - 1)) / u] is the least number of [u]-sized units
    that covers [b]. *)
Lemma ceil_div_spec b u n :
  0 < u -> (b + (u - 1)) / u = n <-> (n - 1) * u < b <= n * u.
Proof.
  intros Hu. split.
  - intros <-. pose proof (Z.div_mod (b + (u - 1)) u ltac:(lia)).
    pose proof (Z.mod_pos_bound (b + (u - 1)) u Hu). nia.
  - intros Hn. symmetry. apply (Z.div_unique _ _ _ (b + (u - 1) - n * u)); nia.
Qed.
Lemma ceil_div_nonneg b u : 0 < u -> 0 <= b -> 0 <= (b + (u - 1)) / u.
Proof. intros. apply Z.div_pos; lia. Qed.
Lemma ceil_div_mono a b u : 0 < u -> a <= b -> (a + (u - 1)) / u <= (b + (u - 1)) / u.
Proof. intros. apply Z.div_le_mono; lia. Qed.
Lemma ceil_div_le_u64 b u : 0 < u -> 0 <= b -> b <= u64_max -> (b + (u - 1)) / u <= u64_max.
Proof.
  intros. destruct (Z.le_gt_cases b 0).
  - replace b with 0 by lia. rewrite Z.div_small; width_lia.
  - transitivity b; [|done]. apply Z.div_le_upper_bound; nia.
Qed.

(** ** Rust's [Result] as an error monad *)
Inductive result (E A : Type) : Type :=
| Ok (a : A)
| Err (e : E).
Arguments Ok {E A} a.
Arguments Err {E A} e.

#[global] Instance result_ret E : MRet (result E) := fun A a => Ok a.
#[global] Instance result_bind E : MBind (result E) := fun A B f m =>
  match m with Ok a => f a | Err e => Err e end.
#[global] Instance result_fmap E : FMap (result E) := fun A B f m =>
  match m with Ok a => Ok (f a) | Err e => Err e end.

(** [ok_or]: an [Option] lifted into the error monad. *)
Definition ok_or {E A} (o : option A) (e : E) : result E A :=
  match o with Some a => Ok a | None => Err e end.
Definition map_err {E F A} (f : E -> F) (m : result E A) : result F A :=
  match m with Ok a => Ok a | Err e => Err (f e) end.
Definition res_ok {E A} (m : result E A) : option A :=
  match m with Ok a => Some a | Err _ => None end.
(** [guard_ok c e]: an early [return Err(e)] unless [c]. *)
Definition guard_ok {E} (c : bool) (e : E) : result E () :=
  if c then Ok () else Err e.

#[global] Instance result_eq_dec {E A} `{!EqDecision E, !EqDecision A} : EqDecision (result E A).
Proof. solve_decision. Defined.

Lemma bind_Ok {E A B} (m : result E A) (f : A -> result E B) b :
  (m ≫= f) = Ok b <-> exists a, m = Ok a /\ f a = Ok b.
Proof. destruct m; cbn; naive_solver. Qed.
Lemma ok_or_Ok {E A} (o : option A) (e : E) a : ok_or o e = Ok a <-> o = Some a.
Proof. destruct o; cbn; naive_solver. Qed.
Lemma map_err_Ok {E F A} (f : E -> F) (m : result E A) a : map_err f m = Ok a <-> m = Ok a.
Proof. destruct m; cbn; naive_solver. Qed.
Lemma guard_ok_Ok {E} c (e : E) : guard_ok c e = Ok () <-> c = true.
Proof. destruct c; cbn; naive_solver. Qed.

(** [inv_ok]: decompose [Ok] outcomes of monadic code, one statement at a time. *)
Ltac inv_ok_step :=
  match goal with
  | H : (_ ≫= _) = Ok _ |- _ => apply bind_Ok in H as (? & ? & H)
  | H : ok_or _ _ = Ok _ |- _ => apply ok_or_Ok in H
  | H : map_err _ _ = Ok _ |- _ => apply map_err_Ok in H
  | H : guard_ok _ _ = Ok ?u |- _ => destruct u; apply guard_ok_Ok in H
  | H : checked_u64 _ = Some _ |- _ => apply checked_u64_Some in H as [-> ?]
  | H : checked_i64 _ = Some _ |- _ => apply checked_i64_Some in H as [-> ?]
  | H : checked_i128 _ = Some _ |- _ => apply checked_i128_Some in H as [-> ?]
  | H : Err _ = Ok _ |- _ => discriminate H
  | H : Ok _ = Ok _ |- _ => injection H; clear H; intros; subst
  end.
Ltac inv_ok := repeat (inv_ok_step; simplify_eq/=).

(** [o >>? f]: [Option::and_then], left associative as a method chain reads. *)
Declare Scope rust_scope.
Delimit Scope rust_scope with rust.
Notation "o >>? f" := (mbind (M:=option) f o) (at level 61, left associativity) : rust_scope.
#[global] Open Scope rust_scope.

(** ** Integers and iterators of the standard library *)
Definition between (lo hi z : Z) : bool := (lo <=? z) && (z <=? hi).
Definition one_of (l : list Z) (z : Z) : bool := bool_decide (z ∈ l).
Definition i64_abs (z : Z) : Z := wrap_i64 (Z.abs z).
(** [Iterator::min_by_key]: the first of the least. *)
Fixpoint min_by_key {A} (key : A -> Z) (l : list A) : option A :=
  match l with
  | [] => None
  | x :: l => match min_by_key key l with
              | Some y => if key y <? key x then Some y else Some x
              | None => Some x
              end
  end.
(** [Iterator::max] on integers. *)
Definition max_of (l : list Z) : option Z :=
  match l with [] => None | x :: l => Some (fold_left Z.max l x) end.
Lemma between_spec lo hi z : between lo hi z = true <-> lo <= z <= hi.
Proof. unfold between. rewrite andb_true_iff, !Z.leb_le. done. Qed.
Lemma max_of_le l m z : max_of l = Some m -> m <= z <-> Forall (fun x => x <= z) l.
Proof.
  destruct l as [|x l]; cbn; [done|]. intros [= <-]. rewrite Forall_cons. revert x.
  induction l as [|y l IH]; intros x; cbn; [rewrite Forall_nil; tauto|]. rewrite IH, Forall_cons, Z.max_lub_iff. tauto.
Qed.
Lemma max_of_None l : max_of l = None -> l = [].
Proof. by destruct l. Qed.
Lemma elem_of_lfilter {A} (p : A -> bool) l x : x ∈ List.filter p l <-> x ∈ l /\ p x = true.
Proof. rewrite !list_elem_of_In. apply filter_In. Qed.

(** ** Transition systems: an inductive invariant holds in every reachable state. *)
Lemma rtc_invariant {A} (R : relation A) (P : A -> Prop) x y :
  P x -> (forall a b, R a b -> P a -> P b) -> rtc R x y -> P y.
Proof. intros Hx Hstep Hr. revert Hx. induction Hr; eauto. Qed.

(** ** Finite sums *)
Fixpoint sumZ {A} (f : A -> Z) (l : list A) : Z :=
  match l with [] => 0 | x :: l => f x + sumZ f l end.

Lemma sumZ_app {A} (f : A -> Z) l k : sumZ f (l ++ k) = sumZ f l + sumZ f k.
Proof. induction l; simpl; lia. Qed.
Lemma sumZ_ext {A} (f g : A -> Z) l : (forall x, x ∈ l -> f x = g x) -> sumZ f l = sumZ g l.
Proof. induction l; simpl; intros E; [done|]. rewrite E, IHl; set_solver. Qed.
Lemma sumZ_nonneg {A} (f : A -> Z) l : (forall x, x ∈ l -> 0 <= f x) -> 0 <= sumZ f l.
Proof. induction l as [|a l IH]; simpl; intros E; [lia|]. pose proof (E a ltac:(set_solver)). enough (0 <= sumZ f l) by lia. apply IH. set_solver. Qed.
Lemma sumZ_zero {A} (f : A -> Z) l : (forall x, x ∈ l -> f x = 0) -> sumZ f l = 0.
Proof. induction l as [|a l IH]; simpl; intros E; [done|]. rewrite (E a), IH; set_solver. Qed.
Lemma sumZ_elem_le {A} (f : A -> Z) l x :
  (forall y, y ∈ l -> 0 <= f y) -> x ∈ l -> f x <= sumZ f l.
Proof.
  induction l as [|a l IH]; simpl; intros E Hx; [set_solver|].
  pose proof (E a ltac:(set_solver)).
  assert (0 <= sumZ f l) by (apply sumZ_nonneg; set_solver).
  apply elem_of_cons in Hx as [->|Hx]; [lia|].
  enough (f x <= sumZ f l) by lia. apply IH; set_solver.
Qed.
Lemma sumZ_perm {A} (f : A -> Z) l k : l ≡ₚ k -> sumZ f l = sumZ f k.
Proof. induction 1; simpl; lia. Qed.
#[global] Instance sumZ_Permutation {A} (f : A -> Z) : Proper ((≡ₚ) ==> (=)) (sumZ f).
Proof. intros l k. apply sumZ_perm. Qed.

Lemma sumZ_filter {A} (f : A -> Z) (P : A -> Prop) `{!forall x, Decision (P x)} l :
  (forall x, x ∈ l -> ~ P x -> f x = 0) -> sumZ f (filter P l) = sumZ f l.
Proof.
  induction l as [|a l IH]; intros Hz; [done|]. rewrite filter_cons. cbn.
  rewrite <- IH by set_solver. case_decide as Ha; cbn; [done|]. rewrite (Hz a); [lia|set_solver|done].
Qed.

(** Sum of a function over a finite map. *)
Definition map_sumZ {K} `{Countable K} {A} (f : K -> A -> Z) (m : gmap K A) : Z :=
  map_fold (fun k x acc => f k x + acc) 0 m.

Section MapSum.
Context {K} `{Countable K} {A : Type}.
Implicit Types (f g : K -> A -> Z) (m : gmap K A).

Lemma map_sumZ_empty f : map_sumZ f ∅ = 0.
Proof. apply map_fold_empty. Qed.
Lemma map_sumZ_insert_None f m k x :
  m !! k = None -> map_sumZ f (<[k:=x]> m) = f k x + map_sumZ f m.
Proof. intros Hk. unfold map_sumZ. rewrite map_fold_insert_L; [done| |done]. intros; lia. Qed.
Lemma map_sumZ_delete f m k x :
  m !! k = Some x -> map_sumZ f m = f k x + map_sumZ f (delete k m).
Proof. intros Hk. rewrite <- (insert_delete_id m k x) at 1 by done. apply map_sumZ_insert_None, lookup_delete_eq. Qed.
Lemma map_sumZ_insert_Some f m k x y :
  m !! k = Some y -> map_sumZ f (<[k:=x]> m) = f k x - f k y + map_sumZ f m.
Proof.
  intros Hk. rewrite (map_sumZ_delete f m k y Hk).
  rewrite (map_sumZ_delete f (<[k:=x]> m) k x) by apply lookup_insert_eq.
  rewrite delete_insert_eq. lia.
Qed.
Lemma map_sumZ_nonneg f m : (forall k x, m !! k = Some x -> 0 <= f k x) -> 0 <= map_sumZ f m.
Proof.
  induction m as [|k x m Hk IH] using map_ind; intros Hf.
  { rewrite map_sumZ_empty. done. }
  rewrite map_sumZ_insert_None by done.
  pose proof (Hf k x ltac:(by rewrite lookup_insert_eq)).
  enough (0 <= map_sumZ f m) by lia. apply IH. intros j y Hj. apply Hf.
  rewrite lookup_insert_ne; [done|]. naive_solver.
Qed.
Lemma map_sumZ_ext f g m :
  (forall k x, m !! k = Some x -> f k x = g k x) -> map_sumZ f m = map_sumZ g m.
Proof.
  induction m as [|k x m Hk IH] using map_ind; intros Hf; [done|].
  rewrite !map_sumZ_insert_None by done. rewrite (Hf k x) by apply lookup_insert_eq.
  rewrite IH; [done|]. intros j y Hj. apply Hf. rewrite lookup_insert_ne; [done|]. naive_solver.
Qed.
Lemma map_sumZ_filter f (P : K * A -> Prop) `{!forall x, Decision (P x)} m :
  (forall k x, m !! k = Some x -> ~ P (k, x) -> f k x = 0) -> map_sumZ f (filter P m) = map_sumZ f m.
Proof.
  induction m as [|k x m Hk IH] using map_ind; intros Hz; [by rewrite map_filter_empty|].
  assert (IH' : map_sumZ f (filter P m) = map_sumZ f m).
  { apply IH. intros j y Hj. apply Hz. rewrite lookup_insert_ne; [done|]. naive_solver. }
  rewrite (map_sumZ_insert_None f m) by done. rewrite map_filter_insert. case_decide as HP.
  - rewrite map_sumZ_insert_None; [by rewrite IH'|]. rewrite map_lookup_filter. by rewrite Hk.
  - rewrite (Hz k x) by (by rewrite ?lookup_insert_eq). rewrite delete_id by done. lia.
Qed.
Lemma map_sumZ_elem_le f m k x :
  (forall j y, m !! j = Some y -> 0 <= f j y) -> m !! k = Some x -> f k x <= map_sumZ f m.
Proof.
  intros Hf Hk. rewrite (map_sumZ_delete f m k x Hk).
  enough (0 <= map_sumZ f (delete k m)) by lia. apply map_sumZ_nonneg.
  intros j y [_ Hj]%lookup_delete_Some. eauto.
Qed.
End MapSum.
