(* ===== verification/Text.v ===== *)
(** * Rust [str] operations

    Strings are their UTF-8 bytes.  The operations are those of the standard
    library that the engine uses on client-supplied text: trimming, lines,
    prefixes, substring search and case mapping. *)
From S2P Require Import Prelude.

(** [str::trim().is_empty()]: every character is Unicode white space.  Strings
    are their UTF-8 bytes. *)
Definition byte_of (c : Ascii.ascii) : Z := Z.of_N (Ascii.N_of_ascii c).
Definition ascii_space (b : Z) : bool := ((9 <=? b) && (b <=? 13)) || (b =? 32).
Fixpoint trim_is_empty (s : string) : bool :=
  match s with
  | EmptyString => true
  | String a s1 =>
      let x := byte_of a in
      if ascii_space x then trim_is_empty s1
      else
        match s1 with
        | String b s2 =>
            let y := byte_of b in
            if (x =? 194) && ((y =? 133) || (y =? 160)) then trim_is_empty s2
            else
              match s2 with
              | String c s3 =>
                  let z := byte_of c in
                  if ((x =? 225) && (y =? 154) && (z =? 128))
                     || ((x =? 226) && (y =? 128)
                         && (((128 <=? z) && (z <=? 138)) || (z =? 168) || (z =? 169) || (z =? 175)))
                     || ((x =? 226) && (y =? 129) && (z =? 159))
                     || ((x =? 227) && (y =? 128) && (z =? 128))
                  then trim_is_empty s3 else false
              | EmptyString => false
              end
        | EmptyString => false
        end
  end.

(** [trim_start]: drop one leading white-space character after another. *)
Fixpoint trim_start (s : string) : string :=
  match s with
  | EmptyString => EmptyString
  | String a s1 =>
      let x := byte_of a in
      if ascii_space x then trim_start s1
      else
        match s1 with
        | String b s2 =>
            let y := byte_of b in
            if (x =? 194) && ((y =? 133) || (y =? 160)) then trim_start s2
            else
              match s2 with
              | String c s3 =>
                  let z := byte_of c in
                  if ((x =? 225) && (y =? 154) && (z =? 128))
                     || ((x =? 226) && (y =? 128)
                         && (((128 <=? z) && (z <=? 138)) || (z =? 168) || (z =? 169) || (z =? 175)))
                     || ((x =? 226) && (y =? 129) && (z =? 159))
                     || ((x =? 227) && (y =? 128) && (z =? 128))
                  then trim_start s3 else s
              | EmptyString => s
              end
        | EmptyString => s
        end
  end.

(** [trim_end]: cut at the first position from which only white space follows
    (no white-space character starts with a continuation byte). *)
Fixpoint trim_end (s : string) : string :=
  if trim_is_empty s then EmptyString
  else match s with EmptyString => EmptyString | String c s' => String c (trim_end s') end.
Definition trim (s : string) : string := trim_end (trim_start s).

(** [str::strip_prefix]. *)
Fixpoint strip_prefix (p s : string) : option string :=
  match p, s with
  | EmptyString, _ => Some s
  | String a p', String b s' => if Ascii.eqb a b then strip_prefix p' s' else None
  | String _ _, EmptyString => None
  end.

(** [str::contains]. *)
Fixpoint contains (s p : string) : bool :=
  match strip_prefix p s with
  | Some _ => true
  | None => match s with EmptyString => false | String _ s' => contains s' p end
  end.

(** [str::lines]: split at [\n], dropping one trailing [\r] of each line; a final
    empty line is not a line. *)
Definition LF : Ascii.ascii := Ascii.ascii_of_nat 10.
Definition CR : Ascii.ascii := Ascii.ascii_of_nat 13.
Fixpoint strip_cr (s : string) : string :=
  match s with
  | EmptyString => EmptyString
  | String c EmptyString => if Ascii.eqb c CR then EmptyString else s
  | String c s' => String c (strip_cr s')
  end.
Fixpoint lines_from (cur s : string) : list string :=
  match s with
  | EmptyString => match cur with EmptyString => [] | _ => [cur] end
  | String c s' =>
      if Ascii.eqb c LF then strip_cr cur :: lines_from EmptyString s'
      else lines_from (String.app cur (String c EmptyString)) s'
  end.
Definition lines (s : string) : list string := lines_from EmptyString s.

(** [to_ascii_lowercase]. *)
Definition ascii_lower (c : Ascii.ascii) : Ascii.ascii :=
  let b := byte_of c in
  if (65 <=? b) && (b <=? 90) then Ascii.ascii_of_N (Z.to_N (b + 32)) else c.
Fixpoint to_ascii_lowercase (s : string) : string :=
  match s with EmptyString => EmptyString | String c s' => String (ascii_lower c) (to_ascii_lowercase s') end.

(** [to_lowercase], for matching ASCII patterns: besides the ASCII letters only
    the Kelvin sign (to [k]) and the dotted capital I (to [i] followed by a
    combining dot) have ASCII in their lower case.  Every other character maps to
    characters outside ASCII, which no pattern contains, and is kept. *)
Fixpoint to_lowercase (s : string) : string :=
  match s with
  | EmptyString => EmptyString
  | String a s1 =>
      match s1 with
      | String b s2 =>
          if (byte_of a =? 196) && (byte_of b =? 176)
          then String (Ascii.ascii_of_nat 105) (String (Ascii.ascii_of_nat 204) (String (Ascii.ascii_of_nat 135) (to_lowercase s2)))
          else
            match s2 with
            | String c s3 =>
                if (byte_of a =? 226) && (byte_of b =? 132) && (byte_of c =? 170)
                then String (Ascii.ascii_of_nat 107) (to_lowercase s3)
                else String (ascii_lower a) (to_lowercase s1)
            | EmptyString => String (ascii_lower a) (to_lowercase s1)
            end
      | EmptyString => String (ascii_lower a) (to_lowercase s1)
      end
  end.

Definition eq_ignore_ascii_case (a b : string) : bool :=
  bool_decide (to_ascii_lowercase a = to_ascii_lowercase b).

(** [str::from_utf8]: the well-formed byte sequences of the Unicode standard (no
    overlong forms, no surrogates, nothing above [U+10FFFF]). *)
Definition byte_between (lo hi : Z) (c : Ascii.ascii) : bool := (lo <=? byte_of c) && (byte_of c <=? hi).
Fixpoint is_utf8 (s : string) : bool :=
  match s with
  | EmptyString => true
  | String a s1 =>
      if byte_between 0 127 a then is_utf8 s1 else
      match s1 with
      | EmptyString => false
      | String b s2 =>
          if byte_between 194 223 a && byte_between 128 191 b then is_utf8 s2 else
          match s2 with
          | EmptyString => false
          | String c s3 =>
              if ((byte_between 224 224 a && byte_between 160 191 b)
                  || ((byte_between 225 236 a || byte_between 238 239 a) && byte_between 128 191 b)
                  || (byte_between 237 237 a && byte_between 128 159 b)) && byte_between 128 191 c
              then is_utf8 s3 else
              match s3 with
              | EmptyString => false
              | String d s4 =>
                  if ((byte_between 240 240 a && byte_between 144 191 b)
                      || (byte_between 241 243 a && byte_between 128 191 b)
                      || (byte_between 244 244 a && byte_between 128 143 b))
                     && byte_between 128 191 c && byte_between 128 191 d
                  then is_utf8 s4 else false
              end
          end
      end
  end.

(** The digits of [str::parse] for integers: at least one, and nothing else; the
    signed form takes one sign. *)
Fixpoint digits_value (acc : Z) (s : string) : option Z :=
  match s with
  | EmptyString => Some acc
  | String c s => if byte_between 48 57 c then digits_value (10 * acc + (byte_of c - 48)) s else None
  end.
Definition unsigned_value (s : string) : option Z := match s with EmptyString => None | _ => digits_value 0 s end.
Definition parse_i64 (raw : string) : option Z :=
  match raw with
  | EmptyString => None
  | String c s =>
      (if byte_of c =? 45 then Z.opp <$> unsigned_value s
       else if byte_of c =? 43 then unsigned_value s else unsigned_value raw) >>? checked_i64
  end.
Definition parse_unsigned_max (max : Z) (raw : string) : option Z :=
  match raw with
  | EmptyString => None
  | String c s => (if byte_of c =? 43 then unsigned_value s else unsigned_value raw)
                  >>? (fun z => if z <=? max then Some z else None)
  end.

(** The decimal form [pretty] writes reads back as its number. *)
Lemma digit_char (d : N) : (d < 10)%N ->
  byte_between 48 57 (pretty_N_char d) = true /\ byte_of (pretty_N_char d) - 48 = Z.of_N d.
Proof.
  intros Hd. destruct d as [|q]; [done|].
  do 4 (try destruct q as [q|q|]); try lia; by vm_compute.
Qed.
Lemma digits_go x : forall s, digits_value 0 (pretty_N_go x s) = digits_value (Z.of_N x) s.
Proof.
  induction (N.lt_wf_0 x) as [x _ IH]. intros s. destruct (decide (0 < x)%N) as [Hx|Hx].
  - rewrite pretty_N_go_step by done. rewrite IH by (apply N.div_lt; lia). cbn [digits_value].
    destruct (digit_char (x mod 10)) as [-> ->]; [apply N.mod_lt; lia|]. f_equal.
    rewrite N2Z.inj_mod, N2Z.inj_div. pose proof (Z.div_mod (Z.of_N x) 10). lia.
  - replace x with 0%N by lia. done.
Qed.
Lemma go_not_empty x s : s <> EmptyString -> pretty_N_go x s <> EmptyString.
Proof.
  revert s. induction (N.lt_wf_0 x) as [x _ IH]. intros s Hs. destruct (decide (0 < x)%N) as [Hx|Hx].
  - rewrite pretty_N_go_step by done. by apply IH; [apply N.div_lt; lia|].
  - by replace x with 0%N by lia.
Qed.
Lemma pretty_digits (x : N) : unsigned_value (pretty x) = Some (Z.of_N x).
Proof.
  unfold pretty, pretty_N. destruct (decide (x = 0%N)) as [->|Hx]; [done|].
  assert (Hn : pretty_N_go x EmptyString <> EmptyString).
  { rewrite pretty_N_go_step by lia. by apply go_not_empty. }
  change (Some (Z.of_N x)) with (digits_value (Z.of_N x) EmptyString). rewrite <- (digits_go x EmptyString).
  by destruct (pretty_N_go x EmptyString).
Qed.
Lemma unsigned_head s z : unsigned_value s = Some z -> exists c s', s = String c s' /\ byte_between 48 57 c = true.
Proof.
  destruct s as [|c s]; [done|]. cbn. destruct (byte_between 48 57 c) eqn:E; [|done]. intros _. by exists c, s.
Qed.
Lemma parse_unsigned_max_le max raw z : parse_unsigned_max max raw = Some z -> z <= max.
Proof.
  unfold parse_unsigned_max. destruct raw; [done|]. intros (y & _ & Hy)%bind_Some. destruct (y <=? max) eqn:E; simplify_eq. lia.
Qed.

(** [str::split] at a byte. *)
Fixpoint split_from (sep : Ascii.ascii) (cur s : string) : list string :=
  match s with
  | EmptyString => [cur]
  | String c s => if Ascii.eqb c sep then cur :: split_from sep EmptyString s
                  else split_from sep (String.app cur (String c EmptyString)) s
  end.
Definition split (sep : Ascii.ascii) (s : string) : list string := split_from sep EmptyString s.
(** [str::split_once]. *)
Fixpoint split_once (sep : Ascii.ascii) (s : string) : option (string * string) :=
  match s with
  | EmptyString => None
  | String c s => if Ascii.eqb c sep then Some (EmptyString, s)
                  else (fun p => (String c p.1, p.2)) <$> split_once sep s
  end.

(** Sanity of the definitions on concrete text. *)
Example trim_example : trim "  data: x " = "data: x".
Proof. reflexivity. Qed.
Example contains_example : contains (to_lowercase "Claude-OPUS-4-8") "opus-4-8" = true.
Proof. reflexivity. Qed.
