(* ===== verification/ApiLimits.v ===== *)
(** * Payload limits ([crates/api-limits/src/lib.rs])

    The checked limit contract shared by the router and the provider planes:
    byte limits, admission units, the strict decimal parsers of the limit
    environment variables, the relationship check on a configuration
    ([BodyLimits::validate]) and the compiled production limits.  A
    [ByteLimit] newtype is represented by the [u64] it wraps. *)
From S2P Require Import Prelude.

Definition MIB : Z := 1024 * 1024.

(** [struct ByteLimit(u64)]; [from_bytes] and [bytes] are the identity. *)
Abbreviation ByteLimit := Z (only parsing).

Inductive LimitError : Type :=
| Zero
| InvalidDecimal
| ArithmeticOverflow
| PlatformOverflow
| RequestExceedsHardCeiling
| RequestExceedsSpool
| SpoolExceedsHardCeiling
| MemoryBudgetExceedsHardCeiling
| MemoryThresholdExceedsRequest
| ResponseExceedsHardCeiling
| ResponseExceedsProcessBudget
| FrameEnvelopeTooSmall.

#[global] Instance LimitError_eq_dec : EqDecision LimitError.
Proof. solve_decision. Defined.

Definition from_mib (mib : Z) : option ByteLimit := checked_u64 (mib * MIB).

(** [as_usize]: [usize_max] is the platform's address width. *)
Definition as_usize (usize_max : Z) (b : ByteLimit) : result LimitError Z :=
  if b <=? usize_max then Ok b else Err PlatformOverflow.

Definition ByteLimit_checked_add (a b : ByteLimit) : option ByteLimit := checked_u64 (a + b).

(** [impl Display for ByteLimit]. *)
Definition ByteLimit_to_string (b : ByteLimit) : string :=
  if b mod MIB =? 0 then (pretty (b / MIB) +:+ " MiB")%string
  else (pretty b +:+ " bytes")%string.

(** [struct AdmissionUnits(u32)]: [AdmissionUnits::new]. *)
Definition AdmissionUnits_new (units : Z) : option Z :=
  if units =? 0 then None else Some units.

Definition for_bytes (bytes unit : ByteLimit) : result LimitError Z :=
  guard_ok (negb (unit =? 0)) Zero;;
  sum ← ok_or (checked_u64 (bytes + (unit - 1))) ArithmeticOverflow;
  let rounded := sum / unit in
  units ← ok_or (checked_u32 rounded) ArithmeticOverflow;
  ok_or (AdmissionUnits_new units) Zero.

(** ** The decimal parsers *)
Definition is_ascii_digit (c : Ascii.ascii) : bool :=
  let n := Z.of_N (Ascii.N_of_ascii c) in (48 <=? n) && (n <=? 57).
Definition digit_value (c : Ascii.ascii) : Z := Z.of_N (Ascii.N_of_ascii c) - 48.

Fixpoint string_all (p : Ascii.ascii -> bool) (s : string) : bool :=
  match s with
  | EmptyString => true
  | String c s => p c && string_all p s
  end.

(** [str::parse::<u64>] on a non-empty digit string: one checked
    multiply-and-add per digit, most significant first. *)
Fixpoint parse_u64_from (acc : Z) (s : string) : option Z :=
  match s with
  | EmptyString => Some acc
  | String c s =>
      scaled ← checked_u64 (acc * 10);
      next ← checked_u64 (scaled + digit_value c);
      parse_u64_from next s
  end.

Definition parse_decimal_mib (value : string) : result LimitError ByteLimit :=
  guard_ok (negb (String.eqb value EmptyString) && string_all is_ascii_digit value) InvalidDecimal;;
  mib ← ok_or (parse_u64_from 0 value) ArithmeticOverflow;
  guard_ok (negb (mib =? 0)) Zero;;
  ok_or (from_mib mib) ArithmeticOverflow.

Definition parse_decimal_seconds (value : string) : result LimitError Z :=
  guard_ok (negb (String.eqb value EmptyString) && string_all is_ascii_digit value) InvalidDecimal;;
  seconds ← ok_or (parse_u64_from 0 value) ArithmeticOverflow;
  guard_ok (negb (seconds =? 0)) Zero;;
  Ok seconds.

(** ** The relationship check *)
Record BodyLimits := {
  bl_request : ByteLimit;
  bl_memory_budget : ByteLimit;
  bl_spool_budget : ByteLimit;
  bl_memory_threshold : ByteLimit;
  bl_response : ByteLimit
}.

Definition hard_REQUEST : ByteLimit := 256 * MIB.
Definition hard_RESPONSE : ByteLimit := 256 * MIB.
Definition hard_SPOOL : ByteLimit := 16 * 1024 * MIB.
Definition hard_MEMORY_BUDGET : ByteLimit := 8 * 1024 * MIB.
Definition hard_GEMINI_FRAME : ByteLimit := 257 * MIB.

Definition BodyLimits_validate (l : BodyLimits) (spool_hard_ceiling : ByteLimit)
    : result LimitError BodyLimits :=
  guard_ok (negb ((bl_request l =? 0) || (bl_memory_budget l =? 0) || (bl_spool_budget l =? 0)
                  || (bl_memory_threshold l =? 0) || (bl_response l =? 0))) Zero;;
  guard_ok (bl_request l <=? hard_REQUEST) RequestExceedsHardCeiling;;
  guard_ok (bl_request l <=? bl_spool_budget l) RequestExceedsSpool;;
  guard_ok (bl_spool_budget l <=? spool_hard_ceiling) SpoolExceedsHardCeiling;;
  guard_ok (bl_memory_budget l <=? hard_MEMORY_BUDGET) MemoryBudgetExceedsHardCeiling;;
  guard_ok (bl_memory_threshold l <=? bl_request l) MemoryThresholdExceedsRequest;;
  guard_ok (bl_response l <=? hard_RESPONSE) ResponseExceedsHardCeiling;;
  guard_ok (bl_response l <=? bl_memory_budget l) ResponseExceedsProcessBudget;;
  Ok l.

Definition validate_frame_envelope (body framing_overhead envelope : ByteLimit)
    : result LimitError () :=
  required ← ok_or (ByteLimit_checked_add body framing_overhead) ArithmeticOverflow;
  if envelope <? required then Err FrameEnvelopeTooSmall else Ok ().

(** [mod current]: the compiled production limits. *)
Definition current_ROUTER : BodyLimits := {|
  bl_request := 256 * MIB;
  bl_memory_budget := 4 * 1024 * MIB;
  bl_spool_budget := 16 * 1024 * MIB;
  bl_memory_threshold := 8 * MIB;
  bl_response := 32 * MIB |}.
Definition current_PROVIDER : BodyLimits := {|
  bl_request := 32 * MIB;
  bl_memory_budget := 4 * 1024 * MIB;
  bl_spool_budget := 16 * 1024 * MIB;
  bl_memory_threshold := 8 * MIB;
  bl_response := 256 * MIB |}.

(** ** Reference value of a digit string, and the parser's correctness *)
Fixpoint decimal_value (acc : Z) (s : string) : Z :=
  match s with
  | EmptyString => acc
  | String c s => decimal_value (acc * 10 + digit_value c) s
  end.

Lemma digit_value_range c : is_ascii_digit c = true -> 0 <= digit_value c <= 9.
Proof. unfold is_ascii_digit, digit_value. lia. Qed.

Lemma decimal_value_ge s : forall acc,
  string_all is_ascii_digit s = true -> 0 <= acc -> acc <= decimal_value acc s.
Proof.
  induction s as [|c s IH]; intros acc Hs Hacc; simpl in *; [lia|].
  apply andb_true_iff in Hs as [Hc Hs]. apply digit_value_range in Hc.
  specialize (IH (acc * 10 + digit_value c) Hs). lia.
Qed.

(** The per-digit overflow checks refuse exactly the strings whose value does
    not fit [u64]. *)
Lemma parse_u64_from_spec s : forall acc,
  string_all is_ascii_digit s = true -> is_u64 acc ->
  parse_u64_from acc s = checked_u64 (decimal_value acc s).
Proof.
  induction s as [|c s IH]; intros acc Hs Hacc; simpl in *.
  { symmetry. by apply checked_u64_Some. }
  apply andb_true_iff in Hs as [Hc Hs]. apply digit_value_range in Hc.
  pose proof (decimal_value_ge s (acc * 10 + digit_value c) Hs) as Hge.
  destruct (checked_u64 (acc * 10)) as [m|] eqn:E1; cbn.
  - apply checked_u64_Some in E1 as [-> ?].
    destruct (checked_u64 (acc * 10 + _)) as [n|] eqn:E2; cbn.
    + apply checked_u64_Some in E2 as [-> ?]. by apply IH.
    + apply checked_u64_None in E2. symmetry. apply checked_u64_None. width_lia.
  - apply checked_u64_None in E1. symmetry. apply checked_u64_None. width_lia.
Qed.

Lemma decimal_value_nonneg s : string_all is_ascii_digit s = true -> 0 <= decimal_value 0 s.
Proof. intros Hs. apply (decimal_value_ge s 0 Hs). lia. Qed.

(** ** Properties *)

(** [parse_decimal_mib] on every input: a string that is not a non-empty run
    of ASCII digits is [InvalidDecimal]; otherwise the decimal value decides,
    overflow being reported exactly when the value, or the value in bytes, does
    not fit [u64]. *)
Theorem parse_decimal_mib_spec (s : string) :
  parse_decimal_mib s =
    if negb (String.eqb s EmptyString) && string_all is_ascii_digit s then
      let v := decimal_value 0 s in
      if u64_max <? v then Err ArithmeticOverflow
      else if v =? 0 then Err Zero
      else if u64_max <? v * MIB then Err ArithmeticOverflow
      else Ok (v * MIB)
    else Err InvalidDecimal.
Proof.
  unfold parse_decimal_mib.
  destruct (negb _ && _) eqn:Hs; cbn; [|done].
  apply andb_true_iff in Hs as [_ Hs].
  rewrite parse_u64_from_spec by (done || width_lia).
  pose proof (decimal_value_nonneg s Hs) as Hv. set (v := decimal_value 0 s) in *.
  destruct (Z.ltb_spec u64_max v) as [Hbig|Hfit].
  - rewrite (proj2 (checked_u64_None v)) by width_lia. done.
  - rewrite (proj2 (checked_u64_Some v v)) by width_lia. cbn.
    destruct (Z.eqb_spec v 0); cbn; [done|]. unfold from_mib, MIB.
    destruct (Z.ltb_spec u64_max (v * (1024 * 1024))).
    + rewrite (proj2 (checked_u64_None _)) by width_lia. done.
    + by rewrite (proj2 (checked_u64_Some _ (v * (1024 * 1024)))) by width_lia.
Qed.

(** [AdmissionUnits::for_bytes] returns [n] exactly when [n] is the least
    number of units that covers a non-zero weight, the unit is non-zero, and
    neither the rounding sum nor [n] leaves its machine width. *)
Theorem for_bytes_least_cover (bytes unit n : Z) :
  is_u64 bytes -> is_u64 unit ->
  for_bytes bytes unit = Ok n <->
  0 < unit /\ 0 < bytes /\ bytes + (unit - 1) <= u64_max /\ n <= u32_max
  /\ (n - 1) * unit < bytes <= n * unit.
Proof.
  intros Hb Hu. unfold for_bytes.
  destruct (Z.eqb_spec unit 0) as [->|Hne]; cbn; [split; [done|lia]|].
  destruct (checked_u64 _) as [sum|] eqn:E; cbn.
  2: { apply checked_u64_None in E. split; [done|width_lia]. }
  apply checked_u64_Some in E as [-> Hsum].
  pose proof (ceil_div_nonneg bytes unit ltac:(width_lia) ltac:(width_lia)).
  pose proof (ceil_div_spec bytes unit n ltac:(width_lia)) as Hspec.
  destruct (checked_u32 _) as [k|] eqn:E; cbn.
  - apply checked_u32_Some in E as [-> Hk]. unfold AdmissionUnits_new.
    destruct (Z.eqb_spec ((bytes + (unit - 1)) / unit) 0) as [E0|E0]; cbn; split.
    + done.
    + intros (_&?&_&_&Hn). pose proof (proj2 Hspec Hn). nia.
    + intros [= <-]. assert (Hn : (bytes + (unit - 1)) / unit = (bytes + (unit - 1)) / unit) by done.
      apply (ceil_div_spec bytes unit _ ltac:(width_lia)) in Hn.
      set (k := (bytes + (unit - 1)) / unit) in *.
      assert (0 <= (k - 1) * unit) by (apply Z.mul_nonneg_nonneg; width_lia).
      repeat split; width_lia.
    + intros (_&_&_&_&Hn). by apply Hspec in Hn as ->.
  - split; [done|]. intros (_&_&_&Hn32&Hn). apply Hspec in Hn. subst n.
    unfold checked_u32 in E. case_decide; [done|]. width_lia.
Qed.

Lemma for_bytes_least_cover_witness : for_bytes (MIB + 1) MIB = Ok 2.
Proof. apply (for_bytes_least_cover (MIB + 1) MIB 2); vm_compute; intuition discriminate. Defined.

(** A configuration passes [BodyLimits::validate] exactly when every limit is
    non-zero and the ordering chain
    [memory_threshold <= request <= spool_budget <= ceiling],
    [response <= memory_budget] and the compile-time ceilings hold; it is then
    returned unchanged. *)
Theorem BodyLimits_validate_iff (l l' : BodyLimits) (ceiling : Z) :
  BodyLimits_validate l ceiling = Ok l' <->
  l' = l
  /\ bl_request l <> 0 /\ bl_memory_budget l <> 0 /\ bl_spool_budget l <> 0
  /\ bl_memory_threshold l <> 0 /\ bl_response l <> 0
  /\ bl_memory_threshold l <= bl_request l /\ bl_request l <= bl_spool_budget l
  /\ bl_spool_budget l <= ceiling /\ bl_request l <= hard_REQUEST
  /\ bl_response l <= bl_memory_budget l /\ bl_memory_budget l <= hard_MEMORY_BUDGET
  /\ bl_response l <= hard_RESPONSE.
Proof.
  unfold BodyLimits_validate. split.
  - intros H. inv_ok. rewrite negb_true_iff, !orb_false_iff, !Z.eqb_neq in *.
    rewrite !Z.leb_le in *. naive_solver.
  - intros (->&?&?&?&?&?&?&?&?&?&?&?&?).
    repeat first [ rewrite (proj2 (Z.leb_le _ _)) by done
                 | rewrite (proj2 (Z.eqb_neq _ _)) by done ]; done.
Qed.

(** The compiled production configurations satisfy the contract with the
    compiled spool ceiling. *)
Theorem production_limits_validate :
  BodyLimits_validate current_ROUTER hard_SPOOL = Ok current_ROUTER
  /\ BodyLimits_validate current_PROVIDER hard_SPOOL = Ok current_PROVIDER.
Proof. split; reflexivity. Qed.
