(* ===== verification/Budget.v ===== *)
(** * Byte budgets ([crates/bounded-body/src/budget.rs])

    A [Budget] is an [Arc<Inner>]: a shared cell with an immutable capacity and
    an atomic [used_units] counter.  Cells live in a [heap]; a [Reservation]
    names the cell it draws from and the units it holds, so clones of a budget
    handle alias the same cell.  [owned h rs] is the accounting invariant of a
    heap whose live reservations are [rs]: every cell's counter is exactly the
    sum of the reservations drawn from it.  The second half refines the
    operations to interleaved atomic steps. *)
From S2P Require Import Prelude.

(** ** Data *)
Record Inner := mkInner {
  capacity_units : Z;
  unit_bytes : Z;
  used_units : Z
}.
#[global] Instance Inner_inhabited : Inhabited Inner := populate (mkInner 1 1 0).
#[global] Instance Inner_eq_dec : EqDecision Inner.
Proof. solve_decision. Defined.

Inductive BudgetConfigError : Type := ZeroCapacity | ZeroUnit | BudgetArithmeticOverflow.
Inductive CapacityError : Type := CapArithmeticOverflow | Exhausted.
Inductive ReservationError : Type := CannotGrowWithShrink.

(** The cells behind the [Arc]s. *)
Abbreviation heap := (gmap positive Inner).

Record Reservation := mkRes {
  res_budget : positive;
  res_units : Z
}.
#[global] Instance Reservation_eq_dec : EqDecision Reservation.
Proof. solve_decision. Defined.

Definition set_used (i : Inner) (u : Z) : Inner :=
  mkInner (capacity_units i) (unit_bytes i) u.

(** ** Operations *)
Definition units_for_capacity (bytes unit : Z) : result CapacityError Z :=
  if bytes =? 0 then Ok 0
  else
    rounded ← ok_or (checked_u64 (bytes + wrap_u64 (unit - 1))) CapArithmeticOverflow;
    Ok (rounded / unit).

(** [Budget::new]: allocates a fresh cell. *)
Definition Budget_new (h : heap) (capacity unit : Z)
    : result BudgetConfigError (heap * positive) :=
  guard_ok (negb (capacity =? 0)) ZeroCapacity;;
  guard_ok (negb (unit =? 0)) ZeroUnit;;
  let units := capacity / unit in
  guard_ok (negb (units =? 0)) ZeroCapacity;;
  let l := fresh (dom h) in
  Ok (<[l := mkInner units unit 0]> h, l).

(** The atomic [fetch_update] of [Budget::acquire]. *)
Definition acquire_cell (i : Inner) (units : Z) : result CapacityError Inner :=
  if units =? 0 then Ok i
  else
    match checked_u64 (used_units i + units) with
    | Some next =>
        if next <=? capacity_units i then Ok (set_used i next) else Err Exhausted
    | None => Err Exhausted
    end.

(** The atomic [fetch_sub] of [Budget::release], which wraps. *)
Definition release_cell (i : Inner) (units : Z) : Inner :=
  if units =? 0 then i else set_used i (wrap_u64 (used_units i - units)).

Definition acquire (h : heap) (l : positive) (units : Z) : result CapacityError heap :=
  i ← acquire_cell (h !!! l) units; Ok (<[l := i]> h).
Definition release (h : heap) (l : positive) (units : Z) : heap :=
  <[l := release_cell (h !!! l) units]> h.

Definition try_reserve (h : heap) (l : positive) (weight : Z)
    : result CapacityError (heap * Reservation) :=
  units ← units_for_capacity weight (unit_bytes (h !!! l));
  h' ← acquire h l units;
  Ok (h', mkRes l units).

Definition capacity_bytes (h : heap) (l : positive) : Z :=
  sat_u64 (capacity_units (h !!! l) * unit_bytes (h !!! l)).
Definition used_bytes (h : heap) (l : positive) : Z :=
  sat_u64 (used_units (h !!! l) * unit_bytes (h !!! l)).
Definition reservation_bytes (h : heap) (r : Reservation) : Z :=
  sat_u64 (res_units r * unit_bytes (h !!! res_budget r)).

(** [Arc::ptr_eq]. *)
Definition belongs_to (r : Reservation) (l : positive) : bool := bool_decide (res_budget r = l).

Definition try_grow_to (h : heap) (r : Reservation) (weight : Z)
    : result CapacityError (heap * Reservation) :=
  target ← units_for_capacity weight (unit_bytes (h !!! res_budget r));
  if target <=? res_units r then Ok (h, r)
  else
    h' ← acquire h (res_budget r) (target - res_units r);
    Ok (h', mkRes (res_budget r) target).

Definition shrink_to (h : heap) (r : Reservation) (weight : Z)
    : result ReservationError (heap * Reservation) :=
  target ← map_err (fun _ => CannotGrowWithShrink)
             (units_for_capacity weight (unit_bytes (h !!! res_budget r)));
  if res_units r <? target then Err CannotGrowWithShrink
  else Ok (release h (res_budget r) (res_units r - target), mkRes (res_budget r) target).

Definition try_replace (h : heap) (r : Reservation) (weight : Z)
    : result CapacityError (heap * Reservation) :=
  target ← units_for_capacity weight (unit_bytes (h !!! res_budget r));
  h' ← (if res_units r <? target then acquire h (res_budget r) (target - res_units r)
        else Ok (release h (res_budget r) (res_units r - target)));
  Ok (h', mkRes (res_budget r) target).

(** [Reservation::take]: the old handle keeps zero units, the new one the rest. *)
Definition take_units (r : Reservation) : Reservation * Reservation :=
  (mkRes (res_budget r) 0, r).

(** [Drop for Reservation]. *)
Definition drop_res (h : heap) (r : Reservation) : heap := release h (res_budget r) (res_units r).

(** ** The accounting invariant *)
Definition wf_inner (i : Inner) : Prop :=
  0 < unit_bytes i <= u64_max /\ 0 < capacity_units i <= u64_max
  /\ 0 <= used_units i <= capacity_units i.

Definition units_at (l : positive) (r : Reservation) : Z :=
  if decide (res_budget r = l) then res_units r else 0.

Record owned (h : heap) (rs : list Reservation) : Prop := {
  owned_wf : forall l i, h !! l = Some i -> wf_inner i;
  owned_used : forall l i, h !! l = Some i -> used_units i = sumZ (units_at l) rs;
  owned_nonneg : forall r, r ∈ rs -> 0 <= res_units r;
  owned_alloc : forall r, r ∈ rs -> is_Some (h !! res_budget r)
}.

#[global] Instance owned_proper h : Proper ((≡ₚ) ==> iff) (owned h).
Proof.
  assert (forall l k, l ≡ₚ k -> owned h l -> owned h k) as Hmono.
  { intros l k P [Hwf Hu Hn Ha].
    split; [done| | |]; intros; [rewrite <- P; eauto | apply Hn | apply Ha]; by rewrite P. }
  intros l k P. split; eauto using Permutation_sym.
Qed.

Lemma total_lookup (h : heap) l i : h !! l = Some i -> h !!! l = i.
Proof. apply lookup_total_correct. Qed.

(** The rounding of weights to units. *)
Lemma units_for_capacity_Ok b u n :
  0 < u <= u64_max -> is_u64 b ->
  units_for_capacity b u = Ok n ->
  n = (b + (u - 1)) / u /\ 0 <= n <= u64_max.
Proof.
  intros Hu Hb. unfold units_for_capacity. destruct (Z.eqb_spec b 0) as [->|Hne].
  - intros [= <-]. rewrite Z.div_small; width_lia.
  - unwrap. intros H. inv_ok.
    split; [done|]. split; [apply ceil_div_nonneg|apply ceil_div_le_u64]; width_lia.
Qed.

Lemma acquire_cell_Ok i n i' :
  wf_inner i -> 0 <= n ->
  acquire_cell i n = Ok i' <-> i' = set_used i (used_units i + n) /\ used_units i + n <= capacity_units i.
Proof.
  intros (?&?&?) Hn. unfold acquire_cell. destruct (Z.eqb_spec n 0) as [->|Hne].
  - rewrite Z.add_0_r. destruct i; cbn in *. naive_solver lia.
  - destruct (checked_u64 _) as [k|] eqn:E.
    + apply checked_u64_Some in E as [-> ?].
      destruct (Z.leb_spec (used_units i + n) (capacity_units i)); naive_solver lia.
    + apply checked_u64_None in E. split; [done|]. width_lia.
Qed.

Lemma release_cell_eq i n :
  wf_inner i -> 0 <= n <= used_units i -> release_cell i n = set_used i (used_units i - n).
Proof.
  intros (?&?&?) Hn. unfold release_cell. destruct (Z.eqb_spec n 0) as [->|Hne].
  - rewrite Z.sub_0_r. by destruct i.
  - unwrap. done.
Qed.

Section OwnedOps.
Context (h : heap) (r : Reservation) (rs : list Reservation).
Hypothesis HO : owned h (r :: rs).

Lemma owned_head : exists i, h !! res_budget r = Some i /\ h !!! res_budget r = i /\ wf_inner i
  /\ 0 <= res_units r <= used_units i.
Proof.
  destruct HO as [Hwf Hu Hn Ha].
  destruct (Ha r ltac:(set_solver)) as [i Hi]. exists i.
  split; [done|]. split; [by apply total_lookup|]. split; [eauto|].
  split; [apply Hn; set_solver|]. rewrite (Hu _ _ Hi). simpl.
  unfold units_at at 1. rewrite decide_True by done.
  enough (0 <= sumZ (units_at (res_budget r)) rs) by lia. apply sumZ_nonneg.
  intros x Hx. unfold units_at. case_decide; [apply Hn; set_solver|lia].
Qed.

(** One reservation changes its units, its cell's counter follows. *)
Lemma owned_update i n :
  h !! res_budget r = Some i -> 0 <= n ->
  used_units i + (n - res_units r) <= capacity_units i ->
  owned (<[res_budget r := set_used i (used_units i + (n - res_units r))]> h)
        (mkRes (res_budget r) n :: rs).
Proof.
  intros Hi Hn0 Hcap. destruct owned_head as (i' & Hi' & _ & Hw & Hle).
  simplify_eq. destruct HO as [Hwf Hu Hn Ha]. split.
  - intros l j. rewrite lookup_insert. case_decide as E; [intros [= <-]|eauto].
    destruct Hw as (?&?&?). unfold wf_inner. cbn. lia.
  - intros l j. rewrite lookup_insert. case_decide as E.
    + intros [= <-]. subst l. cbn [used_units set_used sumZ]. rewrite (Hu _ _ Hi). cbn [sumZ].
      unfold units_at at 1 3. cbn. rewrite !decide_True by done. lia.
    + intros Hj. rewrite (Hu _ _ Hj). cbn [sumZ]. unfold units_at at 1 3. cbn.
      by rewrite !decide_False by done.
  - intros x [->|Hx]%elem_of_cons; [done|]. apply Hn. set_solver.
  - intros x Hx. rewrite lookup_insert. case_decide; [eauto|].
    apply elem_of_cons in Hx as [->|Hx]; [done|]. apply Ha. set_solver.
Qed.

Lemma owned_same_units : owned h (mkRes (res_budget r) (res_units r) :: rs).
Proof. by destruct r. Qed.

Lemma units_of_weight_range w n :
  is_u64 w -> units_for_capacity w (unit_bytes (h !!! res_budget r)) = Ok n -> 0 <= n <= u64_max.
Proof.
  intros Hw Hn. destruct owned_head as (i & _ & Ei & (?&?&?) & _). rewrite Ei in Hn.
  by apply units_for_capacity_Ok in Hn as [_ ?].
Qed.

Lemma acquire_owned n h' :
  0 <= n -> acquire h (res_budget r) n = Ok h' ->
  owned h' (mkRes (res_budget r) (res_units r + n) :: rs).
Proof.
  intros Hn. unfold acquire. destruct owned_head as (i & Hi & Ei & Hw & Hle). rewrite Ei.
  intros (i' & Hacq & [= <-])%bind_Ok.
  apply acquire_cell_Ok in Hacq as [-> Hcap]; [|done..].
  pose proof (owned_update i (res_units r + n) Hi ltac:(lia) ltac:(lia)) as H.
  by replace (used_units i + (res_units r + n - res_units r)) with (used_units i + n) in H by lia.
Qed.

Lemma release_owned n :
  0 <= n <= res_units r -> owned (release h (res_budget r) n) (mkRes (res_budget r) (res_units r - n) :: rs).
Proof.
  intros Hn. unfold release. destruct owned_head as (i & Hi & Ei & Hw & Hle). rewrite Ei.
  rewrite release_cell_eq by (done || lia). destruct Hw as (?&?&?).
  pose proof (owned_update i (res_units r - n) Hi ltac:(lia) ltac:(lia)) as H'.
  by replace (used_units i + (res_units r - n - res_units r)) with (used_units i - n) in H' by lia.
Qed.
End OwnedOps.

(** ** Per-operation contracts
    Each operation on one reservation preserves [owned] with every other live
    reservation ([rs]) framed. *)
Definition same_geometry (h h' : heap) : Prop := forall l,
  unit_bytes (h' !!! l) = unit_bytes (h !!! l) /\ capacity_units (h' !!! l) = capacity_units (h !!! l).

#[global] Instance same_geometry_preorder : PreOrder same_geometry.
Proof. split; unfold same_geometry; [done|]. intros ??? H1 H2 l. naive_solver congruence. Qed.

Lemma insert_geometry (h : heap) l i :
  unit_bytes i = unit_bytes (h !!! l) -> capacity_units i = capacity_units (h !!! l) ->
  same_geometry h (<[l := i]> h).
Proof.
  intros E1 E2 k. destruct (decide (l = k)) as [->|Hne].
  - by rewrite lookup_total_insert_eq.
  - by rewrite lookup_total_insert_ne.
Qed.

Lemma acquire_geometry h l n h' : acquire h l n = Ok h' -> same_geometry h h'.
Proof.
  unfold acquire. intros (i & Hi & [= <-])%bind_Ok.
  assert (unit_bytes i = unit_bytes (h !!! l) /\ capacity_units i = capacity_units (h !!! l)) as [].
  { unfold acquire_cell in Hi. repeat case_match; by simplify_eq/=. }
  by apply insert_geometry.
Qed.
Lemma release_geometry h l n : same_geometry h (release h l n).
Proof. apply insert_geometry; unfold release_cell; by case_match. Qed.

Lemma owned_zero h l rs : owned h rs -> is_Some (h !! l) <-> owned h (mkRes l 0 :: rs).
Proof.
  intros [Hwf Hu Hn Ha]. split.
  - intros Hl. split; [done| | |].
    + intros k i Hk. rewrite (Hu _ _ Hk). cbn [sumZ]. unfold units_at at 2. cbn. by case_decide.
    + intros x [->|]%elem_of_cons; [done|eauto].
    + intros x [->|]%elem_of_cons; [done|eauto].
  - intros [_ _ _ Ha']. apply (Ha' (mkRes l 0)). set_solver.
Qed.

Lemma owned_drop_zero h l rs : owned h (mkRes l 0 :: rs) -> owned h rs.
Proof.
  intros [Hwf Hu Hn Ha]. split; [done| | |]; [|set_solver..].
  intros k i Hk. rewrite (Hu _ _ Hk). cbn [sumZ]. unfold units_at at 1. cbn. by case_decide.
Qed.

Lemma try_grow_to_owned h r rs w h' r' :
  owned h (r :: rs) -> is_u64 w -> try_grow_to h r w = Ok (h', r') ->
  owned h' (r' :: rs) /\ res_budget r' = res_budget r /\ same_geometry h h'
  /\ exists n, units_for_capacity w (unit_bytes (h !!! res_budget r)) = Ok n
               /\ res_units r' = Z.max (res_units r) n.
Proof.
  intros HO Hw. unfold try_grow_to. intros (n & Hn & Hk)%bind_Ok.
  pose proof (units_of_weight_range _ _ _ HO _ _ Hw Hn).
  destruct (Z.leb_spec n (res_units r)).
  - injection Hk as <- <-. split; [done|]. split; [done|]. split; [done|].
    exists n. split; [done|lia].
  - apply bind_Ok in Hk as (h1 & Hacq & [= <- <-]).
    pose proof (acquire_geometry _ _ _ _ Hacq). apply acquire_owned with (rs := rs) in Hacq; [|done|lia].
    replace (res_units r + (n - res_units r)) with n in Hacq by lia.
    split; [done|]. split; [done|]. split; [done|]. exists n. split; [done|cbn; lia].
Qed.

Lemma shrink_to_owned h r rs w h' r' :
  owned h (r :: rs) -> is_u64 w -> shrink_to h r w = Ok (h', r') ->
  owned h' (r' :: rs) /\ res_budget r' = res_budget r /\ same_geometry h h'
  /\ units_for_capacity w (unit_bytes (h !!! res_budget r)) = Ok (res_units r')
  /\ res_units r' <= res_units r.
Proof.
  intros HO Hw. unfold shrink_to. intros (n & Hn & Hk)%bind_Ok. apply map_err_Ok in Hn.
  pose proof (units_of_weight_range _ _ _ HO _ _ Hw Hn).
  destruct (Z.ltb_spec (res_units r) n); [done|]. injection Hk as <- <-. cbn.
  split; [|split; [done|]; split; [apply release_geometry|]; split; [done|lia]].
  pose proof (release_owned _ _ _ HO (res_units r - n) ltac:(lia)) as Hr.
  by replace (res_units r - (res_units r - n)) with n in Hr by lia.
Qed.

(** [shrink_to] refuses nothing that fits in the reservation. *)
Lemma shrink_to_total h r rs w :
  owned h (r :: rs) -> is_u64 w ->
  (exists n, units_for_capacity w (unit_bytes (h !!! res_budget r)) = Ok n /\ n <= res_units r) ->
  exists h' r', shrink_to h r w = Ok (h', r').
Proof.
  intros HO Hw (n & Hn & Hle). unfold shrink_to. rewrite Hn. cbn.
  destruct (Z.ltb_spec (res_units r) n); [lia|]. eauto.
Qed.

Lemma try_replace_owned h r rs w h' r' :
  owned h (r :: rs) -> is_u64 w -> try_replace h r w = Ok (h', r') ->
  owned h' (r' :: rs) /\ res_budget r' = res_budget r /\ same_geometry h h'
  /\ units_for_capacity w (unit_bytes (h !!! res_budget r)) = Ok (res_units r').
Proof.
  intros HO Hw. unfold try_replace. intros (n & Hn & Hk)%bind_Ok.
  pose proof (units_of_weight_range _ _ _ HO _ _ Hw Hn).
  apply bind_Ok in Hk as (h1 & Hc & [= <- <-]). cbn. destruct (Z.ltb_spec (res_units r) n).
  - pose proof (acquire_geometry _ _ _ _ Hc). apply acquire_owned with (rs := rs) in Hc; [|done|lia].
    by replace (res_units r + (n - res_units r)) with n in Hc by lia.
  - injection Hc as <-. split; [|split; [done|]; split; [apply release_geometry|done]].
    pose proof (release_owned _ _ _ HO (res_units r - n) ltac:(lia)) as Hr.
    by replace (res_units r - (res_units r - n)) with n in Hr by lia.
Qed.

Lemma try_reserve_owned h l rs w h' r :
  owned h rs -> is_Some (h !! l) -> is_u64 w -> try_reserve h l w = Ok (h', r) ->
  owned h' (r :: rs) /\ res_budget r = l /\ same_geometry h h'
  /\ units_for_capacity w (unit_bytes (h !!! l)) = Ok (res_units r).
Proof.
  intros HO Hl Hw. unfold try_reserve. intros (n & Hn & Hk)%bind_Ok.
  apply bind_Ok in Hk as (h1 & Hacq & [= <- <-]).
  pose proof (acquire_geometry _ _ _ _ Hacq). apply (owned_zero h l rs HO) in Hl.
  pose proof (units_of_weight_range _ _ _ Hl _ _ Hw Hn).
  by apply (acquire_owned _ _ _ Hl) in Hacq; [|lia].
Qed.

Lemma take_units_owned h r rs :
  owned h (r :: rs) -> owned h ((take_units r).1 :: (take_units r).2 :: rs).
Proof. intros HO. cbn. apply owned_zero; [done|]. apply HO. set_solver. Qed.

Lemma drop_res_owned h r rs : owned h (r :: rs) -> owned (drop_res h r) rs.
Proof.
  intros HO. destruct (owned_head _ _ _ HO) as (i & _ & _ & _ & Hle).
  pose proof (release_owned _ _ _ HO (res_units r) ltac:(lia)) as Hr.
  rewrite Z.sub_diag in Hr. by apply owned_drop_zero in Hr.
Qed.

Lemma Budget_new_owned h rs capacity unit h' l :
  owned h rs -> is_u64 capacity -> is_u64 unit -> Budget_new h capacity unit = Ok (h', l) ->
  owned h' rs /\ h !! l = None /\ h' = <[l := mkInner (capacity / unit) unit 0]> h.
Proof.
  intros [Hwf Hu Hn Ha] Hc Huu. unfold Budget_new. intros H.
  inv_ok. rewrite !negb_true_iff, !Z.eqb_neq in *.
  assert (Hf : h !! fresh (dom h) = None).
  { apply not_elem_of_dom. apply is_fresh. }
  pose proof (Z.div_pos capacity unit ltac:(width_lia) ltac:(width_lia)).
  assert (capacity / unit <= capacity) by (apply Z.div_le_upper_bound; unfold_widths; nia).
  split; [|done]. split.
  - intros k i. rewrite lookup_insert. case_decide; [|eauto]. intros [= <-].
    unfold wf_inner. cbn. width_lia.
  - intros k i. rewrite lookup_insert. case_decide as E; [|eauto]. intros [= <-]. cbn.
    symmetry. apply sumZ_zero. intros r Hr. unfold units_at. case_decide as E2; [|done].
    destruct (Ha r Hr) as [j Hj]. congruence.
  - done.
  - intros r Hr. rewrite lookup_insert. case_decide; eauto.
Qed.

(** ** The public operations as a transition system
    A state is the heap together with the live reservations; any owner may act
    next on any reservation.  A failing operation changes nothing. *)
Inductive bstep : heap * list Reservation -> heap * list Reservation -> Prop :=
| bs_new h rs capacity unit h' l :
    is_u64 capacity -> is_u64 unit -> Budget_new h capacity unit = Ok (h', l) ->
    bstep (h, rs) (h', rs)
| bs_reserve h rs l w h' r :
    is_Some (h !! l) -> is_u64 w -> try_reserve h l w = Ok (h', r) ->
    bstep (h, rs) (h', r :: rs)
| bs_grow h rs r rest w h' r' :
    rs ≡ₚ r :: rest -> is_u64 w -> try_grow_to h r w = Ok (h', r') ->
    bstep (h, rs) (h', r' :: rest)
| bs_shrink h rs r rest w h' r' :
    rs ≡ₚ r :: rest -> is_u64 w -> shrink_to h r w = Ok (h', r') ->
    bstep (h, rs) (h', r' :: rest)
| bs_replace h rs r rest w h' r' :
    rs ≡ₚ r :: rest -> is_u64 w -> try_replace h r w = Ok (h', r') ->
    bstep (h, rs) (h', r' :: rest)
| bs_take h rs r rest :
    rs ≡ₚ r :: rest -> bstep (h, rs) (h, (take_units r).1 :: (take_units r).2 :: rest)
| bs_drop h rs r rest :
    rs ≡ₚ r :: rest -> bstep (h, rs) (drop_res h r, rest).

Lemma owned_empty : owned ∅ [].
Proof. split; intros; set_solver. Qed.

Lemma bstep_owned s s' : bstep s s' -> owned s.1 s.2 -> owned s'.1 s'.2.
Proof.
  destruct 1 as [?????? Hc Hu Hr|?????? Hl Hw Hr|??????? P Hw Hr|??????? P Hw Hr|??????? P Hw Hr|???? P|???? P];
    cbn; intros HO; try rewrite P in HO.
  - by apply (Budget_new_owned _ _ _ _ _ _ HO Hc Hu) in Hr as [? _].
  - by apply (try_reserve_owned _ _ _ _ _ _ HO Hl Hw) in Hr as [? _].
  - by apply (try_grow_to_owned _ _ _ _ _ _ HO Hw) in Hr as [? _].
  - by apply (shrink_to_owned _ _ _ _ _ _ HO Hw) in Hr as [? _].
  - by apply (try_replace_owned _ _ _ _ _ _ HO Hw) in Hr as [? _].
  - by apply take_units_owned.
  - by apply drop_res_owned.
Qed.

(** In every state reachable by any interleaving of the public operations,
    a budget's counter is exactly the sum of the live reservations drawn from it
    and never exceeds its capacity, so no capacity is leaked or double-spent. *)
Theorem budget_reachable_accounting (h : heap) (rs : list Reservation) :
  rtc bstep (∅, []) (h, rs) ->
  forall l i, h !! l = Some i ->
    used_units i = sumZ (units_at l) rs /\ 0 <= used_units i <= capacity_units i.
Proof.
  intros Hr. assert (HO : owned h rs).
  { apply (rtc_invariant bstep (fun s => owned s.1 s.2) (∅, []) (h, rs)); [|apply bstep_owned|done].
    apply owned_empty. }
  intros l i Hi. split; [by eapply owned_used|]. by eapply owned_wf.
Qed.

Lemma budget_reachable_accounting_witness :
  let h : heap := {[ 1%positive := mkInner 4 256 2 ]} in
  exists l i, h !! l = Some i /\ used_units i = sumZ (units_at l) [mkRes 1 2].
Proof.
  cbn zeta. exists 1%positive, (mkInner 4 256 2). split; [reflexivity|].
  refine (proj1 (budget_reachable_accounting ({[ 1%positive := mkInner 4 256 2 ]} : heap)
                  [mkRes 1 2] _ 1%positive (mkInner 4 256 2) _)); [|reflexivity].
  eapply rtc_l.
  { apply (bs_new ∅ [] 1024 256 {[ 1%positive := mkInner 4 256 0 ]} 1);
      [vm_compute; split; discriminate..|vm_compute; reflexivity]. }
  eapply rtc_once.
  apply (bs_reserve _ [] 1 300); [by eexists|vm_compute; split; discriminate|vm_compute; reflexivity].
Defined.

(** [try_reserve] succeeds exactly when the rounded weight fits in the free
    units of the budget; otherwise it reports overflow of the rounding or
    exhaustion and acquires nothing. *)
Theorem try_reserve_exact (h : heap) (rs : list Reservation) (l : positive) (i : Inner) (w : Z) :
  owned h rs -> h !! l = Some i -> is_u64 w ->
  let need := (w + (unit_bytes i - 1)) / unit_bytes i in
  try_reserve h l w =
    if (negb (w =? 0)) && (u64_max <? w + (unit_bytes i - 1)) then Err CapArithmeticOverflow
    else if capacity_units i - sumZ (units_at l) rs <? need then Err Exhausted
    else Ok (<[l := set_used i (used_units i + need)]> h, mkRes l need).
Proof.
  intros HO Hi Hw need. pose proof (owned_wf _ _ HO _ _ Hi) as Hwf.
  rewrite <- (owned_used _ _ HO _ _ Hi).
  unfold try_reserve. rewrite (total_lookup _ _ _ Hi).
  destruct (units_for_capacity w (unit_bytes i)) as [n|e] eqn:E; cbn.
  - pose proof E as E'. apply units_for_capacity_Ok in E' as [-> Hn]; [|apply Hwf|done]. fold need in Hn |- *.
    unfold units_for_capacity in E. rewrite wrap_u64_id in E by (unfold wf_inner in Hwf; width_lia).
    replace (negb (w =? 0) && (u64_max <? w + (unit_bytes i - 1))) with false.
    2: { symmetry. destruct (Z.eqb_spec w 0); [done|cbn]. inv_ok. width_lia. }
    fold need in E. unfold acquire. rewrite (total_lookup _ _ _ Hi).
    pose proof (acquire_cell_Ok i need (set_used i (used_units i + need)) Hwf ltac:(lia)) as Hacq.
    destruct (Z.ltb_spec (capacity_units i - used_units i) need).
    + destruct (acquire_cell i need) as [j|[]] eqn:Ea; cbn; [| |done].
      * apply acquire_cell_Ok in Ea as [_ ?]; [lia|done|lia].
      * unfold acquire_cell in Ea. by repeat case_match.
    + by rewrite (proj2 Hacq ltac:(split; [done|lia])).
  - unfold units_for_capacity in E. destruct (Z.eqb_spec w 0) as [->|Hw0]; [done|].
    rewrite wrap_u64_id in E by (unfold wf_inner in Hwf; width_lia).
    destruct (checked_u64 _) as [|] eqn:Ec; cbn in E; [done|]. injection E as <-. cbn.
    apply checked_u64_None in Ec. unfold wf_inner in Hwf.
    by rewrite (proj2 (Z.ltb_lt _ _)) by width_lia.
Qed.

Lemma try_reserve_exact_witness :
  try_reserve {[ 1%positive := mkInner 4 256 0 ]} 1 2000 = Err Exhausted.
Proof.
  assert (HO : owned {[ 1%positive := mkInner 4 256 0 ]} []).
  { split; try set_solver; intros l i [<- <-]%lookup_singleton_Some; vm_compute; intuition discriminate. }
  rewrite (try_reserve_exact _ _ _ _ _ HO (lookup_singleton_eq _ _));
    [reflexivity | vm_compute; split; discriminate].
Defined.

(** ** Interleaved atomic steps
    [acquire] and [release] are single atomic read-modify-writes; the owner
    then stores the new unit count in its own reservation.  Other owners may run
    between the two.  A slot is one owner's reservation: the units it has stored
    and, between the atomic step and the store, the target it is about to
    store. *)
Record slot := mkSlot { committed : Z; pending : option Z }.
Definition effective (s : slot) : Z := default (committed s) (pending s).
Abbreviation mstate := (Inner * gmap nat slot)%type.

Inductive mstep : mstate -> mstate -> Prop :=
| ms_spawn i ss k :
    ss !! k = None -> mstep (i, ss) (i, <[k := mkSlot 0 None]> ss)
| ms_acquire i ss k u target i' :
    ss !! k = Some (mkSlot u None) -> u < target ->
    acquire_cell i (target - u) = Ok i' ->
    mstep (i, ss) (i', <[k := mkSlot u (Some target)]> ss)
| ms_release i ss k u target :
    ss !! k = Some (mkSlot u None) -> 0 <= target <= u ->
    mstep (i, ss) (release_cell i (u - target), <[k := mkSlot u (Some target)]> ss)
| ms_commit i ss k u target :
    ss !! k = Some (mkSlot u (Some target)) ->
    mstep (i, ss) (i, <[k := mkSlot target None]> ss)
| ms_forget i ss k :
    ss !! k = Some (mkSlot 0 None) -> mstep (i, ss) (i, delete k ss).

Definition minv (st : mstate) : Prop :=
  wf_inner st.1
  /\ (forall k s, st.2 !! k = Some s -> 0 <= effective s /\ 0 <= committed s)
  /\ used_units st.1 = map_sumZ (fun _ => effective) st.2.

Lemma minv_slot_le st k s : minv st -> st.2 !! k = Some s -> effective s <= used_units st.1.
Proof.
  intros (_ & Hs & ->) Hk. apply (map_sumZ_elem_le (fun _ => effective) st.2 k s); [|done].
  intros j y Hj. by apply Hs in Hj as [? _].
Qed.

Lemma minv_set_slot i ss k s s' i' :
  minv (i, ss) -> ss !! k = Some s -> wf_inner i' -> 0 <= effective s' -> 0 <= committed s' ->
  used_units i' = used_units i + (effective s' - effective s) ->
  minv (i', <[k := s']> ss).
Proof.
  intros (Hw & Hs & Hu) Hk Hw' He Hc Hu'. cbn in *. split; [done|]. split; cbn.
  - intros j t. rewrite lookup_insert. case_decide; naive_solver.
  - rewrite (map_sumZ_insert_Some _ _ _ _ _ Hk). lia.
Qed.

Lemma mstep_minv s s' : mstep s s' -> minv s -> minv s'.
Proof.
  destruct 1 as [i ss k Hk|i ss k u t i' Hk Ht Ha|i ss k u t Hk Ht|i ss k u t Hk|i ss k Hk]; intros HI.
  - destruct HI as (Hw & Hs & Hu). split; [done|]. split; cbn.
    + intros j s. rewrite lookup_insert. case_decide; [intros [= <-]; cbn; lia|apply Hs].
    + rewrite map_sumZ_insert_None by done. by cbn.
  - pose proof HI as (Hw & Hs & _). destruct (Hs _ _ Hk) as [_ Hu0]. cbn in Hu0, Hw.
    apply acquire_cell_Ok in Ha as [-> Hcap]; [|done|lia].
    apply (minv_set_slot _ _ _ _ _ _ HI Hk); cbn; try lia.
    unfold wf_inner in *. cbn. pose proof (minv_slot_le _ _ _ HI Hk) as Hle. cbn in Hle. lia.
  - pose proof HI as (Hw & Hs & _). cbn in Hw.
    pose proof (minv_slot_le _ _ _ HI Hk) as Hle. cbn in Hle.
    rewrite release_cell_eq by (done || lia).
    apply (minv_set_slot _ _ _ _ _ _ HI Hk); cbn; try lia.
    unfold wf_inner in *. cbn. lia.
  - pose proof HI as (Hw & Hs & _). destruct (Hs _ _ Hk) as [Ht0 _]. cbn in Ht0, Hw.
    apply (minv_set_slot _ _ _ _ _ _ HI Hk); cbn; try lia; done.
  - destruct HI as (Hw & Hs & Hu). cbn in *. split; [done|]. split; cbn.
    + intros j s [_ Hj]%lookup_delete_Some. by apply Hs in Hj.
    + rewrite (map_sumZ_delete _ _ _ _ Hk) in Hu. by cbn in Hu.
Qed.

(** Under every interleaving of atomic steps of any number of owners, the
    shared counter stays within the capacity, equals the units the owners have
    acquired (those stored plus those about to be stored), a release never
    underflows (the [debug_assert] of [Budget::release] holds), and whenever no
    owner is between its two steps the counter is the sum of the stored units. *)
Theorem interleaved_accounting (cap unit : Z) (i : Inner) (ss : gmap nat slot) :
  0 < cap <= u64_max -> 0 < unit <= u64_max ->
  rtc mstep (mkInner cap unit 0, ∅) (i, ss) ->
  0 <= used_units i <= capacity_units i
  /\ used_units i = map_sumZ (fun _ => effective) ss
  /\ (forall k u target, ss !! k = Some (mkSlot u None) -> 0 <= target <= u ->
        u - target <= used_units i)
  /\ ((forall k s, ss !! k = Some s -> pending s = None) ->
      used_units i = map_sumZ (fun _ => committed) ss).
Proof.
  intros Hc Hu Hr. assert (HI : minv (i, ss)).
  { eapply (rtc_invariant mstep minv); [|apply mstep_minv|done].
    split; [unfold wf_inner; cbn; lia|]. split; [set_solver|]. cbn. by rewrite map_sumZ_empty. }
  pose proof HI as ((?&?&?) & Hs & Hsum). cbn in *.
  split; [done|]. split; [done|]. split.
  - intros k u t Hk Ht. pose proof (minv_slot_le _ _ _ HI Hk) as Hle. cbn in Hle. lia.
  - intros Hq. rewrite Hsum. apply map_sumZ_ext. intros k s Hk.
    unfold effective. by rewrite (Hq _ _ Hk).
Qed.

Lemma interleaved_accounting_witness :
  used_units (mkInner 4 1 3) = map_sumZ (fun _ => effective) {[ 0%nat := mkSlot 0 (Some 3) ]}.
Proof.
  refine (proj1 (proj2 (interleaved_accounting 4 1 (mkInner 4 1 3) _ _ _ _)));
    [vm_compute; split; (reflexivity || discriminate)..|].
  eapply rtc_l; [apply (ms_spawn _ ∅ 0%nat); reflexivity|].
  eapply rtc_once.
  refine (ms_acquire (mkInner 4 1 0) (<[0%nat := mkSlot 0 None]> ∅) 0%nat 0 3 (mkInner 4 1 3) _ _ _);
    reflexivity.
Defined.

(** Each owner operation that succeeds is exactly its atomic step followed by
    its store: growing is [ms_acquire] then [ms_commit], shrinking and dropping
    are [ms_release] then [ms_commit], on the owner's slot and the shared cell. *)
Theorem reservation_ops_refine_msteps (h : heap) (r : Reservation) (w : Z) (ss : gmap nat slot) (k : nat) :
  ss !! k = Some (mkSlot (res_units r) None) -> 0 <= res_units r ->
  0 < unit_bytes (h !!! res_budget r) <= u64_max -> is_u64 w ->
  (forall h' r', (try_grow_to h r w = Ok (h', r') \/ shrink_to h r w = Ok (h', r')
                  \/ try_replace h r w = Ok (h', r')) ->
     rtc mstep (h !!! res_budget r, ss) (h' !!! res_budget r, <[k := mkSlot (res_units r') None]> ss))
  /\ rtc mstep (h !!! res_budget r, ss)
       (drop_res h r !!! res_budget r, <[k := mkSlot 0 None]> ss).
Proof.
  intros Hk Hr0 Hunit Hw.
  assert (Hstay : rtc mstep (h !!! res_budget r, ss)
                    (h !!! res_budget r, <[k := mkSlot (res_units r) None]> ss)).
  { by rewrite insert_id. }
  assert (Hacq : forall n h', res_units r < n -> acquire h (res_budget r) (n - res_units r) = Ok h' ->
    rtc mstep (h !!! res_budget r, ss) (h' !!! res_budget r, <[k := mkSlot n None]> ss)).
  { intros n h' Hn Ha. unfold acquire in Ha. apply bind_Ok in Ha as (i & Hi & [= <-]).
    rewrite lookup_total_insert_eq.
    eapply rtc_l; [eapply ms_acquire; eauto|]. eapply rtc_once.
    rewrite <- (insert_insert_eq ss k (mkSlot n None) (mkSlot (res_units r) (Some n))).
    apply ms_commit with (res_units r). apply lookup_insert_eq. }
  assert (Hrel : forall n, 0 <= n <= res_units r ->
    rtc mstep (h !!! res_budget r, ss)
      (release h (res_budget r) (res_units r - n) !!! res_budget r, <[k := mkSlot n None]> ss)).
  { intros n Hn. unfold release. rewrite lookup_total_insert_eq.
    eapply rtc_l; [eapply ms_release; eauto|]. eapply rtc_once.
    rewrite <- (insert_insert_eq ss k (mkSlot n None) (mkSlot (res_units r) (Some n))).
    apply ms_commit with (res_units r). apply lookup_insert_eq. }
  split.
  - intros h' r' [Hop|[Hop|Hop]].
    + unfold try_grow_to in Hop. apply bind_Ok in Hop as (n & _ & Hop).
      destruct (Z.leb_spec n (res_units r)); [by injection Hop as <- <-|].
      apply bind_Ok in Hop as (h1 & Ha & [= <- <-]). by apply Hacq.
    + unfold shrink_to in Hop. apply bind_Ok in Hop as (n & Hn & Hop). apply map_err_Ok in Hn.
      apply units_for_capacity_Ok in Hn as [_ ?]; [|done..].
      destruct (Z.ltb_spec (res_units r) n); [done|]. injection Hop as <- <-. cbn. apply Hrel. lia.
    + unfold try_replace in Hop. apply bind_Ok in Hop as (n & Hn & Hop).
      apply units_for_capacity_Ok in Hn as [_ ?]; [|done..].
      apply bind_Ok in Hop as (h1 & Ha & [= <- <-]). cbn.
      destruct (Z.ltb_spec (res_units r) n); [by apply Hacq|]. injection Ha as <-. apply Hrel. lia.
  - unfold drop_res. pose proof (Hrel 0 ltac:(lia)) as H0. by rewrite Z.sub_0_r in H0.
Qed.

Lemma reservation_ops_refine_msteps_witness :
  let h : heap := {[ 1%positive := mkInner 4 256 2 ]} in
  rtc mstep (h !!! 1%positive, {[ 0%nat := mkSlot 2 None ]})
    (drop_res h (mkRes 1 2) !!! 1%positive, <[ 0%nat := mkSlot 0 None ]> {[ 0%nat := mkSlot 2 None ]}).
Proof.
  cbn zeta. refine (proj2 (reservation_ops_refine_msteps _ (mkRes 1 2) 0 _ 0%nat _ _ _ _));
    [reflexivity | vm_compute; intuition discriminate..].
Defined.
