(* ===== verification/BodyStore.v ===== *)
(** * Bounded body storage ([crates/bounded-body/src/storage.rs])

    A request body is accumulated in memory up to a threshold and then spilled
    to a private, already unlinked file; every byte is paid for by two
    reservations (storage and estimated RSS).  The state is the [World] (the
    budget cells and the live-spool counters behind their [Arc]s) plus the
    [BodyStore] being built.  The operating system is an explicit argument of
    each operation that performs I/O: which [openat] attempts succeed, and for
    each write whether it fails and after how many bytes.  Fallible operations
    return their [result] together with the state they leave behind, so an
    early return keeps exactly the effects performed before it. *)
From S2P Require Import Prelude ApiLimits Budget.
Abbreviation byte := Byte.byte.

Inductive StorageError : Type :=
| InvalidConfig
| TooLarge
| StArithmeticOverflow
| StorageExhausted
| MemoryExhausted
| PrivateSpoolUnavailable
| Io.

Record StorageConfig := mkConfig {
  request_limit : ByteLimit;
  memory_threshold : ByteLimit
}.

Definition StorageConfig_validate (usize_max : Z) (c : StorageConfig) : result StorageError StorageConfig :=
  guard_ok (negb (request_limit c =? 0)) InvalidConfig;;
  guard_ok (memory_threshold c <=? request_limit c) InvalidConfig;;
  map_err (fun _ => InvalidConfig) (as_usize usize_max (request_limit c));;
  Ok c.

(** ** The world: budget cells and live-spool counters *)
Record World := mkWorld {
  budgets : heap;
  counters : gmap positive Z
}.
Definition with_budgets (w : World) (h : heap) : World := mkWorld h (counters w).
Definition counter (w : World) (l : positive) : Z := default 0 (counters w !! l).
Definition set_counter (w : World) (l : positive) (n : Z) : World :=
  mkWorld (budgets w) (<[l := n]> (counters w)).

(** [LiveSpoolGuard::new] and its [Drop]: wrapping [AtomicU64] updates. *)
Definition live_guard_new (w : World) (l : positive) : World :=
  set_counter w l (wrap_u64 (counter w l + 1)).
Definition live_guard_drop (w : World) (l : positive) : World :=
  set_counter w l (wrap_u64 (counter w l - 1)).

(** ** Files *)
Record File := mkFile { contents : list byte }.

(** [write_all]: [None] when the operating system accepts everything,
    [Some k] when it fails after [k] bytes. *)
Definition write_all (io : option nat) (f : File) (chunk : list byte) : File * bool :=
  match io with
  | None => (mkFile (contents f ++ chunk), true)
  | Some k => (mkFile (contents f ++ take k chunk), false)
  end.

(** [PrivateSpoolFactory]: the directory handle is opaque; [live] is the shared
    counter. *)
Record Factory := mkFactory { live_spool_files : positive }.

(** [symlink_metadata] of the root and the outcome of opening it. *)
Record RootMetadata := mkRoot { is_dir : bool; is_symlink : bool; mode : Z }.

Definition factory_new (w : World) (meta : option RootMetadata) (open_ok : bool)
    : result StorageError (Factory * World) :=
  md ← ok_or meta PrivateSpoolUnavailable;
  guard_ok (is_dir md && negb (is_symlink md)) PrivateSpoolUnavailable;;
  guard_ok (Z.land (mode md) 63 =? 0) PrivateSpoolUnavailable;;
  guard_ok open_ok PrivateSpoolUnavailable;;
  let l := fresh (dom (counters w)) in
  Ok (mkFactory l, set_counter w l 0).

(** Outcome of [openat(O_CREAT|O_EXCL)] and [unlinkat] for one attempt. *)
Inductive OpenResult : Type := Opened (unlinked : bool) | AlreadyExists | OpenFailed.

(** The [for _ in 0..32] loop of [create]. *)
Fixpoint create_attempts (n : nat) (os : nat -> OpenResult) (k : nat) : result StorageError File :=
  match n with
  | O => Err PrivateSpoolUnavailable
  | S n =>
      match os k with
      | Opened true => Ok (mkFile [])
      | Opened false => Err PrivateSpoolUnavailable
      | AlreadyExists => create_attempts n os (S k)
      | OpenFailed => Err PrivateSpoolUnavailable
      end
  end.
Definition create (os : nat -> OpenResult) : result StorageError File := create_attempts 32 os 0.

(** ** The store *)
Inductive StoreState : Type :=
| Memory (bytes : list byte)
| Spool (file : File) (live : positive)
| Poisoned.

Record BodyStore := mkStore {
  st_config : StorageConfig;
  st_factory : Factory;
  st_storage : Reservation;
  st_memory : Reservation;
  st_state : StoreState;
  st_len : Z
}.

Definition set_reservations (s : BodyStore) (storage memory : Reservation) : BodyStore :=
  mkStore (st_config s) (st_factory s) storage memory (st_state s) (st_len s).

(** A [&Budget] argument: the address of the handle and the cell its [Arc]
    points to. *)
Record BudgetRef := mkRef { ref_addr : Z; ref_cell : positive }.

Definition drop_two (w : World) (r1 r2 : Reservation) : World :=
  with_budgets w (drop_res (drop_res (budgets w) r1) r2).

(** [BodyStore::start]: [std::ptr::eq] compares the two handle addresses.  The
    reservations are passed by value, so a refusal drops them. *)
Definition start (usize_max : Z) (w : World) (config : StorageConfig)
    (storage_budget memory_budget : BudgetRef) (storage memory : Reservation) (factory : Factory)
    : result StorageError BodyStore * World :=
  match StorageConfig_validate usize_max config with
  | Err e => (Err e, drop_two w storage memory)
  | Ok config =>
      if negb (belongs_to storage (ref_cell storage_budget))
         || negb (belongs_to memory (ref_cell memory_budget))
         || (ref_addr storage_budget =? ref_addr memory_budget)
      then (Err InvalidConfig, drop_two w storage memory)
      else (Ok (mkStore config factory storage memory (Memory []) 0), w)
  end.

Definition storage_capacity (e : CapacityError) : StorageError :=
  match e with CapArithmeticOverflow => StArithmeticOverflow | Exhausted => StorageExhausted end.
Definition memory_capacity (e : CapacityError) : StorageError :=
  match e with CapArithmeticOverflow => StArithmeticOverflow | Exhausted => MemoryExhausted end.

(** [let _ = reservation.shrink_to(..)]: a refusal leaves everything as it was. *)
Definition shrink_ignoring (h : heap) (r : Reservation) (weight : Z) : heap * Reservation :=
  match shrink_to h r weight with Ok p => p | Err _ => (h, r) end.

#[global] Arguments create : simpl never.

(** The I/O outcomes one [push] may observe. *)
Record PushIo := mkPushIo {
  io_open : nat -> OpenResult;     (* [create] while spilling *)
  io_write_prefix : option nat;    (* spilling the in-memory prefix *)
  io_write_chunk : option nat;     (* the chunk itself *)
  io_flush : bool
}.

(** The closure of [spill_and_push] that builds the complete file. *)
Definition spill_file (io : PushIo) (bytes chunk : list byte) : result StorageError File :=
  file ← create (io_open io);
  let '(file, ok) := write_all (io_write_prefix io) file bytes in
  guard_ok ok Io;;
  let '(file, ok) := write_all (io_write_chunk io) file chunk in
  guard_ok ok Io;;
  guard_ok (io_flush io) Io;;
  Ok file.

#[global] Arguments spill_file : simpl never.

Definition spill_and_push (io : PushIo) (w : World) (s : BodyStore) (chunk : list byte) (next_len : Z)
    : result StorageError () * World * BodyStore :=
  match checked_u64 (st_len s + next_len) with
  | None => (Err StArithmeticOverflow, w, s)
  | Some transition =>
    match try_grow_to (budgets w) (st_storage s) transition with
    | Err e => (Err (storage_capacity e), w, s)
    | Ok (h1, storage1) =>
      let result :=
        match st_state s with
        | Memory bytes => spill_file io bytes chunk
        | _ => create (io_open io);; Err InvalidConfig
        end in
      match result with
      | Err e =>
          let '(h2, storage2) := shrink_ignoring h1 storage1 (st_len s) in
          (Err e, with_budgets w h2, set_reservations s storage2 (st_memory s))
      | Ok file =>
          let live := live_spool_files (st_factory s) in
          let w1 := live_guard_new (with_budgets w h1) live in
          let s1 := mkStore (st_config s) (st_factory s) storage1 (st_memory s)
                      (Spool file live) (st_len s) in
          match shrink_to h1 (st_memory s) 0 with
          | Err _ => (Err InvalidConfig, w1, s1)
          | Ok (h2, memory2) =>
            match shrink_to h2 storage1 next_len with
            | Err _ => (Err InvalidConfig, with_budgets w1 h2, set_reservations s1 storage1 memory2)
            | Ok (h3, storage3) =>
                (Ok (), with_budgets w1 h3,
                 mkStore (st_config s) (st_factory s) storage3 memory2 (Spool file live) next_len)
            end
          end
      end
    end
  end.

Definition push (io : PushIo) (w : World) (s : BodyStore) (chunk : list byte)
    : result StorageError () * World * BodyStore :=
  match st_state s with
  | Poisoned => (Err Io, w, s)
  | state =>
    match checked_u64 (Z.of_nat (length chunk)) with
    | None => (Err StArithmeticOverflow, w, s)
    | Some chunk_len =>
      match checked_u64 (st_len s + chunk_len) with
      | None => (Err StArithmeticOverflow, w, s)
      | Some next_len =>
        if request_limit (st_config s) <? next_len then (Err TooLarge, w, s)
        else
          match state with
          | Memory bytes =>
            if next_len <=? memory_threshold (st_config s) then
              match try_grow_to (budgets w) (st_storage s) next_len with
              | Err e => (Err (storage_capacity e), w, s)
              | Ok (h1, storage1) =>
                match try_grow_to h1 (st_memory s) next_len with
                | Err e =>
                    let '(h2, storage2) := shrink_ignoring h1 storage1 (st_len s) in
                    (Err (memory_capacity e), with_budgets w h2,
                     set_reservations s storage2 (st_memory s))
                | Ok (h2, memory1) =>
                    (Ok (), with_budgets w h2,
                     mkStore (st_config s) (st_factory s) storage1 memory1
                       (Memory (bytes ++ chunk)) next_len)
                end
              end
            else spill_and_push io w s chunk next_len
          | Spool file live =>
            match try_grow_to (budgets w) (st_storage s) next_len with
            | Err e => (Err (storage_capacity e), w, s)
            | Ok (h1, storage1) =>
              let '(file1, ok) := write_all (io_write_chunk io) file chunk in
              if ok then
                (Ok (), with_budgets w h1,
                 mkStore (st_config s) (st_factory s) storage1 (st_memory s) (Spool file1 live) next_len)
              else
                let '(h2, storage2) := shrink_ignoring h1 storage1 (st_len s) in
                (Err Io, live_guard_drop (with_budgets w h2) live,
                 mkStore (st_config s) (st_factory s) storage2 (st_memory s) Poisoned (st_len s))
            end
          | Poisoned => (Err Io, w, s)
          end
      end
    end
  end.

(** Dropping a store: the spool guard, then both reservations. *)
Definition drop_state (w : World) (st : StoreState) : World :=
  match st with Spool _ live => live_guard_drop w live | _ => w end.
Definition drop_store (w : World) (s : BodyStore) : World :=
  drop_two (drop_state w (st_state s)) (st_storage s) (st_memory s).

Definition is_spooled (s : BodyStore) : bool :=
  match st_state s with Spool _ _ => true | _ => false end.

(** ** Finished bodies *)
Record MemoryBody := mkMemoryBody {
  mb_bytes : list byte; mb_len : Z; mb_storage : Reservation; mb_memory : Reservation }.
Record SpoolBody := mkSpoolBody {
  sb_file : File; sb_len : Z; sb_live : positive; sb_storage : Reservation; sb_memory : Reservation }.
Inductive StoredBody : Type :=
| StoredMemory (body : MemoryBody)
| StoredSpool (body : SpoolBody).
Record StoredBodyLease := mkLease { lease_storage : Reservation; lease_memory : Reservation }.

(** [finish] consumes the store.  Reservations are moved out with
    [Reservation::take], and the zero-unit handles left in the store are
    dropped with it; every error path drops the whole store. *)
Definition finish (flush_ok : bool) (w : World) (s : BodyStore)
    : result StorageError StoredBody * World :=
  match shrink_to (budgets w) (st_storage s) (st_len s) with
  | Err _ => (Err InvalidConfig, drop_store w s)
  | Ok (h1, storage1) =>
    let w1 := with_budgets w h1 in
    let s1 := set_reservations s storage1 (st_memory s) in
    match st_state s with
    | Poisoned => (Err Io, drop_store w1 s1)
    | st =>
      let memory_target := match st with Memory _ => st_len s | _ => 0 end in
      match shrink_to h1 (st_memory s) memory_target with
      | Err _ => (Err InvalidConfig, drop_store w1 s1)
      | Ok (h2, memory2) =>
        let w2 := with_budgets w h2 in
        let left := drop_two w2 (take_units storage1).1 (take_units memory2).1 in
        match st with
        | Memory bytes =>
            (Ok (StoredMemory (mkMemoryBody bytes (st_len s)
                   (take_units storage1).2 (take_units memory2).2)), left)
        | Spool file live =>
            if flush_ok then
              (Ok (StoredSpool (mkSpoolBody file (st_len s) live
                     (take_units storage1).2 (take_units memory2).2)), left)
            else (Err Io, drop_two (live_guard_drop w2 live) storage1 memory2)
        | Poisoned => (Err Io, w2)
        end
      end
    end
  end.

Definition stored_len (b : StoredBody) : Z :=
  match b with StoredMemory m => mb_len m | StoredSpool m => sb_len m end.
Definition stored_is_empty (b : StoredBody) : bool := stored_len b =? 0.

Definition into_memory (b : StoredBody) : result StoredBody (list byte * StoredBodyLease) :=
  match b with
  | StoredMemory m => Ok (mb_bytes m, mkLease (mb_storage m) (mb_memory m))
  | StoredSpool _ => Err b
  end.

(** The I/O outcomes of [into_bytes]. *)
Record ReadIo := mkReadIo { io_alloc : bool; io_seek : bool; io_read : bool }.

Definition into_bytes (io : ReadIo) (usize_max : Z) (w : World) (b : StoredBody)
    : result StorageError (list byte * StoredBodyLease) * World :=
  match b with
  | StoredMemory m => (Ok (mb_bytes m, mkLease (mb_storage m) (mb_memory m)), w)
  | StoredSpool m =>
    match try_grow_to (budgets w) (sb_memory m) (sb_len m) with
    | Err e => (Err (memory_capacity e),
                drop_two (live_guard_drop w (sb_live m)) (sb_storage m) (sb_memory m))
    | Ok (h1, memory1) =>
      let w1 := with_budgets w h1 in
      let dropped := drop_two (live_guard_drop w1 (sb_live m)) (sb_storage m) memory1 in
      if usize_max <? sb_len m then (Err StArithmeticOverflow, dropped)
      else if negb (io_alloc io) then (Err MemoryExhausted, dropped)
      else if negb (io_seek io) then (Err Io, dropped)
      else if negb (io_read io) then (Err Io, dropped)
      else if negb (Z.of_nat (length (contents (sb_file m))) =? sb_len m) then (Err Io, dropped)
      else (Ok (contents (sb_file m), mkLease (sb_storage m) memory1),
            live_guard_drop w1 (sb_live m))
    end
  end.

(** [copy_to]: [Some k] when the writer or the reader fails after [k] bytes. *)
Definition copy_to (seek_ok : bool) (io : option nat) (b : StoredBody) (writer : list byte)
    : result StorageError () * list byte :=
  match b with
  | StoredMemory m =>
      let '(f, ok) := write_all io (mkFile writer) (mb_bytes m) in
      (guard_ok ok Io, contents f)
  | StoredSpool m =>
      if seek_ok then
        let '(f, ok) := write_all io (mkFile writer) (contents (sb_file m)) in
        (guard_ok ok Io, contents f)
      else (Err Io, writer)
  end.

Definition drop_body (w : World) (b : StoredBody) : World :=
  match b with
  | StoredMemory m => drop_two w (mb_storage m) (mb_memory m)
  | StoredSpool m => drop_two (live_guard_drop w (sb_live m)) (sb_storage m) (sb_memory m)
  end.
Definition drop_lease (w : World) (l : StoredBodyLease) : World :=
  drop_two w (lease_storage l) (lease_memory l).

(** ** Invariant *)

(** [covers h r n]: the reservation pays for a weight of [n] bytes. *)
Definition covers (h : heap) (r : Reservation) (n : Z) : Prop :=
  exists u, units_for_capacity n (unit_bytes (h !!! res_budget r)) = Ok u /\ u <= res_units r.

(** What has been accepted so far; [None] once an append has failed midway. *)
Definition body_contents (s : BodyStore) : option (list byte) :=
  match st_state s with
  | Memory b => Some b
  | Spool f _ => Some (contents f)
  | Poisoned => None
  end.

Definition state_ok (h : heap) (s : BodyStore) : Prop :=
  match st_state s with
  | Memory b => st_len s = Z.of_nat (length b) /\ st_len s <= memory_threshold (st_config s)
                /\ covers h (st_storage s) (st_len s) /\ covers h (st_memory s) (st_len s)
  | Spool f _ => st_len s = Z.of_nat (length (contents f)) /\ covers h (st_storage s) (st_len s)
  | Poisoned => True
  end.

(** [frame] are the reservations other owners hold on the same budgets. *)
Record store_inv (w : World) (s : BodyStore) (frame : list Reservation) : Prop := {
  inv_owned : owned (budgets w) (st_storage s :: st_memory s :: frame);
  inv_limit : 0 < request_limit (st_config s) <= u64_max;
  inv_threshold : 0 <= memory_threshold (st_config s) <= request_limit (st_config s);
  inv_len : 0 <= st_len s <= request_limit (st_config s);
  inv_state : state_ok (budgets w) s
}.

Lemma owned_swap h r1 r2 rs : owned h (r1 :: r2 :: rs) -> owned h (r2 :: r1 :: rs).
Proof. by rewrite Permutation_swap. Qed.

Lemma covers_geometry h h' r n : same_geometry h h' -> covers h r n -> covers h' r n.
Proof. intros G (u & Hu & Hle). exists u. destruct (G (res_budget r)) as [-> _]. done. Qed.

(** Smaller weights never need more units. *)
Lemma units_mono k n m v :
  0 < k <= u64_max -> 0 <= n <= m -> is_u64 m -> units_for_capacity m k = Ok v ->
  exists u, units_for_capacity n k = Ok u /\ u <= v.
Proof.
  intros Hp Hn Hm Hu. pose proof Hu as Hu'.
  apply units_for_capacity_Ok in Hu' as [-> Hr]; [|done..].
  unfold units_for_capacity in Hu |- *. destruct (Z.eqb_spec n 0) as [->|Hn0].
  - exists 0. split; [done|lia].
  - destruct (Z.eqb_spec m 0); [lia|]. rewrite wrap_u64_id in Hu |- * by width_lia. inv_ok.
    rewrite (proj2 (checked_u64_Some _ (n + (k - 1)))) by width_lia. cbn.
    exists ((n + (k - 1)) / k). split; [done|]. apply ceil_div_mono; lia.
Qed.

Section Covers.
Context (h : heap) (r : Reservation) (rs : list Reservation).
Hypothesis HO : owned h (r :: rs).

Lemma unit_pos : 0 < unit_bytes (h !!! res_budget r) <= u64_max.
Proof. destruct (owned_head _ _ _ HO) as (i & _ & -> & (?&_) & _). done. Qed.

Lemma covers_mono n m : 0 <= n <= m -> is_u64 m -> covers h r m -> covers h r n.
Proof.
  intros Hn Hm (u & Hu & Hle).
  apply (units_mono _ n) in Hu as (v & Hv & ?); [|apply unit_pos|done|done].
  exists v. split; [done|lia].
Qed.

Lemma covers_zero : covers h r 0.
Proof.
  exists 0. split; [done|]. destruct (owned_head _ _ _ HO) as (i & _ & _ & _ & ?). lia.
Qed.

Lemma grow_covers w h' r' :
  is_u64 w -> try_grow_to h r w = Ok (h', r') ->
  owned h' (r' :: rs) /\ same_geometry h h' /\ res_budget r' = res_budget r
  /\ covers h' r' w /\ (forall n, covers h r n -> covers h' r' n).
Proof.
  intros Hw Hg. apply (try_grow_to_owned _ _ _ _ _ _ HO Hw) in Hg as (Ho & Hb & G & u & Hu & Hm).
  split; [done|]. split; [done|]. split; [done|].
  destruct (G (res_budget r)) as [Eu _]. unfold covers. rewrite Hb, Eu. split.
  - exists u. split; [done|lia].
  - intros n (v & Hv & Hle). exists v. split; [done|lia].
Qed.

Lemma shrink_covers w h' r' :
  is_u64 w -> shrink_to h r w = Ok (h', r') ->
  owned h' (r' :: rs) /\ same_geometry h h' /\ res_budget r' = res_budget r /\ covers h' r' w.
Proof.
  intros Hw Hs. apply (shrink_to_owned _ _ _ _ _ _ HO Hw) in Hs as (Ho & Hb & G & Hu & Hle).
  split; [done|]. split; [done|]. split; [done|].
  destruct (G (res_budget r)) as [Eu _]. unfold covers. rewrite Hb, Eu. eauto with lia.
Qed.

Lemma shrink_covered w : is_u64 w -> covers h r w -> exists h' r', shrink_to h r w = Ok (h', r').
Proof. intros Hw (u & Hu & Hle). eapply shrink_to_total; eauto. Qed.

Lemma shrink_ignoring_covers w h' r' :
  is_u64 w -> shrink_ignoring h r w = (h', r') ->
  owned h' (r' :: rs) /\ same_geometry h h' /\ (covers h r w -> covers h' r' w).
Proof.
  intros Hw. unfold shrink_ignoring. destruct (shrink_to h r w) as [[h1 r1]|] eqn:E; intros [= <- <-].
  - apply shrink_covers in E as (?&?&_&?); auto.
  - split; [done|]. split; [done|auto].
Qed.
End Covers.

Lemma create_attempts_empty os f n : forall k, create_attempts n os k = Ok f -> contents f = [].
Proof.
  induction n as [|n IH]; intros k; cbn; [done|].
  destruct (os k) as [[]| |]; try done; [by intros [= <-]|apply IH].
Qed.

Lemma spill_file_Ok io b c f : spill_file io b c = Ok f -> contents f = b ++ c.
Proof.
  unfold spill_file. intros (f0 & Hc & H)%bind_Ok. apply create_attempts_empty in Hc as E0.
  destruct (io_write_prefix io); cbn in H; [done|].
  destruct (io_write_chunk io); cbn in H; [done|].
  destruct (io_flush io); cbn in H; [|done]. injection H as <-. cbn. by rewrite E0.
Qed.

(** The outcome of one [push]: success appends the chunk, failure keeps the
    accepted bytes, except that a failed append to the spool poisons the store
    (with [Io]) for good. *)
Definition push_outcome (s s' : BodyStore) (chunk : list byte) (res : result StorageError ()) : Prop :=
  st_config s' = st_config s /\ st_factory s' = st_factory s /\
  match res with
  | Ok _ => exists b, body_contents s = Some b /\ body_contents s' = Some (b ++ chunk)
  | Err e => st_len s' = st_len s /\
      (body_contents s' = body_contents s
       \/ (is_spooled s = true /\ st_state s' = Poisoned /\ e = Io))
  end.

Section PushMemory.
Context (w : World) (s : BodyStore) (frame : list Reservation) (bytes chunk : list byte).
Hypothesis HI : store_inv w s frame.
Hypothesis Hst : st_state s = Memory bytes.
Let next_len := st_len s + Z.of_nat (length chunk).
Hypothesis Hnext : next_len <= request_limit (st_config s).

Lemma next_len_u64 : is_u64 next_len /\ is_u64 (st_len s).
Proof. unfold next_len in *. destruct HI as [_ ? _ ? _]. width_lia. Qed.

Lemma push_memory_inv io res w' s' :
  next_len <= memory_threshold (st_config s) ->
  push io w s chunk = (res, w', s') ->
  store_inv w' s' frame /\ push_outcome s s' chunk res.
Proof.
  intros Hthr Hp. destruct next_len_u64 as [Hnu Hlu].
  pose proof HI as [HO Hlim Ht Hlen Hok]. unfold state_ok in Hok. rewrite Hst in Hok.
  destruct Hok as (El & Hlt & Hcs & Hcm).
  unfold push in Hp. rewrite Hst in Hp.
  rewrite (proj2 (checked_u64_Some _ (Z.of_nat (length chunk)))) in Hp by width_lia.
  rewrite (proj2 (checked_u64_Some _ next_len)) in Hp by done.
  rewrite (proj2 (Z.ltb_ge _ _)) in Hp by done. rewrite (proj2 (Z.leb_le _ _)) in Hp by done.
  destruct (try_grow_to (budgets w) (st_storage s) next_len) as [[h1 r1]|e] eqn:E1.
  2: { injection Hp as <- <- <-. split; [done|]. split; [done|]. split; [done|]. split; [done|]. by left. }
  apply (grow_covers _ _ _ HO) in E1 as (HO1 & G1 & _ & Hc1 & Hm1); [|done].
  apply owned_swap in HO1.
  destruct (try_grow_to h1 (st_memory s) next_len) as [[h2 r2]|e] eqn:E2.
  - injection Hp as <- <- <-.
    apply (grow_covers _ _ _ HO1) in E2 as (HO2 & G2 & _ & Hc2 & _); [|done].
    split.
    + split; cbn; [by apply owned_swap|done|done|unfold next_len in *; lia|].
      unfold state_ok; cbn. rewrite length_app. unfold next_len in *.
      split; [lia|]. split; [done|]. eauto using covers_geometry.
    + split; [done|]. split; [done|]. exists bytes. unfold body_contents. by rewrite Hst.
  - destruct (shrink_ignoring h1 r1 (st_len s)) as [h2 r2] eqn:E3. injection Hp as <- <- <-.
    apply owned_swap in HO1.
    apply (shrink_ignoring_covers _ _ _ HO1) in E3 as (HO2 & G2 & Hm2); [|done].
    split.
    + split; cbn; try done. unfold state_ok; cbn. rewrite Hst.
      split; [done|]. split; [done|]. split; [auto|]. eauto using covers_geometry.
    + split; [done|]. split; [done|]. split; [done|]. left. unfold body_contents. cbn. done.
Qed.

Lemma spill_inv io res w' s' :
  spill_and_push io w s chunk next_len = (res, w', s') ->
  store_inv w' s' frame /\ push_outcome s s' chunk res.
Proof.
  intros Hp. destruct next_len_u64 as [Hnu Hlu].
  pose proof HI as [HO Hlim Ht Hlen Hok]. unfold state_ok in Hok. rewrite Hst in Hok.
  destruct Hok as (El & Hlt & Hcs & Hcm).
  unfold spill_and_push in Hp. rewrite Hst in Hp.
  destruct (checked_u64 (st_len s + next_len)) as [tr|] eqn:Et.
  2: { injection Hp as <- <- <-. split; [done|]. split; [done|]. split; [done|]. split; [done|]. by left. }
  apply checked_u64_Some in Et as [-> Htu].
  destruct (try_grow_to (budgets w) (st_storage s) (st_len s + next_len)) as [[h1 r1]|e] eqn:E1.
  2: { injection Hp as <- <- <-. split; [done|]. split; [done|]. split; [done|]. split; [done|]. by left. }
  apply (grow_covers _ _ _ HO) in E1 as (HO1 & G1 & _ & Hc1 & Hm1); [|done].
  destruct (spill_file io bytes chunk) as [f|e] eqn:Ef.
  - apply spill_file_Ok in Ef. apply owned_swap in HO1.
    destruct (shrink_covered h1 (st_memory s) _ HO1 0 ltac:(width_lia) (covers_zero _ _ _ HO1))
      as (h2 & m2 & E2). rewrite E2 in Hp.
    apply (shrink_covers _ _ _ HO1) in E2 as (HO2 & G2 & _ & _); [|width_lia].
    apply owned_swap in HO2.
    assert (Hc2 : covers h2 r1 next_len).
    { apply (covers_mono _ _ _ HO2 _ (st_len s + next_len)); [unfold next_len in *; lia|done|].
      eauto using covers_geometry. }
    destruct (shrink_covered _ _ _ HO2 _ Hnu Hc2) as (h3 & r3 & E3). rewrite E3 in Hp.
    apply (shrink_covers _ _ _ HO2) in E3 as (HO3 & G3 & _ & Hc3); [|done].
    injection Hp as <- <- <-. split.
    + split; cbn; [done|done|done|unfold next_len in *; lia|].
      unfold state_ok; cbn. rewrite Ef, length_app. split; [unfold next_len; lia|done].
    + split; [done|]. split; [done|]. exists bytes. unfold body_contents. cbn. by rewrite Hst, Ef.
  - destruct (shrink_ignoring h1 r1 (st_len s)) as [h2 r2] eqn:E3. injection Hp as <- <- <-.
    apply (shrink_ignoring_covers _ _ _ HO1) in E3 as (HO2 & G2 & Hm2); [|done].
    split.
    + split; cbn; try done. unfold state_ok; cbn. rewrite Hst.
      split; [done|]. split; [done|]. split; [auto|].
      eapply covers_geometry; [exact G2|]. eauto using covers_geometry.
    + split; [done|]. split; [done|]. split; [done|]. left. unfold body_contents. cbn. done.
Qed.
End PushMemory.

Lemma push_spool_inv io w s frame f live chunk res w' s' :
  store_inv w s frame -> st_state s = Spool f live ->
  st_len s + Z.of_nat (length chunk) <= request_limit (st_config s) ->
  push io w s chunk = (res, w', s') ->
  store_inv w' s' frame /\ push_outcome s s' chunk res.
Proof.
  intros HI Hst Hnext Hp. pose proof HI as [HO Hlim Ht Hlen Hok].
  unfold state_ok in Hok. rewrite Hst in Hok. destruct Hok as (El & Hcs).
  unfold push in Hp. rewrite Hst in Hp.
  rewrite (proj2 (checked_u64_Some _ (Z.of_nat (length chunk)))) in Hp by width_lia.
  set (next_len := st_len s + Z.of_nat (length chunk)) in *.
  assert (Hnu : is_u64 next_len) by (unfold next_len in *; width_lia).
  rewrite (proj2 (checked_u64_Some _ next_len)) in Hp by done.
  rewrite (proj2 (Z.ltb_ge _ _)) in Hp by done.
  destruct (try_grow_to (budgets w) (st_storage s) next_len) as [[h1 r1]|e] eqn:E1.
  2: { injection Hp as <- <- <-. split; [done|]. split; [done|]. split; [done|]. split; [done|]. by left. }
  apply (grow_covers _ _ _ HO) in E1 as (HO1 & G1 & _ & Hc1 & Hm1); [|done].
  destruct (io_write_chunk io) as [k|]; cbn in Hp.
  - destruct (shrink_ignoring h1 r1 (st_len s)) as [h2 r2] eqn:E3. injection Hp as <- <- <-.
    apply (shrink_ignoring_covers _ _ _ HO1) in E3 as (HO2 & _ & _); [|width_lia].
    split; [by split; cbn|]. split; [done|]. split; [done|]. split; [done|].
    right. unfold is_spooled. by rewrite Hst.
  - injection Hp as <- <- <-. split.
    + split; cbn; [done|done|done|unfold next_len in *; lia|].
      unfold state_ok; cbn. rewrite length_app. split; [unfold next_len; lia|done].
    + split; [done|]. split; [done|]. exists (contents f). unfold body_contents. cbn. by rewrite Hst.
Qed.

Lemma push_inv io w s frame chunk res w' s' :
  store_inv w s frame -> push io w s chunk = (res, w', s') ->
  store_inv w' s' frame /\ push_outcome s s' chunk res.
Proof.
  intros HI Hp. pose proof HI as [HO Hlim Ht Hlen Hok].
  assert (Hrefuse : forall e, (Err e, w, s) = (res, w', s') ->
    store_inv w' s' frame /\ push_outcome s s' chunk res).
  { intros e [= <- <- <-]. split; [done|]. split; [done|]. split; [done|]. split; [done|]. by left. }
  destruct (decide (st_len s + Z.of_nat (length chunk) <= request_limit (st_config s))) as [Hle|Hgt].
  - destruct (st_state s) as [b|f live|] eqn:Hst.
    + destruct (decide (st_len s + Z.of_nat (length chunk) <= memory_threshold (st_config s))).
      * eapply push_memory_inv; eauto.
      * eapply (spill_inv w s frame b chunk HI Hst Hle io). rewrite <- Hp. unfold push. rewrite Hst.
        rewrite (proj2 (checked_u64_Some _ (Z.of_nat (length chunk)))) by width_lia.
        rewrite (proj2 (checked_u64_Some _ (st_len s + Z.of_nat (length chunk)))) by width_lia.
        rewrite (proj2 (Z.ltb_ge _ _)) by done. by rewrite (proj2 (Z.leb_gt _ _)) by lia.
    + eapply push_spool_inv; eauto.
    + unfold push in Hp. rewrite Hst in Hp. eauto.
  - unfold push in Hp. destruct (st_state s) as [b|f live|] eqn:Hst; [..|eauto];
      (destruct (checked_u64 (Z.of_nat _)) as [?|] eqn:E1; [|eauto];
       apply checked_u64_Some in E1 as [-> _];
       destruct (checked_u64 (st_len s + _)) as [?|] eqn:E2; [|eauto];
       apply checked_u64_Some in E2 as [-> _];
       rewrite (proj2 (Z.ltb_lt _ _)) in Hp by lia; eauto).
Qed.

(** ** Dropping and finishing release exactly what was held *)
Lemma drop_two_owned w r1 r2 frame :
  owned (budgets w) (r1 :: r2 :: frame) -> owned (budgets (drop_two w r1 r2)) frame.
Proof. intros HO. cbn. by apply drop_res_owned, drop_res_owned. Qed.

Lemma drop_store_owned w s frame :
  owned (budgets w) (st_storage s :: st_memory s :: frame) -> owned (budgets (drop_store w s)) frame.
Proof. intros HO. apply drop_two_owned. unfold drop_state. by case_match. Qed.

Lemma drop_zero_owned h l rs : owned h rs -> is_Some (h !! l) -> owned (drop_res h (mkRes l 0)) rs.
Proof. intros HO Hl. apply drop_res_owned. by apply owned_zero. Qed.

Lemma take_left_owned w r1 r2 frame :
  owned (budgets w) (r1 :: r2 :: frame) ->
  owned (budgets (drop_two w (take_units r1).1 (take_units r2).1)) (r1 :: r2 :: frame).
Proof.
  intros HO. cbn.
  assert (HO1 : owned (drop_res (budgets w) (mkRes (res_budget r1) 0)) (r1 :: r2 :: frame)).
  { apply drop_zero_owned; [done|]. apply (owned_alloc _ _ HO). set_solver. }
  apply drop_zero_owned; [done|]. apply (owned_alloc _ _ HO1). set_solver.
Qed.

Definition stored_reservations (b : StoredBody) : list Reservation :=
  match b with
  | StoredMemory m => [mb_storage m; mb_memory m]
  | StoredSpool m => [sb_storage m; sb_memory m]
  end.
Definition stored_contents (b : StoredBody) : list byte :=
  match b with StoredMemory m => mb_bytes m | StoredSpool m => contents (sb_file m) end.

Definition body_inv (w : World) (b : StoredBody) (frame : list Reservation) : Prop :=
  owned (budgets w) (stored_reservations b ++ frame)
  /\ stored_len b = Z.of_nat (length (stored_contents b)) /\ is_u64 (stored_len b).

Lemma finish_inv flush w s frame res w' :
  store_inv w s frame -> finish flush w s = (res, w') ->
  match res with
  | Ok b => body_inv w' b frame /\ body_contents s = Some (stored_contents b)
  | Err _ => owned (budgets w') frame
  end.
Proof.
  intros HI Hf. pose proof HI as [HO Hlim Ht Hlen Hok]. unfold finish in Hf.
  assert (Hlu : is_u64 (st_len s)) by width_lia.
  destruct (shrink_to (budgets w) (st_storage s) (st_len s)) as [[h1 r1]|] eqn:E1.
  2: { injection Hf as <- <-. by apply drop_store_owned. }
  apply (shrink_covers _ _ _ HO) in E1 as (HO1 & G1 & _ & _); [|done].
  pose proof (owned_swap _ _ _ _ HO1) as HO1'.
  unfold state_ok in Hok. destruct (st_state s) as [b|f live|] eqn:Hst.
  - destruct Hok as (El & _).
    destruct (shrink_to h1 (st_memory s) (st_len s)) as [[h2 r2]|] eqn:E2.
    2: { injection Hf as <- <-. by apply drop_store_owned. }
    apply (shrink_covers _ _ _ HO1') in E2 as (HO2 & G2 & _ & _); [|done].
    apply owned_swap in HO2. injection Hf as <- <-.
    split; [|unfold body_contents; by rewrite Hst]. split; [|by cbn].
    exact (take_left_owned (with_budgets w h2) _ _ _ HO2).
  - destruct Hok as (El & _).
    destruct (shrink_to h1 (st_memory s) 0) as [[h2 r2]|] eqn:E2.
    2: { injection Hf as <- <-. by apply drop_store_owned. }
    apply (shrink_covers _ _ _ HO1') in E2 as (HO2 & G2 & _ & _); [|width_lia].
    apply owned_swap in HO2. destruct flush; injection Hf as <- <-.
    + split; [|unfold body_contents; by rewrite Hst]. split; [|by cbn].
      exact (take_left_owned (with_budgets w h2) _ _ _ HO2).
    + by apply drop_two_owned.
  - injection Hf as <- <-. by apply drop_store_owned.
Qed.

Lemma into_bytes_inv io usize w b frame res w' :
  body_inv w b frame -> into_bytes io usize w b = (res, w') ->
  match res with
  | Ok (bytes, lease) => bytes = stored_contents b
      /\ owned (budgets w') (lease_storage lease :: lease_memory lease :: frame)
  | Err _ => owned (budgets w') frame
  end.
Proof.
  intros (HO & El & Hu) Hi. destruct b as [m|m]; cbn in *.
  { by injection Hi as <- <-. }
  destruct (try_grow_to (budgets w) (sb_memory m) (sb_len m)) as [[h1 r1]|] eqn:E1.
  2: { injection Hi as <- <-. by apply drop_two_owned. }
  apply owned_swap in HO.
  apply (grow_covers _ _ _ HO) in E1 as (HO1 & _ & _); [|done]. apply owned_swap in HO1.
  repeat match type of Hi with context [if ?c then _ else _] => destruct c end;
    injection Hi as <- <-; [by apply drop_two_owned..|done].
Qed.

(** ** The live-spool counter *)
Definition spooled_count (s : BodyStore) : Z := if is_spooled s then 1 else 0.

(** [others]: the spool files other bodies of the same factory keep alive. *)
Definition live_inv (w : World) (s : BodyStore) (others : Z) : Prop :=
  0 <= others < u64_max
  /\ counter w (live_spool_files (st_factory s)) = others + spooled_count s
  /\ match st_state s with Spool _ live => live = live_spool_files (st_factory s) | _ => True end.

Lemma push_live_inv io w s others chunk res w' s' :
  live_inv w s others -> push io w s chunk = (res, w', s') -> live_inv w' s' others.
Proof.
  intros (Ho & Hc & Hl) Hp. unfold push, spill_and_push in Hp. unfold spooled_count, is_spooled in Hc.
  destruct (st_state s) as [b|f live|] eqn:Hst.
  3: { injection Hp as <- <- <-. unfold live_inv, spooled_count, is_spooled. by rewrite Hst. }
  all: repeat (case_match; simplify_eq/=);
    (split; [done|]); unfold spooled_count, is_spooled; cbn; try rewrite Hst;
    unfold live_guard_new, live_guard_drop, counter in *; cbn in *; try done;
    rewrite lookup_insert_eq; cbn; rewrite Hc, wrap_u64_id by width_lia; (split; [lia|done]).
Qed.

(** ** Progress: sufficient budget and successful I/O are enough *)

(** [room h l frame n]: the cell has room for [n] bytes beside the reservations
    of other owners. *)
Definition room (h : heap) (l : positive) (frame : list Reservation) (n : Z) : Prop :=
  exists u, units_for_capacity n (unit_bytes (h !!! l)) = Ok u
            /\ u <= capacity_units (h !!! l) - sumZ (units_at l) frame.

Lemma room_geometry h h' l frame n : same_geometry h h' -> room h l frame n -> room h' l frame n.
Proof. intros G (u & Hu & Hle). exists u. destruct (G l) as [-> ->]. done. Qed.

Lemma grow_succeeds h r other frame n m :
  owned h (r :: other :: frame) -> res_budget other <> res_budget r ->
  0 <= n <= m -> is_u64 m -> room h (res_budget r) frame m ->
  exists h' r', try_grow_to h r n = Ok (h', r').
Proof.
  intros HO Hne Hn Hm (v & Hv & Hroom). pose proof (unit_pos _ _ _ HO) as Hp.
  apply (units_mono _ n) in Hv as (u & Hu & Huv); [|done..].
  destruct (owned_head _ _ _ HO) as (i & Hi & Ei & Hw & Hle).
  pose proof (owned_used _ _ HO _ _ Hi) as Hused. cbn in Hused.
  unfold units_at in Hused at 1 2. rewrite decide_True, decide_False in Hused by done.
  unfold try_grow_to. rewrite Hu. cbn. destruct (Z.leb_spec u (res_units r)); [eauto|].
  unfold acquire. rewrite Ei in Hroom |- *.
  pose proof (acquire_cell_Ok i (u - res_units r) (set_used i (used_units i + (u - res_units r))) Hw ltac:(lia)) as Ha.
  rewrite (proj2 Ha ltac:(split; [done|lia])). cbn. eauto.
Qed.

Definition io_good (io : PushIo) : Prop :=
  io_write_prefix io = None /\ io_write_chunk io = None /\ io_flush io = true
  /\ exists f, create (io_open io) = Ok f.

Lemma try_grow_to_shape h r n h' r' :
  try_grow_to h r n = Ok (h', r') -> same_geometry h h' /\ res_budget r' = res_budget r.
Proof.
  unfold try_grow_to. intros (u & _ & Hk)%bind_Ok. destruct (_ <=? _).
  - by injection Hk as <- <-.
  - apply bind_Ok in Hk as (h1 & Ha & [= <- <-]). split; [by eapply acquire_geometry|done].
Qed.
Lemma shrink_to_shape h r n h' r' :
  shrink_to h r n = Ok (h', r') -> same_geometry h h' /\ res_budget r' = res_budget r.
Proof.
  unfold shrink_to. intros (u & _ & Hk)%bind_Ok. destruct (_ <? _); [done|].
  injection Hk as <- <-. split; [apply release_geometry|done].
Qed.
Lemma shrink_ignoring_shape h r n h' r' :
  shrink_ignoring h r n = (h', r') -> same_geometry h h' /\ res_budget r' = res_budget r.
Proof.
  unfold shrink_ignoring. destruct (shrink_to h r n) as [[]|] eqn:E; intros [= <- <-]; [|done].
  by apply shrink_to_shape in E.
Qed.

(** The two cells a store draws from, and their geometry, never change. *)
Definition same_cells (w w' : World) (s s' : BodyStore) : Prop :=
  same_geometry (budgets w) (budgets w')
  /\ res_budget (st_storage s') = res_budget (st_storage s)
  /\ res_budget (st_memory s') = res_budget (st_memory s).

Ltac shape_step :=
  match goal with
  | H : try_grow_to _ _ _ = Ok (_, _) |- _ => apply try_grow_to_shape in H as [? ?]
  | H : shrink_to _ _ _ = Ok (_, _) |- _ => apply shrink_to_shape in H as [? ?]
  | H : shrink_ignoring _ _ _ = (_, _) |- _ => apply shrink_ignoring_shape in H as [? ?]
  end.

Lemma push_same_cells io w s chunk res w' s' :
  push io w s chunk = (res, w', s') -> same_cells w w' s s'.
Proof.
  intros Hp. unfold push, spill_and_push in Hp.
  destruct (st_state s) as [b|f live|].
  3: { by injection Hp as <- <- <-. }
  all: repeat (case_match; simplify_eq/=); repeat shape_step; split; cbn;
    try (split; congruence); try done; repeat (etrans; [eassumption|]); done.
Qed.

Definition roomy (w : World) (s : BodyStore) (frame : list Reservation) : Prop :=
  res_budget (st_storage s) <> res_budget (st_memory s)
  /\ is_u64 (2 * request_limit (st_config s))
  /\ room (budgets w) (res_budget (st_storage s)) frame (2 * request_limit (st_config s))
  /\ room (budgets w) (res_budget (st_memory s)) frame (request_limit (st_config s)).

Lemma roomy_same_cells w w' s s' frame :
  same_cells w w' s s' -> st_config s' = st_config s -> roomy w s frame -> roomy w' s' frame.
Proof.
  intros (G & E1 & E2) Ec (Hne & Hu & R1 & R2). unfold roomy. rewrite E1, E2, Ec.
  split; [done|]. split; [done|]. split; eauto using room_geometry.
Qed.

Lemma push_progress io w s frame chunk b :
  store_inv w s frame -> body_contents s = Some b -> roomy w s frame -> io_good io ->
  st_len s + Z.of_nat (length chunk) <= request_limit (st_config s) ->
  exists w' s', push io w s chunk = (Ok (), w', s').
Proof.
  intros HI Hb (Hne & Hu2 & R1 & R2) (I1 & I2 & I3 & f0 & I4) Hnext.
  pose proof HI as [HO Hlim Ht Hlen Hok]. pose proof (owned_swap _ _ _ _ HO) as HO'.
  set (next_len := st_len s + Z.of_nat (length chunk)) in *.
  assert (checked_u64 (Z.of_nat (length chunk)) = Some (Z.of_nat (length chunk))
                  /\ checked_u64 next_len = Some next_len) as [Hc1 Hc2].
  { rewrite !checked_u64_Some. unfold next_len in *. width_lia. }
  unfold push. rewrite Hc1. fold next_len. rewrite Hc2.
  rewrite (proj2 (Z.ltb_ge _ _)) by done.
  unfold body_contents in Hb. destruct (st_state s) as [mb|f live|] eqn:Hst; [..|done].
  - unfold state_ok in Hok. rewrite Hst in Hok. destruct (Z.leb_spec next_len (memory_threshold (st_config s))).
    + destruct (grow_succeeds _ _ _ _ next_len (2 * request_limit (st_config s)) HO (not_eq_sym Hne) ltac:(unfold next_len in *; lia) Hu2 R1)
        as (h1 & r1 & E1). rewrite E1.
      pose proof (try_grow_to_shape _ _ _ _ _ E1) as [G1 B1].
      apply (grow_covers _ _ _ HO) in E1 as (HO1 & _ & _); [|unfold next_len in *; width_lia].
      apply owned_swap in HO1.
      destruct (grow_succeeds h1 (st_memory s) r1 frame next_len (request_limit (st_config s)) HO1)
        as (h2 & r2 & E2); [congruence|unfold next_len in *; lia|width_lia|eauto using room_geometry|].
      rewrite E2. eauto.
    + unfold spill_and_push. rewrite Hst.
      rewrite (proj2 (checked_u64_Some _ (st_len s + next_len))) by (unfold next_len in *; width_lia).
      destruct (grow_succeeds _ _ _ _ (st_len s + next_len) (2 * request_limit (st_config s)) HO (not_eq_sym Hne)
                  ltac:(unfold next_len in *; lia) Hu2 R1) as (h1 & r1 & E1). rewrite E1.
      assert (exists f, spill_file io mb chunk = Ok f) as [f Ef].
      { unfold spill_file. rewrite I1, I2, I3, I4. cbn. eauto. }
      rewrite Ef. pose proof Hok as (El & _ & Hcs & _).
      apply (grow_covers _ _ _ HO) in E1 as (HO1 & G1 & B1 & Hcov & _); [|unfold next_len in *; width_lia].
      pose proof (owned_swap _ _ _ _ HO1) as HO1'.
      destruct (shrink_covered h1 (st_memory s) _ HO1' 0 ltac:(width_lia) (covers_zero _ _ _ HO1'))
        as (h2 & m2 & E2). rewrite E2.
      apply (shrink_covers _ _ _ HO1') in E2 as (HO2 & G2 & _ & _); [|width_lia]. apply owned_swap in HO2.
      destruct (shrink_covered h2 r1 _ HO2 next_len) as (h3 & r3 & E3);
        [unfold next_len in *; width_lia| |rewrite E3; eauto].
      apply (covers_mono _ _ _ HO2 _ (st_len s + next_len)); [unfold next_len in *; lia|unfold next_len in *; width_lia|].
      eauto using covers_geometry.
  - destruct (grow_succeeds _ _ _ _ next_len (2 * request_limit (st_config s)) HO (not_eq_sym Hne) ltac:(unfold next_len in *; lia) Hu2 R1)
      as (h1 & r1 & E1). rewrite E1, I2. cbn. eauto.
Qed.

(** ** Whole-body runs *)

(** A reader loop: push each chunk, stop at the first refusal. *)
Fixpoint push_all (w : World) (s : BodyStore) (chunks : list (PushIo * list byte))
    : result StorageError () * World * BodyStore :=
  match chunks with
  | [] => (Ok (), w, s)
  | (io, c) :: rest =>
      match push io w s c with
      | (Ok _, w', s') => push_all w' s' rest
      | refused => refused
      end
  end.

Definition chunk_bytes (chunks : list (PushIo * list byte)) : list byte :=
  concat (map snd chunks).

Lemma push_all_run chunks : forall w s frame others b,
  store_inv w s frame -> live_inv w s others -> roomy w s frame -> body_contents s = Some b ->
  Forall (fun c => io_good c.1) chunks ->
  st_len s + Z.of_nat (length (chunk_bytes chunks)) <= request_limit (st_config s) ->
  exists w' s', push_all w s chunks = (Ok (), w', s')
    /\ store_inv w' s' frame /\ live_inv w' s' others /\ roomy w' s' frame
    /\ body_contents s' = Some (b ++ chunk_bytes chunks) /\ st_factory s' = st_factory s.
Proof.
  unfold chunk_bytes. induction chunks as [|[io c] rest IH]; intros w s frame others b HI HL HR Hb Hio Hlen; cbn in *.
  { exists w, s. rewrite app_nil_r. done. }
  rewrite length_app in Hlen. apply Forall_cons in Hio as [Hio Hrest]. cbn in Hio.
  destruct (push_progress io w s frame c b HI Hb HR Hio ltac:(lia)) as (w1 & s1 & E1). rewrite E1.
  pose proof (push_same_cells _ _ _ _ _ _ _ E1) as HC.
  pose proof (push_live_inv _ _ _ _ _ _ _ _ HL E1) as HL1.
  apply push_inv with (frame := frame) in E1 as (HI1 & Ecfg & Efac & b0 & Eb0 & Eb1); [|done].
  rewrite Hb in Eb0. injection Eb0 as <-.
  destruct (IH w1 s1 frame others (b ++ c)) as (w2 & s2 & E2 & HI2 & HL2 & HR2 & Hb2 & Hf2); try done.
  - eauto using roomy_same_cells.
  - rewrite Ecfg.
    assert (forall x bx, store_inv x.1 x.2 frame -> body_contents x.2 = Some bx ->
              st_len x.2 = Z.of_nat (length bx)) as Hlenof.
    { intros [? x] bx [_ _ _ _ Hok] Hx. cbn in *. unfold state_ok, body_contents in *.
      destruct (st_state x); naive_solver. }
    pose proof (Hlenof (w, s) b HI Hb) as L0. pose proof (Hlenof (w1, s1) (b ++ c) HI1 Eb1) as L1.
    cbn in L0, L1. rewrite length_app in L1. lia.
  - exists w2, s2. rewrite <- (assoc_L (++)) in Hb2. rewrite <- Efac. done.
Qed.

Lemma store_len w s frame b :
  store_inv w s frame -> body_contents s = Some b -> st_len s = Z.of_nat (length b).
Proof.
  intros HI Hb. pose proof (inv_state _ _ _ HI) as Hok. unfold state_ok, body_contents in *.
  destruct (st_state s); [injection Hb as <-; apply Hok..|done].
Qed.

Lemma drop_two_geometry w r1 r2 : same_geometry (budgets w) (budgets (drop_two w r1 r2)).
Proof. etrans; [apply release_geometry|]. apply release_geometry. Qed.

Lemma finish_progress w s frame b :
  store_inv w s frame -> body_contents s = Some b ->
  exists body w', finish true w s = (Ok body, w')
    /\ same_geometry (budgets w) (budgets w') /\ counters w' = counters w
    /\ map res_budget (stored_reservations body) = [res_budget (st_storage s); res_budget (st_memory s)]
    /\ match body, st_state s with
       | StoredSpool m, Spool _ live => sb_live m = live
       | StoredMemory _, Memory _ => True
       | _, _ => False
       end.
Proof.
  intros HI Hb. pose proof HI as [HO Hlim Ht Hlen Hok].
  assert (Hlu : is_u64 (st_len s)) by width_lia.
  unfold finish. unfold state_ok, body_contents in *.
  assert (Hcs : covers (budgets w) (st_storage s) (st_len s)) by (destruct (st_state s); naive_solver).
  destruct (shrink_covered _ _ _ HO _ Hlu Hcs) as (h1 & r1 & E1). rewrite E1.
  apply (shrink_covers _ _ _ HO) in E1 as (HO1 & G1 & B1 & _); [|done].
  apply owned_swap in HO1.
  destruct (st_state s) as [mb|f live|] eqn:Hst; [..|done].
  - destruct (shrink_covered h1 (st_memory s) _ HO1 (st_len s) Hlu) as (h2 & r2 & E2);
      [eapply covers_geometry; [done|apply Hok]|]. rewrite E2.
    apply (shrink_covers _ _ _ HO1) in E2 as (HO2 & G2 & B2 & _); [|done].
    eexists _, _. split; [done|]. split; [|split; [done|cbn; by rewrite B1, B2]].
    etrans; [done|]. etrans; [done|]. apply (drop_two_geometry (with_budgets w h2)).
  - destruct (shrink_covered h1 (st_memory s) _ HO1 0 ltac:(width_lia) (covers_zero _ _ _ HO1))
      as (h2 & r2 & E2). rewrite E2.
    apply (shrink_covers _ _ _ HO1) in E2 as (HO2 & G2 & B2 & _); [|width_lia].
    eexists _, _. split; [done|]. split; [|split; [done|cbn; by rewrite B1, B2]].
    etrans; [done|]. etrans; [done|]. apply (drop_two_geometry (with_budgets w h2)).
Qed.

Lemma into_bytes_progress usize w m frame :
  body_inv w (StoredSpool m) frame -> res_budget (sb_storage m) <> res_budget (sb_memory m) ->
  sb_len m <= usize -> room (budgets w) (res_budget (sb_memory m)) frame (sb_len m) ->
  exists lease w1, into_bytes (mkReadIo true true true) usize w (StoredSpool m)
                   = (Ok (contents (sb_file m), lease), live_guard_drop w1 (sb_live m))
                   /\ counters w1 = counters w.
Proof.
  intros (HO & El & Hu) Hne Hus HR. cbn in *.
  apply owned_swap in HO.
  destruct (grow_succeeds _ _ _ _ (sb_len m) (sb_len m) HO Hne ltac:(width_lia) Hu HR)
    as (h1 & r1 & E1). rewrite E1.
  rewrite (proj2 (Z.ltb_ge _ _)) by done. rewrite El, Z.eqb_refl. cbn. eauto.
Qed.

(** ** Properties *)

(** Every [push], whatever the operating system answers, keeps the store and
    the shared budgets consistent: the budgets still account for exactly the
    live reservations of all owners, the body never exceeds its limit, an
    in-memory body never exceeds the memory threshold and is paid for in both
    budgets, the spool counter counts exactly this store's spool, and the
    accepted bytes are extended by the whole chunk on success and kept on
    failure (a failed append to the spool poisons the store instead). *)
Theorem push_correct (io : PushIo) (w w' : World) (s s' : BodyStore) (frame : list Reservation)
    (others : Z) (chunk : list byte) (res : result StorageError ()) :
  store_inv w s frame -> live_inv w s others ->
  push io w s chunk = (res, w', s') ->
  store_inv w' s' frame /\ live_inv w' s' others /\ push_outcome s s' chunk res.
Proof.
  intros HI HL Hp. pose proof (push_live_inv _ _ _ _ _ _ _ _ HL Hp).
  by apply (push_inv _ _ _ _ _ _ _ _ HI) in Hp as [? ?].
Qed.

(** No error path leaks: whether a store is dropped, [finish] or
    [into_bytes] fails, or the lease of a delivered body is dropped, the budgets
    afterwards account for exactly the reservations of the other owners. *)
Theorem no_capacity_leak (usize_max : Z) (w : World) (s : BodyStore) (frame : list Reservation)
    (flush : bool) (rio : ReadIo) :
  store_inv w s frame ->
  owned (budgets (drop_store w s)) frame
  /\ (let '(res, w1) := finish flush w s in
      match res with
      | Err _ => owned (budgets w1) frame
      | Ok b => owned (budgets (drop_body w1 b)) frame
          /\ (let '(res, w2) := into_bytes rio usize_max w1 b in
              match res with
              | Err _ => owned (budgets w2) frame
              | Ok (_, lease) => owned (budgets (drop_lease w2 lease)) frame
              end)
      end).
Proof.
  intros HI. split; [apply drop_store_owned, HI|].
  destruct (finish flush w s) as [res w1] eqn:Ef. apply (finish_inv _ _ _ _ _ _ HI) in Ef.
  destruct res as [b|e]; [|done]. destruct Ef as [HB _]. split.
  - destruct HB as [HO _]. destruct b; by apply drop_two_owned.
  - destruct (into_bytes rio usize_max w1 b) as [res2 w2] eqn:Ei.
    apply (into_bytes_inv _ _ _ _ _ _ _ HB) in Ei. destruct res2 as [[bytes lease]|e]; [|done].
    destruct Ei as [_ HO]. by apply drop_two_owned.
Qed.

(** C40: a body is stored and read back exactly: if the budgets have room beside
    the other owners for the spill transition and the read-back, the chunks fit
    the request limit and the operating system reports no failure, then every
    push, [finish] and [into_bytes] succeed and return the concatenation of the
    chunks; releasing the lease restores the budgets, and the spool counter is
    back to the other bodies' count. *)
Theorem body_roundtrip (usize_max : Z) (w : World) (s : BodyStore) (frame : list Reservation)
    (others : Z) (chunks : list (PushIo * list byte)) :
  store_inv w s frame -> live_inv w s others -> roomy w s frame ->
  body_contents s = Some [] -> Forall (fun c => io_good c.1) chunks ->
  Z.of_nat (length (chunk_bytes chunks)) <= request_limit (st_config s) <= usize_max ->
  exists w1 s1 b w2 lease w3,
    push_all w s chunks = (Ok (), w1, s1)
    /\ finish true w1 s1 = (Ok b, w2)
    /\ into_bytes (mkReadIo true true true) usize_max w2 b = (Ok (chunk_bytes chunks, lease), w3)
    /\ owned (budgets (drop_lease w3 lease)) frame
    /\ counter w3 (live_spool_files (st_factory s)) = others.
Proof.
  intros HI HL HR Hb Hio Hlen.
  pose proof (store_len _ _ _ _ HI Hb) as Hlen0. cbn in Hlen0.
  destruct (push_all_run chunks w s frame others [] HI HL HR Hb Hio ltac:(lia))
    as (w1 & s1 & E1 & HI1 & HL1 & HR1 & Hb1 & Hf1).
  destruct (finish_progress _ _ _ _ HI1 Hb1) as (b & w2 & E2 & G2 & C2 & B2 & K2).
  pose proof (finish_inv _ _ _ _ _ _ HI1 E2) as [HB Hc2]. rewrite Hb1 in Hc2. injection Hc2 as Hc2.
  destruct HL1 as (Hoth & Hcnt & Hlive). rewrite Hf1 in Hcnt, Hlive.
  assert (Hcnt2 : counter w2 (live_spool_files (st_factory s)) = others + spooled_count s1).
  { rewrite <- Hcnt. unfold counter. by rewrite C2. }
  exists w1, s1, b, w2. destruct b as [m|m]; cbn in Hc2.
  - exists (mkLease (mb_storage m) (mb_memory m)), w2.
    split; [done|]. split; [done|]. split; [by rewrite Hc2|]. destruct HB as [HO _].
    split; [by apply drop_two_owned|]. rewrite Hcnt2. unfold spooled_count, is_spooled.
    destruct (st_state s1); [lia|done..].
  - destruct (st_state s1) as [|f live|] eqn:Hst; try done. injection B2 as B2s B2m.
    destruct HR1 as (Hne & Hu2 & _ & R2). pose proof HB as (_ & Elen & _). cbn in Elen.
    pose proof HI1 as [_ Hlim1 _ Hl1 _].
    assert (sb_len m <= request_limit (st_config s1)) as Hml.
    { rewrite (store_len _ _ _ _ HI1 Hb1) in Hl1. cbn in Hl1. rewrite Hc2 in Hl1. lia. }
    destruct (into_bytes_progress usize_max w2 m frame HB) as (lease & w3 & E3 & C3).
    + by rewrite B2s, B2m.
    + rewrite (store_len _ _ _ _ HI1 Hb1), Hc2 in Hl1. rewrite Hc2 in Hlen. cbn in Elen. lia.
    + rewrite B2m. apply (room_geometry _ _ _ _ _ G2) in R2. destruct R2 as (v & Hv & Hvr).
      apply (units_mono _ (sb_len m)) in Hv as (u & Hu & Huv).
      * exists u. split; [done|lia].
      * destruct HB as [HO _]. cbn in HO. apply owned_swap in HO. apply unit_pos in HO. by rewrite B2m in HO.
      * cbn in Elen. lia.
      * width_lia.
    + exists lease, (live_guard_drop w3 (sb_live m)). rewrite Hc2.
      split; [done|]. split; [done|]. split; [done|].
      apply (into_bytes_inv _ _ _ _ _ _ _ HB) in E3 as [_ HO3].
      split; [by apply drop_two_owned|].
      unfold live_guard_drop, counter. cbn. rewrite K2, Hlive, lookup_insert_eq. cbn.
      unfold counter in Hcnt2 |- *. rewrite C3, Hcnt2. unfold spooled_count, is_spooled. rewrite Hst.
      rewrite wrap_u64_id; width_lia.
Qed.

(** [start] accepts a request exactly when the configuration is valid, each
    reservation belongs to the budget it is declared for and the two budget
    handles are different objects; the accepted store is empty, in memory and
    consistent, and a refusal returns both reservations.  The guard compares the
    addresses of the handles, so it does not exclude two handles of one budget. *)
Theorem start_accepts_exactly (usize_max : Z) (w : World) (c : StorageConfig) (sb mb : BudgetRef)
    (storage memory : Reservation) (f : Factory) (frame : list Reservation) :
  owned (budgets w) (storage :: memory :: frame) ->
  is_u64 (request_limit c) -> 0 <= memory_threshold c ->
  let accepted := 0 < request_limit c /\ memory_threshold c <= request_limit c <= usize_max
                  /\ res_budget storage = ref_cell sb /\ res_budget memory = ref_cell mb
                  /\ ref_addr sb <> ref_addr mb in
  match start usize_max w c sb mb storage memory f with
  | (Ok s, w') => accepted /\ w' = w /\ body_contents s = Some [] /\ st_len s = 0 /\ store_inv w s frame
  | (Err e, w') => ~ accepted /\ e = InvalidConfig /\ owned (budgets w') frame
  end.
Proof.
  intros HO Hlim Hthr accepted.
  assert (Hval : StorageConfig_validate usize_max c =
    if bool_decide (0 < request_limit c /\ memory_threshold c <= request_limit c <= usize_max)
    then Ok c else Err InvalidConfig).
  { unfold StorageConfig_validate, as_usize. destruct c as [l m]; cbn in *.
    destruct (Z.eqb_spec l 0), (Z.leb_spec m l), (Z.leb_spec l usize_max); cbn;
      case_bool_decide; try done; width_lia. }
  unfold start. rewrite Hval. unfold belongs_to.
  repeat case_bool_decide; cbn; try (destruct (Z.eqb_spec (ref_addr sb) (ref_addr mb)); cbn);
    unfold accepted; try (split; [intuition congruence|split; [done|by apply drop_two_owned]]).
  split; [intuition congruence|]. do 3 (split; [done|]).
  split; cbn; [exact HO|width_lia..|].
  split; [done|]. split; [done|].
  split; exists 0; (split; [done|]); apply (owned_nonneg _ _ HO); set_solver.
Qed.

(** A small concrete world: two budgets of 100 one-byte units, a spool factory. *)
Definition demo_world : World :=
  mkWorld {[ 1%positive := mkInner 100 1 0; 2%positive := mkInner 100 1 0 ]} {[ 7%positive := 0 ]}.
Definition demo_store : BodyStore :=
  mkStore (mkConfig 10 2) (mkFactory 7) (mkRes 1 0) (mkRes 2 0) (Memory []) 0.
Definition demo_io : PushIo := mkPushIo (fun _ => Opened true) None None true.
Definition demo_chunks : list (PushIo * list byte) :=
  [(demo_io, [Byte.x61; Byte.x62]); (demo_io, [Byte.x63; Byte.x64; Byte.x65])].

Lemma demo_owned : owned (budgets demo_world) [mkRes 1 0; mkRes 2 0].
Proof.
  assert (H : forall l i, budgets demo_world !! l = Some i ->
    (l = 1%positive \/ l = 2%positive) /\ i = mkInner 100 1 0).
  { unfold demo_world; cbn [budgets]. intros l i [[<- <-]|[_ [<- <-]%lookup_singleton_Some]]%lookup_insert_Some; auto. }
  split.
  - intros l i [_ ->]%H. vm_compute; intuition discriminate.
  - intros l i [[->| ->] ->]%H; reflexivity.
  - intros r [->|[->|[]%elem_of_nil]%elem_of_cons]%elem_of_cons; vm_compute; discriminate.
  - intros r [->|[->|[]%elem_of_nil]%elem_of_cons]%elem_of_cons; by eexists.
Qed.
Lemma demo_inv : store_inv demo_world demo_store [].
Proof.
  split; [apply demo_owned|vm_compute; intuition discriminate..|].
  repeat split; try done; exists 0; by vm_compute.
Qed.
Lemma demo_live : live_inv demo_world demo_store 0.
Proof. by vm_compute. Qed.
Lemma demo_roomy : roomy demo_world demo_store [].
Proof. split; [done|]. split; [by vm_compute|]. split; eexists; (split; [vm_compute; reflexivity|vm_compute; discriminate]). Qed.

Lemma push_correct_witness :
  let '(_, w', s') := push demo_io demo_world demo_store [Byte.x61; Byte.x62; Byte.x63] in
  is_spooled s' = true /\ store_inv w' s' [].
Proof.
  split; [reflexivity|].
  refine (proj1 (push_correct demo_io demo_world _ demo_store _ [] 0 [Byte.x61; Byte.x62; Byte.x63] (Ok ())
            demo_inv demo_live _)); reflexivity.
Defined.

Lemma no_capacity_leak_witness : owned (budgets (drop_store demo_world demo_store)) [].
Proof.
  refine (proj1 (no_capacity_leak 1000 demo_world demo_store [] true (mkReadIo true true true) demo_inv)).
Defined.

Lemma body_roundtrip_witness :
  exists w1 s1 b w2 lease w3,
    push_all demo_world demo_store demo_chunks = (Ok (), w1, s1)
    /\ finish true w1 s1 = (Ok b, w2)
    /\ into_bytes (mkReadIo true true true) 1000 w2 b
       = (Ok ([Byte.x61; Byte.x62; Byte.x63; Byte.x64; Byte.x65], lease), w3)
    /\ owned (budgets (drop_lease w3 lease)) [] /\ counter w3 7 = 0.
Proof.
  apply (body_roundtrip 1000 demo_world demo_store [] 0 demo_chunks demo_inv demo_live demo_roomy);
    [reflexivity | repeat (apply Forall_cons || apply Forall_nil || split); by eexists | by vm_compute].
Defined.

Lemma start_accepts_exactly_witness :
  0 < 10 /\ 2 <= 10 <= 1000
  /\ fst (start 1000 demo_world (mkConfig 10 2) (mkRef 8 1) (mkRef 16 2) (mkRes 1 0) (mkRes 2 0) (mkFactory 7))
     = Ok demo_store.
Proof.
  pose proof (start_accepts_exactly 1000 demo_world (mkConfig 10 2) (mkRef 8 1) (mkRef 16 2)
    (mkRes 1 0) (mkRes 2 0) (mkFactory 7) [] demo_owned) as H.
  cbn in H. destruct H as [(? & ? & _) _]; [by vm_compute|done|]. done.
Defined.

(** Two clones of one budget are two handles: the store accepts them although
    both reservations draw on the same authority. *)
Example start_accepts_cloned_budget :
  fst (start 1000 demo_world (mkConfig 10 2) (mkRef 8 1) (mkRef 16 1) (mkRes 1 0) (mkRes 1 0) (mkFactory 7))
  = Ok (mkStore (mkConfig 10 2) (mkFactory 7) (mkRes 1 0) (mkRes 1 0) (Memory []) 0).
Proof. reflexivity. Qed.
