(* ===== verification/LedgerDb.v ===== *)
(** * The SQLite billing database ([crates/registry/src/lib.rs], [open])

    The tables of the billing authority as finite maps and lists, the column
    types, the unique indexes and the trigger guards that [open] installs.  Every
    write of the operations in [Accounts] and [Settlement] goes through the
    writers of this file, so an index or a trigger that would abort the statement
    aborts the operation.

    A column that only Rust writes holds an [i64].  [reserved_nano] is also
    updated by SQL arithmetic, where SQLite turns an overflowing sum into a REAL
    that no longer reads as an [i64]: it is a [SqlNum]. *)
From S2P Require Import Prelude Text.

(** ** Errors: one constructor per failure the code reports. *)
Inductive LedgerError : Type :=
| InvalidParameters        (* a [bail!] on the arguments *)
| ColumnType               (* [row.get::<i64>] on a REAL column *)
| ConstraintViolation      (* unique index, CHECK or trigger *)
| IdempotencyConflict      (* a reference or request id with other parameters *)
| AlreadyTerminal
| NoReservation
| ParametersMismatch
| IncompletePricing
| InconsistentEvidence
| OutboxMissing
| StoredDiffers
| InvalidUsageJson
| ProviderDiffers
| AccountAggregate         (* "reservation/account aggregate invariant failed" *)
| KeyAggregate
| AmountOverflow
| AccountGone
| UnknownAccount
| UnknownProvider
| KeyOwned.

#[global] Instance LedgerError_eq_dec : EqDecision LedgerError.
Proof. solve_decision. Defined.

(** ** Columns *)
Inductive SqlNum : Type := SqlInt (z : Z) | SqlReal.
#[global] Instance SqlNum_eq_dec : EqDecision SqlNum.
Proof. solve_decision. Defined.

(** The column holding the exact value [z]. *)
Definition to_sql (z : Z) : SqlNum := if decide (is_i64 z) then SqlInt z else SqlReal.
(** [column + n] for [n >= 0]; a REAL beyond the integer range stays one. *)
Definition sql_add (c : SqlNum) (n : Z) : SqlNum :=
  match c with SqlInt z => to_sql (z + n) | SqlReal => SqlReal end.
(** [row.get::<_, i64>]. *)
Definition get_i64 (c : SqlNum) : result LedgerError Z :=
  match c with SqlInt z => Ok z | SqlReal => Err ColumnType end.
(** [offset + column <= limit]: the REAL exceeds every [i64]. *)
Definition sql_within (offset : Z) (c : SqlNum) (limit : Z) : bool :=
  match c with SqlInt z => offset + z <=? limit | SqlReal => false end.

(** ** Rows *)
Record Account := mkAccount {
  ac_handle : option string;
  ac_balance : Z;
  ac_spent : Z;
  ac_reserved : SqlNum;
  ac_uncollected : Z;
  ac_mult_bp : Z;
  ac_status : string;
  ac_created_ts : Z
}.

Record ApiKey := mkKey {
  k_key_id : string;
  k_account_id : string;
  k_label : option string;
  k_spent : Z;
  k_reserved : SqlNum;
  k_spend_limit : option Z;
  k_expires_ts : option Z;
  k_status : string;
  k_created_ts : Z
}.

(** [UsageEventInput]. *)
Record UsageEventInput := mkUsage {
  ue_model : string;
  ue_provider : string;
  ue_input_tokens : Z;
  ue_output_tokens : Z;
  ue_cache_read_tokens : Z;
  ue_cache_write_5m_tokens : Z;
  ue_cache_write_1h_tokens : Z;
  ue_web_search_requests : Z;
  ue_real_nano : Z;
  ue_charge_basis_nano : Z;
  ue_speed : string;
  ue_inference_geo : string;
  ue_input_nano : Z;
  ue_output_nano : Z;
  ue_cache_read_nano : Z;
  ue_cache_write_5m_nano : Z;
  ue_cache_write_1h_nano : Z;
  ue_web_search_nano : Z;
  ue_priced_ts : Z
}.
#[global] Instance UsageEventInput_eq_dec : EqDecision UsageEventInput.
Proof. solve_decision. Defined.

(** [serde_json] on [UsageEventInput]: what the outbox stores and reads back. *)
Class UsageCodec := {
  to_json : UsageEventInput -> string;
  from_json : string -> option UsageEventInput;
  from_to_json : forall u, from_json (to_json u) = Some u
}.

Inductive LedgerKind : Type := TopUp | Adjust | Charge.
#[global] Instance LedgerKind_eq_dec : EqDecision LedgerKind.
Proof. solve_decision. Defined.

Record LedgerRow := mkLedgerRow {
  lr_id : Z;
  lr_account_id : string;
  lr_key : option string;
  lr_kind : LedgerKind;
  lr_request_id : option string;
  lr_amount : Z;
  lr_ref : option string;
  lr_balance_after : option Z;
  lr_ts : Z;
  lr_model : option string;
  lr_provider : option string;
  lr_official : option Z;
  lr_multiplier : option Z;
  lr_uncollected : Z
}.

Record UsageRow := mkUsageRow {
  ur_request_id : option string;
  ur_account_id : string;
  ur_key : option string;
  ur_usage : UsageEventInput;
  ur_charge : Z;
  ur_ref : option string;
  ur_ts : Z;
  ur_provider : string;
  ur_multiplier : option Z;
  ur_uncollected : Z
}.

(** The four values the writers of [billing_reservations.state] store. *)
Inductive ReservationState : Type := Reserved | Delivering | Settled | Canceled.
#[global] Instance ReservationState_eq_dec : EqDecision ReservationState.
Proof. solve_decision. Defined.

Record ReservationRow := mkReservation {
  r_account_id : string;
  r_key : string;
  r_hold : Z;
  r_group_id : option string;
  r_attempt : Z;
  r_state : ReservationState;
  r_balance_after_reserve : Z;
  r_actual : option Z;
  r_collected : option Z;
  r_uncollected : option Z;
  r_provider : option string;
  r_multiplier : option Z;
  r_balance_after_settle : option Z;
  r_reference : option string;
  r_lease_until : Z;
  r_created_ts : Z;
  r_updated_ts : Z;
  r_settled_ts : option Z
}.

Inductive Disposition : Type := DSettle | DCancel | DReconcileFullHold.
#[global] Instance Disposition_eq_dec : EqDecision Disposition.
Proof. solve_decision. Defined.
Inductive OutboxState : Type := Pending | Done.
#[global] Instance OutboxState_eq_dec : EqDecision OutboxState.
Proof. solve_decision. Defined.

Record OutboxRow := mkOutbox {
  o_actual : Z;
  o_reference : option string;
  o_usage_json : option string;
  o_charge_basis : option Z;
  o_disposition : Disposition;
  o_state : OutboxState;
  o_attempts : Z;
  o_next_attempt_ts : Z;
  o_last_error : option LedgerError;
  o_created_ts : Z;
  o_updated_ts : Z;
  o_committed_ts : option Z
}.

Record Db := mkDb {
  accounts : gmap string Account;
  api_keys : gmap string ApiKey;
  discounts : gmap (string * string) (Z * Z);        (* (account, provider) to (mult_bp, ts) *)
  ledger : list LedgerRow;
  next_ledger_id : Z;
  checkpoints : gmap (string * string) (Z * Z);      (* (consumer, account) to (last id, ts) *)
  usage_events : list UsageRow;
  reservations : gmap string ReservationRow;
  outbox : gmap string OutboxRow;
  winners : gmap string (string * Z)                 (* group to (request id, decided_at) *)
}.
Definition empty_db : Db := mkDb ∅ ∅ ∅ [] 1 ∅ [] ∅ ∅ ∅.

Definition set_accounts (db : Db) x : Db := mkDb x (api_keys db) (discounts db) (ledger db) (next_ledger_id db)
  (checkpoints db) (usage_events db) (reservations db) (outbox db) (winners db).
Definition set_keys (db : Db) x : Db := mkDb (accounts db) x (discounts db) (ledger db) (next_ledger_id db)
  (checkpoints db) (usage_events db) (reservations db) (outbox db) (winners db).
Definition set_discounts (db : Db) x : Db := mkDb (accounts db) (api_keys db) x (ledger db) (next_ledger_id db)
  (checkpoints db) (usage_events db) (reservations db) (outbox db) (winners db).
Definition set_ledger (db : Db) x n : Db := mkDb (accounts db) (api_keys db) (discounts db) x n
  (checkpoints db) (usage_events db) (reservations db) (outbox db) (winners db).
Definition set_checkpoints (db : Db) x : Db := mkDb (accounts db) (api_keys db) (discounts db) (ledger db)
  (next_ledger_id db) x (usage_events db) (reservations db) (outbox db) (winners db).
Definition set_usage (db : Db) x : Db := mkDb (accounts db) (api_keys db) (discounts db) (ledger db)
  (next_ledger_id db) (checkpoints db) x (reservations db) (outbox db) (winners db).
Definition set_reservations (db : Db) x : Db := mkDb (accounts db) (api_keys db) (discounts db) (ledger db)
  (next_ledger_id db) (checkpoints db) (usage_events db) x (outbox db) (winners db).
Definition set_outbox (db : Db) x : Db := mkDb (accounts db) (api_keys db) (discounts db) (ledger db)
  (next_ledger_id db) (checkpoints db) (usage_events db) (reservations db) x (winners db).
Definition set_winners (db : Db) x : Db := mkDb (accounts db) (api_keys db) (discounts db) (ledger db)
  (next_ledger_id db) (checkpoints db) (usage_events db) (reservations db) (outbox db) x.

(** ** Providers *)
Definition PROVIDER_ANTHROPIC : string := "anthropic".
Definition PROVIDER_OPENAI : string := "openai".
Definition PROVIDER_GOOGLE : string := "google".
Definition PROVIDER_KIMI : string := "kimi".
Definition PROVIDER_GLM : string := "glm".
Definition PROVIDER_TRIPO3D : string := "tripo3d".
Definition PROVIDER_SUNO : string := "suno".
Definition DISCOUNT_PROVIDER_IDS : list string :=
  [PROVIDER_ANTHROPIC; PROVIDER_OPENAI; PROVIDER_GOOGLE; PROVIDER_KIMI; PROVIDER_GLM;
   PROVIDER_TRIPO3D; PROVIDER_SUNO].
Definition ROSTER_BACKED_PROVIDERS : list string :=
  [PROVIDER_GOOGLE; PROVIDER_OPENAI; PROVIDER_KIMI; PROVIDER_GLM].

Definition ensure_valid_provider_discount (provider_id : string) (mult_bp : Z) : result LedgerError () :=
  guard_ok (bool_decide (provider_id ∈ DISCOUNT_PROVIDER_IDS)) UnknownProvider;;
  guard_ok ((0 <=? mult_bp) && (mult_bp <=? 10000)) InvalidParameters.
Definition require_roster_backed_provider (provider : string) : result LedgerError () :=
  guard_ok (bool_decide (provider ∈ ROSTER_BACKED_PROVIDERS)) UnknownProvider.

Record ReservationPricing := mkPricing { pr_provider : string; pr_multiplier : Z }.
Definition ReservationPricing_new (provider : string) (mult : Z) : result LedgerError ReservationPricing :=
  ensure_valid_provider_discount provider mult;;
  Ok (mkPricing provider mult).

(** ** Triggers ([install_sqlite_settlement_guards], [install_sqlite_attribution_guards])
    Each is the condition under which the row may be written. *)
Definition in_bp (m : Z) : bool := (0 <=? m) && (m <=? 10000).
Definition opt_all {A} (p : A -> bool) (o : option A) : bool :=
  match o with Some a => p a | None => true end.
Definition is_terminal (s : ReservationState) : bool :=
  match s with Settled | Canceled => true | _ => false end.
Definition is_open (s : ReservationState) : bool := negb (is_terminal s).

Definition account_guard (a : Account) : bool := 0 <=? ac_uncollected a.
Definition reservation_guard (r : ReservationRow) : bool :=
  (match r_collected r, r_uncollected r with
   | None, None => true
   | Some c, Some u =>
       match r_actual r with
       | None => false
       | Some a => (0 <=? c) && (0 <=? u) && (a =? c + u)
       end
   | _, _ => false
   end)
  && (match r_provider r, r_multiplier r with
      | None, None => true
      | Some p, Some m => bool_decide (p ∈ DISCOUNT_PROVIDER_IDS) && in_bp m
      | _, _ => false
      end)
  && negb (is_terminal (r_state r) && bool_decide (is_Some (r_provider r))
           && bool_decide (r_collected r = None)).
Definition reservation_check (r : ReservationRow) : bool :=
  opt_all (fun g => negb (bool_decide (g = ""))) (r_group_id r) && (0 <? r_attempt r).
Definition outbox_guard (o : OutboxRow) : bool := opt_all (Z.leb 0) (o_charge_basis o).
Definition ledger_guard (l : LedgerRow) : bool :=
  (0 <=? lr_uncollected l) && opt_all in_bp (lr_multiplier l) && opt_all (Z.leb 0) (lr_official l).
Definition usage_guard (u : UsageRow) : bool :=
  (0 <=? ur_uncollected u) && (ur_uncollected u <=? ur_charge u)
  && (0 <=? ue_charge_basis_nano (ur_usage u)) && opt_all in_bp (ur_multiplier u).

(** Unique indexes [ledger_topup_ref], [ledger_money_ref], [ledger_request_once]
    and [usage_events_request_once]. *)
Definition is_money (k : LedgerKind) : bool := match k with TopUp | Adjust => true | Charge => false end.
Definition same_money_ref (l x : LedgerRow) : bool :=
  is_money (lr_kind l) && is_money (lr_kind x)
  && bool_decide (is_Some (lr_ref l)) && bool_decide (lr_ref l = lr_ref x).
Definition same_kind_request (l x : LedgerRow) : bool :=
  bool_decide (lr_kind l = lr_kind x)
  && bool_decide (is_Some (lr_request_id l)) && bool_decide (lr_request_id l = lr_request_id x).
Definition same_usage_request (u x : UsageRow) : bool :=
  bool_decide (is_Some (ur_request_id u)) && bool_decide (ur_request_id u = ur_request_id x).

(** ** Writers *)
Definition update_account (db : Db) (id : string) (a : Account) : result LedgerError Db :=
  guard_ok (account_guard a) ConstraintViolation;;
  Ok (set_accounts db (<[id := a]> (accounts db))).
Definition write_reservation (db : Db) (rid : string) (r : ReservationRow) : result LedgerError Db :=
  guard_ok (reservation_guard r && reservation_check r) ConstraintViolation;;
  Ok (set_reservations db (<[rid := r]> (reservations db))).
Definition write_outbox (db : Db) (rid : string) (o : OutboxRow) : result LedgerError Db :=
  guard_ok (outbox_guard o) ConstraintViolation;;
  Ok (set_outbox db (<[rid := o]> (outbox db))).
Definition ledger_insert (db : Db) (row : Z -> LedgerRow) : result LedgerError Db :=
  let l := row (next_ledger_id db) in
  guard_ok (ledger_guard l
            && forallb (fun x => negb (same_money_ref l x) && negb (same_kind_request l x)) (ledger db))
    ConstraintViolation;;
  Ok (set_ledger db (ledger db ++ [l]) (next_ledger_id db + 1)).
Definition usage_insert (db : Db) (u : UsageRow) : result LedgerError Db :=
  guard_ok (usage_guard u && forallb (fun x => negb (same_usage_request u x)) (usage_events db))
    ConstraintViolation;;
  Ok (set_usage db (usage_events db ++ [u])).

(** ** Column lemmas *)
Lemma to_sql_id z : is_i64 z -> to_sql z = SqlInt z.
Proof. intros. unfold to_sql. by rewrite decide_True. Qed.
Lemma get_to_sql z v : get_i64 (to_sql z) = Ok v <-> v = z /\ is_i64 z.
Proof. unfold to_sql. case_decide; cbn; split; [|intros [-> ?]|..]; try done; [intros; by simplify_eq|tauto]. Qed.
Lemma sql_add_to_sql z n : 0 <= z -> 0 <= n -> sql_add (to_sql z) n = to_sql (z + n).
Proof. intros. unfold to_sql. case_decide; cbn; unfold to_sql; repeat case_decide; try done; width_lia. Qed.
