(* ===== verification/Accounts.v ===== *)
(** * Accounts, keys, discounts and top-ups ([crates/registry/src/lib.rs])

    The control-plane operations of the billing authority.  An operation takes
    the database (and the clock reading [now] where the code calls [now()]) and
    returns its result together with the new database; an [Err] leaves the
    database unchanged, because the statement or its transaction is rolled
    back. *)
From stdpp Require Import sorting.
From S2P Require Import Prelude Text LedgerDb.

(** ** Accounts *)
Definition account_create (now : Z) (db : Db) (id : string) (handle : option string) (mult_bp : Z)
    : result LedgerError Db :=
  guard_ok (negb (trim_is_empty id) && opt_all (fun h => negb (trim_is_empty h)) handle) InvalidParameters;;
  guard_ok (in_bp mult_bp) InvalidParameters;;
  guard_ok (bool_decide (accounts db !! id = None)) ConstraintViolation;;
  guard_ok (opt_all (fun h => bool_decide (map_Forall (fun _ a => ac_handle a <> Some h) (accounts db))) handle)
    ConstraintViolation;;
  update_account db id (mkAccount handle 0 0 (SqlInt 0) 0 mult_bp "active" now).

(** [one_account]: a REAL [reserved_nano] does not read as an [i64]. *)
Definition account_get (db : Db) (id : string) : result LedgerError (option Account) :=
  match accounts db !! id with
  | None => Ok None
  | Some a => get_i64 (ac_reserved a);; Ok (Some a)
  end.
Definition account_by_handle (db : Db) (handle : string) : result LedgerError (option (string * Account)) :=
  match map_to_list (filter (fun p => ac_handle p.2 = Some handle) (accounts db)) with
  | [] => Ok None
  | p :: _ => get_i64 (ac_reserved p.2);; Ok (Some p)
  end.

Definition set_ac_status (a : Account) (s : string) : Account :=
  mkAccount (ac_handle a) (ac_balance a) (ac_spent a) (ac_reserved a) (ac_uncollected a) (ac_mult_bp a) s (ac_created_ts a).
Definition set_ac_mult (a : Account) (m : Z) : Account :=
  mkAccount (ac_handle a) (ac_balance a) (ac_spent a) (ac_reserved a) (ac_uncollected a) m (ac_status a) (ac_created_ts a).
Definition set_ac_balance (a : Account) (b : Z) : Account :=
  mkAccount (ac_handle a) b (ac_spent a) (ac_reserved a) (ac_uncollected a) (ac_mult_bp a) (ac_status a) (ac_created_ts a).

Definition account_set_status (db : Db) (id status : string) : result LedgerError (Z * Db) :=
  match accounts db !! id with
  | None => Ok (0, db)
  | Some a => db' ← update_account db id (set_ac_status a status); Ok (1, db')
  end.
Definition account_set_mult_bp (db : Db) (id : string) (mult_bp : Z) : result LedgerError (Z * Db) :=
  guard_ok (in_bp mult_bp) InvalidParameters;;
  match accounts db !! id with
  | None => Ok (0, db)
  | Some a => db' ← update_account db id (set_ac_mult a mult_bp); Ok (1, db')
  end.
Definition account_remove (db : Db) (id : string) : result LedgerError (Z * Db) :=
  match accounts db !! id with
  | None => Ok (0, db)
  | Some a =>
      if bool_decide (ac_status a = "deleted") then Ok (0, db)
      else db' ← update_account db id (set_ac_status a "deleted"); Ok (1, db')
  end.

(** [account_topup]: the UPDATE is rolled back when the ledger index refuses the
    reference, and the stored operation then decides between an exact replay and
    a conflict. *)
Definition money_kind (amount : Z) : LedgerKind := if 0 <=? amount then TopUp else Adjust.
Definition topup_row (now : Z) (id : string) (amount : Z) (reference : option string) (bal : Z) (lid : Z) : LedgerRow :=
  mkLedgerRow lid id None (money_kind amount) None amount reference (Some bal) now None None None None 0.
Definition money_row (reference : string) (l : LedgerRow) : bool :=
  is_money (lr_kind l) && bool_decide (lr_ref l = Some reference).

Definition account_topup (now : Z) (db : Db) (id : string) (amount : Z) (reference : option string)
    : result LedgerError (option Z * Db) :=
  guard_ok (opt_all (fun r => negb (trim_is_empty r)) reference) InvalidParameters;;
  match accounts db !! id with
  | None => Ok (None, db)
  | Some a =>
      bal ← get_i64 (to_sql (ac_balance a + amount));
      db1 ← update_account db id (set_ac_balance a bal);
      match ledger_insert db1 (topup_row now id amount reference bal) with
      | Ok db2 => Ok (Some bal, db2)
      | Err e =>
          match reference with
          | None => Err e
          | Some r =>
              match List.find (money_row r) (ledger db) with
              | None => Err e
              | Some l =>
                  match lr_balance_after l with
                  | Some original =>
                      if bool_decide (lr_account_id l = id) && bool_decide (lr_kind l = money_kind amount)
                         && (lr_amount l =? amount)
                      then Ok (Some original, db) else Err IdempotencyConflict
                  | None => Err IdempotencyConflict
                  end
              end
          end
      end
  end.

(** ** Keys *)
(** [key_issue_with_policy]: [key_id] is the random identifier SQLite generates. *)
Definition key_issue_with_policy (now : Z) (key_id : string) (db : Db) (key account_id : string)
    (label : option string) (spend_limit expires_ts : option Z) : result LedgerError Db :=
  guard_ok (negb (trim_is_empty key) && negb (trim_is_empty account_id)) InvalidParameters;;
  match api_keys db !! key with
  | Some k =>
      guard_ok (bool_decide (k_account_id k = account_id)) KeyOwned;;
      Ok (set_keys db (<[key := mkKey (k_key_id k) (k_account_id k) label (k_spent k) (k_reserved k)
                                 spend_limit expires_ts (k_status k) (k_created_ts k)]> (api_keys db)))
  | None =>
      guard_ok (bool_decide (map_Forall (fun _ k => k_key_id k <> key_id) (api_keys db))) ConstraintViolation;;
      Ok (set_keys db (<[key := mkKey key_id account_id label 0 (SqlInt 0) spend_limit expires_ts "active" now]>
                         (api_keys db)))
  end.
Definition key_issue (now : Z) (key_id : string) (db : Db) (key account_id : string) (label : option string)
    : result LedgerError Db := key_issue_with_policy now key_id db key account_id label None None.

(** [UPDATE api_keys SET .. WHERE p]: the rows that satisfy [p] are rewritten. *)
Definition update_keys (db : Db) (p : string -> ApiKey -> bool) (f : ApiKey -> ApiKey) : Z * Db :=
  (Z.of_nat (size (filter (fun kv => p kv.1 kv.2 = true) (api_keys db))),
   set_keys db (map_imap (fun key k => Some (if p key k then f k else k)) (api_keys db))).
Definition set_k_status (s : string) (k : ApiKey) : ApiKey :=
  mkKey (k_key_id k) (k_account_id k) (k_label k) (k_spent k) (k_reserved k) (k_spend_limit k) (k_expires_ts k) s (k_created_ts k).
Definition set_k_label (l : string) (k : ApiKey) : ApiKey :=
  mkKey (k_key_id k) (k_account_id k) (Some l) (k_spent k) (k_reserved k) (k_spend_limit k) (k_expires_ts k) (k_status k) (k_created_ts k).
Definition set_k_policy (lim exp : option Z) (k : ApiKey) : ApiKey :=
  mkKey (k_key_id k) (k_account_id k) (k_label k) (k_spent k) (k_reserved k) lim exp (k_status k) (k_created_ts k).

Definition key_set_status (db : Db) (key status : string) : Z * Db :=
  update_keys db (fun key' _ => bool_decide (key' = key)) (set_k_status status).
Definition key_set_status_by_id (db : Db) (key_id status : string) : Z * Db :=
  update_keys db (fun _ k => bool_decide (k_key_id k = key_id)) (set_k_status status).
Definition key_set_label_by_id (db : Db) (key_id label : string) : Z * Db :=
  update_keys db (fun _ k => bool_decide (k_key_id k = key_id)) (set_k_label label).

Inductive KeyPolicyUpdate : Type := Updated | NotFound | LimitBelowUsage | ExpiryNotFuture.
#[global] Instance KeyPolicyUpdate_eq_dec : EqDecision KeyPolicyUpdate.
Proof. solve_decision. Defined.

(** The WHERE clause of [key_set_policy_by_id]; [sql_now] is SQLite's clock. *)
Definition policy_target (account_id key_id : string) (k : ApiKey) : bool :=
  bool_decide (k_key_id k = key_id) && bool_decide (k_account_id k = account_id).
Definition policy_admits (sql_now : Z) (lim exp : option Z) (k : ApiKey) : bool :=
  opt_all (fun l => sql_within 0 (k_reserved k) l && sql_within (k_spent k) (k_reserved k) l) lim
  && opt_all (fun e => sql_now <? e) exp.
Definition key_set_policy_by_id (sql_now now : Z) (db : Db) (account_id key_id : string) (lim exp : option Z)
    : KeyPolicyUpdate * Db :=
  let '(updated, db') :=
    update_keys db (fun _ k => policy_target account_id key_id k && policy_admits sql_now lim exp k)
      (set_k_policy lim exp) in
  if updated =? 1 then (Updated, db')
  else if bool_decide (map_Forall (fun _ k => policy_target account_id key_id k = false) (api_keys db))
  then (NotFound, db')
  else if negb (opt_all (fun e => now <? e) exp) then (ExpiryNotFuture, db')
  else (LimitBelowUsage, db').

Definition key_remove (db : Db) (key : string) : Z * Db :=
  (if bool_decide (is_Some (api_keys db !! key)) then 1 else 0, set_keys db (delete key (api_keys db))).
Definition key_clear (db : Db) : Z * Db :=
  (Z.of_nat (size (api_keys db)), set_keys db ∅).

(** ** Provider discounts and the authorization snapshot *)
Definition by_provider (x y : string * Z) : Prop := String.leb x.1 y.1 = true.
#[global] Instance by_provider_dec x y : Decision (by_provider x y).
Proof. unfold by_provider. apply _. Defined.
Definition account_provider_discounts (db : Db) (account_id : string) : list (string * Z) :=
  merge_sort by_provider
    (omap (fun '((a, p), (m, _)) => if bool_decide (a = account_id) then Some (p, m) else None)
       (map_to_list (discounts db))).
Definition set_account_provider_discount (db : Db) (account_id provider_id : string) (mult_bp ts : Z)
    : result LedgerError Db :=
  ensure_valid_provider_discount provider_id mult_bp;;
  guard_ok (bool_decide (is_Some (accounts db !! account_id))) UnknownAccount;;
  Ok (set_discounts db (<[(account_id, provider_id) := (mult_bp, ts)]> (discounts db))).
Definition clear_account_provider_discount (db : Db) (account_id provider_id : string) : bool * Db :=
  (bool_decide (is_Some (discounts db !! (account_id, provider_id))),
   set_discounts db (delete (account_id, provider_id) (discounts db))).

Record KeyAuth := mkKeyAuth {
  ka_account_id : string;
  ka_key_id : string;
  ka_mult_bp : Z;
  ka_provider_mult_bp : list (string * Z);
  ka_balance : Z;
  ka_spent : Z;
  ka_reserved : Z;
  ka_spend_limit : option Z;
  ka_expires_ts : option Z;
  ka_active : bool
}.
Definition mult_for (ka : KeyAuth) (provider_id : string) : Z :=
  match List.find (fun pm => bool_decide (pm.1 = provider_id)) (ka_provider_mult_bp ka) with
  | Some pm => pm.2
  | None => ka_mult_bp ka
  end.
Definition active_at (ka : KeyAuth) (ts : Z) : bool :=
  ka_active ka && opt_all (fun e => ts <? e) (ka_expires_ts ka).

(** [key_account]: the join of key, account and every provider override. *)
Definition key_account (db : Db) (key : string) : result LedgerError (option KeyAuth) :=
  match api_keys db !! key with
  | None => Ok None
  | Some k =>
      match accounts db !! k_account_id k with
      | None => Ok None
      | Some a =>
          reserved ← get_i64 (k_reserved k);
          Ok (Some (mkKeyAuth (k_account_id k) (k_key_id k) (ac_mult_bp a)
                (account_provider_discounts db (k_account_id k))
                (ac_balance a) (k_spent k) reserved (k_spend_limit k) (k_expires_ts k)
                (bool_decide (k_status k = "active") && bool_decide (ac_status a = "active"))))
      end
  end.

(** ** Ledger consumers and pruning *)
Definition ledger_ack (now : Z) (db : Db) (consumer account_id : string) (last_id : Z) : result LedgerError Db :=
  guard_ok (negb (trim_is_empty consumer) && (0 <=? last_id)) InvalidParameters;;
  let last := match checkpoints db !! (consumer, account_id) with
              | Some (old, _) => Z.max old last_id | None => last_id end in
  Ok (set_checkpoints db (<[(consumer, account_id) := (last, now)]> (checkpoints db))).

(** Rows are stored in [id] order, so the LIMIT takes a prefix. *)
Definition prunable (db : Db) (older_than : Z) (l : LedgerRow) : bool :=
  bool_decide (lr_kind l = Charge) && (lr_ts l <? older_than)
  && match checkpoints db !! ("pricing", lr_account_id l) with
     | Some (last, _) => lr_id l <=? last
     | None => false
     end.
Definition ledger_prune (db : Db) (older_than : Z) : Z * Db :=
  let ids := map lr_id (take 5000 (filter (fun l => prunable db older_than l = true) (ledger db))) in
  (Z.of_nat (length ids),
   set_ledger db (filter (fun l => lr_id l ∉ ids) (ledger db)) (next_ledger_id db)).
(** [usage_prune] deletes in batches until a batch is short: all matching rows. *)
Definition usage_prune (db : Db) (older_than : Z) : Z * Db :=
  (Z.of_nat (length (filter (fun u => ur_ts u < older_than) (usage_events db))),
   set_usage db (filter (fun u => ~ ur_ts u < older_than) (usage_events db))).
