(* ===== verification/Settlement.v ===== *)
(** * Request-scoped reservations and settlement ([crates/registry/src/lib.rs])

    The durable money lifecycle of one request: admission reserves, delivery is
    marked, a settlement intent is committed to the outbox, and the intent is
    applied in one transaction that moves money, closes the reservation, writes
    the ledger and usage rows and elects the single paying attempt of an
    execution group.  Crash recovery retries intents and closes expired leases.

    A transaction returns [Err] without a database (it is rolled back).  An
    operation that spans several transactions returns its result together with
    the database it leaves behind.  [now] enumerates the clock readings of one
    operation in program order. *)
From stdpp Require Import sorting.
From S2P Require Import Prelude Text LedgerDb Accounts.

(** ** Execution attempts *)
Record ExecutionAttempt := mkAttempt { ex_group_id : option string; ex_attempt : Z }.
Definition ExecutionAttempt_direct : ExecutionAttempt := mkAttempt None 1.

Definition byte_at (s : string) (i : nat) : Z :=
  match String.get i s with Some c => byte_of c | None => 0 end.
Definition is_lower_hex (b : Z) : bool := ((48 <=? b) && (b <=? 57)) || ((97 <=? b) && (b <=? 102)).
Definition is_canonical_uuid_v4 (value : string) : bool :=
  if negb (String.length value =? 36)%nat
     || negb (byte_at value 8 =? 45) || negb (byte_at value 13 =? 45)
     || negb (byte_at value 18 =? 45) || negb (byte_at value 23 =? 45)
     || negb (byte_at value 14 =? 52)
     || negb (bool_decide (byte_at value 19 ∈ [56; 57; 97; 98]))
  then false
  else forallb (fun i => bool_decide (i ∈ [8; 13; 18; 23])%nat || is_lower_hex (byte_at value i))
         (seq 0 (String.length value)).

Definition ExecutionAttempt_grouped (group_id : string) (attempt : Z) : result LedgerError ExecutionAttempt :=
  guard_ok (is_canonical_uuid_v4 group_id) InvalidParameters;;
  guard_ok (0 <? attempt) InvalidParameters;;
  Ok (mkAttempt (Some group_id) attempt).

Definition effective_group (rid : string) (r : ReservationRow) : string := default rid (r_group_id r).

(** ** Admission *)
Definition ACCOUNT_OVERDRAFT_NANO : Z := 1000000000.
Definition paid_admission_requires_positive_balance (payable_multiplier_bp : option Z) : bool :=
  0 <? default 1 payable_multiplier_bp.

Definition reserve_account (a : Account) (hold : Z) : Account :=
  mkAccount (ac_handle a) (ac_balance a - hold) (ac_spent a) (sql_add (ac_reserved a) hold)
    (ac_uncollected a) (ac_mult_bp a) (ac_status a) (ac_created_ts a).
Definition reserve_key (k : ApiKey) (hold : Z) : ApiKey :=
  mkKey (k_key_id k) (k_account_id k) (k_label k) (k_spent k) (sql_add (k_reserved k) hold)
    (k_spend_limit k) (k_expires_ts k) (k_status k) (k_created_ts k).

(** The key policy shared by the SELECT and the UPDATE of
    [account_reserve_for_key] ([hold] is zero in the SELECT). *)
Definition key_admits (sql_now : Z) (id : string) (hold : Z) (k : ApiKey) : bool :=
  bool_decide (k_account_id k = id) && bool_decide (k_status k = "active")
  && opt_all (fun e => sql_now <? e) (k_expires_ts k)
  && opt_all (sql_within (k_spent k + hold) (k_reserved k)) (k_spend_limit k).

(** [account_reserve_for_key]: a savepoint, so [Ok None] changes nothing. *)
Definition account_reserve_for_key (sql_now : Z) (db : Db) (id key : string) (hold_nano : Z)
    : result LedgerError (option Z * Db) :=
  let hold := Z.max hold_nano 0 in
  match accounts db !! id with
  | None => Ok (None, db)
  | Some a =>
      if negb (bool_decide (ac_status a = "active")) then Ok (None, db)
      else if hold =? 0 then
        match api_keys db !! key with
        | Some k => if key_admits sql_now id 0 k then Ok (Some (ac_balance a), db) else Ok (None, db)
        | None => Ok (None, db)
        end
      else if negb (hold - ACCOUNT_OVERDRAFT_NANO <=? ac_balance a) then Ok (None, db)
      else
        db1 ← update_account db id (reserve_account a hold);
        balance ← get_i64 (to_sql (ac_balance a - hold));
        match api_keys db !! key with
        | Some k =>
            if key_admits sql_now id hold k
            then Ok (Some balance, set_keys db1 (<[key := reserve_key k hold]> (api_keys db1)))
            else Ok (None, db)
        | None => Ok (None, db)
        end
  end.

(** [sqlite_reserve_request_for_execution_with_pricing]. *)
Definition reserve_request (now : nat -> Z) (db : Db) (request_id account_id key : string)
    (hold_nano lease_secs : Z) (execution : ExecutionAttempt) (pricing : option ReservationPricing)
    : result LedgerError (option Z * Db) :=
  guard_ok (negb (trim_is_empty request_id || trim_is_empty account_id || trim_is_empty key
                  || (hold_nano <? 0) || (lease_secs <=? 0))) InvalidParameters;;
  match reservations db !! request_id with
  | Some r =>
      guard_ok (bool_decide (r_account_id r = account_id) && bool_decide (r_key r = key)
                && (r_hold r =? hold_nano) && bool_decide (r_group_id r = ex_group_id execution)
                && (r_attempt r =? ex_attempt execution)
                && bool_decide (r_provider r = pr_provider <$> pricing)
                && bool_decide (r_multiplier r = pr_multiplier <$> pricing)) IdempotencyConflict;;
      if is_open (r_state r) then Ok (Some (r_balance_after_reserve r), db) else Err AlreadyTerminal
  | None =>
      '(admitted, db1) ← account_reserve_for_key (now 0%nat) db account_id key hold_nano;
      match admitted with
      | None => Ok (None, db)
      | Some balance =>
          if (hold_nano =? 0) && paid_admission_requires_positive_balance (pr_multiplier <$> pricing)
             && (balance <=? 0)
          then Ok (None, db)
          else
            let ts := now 1%nat in
            db2 ← write_reservation db1 request_id
              (mkReservation account_id key hold_nano (ex_group_id execution) (ex_attempt execution) Reserved
                 balance None None None (pr_provider <$> pricing) (pr_multiplier <$> pricing) None None
                 (sat_i64 (ts + lease_secs)) ts ts None);
            Ok (Some balance, db2)
      end
  end.
Definition sqlite_reserve_request (now : nat -> Z) (db : Db) (request_id account_id key : string)
    (hold_nano lease_secs : Z) : result LedgerError (option Z * Db) :=
  reserve_request now db request_id account_id key hold_nano lease_secs ExecutionAttempt_direct None.
Definition sqlite_reserve_priced_request_for_execution (now : nat -> Z) (db : Db)
    (request_id account_id key : string) (hold_nano lease_secs : Z) (execution : ExecutionAttempt)
    (pricing : ReservationPricing) : result LedgerError (option Z * Db) :=
  ensure_valid_provider_discount (pr_provider pricing) (pr_multiplier pricing);;
  reserve_request now db request_id account_id key hold_nano lease_secs execution (Some pricing).

(** ** Delivery and leases *)
Definition set_lease (r : ReservationRow) (st : ReservationState) (until ts : Z) : ReservationRow :=
  mkReservation (r_account_id r) (r_key r) (r_hold r) (r_group_id r) (r_attempt r) st
    (r_balance_after_reserve r) (r_actual r) (r_collected r) (r_uncollected r) (r_provider r)
    (r_multiplier r) (r_balance_after_settle r) (r_reference r) until (r_created_ts r) ts (r_settled_ts r).

Definition update_lease (now : Z) (db : Db) (request_id : string) (lease_secs : Z)
    (st : ReservationState -> ReservationState) : result LedgerError (bool * Db) :=
  guard_ok (negb (lease_secs <=? 0)) InvalidParameters;;
  match reservations db !! request_id with
  | Some r =>
      if is_open (r_state r) then
        db' ← write_reservation db request_id (set_lease r (st (r_state r)) (sat_i64 (now + lease_secs)) now);
        Ok (true, db')
      else Ok (false, db)
  | None => Ok (false, db)
  end.
Definition sqlite_mark_delivering (now : Z) (db : Db) (request_id : string) (lease_secs : Z) :=
  update_lease now db request_id lease_secs (fun _ => Delivering).
Definition sqlite_renew_reservation_lease (now : Z) (db : Db) (request_id : string) (lease_secs : Z) :=
  update_lease now db request_id lease_secs (fun st => st).

(** ** The money movement of one settlement *)

(** Collected, uncollected and resulting balance.  The intermediate sums of three
    [i64]s are [i128] in the code and cannot overflow. *)
Definition settle_amounts (balance_before hold actual : Z) : result LedgerError (Z * Z * Z) :=
  if hold =? 0 then
    balance ← ok_or (checked_i64 (balance_before - actual)) AmountOverflow;
    Ok (actual, 0, balance)
  else
    let collection_floor := Z.min balance_before (- ACCOUNT_OVERDRAFT_NANO) in
    let collectable := Z.min (Z.max (balance_before + hold - collection_floor) 0) actual in
    collected ← ok_or (checked_i64 collectable) AmountOverflow;
    uncollected ← ok_or (checked_i64 (actual - collected)) AmountOverflow;
    balance ← ok_or (checked_i64 (balance_before + hold - collectable)) AmountOverflow;
    Ok (collected, uncollected, balance).

Definition settle_account (a : Account) (balance spent reserved uncollected : Z) : Account :=
  mkAccount (ac_handle a) balance spent (SqlInt reserved) uncollected (ac_mult_bp a) (ac_status a) (ac_created_ts a).
Definition settle_key (k : ApiKey) (spent reserved : Z) : ApiKey :=
  mkKey (k_key_id k) (k_account_id k) (k_label k) spent (SqlInt reserved)
    (k_spend_limit k) (k_expires_ts k) (k_status k) (k_created_ts k).

Definition settle_key_aggregate (db : Db) (id key : string) (hold actual : Z) : result LedgerError Db :=
  match api_keys db !! key with
  | None => Ok db
  | Some k =>
      key_reserved ← get_i64 (k_reserved k);
      guard_ok (bool_decide (k_account_id k = id) && (hold <=? key_reserved)) KeyAggregate;;
      key_spent ← ok_or (checked_i64 (k_spent k + actual)) AmountOverflow;
      Ok (set_keys db (<[key := settle_key k key_spent (key_reserved - hold)]> (api_keys db)))
  end.

Definition non_empty (s : string) : option string := if bool_decide (s = "") then None else Some s.
Definition settle_evidence (now : Z) (db : Db) (request_id id key : string) (actual uncollected balance : Z)
    (reference : option string) (usage : option UsageEventInput) (pricing : option ReservationPricing)
    : result LedgerError Db :=
  db1 ← (if 0 <? actual then
           ledger_insert db (fun lid =>
             mkLedgerRow lid id (Some key) Charge (Some request_id) actual reference (Some balance) now
               (usage ≫= fun u => non_empty (ue_model u))
               (match pricing with
                | Some p => Some (pr_provider p)
                | None => usage ≫= fun u => non_empty (ue_provider u)
                end)
               (ue_charge_basis_nano <$> usage) (pr_multiplier <$> pricing) uncollected)
         else Ok db);
  match usage with
  | None => Ok db1
  | Some u =>
      usage_insert db1 (mkUsageRow (Some request_id) id (Some key) u actual reference now
        (match pricing with Some p => pr_provider p | None => ue_provider u end)
        (pr_multiplier <$> pricing) uncollected)
  end.

Definition account_settle_request_in (now : Z) (db : Db) (request_id id key : string) (hold_nano actual_nano : Z)
    (reference : option string) (usage : option UsageEventInput) (pricing : option ReservationPricing)
    : result LedgerError (option (Z * Z * Z) * Db) :=
  let hold := Z.max hold_nano 0 in
  let actual := Z.max actual_nano 0 in
  match pricing with
  | None => Ok ()
  | Some p =>
      ensure_valid_provider_discount (pr_provider p) (pr_multiplier p);;
      guard_ok (opt_all (fun u => bool_decide (ue_provider u = pr_provider p)) usage) ProviderDiffers
  end;;
  match accounts db !! id with
  | None => Ok (None, db)
  | Some a =>
      reserved_before ← get_i64 (ac_reserved a);
      guard_ok (negb ((0 <? hold) && (reserved_before <? hold))) AccountAggregate;;
      '(collected, uncollected, balance) ← settle_amounts (ac_balance a) hold actual;
      spent ← ok_or (checked_i64 (ac_spent a + actual)) AmountOverflow;
      account_uncollected ← ok_or (checked_i64 (ac_uncollected a + uncollected)) AmountOverflow;
      db1 ← update_account db id (settle_account a balance spent (reserved_before - hold) account_uncollected);
      db2 ← settle_key_aggregate db1 id key hold actual;
      db3 ← settle_evidence now db2 request_id id key actual uncollected balance reference usage pricing;
      Ok (Some (balance, collected, uncollected), db3)
  end.

(** ** The outbox *)

(** [sqlite_terminal_expected_actual]: the winner of the group pays, a loser
    settles at zero. *)
Definition sqlite_terminal_expected_actual (db : Db) (request_id : string) (original_actual : Z)
    : result LedgerError Z :=
  if original_actual <=? 0 then Ok (Z.max original_actual 0)
  else
    match reservations db !! request_id with
    | None => Err NoReservation
    | Some r =>
        match winners db !! effective_group request_id r with
        | Some (w, _) => if bool_decide (w <> request_id) then Ok 0 else Ok original_actual
        | None => Ok original_actual
        end
    end.

(** The pricing pin of a reservation: both columns or neither. *)
Definition stored_pricing (r : ReservationRow) : result LedgerError (option ReservationPricing) :=
  match r_provider r, r_multiplier r with
  | None, None => Ok None
  | Some p, Some m => pr ← ReservationPricing_new p m; Ok (Some pr)
  | _, _ => Err IncompletePricing
  end.

(** The collection evidence of a terminal reservation. *)
Definition collection_exact (r : ReservationRow) (priced : bool) (expected_actual : Z) : bool :=
  match r_collected r, r_uncollected r with
  | None, None => negb priced
  | Some c, Some u => (0 <=? c) && (0 <=? u) && bool_decide (checked_i64 (c + u) = Some expected_actual)
  | _, _ => false
  end.
Definition terminal_evidence (db : Db) (rid : string) (r : ReservationRow) (actual : Z) (mismatch : LedgerError)
    (reference_ok : bool) : result LedgerError () :=
  expected ← sqlite_terminal_expected_actual db rid actual;
  guard_ok (bool_decide (r_actual r = Some expected) && reference_ok) mismatch;;
  pricing ← stored_pricing r;
  guard_ok (collection_exact r (bool_decide (is_Some pricing)) expected) InconsistentEvidence.

Section Codec.
Context {JC : UsageCodec}.

(** [sqlite_enqueue_settlement]: commits the intent; never returns a balance. *)
Definition sqlite_enqueue_settlement (now : Z) (db : Db) (request_id account_id key : string)
    (hold_nano actual_nano : Z) (reference : option string) (usage : option UsageEventInput)
    (disposition : Disposition) : result LedgerError (option Z * Db) :=
  let usage_json := to_json <$> usage in
  let charge_basis := ue_charge_basis_nano <$> usage in
  match reservations db !! request_id with
  | None => Err NoReservation
  | Some r =>
      guard_ok (bool_decide (r_account_id r = account_id) && bool_decide (r_key r = key)
                && (r_hold r =? hold_nano)) ParametersMismatch;;
      let actual := Z.max actual_nano 0 in
      (if bool_decide (r_state r = Settled)
       then terminal_evidence db request_id r actual IdempotencyConflict (bool_decide (r_reference r = reference))
       else Ok ());;
      match outbox db !! request_id with
      | None =>
          db' ← write_outbox db request_id
                  (mkOutbox actual reference usage_json charge_basis disposition Pending 0 0 None now now None);
          Ok (None, db')
      | Some o =>
          guard_ok ((o_actual o =? actual) && bool_decide (o_reference o = reference)
                    && bool_decide (o_usage_json o = usage_json) && bool_decide (o_charge_basis o = charge_basis)
                    && bool_decide (o_disposition o = disposition)) IdempotencyConflict;;
          Ok (None, db)
      end
  end.

Definition outbox_done (o : OutboxRow) (attempts : Z) (ts committed : Z) : OutboxRow :=
  mkOutbox (o_actual o) (o_reference o) (o_usage_json o) (o_charge_basis o) (o_disposition o) Done
    attempts (o_next_attempt_ts o) None (o_created_ts o) ts (Some committed).

Definition close_reservation (r : ReservationRow) (st : ReservationState) (actual collected uncollected balance : Z)
    (reference : option string) (ts : Z) : ReservationRow :=
  mkReservation (r_account_id r) (r_key r) (r_hold r) (r_group_id r) (r_attempt r) st
    (r_balance_after_reserve r) (Some actual) (Some collected) (Some uncollected) (r_provider r)
    (r_multiplier r) (Some balance) reference (r_lease_until r) (r_created_ts r) ts (Some ts).

(** Electing the paying attempt: the first positive settlement of the group. *)
Definition elect_winner (now : Z) (db : Db) (group request_id : string) : Db * string :=
  match winners db !! group with
  | Some (w, _) => (db, w)
  | None => (set_winners db (<[group := (request_id, now)]> (winners db)), request_id)
  end.

Definition parse_usage (usage_json : option string) : result LedgerError (option UsageEventInput) :=
  match usage_json with
  | None => Ok None
  | Some s => u ← ok_or (from_json s) InvalidUsageJson; Ok (Some u)
  end.

(** [sqlite_process_settlement]: one IMMEDIATE transaction. *)
Definition sqlite_process_settlement (now : nat -> Z) (db : Db) (request_id : string)
    : result LedgerError (option Z * Db) :=
  o ← ok_or (outbox db !! request_id) OutboxMissing;
  r ← ok_or (reservations db !! request_id) NoReservation;
  if is_terminal (r_state r) || bool_decide (o_state o = Done) then
    terminal_evidence db request_id r (o_actual o) StoredDiffers true;;
    db' ← write_outbox db request_id
            (outbox_done o (o_attempts o) (now 0%nat) (default (now 0%nat) (o_committed_ts o)));
    Ok (r_balance_after_settle r, db')
  else
    usage ← parse_usage (o_usage_json o);
    let group := effective_group request_id r in
    let '(db1, winner) :=
      if 0 <? o_actual o then elect_winner (now 0%nat) db group request_id else (db, request_id) in
    let won := bool_decide (winner = request_id) in
    let effective_actual := if (0 <? o_actual o) && won then o_actual o else 0 in
    let effective_usage := if won then usage else None in
    let effective_disposition := if won then o_disposition o else DCancel in
    pricing ← stored_pricing r;
    '(settled, db2) ← account_settle_request_in (now 1%nat) db1 request_id (r_account_id r) (r_key r) (r_hold r)
                        effective_actual (o_reference o) effective_usage pricing;
    '(balance, collected, uncollected) ← ok_or settled AccountGone;
    let ts := now 2%nat in
    let final_state := if bool_decide (effective_disposition = DCancel) then Canceled else Settled in
    db3 ← write_reservation db2 request_id
            (close_reservation r final_state effective_actual collected uncollected balance (o_reference o) ts);
    db4 ← write_outbox db3 request_id (outbox_done o (o_attempts o + 1) ts ts);
    Ok (Some balance, db4).

(** The retry bookkeeping after a failed application; its own failure is
    ignored. *)
Definition retry_row (o : OutboxRow) (e : LedgerError) (ts : Z) : OutboxRow :=
  mkOutbox (o_actual o) (o_reference o) (o_usage_json o) (o_charge_basis o) (o_disposition o) (o_state o)
    (o_attempts o + 1) (ts + Z.min 60 (Z.max 1 (o_attempts o + 1))) (Some e) (o_created_ts o) ts (o_committed_ts o).
Definition record_retry (db : Db) (request_id : string) (e : LedgerError) (ts : Z) : Db :=
  match outbox db !! request_id with
  | None => db
  | Some o => match write_outbox db request_id (retry_row o e ts) with Ok db' => db' | Err _ => db end
  end.

Definition enqueue_and_process (now : nat -> Z) (db : Db) (request_id account_id key : string)
    (hold_nano actual_nano : Z) (reference : option string) (usage : option UsageEventInput)
    (disposition : Disposition) : result LedgerError (option Z) * Db :=
  match sqlite_enqueue_settlement (now 0%nat) db request_id account_id key hold_nano actual_nano reference usage disposition with
  | Err e => (Err e, db)
  | Ok (Some balance, db1) => (Ok (Some balance), db1)
  | Ok (None, db1) =>
      match sqlite_process_settlement (fun n => now (1 + n)%nat) db1 request_id with
      | Ok (balance, db2) => (Ok balance, db2)
      | Err e => (Err e, db1)
      end
  end.

Definition sqlite_settle_request (now : nat -> Z) (db : Db) (request_id account_id key : string)
    (hold_nano actual_nano : Z) (reference : option string) (usage : option UsageEventInput)
    : result LedgerError (option Z) * Db :=
  match sqlite_enqueue_settlement (now 0%nat) db request_id account_id key hold_nano actual_nano reference usage DSettle with
  | Err e => (Err e, db)
  | Ok (Some balance, db1) => (Ok (Some balance), db1)
  | Ok (None, db1) =>
      match sqlite_process_settlement (fun n => now (1 + n)%nat) db1 request_id with
      | Ok (balance, db2) => (Ok balance, db2)
      | Err e => (Err e, record_retry db1 request_id e (now 4%nat))
      end
  end.
Definition sqlite_cancel_request (now : nat -> Z) (db : Db) (request_id account_id key : string) (hold_nano : Z)
    : result LedgerError (option Z) * Db :=
  match sqlite_enqueue_settlement (now 0%nat) db request_id account_id key hold_nano 0 None None DCancel with
  | Err e => (Err e, db)
  | Ok (Some balance, db1) => (Ok (Some balance), db1)
  | Ok (None, db1) =>
      match sqlite_process_settlement (fun n => now (1 + n)%nat) db1 request_id with
      | Ok (balance, db2) => (Ok balance, db2)
      | Err e => (Err e, record_retry db1 request_id e (now 4%nat))
      end
  end.

(** ** Crash recovery *)
Record ReconcileReport := mkReport {
  processed_outbox : Z; canceled_before_delivery : Z; charged_after_delivery : Z }.

(** ORDER BY a column LIMIT n (ties in any order). *)
Definition by_key {A} (key : A -> Z) (x y : A) : Prop := key x <= key y.
#[global] Instance by_key_dec {A} (key : A -> Z) x y : Decision (by_key key x y).
Proof. unfold by_key. apply _. Defined.
Definition order_limit {A} (key : A -> Z) (limit : Z) (rows : list A) : list A :=
  take (Z.to_nat limit) (merge_sort (by_key key) rows).

Definition pending_page (db : Db) (ts limit : Z) : list string :=
  map fst (order_limit (fun p => o_created_ts p.2) limit
    (map_to_list (filter (fun p => o_state p.2 = Pending /\ o_next_attempt_ts p.2 <= ts) (outbox db)))).
Definition expired_page (db : Db) (ts limit : Z) : list (string * ReservationRow) :=
  order_limit (fun p => r_lease_until p.2) limit
    (map_to_list (filter (fun p => is_open (r_state p.2) = true /\ r_lease_until p.2 <= ts) (reservations db))).

Fixpoint process_pending (now : nat -> Z) (db : Db) (ids : list string) : Z * Db :=
  match ids with
  | [] => (0, db)
  | rid :: ids =>
      match sqlite_process_settlement now db rid with
      | Ok (_, db') => let '(n, db'') := process_pending (fun k => now (3 + k)%nat) db' ids in (1 + n, db'')
      | Err _ => process_pending (fun k => now (3 + k)%nat) db ids
      end
  end.

Definition recovery_intent (charge_hold_on_unknown_usage : bool) (r : ReservationRow) : Z * string * Disposition :=
  let delivering := bool_decide (r_state r = Delivering) in
  (if delivering && charge_hold_on_unknown_usage then r_hold r else 0,
   if delivering then "lease-expired-delivering" else "lease-expired-reserved",
   if delivering then DReconcileFullHold else DCancel).

Fixpoint recover_expired (now : nat -> Z) (db : Db) (charge : bool) (rows : list (string * ReservationRow))
    (report : ReconcileReport) : ReconcileReport * Db :=
  match rows with
  | [] => (report, db)
  | (rid, r) :: rows =>
      let '(actual, reference, disposition) := recovery_intent charge r in
      let '(res, db') := enqueue_and_process now db rid (r_account_id r) (r_key r) (r_hold r) actual
                           (Some reference) None disposition in
      let report' :=
        match res with
        | Ok _ =>
            if bool_decide (r_state r = Delivering)
            then mkReport (processed_outbox report) (canceled_before_delivery report) (charged_after_delivery report + 1)
            else mkReport (processed_outbox report) (canceled_before_delivery report + 1) (charged_after_delivery report)
        | Err _ => report
        end in
      recover_expired (fun k => now (4 + k)%nat) db' charge rows report'
  end.

Definition sqlite_reconcile_expired (now : nat -> Z) (db : Db) (limit : Z) (charge_hold_on_unknown_usage : bool)
    : ReconcileReport * Db :=
  let limit := Z.max 1 (Z.min 10000 limit) in
  let ts := now 0%nat in
  let ids := pending_page db ts limit in
  let '(processed, db1) := process_pending (fun k => now (1 + k)%nat) db ids in
  let report := mkReport processed 0 0 in
  let remaining := Z.max 0 (limit - processed) in
  if remaining =? 0 then (report, db1)
  else recover_expired (fun k => now (1 + 3 * length ids + k)%nat) db1 charge_hold_on_unknown_usage
         (expired_page db1 ts remaining) report.
Definition reconcile_reservations (now : nat -> Z) (db : Db) : Z * Db :=
  let '(report, db') := sqlite_reconcile_expired now db 10000 false in
  (canceled_before_delivery report + charged_after_delivery report + processed_outbox report, db').

End Codec.

(** ** Retention *)
Definition PRICING_REQUEST_LIFECYCLE_MIN_RETENTION_SECS : Z := 30 * 24 * 60 * 60.
Definition validate_request_lifecycle_prune_cutoff (older_than_ts trusted_now : Z) : result LedgerError () :=
  guard_ok (0 <? trusted_now) InvalidParameters;;
  newest ← ok_or (checked_i64 (trusted_now - PRICING_REQUEST_LIFECYCLE_MIN_RETENTION_SECS)) AmountOverflow;
  guard_ok (older_than_ts <=? newest) InvalidParameters.

(** ORDER BY (timestamp, request_id) LIMIT 5000. *)
Definition by_ts_id (x y : Z * string) : Prop :=
  x.1 < y.1 \/ (x.1 = y.1 /\ String.leb x.2 y.2 = true).
#[global] Instance by_ts_id_dec x y : Decision (by_ts_id x y).
Proof. unfold by_ts_id. apply _. Defined.
Definition prune_page (rows : list (Z * string)) : list string := map snd (take 5000 (merge_sort by_ts_id rows)).

Definition prunable_outbox (db : Db) (cutoff : Z) : list (Z * string) :=
  omap (fun p => match o_state p.2, o_committed_ts p.2 with
                 | Done, Some c => if c <? cutoff then Some (c, p.1) else None
                 | _, _ => None end) (map_to_list (outbox db)).
Definition prunable_reservations (db : Db) (cutoff : Z) : list (Z * string) :=
  omap (fun p => match r_settled_ts p.2 with
                 | Some s => if is_terminal (r_state p.2) && (s <? cutoff)
                                && bool_decide (outbox db !! p.1 = None) then Some (s, p.1) else None
                 | None => None end) (map_to_list (reservations db)).

Definition sqlite_maintenance_prune (now : Z) (db : Db) (older_than_ts : Z) : result LedgerError (Z * Z * Db) :=
  validate_request_lifecycle_prune_cutoff older_than_ts now;;
  let outbox_ids := prune_page (prunable_outbox db older_than_ts) in
  let db1 := set_outbox db (filter (fun p => p.1 ∉ outbox_ids) (outbox db)) in
  let res_ids := prune_page (prunable_reservations db1 older_than_ts) in
  let db2 := set_reservations db1 (filter (fun p => p.1 ∉ res_ids) (reservations db1)) in
  let db3 := set_winners db2
    (filter (fun w => ~ map_Forall (fun rid r => effective_group rid r <> w.1) (reservations db2)) (winners db2)) in
  Ok (Z.of_nat (length outbox_ids), Z.of_nat (length res_ids), db3).
