(* ===== verification/LedgerInv.v ===== *)
(** * Accounting invariant of the billing database

    What every sequence of operations of [Accounts] and [Settlement] preserves:
    money is conserved per account, the reserved column is the sum of the open
    holds, and at most one attempt of an execution group is paid.  [Billing] lifts
    the lemmas to all reachable databases. *)
From stdpp Require Import sorting.
From S2P Require Import Prelude LedgerDb Accounts Settlement.

(** ** Sums over the tables *)
Definition open_hold (id : string) (r : ReservationRow) : Z :=
  if is_open (r_state r) && bool_decide (r_account_id r = id) then r_hold r else 0.
Definition open_holds (db : Db) (id : string) : Z := map_sumZ (fun _ => open_hold id) (reservations db).
Definition credit (id : string) (l : LedgerRow) : Z :=
  if is_money (lr_kind l) && bool_decide (lr_account_id l = id) then lr_amount l else 0.
Definition credits (db : Db) (id : string) : Z := sumZ (credit id) (ledger db).

(** An account in balance: what was credited is on the balance, held, or spent
    and collected. *)
Record account_ok (db : Db) (id : string) (a : Account) : Prop := {
  ok_balance : is_i64 (ac_balance a);
  ok_spent : 0 <= ac_spent a <= i64_max;
  ok_uncollected : 0 <= ac_uncollected a <= ac_spent a;
  ok_reserved : ac_reserved a = to_sql (open_holds db id);
  ok_conserved : ac_balance a + open_holds db id + ac_spent a - ac_uncollected a = credits db id
}.

(** A closed reservation carries its evidence; an open one carries none. *)
Definition evidence_ok (r : ReservationRow) : Prop :=
  if is_open (r_state r)
  then r_actual r = None /\ r_collected r = None /\ r_uncollected r = None
  else exists a c u b, r_actual r = Some a /\ r_collected r = Some c /\ r_uncollected r = Some u
         /\ r_balance_after_settle r = Some b /\ 0 <= c /\ 0 <= u /\ a = c + u.

Record reservation_ok (db : Db) (rid : string) (r : ReservationRow) : Prop := {
  ok_hold : 0 <= r_hold r <= i64_max;
  ok_account : is_Some (accounts db !! r_account_id r);
  ok_guard : reservation_guard r = true /\ reservation_check r = true;
  ok_evidence : evidence_ok r;
  ok_winner : forall a, is_terminal (r_state r) = true -> r_actual r = Some a -> 0 < a ->
    exists t, winners db !! effective_group rid r = Some (rid, t)
}.

Record ledger_inv (db : Db) : Prop := {
  inv_accounts : forall id a, accounts db !! id = Some a -> account_ok db id a;
  inv_reservations : forall rid r, reservations db !! rid = Some r -> reservation_ok db rid r;
  inv_ledger : forall l, l ∈ ledger db -> is_Some (accounts db !! lr_account_id l);
  inv_ids : NoDup (map lr_id (ledger db)) /\ forall l, l ∈ ledger db -> lr_id l < next_ledger_id db
}.

Lemma ids_app rows l n :
  NoDup (map lr_id rows) -> (forall x, x ∈ rows -> lr_id x < n) -> lr_id l = n ->
  NoDup (map lr_id (rows ++ [l])) /\ forall x, x ∈ rows ++ [l] -> lr_id x < n + 1.
Proof.
  intros Hnd Hlt Hl. split.
  - rewrite map_app. apply NoDup_app. split; [done|]. split; [|apply NoDup_singleton].
    intros i (x & Ei & Hx)%list_elem_of_fmap Ej%list_elem_of_singleton. specialize (Hlt _ Hx). lia.
  - intros x [Hx|[->|[]%elem_of_nil]%elem_of_cons]%elem_of_app; [specialize (Hlt _ Hx)|]; lia.
Qed.

(** ** Frame: the invariant reads four tables. *)
Lemma account_ok_frame db db' id a :
  ledger db' = ledger db -> reservations db' = reservations db -> account_ok db id a -> account_ok db' id a.
Proof. intros El Er [? ? ? ? ?]. split; unfold open_holds, credits in *; rewrite ?El, ?Er; done. Qed.
Lemma inv_frame db db' :
  accounts db' = accounts db -> ledger db' = ledger db -> reservations db' = reservations db ->
  winners db' = winners db -> next_ledger_id db' = next_ledger_id db -> ledger_inv db -> ledger_inv db'.
Proof.
  intros Ea El Er Ew En [Ha Hr Hl Hn]. split.
  - intros id a. rewrite Ea. intros ?%Ha. by eapply account_ok_frame.
  - intros rid r. rewrite Er. intros [? ? ? ? Hw]%Hr. split; rewrite ?Ea, ?Ew; done.
  - intros l. rewrite El, Ea. apply Hl.
  - by rewrite El, En.
Qed.

Create HintDb ledger discriminated.
#[export] Hint Resolve inv_frame : ledger.
Ltac frame_inv := eapply inv_frame; [..|eassumption]; try reflexivity.

(** Open holds are non-negative and bounded below by each of their terms. *)
Lemma open_hold_nonneg id r : 0 <= r_hold r -> 0 <= open_hold id r.
Proof. unfold open_hold. by case_match. Qed.
Lemma open_holds_nonneg db id : ledger_inv db -> 0 <= open_holds db id.
Proof.
  intros HI. apply map_sumZ_nonneg. intros rid r Hr. apply open_hold_nonneg.
  by destruct (inv_reservations _ HI _ _ Hr) as [[? ?] _ _ _ _].
Qed.
Lemma open_holds_ge db rid r :
  ledger_inv db -> reservations db !! rid = Some r -> is_open (r_state r) = true ->
  r_hold r <= open_holds db (r_account_id r).
Proof.
  intros HI Hr Ho.
  transitivity (open_hold (r_account_id r) r).
  { unfold open_hold. rewrite Ho, bool_decide_true by done. cbn. lia. }
  apply (map_sumZ_elem_le (fun _ => open_hold (r_account_id r)) _ rid r); [|done].
  intros j y Hj. apply open_hold_nonneg. by destruct (inv_reservations _ HI _ _ Hj) as [[? ?] _ _ _ _].
Qed.

Lemma credits_absent db id : ledger_inv db -> accounts db !! id = None -> credits db id = 0.
Proof.
  intros HI Hn. apply sumZ_zero. intros l Hl. unfold credit. case_match; [|done].
  apply andb_true_iff in H as [_ E%bool_decide_eq_true]. subst.
  destruct (inv_ledger _ HI _ Hl). congruence.
Qed.
Lemma open_holds_absent db id : ledger_inv db -> accounts db !! id = None -> open_holds db id = 0.
Proof.
  intros HI Hn. unfold open_holds. rewrite (map_sumZ_ext _ (fun _ _ => 0)).
  - unfold map_sumZ. induction (reservations db) as [|k x m Hk IH] using map_ind; [done|].
    rewrite map_fold_insert_L; [done|intros; lia|done].
  - intros rid r Hr. unfold open_hold. case_match; [|done].
    apply andb_true_iff in H as [_ E%bool_decide_eq_true]. subst.
    destruct (ok_account _ _ _ (inv_reservations _ HI _ _ Hr)). congruence.
Qed.

(** ** Account updates that keep the money columns *)
Definition same_money (a a' : Account) : Prop :=
  ac_balance a' = ac_balance a /\ ac_spent a' = ac_spent a /\ ac_reserved a' = ac_reserved a
  /\ ac_uncollected a' = ac_uncollected a.

Lemma update_account_inv db id a a' db' :
  ledger_inv db -> accounts db !! id = Some a -> same_money a a' ->
  update_account db id a' = Ok db' -> ledger_inv db'.
Proof.
  intros [Ha Hr Hl Hn] Hid (Eb & Es & Er & Eu) Hu. unfold update_account in Hu. inv_ok. split; cbn.
  - intros id' x [[<- <-]|[Hne Hx]]%lookup_insert_Some.
    + destruct (Ha _ _ Hid) as [? ? ? ? ?]. split; rewrite ?Eb, ?Es, ?Er, ?Eu; done.
    + destruct (Ha _ _ Hx) as [? ? ? ? ?]. by split.
  - intros rid r [? ? ? ? ?]%Hr. split; try done. cbn. by apply lookup_insert_is_Some'; right.
  - intros l ?%Hl. by apply lookup_insert_is_Some'; right.
  - done.
Qed.

Lemma account_create_inv now db id handle mult db' :
  ledger_inv db -> account_create now db id handle mult = Ok db' -> ledger_inv db'.
Proof.
  intros HI Hc. unfold account_create, update_account in Hc. inv_ok.
  match goal with H : bool_decide (accounts db !! id = None) = true |- _ => apply bool_decide_eq_true in H as Hid end.
  pose proof (credits_absent _ _ HI Hid) as Hcr. pose proof (open_holds_absent _ _ HI Hid) as Hoh.
  destruct HI as [Ha Hr Hl Hn]. split; cbn.
  - intros id' x [[<- <-]|[Hne Hx]]%lookup_insert_Some.
    + unfold credits, open_holds in *. split; cbn; unfold open_holds, credits; cbn; rewrite ?Hcr, ?Hoh; width_lia || done.
    + destruct (Ha _ _ Hx) as [? ? ? ? ?]. by split.
  - intros rid r [? ? ? ? ?]%Hr. split; try done. cbn. by apply lookup_insert_is_Some'; right.
  - intros l ?%Hl. by apply lookup_insert_is_Some'; right.
  - done.
Qed.

Lemma update_account_shape db id a db' :
  update_account db id a = Ok db' ->
  db' = set_accounts db (<[id := a]> (accounts db)) /\ 0 <= ac_uncollected a.
Proof. unfold update_account, account_guard. intros H. inv_ok. split; [done|lia]. Qed.
Lemma write_reservation_shape db rid r db' :
  write_reservation db rid r = Ok db' ->
  db' = set_reservations db (<[rid := r]> (reservations db))
  /\ reservation_guard r = true /\ reservation_check r = true.
Proof. unfold write_reservation. intros H. inv_ok. apply andb_true_iff in H0 as [? ?]. done. Qed.
Lemma write_outbox_shape db rid o db' :
  write_outbox db rid o = Ok db' -> db' = set_outbox db (<[rid := o]> (outbox db)).
Proof. unfold write_outbox. intros H. by inv_ok. Qed.
Lemma write_outbox_guard db rid o db' : write_outbox db rid o = Ok db' -> outbox_guard o = true.
Proof. unfold write_outbox. intros H. by inv_ok. Qed.
Lemma usage_insert_shape db u db' :
  usage_insert db u = Ok db' -> db' = set_usage db (usage_events db ++ [u]).
Proof. unfold usage_insert. intros H. by inv_ok. Qed.
Lemma ledger_insert_shape db row db' :
  ledger_insert db row = Ok db' ->
  db' = set_ledger db (ledger db ++ [row (next_ledger_id db)]) (next_ledger_id db + 1).
Proof. unfold ledger_insert. intros H. by inv_ok. Qed.

(** [db_shape]: read off what the writers that succeeded wrote. *)
Ltac db_shape_step :=
  match goal with
  | H : update_account _ _ _ = Ok _ |- _ => apply update_account_shape in H as [-> ?]
  | H : write_reservation _ _ _ = Ok _ |- _ => apply write_reservation_shape in H as (-> & ? & ?)
  | H : write_outbox _ _ _ = Ok _ |- _ => apply write_outbox_shape in H as ->
  | H : usage_insert _ _ = Ok _ |- _ => apply usage_insert_shape in H as ->
  | H : ledger_insert _ _ = Ok _ |- _ => apply ledger_insert_shape in H as ->
  | H : get_i64 (to_sql _) = Ok _ |- _ => apply get_to_sql in H as [-> ?]
  end.
Ltac db_shape := repeat db_shape_step.

Lemma account_topup_inv now db id amount reference b db' :
  ledger_inv db -> account_topup now db id amount reference = Ok (b, db') -> ledger_inv db'.
Proof.
  intros HI Ht. unfold account_topup in Ht. inv_ok.
  destruct (accounts db !! id) as [a|] eqn:Hid; inv_ok; [|done].
  db_shape.
  destruct (ledger_insert _ _) as [db2|e] eqn:Hins.
  2: { repeat case_match; inv_ok; done. }
  inv_ok. apply ledger_insert_shape in Hins. subst db'. destruct HI as [Ha Hr Hl Hn]. split; cbn.
  - intros id' x Hx. assert (Hcr : credits (set_ledger db (ledger db ++ [topup_row now id amount reference (ac_balance a + amount) (next_ledger_id db)]) 0) id'
        = credits db id' + if bool_decide (id = id') then amount else 0).
    { unfold credits. cbn. rewrite sumZ_app. cbn. unfold credit at 2, topup_row, money_kind. cbn.
      destruct (0 <=? amount); cbn; case_bool_decide; lia. }
    apply lookup_insert_Some in Hx as [[<- <-]|[Hne Hx]].
    + destruct (Ha _ _ Hid) as [? ? ? ? Hc]. split; try done.
      unfold credits, open_holds in *. cbn in *. rewrite Hcr, bool_decide_true by done. lia.
    + destruct (Ha _ _ Hx) as [? ? ? ? Hc]. split; try done.
      unfold credits, open_holds in *. cbn in *. rewrite Hcr, bool_decide_false by done. lia.
  - intros rid r [? ? ? ? ?]%Hr. split; try done. cbn. by apply lookup_insert_is_Some'; right.
  - intros l [?%Hl|[->|[]%elem_of_nil]%elem_of_cons]%elem_of_app.
    + by apply lookup_insert_is_Some'; right.
    + cbn. rewrite lookup_insert_eq. by eexists.
  - destruct Hn. by apply ids_app.
Qed.

(** ** Reservations *)
Lemma open_holds_insert_None db rid r id :
  reservations db !! rid = None ->
  map_sumZ (fun _ => open_hold id) (<[rid := r]> (reservations db)) = open_hold id r + open_holds db id.
Proof. intros Hn. by rewrite map_sumZ_insert_None. Qed.
Lemma open_holds_insert_Some db rid r0 r id :
  reservations db !! rid = Some r0 ->
  map_sumZ (fun _ => open_hold id) (<[rid := r]> (reservations db))
  = open_hold id r - open_hold id r0 + open_holds db id.
Proof. intros Hs. by rewrite (map_sumZ_insert_Some _ _ _ _ r0). Qed.

(** What a successful [account_reserve_for_key] does. *)
Definition reserved_by (db db' : Db) (id : string) (a : Account) (hold balance : Z) : Prop :=
  accounts db !! id = Some a /\ ac_status a = "active" /\ balance = ac_balance a - hold
  /\ (0 < hold -> - ACCOUNT_OVERDRAFT_NANO <= balance)
  /\ (if hold =? 0 then accounts db' = accounts db
      else accounts db' = <[id := reserve_account a hold]> (accounts db))
  /\ ledger db' = ledger db /\ next_ledger_id db' = next_ledger_id db
  /\ reservations db' = reservations db /\ winners db' = winners db.

Lemma reserve_for_key_spec sql_now db id key hold_nano balance db' :
  account_reserve_for_key sql_now db id key hold_nano = Ok (Some balance, db') ->
  exists a, reserved_by db db' id a (Z.max hold_nano 0) balance.
Proof.
  unfold account_reserve_for_key, reserved_by. set (hold := Z.max hold_nano 0).
  destruct (accounts db !! id) as [a|]; [|intros; by inv_ok].
  case_bool_decide as Hst; cbn; [|intros; by inv_ok].
  destruct (Z.eqb_spec hold 0) as [->|Hh].
  - repeat case_match; intros; inv_ok; exists a; repeat split; done || lia.
  - destruct (Z.leb_spec (hold - ACCOUNT_OVERDRAFT_NANO) (ac_balance a)); cbn; [|intros; by inv_ok].
    intros E. inv_ok. db_shape. repeat case_match; inv_ok. exists a. cbn. repeat split; done || lia.
Qed.

(** At most one charge row is appended, for the account. *)
Definition charge_appended (db db' : Db) (id : string) : Prop :=
  (ledger db' = ledger db /\ next_ledger_id db' = next_ledger_id db)
  \/ exists l, lr_kind l = Charge /\ lr_account_id l = id /\ lr_id l = next_ledger_id db
       /\ ledger db' = ledger db ++ [l] /\ next_ledger_id db' = next_ledger_id db + 1.

(** The exact charge row of a settlement: present iff something is charged. *)
Definition charge_written (db db' : Db) (rid id : string) (actual uncollected balance : Z) : Prop :=
  if 0 <? actual then
    exists l, ledger db' = ledger db ++ [l] /\ lr_kind l = Charge /\ lr_account_id l = id
      /\ lr_request_id l = Some rid /\ lr_amount l = actual /\ lr_uncollected l = uncollected
      /\ lr_balance_after l = Some balance
  else ledger db' = ledger db.

Lemma sumZ_charge i rows l : lr_kind l = Charge -> sumZ (credit i) (rows ++ [l]) = sumZ (credit i) rows.
Proof. intros Hk. rewrite sumZ_app. cbn. unfold credit at 2. rewrite Hk. cbn. lia. Qed.
Lemma charge_credits db db' id i : charge_appended db db' id -> credits db' i = credits db i.
Proof. unfold credits. intros [[-> _]|(l & Hk & _ & _ & -> & _)]; [done|]. by apply sumZ_charge. Qed.

(** One account and one of its reservations change together: the invariant is
    kept if the reserved column follows the holds and the move conserves money. *)
Definition held (db : Db) (rid id : string) : Z :=
  from_option (open_hold id) 0 (reservations db !! rid).

Lemma open_holds_insert db rid r id :
  map_sumZ (fun _ => open_hold id) (<[rid := r]> (reservations db))
  = open_holds db id + (open_hold id r - held db rid id).
Proof.
  unfold held. destruct (reservations db !! rid) as [r0|] eqn:E; cbn.
  - rewrite (open_holds_insert_Some _ _ r0) by done. lia.
  - rewrite open_holds_insert_None by done. lia.
Qed.
Lemma open_hold_other id i r : r_account_id r = id -> i <> id -> open_hold i r = 0.
Proof. intros <- Hne. unfold open_hold. rewrite (bool_decide_false (r_account_id r = i)) by done. by rewrite andb_false_r. Qed.

Section Move.
Context (db db' : Db) (id rid : string) (a a' : Account) (r : ReservationRow).
Hypothesis HI : ledger_inv db.
Hypothesis Ha : accounts db !! id = Some a.
Hypothesis Ea : accounts db' = <[id := a']> (accounts db).
Hypothesis Er : reservations db' = <[rid := r]> (reservations db).
Hypothesis Hid : r_account_id r = id.
Hypothesis Hold : forall r0, reservations db !! rid = Some r0 -> r_account_id r0 = id.
Hypothesis Hch : charge_appended db db' id.
Hypothesis Hwin : forall g v, winners db !! g = Some v -> winners db' !! g = Some v.

Lemma held_other i : i <> id -> held db rid i = 0.
Proof. intros Hne. unfold held. destruct (reservations db !! rid) eqn:E; [|done]. by apply (open_hold_other id); auto. Qed.
Lemma moved_dom i : is_Some (accounts db !! i) -> is_Some (accounts db' !! i).
Proof. intros Hs. rewrite Ea. by apply lookup_insert_is_Some'; right. Qed.
Lemma moved_holds i :
  open_holds db' i = open_holds db i + if bool_decide (i = id) then open_hold id r - held db rid id else 0.
Proof.
  unfold open_holds at 1. rewrite Er, open_holds_insert. case_bool_decide as E; [by subst|].
  rewrite (open_hold_other id), held_other by done. lia.
Qed.

Lemma inv_move :
  is_i64 (ac_balance a') -> 0 <= ac_spent a' <= i64_max -> 0 <= ac_uncollected a' <= ac_spent a' ->
  ac_reserved a' = to_sql (open_holds db id + (open_hold id r - held db rid id)) ->
  ac_balance a' + (open_hold id r - held db rid id) + ac_spent a' - ac_uncollected a'
    = ac_balance a + ac_spent a - ac_uncollected a ->
  reservation_ok db' rid r -> ledger_inv db'.
Proof.
  intros Hb Hs Hu Hr Hc Hrok. split.
  - intros i x. rewrite Ea. intros [[<- <-]|[Hne Hx]]%lookup_insert_Some.
    + destruct (inv_accounts _ HI _ _ Ha) as [_ _ _ _ Bc].
      split; try done; rewrite moved_holds, bool_decide_true by done; [done|]. rewrite (charge_credits db db' id) by done. lia.
    + destruct (inv_accounts _ HI _ _ Hx) as [? ? ? Br Bc].
      split; try done; rewrite moved_holds, bool_decide_false, Z.add_0_r by done; [done|]. by rewrite (charge_credits db db' id).
  - intros k x. rewrite Er. intros [[<- <-]|[Hne Hx]]%lookup_insert_Some; [done|].
    destruct (inv_reservations _ HI _ _ Hx) as [? ? ? ? Hw]. split; try done; [by apply moved_dom|].
    intros z Hz1 Hz2 Hz3. destruct (Hw z Hz1 Hz2 Hz3) as (t & Ht). eauto.
  - intros l Hl. destruct Hch as [[E _]|(x & _ & Hx & _ & E & _)]; rewrite E in Hl.
    { by apply moved_dom, (inv_ledger _ HI). }
    apply elem_of_app in Hl as [Hl|[->|[]%elem_of_nil]%elem_of_cons]; [by apply moved_dom, (inv_ledger _ HI)|].
    rewrite Ea, Hx, lookup_insert_eq. by eexists.
  - destruct (inv_ids _ HI). destruct Hch as [[-> ->]|(x & _ & _ & ? & -> & ->)]; [done|by apply ids_app].
Qed.
End Move.

Lemma reserve_request_inv now db rid id key hold lease ex pricing b db' :
  ledger_inv db -> is_i64 hold ->
  reserve_request now db rid id key hold lease ex pricing = Ok (b, db') -> ledger_inv db'.
Proof.
  intros HI Hi Hrr. unfold reserve_request in Hrr. inv_ok.
  destruct (reservations db !! rid) as [r|] eqn:Hrid; inv_ok; [repeat case_match; by inv_ok|].
  destruct x as [[balance|] db1]; inv_ok; [|done].
  case_match; inv_ok; [done|]. db_shape.
  match goal with H : account_reserve_for_key _ _ _ _ _ = Ok _ |- _ =>
    apply reserve_for_key_spec in H as (a & Ha & _ & -> & Hfl & Eacc & El & En & Er & Ew) end.
  assert (Hh : 0 <= hold <= i64_max) by (repeat match goal with H : negb _ = true |- _ => apply negb_true_iff in H end;
    repeat match goal with H : _ || _ = false |- _ => apply orb_false_iff in H as [? ?] end; width_lia).
  rewrite Z.max_l in Eacc, Hfl by lia.
  pose proof (open_holds_nonneg db id HI) as Hnn.
  destruct (inv_accounts _ HI _ _ Ha) as [Bb Bs Bu Br Bc].
  set (r := mkReservation _ _ _ _ _ _ _ _ _ _ _ _ _ _ _ _ _ _) in *.
  assert (Hoh : open_hold id r - held db rid id = hold).
  { unfold open_hold, held. rewrite Hrid. cbn. rewrite bool_decide_true by done. cbn. lia. }
  refine (inv_move db _ id rid a (if hold =? 0 then a else reserve_account a hold) r HI Ha _ _ _ _ _ _ _ _ _ _ _ _); cbn.
  - destruct (hold =? 0); rewrite Eacc; [by rewrite insert_id|done].
  - by rewrite Er.
  - done.
  - congruence.
  - by left.
  - by rewrite Ew.
  - destruct (Z.eqb_spec hold 0); cbn; [done|unfold ACCOUNT_OVERDRAFT_NANO in *; width_lia].
  - destruct (hold =? 0); done.
  - destruct (hold =? 0); done.
  - rewrite Hoh. destruct (Z.eqb_spec hold 0); cbn; rewrite Br; [f_equal; lia|]. by apply sql_add_to_sql; lia.
  - rewrite Hoh. destruct (Z.eqb_spec hold 0); cbn; lia.
  - split; try done. cbn. destruct (hold =? 0); rewrite Eacc; [by eexists|]. rewrite lookup_insert_eq. by eexists.
Qed.

Lemma update_lease_inv now db rid lease st b db' :
  (forall s, is_open s = true -> is_open (st s) = true) ->
  ledger_inv db -> update_lease now db rid lease st = Ok (b, db') -> ledger_inv db'.
Proof.
  intros Hst HI Hu. unfold update_lease in Hu. inv_ok.
  destruct (reservations db !! rid) as [r|] eqn:Hrid; inv_ok; [|done].
  destruct (is_open (r_state r)) eqn:Ho; inv_ok; [|done]. db_shape.
  destruct (inv_reservations _ HI _ _ Hrid) as [Hh [a Ha] _ Hev _].
  destruct (inv_accounts _ HI _ _ Ha) as [Bb Bs Bu Br Bc]. pose proof (Hst _ Ho) as Ho'.
  set (r' := set_lease _ _ _ _) in *.
  assert (Hoh : open_hold (r_account_id r) r' - held db rid (r_account_id r) = 0).
  { unfold open_hold, held. rewrite Hrid. cbn. unfold open_hold. rewrite Ho, Ho'. lia. }
  refine (inv_move db _ (r_account_id r) rid a a r' HI Ha _ _ _ _ _ _ _ _ _ _ _ _); cbn; try done; auto.
  - by rewrite insert_id.
  - congruence.
  - by left.
  - rewrite Hoh. by rewrite Z.add_0_r.
  - rewrite Hoh. lia.
  - split; [done|by eexists|done|..].
    + unfold evidence_ok in *. cbn. rewrite Ho in Hev. by rewrite Ho'.
    + cbn. intros ? Ht. unfold is_open in Ho'. cbn in Ho', Ht. by rewrite Ht in Ho'.
Qed.

(** ** Settlement *)
Lemma settle_amounts_spec bal hold actual c u b :
  0 <= hold -> 0 <= actual -> settle_amounts bal hold actual = Ok (c, u, b) ->
  0 <= c /\ 0 <= u /\ c + u = actual /\ b = bal + hold - c /\ is_i64 b
  /\ (hold = 0 -> u = 0) /\ (0 < hold -> u = 0 \/ b = Z.min bal (- ACCOUNT_OVERDRAFT_NANO)).
Proof.
  intros Hh Ha. unfold settle_amounts. destruct (Z.eqb_spec hold 0) as [->|Hn]; intros E; inv_ok.
  - repeat split; try done; try width_lia.
  - unfold ACCOUNT_OVERDRAFT_NANO in *. repeat split; try done; try width_lia.
Qed.

Lemma settle_evidence_shape now db rid id key actual u b reference usage pricing db' :
  settle_evidence now db rid id key actual u b reference usage pricing = Ok db' ->
  accounts db' = accounts db /\ reservations db' = reservations db /\ winners db' = winners db
  /\ outbox db' = outbox db /\ api_keys db' = api_keys db
  /\ charge_appended db db' id /\ charge_written db db' rid id actual u b.
Proof.
  unfold settle_evidence, charge_written. intros H. inv_ok.
  destruct (0 <? actual); inv_ok; destruct usage; inv_ok; db_shape; do 5 (split; [done|]).
  3, 4: split; [by left|done].
  all: split; [|eexists; (split; [reflexivity|]); done].
  all: right; refine (ex_intro _ _ (conj _ (conj _ (conj _ (conj eq_refl _))))); done.
Qed.
Lemma settle_key_aggregate_shape db id key hold actual db' :
  settle_key_aggregate db id key hold actual = Ok db' ->
  accounts db' = accounts db /\ reservations db' = reservations db /\ winners db' = winners db
  /\ outbox db' = outbox db /\ ledger db' = ledger db /\ next_ledger_id db' = next_ledger_id db.
Proof. unfold settle_key_aggregate. intros H. case_match; inv_ok; done. Qed.

(** The money movement of a settlement. *)
Definition settled_by (db db' : Db) (rid id : string) (a : Account) (hold actual balance c u reserved : Z) : Prop :=
  accounts db !! id = Some a
  /\ get_i64 (ac_reserved a) = Ok reserved
  /\ settle_amounts (ac_balance a) hold actual = Ok (c, u, balance)
  /\ is_i64 (ac_spent a + actual)
  /\ accounts db' = <[id := settle_account a balance (ac_spent a + actual) (reserved - hold) (ac_uncollected a + u)]>
                      (accounts db)
  /\ reservations db' = reservations db /\ winners db' = winners db /\ outbox db' = outbox db
  /\ charge_appended db db' id /\ charge_written db db' rid id actual u balance.

Lemma settle_request_in_spec now db rid id key hold_nano actual_nano reference usage pricing b c u db' :
  account_settle_request_in now db rid id key hold_nano actual_nano reference usage pricing = Ok (Some (b, c, u), db') ->
  exists a reserved, settled_by db db' rid id a (Z.max hold_nano 0) (Z.max actual_nano 0) b c u reserved.
Proof.
  unfold account_settle_request_in, settled_by. intros H.
  apply bind_Ok in H as ([] & _ & H).
  destruct (accounts db !! id) as [a|] eqn:Ha; [|by inv_ok]. inv_ok.
  destruct x1 as [[? ?] ?]. inv_ok. db_shape.
  match goal with H : settle_key_aggregate _ _ _ _ _ = Ok _ |- _ => apply settle_key_aggregate_shape in H as (E1 & E2 & E3 & E4 & E5 & E6) end.
  match goal with H : settle_evidence _ _ _ _ _ _ _ _ _ _ _ = Ok _ |- _ => apply settle_evidence_shape in H as (F1 & F2 & F3 & F4 & F5 & F6 & F7) end.
  exists a. eexists. split; [done|]. split; [eassumption|]. split; [eassumption|]. split; [done|].
  rewrite F1, F2, F3, F4, E1, E2, E3, E4. cbn. repeat (split; [done|]).
  unfold charge_appended, charge_written in *. rewrite E5, E6 in F6. by rewrite E5 in F7.
Qed.

(** Who pays: the recorded winner of the group, or this request if it is the
    first positive settlement. *)
Definition winner_of (db : Db) (rid : string) (r : ReservationRow) (o : OutboxRow) : string :=
  if 0 <? o_actual o then
    match winners db !! effective_group rid r with Some (w, _) => w | None => rid end
  else rid.
Definition wins (db : Db) (rid : string) (r : ReservationRow) (o : OutboxRow) : bool :=
  bool_decide (winner_of db rid r o = rid).
Definition effective_actual (db : Db) (rid : string) (r : ReservationRow) (o : OutboxRow) : Z :=
  if (0 <? o_actual o) && wins db rid r o then o_actual o else 0.
Definition final_state (db : Db) (rid : string) (r : ReservationRow) (o : OutboxRow) : ReservationState :=
  if bool_decide ((if wins db rid r o then o_disposition o else DCancel) = DCancel) then Canceled else Settled.

(** The effect of applying the intent [o] to the open reservation [r]. *)
Record applied (db db' : Db) (rid : string) (r : ReservationRow) (o : OutboxRow)
    (a : Account) (c u balance reserved ts : Z) : Prop := {
  ap_account : accounts db !! r_account_id r = Some a;
  ap_reserved : get_i64 (ac_reserved a) = Ok reserved;
  ap_amounts : settle_amounts (ac_balance a) (Z.max (r_hold r) 0) (effective_actual db rid r o) = Ok (c, u, balance);
  ap_spent : is_i64 (ac_spent a + effective_actual db rid r o);
  ap_accounts : accounts db' = <[r_account_id r :=
      settle_account a balance (ac_spent a + effective_actual db rid r o)
        (reserved - Z.max (r_hold r) 0) (ac_uncollected a + u)]> (accounts db);
  ap_close : let r' := close_reservation r (final_state db rid r o) (effective_actual db rid r o) c u balance
                         (o_reference o) ts in
      reservations db' = <[rid := r']> (reservations db)
      /\ reservation_guard r' = true /\ reservation_check r' = true;
  ap_winners : forall g v, winners db !! g = Some v -> winners db' !! g = Some v;
  ap_winner : 0 < o_actual o ->
      exists t, winners db' !! effective_group rid r = Some (winner_of db rid r o, t);
  ap_outbox : outbox db' = <[rid := outbox_done o (o_attempts o + 1) ts ts]> (outbox db);
  ap_ledger : charge_appended db db' (r_account_id r);
  ap_charge : charge_written db db' rid (r_account_id r) (effective_actual db rid r o) u balance
}.

Section Codec.
Context {JC : UsageCodec}.

Definition is_closed_or_done (r : ReservationRow) (o : OutboxRow) : bool :=
  is_terminal (r_state r) || bool_decide (o_state o = Done).

Lemma elect_winner_spec now db g rid :
  let '(db1, w) := elect_winner now db g rid in
  db1 = set_winners db (winners db1)
  /\ w = (match winners db !! g with Some (w, _) => w | None => rid end)
  /\ (exists t, winners db1 !! g = Some (w, t))
  /\ (forall g' v, winners db !! g' = Some v -> winners db1 !! g' = Some v).
Proof.
  unfold elect_winner. destruct (winners db !! g) as [[w t]|] eqn:E; cbn.
  - repeat split; try done; [by destruct db|eauto].
  - repeat split; try done; [rewrite lookup_insert_eq; eauto|].
    intros g' v Hv. rewrite lookup_insert_ne; [done|]. congruence.
Qed.

Lemma process_spec now db rid b db' :
  sqlite_process_settlement now db rid = Ok (b, db') ->
  exists o r, outbox db !! rid = Some o /\ reservations db !! rid = Some r /\ outbox_guard o = true
  /\ if is_closed_or_done r o
     then b = r_balance_after_settle r
          /\ terminal_evidence db rid r (o_actual o) StoredDiffers true = Ok ()
          /\ db' = set_outbox db (<[rid := outbox_done o (o_attempts o) (now 0%nat)
                                      (default (now 0%nat) (o_committed_ts o))]> (outbox db))
     else exists a c u balance reserved, b = Some balance
          /\ applied db db' rid r o a c u balance reserved (now 2%nat).
Proof.
  unfold sqlite_process_settlement, is_closed_or_done. intros H. inv_ok. exists x, x0. split; [done|]. split; [done|].
  destruct (_ || _).
  { inv_ok. destruct x1.
    match goal with H : write_outbox _ _ _ = Ok _ |- _ => apply write_outbox_guard in H as Hg end. by db_shape. }
  apply bind_Ok in H as (usage & _ & H).
  destruct (if 0 <? o_actual x then _ else _) as [db1 w] eqn:Hel.
  assert (Hw : w = winner_of db rid x0 x /\ db1 = set_winners db (winners db1)
    /\ (forall g v, winners db !! g = Some v -> winners db1 !! g = Some v)
    /\ (0 < o_actual x -> exists t, winners db1 !! effective_group rid x0 = Some (winner_of db rid x0 x, t))).
  { unfold winner_of. destruct (Z.ltb_spec 0 (o_actual x)).
    - pose proof (elect_winner_spec (now 0%nat) db (effective_group rid x0) rid) as Hs. rewrite Hel in Hs.
      destruct Hs as (-> & -> & ? & ?). done.
    - simplify_eq. split; [done|]. split; [by destruct db1|]. split; [done|lia]. }
  destruct Hw as (-> & Edb1 & Hmono & Hwin). fold (wins db rid x0 x) in H.
  apply bind_Ok in H as (pricing & _ & H). apply bind_Ok in H as ([settled db2] & Hs & H).
  inv_ok. destruct x1 as [[balance c] u]. inv_ok.
  match goal with H : write_outbox _ _ _ = Ok _ |- _ => apply write_outbox_guard in H as Hg end. db_shape.
  split; [done|].
  apply settle_request_in_spec in Hs as (a & reserved & Ha & Hr & Ham & Hsp & Eacc & Eres & Ewin & Eout & Eled & Echw).
  fold (effective_actual db rid x0 x) in *. fold (final_state db rid x0 x) in *.
  assert (Hmax : Z.max (effective_actual db rid x0 x) 0 = effective_actual db rid x0 x).
  { unfold effective_actual. destruct (Z.ltb_spec 0 (o_actual x)); [destruct (wins _ _ _ _)|]; cbn; lia. }
  rewrite Hmax in *. rewrite Edb1 in Ha, Eacc, Eres, Eout, Eled, Echw. cbn in *.
  exists a, c, u, balance, reserved. split; [done|]. split; cbn; try done.
  - by rewrite Eres.
  - by rewrite Ewin.
  - by rewrite Ewin.
  - by rewrite Eout.
Qed.

Lemma effective_actual_nonneg db rid r o : 0 <= effective_actual db rid r o.
Proof. unfold effective_actual. destruct (Z.ltb_spec 0 (o_actual o)); cbn; [case_match|]; lia. Qed.

Lemma applied_inv db db' rid r o a c u balance reserved ts :
  ledger_inv db -> reservations db !! rid = Some r -> is_open (r_state r) = true ->
  applied db db' rid r o a c u balance reserved ts -> ledger_inv db'.
Proof.
  intros HI Hr Ho [Ha Hres Ham Hsp Eacc (Eres & Hg & Hc) Hmono Hwin _ Hch _].
  pose proof (effective_actual_nonneg db rid r o) as Hnn.
  destruct (inv_reservations _ HI _ _ Hr) as [Hh _ _ _ _].
  rewrite Z.max_l in * by lia.
  destruct (settle_amounts_spec _ _ _ _ _ _ (proj1 Hh) Hnn Ham) as (Hc0 & Hu0 & Hcu & Eb & Hb & _).
  destruct (inv_accounts _ HI _ _ Ha) as [Bb Bs Bu Br Bc]. rewrite Br in Hres. apply get_to_sql in Hres as [-> Hir].
  set (r' := close_reservation _ _ _ _ _ _ _ _) in *.
  assert (Ht : is_terminal (r_state r') = true) by (cbn; unfold final_state; by case_match).
  assert (Hoh : open_hold (r_account_id r) r' - held db rid (r_account_id r) = - r_hold r).
  { unfold open_hold, held. rewrite Hr. cbn. unfold is_open in *. cbn in Ht. rewrite Ht. cbn.
    unfold open_hold, is_open. rewrite Ho, bool_decide_true by done. cbn. lia. }
  pose proof (open_holds_ge _ _ _ HI Hr Ho) as Hge.
  refine (inv_move db _ (r_account_id r) rid a _ r' HI Ha Eacc Eres _ _ Hch Hmono _ _ _ _ _ _); cbn;
    try done; rewrite ?Hoh; try width_lia.
  - congruence.
  - rewrite to_sql_id; [f_equal; lia|width_lia].
  - split; [done| |done|..].
    + rewrite Eacc. cbn. rewrite lookup_insert_eq. by eexists.
    + unfold evidence_ok, is_open. rewrite Ht. cbn. eauto 15.
    + cbn. intros z _ [= <-] Hz. unfold effective_actual in Hz.
      destruct (Z.ltb_spec 0 (o_actual o)); [|done]. destruct (wins db rid r o) eqn:Hwi; [|done].
      apply bool_decide_eq_true in Hwi. destruct (Hwin ltac:(lia)) as (t & Htt). rewrite Hwi in Htt. eauto.
Qed.

Lemma process_inv now db rid b db' :
  ledger_inv db -> sqlite_process_settlement now db rid = Ok (b, db') -> ledger_inv db'.
Proof.
  intros HI (o & r & Ho & Hr & _ & H)%process_spec. destruct (is_closed_or_done r o) eqn:E.
  - destruct H as (_ & _ & ->). frame_inv.
  - destruct H as (a & c & u & bal & res & _ & Hap). eapply applied_inv; [done..| |done].
    apply orb_false_iff in E as [E _]. unfold is_open. by rewrite E.
Qed.

Lemma enqueue_shape now db rid id key hold actual reference usage disp b db' :
  sqlite_enqueue_settlement now db rid id key hold actual reference usage disp = Ok (b, db') ->
  b = None /\ db' = set_outbox db (outbox db').
Proof.
  unfold sqlite_enqueue_settlement. intros H. case_match; inv_ok. case_match; inv_ok; db_shape; [by destruct db'|done].
Qed.
Lemma enqueue_inv now db rid id key hold actual reference usage disp b db' :
  ledger_inv db -> sqlite_enqueue_settlement now db rid id key hold actual reference usage disp = Ok (b, db') ->
  ledger_inv db'.
Proof. intros HI [_ ->]%enqueue_shape. frame_inv. Qed.

Lemma record_retry_shape db rid e ts : record_retry db rid e ts = set_outbox db (outbox (record_retry db rid e ts)).
Proof.
  unfold record_retry. case_match; [|by destruct db]. destruct (write_outbox _ _ _) eqn:E; [|by destruct db].
  by db_shape.
Qed.
Lemma record_retry_inv db rid e ts : ledger_inv db -> ledger_inv (record_retry db rid e ts).
Proof. intros HI. rewrite record_retry_shape. frame_inv. Qed.

Lemma enqueue_and_process_inv now db rid id key hold actual reference usage disp res db' :
  ledger_inv db -> enqueue_and_process now db rid id key hold actual reference usage disp = (res, db') -> ledger_inv db'.
Proof.
  intros HI. unfold enqueue_and_process. destruct (sqlite_enqueue_settlement _ _ _ _ _ _ _ _ _ _) as [[b1 db1]|e] eqn:E.
  2: { by intros [= _ <-]. }
  apply (enqueue_inv _ _ _ _ _ _ _ _ _ _ _ _ HI) in E as HI1. apply enqueue_shape in E as [-> _].
  destruct (sqlite_process_settlement _ _ _) as [[? ?]|?] eqn:E2; intros [= _ <-]; [by eapply process_inv|done].
Qed.
Lemma settle_request_inv now db rid id key hold actual reference usage res db' :
  ledger_inv db -> sqlite_settle_request now db rid id key hold actual reference usage = (res, db') -> ledger_inv db'.
Proof.
  intros HI. unfold sqlite_settle_request. destruct (sqlite_enqueue_settlement _ _ _ _ _ _ _ _ _ _) as [[b1 db1]|e] eqn:E.
  2: { by intros [= _ <-]. }
  apply (enqueue_inv _ _ _ _ _ _ _ _ _ _ _ _ HI) in E as HI1. apply enqueue_shape in E as [-> _].
  destruct (sqlite_process_settlement _ _ _) as [[? ?]|?] eqn:E2; intros [= _ <-];
    [by eapply process_inv|by apply record_retry_inv].
Qed.
Lemma cancel_request_inv now db rid id key hold res db' :
  ledger_inv db -> sqlite_cancel_request now db rid id key hold = (res, db') -> ledger_inv db'.
Proof.
  intros HI. unfold sqlite_cancel_request. destruct (sqlite_enqueue_settlement _ _ _ _ _ _ _ _ _ _) as [[b1 db1]|e] eqn:E.
  2: { by intros [= _ <-]. }
  apply (enqueue_inv _ _ _ _ _ _ _ _ _ _ _ _ HI) in E as HI1. apply enqueue_shape in E as [-> _].
  destruct (sqlite_process_settlement _ _ _) as [[? ?]|?] eqn:E2; intros [= _ <-];
    [by eapply process_inv|by apply record_retry_inv].
Qed.

Lemma process_pending_inv ids now db n db' :
  ledger_inv db -> process_pending now db ids = (n, db') -> ledger_inv db'.
Proof.
  revert now db n db'. induction ids as [|rid ids IH]; cbn; intros now db n db' HI.
  { by intros [= _ <-]. }
  destruct (sqlite_process_settlement now db rid) as [[b db1]|e] eqn:E.
  - destruct (process_pending _ db1 ids) as [k db2] eqn:E2. intros [= _ <-].
    eapply IH; [|exact E2]. by eapply process_inv.
  - by apply IH.
Qed.
Lemma recover_expired_inv rows charge now db rep rep' db' :
  ledger_inv db -> recover_expired now db charge rows rep = (rep', db') -> ledger_inv db'.
Proof.
  revert now db rep rep' db'. induction rows as [|[rid r] rows IH]; cbn; intros now db rep rep' db' HI.
  { by intros [= _ <-]. }
  destruct (enqueue_and_process _ _ _ _ _ _ _ _ _ _) as [res db1] eqn:E. apply IH.
  by eapply enqueue_and_process_inv.
Qed.
Lemma reconcile_inv now db limit charge rep db' :
  ledger_inv db -> sqlite_reconcile_expired now db limit charge = (rep, db') -> ledger_inv db'.
Proof.
  intros HI. unfold sqlite_reconcile_expired. destruct (process_pending _ _ _) as [n db1] eqn:E.
  apply process_pending_inv in E as HI1; [|done]. case_match; [by intros [= _ <-]|]. by apply recover_expired_inv.
Qed.
End Codec.

(** ** Retention *)
Lemma ledger_prune_kept db cutoff l :
  ledger_inv db -> l ∈ ledger db -> l ∉ ledger (ledger_prune db cutoff).2 ->
  lr_kind l = Charge /\ exists t last, checkpoints db !! ("pricing", lr_account_id l) = Some (last, t) /\ lr_id l <= last.
Proof.
  intros HI Hl Hn. destruct (inv_ids _ HI) as [Hnd _]. cbn in Hn. rewrite list_elem_of_filter in Hn.
  destruct (decide (lr_id l ∈ map lr_id (take 5000 (filter (fun l => prunable db cutoff l = true) (ledger db)))))
    as [Hin|]; [|tauto].
  apply list_elem_of_fmap in Hin as (x & Ex & Hx). apply subseteq_take in Hx.
  apply list_elem_of_filter in Hx as [Hp Hx].
  assert (l = x) as <-.
  { apply list_elem_of_lookup in Hl as (i1 & Hi1), Hx as (i2 & Hi2).
    assert (i1 = i2) as ->; [|congruence]. apply (NoDup_lookup _ _ _ (lr_id l) Hnd);
      rewrite list_lookup_fmap; [by rewrite Hi1|by rewrite Hi2, Ex]. }
  unfold prunable in Hp. repeat case_match; simplify_eq/=; rewrite ?andb_true_iff in Hp.
  - destruct Hp as [[?%bool_decide_eq_true _] ?]. split; [done|]. eexists _, _. split; [done|lia].
  - by destruct Hp.
Qed.

Lemma ledger_prune_inv db cutoff : ledger_inv db -> ledger_inv (ledger_prune db cutoff).2.
Proof.
  intros HI. pose proof (ledger_prune_kept db cutoff) as Hk. cbn in *.
  set (keep := fun l => _ ∉ _) in *.
  assert (Hcr : forall i, sumZ (credit i) (filter keep (ledger db)) = credits db i).
  { intros i. apply sumZ_filter. intros l Hl Hn. destruct (Hk l HI Hl) as [Hc _].
    - intros [? _]%list_elem_of_filter. done.
    - unfold credit. by rewrite Hc. }
  destruct HI as [Ha Hr Hl [Hn1 Hn2]]. split; cbn.
  - intros id a [? ? ? ? ?]%Ha. split; try done. unfold credits. cbn. by rewrite Hcr.
  - intros rid r [? ? ? ? ?]%Hr. by split.
  - intros l [_ ?]%list_elem_of_filter. auto.
  - split; [|intros l [_ ?]%list_elem_of_filter; auto].
    eapply sublist_NoDup; [exact Hn1|apply (fmap_sublist lr_id), sublist_filter].
Qed.

Lemma prune_page_elem rows rid : rid ∈ prune_page rows -> exists t, (t, rid) ∈ rows.
Proof.
  unfold prune_page. intros ([t rid'] & -> & Hx)%list_elem_of_fmap. exists t. apply subseteq_take in Hx.
  by rewrite merge_sort_Permutation in Hx.
Qed.
Lemma prunable_terminal db cutoff t rid :
  (t, rid) ∈ prunable_reservations db cutoff ->
  exists r, reservations db !! rid = Some r /\ is_terminal (r_state r) = true /\ outbox db !! rid = None.
Proof.
  intros ([k r] & Hin & Hsome)%list_elem_of_omap. apply elem_of_map_to_list in Hin. cbn in Hsome.
  repeat case_match; simplify_eq/=. rewrite !andb_true_iff in *.
  match goal with H : _ /\ _ |- _ => destruct H as [[? _] ?%bool_decide_eq_true] end. eauto.
Qed.

Lemma maintenance_prune_inv now db cutoff n m db' :
  ledger_inv db -> sqlite_maintenance_prune now db cutoff = Ok (n, m, db') -> ledger_inv db'.
Proof.
  intros HI H. unfold sqlite_maintenance_prune in H. apply bind_Ok in H as (_ & _ & H). injection H as _ _ <-.
  set (db1 := set_outbox db _). set (ids := prune_page (prunable_reservations db1 cutoff)).
  assert (Hids : forall rid r, reservations db !! rid = Some r -> rid ∈ ids -> is_terminal (r_state r) = true).
  { intros rid r Hr (t & (r' & Hr' & Ht & _)%prunable_terminal)%prune_page_elem. cbn in Hr'. by simplify_eq. }
  assert (Hoh : forall i, map_sumZ (fun _ => open_hold i) (filter (fun p => p.1 ∉ ids) (reservations db)) = open_holds db i).
  { intros i. apply map_sumZ_filter. intros rid r Hr Hn. cbn in Hn. unfold open_hold, is_open.
    rewrite (Hids rid r Hr); [done|]. by destruct (decide (rid ∈ ids)). }
  destruct HI as [Ha Hr Hl Hn]. split; cbn; try done.
  - intros id a [? ? ? Br Bc]%Ha. split; unfold open_holds in *; cbn; rewrite ?Hoh; done.
  - intros rid r [Hrr Hkeep]%map_lookup_filter_Some. destruct (Hr _ _ Hrr) as [? ? ? ? Hw]. split; try done.
    intros a Ht Hact Hpos. destruct (Hw a Ht Hact Hpos) as (t & Hwin). exists t. cbn.
    apply map_lookup_filter_Some. split; [done|]. cbn. intros Hall.
    apply (Hall rid r); [|done]. by apply map_lookup_filter_Some.
Qed.
