(* ===== verification/Billing.v ===== *)
(** * The billing authority as a transition system

    Every public operation that writes the database is one step; an operation
    that fails halfway steps to the database it leaves behind.  The theorems
    state, for every reachable database and for single operations, the promises
    the rest of the engine relies on. *)
From stdpp Require Import sorting.
From S2P Require Import Prelude LedgerDb Accounts Settlement LedgerInv.

Section Billing.
Context {JC : UsageCodec}.

Inductive step : Db -> Db -> Prop :=
| st_account_create now db id handle mult db' :
    account_create now db id handle mult = Ok db' -> step db db'
| st_account_set_status db id status n db' :
    account_set_status db id status = Ok (n, db') -> step db db'
| st_account_set_mult_bp db id mult n db' :
    account_set_mult_bp db id mult = Ok (n, db') -> step db db'
| st_account_remove db id n db' :
    account_remove db id = Ok (n, db') -> step db db'
| st_account_topup now db id amount reference b db' :
    account_topup now db id amount reference = Ok (b, db') -> step db db'
| st_key_issue now kid db key id label lim exp db' :
    key_issue_with_policy now kid db key id label lim exp = Ok db' -> step db db'
| st_key_set_status db key status : step db (key_set_status db key status).2
| st_key_set_status_by_id db kid status : step db (key_set_status_by_id db kid status).2
| st_key_set_label db kid label : step db (key_set_label_by_id db kid label).2
| st_key_set_policy sql_now now db id kid lim exp :
    step db (key_set_policy_by_id sql_now now db id kid lim exp).2
| st_key_remove db key : step db (key_remove db key).2
| st_key_clear db : step db (key_clear db).2
| st_set_discount db id p m ts db' :
    set_account_provider_discount db id p m ts = Ok db' -> step db db'
| st_clear_discount db id p : step db (clear_account_provider_discount db id p).2
| st_ledger_ack now db consumer id last db' :
    ledger_ack now db consumer id last = Ok db' -> step db db'
| st_ledger_prune db cutoff : step db (ledger_prune db cutoff).2
| st_usage_prune db cutoff : step db (usage_prune db cutoff).2
| st_maintenance_prune now db cutoff n m db' :
    sqlite_maintenance_prune now db cutoff = Ok (n, m, db') -> step db db'
| st_reserve now db rid id key hold lease ex pricing b db' :
    is_i64 hold ->
    reserve_request now db rid id key hold lease ex pricing = Ok (b, db') -> step db db'
| st_mark_delivering now db rid lease b db' :
    sqlite_mark_delivering now db rid lease = Ok (b, db') -> step db db'
| st_renew now db rid lease b db' :
    sqlite_renew_reservation_lease now db rid lease = Ok (b, db') -> step db db'
| st_settle now db rid id key hold actual reference usage res db' :
    sqlite_settle_request now db rid id key hold actual reference usage = (res, db') -> step db db'
| st_cancel now db rid id key hold res db' :
    sqlite_cancel_request now db rid id key hold = (res, db') -> step db db'
| st_process now db rid b db' :
    sqlite_process_settlement now db rid = Ok (b, db') -> step db db'
| st_reconcile now db limit charge report db' :
    sqlite_reconcile_expired now db limit charge = (report, db') -> step db db'.

Lemma set_status_inv db id a s db' :
  ledger_inv db -> accounts db !! id = Some a -> update_account db id (set_ac_status a s) = Ok db' -> ledger_inv db'.
Proof. intros HI Ha. by apply (update_account_inv _ _ a). Qed.

Lemma empty_db_inv : ledger_inv empty_db.
Proof. split; cbn; try set_solver. split; [constructor|set_solver]. Qed.

Lemma step_inv db db' : step db db' -> ledger_inv db -> ledger_inv db'.
Proof.
  destruct 1 as [ | db id s n db' H | db id m n db' H | db id n db' H | | ? ? ? ? ? ? ? ? ? H | | | |
    sn now db id kid lim exp | | | ? ? ? ? ? ? H | | ? ? ? ? ? ? H | | | | | | | | | | ]; intros HI.
  - by eapply account_create_inv.
  - unfold account_set_status in H. case_match; inv_ok; [eauto using set_status_inv|done].
  - unfold account_set_mult_bp in H. inv_ok. case_match; inv_ok; [|done]; eapply update_account_inv; [done..| |done]; done.
  - unfold account_remove in H. case_match; inv_ok; [|done]. case_match; inv_ok; [done|eauto using set_status_inv].
  - by eapply account_topup_inv.
  - unfold key_issue_with_policy in H. inv_ok. case_match; inv_ok; frame_inv.
  - frame_inv.
  - frame_inv.
  - frame_inv.
  - unfold key_set_policy_by_id, update_keys. repeat case_match; frame_inv.
  - frame_inv.
  - frame_inv.
  - unfold set_account_provider_discount in H. inv_ok. frame_inv.
  - frame_inv.
  - unfold ledger_ack in H. inv_ok. frame_inv.
  - by apply ledger_prune_inv.
  - frame_inv.
  - by eapply maintenance_prune_inv.
  - by eapply reserve_request_inv.
  - by eapply (update_lease_inv _ _ _ _ (fun _ => Delivering)).
  - by eapply (update_lease_inv _ _ _ _ (fun st => st)).
  - by eapply settle_request_inv.
  - by eapply cancel_request_inv.
  - by eapply process_inv.
  - by eapply reconcile_inv.
Qed.
Lemma reachable_inv db : rtc step empty_db db -> ledger_inv db.
Proof. apply rtc_invariant; [apply empty_db_inv|]. intros a b. apply step_inv. Qed.

(** ** Terminal reservations and group winners are final *)
Record stable (db db' : Db) : Prop := {
  st_closed : forall rid r, reservations db !! rid = Some r -> is_terminal (r_state r) = true ->
    reservations db' !! rid = Some r;
  st_winners : winners db ⊆ winners db'
}.
Lemma stable_refl db db' : reservations db' = reservations db -> winners db' = winners db -> stable db db'.
Proof. intros E1 E2. split; [intros rid r; by rewrite E1|by rewrite E2]. Qed.
#[local] Instance stable_preorder : PreOrder stable.
Proof. split; [intros db; by apply stable_refl|]. intros x y z [H1 W1] [H2 W2]. split; [eauto|by etrans]. Qed.
Lemma stable_insert db db' rid r0 r :
  reservations db !! rid = Some r0 -> is_open (r_state r0) = true ->
  reservations db' = <[rid := r]> (reservations db) -> winners db ⊆ winners db' -> stable db db'.
Proof.
  intros H0 Ho E W. split; [|done]. intros k x Hk Ht. rewrite E. destruct (decide (k = rid)) as [->|]; [|by rewrite lookup_insert_ne].
  simplify_eq. unfold is_open in Ho. by rewrite Ht in Ho.
Qed.

Lemma process_stable now db rid b db' :
  sqlite_process_settlement now db rid = Ok (b, db') -> stable db db'.
Proof.
  intros (o & r & _ & Hr & _ & H)%process_spec. destruct (is_closed_or_done r o) eqn:E.
  - destruct H as (_ & _ & ->). by apply stable_refl.
  - destruct H as (a & c & u & bal & res & _ & [_ _ _ _ _ (Eres & _) Hw _ _ _ _]).
    eapply stable_insert; [done| |done|by apply map_subseteq_spec]. apply orb_false_iff in E as [E _]. unfold is_open. by rewrite E.
Qed.
Lemma enqueue_stable now db rid id key hold actual reference usage disp b db' :
  sqlite_enqueue_settlement now db rid id key hold actual reference usage disp = Ok (b, db') -> stable db db'.
Proof. intros [_ ->]%enqueue_shape. by apply stable_refl. Qed.
Lemma retry_stable db rid e ts : stable db (record_retry db rid e ts).
Proof. apply stable_refl; by rewrite record_retry_shape. Qed.
Lemma enqueue_and_process_stable now db rid id key hold actual reference usage disp res db' :
  enqueue_and_process now db rid id key hold actual reference usage disp = (res, db') -> stable db db'.
Proof.
  unfold enqueue_and_process. destruct (sqlite_enqueue_settlement _ _ _ _ _ _ _ _ _ _) as [[b1 db1]|e] eqn:E.
  2: { by intros [= _ <-]. }
  apply enqueue_stable in E as S1. apply enqueue_shape in E as [-> _].
  destruct (sqlite_process_settlement _ _ _) as [[? ?]|?] eqn:E2; intros [= _ <-]; [|done].
  etrans; [done|]. by eapply process_stable.
Qed.
Lemma process_pending_stable ids now db n db' : process_pending now db ids = (n, db') -> stable db db'.
Proof.
  revert now db n db'. induction ids as [|rid ids IH]; cbn; intros now db n db'; [by intros [= _ <-]|].
  destruct (sqlite_process_settlement now db rid) as [[b db1]|e] eqn:E; [|apply IH].
  destruct (process_pending _ db1 ids) as [k db2] eqn:E2. intros [= _ <-].
  etrans; [by eapply process_stable|by eapply IH].
Qed.
Lemma recover_expired_stable rows charge now db rep rep' db' :
  recover_expired now db charge rows rep = (rep', db') -> stable db db'.
Proof.
  revert now db rep rep' db'. induction rows as [|[rid r] rows IH]; cbn; intros now db rep rep' db'; [by intros [= _ <-]|].
  destruct (enqueue_and_process _ _ _ _ _ _ _ _ _ _) as [res db1] eqn:E. intros H.
  etrans; [by eapply enqueue_and_process_stable|by eapply IH].
Qed.
Lemma update_lease_stable now db rid lease st b db' :
  update_lease now db rid lease st = Ok (b, db') -> stable db db'.
Proof.
  unfold update_lease. intros H. inv_ok. destruct (reservations db !! rid) as [r|] eqn:Hr; inv_ok; [|done].
  destruct (is_open (r_state r)) eqn:Ho; inv_ok; [|done]. db_shape. by eapply stable_insert.
Qed.
Lemma reserve_request_stable now db rid id key hold lease ex pricing b db' :
  reserve_request now db rid id key hold lease ex pricing = Ok (b, db') -> stable db db'.
Proof.
  unfold reserve_request. intros H. inv_ok. destruct (reservations db !! rid) as [r|] eqn:Hr; inv_ok.
  { case_match; by inv_ok. }
  destruct x as [[bal|] db1]; inv_ok; [|done]. case_match; inv_ok; [done|]. db_shape.
  match goal with H : account_reserve_for_key _ _ _ _ _ = Ok _ |- _ =>
    apply reserve_for_key_spec in H as (? & _ & _ & _ & _ & _ & _ & _ & Er & Ew) end.
  split; [|cbn; by rewrite Ew]. intros k y Hk _. cbn. rewrite Er, lookup_insert_ne; [done|]. congruence.
Qed.

Lemma settle_stable now db rid id key hold actual reference usage res db' :
  sqlite_settle_request now db rid id key hold actual reference usage = (res, db') -> stable db db'.
Proof.
  unfold sqlite_settle_request. destruct (sqlite_enqueue_settlement _ _ _ _ _ _ _ _ _ _) as [[b1 db1]|e] eqn:E.
  2: { by intros [= _ <-]. }
  apply enqueue_stable in E as S1. apply enqueue_shape in E as [-> _].
  destruct (sqlite_process_settlement _ _ _) as [[? ?]|?] eqn:E2; intros [= _ <-];
    (etrans; [done|]); [by eapply process_stable|apply retry_stable].
Qed.
Lemma cancel_stable now db rid id key hold res db' :
  sqlite_cancel_request now db rid id key hold = (res, db') -> stable db db'.
Proof.
  unfold sqlite_cancel_request. destruct (sqlite_enqueue_settlement _ _ _ _ _ _ _ _ _ _) as [[b1 db1]|e] eqn:E.
  2: { by intros [= _ <-]. }
  apply enqueue_stable in E as S1. apply enqueue_shape in E as [-> _].
  destruct (sqlite_process_settlement _ _ _) as [[? ?]|?] eqn:E2; intros [= _ <-];
    (etrans; [done|]); [by eapply process_stable|apply retry_stable].
Qed.
Lemma reconcile_stable now db limit charge rep db' :
  sqlite_reconcile_expired now db limit charge = (rep, db') -> stable db db'.
Proof.
  unfold sqlite_reconcile_expired. destruct (process_pending _ _ _) as [n db1] eqn:E.
  apply process_pending_stable in E. case_match; [by intros [= _ <-]|]. intros ?%recover_expired_stable. by etrans.
Qed.

(** Every operation but the retention job is stable. *)
Lemma control_step_stable db db' : step db db' ->
  stable db db' \/ exists now cutoff n m, sqlite_maintenance_prune now db cutoff = Ok (n, m, db').
Proof.
  destruct 1 as [? ? ? ? ? ? H | db id s n db' H | db id m n db' H | db id n db' H | ? ? ? ? ? ? ? H | ? ? ? ? ? ? ? ? ? H | | | |
    sn now db id kid lim exp | | | ? ? ? ? ? ? H | | ? ? ? ? ? ? H | | | | | | | | | | ];
    try (left; apply stable_refl; reflexivity).
  - left. unfold account_create in H. inv_ok. db_shape. by apply stable_refl.
  - left. unfold account_set_status in H. case_match; inv_ok; [|done]. db_shape. by apply stable_refl.
  - left. unfold account_set_mult_bp in H. inv_ok. case_match; inv_ok; [|done]. db_shape. by apply stable_refl.
  - left. unfold account_remove in H. case_match; inv_ok; [|done]. case_match; inv_ok; [done|]. db_shape. by apply stable_refl.
  - left. unfold account_topup in H. inv_ok. case_match; inv_ok; [|done]. db_shape.
    repeat case_match; inv_ok; db_shape; by apply stable_refl.
  - left. unfold key_issue_with_policy in H. inv_ok. case_match; inv_ok; by apply stable_refl.
  - left. unfold key_set_policy_by_id, update_keys. repeat case_match; by apply stable_refl.
  - left. unfold set_account_provider_discount in H. inv_ok. by apply stable_refl.
  - left. unfold ledger_ack in H. inv_ok. by apply stable_refl.
  - right. eauto.
  - left. by eapply reserve_request_stable.
  - left. by eapply update_lease_stable.
  - left. by eapply update_lease_stable.
  - left. by eapply settle_stable.
  - left. by eapply cancel_stable.
  - left. by eapply process_stable.
  - left. by eapply reconcile_stable.
Qed.

(** ** Paid attempts of an execution group *)
Definition paid (db : Db) (group rid : string) : Prop :=
  exists r a, reservations db !! rid = Some r /\ effective_group rid r = group
    /\ is_terminal (r_state r) = true /\ r_actual r = Some a /\ 0 < a.
Definition group_retained (group : string) (db : Db) : Prop :=
  exists rid r, reservations db !! rid = Some r /\ effective_group rid r = group.

Lemma paid_won db group rid : ledger_inv db -> paid db group rid -> exists t, winners db !! group = Some (rid, t).
Proof.
  intros HI (r & a & Hr & <- & Ht & Ha & Hp). exact (ok_winner _ _ _ (inv_reservations _ HI _ _ Hr) _ Ht Ha Hp).
Qed.
Lemma prune_keeps_winner now db cutoff n m db' group v :
  sqlite_maintenance_prune now db cutoff = Ok (n, m, db') -> group_retained group db' ->
  winners db !! group = Some v -> winners db' !! group = Some v.
Proof.
  unfold sqlite_maintenance_prune. intros H (rid & r & Hr & Hg) Hw.
  apply bind_Ok in H as (_ & _ & H). injection H as _ _ <-. cbn in *.
  apply map_lookup_filter_Some. split; [done|]. cbn. intros Hall. by apply (Hall rid r).
Qed.
Lemma winner_kept_run db1 db2 group v :
  rtc (fun db db' => step db db' /\ group_retained group db') db1 db2 ->
  ledger_inv db1 -> winners db1 !! group = Some v -> ledger_inv db2 /\ winners db2 !! group = Some v.
Proof.
  induction 1 as [|x y z [Hs Hg] _ IH]; intros HI Hw; [done|]. apply IH; [by eapply step_inv|].
  apply control_step_stable in Hs as [Hs|(now & cutoff & n & m & H)].
  - by apply (lookup_weaken _ _ _ _ Hw), st_winners.
  - by eapply prune_keeps_winner.
Qed.

(** ** Properties of reachable databases *)

(** C1: money is conserved.  After any sequence of operations, from an empty
    database, every account satisfies: balance plus open holds plus spending,
    less what was spent beyond collection, equals the sum of its top-ups and
    adjustments; its reserved column is the sum of its open holds (or an
    unreadable REAL if that sum left the 64-bit range); and all columns are
    within their ranges. *)
Theorem ledger_conservation (db : Db) (id : string) (a : Account) :
  rtc step empty_db db -> accounts db !! id = Some a ->
  ac_balance a + open_holds db id + ac_spent a - ac_uncollected a = credits db id
  /\ ac_reserved a = to_sql (open_holds db id)
  /\ 0 <= ac_uncollected a <= ac_spent a /\ ac_spent a <= i64_max /\ is_i64 (ac_balance a)
  /\ 0 <= open_holds db id.
Proof.
  intros HI%reachable_inv Ha. destruct (inv_accounts _ HI _ _ Ha) as [? [? ?] ? ? ?].
  pose proof (open_holds_nonneg db id HI). done.
Qed.

(** C2: at most one attempt of an execution group is paid for as long as the
    group is retained.  Once an attempt of a group is charged a positive amount,
    then through any further operations during which some request of the group
    is still stored (the retention job removes a group's verdict together with
    its last request, never before), whatever attempt of the group is found
    charged is that same attempt: no other one can be paid, whether or not the
    first attempt's own row has been pruned. *)
Theorem single_paid_attempt (db1 db2 : Db) (group rid1 rid2 : string) :
  rtc step empty_db db1 -> paid db1 group rid1 ->
  rtc (fun db db' => step db db' /\ group_retained group db') db1 db2 ->
  paid db2 group rid2 -> rid2 = rid1.
Proof.
  intros Hr (t1 & W1)%paid_won Hrun; [|by apply reachable_inv].
  destruct (winner_kept_run _ _ _ _ Hrun (reachable_inv _ Hr) W1) as [HI2 W2].
  intros (t2 & W2')%paid_won; [|done]. congruence.
Qed.

(** C5: a closed reservation is final: every operation leaves its row exactly as
    it is, except the retention job, which may delete it and only when its
    settlement intent is already gone. *)
Theorem terminal_is_final (db db' : Db) (rid : string) (r : ReservationRow) :
  step db db' -> reservations db !! rid = Some r -> is_terminal (r_state r) = true ->
  reservations db' !! rid = Some r
  \/ (reservations db' !! rid = None /\ outbox db' !! rid = None).
Proof.
  intros [Hs|(now & cutoff & n & m & H)]%control_step_stable Hr Ht; [left; by apply (st_closed _ _ Hs)|].
  unfold sqlite_maintenance_prune in H. apply bind_Ok in H as (_ & _ & H). injection H as _ _ <-. cbn.
  rewrite !map_lookup_filter, Hr. cbn. case_guard as Hk; cbn; [auto|]. right. split; [done|].
  destruct (decide (rid ∈ prune_page (prunable_reservations
    (set_outbox db (filter (fun p => p.1 ∉ prune_page (prunable_outbox db cutoff)) (outbox db))) cutoff)))
    as [(t & (r' & _ & _ & Ho)%prunable_terminal)%prune_page_elem|]; [|done].
  cbn in Ho. by rewrite map_lookup_filter in Ho.
Qed.
End Billing.
