(* ===== verification/SettleSpec.v ===== *)
(** * What one settlement promises

    Functional specifications of the request lifecycle: a settlement that can be
    applied is applied with exact amounts, a losing attempt of an execution group
    is released without a charge, and repeating a settlement changes nothing. *)
From stdpp Require Import sorting.
From S2P Require Import Prelude LedgerDb Accounts Settlement LedgerInv Billing.

(** The trigger on [billing_reservations] guarantees a readable pricing pin. *)
Lemma guard_pricing r : reservation_guard r = true -> exists p, stored_pricing r = Ok p
  /\ p = match r_provider r, r_multiplier r with Some x, Some m => Some (mkPricing x m) | _, _ => None end.
Proof.
  unfold reservation_guard, stored_pricing. rewrite !andb_true_iff. intros [[_ H] _].
  destruct (r_provider r) as [x|], (r_multiplier r) as [m|]; try done; [|eauto].
  apply andb_true_iff in H as [H1 H2]. unfold ReservationPricing_new, ensure_valid_provider_discount.
  rewrite H1. unfold in_bp in H2. rewrite H2. cbn. eauto.
Qed.

(** Evidence of a closed reservation passes the replay check whenever its stored
    amount is the one the group election expects. *)
Lemma terminal_evidence_ok db rid r actual e :
  reservation_guard r = true -> evidence_ok r -> is_open (r_state r) = false ->
  (exists x, sqlite_terminal_expected_actual db rid actual = Ok x /\ r_actual r = Some x /\ is_i64 x) ->
  terminal_evidence db rid r actual e true = Ok ().
Proof.
  intros Hg Hev Ho (x & Hx & Hact & Hr). unfold terminal_evidence. rewrite Hx. cbn.
  rewrite bool_decide_true by done. cbn. destruct (guard_pricing r Hg) as (p & -> & _). cbn.
  unfold evidence_ok in Hev. rewrite Ho in Hev. destruct Hev as (a & c & u & b & Ea & Ec & Eu & _ & Hc & Hu & E).
  simplify_eq. unfold collection_exact. rewrite Ec, Eu. unfold checked_i64. rewrite decide_True by done.
  rewrite bool_decide_true by done.
  destruct (Z.leb_spec 0 c), (Z.leb_spec 0 u); try lia. done.
Qed.

Lemma applied_expected db db' rid r o a c u balance reserved ts :
  reservations db !! rid = Some r -> 0 <= o_actual o -> applied db db' rid r o a c u balance reserved ts ->
  sqlite_terminal_expected_actual db' rid (o_actual o) = Ok (effective_actual db rid r o).
Proof.
  intros Hr Ho [_ _ _ _ _ [Eres _] _ Hwin _ _ _]. unfold sqlite_terminal_expected_actual, effective_actual.
  destruct (Z.leb_spec (o_actual o) 0).
  - rewrite (proj2 (Z.ltb_ge 0 (o_actual o))) by lia. cbn. f_equal. lia.
  - rewrite (proj2 (Z.ltb_lt 0 (o_actual o))) by lia. cbn. rewrite Eres, lookup_insert_eq.
    destruct (Hwin ltac:(lia)) as (t & Hw). change (effective_group rid _) with (effective_group rid r).
    rewrite Hw. unfold wins. repeat case_bool_decide; done.
Qed.

Section Spec.
Context {JC : UsageCodec}.

(** The stored intent a successful enqueue leaves. *)
Lemma enqueue_intent now db rid id key hold actual reference usage disp b db' :
  sqlite_enqueue_settlement now db rid id key hold actual reference usage disp = Ok (b, db') ->
  exists r o, reservations db !! rid = Some r /\ outbox db' !! rid = Some o
    /\ r_account_id r = id /\ r_key r = key /\ r_hold r = hold
    /\ o_actual o = Z.max actual 0 /\ o_reference o = reference /\ o_usage_json o = to_json <$> usage
    /\ o_charge_basis o = ue_charge_basis_nano <$> usage /\ o_disposition o = disp
    /\ (r_state r = Settled ->
        terminal_evidence db rid r (Z.max actual 0) IdempotencyConflict (bool_decide (r_reference r = reference)) = Ok ()).
Proof.
  unfold sqlite_enqueue_settlement. intros H. destruct (reservations db !! rid) as [r|] eqn:Hr; [|done].
  inv_ok. rewrite !andb_true_iff in *.
  match goal with H : (_ /\ _) /\ _ |- _ => destruct H as [[E1%bool_decide_eq_true E2%bool_decide_eq_true] E3] end.
  assert (Hs : r_state r = Settled -> terminal_evidence db rid r (Z.max actual 0) IdempotencyConflict
     (bool_decide (r_reference r = reference)) = Ok ()).
  { intros E. match goal with H : (if _ then _ else _) = Ok ?u |- _ => rewrite bool_decide_true in H by done; by destruct u end. }
  destruct (outbox db !! rid) as [o|] eqn:Ho; inv_ok; exists r; eexists; (split; [done|]).
  - split; [done|]. rewrite !andb_true_iff in *.
    match goal with H : (((_ /\ _) /\ _) /\ _) /\ _ |- _ =>
      destruct H as [[[[F1 F2%bool_decide_eq_true] F3%bool_decide_eq_true] F4%bool_decide_eq_true] F5%bool_decide_eq_true] end.
    repeat split; try done; lia.
  - db_shape. split; [apply lookup_insert_eq|]. cbn. repeat split; try done; lia.
Qed.

(** Replaying on a database where the intent is stored and the reservation is
    closed consistently: only the bookkeeping of the intent changes. *)
Lemma replay_closed now db rid r o actual reference usage :
  reservations db !! rid = Some r -> outbox db !! rid = Some o -> is_open (r_state r) = false ->
  outbox_guard o = true ->
  o_actual o = Z.max actual 0 -> o_reference o = reference -> o_usage_json o = to_json <$> usage ->
  o_charge_basis o = ue_charge_basis_nano <$> usage -> o_disposition o = DSettle ->
  (r_state r = Settled -> r_reference r = reference) ->
  (forall e, terminal_evidence db rid r (o_actual o) e true = Ok ()) ->
  exists db', sqlite_settle_request now db rid (r_account_id r) (r_key r) (r_hold r) actual reference usage
              = (Ok (r_balance_after_settle r), db')
    /\ db' = set_outbox db (outbox db').
Proof.
  intros Hr Ho Hc Hg Ea Eref Eu Eb Ed Hst Hev.
  assert (He : sqlite_enqueue_settlement (now 0%nat) db rid (r_account_id r) (r_key r) (r_hold r) actual reference usage DSettle
            = Ok (None, db)).
  { unfold sqlite_enqueue_settlement. rewrite Hr, Z.eqb_refl, (bool_decide_true (r_account_id r = _)), (bool_decide_true (r_key r = _)) by done. cbn.
    assert (Hif : (if bool_decide (r_state r = Settled)
              then terminal_evidence db rid r (Z.max actual 0) IdempotencyConflict (bool_decide (r_reference r = reference))
              else Ok ()) = Ok ()).
    { case_bool_decide as Hs; [|done]. rewrite bool_decide_true by auto. by rewrite <- Ea. }
    rewrite Hif. cbn. rewrite Ho, Ea, Z.eqb_refl, !bool_decide_true by done. done. }
  unfold sqlite_settle_request. rewrite He. unfold sqlite_process_settlement. rewrite Ho, Hr. cbn.
  unfold is_open in Hc. apply negb_false_iff in Hc. rewrite Hc. cbn. rewrite Hev. cbn.
  unfold write_outbox. change (outbox_guard (outbox_done o _ _ _)) with (outbox_guard o). rewrite Hg. cbn.
  eexists. split; done.
Qed.

Lemma terminal_evidence_inv db rid r actual e ref_ok :
  terminal_evidence db rid r actual e ref_ok = Ok () ->
  ref_ok = true /\ is_Some (r_actual r) /\ forall e', terminal_evidence db rid r actual e' true = Ok ().
Proof.
  unfold terminal_evidence. intros H. inv_ok. rewrite andb_true_iff in *.
  match goal with H : _ /\ _ |- _ => destruct H as [H1 ->] end. apply bool_decide_eq_true in H1 as H1'.
  split; [done|]. split; [by eexists|]. intros e'.
  match goal with H : sqlite_terminal_expected_actual _ _ _ = Ok _ |- _ => rewrite H end. cbn. rewrite H1. cbn.
  match goal with H : stored_pricing _ = Ok _ |- _ => rewrite H end. cbn.
  match goal with H : collection_exact _ _ _ = true |- _ => by rewrite H end.
Qed.

Lemma applied_closed_ok db db' rid r o a c u balance reserved ts e :
  ledger_inv db -> reservations db !! rid = Some r -> 0 <= o_actual o ->
  applied db db' rid r o a c u balance reserved ts ->
  let r' := close_reservation r (final_state db rid r o) (effective_actual db rid r o) c u balance (o_reference o) ts in
  is_open (r_state r') = false /\ terminal_evidence db' rid r' (o_actual o) e true = Ok ().
Proof.
  intros HI Hr Ho Hap r'. pose proof (applied_expected _ _ _ _ _ _ _ _ _ _ _ Hr Ho Hap) as Hx.
  destruct Hap as [Ha _ Ham Hsp _ [_ [Hg _]] _ _ _ _ _].
  pose proof (effective_actual_nonneg db rid r o) as Hnn.
  destruct (inv_reservations _ HI _ _ Hr) as [Hh _ _ _ _]. rewrite Z.max_l in Ham by lia.
  destruct (settle_amounts_spec _ _ _ _ _ _ (proj1 Hh) Hnn Ham) as (Hc & Hu & Hcu & _).
  destruct (inv_accounts _ HI _ _ Ha) as [_ Bs _ _ _].
  assert (Hop : is_open (r_state r') = false) by (cbn; unfold final_state; by case_match).
  split; [done|]. apply terminal_evidence_ok; try done.
  - unfold evidence_ok. rewrite Hop. cbn. eauto 15.
  - exists (effective_actual db rid r o). split; [done|]. split; [done|]. width_lia.
Qed.

(** Settlement is idempotent.  Once a settlement has been applied, repeating
    it with the same parameters, at any later time, returns the same balance and
    leaves accounts, keys, ledger, usage rows, reservations and group winners
    untouched. *)
Theorem settle_idempotent (now now' : nat -> Z) (db db1 : Db) (rid id key : string) (hold actual : Z)
    (reference : option string) (usage : option UsageEventInput) (b : option Z) :
  rtc step empty_db db ->
  sqlite_settle_request now db rid id key hold actual reference usage = (Ok b, db1) ->
  exists db2, sqlite_settle_request now' db1 rid id key hold actual reference usage = (Ok b, db2)
    /\ db2 = set_outbox db1 (outbox db2).
Proof.
  intros HI%reachable_inv Hs. unfold sqlite_settle_request in Hs.
  destruct (sqlite_enqueue_settlement _ _ _ _ _ _ _ _ _ _) as [[b1 dbe]|e] eqn:E; [|done].
  apply enqueue_shape in E as Hsh. destruct Hsh as [-> Edbe].
  apply enqueue_intent in E as (r & o & Hr & Ho & <- & <- & <- & Ea & Eref & Eu & Eb & Ed & Hset).
  destruct (sqlite_process_settlement _ dbe rid) as [[b' db1']|] eqn:Ep; [|done]. injection Hs as -> ->.
  apply process_spec in Ep as (o' & r' & Ho' & Hr' & Hg & Hp).
  assert (r' = r) as -> by (rewrite Edbe in Hr'; cbn in Hr'; congruence).
  assert (o' = o) as -> by congruence.
  assert (HIe : ledger_inv dbe) by (rewrite Edbe; frame_inv). assert (Hnn : 0 <= o_actual o) by lia.
  destruct (is_closed_or_done r o) eqn:Hcd.
  - destruct Hp as (-> & Hev & ->). apply terminal_evidence_inv in Hev as (_ & [x Hx] & Hev).
    assert (Hc : is_open (r_state r) = false).
    { destruct (is_open (r_state r)) eqn:Hop; [|done]. pose proof (ok_evidence _ _ _ (inv_reservations _ HI _ _ Hr)) as Hno.
      unfold evidence_ok in Hno. rewrite Hop in Hno. destruct Hno as [Hno _]. congruence. }
    set (o1 := outbox_done _ _ _ _). set (db1 := set_outbox dbe _).
    apply (replay_closed now' db1 rid r o1 actual reference usage); cbn; try done.
    + apply lookup_insert_eq.
    + intros Hs. apply Hset in Hs. apply terminal_evidence_inv in Hs as (Hs%bool_decide_eq_true & _). done.
  - destruct Hp as (a & c & u & bal & res & -> & Hap).
    destruct (applied_closed_ok _ _ _ _ _ _ _ _ _ _ _ StoredDiffers HIe Hr' Hnn Hap) as [Hop Hev].
    apply terminal_evidence_inv in Hev as (_ & _ & Hev).
    destruct Hap as [_ _ _ _ _ [Eres _] _ _ Eout _ _].
    set (r2 := close_reservation _ _ _ _ _ _ _ _) in *.
    apply (replay_closed now' db1 rid r2 (outbox_done o (o_attempts o + 1) (now 3%nat) (now 3%nat)) actual reference usage);
      try done; [rewrite Eres|rewrite Eout]; apply lookup_insert_eq.
Qed.

(** ** Progress *)
Definition key_ready (db : Db) (r : ReservationRow) (eff : Z) : Prop :=
  forall k, api_keys db !! r_key r = Some k ->
    k_account_id k = r_account_id r /\ is_i64 (k_spent k + eff)
    /\ exists kr, k_reserved k = SqlInt kr /\ r_hold r <= kr.
Definition evidence_ready (db : Db) (rid : string) (r : ReservationRow) (usage : option UsageEventInput) : Prop :=
  (forall l, l ∈ ledger db -> ~ (lr_kind l = Charge /\ lr_request_id l = Some rid))
  /\ (forall x, x ∈ usage_events db -> ur_request_id x <> Some rid)
  /\ (forall v, usage = Some v -> 0 <= ue_charge_basis_nano v
        /\ forall p, r_provider r = Some p -> ue_provider v = p).
Record money_ready (db : Db) (r : ReservationRow) (a : Account) (eff : Z) : Prop := {
  mr_account : accounts db !! r_account_id r = Some a;
  mr_holds : open_holds db (r_account_id r) <= i64_max;
  mr_balance : ac_balance a + r_hold r - eff <= i64_max;
  mr_floor : r_hold r = 0 -> i64_min <= ac_balance a - eff;
  mr_spent : ac_spent a + eff <= i64_max;
  mr_key : key_ready db r eff
}.

Lemma settle_amounts_progress bal hold eff :
  is_i64 bal -> 0 <= hold <= i64_max -> 0 <= eff <= i64_max ->
  bal + hold - eff <= i64_max -> (hold = 0 -> i64_min <= bal - eff) ->
  exists c u b, settle_amounts bal hold eff = Ok (c, u, b).
Proof.
  intros Hb Hh He H1 H2. unfold settle_amounts. destruct (Z.eqb_spec hold 0) as [->|Hn].
  - unfold checked_i64. rewrite decide_True by width_lia. cbn. eauto.
  - unfold checked_i64, ACCOUNT_OVERDRAFT_NANO.
    rewrite decide_True by width_lia. cbn. rewrite decide_True by width_lia. cbn.
    rewrite decide_True by width_lia. cbn. eauto.
Qed.

Lemma settle_evidence_progress now db rid id key eff u b reference usage pricing r :
  evidence_ready db rid r usage -> 0 <= u <= eff ->
  (pricing = None \/ exists p, pricing = Some p /\ in_bp (pr_multiplier p) = true) ->
  exists db', settle_evidence now db rid id key eff u b reference usage pricing = Ok db'.
Proof.
  intros (Hl & Hus & Hv) Hu Hp.
  assert (Hm : opt_all in_bp (pr_multiplier <$> pricing) = true) by (destruct Hp as [->|(p & -> & Hp)]; done).
  assert (Hb : opt_all (Z.leb 0) (ue_charge_basis_nano <$> usage) = true).
  { destruct usage as [v|]; [|done]. cbn. destruct (Hv v eq_refl). lia. }
  unfold settle_evidence.
  assert (exists db1, (if 0 <? eff then ledger_insert db (fun lid => _) else Ok db) = Ok db1
            /\ usage_events db1 = usage_events db) as (db1 & -> & Eus).
  { destruct (0 <? eff); [|eauto]. unfold ledger_insert, ledger_guard. cbn. rewrite Hm, Hb.
    destruct (Z.leb_spec 0 u); [|lia]. cbn. rewrite (proj2 (forallb_forall _ _)); cbn; [eauto|].
    intros x Hx%list_elem_of_In. unfold same_kind_request. cbn.
    repeat case_bool_decide; cbn; try done. exfalso. eapply Hl; [exact Hx|]. split; congruence. }
  cbn. destruct usage as [v|]; [|eauto]. destruct (Hv v eq_refl) as [Hbasis _].
  unfold usage_insert, usage_guard. cbn. rewrite Hm, Eus.
  destruct (Z.leb_spec 0 u), (Z.leb_spec u eff), (Z.leb_spec 0 (ue_charge_basis_nano v)); try lia. cbn.
  rewrite (proj2 (forallb_forall _ _)); cbn; [eauto|].
  intros x Hx%list_elem_of_In. unfold same_usage_request. cbn. case_bool_decide as E; [|done].
  cbn. exfalso. by apply (Hus x Hx).
Qed.

Lemma settle_in_progress now db rid r a eff reference usage :
  ledger_inv db -> reservations db !! rid = Some r -> is_open (r_state r) = true -> 0 <= eff ->
  money_ready db r a eff -> evidence_ready db rid r usage ->
  exists pricing b c u db', stored_pricing r = Ok pricing /\
    account_settle_request_in now db rid (r_account_id r) (r_key r) (r_hold r) eff reference usage pricing
    = Ok (Some (b, c, u), db').
Proof.
  intros HI Hr Ho He [Ha Hho Hb Hf Hs Hk] Hev.
  destruct (inv_reservations _ HI _ _ Hr) as [Hh _ [Hg _] _ _]. destruct (inv_accounts _ HI _ _ Ha) as [Bb Bs Bu Br _].
  pose proof (open_holds_ge _ _ _ HI Hr Ho) as Hge.
  destruct (guard_pricing _ Hg) as (pricing & Hpr & Epr). exists pricing.
  assert (He' : 0 <= eff <= i64_max) by lia.
  destruct (settle_amounts_progress _ _ _ Bb Hh He' Hb Hf) as (c & u & b & Ham).
  destruct (settle_amounts_spec _ _ _ _ _ _ (proj1 Hh) He Ham) as (Hc & Hu & Hcu & _).
  assert (Hpg : match pricing with
     | None => Ok ()
     | Some p => ensure_valid_provider_discount (pr_provider p) (pr_multiplier p);;
         guard_ok (opt_all (fun u => bool_decide (ue_provider u = pr_provider p)) usage) ProviderDiffers
     end = Ok () /\ (pricing = None \/ exists p, pricing = Some p /\ in_bp (pr_multiplier p) = true)).
  { unfold stored_pricing, ReservationPricing_new, ensure_valid_provider_discount in Hpr.
    destruct (r_provider r) as [x|] eqn:Ex, (r_multiplier r) as [m|]; subst pricing; try (by split; [|left]); try done.
    inv_ok. unfold ensure_valid_provider_discount. cbn. rewrite H, H0. cbn. split; [|right; eauto].
    destruct usage as [v|]; [|done]. cbn. destruct Hev as (_ & _ & Hv). destruct (Hv v eq_refl) as [_ Hpv].
    rewrite bool_decide_true; [done|]. by apply Hpv. }
  destruct Hpg as [Hpg Hbp]. exists b, c, u.
  unfold account_settle_request_in. rewrite !Z.max_l by lia. rewrite Hpg. cbn. rewrite Ha, Br, to_sql_id by width_lia. cbn.
  destruct (Z.ltb_spec (open_holds db (r_account_id r)) (r_hold r)); [lia|]. rewrite andb_false_r. cbn.
  rewrite Ham. cbn. unfold checked_i64. rewrite decide_True by width_lia. cbn. rewrite decide_True by width_lia. cbn.
  unfold update_account, account_guard. cbn. destruct (Z.leb_spec 0 (ac_uncollected a + u)); [|lia]. cbn.
  assert (exists db2, settle_key_aggregate (set_accounts db (<[r_account_id r := _]> (accounts db))) (r_account_id r)
     (r_key r) (r_hold r) eff = Ok db2 /\ ledger db2 = ledger db /\ usage_events db2 = usage_events db) as (db2 & -> & El & Eu).
  { unfold settle_key_aggregate. cbn. destruct (api_keys db !! r_key r) as [k|] eqn:Ek; [|by eexists].
    destruct (Hk k Ek) as (Ei & Hki & kr & -> & Hkr). cbn. rewrite bool_decide_true by done.
    destruct (Z.leb_spec (r_hold r) kr); [|lia]. cbn. unfold checked_i64. rewrite decide_True by done. cbn. by eexists. }
  cbn. destruct (settle_evidence_progress now db2 rid (r_account_id r) (r_key r) eff u b reference usage pricing r)
    as (db3 & ->); [|lia|done|cbn; eauto].
  unfold evidence_ready. by rewrite El, Eu.
Qed.

(** Whether another attempt of the execution group has already been paid. *)
Definition paid_by_other (db : Db) (rid : string) (r : ReservationRow) : bool :=
  match winners db !! effective_group rid r with Some (w, _) => negb (bool_decide (w = rid)) | None => false end.

Definition fresh_intent (now actual : Z) (reference : option string) (usage : option UsageEventInput) : OutboxRow :=
  mkOutbox (Z.max actual 0) reference (to_json <$> usage) (ue_charge_basis_nano <$> usage) DSettle Pending 0 0 None now now None.

Lemma wins_spec db rid r o : wins db rid r o = negb ((0 <? o_actual o) && paid_by_other db rid r).
Proof.
  unfold wins, winner_of, paid_by_other. destruct (0 <? o_actual o); cbn; [|by rewrite bool_decide_true].
  destruct (winners db !! _) as [[w t]|]; [by rewrite negb_involutive|by rewrite bool_decide_true].
Qed.

Lemma inv_winners db w :
  (forall g v, winners db !! g = Some v -> w !! g = Some v) -> ledger_inv db -> ledger_inv (set_winners db w).
Proof.
  intros Hw [Ha Hr Hl Hn]. split; cbn; try done.
  - intros id a [? ? ? ? ?]%Ha. by split.
  - intros rid r [? ? ? ? Hwin]%Hr. split; try done. intros x H1 H2 H3. destruct (Hwin x H1 H2 H3). cbn. eauto.
Qed.

(** The close of a reservation passes the triggers. *)
Lemma close_guard r st eff c u b reference ts :
  reservation_guard r = true -> 0 <= c -> 0 <= u -> c + u = eff ->
  reservation_guard (close_reservation r st eff c u b reference ts) = true.
Proof.
  unfold reservation_guard. rewrite !andb_true_iff. cbn. intros [[_ Hp] _] Hc Hu <-.
  rewrite ?andb_false_r. repeat split; try lia; done.
Qed.

Lemma process_progress now db rid r o a usage :
  ledger_inv db -> reservations db !! rid = Some r -> is_open (r_state r) = true ->
  outbox db !! rid = Some o -> o_state o = Pending -> outbox_guard o = true ->
  parse_usage (o_usage_json o) = Ok usage ->
  money_ready db r a (effective_actual db rid r o) ->
  evidence_ready db rid r (if wins db rid r o then usage else None) ->
  exists b db', sqlite_process_settlement now db rid = Ok (Some b, db').
Proof.
  intros HI Hr Ho Hout Hpend Hg Hpu Hm Hev.
  assert (Ht : is_terminal (r_state r) = false) by by apply negb_true_iff.
  unfold sqlite_process_settlement. rewrite Hout. cbn. rewrite Hr. cbn. rewrite Ht, Hpend. cbn. rewrite Hpu. cbn.
  destruct (if 0 <? o_actual o then _ else _) as [db1 w] eqn:Hel.
  assert (Hw : w = winner_of db rid r o /\ ledger_inv db1
            /\ db1 = set_winners db (winners db1)).
  { unfold winner_of. destruct (0 <? o_actual o); [|injection Hel as <- <-; split; [done|]; split; [done|by destruct db]].
    pose proof (elect_winner_spec (now 0%nat) db (effective_group rid r) rid) as Hs.
    rewrite Hel in Hs. destruct Hs as (E & ? & _ & Hmono). split; [done|]. split; [|done].
    rewrite E. by apply inv_winners. }
  destruct Hw as (-> & HI1 & Edb1). fold (wins db rid r o). fold (effective_actual db rid r o).
  assert (Hr1 : reservations db1 !! rid = Some r) by by rewrite Edb1.
  assert (Hm1 : money_ready db1 r a (effective_actual db rid r o)).
  { rewrite Edb1. destruct Hm as [? ? ? ? ? ?]. by split. }
  assert (Hev1 : evidence_ready db1 rid r (if wins db rid r o then usage else None)) by by rewrite Edb1.
  destruct (settle_in_progress (now 1%nat) db1 rid r a _ (o_reference o) _ HI1 Hr1 Ho
              (effective_actual_nonneg db rid r o) Hm1 Hev1) as (pr & b & c & u & db2 & -> & E2).
  cbn. rewrite E2. cbn. apply settle_request_in_spec in E2 as (a' & res & Ha' & _ & Ham & _ & _).
  destruct (inv_reservations _ HI _ _ Hr) as [Hh _ [Hg1 Hg2] _ _].
  destruct (settle_amounts_spec _ _ _ _ _ _ (Z.le_max_r _ _) (Z.le_max_r _ _) Ham) as (Hc & Hu & Hcu & _).
  rewrite Z.max_l in Hcu by apply effective_actual_nonneg.
  unfold write_reservation. rewrite close_guard by done.
  change (reservation_check (close_reservation _ _ _ _ _ _ _ _)) with (reservation_check r). rewrite Hg2. cbn.
  unfold write_outbox. change (outbox_guard (outbox_done o _ _ _)) with (outbox_guard o). rewrite Hg. cbn. eauto.
Qed.

Lemma settle_progress now db rid r a actual reference usage :
  ledger_inv db -> reservations db !! rid = Some r -> is_open (r_state r) = true -> outbox db !! rid = None ->
  (forall v, usage = Some v -> 0 <= ue_charge_basis_nano v) ->
  let o := fresh_intent (now 0%nat) actual reference usage in
  money_ready db r a (effective_actual db rid r o) ->
  evidence_ready db rid r (if wins db rid r o then usage else None) ->
  exists b c u reserved db',
    sqlite_settle_request now db rid (r_account_id r) (r_key r) (r_hold r) actual reference usage = (Ok (Some b), db')
    /\ applied (set_outbox db (<[rid := o]> (outbox db))) db' rid r o a c u b reserved (now 3%nat).
Proof.
  intros HI Hr Ho Hout Hbasis o Hm Hev.
  set (dbe := set_outbox db (<[rid := o]> (outbox db))).
  assert (Hg : outbox_guard o = true).
  { unfold outbox_guard, o. cbn. destruct usage as [v|]; [|done]. cbn. specialize (Hbasis v eq_refl). lia. }
  assert (He : sqlite_enqueue_settlement (now 0%nat) db rid (r_account_id r) (r_key r) (r_hold r) actual reference usage DSettle
            = Ok (None, dbe)).
  { unfold sqlite_enqueue_settlement. rewrite Hr, Z.eqb_refl, (bool_decide_true (r_account_id r = _)), (bool_decide_true (r_key r = _)) by done.
    cbn. rewrite (bool_decide_false (r_state r = Settled)) by (by destruct (r_state r)). cbn. rewrite Hout.
    unfold write_outbox. fold (fresh_intent (now 0%nat) actual reference usage). fold o. by rewrite Hg. }
  destruct (process_progress (fun n => now (1 + n)%nat) dbe rid r o a usage) as (b & db' & Hp); try done.
  - frame_inv.
  - apply lookup_insert_eq.
  - destruct usage as [v|]; [|done]. cbn. by rewrite from_to_json.
  - destruct Hm. by split.
  - unfold sqlite_settle_request. rewrite He, Hp.
    apply process_spec in Hp as (o' & r' & Ho' & Hr' & _ & Hp). cbn in Ho', Hr'. rewrite lookup_insert_eq in Ho'.
    simplify_eq. unfold is_closed_or_done in Hp. unfold is_open in Ho. apply negb_true_iff in Ho. rewrite Ho in Hp. cbn in Hp.
    destruct Hp as (a' & c & u & bal & res & [= ->] & Hap).
    assert (a' = a) as ->. { pose proof (ap_account _ _ _ _ _ _ _ _ _ _ _ Hap). pose proof (mr_account _ _ _ _ Hm). cbn in *. congruence. }
    exists bal, c, u, res, db'. done.
Qed.

(** The reserved column of a ready account reads as the sum of its holds. *)
Lemma ready_reserved db db' rid r o a c u b reserved ts eff :
  ledger_inv db -> money_ready db r a eff -> applied db db' rid r o a c u b reserved ts ->
  reserved = open_holds db (r_account_id r).
Proof.
  intros HI [Ha Hh _ _ _ _] Hap. pose proof (ap_reserved _ _ _ _ _ _ _ _ _ _ _ Hap) as Hr.
  rewrite (ok_reserved _ _ _ (inv_accounts _ HI _ _ Ha)) in Hr. by apply get_to_sql in Hr as [-> _].
Qed.

(** C3: a settlement that can be applied is applied, exactly.  For an open
    reservation whose execution group is not yet paid by another attempt, the
    call succeeds; with no hold the account pays the full amount; with a hold it
    gets the hold back and pays down to the overdraft floor, and the rest is
    recorded as uncollected; the reservation is settled with matching evidence
    and exactly one charge row is appended (none for a zero amount). *)
Theorem settlement_exact (now : nat -> Z) (db : Db) (rid : string) (r : ReservationRow) (a : Account)
    (actual : Z) (reference : option string) (usage : option UsageEventInput) :
  rtc step empty_db db -> reservations db !! rid = Some r -> is_open (r_state r) = true ->
  outbox db !! rid = None -> paid_by_other db rid r = false -> 0 <= actual ->
  money_ready db r a actual -> evidence_ready db rid r usage ->
  let bal := ac_balance a in
  let collected := if r_hold r =? 0 then actual
    else Z.min (Z.max (bal + r_hold r - Z.min bal (- ACCOUNT_OVERDRAFT_NANO)) 0) actual in
  let balance := bal + r_hold r - collected in
  exists db' r',
    sqlite_settle_request now db rid (r_account_id r) (r_key r) (r_hold r) actual reference usage
      = (Ok (Some balance), db')
    /\ accounts db' !! r_account_id r = Some (settle_account a balance (ac_spent a + actual)
         (open_holds db (r_account_id r) - r_hold r) (ac_uncollected a + (actual - collected)))
    /\ reservations db' !! rid = Some r' /\ r_state r' = Settled /\ r_actual r' = Some actual
    /\ r_collected r' = Some collected /\ r_uncollected r' = Some (actual - collected)
    /\ charge_written db db' rid (r_account_id r) actual (actual - collected) balance.
Proof.
  intros HI%reachable_inv Hr Ho Hout Hpaid Hact Hm Hev bal collected balance.
  set (o := fresh_intent (now 0%nat) actual reference usage).
  assert (Hw : wins db rid r o = true) by by rewrite wins_spec, Hpaid, andb_false_r.
  assert (Heff : effective_actual db rid r o = actual).
  { unfold effective_actual. rewrite Hw. cbn. rewrite Z.max_l by lia. destruct (Z.ltb_spec 0 actual); cbn; lia. }
  destruct (settle_progress now db rid r a actual reference usage) as (b & c & u & res & db' & Hs & Hap); try done.
  { intros v Hv. by apply Hev. }
  { fold o. by rewrite Heff. }
  { fold o. by rewrite Hw. }
  fold o in Hap. set (dbe := set_outbox db _) in Hap.
  assert (HIe : ledger_inv dbe) by frame_inv.
  pose proof (ready_reserved dbe _ _ _ _ _ _ _ _ _ _ actual HIe ltac:(destruct Hm; by split) Hap) as ->.
  change (effective_actual dbe rid r o) with (effective_actual db rid r o) in *.
  destruct Hap as [_ _ Ham _ Eacc [Eres _] _ _ _ _ Hch].
  change (effective_actual dbe rid r o) with (effective_actual db rid r o) in *. rewrite Heff in *.
  destruct (inv_reservations _ HI _ _ Hr) as [Hh _ _ _ _]. rewrite Z.max_l in Ham, Eacc by lia.
  assert (Ecu : c = collected /\ u = actual - collected /\ b = balance).
  { destruct (settle_amounts_spec _ _ _ _ _ _ (proj1 Hh) Hact Ham) as (_ & _ & Hcu & Eb & _).
    assert (c = collected); [|lia].
    unfold settle_amounts, collected in *. destruct (r_hold r =? 0); inv_ok; done. }
  destruct Ecu as (-> & -> & ->). exists db'. eexists. split; [done|]. rewrite Eacc, Eres, !lookup_insert_eq.
  split; [done|]. split; [done|]. cbn. split; [|done].
  unfold final_state. change (wins dbe rid r o) with (wins db rid r o). by rewrite Hw.
Qed.

(** A losing attempt is never charged.  When another attempt of the execution
    group has been paid, settling this one with a positive amount succeeds,
    returns the whole hold to the balance, charges nothing, writes no ledger row
    and closes the reservation as canceled. *)
Theorem losing_attempt_released (now : nat -> Z) (db : Db) (rid : string) (r : ReservationRow) (a : Account)
    (actual : Z) (reference : option string) (usage : option UsageEventInput) :
  rtc step empty_db db -> reservations db !! rid = Some r -> is_open (r_state r) = true ->
  outbox db !! rid = None -> paid_by_other db rid r = true -> 0 < actual ->
  (forall v, usage = Some v -> 0 <= ue_charge_basis_nano v) ->
  money_ready db r a 0 -> evidence_ready db rid r None ->
  let balance := ac_balance a + r_hold r in
  exists db' r',
    sqlite_settle_request now db rid (r_account_id r) (r_key r) (r_hold r) actual reference usage
      = (Ok (Some balance), db')
    /\ accounts db' !! r_account_id r = Some (settle_account a balance (ac_spent a)
         (open_holds db (r_account_id r) - r_hold r) (ac_uncollected a))
    /\ reservations db' !! rid = Some r' /\ r_state r' = Canceled /\ r_actual r' = Some 0
    /\ ledger db' = ledger db /\ winners db' !! effective_group rid r = winners db !! effective_group rid r.
Proof.
  intros HI%reachable_inv Hr Ho Hout Hpaid Hact Hb Hm Hev balance.
  set (o := fresh_intent (now 0%nat) actual reference usage).
  assert (Hpos : (0 <? o_actual o) = true) by (cbn; lia).
  assert (Hw : wins db rid r o = false) by by rewrite wins_spec, Hpaid, Hpos.
  assert (Heff : effective_actual db rid r o = 0) by (unfold effective_actual; by rewrite Hw, andb_false_r).
  destruct (settle_progress now db rid r a actual reference usage) as (b & c & u & res & db' & Hs & Hap); try done.
  { fold o. by rewrite Heff. }
  { fold o. by rewrite Hw. }
  fold o in Hap. set (dbe := set_outbox db _) in Hap.
  assert (HIe : ledger_inv dbe) by frame_inv.
  pose proof (ready_reserved dbe _ _ _ _ _ _ _ _ _ _ 0 HIe ltac:(destruct Hm; by split) Hap) as ->.
  destruct Hap as [_ _ Ham _ Eacc [Eres _] Hmono _ _ _ Hch].
  change (effective_actual dbe rid r o) with (effective_actual db rid r o) in *. rewrite Heff in *.
  destruct (inv_reservations _ HI _ _ Hr) as [Hh _ _ _ _]. rewrite Z.max_l in Ham, Eacc by lia.
  destruct (settle_amounts_spec _ _ _ _ _ _ (proj1 Hh) ltac:(done) Ham) as (? & ? & Hcu & Eb & _).
  assert (c = 0) as -> by lia. assert (u = 0) as -> by lia. rewrite Z.sub_0_r in Eb. subst b.
  exists db'. eexists. split; [done|]. rewrite Eacc, Eres, !lookup_insert_eq.
  split; [by rewrite !Z.add_0_r|]. split; [done|]. cbn. split.
  { unfold final_state. change (wins dbe rid r o) with (wins db rid r o). by rewrite Hw. }
  split; [done|]. split; [done|]. unfold paid_by_other in Hpaid.
  destruct (winners db !! effective_group rid r) as [v|] eqn:Ev; [|done]. by apply Hmono.
Qed.
End Spec.
