(* ===== verification/Admission.v ===== *)
(** * Admission, top-ups, discounts and lease recovery

    Functional specifications of [account_topup], [reserve_request],
    [key_account] with [mult_for], and [recover_expired]. *)
From stdpp Require Import sorting.
From S2P Require Import Prelude Text LedgerDb Accounts Settlement LedgerInv Billing.

(** ** Top-ups *)
Lemma topup_row_money now id amount r b lid : money_row r (topup_row now id amount (Some r) b lid) = true.
Proof. unfold money_row, topup_row, money_kind. cbn. rewrite bool_decide_true by done. by destruct (0 <=? amount). Qed.
Lemma money_row_conflict now id amount r b lid x :
  same_money_ref (topup_row now id amount (Some r) b lid) x = money_row r x.
Proof.
  unfold same_money_ref, money_row, topup_row, money_kind. cbn.
  assert (Hk : is_money (if 0 <=? amount then TopUp else Adjust) = true) by by destruct (0 <=? amount).
  rewrite Hk. cbn. rewrite (bool_decide_ext (Some r = lr_ref x) (lr_ref x = Some r)) by done.
  destruct (is_money (lr_kind x)); cbn; done.
Qed.
Lemma find_money rows r : forallb (fun x => negb (money_row r x)) rows = true -> List.find (money_row r) rows = None.
Proof.
  induction rows as [|x rows IH]; cbn; [done|]. rewrite andb_true_iff. intros [Hx Hr].
  apply negb_true_iff in Hx. rewrite Hx. auto.
Qed.
Lemma find_app_None {A} (p : A -> bool) l k : List.find p l = None -> List.find p (l ++ k) = List.find p k.
Proof. induction l as [|x l IH]; cbn; [done|]. by destruct (p x). Qed.

Lemma topup_insert_refused now db accs id amount r b l :
  List.find (money_row r) (ledger db) = Some l ->
  ledger_insert (set_accounts db accs) (topup_row now id amount (Some r) b) = Err ConstraintViolation.
Proof.
  intros Hf. unfold ledger_insert. cbn.
  assert (Hn : forallb (fun x => negb (same_money_ref (topup_row now id amount (Some r) b (next_ledger_id db)) x)
     && negb (same_kind_request (topup_row now id amount (Some r) b (next_ledger_id db)) x)) (ledger db) = false).
  { apply not_true_iff_false. intros Hall. rewrite forallb_forall in Hall.
    apply find_some in Hf as [Hin Hm]. specialize (Hall _ Hin). rewrite money_row_conflict, Hm in Hall. done. }
  by rewrite Hn.
Qed.

(** After a successful referenced top-up the ledger holds exactly its row. *)
Lemma topup_stored now db id amount r b db1 :
  account_topup now db id amount (Some r) = Ok (Some b, db1) ->
  trim_is_empty r = false /\ is_Some (accounts db1 !! id) /\
  exists l, List.find (money_row r) (ledger db1) = Some l /\ lr_account_id l = id
    /\ lr_kind l = money_kind amount /\ lr_amount l = amount /\ lr_balance_after l = Some b.
Proof.
  unfold account_topup. cbn. intros H. inv_ok. match goal with H : negb _ = true |- _ => apply negb_true_iff in H as Ht end.
  split; [done|]. destruct (accounts db !! id) as [a|] eqn:Ha; inv_ok. db_shape.
  destruct (ledger_insert _ _) as [db2|e] eqn:Hins.
  - inv_ok. unfold ledger_insert in Hins. inv_ok. cbn in *. rewrite lookup_insert_eq. split; [by eexists|].
    match goal with H : forallb _ _ = true |- _ => rename H into Hall end.
    eexists. split.
    + rewrite find_app_None; [cbn; by rewrite topup_row_money|]. apply find_money.
      rewrite forallb_forall in *. intros x Hx. specialize (Hall x Hx). rewrite money_row_conflict in Hall.
      by apply andb_true_iff in Hall as [-> _].
    + done.
  - destruct (List.find _ _) as [l|] eqn:Hf; [|done]. destruct (lr_balance_after l) eqn:Hb; [|done].
    case_match; [|done]. inv_ok. rewrite !andb_true_iff in *.
    match goal with H : (_ /\ _) /\ _ |- _ => destruct H as [[?%bool_decide_eq_true ?%bool_decide_eq_true] ?] end.
    split; [by eexists|]. exists l. repeat split; try done. lia.
Qed.

Section Admission.
Context {JC : UsageCodec}.

(** Top-ups are idempotent in their reference.  After a top-up with a
    reference has succeeded, repeating it (as long as the trial update fits the
    balance column) returns the balance of the first application and changes
    nothing, and using the reference for another account or amount is refused as
    a conflict and changes nothing. *)
Theorem topup_idempotent (now now' : Z) (db db1 : Db) (id id' : string) (amount amount' : Z) (r : string)
    (b : Z) (a' : Account) :
  rtc step empty_db db ->
  account_topup now db id amount (Some r) = Ok (Some b, db1) ->
  accounts db1 !! id' = Some a' -> is_i64 (ac_balance a' + amount') ->
  account_topup now' db1 id' amount' (Some r) =
    if bool_decide (id' = id) && (amount' =? amount) then Ok (Some b, db1) else Err IdempotencyConflict.
Proof.
  intros Hr Ht Ha' Hi. assert (HI1 : ledger_inv db1).
  { eapply account_topup_inv; [by eapply reachable_inv|done]. }
  apply topup_stored in Ht as (Htr & _ & l & Hf & El & Ek & Eam & Eb).
  unfold account_topup. cbn. rewrite Htr. cbn. rewrite Ha', to_sql_id by done. cbn.
  unfold update_account, account_guard. cbn. destruct (inv_accounts _ HI1 _ _ Ha') as [_ _ [Hu _] _ _].
  destruct (Z.leb_spec 0 (ac_uncollected a')); [|lia]. cbn.
  rewrite (topup_insert_refused _ _ _ _ _ _ _ l) by done. rewrite Hf, Eb, El, Ek, Eam.
  destruct (Z.eqb_spec amount' amount) as [->|Hne].
  - rewrite Z.eqb_refl, (bool_decide_true (money_kind amount = _)) by done. rewrite !andb_true_r.
    repeat case_bool_decide; congruence.
  - rewrite (proj2 (Z.eqb_neq amount amount')) by congruence. by rewrite !andb_false_r.
Qed.

(** ** Admission *)
Definition admitted (sql_now : Z) (db : Db) (id key : string) (hold : Z) (pricing : option ReservationPricing)
    (a : Account) (k : ApiKey) : Prop :=
  accounts db !! id = Some a /\ api_keys db !! key = Some k /\ ac_status a = "active"
  /\ k_account_id k = id /\ k_status k = "active"
  /\ (forall e, k_expires_ts k = Some e -> sql_now < e)
  /\ (forall lim, k_spend_limit k = Some lim -> exists kr, k_reserved k = SqlInt kr /\ k_spent k + hold + kr <= lim)
  /\ (if hold =? 0 then paid_admission_requires_positive_balance (pr_multiplier <$> pricing) = true -> 0 < ac_balance a
      else hold - ACCOUNT_OVERDRAFT_NANO <= ac_balance a).

Lemma key_admits_spec sql_now id hold k :
  key_admits sql_now id hold k = true <->
  k_account_id k = id /\ k_status k = "active"
  /\ (forall e, k_expires_ts k = Some e -> sql_now < e)
  /\ (forall lim, k_spend_limit k = Some lim -> exists kr, k_reserved k = SqlInt kr /\ k_spent k + hold + kr <= lim).
Proof.
  unfold key_admits. rewrite !andb_true_iff, !bool_decide_eq_true.
  assert (He : opt_all (fun e => sql_now <? e) (k_expires_ts k) = true <-> (forall e, k_expires_ts k = Some e -> sql_now < e)).
  { destruct (k_expires_ts k) as [e|]; cbn; [|naive_solver]. rewrite Z.ltb_lt. naive_solver. }
  assert (Hl : opt_all (sql_within (k_spent k + hold) (k_reserved k)) (k_spend_limit k) = true <->
     (forall lim, k_spend_limit k = Some lim -> exists kr, k_reserved k = SqlInt kr /\ k_spent k + hold + kr <= lim)).
  { destruct (k_spend_limit k) as [lim|]; cbn; [|naive_solver]. destruct (k_reserved k); cbn; [rewrite Z.leb_le|]; naive_solver. }
  rewrite He, Hl. tauto.
Qed.

Definition gate (sql_now : Z) (id : string) (hold : Z) (a : Account) (k : ApiKey) : Prop :=
  ac_status a = "active" /\ key_admits sql_now id hold k = true
  /\ (0 < hold -> hold - ACCOUNT_OVERDRAFT_NANO <= ac_balance a).

Ltac refused := right; split; [done|]; intros ? ? ? ? (? & ? & ?); simplify_eq; congruence.

Lemma reserve_for_key_exact sql_now db id key hold :
  ledger_inv db -> 0 <= hold <= i64_max ->
  (exists a k db', accounts db !! id = Some a /\ api_keys db !! key = Some k /\ gate sql_now id hold a k
     /\ account_reserve_for_key sql_now db id key hold = Ok (Some (ac_balance a - hold), db')
     /\ reservations db' = reservations db)
  \/ (account_reserve_for_key sql_now db id key hold = Ok (None, db)
      /\ forall a k, accounts db !! id = Some a -> api_keys db !! key = Some k -> ~ gate sql_now id hold a k).
Proof.
  intros HI Hh. unfold account_reserve_for_key, gate. rewrite Z.max_l by lia.
  destruct (accounts db !! id) as [a|] eqn:Ha; [|refused].
  case_bool_decide as Hst; cbn; [|refused].
  destruct (Z.eqb_spec hold 0) as [->|Hn].
  - destruct (api_keys db !! key) as [k|] eqn:Hk; [|refused].
    destruct (key_admits sql_now id 0 k) eqn:Hadm; [left|refused].
    exists a, k, db. rewrite Z.sub_0_r. repeat split; done || lia.
  - destruct (Z.leb_spec (hold - ACCOUNT_OVERDRAFT_NANO) (ac_balance a)) as [Hfl|Hfl]; cbn.
    2: { right. split; [done|]. intros a' k [= <-] _ (_ & _ & H). specialize (H ltac:(lia)). lia. }
    destruct (inv_accounts _ HI _ _ Ha) as [Bb _ Bu _ _]. unfold update_account, account_guard. cbn.
    destruct (Z.leb_spec 0 (ac_uncollected a)); [|lia]. cbn.
    rewrite to_sql_id by (unfold ACCOUNT_OVERDRAFT_NANO in *; width_lia). cbn.
    destruct (api_keys db !! key) as [k|] eqn:Hk; [|refused].
    destruct (key_admits sql_now id hold k) eqn:Hadm; [left|refused].
    exists a, k. eexists. done.
Qed.

Lemma admitted_gate sql_now db id key hold pricing a k :
  0 <= hold ->
  admitted sql_now db id key hold pricing a k <->
  accounts db !! id = Some a /\ api_keys db !! key = Some k /\ gate sql_now id hold a k
  /\ (hold = 0 -> paid_admission_requires_positive_balance (pr_multiplier <$> pricing) = true -> 0 < ac_balance a).
Proof.
  intros Hh. unfold admitted, gate. rewrite key_admits_spec.
  destruct (Z.eqb_spec hold 0); [|assert (0 < hold) by lia]; intuition lia.
Qed.

(** The inserted row satisfies the triggers and CHECK constraints. *)
Lemma new_reservation_written d rid id key hold g n bal pricing until ts :
  0 < n -> g <> Some "" ->
  (forall p, pricing = Some p -> ensure_valid_provider_discount (pr_provider p) (pr_multiplier p) = Ok ()) ->
  let r := mkReservation id key hold g n Reserved bal None None None (pr_provider <$> pricing)
             (pr_multiplier <$> pricing) None None until ts ts None in
  write_reservation d rid r = Ok (LedgerDb.set_reservations d (<[rid := r]> (reservations d))).
Proof.
  intros Hn Hg Hpr. unfold write_reservation, reservation_guard, reservation_check. cbn.
  destruct (Z.ltb_spec 0 n); [|lia].
  assert (Hg' : opt_all (fun g => negb (bool_decide (g = ""))) g = true).
  { destruct g as [g|]; [|done]. cbn. by rewrite bool_decide_false by congruence. }
  rewrite Hg'. destruct pricing as [p|]; cbn; [|done].
  specialize (Hpr p eq_refl). unfold ensure_valid_provider_discount in Hpr. inv_ok. unfold in_bp. rewrite Hpr.
  match goal with H : bool_decide _ = true |- _ => by rewrite H end.
Qed.

(** C4: admission is exact.  For a new request with well-formed parameters, a
    reservation is granted if and only if the account and the key are active, the
    key belongs to the account, is not expired and stays within its spending
    limit, and the money gate passes (a positive balance for paid work without a
    hold, the overdraft floor with one).  A grant stores one open reservation
    with the post-reserve balance and the saturated lease; a refusal changes
    nothing; there is no third outcome. *)
Theorem admission_exact (now : nat -> Z) (db : Db) (rid id key : string) (hold lease : Z)
    (ex : ExecutionAttempt) (pricing : option ReservationPricing) :
  rtc step empty_db db -> reservations db !! rid = None ->
  trim_is_empty rid = false -> trim_is_empty id = false -> trim_is_empty key = false ->
  0 <= hold <= i64_max -> 0 < lease -> 0 < ex_attempt ex -> ex_group_id ex <> Some "" ->
  (forall p, pricing = Some p -> ensure_valid_provider_discount (pr_provider p) (pr_multiplier p) = Ok ()) ->
  exists ob db', reserve_request now db rid id key hold lease ex pricing = Ok (ob, db')
    /\ match ob with
       | None => db' = db /\ ~ exists a k, admitted (now 0%nat) db id key hold pricing a k
       | Some b => exists a k r, admitted (now 0%nat) db id key hold pricing a k
           /\ b = ac_balance a - hold /\ reservations db' = <[rid := r]> (reservations db)
           /\ r_state r = Reserved /\ r_hold r = hold /\ r_account_id r = id /\ r_key r = key
           /\ r_balance_after_reserve r = b /\ r_lease_until r = sat_i64 (now 1%nat + lease)
       end.
Proof.
  intros HI%reachable_inv Hrid T1 T2 T3 Hh Hl Hat Hgr Hpr. unfold reserve_request. rewrite T1, T2, T3, Hrid.
  destruct (Z.ltb_spec hold 0); [lia|]. destruct (Z.leb_spec lease 0); [lia|]. cbn.
  destruct (reserve_for_key_exact (now 0%nat) db id key hold HI Hh)
    as [(a & k & db1 & Ha & Hk & Hgate & -> & Er)|[-> Hno]]; cbn.
  2: { eexists _, _. split; [done|]. split; [done|]. intros (a & k & (Ha & Hk & Hg & _)%admitted_gate); [|lia].
       by eapply Hno. }
  destruct ((hold =? 0) && paid_admission_requires_positive_balance (pr_multiplier <$> pricing)
            && (ac_balance a - hold <=? 0)) eqn:Hgate0.
  - eexists _, _. split; [done|]. split; [done|]. intros (a' & k' & (Ha' & _ & _ & Hp)%admitted_gate); [|lia].
    rewrite !andb_true_iff in Hgate0. destruct Hgate0 as [[? Hpaid] ?]. assert (a' = a) as -> by congruence.
    specialize (Hp ltac:(lia) Hpaid). lia.
  - rewrite new_reservation_written by done. cbn. eexists _, _. split; [done|]. cbn.
    exists a, k. eexists. split; [|by rewrite Er].
    apply admitted_gate; [lia|]. split; [done|]. split; [done|]. split; [done|]. intros -> Hp.
    rewrite Hp in Hgate0. cbn in Hgate0. lia.
Qed.

(** ** Provider discounts *)
Lemma discounts_elem db id p m :
  (p, m) ∈ account_provider_discounts db id <-> exists t, discounts db !! (id, p) = Some (m, t).
Proof.
  unfold account_provider_discounts. rewrite merge_sort_Permutation, list_elem_of_omap. split.
  - intros ([[a q] [m' t]] & Hin & H). apply elem_of_map_to_list in Hin. case_bool_decide; simplify_eq. eauto.
  - intros (t & Ht). exists ((id, p), (m, t)). split; [by apply elem_of_map_to_list|]. by rewrite bool_decide_true.
Qed.

(** The price of a request is the account's override for the serving provider
    when there is one and the account default otherwise, read in the same
    snapshot as the key and the account. *)
Theorem mult_for_exact (db : Db) (key : string) (ka : KeyAuth) (provider : string) :
  key_account db key = Ok (Some ka) ->
  exists k a, api_keys db !! key = Some k /\ accounts db !! k_account_id k = Some a
    /\ ka_account_id ka = k_account_id k
    /\ mult_for ka provider = match discounts db !! (k_account_id k, provider) with
                              | Some (m, _) => m | None => ac_mult_bp a end
    /\ forall ts, active_at ka ts = true <->
         k_status k = "active" /\ ac_status a = "active" /\ (forall e, k_expires_ts k = Some e -> ts < e).
Proof.
  unfold key_account. intros H. destruct (api_keys db !! key) as [k|] eqn:Hk; [|done].
  destruct (accounts db !! k_account_id k) as [a|] eqn:Ha; [|done]. inv_ok. exists k, a.
  repeat (split; [done|]). cbn. split.
  - unfold mult_for. cbn. destruct (List.find _ _) as [[q m]|] eqn:Hf.
    + apply find_some in Hf as [Hin%list_elem_of_In E%bool_decide_eq_true]. cbn in E. subst q.
      apply discounts_elem in Hin as (t & ->). done.
    + destruct (discounts db !! (k_account_id k, provider)) as [[m t]|] eqn:Hd; [|done]. exfalso.
      assert (Hin : (provider, m) ∈ account_provider_discounts db (k_account_id k)) by (apply discounts_elem; eauto).
      apply list_elem_of_In in Hin. eapply find_none in Hin; [|exact Hf]. cbn in Hin. by rewrite bool_decide_true in Hin.
  - intros ts. unfold active_at. cbn. rewrite !andb_true_iff, !bool_decide_eq_true.
    destruct (k_expires_ts k) as [e|]; cbn; [rewrite Z.ltb_lt|]; naive_solver.
Qed.

(** ** Lease recovery *)
Definition not_charged (db db' : Db) : Prop :=
  forall id a, accounts db !! id = Some a -> exists a', accounts db' !! id = Some a'
    /\ ac_spent a' = ac_spent a /\ ac_uncollected a' = ac_uncollected a /\ ac_balance a <= ac_balance a'.
#[local] Instance not_charged_preorder : PreOrder not_charged.
Proof.
  split; [intros db id a Ha; exists a; repeat split; done|].
  intros x y z H1 H2 id a (b & Hb & E1 & E2 & E3)%H1. apply H2 in Hb as (c & Hc & F1 & F2 & F3).
  exists c. repeat split; try done; try congruence; lia.
Qed.
Lemma not_charged_same db db' : accounts db' = accounts db -> not_charged db db'.
Proof. intros E id a Ha. rewrite E. exists a. repeat split; done. Qed.

Lemma zero_intent_not_charged now db rid o b db' :
  ledger_inv db -> outbox db !! rid = Some o -> o_actual o = 0 ->
  sqlite_process_settlement now db rid = Ok (b, db') -> not_charged db db'.
Proof.
  intros HI Ho E0 (o' & r & Ho' & Hr & _ & H)%process_spec. assert (o' = o) as -> by congruence.
  destruct (is_closed_or_done r o).
  - destruct H as (_ & _ & ->). by apply not_charged_same.
  - destruct H as (a & c & u & bal & res & _ & [Ha _ Ham _ Eacc _ _ _ _ _ _]).
    assert (Heff : effective_actual db rid r o = 0) by (unfold effective_actual; by rewrite E0). rewrite Heff in *.
    apply settle_amounts_spec in Ham as (Hc & Hu & Hcu & Eb & _); [|lia..].
    intros id x Hx. rewrite Eacc. destruct (decide (id = r_account_id r)) as [->|Hne].
    + rewrite lookup_insert_eq. eexists. split; [done|]. cbn. simplify_eq. lia.
    + rewrite lookup_insert_ne by done. exists x. repeat split; done.
Qed.

Lemma recover_one_not_charged now db rid id key hold reference disp res db' :
  ledger_inv db ->
  enqueue_and_process now db rid id key hold 0 reference None disp = (res, db') -> not_charged db db'.
Proof.
  intros HI. unfold enqueue_and_process.
  destruct (sqlite_enqueue_settlement _ _ _ _ _ _ _ _ _ _) as [[b1 db1]|e] eqn:E; [|by intros [= _ <-]].
  assert (HI1 : ledger_inv db1) by by eapply enqueue_inv.
  assert (Hacc : not_charged db db1) by (apply enqueue_shape in E as [_ ->]; by apply not_charged_same).
  assert (Ho : exists o, outbox db1 !! rid = Some o /\ o_actual o = 0).
  { unfold sqlite_enqueue_settlement in E. case_match; [|done]. inv_ok. case_match; inv_ok.
    - rewrite !andb_true_iff in *. match goal with H : ((((_ =? _) = true /\ _) /\ _) /\ _) /\ _ |- _ =>
        destruct H as [[[[H%Z.eqb_eq _] _] _] _] end. eauto.
    - db_shape. cbn. rewrite lookup_insert_eq. eauto. }
  destruct Ho as (o & Ho & E0). destruct b1 as [b|]; [by intros [= _ <-]|].
  destruct (sqlite_process_settlement _ _ _) as [[? db2]|] eqn:Ep; intros [= _ <-]; [|done].
  etrans; [done|]. by eapply zero_intent_not_charged.
Qed.

(** Lease recovery never charges a customer for unknown usage unless it is
    configured to.  With [charge_hold_on_unknown_usage] off, closing any list of
    expired leases leaves the spending of every account as it was and never
    lowers a balance (it returns holds), whichever of the closings fail. *)
Theorem recovery_never_charges (now : nat -> Z) (db db' : Db) (rows : list (string * ReservationRow))
    (rep rep' : ReconcileReport) :
  rtc step empty_db db -> recover_expired now db false rows rep = (rep', db') -> not_charged db db'.
Proof.
  intros HI%reachable_inv. revert now db rep HI. induction rows as [|[rid r] rows IH]; cbn; intros now db rep HI.
  { by intros [= _ <-]. }
  rewrite andb_false_r.
  destruct (enqueue_and_process _ _ _ _ _ _ _ _ _ _) as [res db1] eqn:E. intros H.
  etrans; [by eapply recover_one_not_charged|].
  eapply IH; [|exact H]. by eapply enqueue_and_process_inv.
Qed.
End Admission.
