(* ===== verification/LedgerDemo.v ===== *)
(** * A concrete billing run

    A small database driven through the public operations, with a concrete codec
    for the stored usage.  The lemmas instantiate the general theorems of
    [Billing], [SettleSpec] and [Admission] on it. *)
From stdpp Require Import sorting.
From S2P Require Import Prelude Text LedgerDb Accounts Settlement LedgerInv Billing SettleSpec Admission.

(** ** A codec: the usage record as a bit string *)
Definition usage_tuple (u : UsageEventInput) :=
  (ue_model u, ue_provider u, ue_input_tokens u, ue_output_tokens u, ue_cache_read_tokens u,
   ue_cache_write_5m_tokens u, ue_cache_write_1h_tokens u, ue_web_search_requests u, ue_real_nano u,
   ue_charge_basis_nano u, ue_speed u, ue_inference_geo u, ue_input_nano u, ue_output_nano u,
   ue_cache_read_nano u, ue_cache_write_5m_nano u, ue_cache_write_1h_nano u, ue_web_search_nano u, ue_priced_ts u).
Definition tuple_usage t : UsageEventInput :=
  let '(a, b, c, d, e, f, g, h, i, j, k, l, m, n, o, p, q, r, s) := t in
  mkUsage a b c d e f g h i j k l m n o p q r s.
#[global] Instance UsageEventInput_countable : Countable UsageEventInput.
Proof. refine (inj_countable' usage_tuple tuple_usage _). by intros []. Defined.
Definition bit0 : Ascii.ascii := Ascii.ascii_of_nat 48.
Definition bit1 : Ascii.ascii := Ascii.ascii_of_nat 49.
Fixpoint pos_bits (p : positive) : string :=
  match p with
  | xH => ""
  | xO p => String bit0 (pos_bits p)
  | xI p => String bit1 (pos_bits p)
  end.
Fixpoint bits_pos (s : string) : positive :=
  match s with
  | EmptyString => xH
  | String c s => if Ascii.eqb c bit1 then xI (bits_pos s) else xO (bits_pos s)
  end.
Lemma bits_pos_bits p : bits_pos (pos_bits p) = p.
Proof. induction p as [p IH|p IH|]; [change (xI (bits_pos (pos_bits p)) = xI p)|change (xO (bits_pos (pos_bits p)) = xO p)|done]; by rewrite IH. Qed.
Lemma bits_round_trip (u : UsageEventInput) : decode (bits_pos (pos_bits (encode u))) = Some u.
Proof. rewrite bits_pos_bits. apply decode_encode. Qed.
#[global] Instance bit_codec : UsageCodec :=
  Build_UsageCodec (fun u => pos_bits (encode u)) (fun s => decode (bits_pos s)) bits_round_trip.

(** ** The run: one account, one key, two attempts of one execution group *)
Definition db_of {E} (m : result E Db) : Db := match m with Ok d => d | Err _ => empty_db end.
Definition db_of2 {E A} (m : result E (A * Db)) : Db := match m with Ok (_, d) => d | Err _ => empty_db end.
Definition clock (n : nat) : Z := 100 + Z.of_nat n.
Definition demo_group : string := "0123abcd-4567-4abc-8def-0123456789ab".
Definition demo_attempt (n : Z) : ExecutionAttempt := mkAttempt (Some demo_group) n.

Definition d1 : Db := db_of (account_create 1 empty_db "a" None 10000).
Definition d2 : Db := db_of2 (account_topup 2 d1 "a" 5000 (Some "t")).
Definition d3 : Db := db_of (key_issue 3 "kid" d2 "k" "a" None).
Definition d4 : Db := db_of2 (reserve_request clock d3 "r1" "a" "k" 1000 60 (demo_attempt 1) None).
Definition d5 : Db := db_of2 (reserve_request clock d4 "r2" "a" "k" 500 60 (demo_attempt 2) None).
Definition d6 : Db := snd (sqlite_settle_request clock d5 "r1" "a" "k" 1000 700 None None).

Example group_is_canonical : is_canonical_uuid_v4 demo_group = true.
Proof. reflexivity. Qed.

Lemma d5_reachable : rtc step empty_db d5.
Proof.
  eapply rtc_l; [eapply (st_account_create 1 _ "a" None 10000 d1); vm_compute; reflexivity|].
  eapply rtc_l; [eapply (st_account_topup 2 _ "a" 5000 (Some "t") _ d2); vm_compute; reflexivity|].
  eapply rtc_l; [eapply (st_key_issue 3 "kid" _ "k" "a" None None None d3); vm_compute; reflexivity|].
  eapply rtc_l; [eapply (st_reserve clock _ "r1" "a" "k" 1000 60 (demo_attempt 1) None _ d4);
    [width_lia|vm_compute; reflexivity]|].
  eapply rtc_once. eapply (st_reserve clock _ "r2" "a" "k" 500 60 (demo_attempt 2) None _ d5);
    [width_lia|vm_compute; reflexivity].
Qed.
Lemma d6_reachable : rtc step empty_db d6.
Proof.
  eapply rtc_r; [apply d5_reachable|].
  eapply (st_settle clock _ "r1" "a" "k" 1000 700 None None _ d6). vm_compute. reflexivity.
Qed.

(** ** Instances of the general theorems *)
Definition acct_of (db : Db) : Account :=
  default (mkAccount None 0 0 SqlReal 0 0 "" 0) (accounts db !! "a").
Definition res_of (db : Db) (rid : string) : ReservationRow :=
  default (mkReservation "" "" 0 None 0 Reserved 0 None None None None None None None 0 0 0 None)
    (reservations db !! rid).

Definition key_of (db : Db) : ApiKey :=
  default (mkKey "" "" None 0 SqlReal None None "" 0) (api_keys db !! "k").

Lemma ledger_conservation_witness :
  accounts d6 !! "a" = Some (acct_of d6)
  /\ ac_balance (acct_of d6) + open_holds d6 "a" + ac_spent (acct_of d6) - ac_uncollected (acct_of d6) = credits d6 "a".
Proof.
  split; [vm_compute; reflexivity|].
  exact (proj1 (ledger_conservation d6 "a" (acct_of d6) d6_reachable eq_refl)).
Defined.

Definition d7 : Db := snd (sqlite_settle_request clock d6 "r2" "a" "k" 500 900 None None).
Lemma d7_reachable : rtc step empty_db d7.
Proof.
  eapply rtc_r; [apply d6_reachable|].
  eapply (st_settle clock _ "r2" "a" "k" 500 900 None None _ d7). vm_compute. reflexivity.
Qed.

Lemma d6_paid : paid d6 demo_group "r1".
Proof.
  exists (res_of d6 "r1"), 700. do 2 (split; [vm_compute; reflexivity|]).
  do 2 (split; [vm_compute; reflexivity|]). reflexivity.
Qed.
Lemma single_paid_attempt_witness : paid d6 demo_group "r1" /\ ~ paid d7 demo_group "r2".
Proof.
  split; [exact d6_paid|]. intros H.
  assert (E : "r2" = "r1"); [|discriminate E].
  apply (single_paid_attempt d6 d7 demo_group "r1" "r2" d6_reachable d6_paid); [|exact H].
  apply rtc_once. split.
  - eapply (st_settle clock _ "r2" "a" "k" 500 900 None None _ d7). vm_compute. reflexivity.
  - exists "r2", (res_of d7 "r2"). split; vm_compute; reflexivity.
Defined.

(** Retention forgets a whole group at once: after the last of its requests is
    pruned, a late attempt under the same group is a new group and is paid. *)
Example pruned_group_pays_again :
  let d8 := match sqlite_maintenance_prune 3000000 d7 300000 with Ok (_, _, d) => d | Err _ => empty_db end in
  let d9 := db_of2 (reserve_request clock d8 "r3" "a" "k" 100 60 (demo_attempt 3) None) in
  let d10 := snd (sqlite_settle_request clock d9 "r3" "a" "k" 100 50 None None) in
  d8 <> empty_db /\ reservations d8 = ∅ /\ winners d8 = ∅ /\ paid d10 demo_group "r3".
Proof.
  cbv zeta. split.
  { intros E. apply (f_equal (fun d => bool_decide (accounts d = ∅))) in E. vm_compute in E. discriminate E. }
  do 2 (split; [vm_compute; reflexivity|]).
  eexists _, 50. do 4 (split; [vm_compute; reflexivity|]). reflexivity.
Qed.

Lemma terminal_is_final_witness :
  reservations d7 !! "r1" = Some (res_of d6 "r1") \/ (reservations d7 !! "r1" = None /\ outbox d7 !! "r1" = None).
Proof.
  apply (terminal_is_final d6 d7 "r1" (res_of d6 "r1"));
    [eapply (st_settle clock _ "r2" "a" "k" 500 900 None None _ d7)|..]; vm_compute; reflexivity.
Defined.

Lemma settle_idempotent_witness :
  exists db2, sqlite_settle_request (fun n => 500 + clock n) d6 "r1" "a" "k" 1000 700 None None = (Ok (Some 3800), db2)
    /\ db2 = set_outbox d6 (outbox db2).
Proof.
  apply (settle_idempotent clock (fun n => 500 + clock n) d5 d6 "r1" "a" "k" 1000 700 None None (Some 3800) d5_reachable).
  vm_compute. reflexivity.
Defined.

Lemma d5_money : money_ready d5 (res_of d5 "r1") (acct_of d5) 700.
Proof.
  split; [vm_compute; reflexivity|vm_compute; discriminate..| |vm_compute; discriminate|].
  { intros H. vm_compute in H. discriminate H. }
  intros k Hk. assert (E : api_keys d5 !! "k" = Some (key_of d5)) by (vm_compute; reflexivity).
  change (r_key _) with "k" in Hk. rewrite E in Hk. injection Hk as <-. split; [vm_compute; reflexivity|].
  split; [split; vm_compute; discriminate|]. exists 1500. split; [vm_compute; reflexivity|vm_compute; discriminate].
Qed.
Lemma d5_evidence : evidence_ready d5 "r1" (res_of d5 "r1") None.
Proof.
  split; [|split; [|done]].
  - intros l Hl. assert (E : ledger d5 = [topup_row 2 "a" 5000 (Some "t") 5000 1]) by (vm_compute; reflexivity).
    rewrite E in Hl. apply list_elem_of_singleton in Hl as ->. intros [H _]. discriminate H.
  - intros x Hx. assert (E : usage_events d5 = []) by (vm_compute; reflexivity). rewrite E in Hx. by apply elem_of_nil in Hx.
Qed.

Lemma settlement_exact_witness :
  exists db', sqlite_settle_request clock d5 "r1" "a" "k" 1000 700 None None = (Ok (Some 3800), db').
Proof.
  destruct (settlement_exact clock d5 "r1" (res_of d5 "r1") (acct_of d5) 700 None None d5_reachable)
    as (db' & r' & H & _); [vm_compute; reflexivity..|vm_compute; discriminate|apply d5_money|apply d5_evidence|].
  exists db'. exact H.
Defined.

Lemma d6_money : money_ready d6 (res_of d6 "r2") (acct_of d6) 0.
Proof.
  split; [vm_compute; reflexivity|vm_compute; discriminate..| |vm_compute; discriminate|].
  { intros H. vm_compute in H. discriminate H. }
  intros k Hk. assert (E : api_keys d6 !! "k" = Some (key_of d6)) by (vm_compute; reflexivity).
  change (r_key _) with "k" in Hk. rewrite E in Hk. injection Hk as <-. split; [vm_compute; reflexivity|].
  split; [split; vm_compute; discriminate|]. exists 500. split; [vm_compute; reflexivity|vm_compute; discriminate].
Qed.
Lemma losing_attempt_released_witness :
  exists db', sqlite_settle_request clock d6 "r2" "a" "k" 500 900 None None = (Ok (Some 4300), db').
Proof.
  destruct (losing_attempt_released clock d6 "r2" (res_of d6 "r2") (acct_of d6) 900 None None d6_reachable)
    as (db' & r' & H & _); [vm_compute; reflexivity..|intros v Hv; discriminate Hv|apply d6_money| |].
  - split; [|split; [|discriminate]].
    + intros l Hl [_ E]. assert (Ea : map lr_request_id (ledger d6) = [None; Some "r1"]) by (vm_compute; reflexivity).
      assert (Hin : lr_request_id l ∈ map lr_request_id (ledger d6)) by (apply list_elem_of_fmap; eauto).
      rewrite Ea, E in Hin. revert Hin. rewrite !elem_of_cons, elem_of_nil. intuition discriminate.
    + intros x Hx. assert (E : usage_events d6 = []) by (vm_compute; reflexivity). rewrite E in Hx. by apply elem_of_nil in Hx.
  - exists db'. exact H.
Defined.

Lemma topup_idempotent_witness : account_topup 9 d2 "a" 5000 (Some "t") = Ok (Some 5000, d2).
Proof.
  refine (eq_trans (topup_idempotent 2 9 d1 d2 "a" "a" 5000 5000 "t" 5000 (acct_of d2) _ _ _ _) _);
    try (vm_compute; reflexivity); [|vm_compute; intuition discriminate].
  eapply rtc_once, (st_account_create 1 _ "a" None 10000 d1). vm_compute. reflexivity.
Defined.

Lemma admission_exact_witness :
  exists ob db', reserve_request clock d5 "r3" "a" "k" 0 60 (demo_attempt 3) None = Ok (ob, db').
Proof.
  destruct (admission_exact clock d5 "r3" "a" "k" 0 60 (demo_attempt 3) None d5_reachable)
    as (ob & db' & H & _); try (vm_compute; reflexivity); try (vm_compute; intuition discriminate); try discriminate.
  eauto.
Defined.

Lemma mult_for_exact_witness :
  exists ka, key_account d5 "k" = Ok (Some ka) /\ exists k a, api_keys d5 !! "k" = Some k
    /\ accounts d5 !! k_account_id k = Some a /\ mult_for ka "kimi" = ac_mult_bp a.
Proof.
  eexists. split; [vm_compute; reflexivity|].
  match goal with |- exists k a, _ /\ _ /\ mult_for ?ka _ = _ =>
    destruct (mult_for_exact d5 "k" ka "kimi") as (k & a & Hk & Ha & _ & E & _); [vm_compute; reflexivity|] end.
  exists k, a. split; [exact Hk|]. split; [exact Ha|]. rewrite E.
  vm_compute in Hk. injection Hk as <-. vm_compute in Ha. injection Ha as <-. vm_compute. reflexivity.
Defined.

Lemma recovery_never_charges_witness :
  not_charged d5 (snd (recover_expired clock d5 false [("r1", res_of d5 "r1")] (mkReport 0 0 0))).
Proof.
  apply (recovery_never_charges clock d5 _ [("r1", res_of d5 "r1")] (mkReport 0 0 0)
           (fst (recover_expired clock d5 false [("r1", res_of d5 "r1")] (mkReport 0 0 0))) d5_reachable).
  vm_compute. reflexivity.
Defined.

(** A key that is deleted and issued again under an open hold starts from a zero
    reservation: the settlement of the old hold is then refused. *)
Example reissued_key_strands_hold :
  let db := db_of (key_issue 9 "kid2" (key_remove d5 "k").2 "k" "a" None) in
  (sqlite_settle_request clock db "r1" "a" "k" 1000 700 None None).1 = Err KeyAggregate.
Proof. vm_compute. reflexivity. Qed.
