(* ===== verification/Tariffs.v ===== *)
(** * Anthropic tariffs and costs ([crates/metering/src/lib.rs])

    Prices are whole nanodollars per token.  The arithmetic of the code is [i128]
    (wrapping in the release build); it is written with its wrap-around and shown
    to be exact for all 64-bit token counts. *)
From S2P Require Import Prelude Text.

Definition NANO_PER_USD : Z := 1000000000.
Definition WEB_SEARCH_NANO : Z := 10000000.
Definition OVERDRAFT_NANO : Z := 1000000000.

Inductive TariffIdentityError : Type :=
| InvalidPricedTimestamp | UnsupportedModelIdentity | UnsupportedModifier.

(** ** Usage *)
Record Usage := mkUsage {
  input_tokens : Z;
  output_tokens : Z;
  cache_read_tokens : Z;
  cache_write_5m_tokens : Z;
  cache_write_1h_tokens : Z;
  web_search_requests : Z
}.
Definition Usage_default : Usage := mkUsage 0 0 0 0 0 0.
#[global] Instance Usage_eq_dec : EqDecision Usage.
Proof. solve_decision. Defined.

Definition total_tokens (u : Usage) : Z :=
  wrap_u64 (wrap_u64 (wrap_u64 (wrap_u64 (input_tokens u + output_tokens u) + cache_read_tokens u)
    + cache_write_5m_tokens u) + cache_write_1h_tokens u).
Definition Usage_is_zero (u : Usage) : bool := (total_tokens u =? 0) && (web_search_requests u =? 0).
Definition Usage_add (u o : Usage) : Usage := mkUsage
  (wrap_u64 (input_tokens u + input_tokens o)) (wrap_u64 (output_tokens u + output_tokens o))
  (wrap_u64 (cache_read_tokens u + cache_read_tokens o))
  (wrap_u64 (cache_write_5m_tokens u + cache_write_5m_tokens o))
  (wrap_u64 (cache_write_1h_tokens u + cache_write_1h_tokens o))
  (wrap_u64 (web_search_requests u + web_search_requests o)).

(** ** Prices *)
Record Prices := mkPrices {
  p_input : Z; p_output : Z; p_cache_read : Z; p_cache_write_5m : Z; p_cache_write_1h : Z }.
#[global] Instance Prices_eq_dec : EqDecision Prices.
Proof. solve_decision. Defined.

Definition OPUS_CURRENT_PRICES : Prices := mkPrices 5000 25000 500 6250 10000.
Definition MAX_PRICES : Prices := mkPrices 15000 75000 1500 18750 30000.
Definition FAST_OPUS_CURRENT_PRICES : Prices := mkPrices 10000 50000 1000 12500 20000.
Definition FAST_OPUS_47_PRICES : Prices := mkPrices 30000 150000 3000 37500 60000.
Definition FABLE_5_PRICES : Prices := mkPrices 10000 50000 1000 12500 20000.
Definition OPUS_LEGACY_PRICES : Prices := mkPrices 15000 75000 1500 18750 30000.
Definition SONNET_STANDARD_PRICES : Prices := mkPrices 3000 15000 300 3750 6000.
Definition SONNET5_INTRO_PRICES : Prices := mkPrices 2000 10000 200 2500 4000.
Definition SONNET5_STD_START : Z := 1788220800.
Definition HAIKU_45_PRICES : Prices := mkPrices 1000 5000 100 1250 2000.
Definition HAIKU_35_PRICES : Prices := mkPrices 800 4000 80 1000 1600.
Definition HAIKU_3_PRICES : Prices := mkPrices 250 1250 25 313 500.

(** ** The ordered branch table *)
Definition anthropic_tariff_branch_at (model : string) (now_unix : Z) : option (string * Prices) :=
  let m := to_lowercase model in
  if contains m "fable" || contains m "mythos" then Some ("anthropic/standard/fable-5", FABLE_5_PRICES)
  else if bool_decide (m = "claude-opus-5") || contains m "opus-4-8" || contains m "opus-4-7"
          || contains m "opus-4-6" || contains m "opus-4-5"
  then Some ("anthropic/standard/opus-current", OPUS_CURRENT_PRICES)
  else if contains m "opus-4-1" || bool_decide (m = "claude-opus-4-20250514")
          || bool_decide (m = "claude-opus-4") || contains m "opus-3" || contains m "3-opus"
  then Some ("anthropic/standard/opus-legacy", OPUS_LEGACY_PRICES)
  else if contains m "sonnet-5" then
    Some (if now_unix <? SONNET5_STD_START
          then ("anthropic/standard/sonnet-5-intro", SONNET5_INTRO_PRICES)
          else ("anthropic/standard/sonnet-current", SONNET_STANDARD_PRICES))
  else if contains m "sonnet" then Some ("anthropic/standard/sonnet-current", SONNET_STANDARD_PRICES)
  else if contains m "haiku" then
    if contains m "haiku-4-5" then Some ("anthropic/standard/haiku-4-5", HAIKU_45_PRICES)
    else if contains m "haiku-3-5" || contains m "3-5-haiku" then Some ("anthropic/standard/haiku-3-5", HAIKU_35_PRICES)
    else Some ("anthropic/standard/haiku-3", HAIKU_3_PRICES)
  else None.

Definition model_prices_matched_at (model : string) (now_unix : Z) : option Prices :=
  snd <$> anthropic_tariff_branch_at model now_unix.
Definition model_prices_at (model : string) (now_unix : Z) : Prices :=
  default MAX_PRICES (model_prices_matched_at model now_unix).
Definition model_prices (model : string) : Prices := model_prices_at model SONNET5_STD_START.
Definition model_prices_reserve_at (model : string) (now_unix : Z) : Prices :=
  default MAX_PRICES (model_prices_matched_at model now_unix).
Definition model_prices_reserve (model : string) : Prices := model_prices_reserve_at model SONNET5_STD_START.
Definition model_prices_for_speed_at (model : string) (now_unix : Z) (fast : bool) : Prices :=
  if negb fast then model_prices_at model now_unix
  else
    let model := to_ascii_lowercase model in
    if bool_decide (model = "claude-opus-5") || contains model "opus-4-8"
    then FAST_OPUS_CURRENT_PRICES else FAST_OPUS_47_PRICES.
Definition model_prices_reserve_for_speed_at (model : string) (now_unix : Z) (fast : bool) : Prices :=
  if fast then model_prices_for_speed_at model now_unix true else model_prices_reserve_at model now_unix.

Definition anthropic_matched_tariff_at (model : string) (now_unix : Z) (fast : bool) : option (string * Prices) :=
  if negb fast then anthropic_tariff_branch_at model now_unix
  else
    let m := to_ascii_lowercase model in
    if bool_decide (m = "claude-opus-5") || contains m "opus-4-8"
    then Some ("anthropic/fast/opus-current", FAST_OPUS_CURRENT_PRICES)
    else Some ("anthropic/fast/opus-4-7-conservative", FAST_OPUS_47_PRICES).

Definition anthropic_compiled_tariffs_at (now_unix : Z) : list (string * Prices) :=
  [ ("anthropic/standard/fable-5", FABLE_5_PRICES);
    ("anthropic/standard/opus-current", OPUS_CURRENT_PRICES);
    ("anthropic/standard/opus-legacy", OPUS_LEGACY_PRICES);
    ("anthropic/standard/sonnet-current", SONNET_STANDARD_PRICES);
    ("anthropic/standard/haiku-4-5", HAIKU_45_PRICES);
    ("anthropic/standard/haiku-3-5", HAIKU_35_PRICES);
    ("anthropic/standard/haiku-3", HAIKU_3_PRICES);
    ("anthropic/fast/opus-current", FAST_OPUS_CURRENT_PRICES);
    ("anthropic/fast/opus-4-7-conservative", FAST_OPUS_47_PRICES) ]
  ++ (if now_unix <? SONNET5_STD_START then [("anthropic/standard/sonnet-5-intro", SONNET5_INTRO_PRICES)] else []).

(** [premium_prices_ceil]. *)
Definition premium_apply (basis_points value : Z) : Z :=
  wrap_i128 (wrap_i128 (value * Z.max basis_points 0) + 9999) ÷ 10000.
Definition premium_prices_ceil (p : Prices) (basis_points : Z) : Prices := mkPrices
  (premium_apply basis_points (p_input p)) (premium_apply basis_points (p_output p))
  (premium_apply basis_points (p_cache_read p)) (premium_apply basis_points (p_cache_write_5m p))
  (premium_apply basis_points (p_cache_write_1h p)).

(** ** Admission tariff identity *)
Definition ANTHROPIC_ALIAS_GENERATION : Z := 2.
Inductive AnthropicSpeed : Type := Standard | Fast.
Inductive AnthropicInferenceGeo : Type := Global | Us.
Record AnthropicAdmissionModifiers := mkModifiers { speed : AnthropicSpeed; inference_geo : AnthropicInferenceGeo }.
Definition inference_geo_basis_points (m : AnthropicAdmissionModifiers) : Z :=
  match inference_geo m with Global => 10000 | Us => 11000 end.
Record AnthropicAdmissionTariffIdentity := mkIdentity {
  canonical_model_id : string;
  alias_generation : Z;
  tariff_schedule_id : string;
  schedule_effective_from : Z;
  effective_reserve_prices : Prices;
  modifiers : AnthropicAdmissionModifiers
}.
Definition ANTHROPIC_DATED_SNAPSHOT_ALIASES : list (string * string) :=
  [ ("claude-haiku-4-5-20251001", "claude-haiku-4-5");
    ("claude-opus-4-5-20251101", "claude-opus-4-5");
    ("claude-sonnet-4-5-20250929", "claude-sonnet-4-5") ].
Definition canonical_alias_for (model_id : string) : string :=
  match List.find (fun ac => bool_decide (ac.1 = model_id)) ANTHROPIC_DATED_SNAPSHOT_ALIASES with
  | Some ac => ac.2
  | None => model_id
  end.
Definition canonical_models : list string :=
  [ "claude-opus-4-8"; "claude-opus-4-7"; "claude-opus-4-6"; "claude-opus-4-5"; "claude-sonnet-5";
    "claude-sonnet-4-6"; "claude-sonnet-4-5"; "claude-haiku-4-5"; "claude-opus-5"; "claude-fable-5" ].

(** The [match (canonical_model_id, fast)] of the capability table. *)
Definition schedule_of (canonical : string) (priced_ts : Z) (fast : bool)
    : result TariffIdentityError (string * Z) :=
  if fast then
    if bool_decide (canonical ∈ ["claude-opus-4-8"; "claude-opus-5"])
    then Ok ("anthropic/fast/opus-current/v1", 0)
    else Ok ("anthropic/fast/opus-4-7-conservative/v1", 0)
  else if bool_decide (canonical ∈ ["claude-opus-4-8"; "claude-opus-4-7"; "claude-opus-4-6"; "claude-opus-4-5"; "claude-opus-5"])
  then Ok ("anthropic/standard/opus-current/v1", 0)
  else if bool_decide (canonical = "claude-fable-5") then Ok ("anthropic/standard/fable-5/v1", 0)
  else if bool_decide (canonical = "claude-sonnet-5") && (priced_ts <? SONNET5_STD_START)
  then Ok ("anthropic/standard/sonnet-5-intro/v1", 0)
  else if bool_decide (canonical = "claude-sonnet-5") then Ok ("anthropic/standard/sonnet-current/v1", SONNET5_STD_START)
  else if bool_decide (canonical ∈ ["claude-sonnet-4-6"; "claude-sonnet-4-5"]) then Ok ("anthropic/standard/sonnet-current/v1", 0)
  else if bool_decide (canonical = "claude-haiku-4-5") then Ok ("anthropic/standard/haiku-4-5/v1", 0)
  else Err UnsupportedModelIdentity.

Definition anthropic_tariff_capability_at (requested_model_id : string) (priced_ts : Z)
    (mods : AnthropicAdmissionModifiers) : result TariffIdentityError AnthropicAdmissionTariffIdentity :=
  guard_ok (negb (priced_ts <=? 0)) InvalidPricedTimestamp;;
  let requested := canonical_alias_for requested_model_id in
  canonical ← ok_or (List.find (fun c => bool_decide (requested = c)) canonical_models) UnsupportedModelIdentity;
  let fast := match speed mods with Fast => true | Standard => false end in
  '(schedule, from) ← schedule_of canonical priced_ts fast;
  let base := model_prices_reserve_for_speed_at canonical priced_ts fast in
  let effective := match inference_geo mods with
                   | Us => premium_prices_ceil base (inference_geo_basis_points mods)
                   | Global => base
                   end in
  Ok (mkIdentity canonical ANTHROPIC_ALIAS_GENERATION schedule from effective mods).

(** ** Costs *)
Definition cost_nanodollars (u : Usage) (p : Prices) : Z :=
  wrap_i128 (wrap_i128 (wrap_i128 (wrap_i128 (wrap_i128 (
      wrap_i128 (input_tokens u * p_input p)
    + wrap_i128 (output_tokens u * p_output p))
    + wrap_i128 (cache_read_tokens u * p_cache_read p))
    + wrap_i128 (cache_write_5m_tokens u * p_cache_write_5m p))
    + wrap_i128 (cache_write_1h_tokens u * p_cache_write_1h p))
    + wrap_i128 (web_search_requests u * WEB_SEARCH_NANO)).

Record CostBreakdown := mkCost {
  c_input : Z; c_output : Z; c_cache_read : Z; c_cache_write_5m : Z; c_cache_write_1h : Z; c_web_search : Z }.
Definition CostBreakdown_total (c : CostBreakdown) : Z :=
  wrap_i128 (wrap_i128 (wrap_i128 (wrap_i128 (wrap_i128 (c_input c + c_output c) + c_cache_read c)
    + c_cache_write_5m c) + c_cache_write_1h c) + c_web_search c).
Definition cost_breakdown (u : Usage) (p : Prices) : CostBreakdown := mkCost
  (wrap_i128 (input_tokens u * p_input p)) (wrap_i128 (output_tokens u * p_output p))
  (wrap_i128 (cache_read_tokens u * p_cache_read p)) (wrap_i128 (cache_write_5m_tokens u * p_cache_write_5m p))
  (wrap_i128 (cache_write_1h_tokens u * p_cache_write_1h p)) (wrap_i128 (web_search_requests u * WEB_SEARCH_NANO)).

(** [÷] truncates toward zero, as Rust's division does. *)
Definition apply_multiplier (nano mult_bp : Z) : Z :=
  if 0 <=? nano then wrap_i128 (wrap_i128 (nano * mult_bp) + 5000) ÷ 10000
  else wrap_i128 (wrap_i128 (nano * mult_bp) - 5000) ÷ 10000.
Definition apply_multiplier_floor (nano mult_bp : Z) : Z := wrap_i128 (nano * mult_bp) ÷ 10000.
Definition apply_token_multiplier (c : CostBreakdown) (bp : Z) : CostBreakdown := mkCost
  (apply_multiplier (c_input c) bp) (apply_multiplier (c_output c) bp) (apply_multiplier (c_cache_read c) bp)
  (apply_multiplier (c_cache_write_5m c) bp) (apply_multiplier (c_cache_write_1h c) bp) (c_web_search c).
Definition cost_with_multiplier (u : Usage) (model : string) (mult_bp : Z) : Z :=
  apply_multiplier (cost_nanodollars u (model_prices model)) mult_bp.

(** [{:06}] of a number below one million. *)
Fixpoint pad_zero (n : nat) (s : string) : string :=
  match n with O => s | S n => String (Ascii.ascii_of_nat 48) (pad_zero n s) end.
Definition pad6 (s : string) : string := pad_zero (6 - String.length s) s.
Definition nano_to_usd_string (nano : Z) : string :=
  let n := Z.to_N (Z.abs nano) in
  let whole := (n / 1000000000)%N in
  let micro := ((n mod 1000000000) / 1000)%N in
  String.app (if nano <? 0 then "-$" else "$") (String.app (pretty whole) (String.app "." (pad6 (pretty micro)))).

(** ** Bounds: no wrap-around for 64-bit counters *)
Record usage_ok (u : Usage) : Prop := {
  uo_input : is_u64 (input_tokens u);
  uo_output : is_u64 (output_tokens u);
  uo_cache_read : is_u64 (cache_read_tokens u);
  uo_cache_write_5m : is_u64 (cache_write_5m_tokens u);
  uo_cache_write_1h : is_u64 (cache_write_1h_tokens u);
  uo_web : is_u64 (web_search_requests u)
}.
Definition price_ok (z : Z) : Prop := 0 <= z <= 1000000000.
Record prices_ok (p : Prices) : Prop := {
  po_input : price_ok (p_input p);
  po_output : price_ok (p_output p);
  po_cache_read : price_ok (p_cache_read p);
  po_cache_write_5m : price_ok (p_cache_write_5m p);
  po_cache_write_1h : price_ok (p_cache_write_1h p)
}.
Definition exact_cost (u : Usage) (p : Prices) : Z :=
  input_tokens u * p_input p + output_tokens u * p_output p + cache_read_tokens u * p_cache_read p
  + cache_write_5m_tokens u * p_cache_write_5m p + cache_write_1h_tokens u * p_cache_write_1h p
  + web_search_requests u * WEB_SEARCH_NANO.
Definition bucket_max : Z := u64_max * 1000000000.

Lemma bucket_bound t p : is_u64 t -> price_ok p -> 0 <= t * p <= bucket_max.
Proof. unfold price_ok, bucket_max. width_lia || (unfold_widths; nia). Qed.
Lemma wrap_bucket z : 0 <= z <= 8 * bucket_max -> wrap_i128 z = z.
Proof. intros. apply wrap_i128_id. unfold bucket_max in *. width_lia. Qed.

Lemma buckets u p : usage_ok u -> prices_ok p ->
  0 <= input_tokens u * p_input p <= bucket_max /\ 0 <= output_tokens u * p_output p <= bucket_max
  /\ 0 <= cache_read_tokens u * p_cache_read p <= bucket_max
  /\ 0 <= cache_write_5m_tokens u * p_cache_write_5m p <= bucket_max
  /\ 0 <= cache_write_1h_tokens u * p_cache_write_1h p <= bucket_max
  /\ 0 <= web_search_requests u * WEB_SEARCH_NANO <= bucket_max.
Proof.
  intros [? ? ? ? ? ?] [? ? ? ? ?]. repeat split; try (by apply bucket_bound);
    apply bucket_bound; try done; unfold price_ok, WEB_SEARCH_NANO; lia.
Qed.
(** [unwrap]: remove the innermost wrap-arounds whose argument is in range. *)
Ltac unwrap :=
  repeat match goal with
  | |- context [wrap_i128 ?z] =>
      lazymatch z with
      | context [wrap_i128 _] => fail
      | _ => rewrite (wrap_bucket z) by lia
      end
  end.
Lemma cost_eq u p : usage_ok u -> prices_ok p -> cost_nanodollars u p = exact_cost u p.
Proof.
  intros Hu Hp. destruct (buckets u p Hu Hp) as (H1 & H2 & H3 & H4 & H5 & H6).
  unfold cost_nanodollars, exact_cost. unwrap. lia.
Qed.
Lemma breakdown_eq u p : usage_ok u -> prices_ok p -> CostBreakdown_total (cost_breakdown u p) = exact_cost u p.
Proof.
  intros Hu Hp. destruct (buckets u p Hu Hp) as (H1 & H2 & H3 & H4 & H5 & H6).
  unfold CostBreakdown_total, cost_breakdown, exact_cost. cbn [c_input c_output c_cache_read c_cache_write_5m c_cache_write_1h c_web_search]. unwrap. lia.
Qed.

(** ** Order on price vectors *)
Definition prices_le (p q : Prices) : Prop :=
  p_input p <= p_input q /\ p_output p <= p_output q /\ p_cache_read p <= p_cache_read q
  /\ p_cache_write_5m p <= p_cache_write_5m q /\ p_cache_write_1h p <= p_cache_write_1h q.
#[global] Instance prices_le_dec p q : Decision (prices_le p q).
Proof. unfold prices_le. apply _. Defined.
#[global] Instance price_ok_dec z : Decision (price_ok z).
Proof. unfold price_ok. apply _. Defined.

Lemma exact_cost_mono u p q : usage_ok u -> prices_le p q -> exact_cost u p <= exact_cost u q.
Proof.
  intros [[? ?] [? ?] [? ?] [? ?] [? ?] _] (? & ? & ? & ? & ?). unfold exact_cost.
  repeat apply Z.add_le_mono; try (apply Z.mul_le_mono_nonneg_l; done). done.
Qed.

(** Every branch is one of the compiled vectors. *)
Lemma branch_compiled model now fam p :
  anthropic_tariff_branch_at model now = Some (fam, p) -> (fam, p) ∈ anthropic_compiled_tariffs_at now.
Proof.
  unfold anthropic_tariff_branch_at, anthropic_compiled_tariffs_at.
  repeat case_match; intros; simplify_eq; cbn; set_solver.
Qed.
Lemma compiled_ok now fam p : (fam, p) ∈ anthropic_compiled_tariffs_at now -> prices_ok p /\ prices_le p FAST_OPUS_47_PRICES.
Proof.
  unfold anthropic_compiled_tariffs_at. intros H.
  assert (Hall : Forall (fun x => prices_ok x.2 /\ prices_le x.2 FAST_OPUS_47_PRICES)
    ([ ("anthropic/standard/fable-5", FABLE_5_PRICES);
    ("anthropic/standard/opus-current", OPUS_CURRENT_PRICES);
    ("anthropic/standard/opus-legacy", OPUS_LEGACY_PRICES);
    ("anthropic/standard/sonnet-current", SONNET_STANDARD_PRICES);
    ("anthropic/standard/haiku-4-5", HAIKU_45_PRICES);
    ("anthropic/standard/haiku-3-5", HAIKU_35_PRICES);
    ("anthropic/standard/haiku-3", HAIKU_3_PRICES);
    ("anthropic/fast/opus-current", FAST_OPUS_CURRENT_PRICES);
    ("anthropic/fast/opus-4-7-conservative", FAST_OPUS_47_PRICES) ] ++ [("anthropic/standard/sonnet-5-intro", SONNET5_INTRO_PRICES)])).
  { repeat constructor; vm_compute; discriminate. }
  rewrite Forall_forall in Hall. apply (Hall (fam, p)). destruct (now <? SONNET5_STD_START); set_solver.
Qed.
Lemma standard_le_max model now p : model_prices_matched_at model now = Some p -> prices_le p MAX_PRICES.
Proof.
  unfold model_prices_matched_at, anthropic_tariff_branch_at.
  repeat case_match; intros; simplify_eq/=; vm_compute; repeat split; discriminate.
Qed.

(** [join_wraps]: a wrap-around of wrapped summands is one of their sum. *)
Ltac join_wraps :=
  repeat match goal with
  | |- context [wrap_i128 (wrap_i128 ?a + wrap_i128 ?b)] =>
      lazymatch a with
      | context [wrap_i128 _] => fail
      | _ => rewrite (wrap_i128_add a b)
      end
  end.
(** Every compiled card, at every model name, time and speed, is far below the
    bound. *)
Lemma standard_prices_ok model now : prices_ok (model_prices_at model now) /\ prices_le (model_prices_at model now) MAX_PRICES.
Proof.
  unfold model_prices_at. destruct (model_prices_matched_at model now) as [p|] eqn:E; cbn.
  - split; [|by eapply standard_le_max]. unfold model_prices_matched_at in E.
    destruct (anthropic_tariff_branch_at model now) as [[fam q]|] eqn:Eb; [|done]. simplify_eq/=.
    by eapply compiled_ok, branch_compiled.
  - split; repeat split; vm_compute; discriminate.
Qed.
Lemma speed_prices_ok model now fast : prices_ok (model_prices_for_speed_at model now fast).
Proof.
  unfold model_prices_for_speed_at. destruct fast; cbn; [|apply standard_prices_ok].
  case_match; repeat split; vm_compute; discriminate.
Qed.

(** C6: what a charge is, for every price vector.  The cost computed in
    wrapping 128-bit arithmetic, and the total of the itemised breakdown, are the
    mathematical sum of count times price over the six buckets reduced modulo
    2^128 into the signed range.  For 64-bit counts they are therefore that sum
    itself, non-negative and with room for a 10000-basis-point multiplier,
    whenever every rate of the vector is between zero and 10^9 nanodollars (a
    dollar per token); and every vector compiled into the program satisfies that
    bound, at every model name, time and speed.  A stored override may exceed it:
    its legs are any non-negative 128-bit numbers. *)
Theorem cost_is_exact (u : Usage) (p : Prices) :
  cost_nanodollars u p = wrap_i128 (exact_cost u p)
  /\ CostBreakdown_total (cost_breakdown u p) = wrap_i128 (exact_cost u p)
  /\ (usage_ok u -> prices_ok p ->
       cost_nanodollars u p = exact_cost u p
       /\ CostBreakdown_total (cost_breakdown u p) = exact_cost u p
       /\ 0 <= exact_cost u p /\ is_i128 (exact_cost u p * 10000 + 5000))
  /\ (forall model now fast, prices_ok (model_prices_for_speed_at model now fast)
       /\ prices_ok (model_prices_reserve_for_speed_at model now fast)).
Proof.
  split; [unfold cost_nanodollars, exact_cost; by join_wraps|].
  split; [unfold CostBreakdown_total, cost_breakdown, exact_cost; cbn; by join_wraps|].
  split; [|intros model now fast; split; [apply speed_prices_ok|destruct fast; [apply (speed_prices_ok _ _ true)|apply standard_prices_ok]]].
  intros Hu Hp. split; [by apply cost_eq|]. split; [by apply breakdown_eq|].
  destruct (buckets u p Hu Hp) as (H1 & H2 & H3 & H4 & H5 & H6). unfold exact_cost, bucket_max in *.
  split; [lia|]. width_lia.
Qed.
(** An override leg near the top of the 128-bit range makes the charge wrap:
    two input tokens at such a rate cost less than nothing. *)
Example huge_override_leg_wraps :
  cost_nanodollars (mkUsage 2 0 0 0 0 0) (mkPrices (2 ^ 127 - 1) 0 0 0 0) = -2.
Proof. vm_compute. reflexivity. Qed.

(** The fallback price covers every standard charge.  Whatever model the
    response reports and whenever it is priced, its charge at standard speed never
    exceeds the charge at the maximum price used for unrecognised models, and at
    either speed it never exceeds the highest fast tariff. *)
Theorem reserve_covers_charge (u : Usage) (served : string) (now : Z) (fast : bool) :
  usage_ok u ->
  cost_nanodollars u (model_prices_at served now) <= cost_nanodollars u MAX_PRICES
  /\ cost_nanodollars u (model_prices_for_speed_at served now fast) <= cost_nanodollars u FAST_OPUS_47_PRICES.
Proof.
  intros Hu.
  assert (Hok : forall p, prices_le p FAST_OPUS_47_PRICES -> prices_ok p -> cost_nanodollars u p <= cost_nanodollars u FAST_OPUS_47_PRICES).
  { intros p Hle Hp. rewrite !cost_eq by (done || (repeat split; vm_compute; discriminate)). by apply exact_cost_mono. }
  destruct (standard_prices_ok served now) as [Hp Hle]. split.
  - rewrite !cost_eq by (done || (repeat split; vm_compute; discriminate)). by apply exact_cost_mono.
  - unfold model_prices_for_speed_at. destruct fast; cbn.
    + apply Hok; case_match; repeat split; vm_compute; discriminate.
    + apply Hok; [|done]. destruct Hle as (? & ? & ? & ? & ?). unfold MAX_PRICES, FAST_OPUS_47_PRICES in *. cbn in *.
      repeat split; cbn; lia.
Qed.

(** The override family and the billed price never diverge.  When the matcher
    names a tariff family for a model at a speed, its price is the price that
    model is billed, and the pair is listed by the inventory of compiled tariffs
    at that time; when it names none, the speed is standard and the model is
    billed at the maximum price. *)
Theorem matched_family_billed (model : string) (now : Z) (fast : bool) :
  match anthropic_matched_tariff_at model now fast with
  | Some (fam, p) => p = model_prices_for_speed_at model now fast /\ (fam, p) ∈ anthropic_compiled_tariffs_at now
  | None => fast = false /\ model_prices_for_speed_at model now fast = MAX_PRICES
  end.
Proof.
  unfold anthropic_matched_tariff_at, model_prices_for_speed_at. destruct fast; cbn.
  - destruct (bool_decide _ || contains _ _); (split; [done|]); unfold anthropic_compiled_tariffs_at; set_solver.
  - unfold model_prices_at, model_prices_matched_at.
    destruct (anthropic_tariff_branch_at model now) as [[fam p]|] eqn:E; cbn; [|done].
    split; [done|]. by eapply branch_compiled.
Qed.

(** The audited capability table agrees with the heuristic matcher.  For
    every model and modifier it admits, the schedule id is the family the matcher
    bills at that time with its version suffix, and the reserve price is the
    billed price, raised by the exact regional premium rounded up per bucket. *)
Theorem capability_agrees_with_matcher (model : string) (ts : Z) (mods : AnthropicAdmissionModifiers)
    (id : AnthropicAdmissionTariffIdentity) :
  anthropic_tariff_capability_at model ts mods = Ok id ->
  let fast := match speed mods with Fast => true | Standard => false end in
  exists fam p,
    anthropic_matched_tariff_at (canonical_model_id id) ts fast = Some (fam, p)
    /\ tariff_schedule_id id = String.app fam "/v1"
    /\ effective_reserve_prices id
       = match inference_geo mods with Global => p | Us => premium_prices_ceil p 11000 end
    /\ canonical_model_id id ∈ canonical_models /\ 0 < ts.
Proof.
  intros H. unfold anthropic_tariff_capability_at in H.
  apply bind_Ok in H as ([] & Hts%guard_ok_Ok & H). apply bind_Ok in H as (canonical & Hfind%ok_or_Ok & H).
  apply bind_Ok in H as ([schedule from] & Hsch & H). injection H as <-. cbn.
  apply find_some in Hfind as [Hin _]. apply list_elem_of_In in Hin as Hin'.
  apply negb_true_iff in Hts. apply Z.leb_gt in Hts.
  destruct mods as [sp geo]; cbn in *.
  assert (Hm : exists fam p, anthropic_matched_tariff_at canonical ts (match sp with Fast => true | Standard => false end) = Some (fam, p)
     /\ schedule = String.app fam "/v1"
     /\ model_prices_reserve_for_speed_at canonical ts (match sp with Fast => true | Standard => false end) = p).
  { unfold anthropic_matched_tariff_at, model_prices_reserve_for_speed_at, model_prices_reserve_at, model_prices_matched_at,
      anthropic_tariff_branch_at, model_prices_for_speed_at, schedule_of in *.
    destruct sp; cbn [In canonical_models] in Hin; destruct (ts <? SONNET5_STD_START);
      destruct_or! Hin; try done; subst canonical; vm_compute in Hsch; injection Hsch as <- <-; vm_compute; eauto. }
  destruct Hm as (fam & p & -> & -> & ->). exists fam, p. split; [done|]. split; [done|]. split; [|done].
  by destruct geo.
Qed.

(** ** Multipliers *)
Lemma quot_pos a : 0 <= a -> a ÷ 10000 = a / 10000.
Proof. intros. apply Z.quot_div_nonneg; lia. Qed.

(** Discounts round as documented.  For a non-negative amount and a multiplier
    between 0 and 10000 basis points, the settled amount is the exact product
    rounded half up to a nanodollar, the release-v2 amount is its floor, the two
    differ by at most one nanodollar, and neither exceeds the undiscounted
    amount; a full multiplier is the identity and a zero multiplier is free. *)
Theorem multiplier_rounding (nano bp : Z) :
  0 <= nano <= i64_max * 1000000000 -> 0 <= bp <= 10000 ->
  let h := apply_multiplier nano bp in
  let f := apply_multiplier_floor nano bp in
  10000 * h - 5000 <= nano * bp < 10000 * h + 5000
  /\ 10000 * f <= nano * bp < 10000 * f + 10000
  /\ f <= h <= f + 1 /\ 0 <= f /\ h <= nano
  /\ (bp = 10000 -> h = nano /\ f = nano) /\ (bp = 0 -> h = 0 /\ f = 0).
Proof.
  intros Hn Hb h f.
  assert (Hp : 0 <= nano * bp <= nano * 10000) by nia.
  assert (Hh : h = (nano * bp + 5000) / 10000).
  { unfold h, apply_multiplier. destruct (Z.leb_spec 0 nano); [|lia].
    rewrite (wrap_i128_id (nano * bp)) by width_lia. rewrite wrap_i128_id by width_lia. apply quot_pos. lia. }
  assert (Hf : f = nano * bp / 10000).
  { unfold f, apply_multiplier_floor. rewrite wrap_i128_id by width_lia. apply quot_pos. lia. }
  pose proof (Z.div_mod (nano * bp + 5000) 10000 ltac:(lia)) as D1.
  pose proof (Z.mod_pos_bound (nano * bp + 5000) 10000 ltac:(lia)) as B1.
  pose proof (Z.div_mod (nano * bp) 10000 ltac:(lia)) as D2.
  pose proof (Z.mod_pos_bound (nano * bp) 10000 ltac:(lia)) as B2.
  rewrite <- Hh in D1. rewrite <- Hf in D2.
  repeat split; intros; subst bp || idtac; lia.
Qed.

(** The regional premium used for reservations is the least whole price not
    below the exact product, so a reservation at premium prices covers the
    premium charge. *)
Theorem premium_is_least_cover (price bp v : Z) :
  price_ok price -> 0 <= bp <= i64_max ->
  price * bp <= 10000 * premium_apply bp price
  /\ (price * bp <= 10000 * v -> premium_apply bp price <= v).
Proof.
  intros Hp Hb. unfold price_ok in Hp.
  assert (E : premium_apply bp price = (price * bp + 9999) / 10000).
  { unfold premium_apply. rewrite Z.max_l by lia.
    rewrite (wrap_i128_id (price * bp)) by (unfold_widths; nia). rewrite wrap_i128_id by (unfold_widths; nia).
    apply quot_pos. nia. }
  rewrite E. pose proof (Z.div_mod (price * bp + 9999) 10000 ltac:(lia)).
  pose proof (Z.mod_pos_bound (price * bp + 9999) 10000 ltac:(lia)). lia.
Qed.

(** ** Witnesses *)
Lemma demo_usage_ok : usage_ok (mkUsage 1000 200 50 0 7 1).
Proof. split; vm_compute; split; discriminate. Qed.
Lemma max_prices_ok : prices_ok MAX_PRICES.
Proof. split; vm_compute; split; discriminate. Qed.
Lemma cost_is_exact_witness : cost_nanodollars (mkUsage 1000 200 50 0 7 1) MAX_PRICES = 40285000.
Proof.
  rewrite (proj1 (proj1 (proj2 (proj2 (cost_is_exact (mkUsage 1000 200 50 0 7 1) MAX_PRICES))) demo_usage_ok max_prices_ok)).
  reflexivity.
Defined.
Lemma reserve_covers_charge_witness :
  cost_nanodollars (mkUsage 1000 200 50 0 7 1) (model_prices_at "claude-fable-5" 0)
  <= cost_nanodollars (mkUsage 1000 200 50 0 7 1) MAX_PRICES.
Proof. exact (proj1 (reserve_covers_charge _ "claude-fable-5" 0 true demo_usage_ok)). Defined.
Lemma capability_agrees_with_matcher_witness :
  exists fam p, anthropic_matched_tariff_at "claude-haiku-4-5" 1788000000 false = Some (fam, p).
Proof.
  destruct (capability_agrees_with_matcher "claude-haiku-4-5-20251001" 1788000000 (mkModifiers Standard Us)
    (mkIdentity "claude-haiku-4-5" 2 "anthropic/standard/haiku-4-5/v1" 0 (mkPrices 1100 5500 110 1375 2200)
       (mkModifiers Standard Us))) as (fam & p & H & _); [vm_compute; reflexivity|].
  exists fam, p. exact H.
Defined.
Lemma multiplier_rounding_witness : apply_multiplier 12345 8000 <= 12345.
Proof.
  refine (proj1 (proj2 (proj2 (proj2 (proj2 (multiplier_rounding 12345 8000 _ _)))))); vm_compute; split; discriminate.
Defined.
