(* ===== verification/MeterUsage.v ===== *)
(** * Reading usage from provider responses ([crates/metering/src/lib.rs])

    JSON parsing is [serde_json]'s: the parser is a parameter, its [Value] type is
    the tree it returns (an object's keys are unique). *)
From S2P Require Import Prelude Text Tariffs.

Inductive Number : Type := PosInt (z : Z) | NegInt (z : Z) | Float.
#[warnings="-register-all"]
Inductive Value : Type :=
| VNull
| VBool (b : bool)
| VNumber (n : Number)
| VString (s : string)
| VArray (l : list Value)
| VObject (fields : list (string * Value)).

(** [Value::get], [as_u64], [as_str]. *)
Definition get (k : string) (v : Value) : option Value :=
  match v with
  | VObject fields => snd <$> List.find (fun kv => bool_decide (kv.1 = k)) fields
  | _ => None
  end.
Definition as_u64 (v : Value) : option Z :=
  match v with VNumber (PosInt z) => Some z | _ => None end.
Definition as_str (v : Value) : option string :=
  match v with VString s => Some s | _ => None end.

Definition usage_from_value (u : Value) : Usage :=
  let g k := default 0 (get k u >>? as_u64) in
  let split := get "cache_creation" u in
  let cw5_split := default 0 (split >>? get "ephemeral_5m_input_tokens" >>? as_u64) in
  let cw1_split := default 0 (split >>? get "ephemeral_1h_input_tokens" >>? as_u64) in
  let cw_total := g "cache_creation_input_tokens" in
  let '(cw5, cw1) :=
    if (wrap_u64 (cw5_split + cw1_split) =? 0) && (0 <? cw_total) then (cw_total, 0) else (cw5_split, cw1_split) in
  let web := default 0 (get "server_tool_use" u >>? get "web_search_requests" >>? as_u64) in
  mkUsage (g "input_tokens") (g "output_tokens") (g "cache_read_input_tokens") cw5 cw1 web.

Definition str_len (s : string) : Z := Z.of_nat (String.length s).

(** ** One server-sent event *)
Record SseState := mkSse {
  ss_usage : Usage;
  have_output_usage : bool;
  delta_bytes : Z;
  observed_web_search_requests : Z
}.
Definition sse_init : SseState := mkSse Usage_default false 0 0.

Definition is_web_search_start (v : Value) : bool :=
  let block := get "content_block" v in
  bool_decide (block >>? get "type" >>? as_str = Some "server_tool_use")
  && bool_decide (block >>? get "name" >>? as_str = Some "web_search").
Definition field_bytes (d : Value) (f : string) (acc : Z) : Z :=
  match get f d >>? as_str with Some t => sat_u64 (acc + str_len t) | None => acc end.
Definition set_output (u : Usage) (o : Z) : Usage :=
  mkUsage (input_tokens u) o (cache_read_tokens u) (cache_write_5m_tokens u) (cache_write_1h_tokens u) (web_search_requests u).
Definition set_web (u : Usage) (w : Z) : Usage :=
  mkUsage (input_tokens u) (output_tokens u) (cache_read_tokens u) (cache_write_5m_tokens u) (cache_write_1h_tokens u) w.

Definition sse_event (st : SseState) (v : Value) : SseState :=
  let u := ss_usage st in
  match get "type" v >>? as_str with
  | Some ty =>
      if bool_decide (ty = "content_block_start") then
        if is_web_search_start v
        then mkSse u (have_output_usage st) (delta_bytes st) (sat_u64 (observed_web_search_requests st + 1))
        else st
      else if bool_decide (ty = "content_block_delta") then
        match get "delta" v with
        | Some d =>
            mkSse u (have_output_usage st)
              (field_bytes d "partial_json" (field_bytes d "thinking" (field_bytes d "text" (delta_bytes st))))
              (observed_web_search_requests st)
        | None => st
        end
      else if bool_decide (ty = "message_start") then
        match get "message" v >>? get "usage" with
        | Some mu =>
            let s := usage_from_value mu in
            mkSse (mkUsage (input_tokens s) (output_tokens s) (cache_read_tokens s) (cache_write_5m_tokens s)
                     (cache_write_1h_tokens s)
                     (if 0 <? web_search_requests s then web_search_requests s else web_search_requests u))
              (have_output_usage st) (delta_bytes st) (observed_web_search_requests st)
        | None => st
        end
      else if bool_decide (ty = "message_delta") then
        match get "usage" v with
        | Some du =>
            let '(u1, have) := match get "output_tokens" du >>? as_u64 with
                               | Some o => (set_output u o, true)
                               | None => (u, have_output_usage st)
                               end in
            let u2 := match get "server_tool_use" du >>? get "web_search_requests" >>? as_u64 with
                      | Some w => set_web u1 w
                      | None => u1
                      end in
            mkSse u2 have (delta_bytes st) (observed_web_search_requests st)
        | None => st
        end
      else st
  | None => st
  end.

Definition sse_finish (st : SseState) : Usage :=
  let u := set_web (ss_usage st) (Z.max (web_search_requests (ss_usage st)) (observed_web_search_requests st)) in
  if have_output_usage st then u else set_output u (Z.max (output_tokens u) (delta_bytes st)).

Section Json.
Variable from_str : string -> option Value.

(** The payload of one line of the stream, if it carries JSON. *)
Definition data_payload (raw : string) : option Value :=
  r ← strip_prefix "data:" (trim_start raw);
  let json := trim r in
  if bool_decide (json = "") || bool_decide (json = "[DONE]") then None else from_str json.
Definition sse_events (sse : string) : list Value := omap data_payload (lines sse).

Definition usage_from_sse (sse : string) : Usage :=
  sse_finish (fold_left sse_event (sse_events sse) sse_init).
Definition sse_has_error (sse : string) : bool :=
  existsb (fun v => bool_decide (get "type" v >>? as_str = Some "error")) (sse_events sse).
Definition model_from_sse (sse : string) : option string :=
  head (omap (fun v => get "message" v >>? get "model" >>? as_str) (sse_events sse)).

(** [speed_from_sse] does not skip empty payloads or [[DONE]] explicitly. *)
Definition speed_payload (raw : string) : option Value :=
  r ← strip_prefix "data:" (trim_start raw); from_str (trim r).
Definition speed_of_event (v : Value) : option string :=
  match get "type" v >>? as_str with
  | Some ty =>
      let usage := if bool_decide (ty = "message_start") then get "message" v >>? get "usage"
                   else if bool_decide (ty = "message_delta") then get "usage" v else None in
      usage >>? get "speed" >>? as_str
  | None => None
  end.
Definition speed_from_sse (sse : string) : option string :=
  head (omap speed_of_event (omap speed_payload (lines sse))).

Definition usage_from_response_json (body : string) : Usage :=
  match from_str body with
  | Some v => from_option usage_from_value Usage_default (get "usage" v)
  | None => Usage_default
  end.
Definition speed_from_response_json (body : string) : option string :=
  from_str body >>? get "usage" >>? get "speed" >>? as_str.
Definition model_from_response_json (body : string) : option string :=
  from_str body >>? get "model" >>? as_str.
End Json.

(** ** Event observations *)
Definition event_type (v : Value) : option string := get "type" v >>? as_str.
Definition is_tool_start (v : Value) : bool :=
  bool_decide (event_type v = Some "content_block_start") && is_web_search_start v.
Definition delta_output (v : Value) : option Z :=
  if bool_decide (event_type v = Some "message_delta") then get "usage" v >>? get "output_tokens" >>? as_u64 else None.
Definition start_usage (v : Value) : option Usage :=
  if bool_decide (event_type v = Some "message_start")
  then usage_from_value <$> (get "message" v >>? get "usage") else None.
Definition text_bytes (v : Value) : Z :=
  if bool_decide (event_type v = Some "content_block_delta") then
    match get "delta" v with
    | Some d => sumZ (fun f => from_option str_len 0 (get f d >>? as_str)) ["text"; "thinking"; "partial_json"]
    | None => 0
    end
  else 0.

(** The four event types are distinct strings; [by_type] splits on the type. *)
Ltac by_type v :=
  unfold sse_event, delta_output, start_usage, text_bytes, is_tool_start, event_type;
  destruct (get "type" v >>? as_str) as [ty|]; [|rewrite ?bool_decide_false by done; try done];
  repeat (case_bool_decide; simplify_eq/=; try done).

Lemma event_observed st v :
  observed_web_search_requests (sse_event st v)
  = if is_tool_start v then sat_u64 (observed_web_search_requests st + 1) else observed_web_search_requests st.
Proof. by_type v; repeat case_match; done. Qed.
Lemma field_bytes_spec d f acc :
  0 <= acc <= u64_max -> field_bytes d f acc = sat_u64 (acc + from_option str_len 0 (get f d >>? as_str)).
Proof. intros. unfold field_bytes. destruct (get f d >>? as_str); cbn; [done|]. unfold sat_u64. lia. Qed.
Lemma str_len_nonneg (o : option string) : 0 <= from_option str_len 0 o.
Proof. destruct o; cbn; unfold str_len; lia. Qed.
Lemma event_bytes st v : 0 <= delta_bytes st <= u64_max ->
  delta_bytes (sse_event st v) = sat_u64 (delta_bytes st + text_bytes v).
Proof.
  intros Hb. by_type v; try (repeat case_match; cbn; unfold sat_u64; lia).
  destruct (get "delta" v) as [d|]; cbn; [|unfold sat_u64; lia].
  pose proof (str_len_nonneg (get "text" d >>? as_str)). pose proof (str_len_nonneg (get "thinking" d >>? as_str)).
  pose proof (str_len_nonneg (get "partial_json" d >>? as_str)).
  rewrite (field_bytes_spec d "text") by done.
  rewrite (field_bytes_spec d "thinking") by width_lia.
  rewrite (field_bytes_spec d "partial_json") by width_lia.
  width_lia.
Qed.
Lemma event_have st v : have_output_usage (sse_event st v) = match delta_output v with Some _ => true | None => have_output_usage st end.
Proof.
  by_type v; repeat case_match; simplify_eq/=; done.
Qed.
Lemma event_output st v : output_tokens (ss_usage (sse_event st v))
  = match delta_output v with Some o => o | None =>
      match start_usage v with Some s => output_tokens s | None => output_tokens (ss_usage st) end end.
Proof. by_type v; repeat case_match; simplify_eq/=; done. Qed.
Lemma event_input st v : input_tokens (ss_usage (sse_event st v))
  = match start_usage v with Some s => input_tokens s | None => input_tokens (ss_usage st) end.
Proof. by_type v; repeat case_match; simplify_eq/=; done. Qed.

(** ** The whole stream *)
Lemma fold_observed evs st : 0 <= observed_web_search_requests st <= u64_max ->
  observed_web_search_requests (fold_left sse_event evs st)
  = sat_u64 (observed_web_search_requests st + sumZ (fun v => if is_tool_start v then 1 else 0) evs).
Proof.
  assert (Hnn : forall l, 0 <= sumZ (fun v => if is_tool_start v then 1 else 0) l)
    by (intros l; apply sumZ_nonneg; intros v _; by destruct (is_tool_start v)).
  revert st. induction evs as [|v evs IH]; intros st Hst; cbn; [width_lia|].
  specialize (Hnn evs). rewrite IH; rewrite event_observed; destruct (is_tool_start v); width_lia.
Qed.
Lemma text_bytes_nonneg v : 0 <= text_bytes v.
Proof.
  unfold text_bytes. case_bool_decide; [|done]. destruct (get "delta" v); [|done].
  apply sumZ_nonneg. intros f _. apply str_len_nonneg.
Qed.
Lemma fold_bytes evs st : 0 <= delta_bytes st <= u64_max ->
  delta_bytes (fold_left sse_event evs st) = sat_u64 (delta_bytes st + sumZ text_bytes evs).
Proof.
  assert (Hnn : forall l, 0 <= sumZ text_bytes l) by (intros l; apply sumZ_nonneg; intros; apply text_bytes_nonneg).
  revert st. induction evs as [|v evs IH]; intros st Hst; cbn; [width_lia|].
  specialize (Hnn evs). pose proof (text_bytes_nonneg v). rewrite IH; rewrite event_bytes by done; width_lia.
Qed.
Lemma fold_have evs st :
  have_output_usage (fold_left sse_event evs st) = true <->
  have_output_usage st = true \/ exists v o, v ∈ evs /\ delta_output v = Some o.
Proof.
  revert st. induction evs as [|v evs IH]; intros st; cbn; [set_solver|].
  rewrite IH, event_have. destruct (delta_output v) as [o|] eqn:E.
  - split; [intros _; right; exists v, o; set_solver|auto].
  - split; [intros [?|(w & o & ? & ?)]; [auto|right; exists w, o; set_solver]|].
    intros [?|(w & o & [->|?]%elem_of_cons & ?)]; [auto|congruence|right; eauto].
Qed.
Lemma fold_output_kept evs st :
  (forall v, v ∈ evs -> delta_output v = None /\ start_usage v = None) ->
  output_tokens (ss_usage (fold_left sse_event evs st)) = output_tokens (ss_usage st).
Proof.
  revert st. induction evs as [|v evs IH]; intros st H; cbn; [done|].
  rewrite IH by set_solver. rewrite event_output. by destruct (H v ltac:(set_solver)) as [-> ->].
Qed.
Lemma fold_input_kept evs st :
  (forall v, v ∈ evs -> start_usage v = None) ->
  input_tokens (ss_usage (fold_left sse_event evs st)) = input_tokens (ss_usage st).
Proof.
  revert st. induction evs as [|v evs IH]; intros st H; cbn; [done|].
  rewrite IH by set_solver. rewrite event_input. by rewrite (H v ltac:(set_solver)).
Qed.

(** Nothing that was streamed goes uncounted.  Whatever the stream contains,
    the billed web searches are at least the web-search tool calls seen in it, and
    if the stream broke off before any output count was reported, the billed
    output is at least the number of UTF-8 bytes that were streamed (both
    saturating at 64 bits). *)
Theorem sse_counts_everything (from_str : string -> option Value) (sse : string) :
  let evs := sse_events from_str sse in
  let u := usage_from_sse from_str sse in
  sat_u64 (sumZ (fun v => if is_tool_start v then 1 else 0) evs) <= web_search_requests u
  /\ ((exists v o, v ∈ evs /\ delta_output v = Some o) \/ sat_u64 (sumZ text_bytes evs) <= output_tokens u).
Proof.
  intros evs u. unfold u, usage_from_sse, sse_finish. fold evs.
  pose proof (fold_observed evs sse_init ltac:(vm_compute; split; discriminate)) as Ho.
  pose proof (fold_bytes evs sse_init ltac:(vm_compute; split; discriminate)) as Hb.
  pose proof (fold_have evs sse_init) as Hh. cbn [sse_init observed_web_search_requests delta_bytes] in Ho, Hb.
  rewrite Z.add_0_l in Ho, Hb. rewrite <- Ho, <- Hb.
  destruct (have_output_usage (fold_left sse_event evs sse_init)); (split; [apply Z.le_max_r|]).
  - left. by destruct (proj1 Hh eq_refl).
  - right. apply Z.le_max_r.
Qed.

(** The authoritative reports win.  The billed output is the count of the last
    [message_delta] that reports one (it is cumulative), provided no later
    [message_start] replaces it; the billed input is the count of the last
    [message_start]. *)
Theorem sse_last_report_wins (from_str : string -> option Value) (sse : string) :
  let evs := sse_events from_str sse in
  let u := usage_from_sse from_str sse in
  (forall pre v post o, evs = pre ++ v :: post -> delta_output v = Some o ->
     (forall w, w ∈ post -> delta_output w = None /\ start_usage w = None) -> output_tokens u = o)
  /\ (forall pre v post s, evs = pre ++ v :: post -> start_usage v = Some s ->
     (forall w, w ∈ post -> start_usage w = None) -> input_tokens u = input_tokens s).
Proof.
  intros evs u. unfold u, usage_from_sse. fold evs. split.
  - intros pre v post o E Ho Hpost.
    assert (Hh : have_output_usage (fold_left sse_event evs sse_init) = true).
    { apply fold_have. right. exists v, o. rewrite E. set_solver. }
    unfold sse_finish. rewrite Hh. cbn. rewrite E, fold_left_app. cbn.
    rewrite fold_output_kept by done. by rewrite event_output, Ho.
  - intros pre v post s E Hs Hpost.
    assert (Hi : input_tokens (ss_usage (fold_left sse_event evs sse_init)) = input_tokens s).
    { rewrite E, fold_left_app. cbn. rewrite fold_input_kept by done. by rewrite event_input, Hs. }
    unfold sse_finish. by case_match.
Qed.

(** A stream with a cumulative output report, read with a small parser table. *)
Definition demo_parse (s : string) : option Value :=
  if bool_decide (s = "start") then
    Some (VObject [("type", VString "message_start");
                   ("message", VObject [("usage", VObject [("input_tokens", VNumber (PosInt 11));
                                                           ("output_tokens", VNumber (PosInt 1))])])])
  else if bool_decide (s = "delta") then
    Some (VObject [("type", VString "message_delta");
                   ("usage", VObject [("output_tokens", VNumber (PosInt 42))])])
  else None.
Example demo_stream :
  usage_from_sse demo_parse
    (String.app "data: start" (String LF (String.app " data:delta " (String LF (String.app "data: [DONE]" (String LF ""))))))
  = mkUsage 11 42 0 0 0 0.
Proof. vm_compute. reflexivity. Qed.
