(* ===== verification/TurnMeter.v ===== *)
(** * Metering of Anthropic-shaped turns ([crates/metering/src/kimi.rs],
    [crates/metering/src/glm.rs])

    KIMI and GLM subscriptions report usage in the same wire shape and are priced
    leg by leg with checked arithmetic; their modules carry the same code.  This
    file models that code once, with the provider's spelling of the reasoning
    counter as an interface, and proves what both rely on. *)
From S2P Require Import Prelude Text Tariffs MeterUsage.
From Stdlib Require Import Sorted.

(** ** Effective-dated schedules *)
Record Epoch (P : Type) := mkEpoch { effective_from : Z; eprices : P }.
Arguments mkEpoch {P}.
Arguments effective_from {P}.
Arguments eprices {P}.
(** A schedule is a non-empty slice literal: its first epoch and the rest. *)
Definition Schedule (P : Type) : Type := Epoch P * list (Epoch P).
Definition epochs {P} (s : Schedule P) : list (Epoch P) := s.1 :: s.2.
Definition prices_at {P} (schedule : Schedule P) (now_unix : Z) : P :=
  fold_left (fun current e => if effective_from e <=? now_unix then eprices e else current)
    (epochs schedule) (eprices schedule.1).

(** ** Served models

    A catalogue of official models and a list of subscription aliases: a served
    id is an official id, or an alias (in any case) of one. *)
Section Served.
Context {E A : Type} (ident : E -> string) (alias official : A -> string) (catalog : list E) (aliases : list A).

Definition find_ident (m : string) : option E := List.find (fun e => bool_decide (ident e = m)) catalog.
Definition resolve (a : string) : option A := List.find (fun s => eq_ignore_ascii_case (alias s) a) aliases.
Definition served (m : string) : option E :=
  match find_ident m with
  | Some e => Some e
  | None => resolve m >>? (fun s => find_ident (official s))
  end.

(** The tables are consistent: ids and aliases are unique, and every alias names
    a catalogued model. *)
Definition tables_ok : Prop :=
  NoDup (ident <$> catalog) /\ NoDup (to_ascii_lowercase ∘ alias <$> aliases)
  /\ Forall (fun s => official s ∈ ident <$> catalog) aliases.
Definition official_id (m : string) : Prop := m ∈ ident <$> catalog.
Definition known_alias (m : string) : Prop := to_ascii_lowercase m ∈ to_ascii_lowercase ∘ alias <$> aliases.

Lemma find_unique {B} (key : B -> string) (k : string) (l : list B) x :
  NoDup (key <$> l) -> x ∈ l -> key x = k -> List.find (fun y => bool_decide (key y = k)) l = Some x.
Proof.
  induction l as [|y l IH]; cbn; intros Hn Hx Hk; [by apply elem_of_nil in Hx|].
  apply NoDup_cons in Hn as [Hy Hn]. case_bool_decide as Hyk.
  - apply elem_of_cons in Hx as [->|Hx]; [done|]. destruct Hy. rewrite list_elem_of_fmap. exists x. split; [congruence|done].
  - apply elem_of_cons in Hx as [->|Hx]; [done|]. by apply IH.
Qed.
Lemma find_ident_Some m e : tables_ok -> find_ident m = Some e <-> e ∈ catalog /\ ident e = m.
Proof.
  intros (Hn & _). split.
  - intros H. apply List.find_some in H as [? Hb]. apply bool_decide_eq_true in Hb. by rewrite list_elem_of_In.
  - intros [He Hm]. by apply find_unique.
Qed.
Lemma find_ident_None m : find_ident m = None <-> ~ official_id m.
Proof.
  unfold official_id. rewrite list_elem_of_fmap. split.
  - intros H (e & -> & He). rewrite list_elem_of_In in He. eapply List.find_none in H; [|done].
    by apply bool_decide_eq_false in H.
  - intros Hn. unfold find_ident. destruct (List.find _ _) as [e|] eqn:H; [|done]. destruct Hn.
    apply List.find_some in H as [? Hb]. apply bool_decide_eq_true in Hb. exists e. by rewrite list_elem_of_In.
Qed.
Lemma resolve_Some m s : tables_ok -> resolve m = Some s <-> s ∈ aliases /\ to_ascii_lowercase (alias s) = to_ascii_lowercase m.
Proof.
  intros (_ & Hn & _). unfold resolve, eq_ignore_ascii_case. split.
  - intros H. apply List.find_some in H as [? Hb]. apply bool_decide_eq_true in Hb. by rewrite list_elem_of_In.
  - intros [Hs Hm]. by apply (find_unique (to_ascii_lowercase ∘ alias)).
Qed.
Lemma resolve_None m : resolve m = None <-> ~ known_alias m.
Proof.
  unfold known_alias, resolve, eq_ignore_ascii_case. rewrite list_elem_of_fmap. split.
  - intros H (s & Hm & Hs). rewrite list_elem_of_In in Hs. eapply List.find_none in H; [|done].
    apply bool_decide_eq_false in H. by cbn in Hm.
  - intros Hn. destruct (List.find _ _) as [s|] eqn:H; [|done]. destruct Hn.
    apply List.find_some in H as [? Hb]. apply bool_decide_eq_true in Hb. exists s. rewrite list_elem_of_In. by split; [symmetry|].
Qed.
(** The entry that serves an id. *)
Definition serves (m : string) (e : E) : Prop :=
  e ∈ catalog /\
  (ident e = m \/ ~ official_id m /\ exists s, s ∈ aliases /\ to_ascii_lowercase (alias s) = to_ascii_lowercase m /\ ident e = official s).
Lemma served_Some m e : tables_ok -> served m = Some e <-> serves m e.
Proof.
  intros Hok. unfold served, serves. destruct (find_ident m) as [e'|] eqn:Ei.
  - apply (find_ident_Some m e' Hok) in Ei as [Hin Hm]. split.
    + intros; simplify_eq. auto.
    + intros (He & [Hid|[Hno _]]).
      * f_equal. destruct Hok as (Hn & _). pose proof (find_unique ident m catalog e Hn He Hid).
        pose proof (find_unique ident m catalog e' Hn Hin Hm). congruence.
      * destruct Hno. unfold official_id. rewrite list_elem_of_fmap. eauto.
  - apply find_ident_None in Ei. split.
    + intros H. destruct (resolve m) as [s|] eqn:Er; cbn in H; [|done]. apply (resolve_Some m s Hok) in Er as [Hs Ha].
      apply (find_ident_Some _ _ Hok) in H as [He Hid]. split; [done|]. right. split; [done|]. by exists s.
    + intros (He & [Hid|[_ (s & Hs & Ha & Hid)]]); [destruct Ei; unfold official_id; rewrite list_elem_of_fmap; eauto|].
      rewrite (proj2 (resolve_Some m s Hok)) by done. cbn. by apply find_ident_Some.
Qed.
Lemma served_None m : tables_ok -> served m = None <-> ~ official_id m /\ ~ known_alias m.
Proof.
  intros Hok. unfold served. rewrite <- find_ident_None, <- resolve_None. destruct (find_ident m); [split; [|intros []]; done|].
  destruct (resolve m) as [s|] eqn:Er; cbn; [|done]. split; [|intros []; done]. intros Hn.
  apply (resolve_Some m s Hok) in Er as [Hs _]. apply find_ident_None in Hn. destruct Hn.
  destruct Hok as (_ & _ & HF). rewrite Forall_forall in HF. by apply HF.
Qed.
End Served.

(** ** Usage and prices *)
Record TurnPrices := mkTP { cached_input : Z; input : Z; cache_write : Z; output : Z }.
Record TurnUsage := mkTU {
  input_tokens : Z;
  cache_read_tokens : Z;
  cache_write_tokens : Z;
  output_tokens : Z;
  reasoning_output_tokens : Z
}.
#[global] Instance TurnPrices_eq_dec : EqDecision TurnPrices.
Proof. solve_decision. Defined.
#[global] Instance TurnUsage_eq_dec : EqDecision TurnUsage.
Proof. solve_decision. Defined.
Definition TurnUsage_default : TurnUsage := mkTU 0 0 0 0 0.
Inductive TurnUsageError := ReasoningExceedsOutput | Overflow.

Definition epoch (cached inp out : Z) : Epoch TurnPrices := mkEpoch 0 (mkTP cached inp inp out).

Definition total_tokens (u : TurnUsage) : Z :=
  sat_u64 (sat_u64 (sat_u64 (input_tokens u + cache_read_tokens u) + cache_write_tokens u) + output_tokens u).
Definition is_zero (u : TurnUsage) : bool := total_tokens u =? 0.
Definition validate (u : TurnUsage) : result TurnUsageError () :=
  if output_tokens u <? reasoning_output_tokens u then Err ReasoningExceedsOutput else Ok ().

(** ** Cost *)
Definition leg (tokens rate : Z) : result TurnUsageError Z := ok_or (checked_i128 (tokens * rate)) Overflow.
Fixpoint add_legs (total : Z) (parts : list Z) : result TurnUsageError Z :=
  match parts with
  | [] => Ok total
  | p :: ps => t ← ok_or (checked_i128 (total + p)) Overflow; add_legs t ps
  end.
Definition cost_nanodollars (u : TurnUsage) (p : TurnPrices) : result TurnUsageError Z :=
  _ ← validate u;
  total ← leg (input_tokens u) (input p);
  a ← leg (cache_read_tokens u) (cached_input p);
  b ← leg (cache_write_tokens u) (cache_write p);
  c ← leg (output_tokens u) (output p);
  add_legs total [a; b; c].

(** ** Parsing

    [reasoning_counter]: the provider's spelling of the reasoning counter. *)
Class TurnWire := { reasoning_counter : Value -> Z }.

Definition u64_field (u : Value) (k : string) : Z := default 0 (get k u >>? as_u64).
(** [as_object().map(|o| o.values().filter_map(as_u64).fold(0, saturating_add))] *)
Definition split_total (split : option Value) : Z :=
  match split with
  | Some (VObject fields) => fold_left (fun acc n => sat_u64 (acc + n)) (omap (fun kv => as_u64 kv.2) fields) 0
  | _ => 0
  end.

Section Wire.
Context `{TurnWire}.

Definition usage_from_value (u : Value) : TurnUsage :=
  let split := split_total (get "cache_creation" u) in
  let cache_write := if 0 <? split then split else u64_field u "cache_creation_input_tokens" in
  mkTU (u64_field u "input_tokens") (u64_field u "cache_read_input_tokens") cache_write
    (u64_field u "output_tokens") (reasoning_counter u).
Definition usage_from_response_value (value : Value) : option TurnUsage :=
  usage_from_value <$> get "usage" value.

Definition event_usage (value : Value) : option Value :=
  match get "message" value >>? get "usage" with
  | Some u => Some u
  | None => get "usage" value
  end.
(** A positive report replaces the running count. *)
Definition replace (report old : Z) : Z := if 0 <? report then report else old.
Definition merge_stream_event (u : TurnUsage) (value : Value) : TurnUsage :=
  match usage_from_value <$> event_usage value with
  | None => u
  | Some parsed => mkTU
      (replace (input_tokens parsed) (input_tokens u))
      (replace (cache_read_tokens parsed) (cache_read_tokens u))
      (replace (cache_write_tokens parsed) (cache_write_tokens u))
      (replace (output_tokens parsed) (output_tokens u))
      (replace (reasoning_output_tokens parsed) (reasoning_output_tokens u))
  end.

Section Parser.
Variables (from_slice from_str : string -> option Value).

Definition usage_from_response_json (bytes : string) : option TurnUsage :=
  from_slice bytes >>? usage_from_response_value.
(** One line of the stream: the running usage and whether anything changed. *)
Definition sse_line (st : TurnUsage * bool) (raw : string) : TurnUsage * bool :=
  match data_payload from_str raw with
  | None => st
  | Some value =>
      let u := merge_stream_event st.1 value in
      (u, if decide (u = st.1) then st.2 else true)
  end.
Definition usage_from_sse (bytes : string) : option TurnUsage :=
  if is_utf8 bytes then
    let '(u, seen) := fold_left sse_line (lines bytes) (TurnUsage_default, false) in
    if seen then Some u else None
  else None.
End Parser.
End Wire.

(** ** Schedules *)

(** A loop that keeps the last match ends with the last match. *)
Lemma fold_last_match {A B} (f : A -> bool) (g : A -> B) (l : list A) (d : B) :
  fold_left (fun current x => if f x then g x else current) l d = default d (g <$> last (List.filter f l)).
Proof.
  induction l as [|e l IH] using rev_ind; [done|].
  rewrite fold_left_app, IH, List.filter_app. cbn. destruct (f e); cbn.
  - by rewrite last_snoc.
  - by rewrite app_nil_r.
Qed.
(** The epoch in force is the last one that has started, or the first. *)
Lemma prices_at_spec {P} (s : Schedule P) now :
  prices_at s now = default (eprices s.1) (eprices <$> last (List.filter (fun e => effective_from e <=? now) (epochs s))).
Proof. apply fold_last_match. Qed.
Lemma prices_at_elem {P} (s : Schedule P) now : prices_at s now ∈ eprices <$> epochs s.
Proof.
  rewrite prices_at_spec. destruct (last _) as [e|] eqn:E; cbn; [|left].
  apply last_Some_elem_of in E. rewrite list_elem_of_In, List.filter_In, <- list_elem_of_In in E.
  destruct E as [E _]. apply (list_elem_of_fmap_2 eprices) in E. exact E.
Qed.

(** Schedules are ordered oldest first. *)
Definition oldest_first {P} (s : Schedule P) : Prop := StronglySorted (fun a b => a <= b) (effective_from <$> epochs s).
Lemma last_is_newest {P} (l : list (Epoch P)) e : StronglySorted (fun a b => a <= b) (effective_from <$> l) ->
  last l = Some e -> forall e', e' ∈ l -> effective_from e' <= effective_from e.
Proof.
  induction l as [|x l IH]; intros Hs Hl e' He'; [done|]. cbn in Hs. apply StronglySorted_inv in Hs as [Hs Hx].
  destruct l as [|y l]; [cbn in Hl; simplify_eq; apply list_elem_of_singleton in He' as ->; lia|].
  rewrite last_cons_cons in Hl. apply elem_of_cons in He' as [->|He']; [|by apply IH].
  rewrite Forall_forall in Hx. apply Hx. apply list_elem_of_fmap. exists e. split; [done|]. by apply last_Some_elem_of.
Qed.
Lemma sorted_filter {P} (f : Epoch P -> bool) (l : list (Epoch P)) :
  StronglySorted (fun a b => a <= b) (effective_from <$> l) ->
  StronglySorted (fun a b => a <= b) (effective_from <$> List.filter f l).
Proof.
  induction l as [|x l IH]; intros Hs; [done|]. cbn in Hs. apply StronglySorted_inv in Hs as [Hs Hx]. cbn.
  destruct (f x); [|by apply IH]. cbn. constructor; [by apply IH|]. rewrite Forall_forall in *. intros t Ht.
  apply Hx. rewrite list_elem_of_fmap in *. destruct Ht as (e & -> & He). exists e. split; [done|].
  rewrite list_elem_of_In, List.filter_In, <- list_elem_of_In in He. tauto.
Qed.
(** The last started epoch of an ordered schedule is the newest started one. *)
Lemma newest_started {P} (s : Schedule P) now e : oldest_first s ->
  last (List.filter (fun e => effective_from e <=? now) (epochs s)) = Some e ->
  e ∈ epochs s /\ effective_from e <= now /\
  forall e', e' ∈ epochs s -> effective_from e' <= now -> effective_from e' <= effective_from e.
Proof.
  intros Hs Hl. pose proof (last_Some_elem_of _ _ Hl) as He.
  rewrite list_elem_of_In, List.filter_In, <- list_elem_of_In in He. destruct He as [He Hn].
  split_and!; [done|lia|]. intros e' He' Hn'. eapply last_is_newest; [by apply sorted_filter, Hs|done|].
  rewrite list_elem_of_In, List.filter_In, <- list_elem_of_In. split; [done|lia].
Qed.

(** ** Costs *)
Definition usage_ok (u : TurnUsage) : Prop :=
  is_u64 (input_tokens u) /\ is_u64 (cache_read_tokens u) /\ is_u64 (cache_write_tokens u)
  /\ is_u64 (output_tokens u) /\ is_u64 (reasoning_output_tokens u).
Definition rate_ok (z : Z) : Prop := 0 <= z <= 1000000000.
Definition prices_ok (p : TurnPrices) : Prop :=
  rate_ok (cached_input p) /\ rate_ok (input p) /\ rate_ok (cache_write p) /\ rate_ok (output p).
#[global] Instance rate_ok_dec z : Decision (rate_ok z).
Proof. unfold rate_ok. apply _. Defined.
#[global] Instance prices_ok_dec p : Decision (prices_ok p).
Proof. unfold prices_ok. apply _. Defined.
(** The price of a turn, leg by leg; reasoning is part of the output. *)
Definition exact_cost (u : TurnUsage) (p : TurnPrices) : Z :=
  input_tokens u * input p + cache_read_tokens u * cached_input p
  + cache_write_tokens u * cache_write p + output_tokens u * output p.

Lemma turn_leg_ok t r : is_u64 t -> rate_ok r -> leg t r = Ok (t * r) /\ 0 <= t * r <= u64_max * 1000000000.
Proof.
  intros Ht Hr. assert (0 <= t * r <= u64_max * 1000000000) by (unfold rate_ok in Hr; width_lia || (unfold_widths; nia)).
  unfold leg. rewrite (proj2 (checked_i128_Some (t * r) (t * r))); [done|]. split; [done|width_lia].
Qed.
Lemma add_legs_ok parts : forall total, Forall (fun p => 0 <= p <= u64_max * 1000000000) parts ->
  0 <= total -> total + Z.of_nat (length parts) * (u64_max * 1000000000) <= i128_max ->
  add_legs total parts = Ok (total + sumZ id parts).
Proof.
  induction parts as [|p ps IH]; intros total Hp Ht Hm; cbn; [f_equal; lia|].
  apply Forall_cons in Hp as [Hp Hps]. cbn [length] in Hm.
  rewrite (proj2 (checked_i128_Some _ (total + p))) by (split; [done|width_lia]). cbn.
  rewrite IH; [unfold id; f_equal; lia|done|lia|lia].
Qed.
Lemma cost_cases u p : usage_ok u -> prices_ok p ->
  cost_nanodollars u p = if output_tokens u <? reasoning_output_tokens u then Err ReasoningExceedsOutput
                         else Ok (exact_cost u p).
Proof.
  intros (? & ? & ? & ? & ?) (? & ? & ? & ?). unfold cost_nanodollars, validate.
  case_match; [done|]. cbn [mbind result_bind].
  destruct (turn_leg_ok (input_tokens u) (input p)) as [-> ?]; [done..|]. cbn [mbind result_bind].
  destruct (turn_leg_ok (cache_read_tokens u) (cached_input p)) as [-> ?]; [done..|]. cbn [mbind result_bind].
  destruct (turn_leg_ok (cache_write_tokens u) (cache_write p)) as [-> ?]; [done..|]. cbn [mbind result_bind].
  destruct (turn_leg_ok (output_tokens u) (output p)) as [-> ?]; [done..|]. cbn [mbind result_bind].
  rewrite add_legs_ok; [|by repeat (apply Forall_cons_2; [done|])|lia|cbn; width_lia].
  cbn. unfold exact_cost, id. f_equal. lia.
Qed.

(** ** Streams *)
Section Streams.
Context `{TurnWire}.

(** The count an event reports for one leg; 0 is no report. *)
Definition report (f : TurnUsage -> Z) (v : Value) : Z :=
  from_option (fun u => f (usage_from_value u)) 0 (event_usage v).
Definition last_report (f : TurnUsage -> Z) (evs : list Value) : Z :=
  default 0 (last (List.filter (fun n => 0 <? n) (report f <$> evs))).
Definition turn_legs : list (TurnUsage -> Z) :=
  [input_tokens; cache_read_tokens; cache_write_tokens; output_tokens; reasoning_output_tokens].

Lemma merge_leg f u v : f ∈ turn_legs -> f (merge_stream_event u v) = replace (report f v) (f u).
Proof.
  intros Hf. unfold merge_stream_event, report. unfold turn_legs in Hf.
  destruct (event_usage v); cbn;
    repeat (apply elem_of_cons in Hf as [->|Hf]; [done|]); by apply elem_of_nil in Hf.
Qed.
Lemma turn_legs_ext u w : (forall f, f ∈ turn_legs -> f u = f w) -> u = w.
Proof.
  destruct u as [a b c d e], w as [a' b' c' d' e']. unfold turn_legs. intros Hf.
  pose proof (Hf input_tokens ltac:(set_solver)). pose proof (Hf cache_read_tokens ltac:(set_solver)).
  pose proof (Hf cache_write_tokens ltac:(set_solver)). pose proof (Hf output_tokens ltac:(set_solver)).
  pose proof (Hf reasoning_output_tokens ltac:(set_solver)). by simplify_eq/=.
Qed.
Lemma merge_fold_leg f evs : f ∈ turn_legs ->
  f (fold_left merge_stream_event evs TurnUsage_default) = last_report f evs.
Proof.
  intros Hf. unfold last_report. induction evs as [|v evs IH] using rev_ind.
  - unfold turn_legs in Hf. repeat (apply elem_of_cons in Hf as [->|Hf]; [done|]). by apply elem_of_nil in Hf.
  - rewrite fold_left_app. cbn. rewrite merge_leg, IH by done. rewrite fmap_app, List.filter_app. cbn.
    unfold replace. destruct (0 <? report f v); [by rewrite last_snoc|by rewrite app_nil_r].
Qed.

Section Parser.
Variable from_str : string -> option Value.

#[local] Arguments data_payload : simpl never.
(** No event of the list reports anything. *)
Definition silent (evs : list Value) : Prop := forall v f, v ∈ evs -> f ∈ turn_legs -> report f v <= 0.

Lemma silent_last_report f evs : f ∈ turn_legs -> silent evs -> last_report f evs = 0.
Proof.
  intros Hf Hs. unfold last_report. replace (List.filter _ _) with (@nil Z); [done|].
  induction evs as [|v evs IH]; [done|]. cbn.
  rewrite (proj2 (Z.ltb_ge 0 (report f v))); [apply IH|apply Hs; set_solver].
  intros w g Hw. apply Hs. set_solver.
Qed.
Lemma merge_silent u v : (forall f, f ∈ turn_legs -> report f v <= 0) -> merge_stream_event u v = u.
Proof.
  intros Hs. apply turn_legs_ext. intros f Hf. rewrite merge_leg by done. unfold replace.
  by rewrite (proj2 (Z.ltb_ge 0 (report f v))) by auto.
Qed.
Lemma silent_dec v : (forall f, f ∈ turn_legs -> report f v <= 0) \/ (exists f, f ∈ turn_legs /\ 0 < report f v).
Proof.
  destruct (decide (Forall (fun f => report f v <= 0) turn_legs)) as [Hs|Hs].
  - left. by apply Forall_forall.
  - right. apply not_Forall_Exists in Hs; [|apply _]. apply Exists_exists in Hs as (f & Hf & Hn). exists f. split; [done|]. cbn in Hn. lia.
Qed.
(** The running state: the merged usage, and [seen] exactly when an event of the
    prefix reported something. *)
Lemma sse_line_events ls : forall evs u seen,
  u = fold_left merge_stream_event evs TurnUsage_default -> (seen = false <-> silent evs) ->
  let st := fold_left (sse_line from_str) ls (u, seen) in
  let all := evs ++ omap (data_payload from_str) ls in
  st.1 = fold_left merge_stream_event all TurnUsage_default /\ (st.2 = false <-> silent all).
Proof.
  induction ls as [|l ls IH]; intros evs u seen Hu Hs; cbn; [by rewrite app_nil_r|].
  unfold sse_line at 2 4. destruct (data_payload from_str l) as [v|] eqn:Hv; [|by apply IH].
  cbn [fst snd]. rewrite (cons_middle v evs), app_assoc. apply IH.
  - by rewrite fold_left_app, <- Hu.
  - assert (Happ : silent (evs ++ [v]) <-> silent evs /\ forall f, f ∈ turn_legs -> report f v <= 0).
    { unfold silent. setoid_rewrite elem_of_app. setoid_rewrite list_elem_of_singleton. naive_solver. }
    rewrite Happ, <- Hs. destruct (silent_dec v) as [Hq|(f & Hf & Hpos)].
    + rewrite merge_silent by done. rewrite decide_True by done. naive_solver.
    + split; [|intros [_ Hq]; specialize (Hq f Hf); lia]. case_decide as Heq; [|done]. intros ->.
      apply (f_equal f) in Heq. rewrite merge_leg in Heq by done. unfold replace in Heq.
      rewrite (proj2 (Z.ltb_lt 0 _)) in Heq by done. rewrite Hu, merge_fold_leg in Heq by done.
      rewrite silent_last_report in Heq by (done || by apply Hs). lia.
Qed.
Lemma usage_from_sse_events bytes : is_utf8 bytes = true ->
  let evs := sse_events from_str bytes in
  (usage_from_sse from_str bytes = None /\ silent evs) \/
  (usage_from_sse from_str bytes = Some (fold_left merge_stream_event evs TurnUsage_default) /\ ~ silent evs).
Proof.
  intros Hutf. cbn zeta. unfold usage_from_sse, sse_events. rewrite Hutf.
  pose proof (sse_line_events (lines bytes) [] TurnUsage_default false eq_refl) as Hst. cbn in Hst.
  destruct Hst as [H1 H2]; [split; [intros _ v f Hv; by apply elem_of_nil in Hv|done]|].
  destruct (fold_left _ (lines bytes) _) as [u seen]. cbn in *. subst u. destruct seen; [right|left; naive_solver].
  split; [done|]. intros Hs. apply H2 in Hs. done.
Qed.
End Parser.
End Streams.

(** ** Well-formed values

    [serde_json] keeps non-negative integers as [u64]; a value is well-formed
    when all of its are. *)
Fixpoint value_ok (v : Value) : Prop :=
  match v with
  | VNumber (PosInt z) => is_u64 z
  | VArray l => foldr (fun x acc => value_ok x /\ acc) True l
  | VObject fields => foldr (fun kv acc => value_ok kv.2 /\ acc) True fields
  | _ => True
  end.
Lemma value_ok_object fields : value_ok (VObject fields) <-> Forall (fun kv => value_ok kv.2) fields.
Proof.
  cbn. induction fields as [|kv fields IH]; cbn; [by split|]. rewrite IH, Forall_cons. done.
Qed.
Lemma get_ok k v w : value_ok v -> get k v = Some w -> value_ok w.
Proof.
  destruct v; try done. rewrite value_ok_object. cbn. intros Hf Hg.
  destruct (List.find _ fields) as [kv|] eqn:E; [|done]. cbn in Hg. simplify_eq.
  apply List.find_some in E as [E _]. rewrite Forall_forall in Hf. apply Hf. by apply list_elem_of_In.
Qed.
Lemma as_u64_ok v n : value_ok v -> as_u64 v = Some n -> is_u64 n.
Proof. destruct v as [| |[]| | |]; cbn; intros; by simplify_eq. Qed.
Lemma u64_field_ok k v : value_ok v -> is_u64 (u64_field v k).
Proof.
  intros Hv. unfold u64_field. destruct (get k v) as [w|] eqn:E; cbn; [|width_lia].
  destruct (as_u64 w) as [n|] eqn:En; cbn; [|width_lia]. eapply as_u64_ok; [|done]. by eapply get_ok.
Qed.
Lemma sat_fold_ok l : forall acc, is_u64 acc -> is_u64 (fold_left (fun acc n => sat_u64 (acc + n)) l acc).
Proof. induction l as [|n l IH]; intros acc Hacc; [done|]. cbn. apply IH. width_lia. Qed.
Lemma split_total_ok o : is_u64 (split_total o).
Proof. destruct o as [[]|]; cbn; try width_lia. apply sat_fold_ok. width_lia. Qed.

(** A provider's reasoning counter reads a [u64] from a well-formed value. *)
Class TurnWireOk `{TurnWire} := reasoning_counter_ok v : value_ok v -> is_u64 (reasoning_counter v).
(** What a JSON parser promises: its non-negative integers are [u64]. *)
Definition parser_ok (parse : string -> option Value) : Prop := forall s v, parse s = Some v -> value_ok v.

Section Typing.
Context `{TurnWireOk}.

Lemma usage_from_value_ok v : value_ok v -> usage_ok (usage_from_value v).
Proof.
  intros Hv. unfold usage_from_value, usage_ok. cbn.
  split_and!; try (by apply u64_field_ok); [|by apply reasoning_counter_ok].
  case_match; [apply split_total_ok|by apply u64_field_ok].
Qed.
Lemma event_usage_ok v u : value_ok v -> event_usage v = Some u -> value_ok u.
Proof.
  intros Hv. unfold event_usage. destruct (get "message" v) as [m|] eqn:Em; cbn; [|by apply get_ok].
  destruct (get "usage" m) as [w|] eqn:Ew; [|by apply get_ok].
  intros; simplify_eq. eapply get_ok; [|done]. by eapply get_ok.
Qed.
Lemma merge_ok u v : usage_ok u -> value_ok v -> usage_ok (merge_stream_event u v).
Proof.
  intros Hu Hv. unfold merge_stream_event. destruct (event_usage v) as [w|] eqn:E; cbn; [|done].
  pose proof (usage_from_value_ok w (event_usage_ok v w Hv E)) as Hw.
  unfold usage_ok, replace in *. cbn. split_and!; case_match; tauto.
Qed.

Lemma merge_fold_ok evs : forall u, usage_ok u -> (forall v, v ∈ evs -> value_ok v) ->
  usage_ok (fold_left merge_stream_event evs u).
Proof.
  induction evs as [|v evs IH]; intros u Hu Hv; [done|]. cbn. apply IH; [|set_solver].
  apply merge_ok; [done|]. set_solver.
Qed.
Lemma usage_from_response_ok from_slice (Hslice : parser_ok from_slice) bytes u :
  usage_from_response_json from_slice bytes = Some u -> usage_ok u.
Proof.
  unfold usage_from_response_json. destruct (from_slice bytes) as [v|] eqn:E; cbn; [|done].
  unfold usage_from_response_value. destruct (get "usage" v) as [w|] eqn:Ew; cbn; [|done].
  intros; simplify_eq. apply usage_from_value_ok. eapply get_ok; [|done]. by eapply Hslice.
Qed.

Section Parser.
Variable from_str : string -> option Value.
Hypothesis Hstr : parser_ok from_str.

Lemma sse_events_ok bytes v : v ∈ sse_events from_str bytes -> value_ok v.
Proof.
  unfold sse_events. rewrite list_elem_of_omap. intros (raw & _ & Hp). unfold data_payload in Hp.
  destruct (strip_prefix _ _) as [r|]; cbn in Hp; [|done]. case_match; [done|]. by eapply Hstr.
Qed.
Lemma usage_from_sse_ok bytes u : usage_from_sse from_str bytes = Some u -> usage_ok u.
Proof.
  intros Hu. destruct (is_utf8 bytes) eqn:Hutf; [|unfold usage_from_sse in Hu; by rewrite Hutf in Hu].
  destruct (usage_from_sse_events from_str bytes Hutf) as [[Hn _]|[Hs _]]; [congruence|].
  rewrite Hs in Hu. simplify_eq. apply merge_fold_ok; [|apply sse_events_ok].
  unfold usage_ok. cbn. width_lia.
Qed.
End Parser.
End Typing.

(** ** The two providers' spellings *)
Definition kimi_wire : TurnWire := {| reasoning_counter u := u64_field u "reasoning_output_tokens" |}.
Definition glm_wire : TurnWire :=
  {| reasoning_counter u := u64_field u "reasoning_tokens" `max` u64_field u "reasoning_output_tokens" |}.
#[global] Instance kimi_wire_ok : @TurnWireOk kimi_wire.
Proof. intros v Hv. by apply u64_field_ok. Qed.
#[global] Instance glm_wire_ok : @TurnWireOk glm_wire.
Proof.
  intros v Hv. cbn. pose proof (u64_field_ok "reasoning_tokens" v Hv).
  pose proof (u64_field_ok "reasoning_output_tokens" v Hv). width_lia.
Qed.

(** A stream is metered by its last reports.  Every count of the usage read
    from an event stream is the last positive count any event reported for it
    (cumulative counts are replaced, never summed, and a later event without a
    count erases nothing); there is no usage exactly when no event reported
    anything or the bytes are not text. *)
Theorem turn_stream_exact (wire : TurnWire) (from_str : string -> option Value) (bytes : string) :
  let evs := sse_events from_str bytes in
  (usage_from_sse from_str bytes = None <-> is_utf8 bytes = false \/ silent evs) /\
  (forall u f, usage_from_sse from_str bytes = Some u -> f ∈ turn_legs -> f u = last_report f evs).
Proof.
  cbn zeta. destruct (is_utf8 bytes) eqn:Hutf.
  - destruct (usage_from_sse_events from_str bytes Hutf) as [[-> Hs]|[-> Hs]].
    + split; [by split; [right|]|]. intros; simplify_eq.
    + split; [split; [done|intros [?|?]; done]|]. intros u f ? Hf; simplify_eq. by apply merge_fold_leg.
  - unfold usage_from_sse. rewrite Hutf. split; [by split; [left|]|done].
Qed.

(** A parser for the witnesses: it knows one report. *)
Definition demo_usage : Value := VObject [("input_tokens", VNumber (PosInt 1000)); ("output_tokens", VNumber (PosInt 7))].
Definition demo_parser (s : string) : option Value :=
  if bool_decide (s = "{u}") then Some (VObject [("usage", demo_usage)]) else None.
Lemma demo_parser_ok : parser_ok demo_parser.
Proof. intros s v. unfold demo_parser. case_bool_decide; [|done]. intros; simplify_eq. cbn. width_lia. Qed.

Lemma turn_stream_exact_witness :
  usage_from_sse (H:=kimi_wire) demo_parser "data: {u}" = Some (mkTU 1000 0 0 7 0) /\
  last_report (H:=kimi_wire) output_tokens (sse_events demo_parser "data: {u}") = 7.
Proof.
  split; [reflexivity|].
  destruct (turn_stream_exact kimi_wire demo_parser "data: {u}") as [_ HS].
  symmetry. apply (HS (mkTU 1000 0 0 7 0) output_tokens); [reflexivity|]. unfold turn_legs. do 3 right. left.
Defined.

(** Usage is well-typed and pricing is total.  Whatever a well-formed parser
    returns for a body or a stream, every count of the usage is a 64-bit number;
    priced with any card up to one dollar a token the cost is the exact sum of
    the legs - reasoning counted once, as output - or, exactly when the reported
    reasoning exceeds the output it is part of, the typed refusal.  Overflow never
    happens. *)
Theorem turn_usage_priced (wire : TurnWire) (wok : TurnWireOk) (from_slice from_str : string -> option Value)
    (Hslice : parser_ok from_slice) (Hstr : parser_ok from_str) (bytes : string) (u : TurnUsage) (p : TurnPrices)
    (Hu : usage_from_response_json from_slice bytes = Some u \/ usage_from_sse from_str bytes = Some u)
    (Hp : prices_ok p) :
  usage_ok u /\
  (cost_nanodollars u p = Err ReasoningExceedsOutput <-> output_tokens u < reasoning_output_tokens u) /\
  (reasoning_output_tokens u <= output_tokens u -> cost_nanodollars u p = Ok (exact_cost u p)) /\
  cost_nanodollars u p <> Err Overflow.
Proof.
  assert (usage_ok u) as Hok by (destruct Hu; [by apply (@usage_from_response_ok wire wok from_slice Hslice bytes)
      |by apply (@usage_from_sse_ok wire wok from_str Hstr bytes)]).
  rewrite (cost_cases u p Hok Hp). split; [done|]. destruct (Z.ltb_spec (output_tokens u) (reasoning_output_tokens u)).
  - split; [done|]. split; [lia|done].
  - split; [split; [done|lia]|]. done.
Qed.
Lemma turn_usage_priced_witness :
  cost_nanodollars (mkTU 1000 0 0 7 0) (mkTP 300 3000 3000 15000) = Ok 3105000.
Proof.
  apply (turn_usage_priced kimi_wire kimi_wire_ok demo_parser demo_parser demo_parser_ok demo_parser_ok "data: {u}"
    (mkTU 1000 0 0 7 0) (mkTP 300 3000 3000 15000)); [right; reflexivity| |cbn; lia].
  unfold prices_ok, rate_ok. cbn. lia.
Defined.
