(* ===== verification/KimiTariffs.v ===== *)
(** * KIMI price catalogue ([crates/metering/src/kimi.rs])

    The official models with their effective-dated rate cards, the subscription
    aliases, and the resolution of a served model to the card that prices it. *)
From S2P Require Import Prelude Text Tariffs MeterUsage TurnMeter.

Module Kimi.
Record KimiModelSpec := mkSpec {
  spec_id : string; spec_display_name : string; spec_input_token_limit : Z; spec_prices : TurnPrices
}.
Record KimiSubscriptionModel := mkSub {
  alias : string; created : Z; wire_model : string; official_model : string; sub_input_token_limit : Z
}.
Record CatalogEntry := mkEntry {
  id : string; display_name : string; input_token_limit : Z; tariff_family : string; schedule : Schedule TurnPrices
}.

Definition SCHEDULE_K3 : Schedule TurnPrices := (epoch 300 3000 15000, []).
Definition SCHEDULE_K27_CODE : Schedule TurnPrices := (epoch 190 950 4000, []).
Definition SCHEDULE_K27_CODE_HIGHSPEED : Schedule TurnPrices := (epoch 380 1900 8000, []).
Definition SCHEDULE_K26 : Schedule TurnPrices := (epoch 160 950 4000, []).

Definition CONTEXT_256K : Z := 262144.
Definition CONTEXT_1M : Z := 1048576.

Definition CATALOG : list CatalogEntry :=
  [ mkEntry "kimi-k3" "Kimi K3" CONTEXT_1M "moonshot/kimi/kimi-k3" SCHEDULE_K3;
    mkEntry "kimi-k2.7-code" "Kimi K2.7 Code" CONTEXT_256K "moonshot/kimi/kimi-k2.7-code" SCHEDULE_K27_CODE;
    mkEntry "kimi-k2.7-code-highspeed" "Kimi K2.7 Code HighSpeed" CONTEXT_256K
      "moonshot/kimi/kimi-k2.7-code-highspeed" SCHEDULE_K27_CODE_HIGHSPEED;
    mkEntry "kimi-k2.6" "Kimi K2.6" CONTEXT_256K "moonshot/kimi/kimi-k2.6" SCHEDULE_K26 ].

Definition KIMI_K27_CODE_RELEASED : Z := 1781222400.
Definition KIMI_K27_CODE_HIGHSPEED_RELEASED : Z := 1783555200.
Definition KIMI_K3_RELEASED : Z := 1784160000.
Definition KIMI_K3_256K_RELEASED : Z := KIMI_K3_RELEASED.

Definition SUBSCRIPTION_MODELS : list KimiSubscriptionModel :=
  [ mkSub "kimi-for-coding" KIMI_K27_CODE_RELEASED "kimi-for-coding" "kimi-k2.7-code" CONTEXT_256K;
    mkSub "kimi-for-coding-highspeed" KIMI_K27_CODE_HIGHSPEED_RELEASED "kimi-for-coding-highspeed"
      "kimi-k2.7-code-highspeed" CONTEXT_256K;
    mkSub "k3" KIMI_K3_RELEASED "k3" "kimi-k3" CONTEXT_1M;
    mkSub "k3[1m]" KIMI_K3_RELEASED "k3" "kimi-k3" CONTEXT_1M;
    mkSub "k3-256k" KIMI_K3_256K_RELEASED "k3-256k" "kimi-k3" CONTEXT_256K ].

Definition kimi_catalog_at (now_unix : Z) : list KimiModelSpec :=
  (fun e => mkSpec (id e) (display_name e) (input_token_limit e) (prices_at (schedule e) now_unix)) <$> CATALOG.
Definition find_id (model_id : string) : option CatalogEntry := find_ident id CATALOG model_id.
Definition kimi_prices_at (model_id : string) (now_unix : Z) : option TurnPrices :=
  (fun e => prices_at (schedule e) now_unix) <$> find_id model_id.
Definition kimi_subscription_models : list KimiSubscriptionModel := SUBSCRIPTION_MODELS.
Definition kimi_resolve_subscription_model (a : string) : option KimiSubscriptionModel :=
  resolve alias SUBSCRIPTION_MODELS a.
Definition kimi_matched_tariff_at (model_id : string) (now_unix : Z) : option (string * TurnPrices) :=
  match find_id model_id with
  | Some entry => Some (tariff_family entry, prices_at (schedule entry) now_unix)
  | None =>
      resolved ← kimi_resolve_subscription_model model_id;
      entry ← find_id (official_model resolved);
      Some (tariff_family entry, prices_at (schedule entry) now_unix)
  end.
Definition kimi_prices_for_served_model (model_id : string) (now_unix : Z) : option TurnPrices :=
  snd <$> kimi_matched_tariff_at model_id now_unix.
Definition kimi_compiled_tariffs_at (now_unix : Z) : list (string * TurnPrices) :=
  (fun e => (tariff_family e, prices_at (schedule e) now_unix)) <$> CATALOG.
Definition find_family (family : string) : option CatalogEntry :=
  List.find (fun e => bool_decide (tariff_family e = family)) CATALOG.
Definition kimi_tariff_has_future_epoch_at (family : string) (now_unix : Z) : bool :=
  match find_family family with
  | Some entry => existsb (fun ep => now_unix <? effective_from ep) (epochs (schedule entry))
  | None => false
  end.
Definition kimi_tariff_seed_safe (family : string) : bool :=
  match find_family family with
  | Some entry => Nat.eqb (length (epochs (schedule entry))) 1
  | None => false
  end.

(** ** Resolution *)
Lemma kimi_tables_ok : tables_ok id alias official_model CATALOG SUBSCRIPTION_MODELS.
Proof. split_and!; apply (bool_decide_unpack _); vm_compute; exact I. Qed.
Lemma kimi_matched_served model now : kimi_matched_tariff_at model now
  = (fun e => (tariff_family e, prices_at (schedule e) now)) <$> served id alias official_model CATALOG SUBSCRIPTION_MODELS model.
Proof.
  unfold kimi_matched_tariff_at, served, find_id, kimi_resolve_subscription_model.
  destruct (find_ident id CATALOG model); [done|]. destruct (resolve _ _ _) as [s|]; [|done]. cbn [mbind option_bind].
  by destruct (find_ident id CATALOG (official_model s)).
Qed.
Lemma kimi_catalog_prices_ok e now : e ∈ CATALOG -> prices_ok (prices_at (schedule e) now).
Proof.
  intros He. assert (Forall (fun e => Forall prices_ok (eprices <$> epochs (schedule e))) CATALOG) as HF
    by (apply (bool_decide_unpack _); vm_compute; exact I).
  rewrite Forall_forall in HF. specialize (HF e He). rewrite Forall_forall in HF. apply HF, prices_at_elem.
Qed.
Lemma families_distinct : NoDup (tariff_family <$> CATALOG).
Proof. apply (bool_decide_unpack _); vm_compute; exact I. Qed.

(** A served KIMI model is priced by exactly one card or not at all.  The card
    is that of the official id, or of the official model behind an alias (in any
    case), which is always catalogued; an id that is neither has no price, so an
    unknown model is never charged at a neighbour's rate.  The card is the one the
    compiled inventory lists for its family, families are unique, and every rate
    is within the bounds under which pricing is exact. *)
Theorem kimi_served_model_priced (model : string) (now : Z) :
  (forall fam p, kimi_matched_tariff_at model now = Some (fam, p) <->
     exists e, serves id alias official_model CATALOG SUBSCRIPTION_MODELS model e /\
       fam = tariff_family e /\ p = prices_at (schedule e) now) /\
  (kimi_matched_tariff_at model now = None <->
     ~ official_id id CATALOG model /\ ~ known_alias alias SUBSCRIPTION_MODELS model) /\
  (forall fam p, kimi_matched_tariff_at model now = Some (fam, p) ->
     (fam, p) ∈ kimi_compiled_tariffs_at now /\ prices_ok p /\ kimi_prices_for_served_model model now = Some p) /\
  NoDup (kimi_compiled_tariffs_at now).*1.
Proof.
  unfold kimi_prices_for_served_model. rewrite kimi_matched_served, <- (served_None _ _ _ _ _ _ kimi_tables_ok), fmap_None.
  assert (Hs : forall fam p, (fun e => (tariff_family e, prices_at (schedule e) now))
      <$> served id alias official_model CATALOG SUBSCRIPTION_MODELS model = Some (fam, p) <->
    exists e, serves id alias official_model CATALOG SUBSCRIPTION_MODELS model e /\
      fam = tariff_family e /\ p = prices_at (schedule e) now).
  { intros fam p. rewrite fmap_Some. setoid_rewrite (served_Some _ _ _ _ _ _ _ kimi_tables_ok). naive_solver. }
  split_and!; [done..| |].
  - intros fam p Hm. rewrite Hm. apply Hs in Hm as (e & [He _] & -> & ->).
    split; [|split; [by apply kimi_catalog_prices_ok|done]]. unfold kimi_compiled_tariffs_at. rewrite list_elem_of_fmap. by exists e.
  - unfold kimi_compiled_tariffs_at. rewrite <- list_fmap_compose. apply families_distinct.
Qed.
Lemma kimi_served_model_priced_witness :
  kimi_matched_tariff_at "K3[1M]" 0 = Some ("moonshot/kimi/kimi-k3", mkTP 300 3000 3000 15000) /\
  prices_ok (mkTP 300 3000 3000 15000).
Proof.
  split; [reflexivity|]. destruct (kimi_served_model_priced "K3[1M]" 0) as (_ & _ & HA & _).
  apply (HA "moonshot/kimi/kimi-k3" (mkTP 300 3000 3000 15000)). reflexivity.
Defined.
End Kimi.
