(* ===== verification/GlmTariffs.v ===== *)
(** * GLM price catalogue and native credits ([crates/metering/src/glm.rs])

    The dollar cards, the independent native credit cards with the off-peak rule,
    and the resolution of served models. *)
From S2P Require Import Prelude Text Tariffs MeterUsage TurnMeter.

Module Glm.
Record GlmModelSpec := mkSpec {
  spec_id : string; spec_display_name : string; spec_input_token_limit : Z; spec_max_output_tokens : Z; spec_prices : TurnPrices
}.
Record GlmSubscriptionModel := mkSub {
  alias : string; official_model : string; sub_input_token_limit : Z; sub_max_output_tokens : Z
}.
Record GlmCreditRates := mkRates { input_tenths : Z; cached_input_tenths : Z; output_tenths : Z }.
Record CatalogEntry := mkEntry {
  id : string; display_name : string; input_token_limit : Z; max_output_tokens : Z;
  schedule : Schedule TurnPrices; tariff_family : string;
  credit_family : option string; credit_rates : option GlmCreditRates
}.

Definition SCHEDULE_GLM_5_2 : Schedule TurnPrices := (epoch 260 1400 4400, []).
Definition SCHEDULE_GLM_5_TURBO : Schedule TurnPrices := (epoch 240 1200 4000, []).
Definition SCHEDULE_GLM_4_7 : Schedule TurnPrices := (epoch 110 600 2200, []).
Definition SCHEDULE_GLM_5 : Schedule TurnPrices := (epoch 200 1000 3200, []).
Definition CONTEXT_1M : Z := 1000000.
Definition CONTEXT_200K : Z := 200000.
Definition MAX_OUTPUT : Z := 131072.
Definition CREDIT_GLM_5_2 : GlmCreditRates := mkRates 69 17 240.
Definition CREDIT_GLM_5_TURBO : GlmCreditRates := mkRates 57 15 210.
Definition CREDIT_GLM_4_7 : GlmCreditRates := mkRates 46 12 160.

Definition CATALOG : list CatalogEntry :=
  [ mkEntry "glm-5.2" "GLM-5.2" CONTEXT_1M MAX_OUTPUT SCHEDULE_GLM_5_2
      "zhipu/glm/glm-5.2" (Some "zhipu/glm-credits/glm-5.2") (Some CREDIT_GLM_5_2);
    mkEntry "glm-5-turbo" "GLM-5 Turbo" CONTEXT_200K MAX_OUTPUT SCHEDULE_GLM_5_TURBO
      "zhipu/glm/glm-5-turbo" (Some "zhipu/glm-credits/glm-5-turbo") (Some CREDIT_GLM_5_TURBO);
    mkEntry "glm-4.7" "GLM-4.7" CONTEXT_200K MAX_OUTPUT SCHEDULE_GLM_4_7
      "zhipu/glm/glm-4.7" (Some "zhipu/glm-credits/glm-4.7") (Some CREDIT_GLM_4_7);
    mkEntry "glm-5.1" "GLM-5.1" CONTEXT_1M MAX_OUTPUT SCHEDULE_GLM_5_2 "zhipu/glm/glm-5.1" None None;
    mkEntry "glm-5" "GLM-5" CONTEXT_1M MAX_OUTPUT SCHEDULE_GLM_5 "zhipu/glm/glm-5" None None ].
Definition SUBSCRIPTION_MODELS : list GlmSubscriptionModel :=
  [ mkSub "glm-5.2" "glm-5.2" CONTEXT_1M MAX_OUTPUT;
    mkSub "glm-5.2[1m]" "glm-5.2" CONTEXT_1M MAX_OUTPUT;
    mkSub "glm-5-turbo" "glm-5-turbo" CONTEXT_200K MAX_OUTPUT;
    mkSub "glm-4.7" "glm-4.7" CONTEXT_200K MAX_OUTPUT ].

Definition glm_catalog_at (now_unix : Z) : list GlmModelSpec :=
  (fun e => mkSpec (id e) (display_name e) (input_token_limit e) (max_output_tokens e) (prices_at (schedule e) now_unix)) <$> CATALOG.
Definition find_id (model_id : string) : option CatalogEntry := find_ident id CATALOG model_id.
Definition glm_prices_at (model_id : string) (now_unix : Z) : option TurnPrices :=
  (fun e => prices_at (schedule e) now_unix) <$> find_id model_id.
Definition glm_subscription_models : list GlmSubscriptionModel := SUBSCRIPTION_MODELS.
Definition glm_resolve_subscription_model (a : string) : option GlmSubscriptionModel :=
  resolve alias SUBSCRIPTION_MODELS a.
Definition glm_matched_tariff_at (model_id : string) (now_unix : Z) : option (string * TurnPrices) :=
  match find_id model_id with
  | Some entry => Some (tariff_family entry, prices_at (schedule entry) now_unix)
  | None =>
      resolved ← glm_resolve_subscription_model model_id;
      entry ← find_id (official_model resolved);
      Some (tariff_family entry, prices_at (schedule entry) now_unix)
  end.
Definition glm_prices_for_served_model (model_id : string) (now_unix : Z) : option TurnPrices :=
  snd <$> glm_matched_tariff_at model_id now_unix.
(** [Option::zip] *)
Definition zip {A B} (a : option A) (b : option B) : option (A * B) :=
  match a, b with Some x, Some y => Some (x, y) | _, _ => None end.
Definition credit_card (entry : CatalogEntry) : option (string * GlmCreditRates) :=
  zip (credit_family entry) (credit_rates entry).
Definition glm_matched_credit_rates_at (model_id : string) : option (string * GlmCreditRates) :=
  match find_id model_id with
  | Some entry => credit_card entry
  | None =>
      resolved ← glm_resolve_subscription_model model_id;
      entry ← find_id (official_model resolved);
      credit_card entry
  end.
Definition glm_credit_rates_for_served_model (model_id : string) : option GlmCreditRates :=
  snd <$> glm_matched_credit_rates_at model_id.
Definition glm_compiled_tariffs_at (now_unix : Z) : list (string * TurnPrices) :=
  (fun e => (tariff_family e, prices_at (schedule e) now_unix)) <$> CATALOG.
Definition find_family (family : string) : option CatalogEntry :=
  List.find (fun e => bool_decide (tariff_family e = family)) CATALOG.
Definition glm_tariff_has_future_epoch_at (family : string) (now_unix : Z) : bool :=
  match find_family family with
  | Some entry => existsb (fun ep => now_unix <? effective_from ep) (epochs (schedule entry))
  | None => false
  end.
Definition glm_tariff_seed_safe (family : string) : bool :=
  match find_family family with
  | Some entry => Nat.eqb (length (epochs (schedule entry))) 1
  | None => false
  end.
Definition glm_compiled_credit_rates : list (string * GlmCreditRates) := omap credit_card CATALOG.

(** Usage, streams and dollar costs are those of [TurnMeter], with GLM's two
    spellings of the reasoning counter. *)
Definition glm_usage_from_value : Value -> TurnUsage := usage_from_value (H:=glm_wire).
Definition glm_merge_stream_event : TurnUsage -> Value -> TurnUsage := merge_stream_event (H:=glm_wire).
Definition glm_usage_from_sse (from_str : string -> option Value) : string -> option TurnUsage :=
  usage_from_sse (H:=glm_wire) from_str.
Definition glm_cost_nanodollars : TurnUsage -> TurnPrices -> result TurnUsageError Z := cost_nanodollars.

Definition glm_is_peak_utc (unix_secs : Z) : bool :=
  let sgt := sat_i64 (unix_secs + 8 * 3600) in
  let days := sgt / 86400 in
  let secs_of_day := sgt mod 86400 in
  let weekday := (days + 3) mod 7 in
  let hour := secs_of_day / 3600 in
  (weekday <=? 4) && ((14 <=? hour) && (hour <? 18)).
Definition glm_credit_cost_micro (u : TurnUsage) (rates : GlmCreditRates) (off_peak : bool) : result TurnUsageError Z :=
  _ ← validate u;
  weighted ← leg (input_tokens u) (input_tenths rates);
  a ← leg (cache_read_tokens u) (cached_input_tenths rates);
  b ← leg (output_tokens u) (output_tenths rates);
  weighted ← add_legs weighted [a; b];
  let micro_per_weighted := if off_peak then 5 else 10 in
  ok_or (checked_i128 (weighted * micro_per_weighted)) Overflow.
Definition glm_credits_at (u : TurnUsage) (rates : GlmCreditRates) (unix_secs : Z) : result TurnUsageError Z :=
  micro ← glm_credit_cost_micro u rates (negb (glm_is_peak_utc unix_secs));
  ok_or ((fun v => v ÷ 1000000) <$> checked_i128 (micro + 500000)) Overflow.

(** ** Resolution *)
Lemma glm_tables_ok : tables_ok id alias official_model CATALOG SUBSCRIPTION_MODELS.
Proof. split_and!; apply (bool_decide_unpack _); vm_compute; exact I. Qed.
Abbreviation glm_served := (served id alias official_model CATALOG SUBSCRIPTION_MODELS).
Lemma glm_matched_served model now : glm_matched_tariff_at model now
  = (fun e => (tariff_family e, prices_at (schedule e) now)) <$> glm_served model.
Proof.
  unfold glm_matched_tariff_at, served, find_id, glm_resolve_subscription_model.
  destruct (find_ident id CATALOG model); [done|]. destruct (resolve _ _ _) as [s|]; [|done]. cbn [mbind option_bind].
  by destruct (find_ident id CATALOG (official_model s)).
Qed.
Lemma credits_served model : glm_matched_credit_rates_at model = glm_served model >>? credit_card.
Proof.
  unfold glm_matched_credit_rates_at, served, find_id, glm_resolve_subscription_model.
  destruct (find_ident id CATALOG model); [done|]. by destruct (resolve _ _ _) as [s|].
Qed.
Lemma glm_catalog_prices_ok e now : e ∈ CATALOG -> prices_ok (prices_at (schedule e) now).
Proof.
  intros He. assert (Forall (fun e => Forall prices_ok (eprices <$> epochs (schedule e))) CATALOG) as HF
    by (apply (bool_decide_unpack _); vm_compute; exact I).
  rewrite Forall_forall in HF. specialize (HF e He). rewrite Forall_forall in HF. apply HF, prices_at_elem.
Qed.
Definition rates_ok (r : GlmCreditRates) : Prop :=
  rate_ok (input_tenths r) /\ rate_ok (cached_input_tenths r) /\ rate_ok (output_tenths r).
#[global] Instance rates_ok_dec r : Decision (rates_ok r).
Proof. unfold rates_ok. apply _. Defined.
Lemma credit_card_ok e fam r : e ∈ CATALOG -> credit_card e = Some (fam, r) -> rates_ok r.
Proof.
  intros He Hc. assert (Forall (fun x => rates_ok x.2) glm_compiled_credit_rates) as HF
    by (apply (bool_decide_unpack _); vm_compute; exact I).
  rewrite Forall_forall in HF. apply (HF (fam, r)). unfold glm_compiled_credit_rates. rewrite list_elem_of_omap. by exists e.
Qed.

(** A served GLM model is priced by exactly one dollar card or not at all, and
    by at most one native credit card.  The dollar card is that of the official id
    or of the official model behind an alias, as the compiled inventory lists it
    under a unique family; the credit card is the one published for that same
    entry, so re-routed ids without published multipliers have a dollar price and
    no credits instead of a neighbour's. *)
Theorem glm_served_model_priced (model : string) (now : Z) :
  (forall fam p, glm_matched_tariff_at model now = Some (fam, p) <->
     exists e, serves id alias official_model CATALOG SUBSCRIPTION_MODELS model e /\
       fam = tariff_family e /\ p = prices_at (schedule e) now) /\
  (glm_matched_tariff_at model now = None <->
     ~ official_id id CATALOG model /\ ~ known_alias alias SUBSCRIPTION_MODELS model) /\
  (forall fam p, glm_matched_tariff_at model now = Some (fam, p) ->
     (fam, p) ∈ glm_compiled_tariffs_at now /\ prices_ok p /\ glm_prices_for_served_model model now = Some p) /\
  (forall fam r, glm_matched_credit_rates_at model = Some (fam, r) <->
     exists e, serves id alias official_model CATALOG SUBSCRIPTION_MODELS model e /\
       credit_family e = Some fam /\ credit_rates e = Some r) /\
  (forall fam r, glm_matched_credit_rates_at model = Some (fam, r) ->
     (fam, r) ∈ glm_compiled_credit_rates /\ rates_ok r /\ is_Some (glm_matched_tariff_at model now)) /\
  NoDup (glm_compiled_tariffs_at now).*1 /\ NoDup glm_compiled_credit_rates.*1.
Proof.
  unfold glm_prices_for_served_model. rewrite glm_matched_served, credits_served.
  rewrite <- (served_None _ _ _ _ _ _ glm_tables_ok), fmap_None.
  assert (Hs : forall fam p, (fun e => (tariff_family e, prices_at (schedule e) now)) <$> glm_served model = Some (fam, p) <->
    exists e, serves id alias official_model CATALOG SUBSCRIPTION_MODELS model e /\
      fam = tariff_family e /\ p = prices_at (schedule e) now).
  { intros fam p. rewrite fmap_Some. setoid_rewrite (served_Some _ _ _ _ _ _ _ glm_tables_ok). naive_solver. }
  assert (Hz : forall e fam r, credit_card e = Some (fam, r) <-> credit_family e = Some fam /\ credit_rates e = Some r).
  { intros e fam r. unfold credit_card, zip. destruct (credit_family e), (credit_rates e); naive_solver. }
  split_and!; [done..| | | | |].
  - intros fam p Hm. rewrite Hm. apply Hs in Hm as (e & [He _] & -> & ->).
    split; [|split; [by apply glm_catalog_prices_ok|done]]. unfold glm_compiled_tariffs_at. rewrite list_elem_of_fmap. by exists e.
  - intros fam r. rewrite bind_Some. split; intros (e & He & Hc); exists e.
    + split; [by apply (served_Some _ _ _ _ _ _ _ glm_tables_ok)|by apply Hz].
    + split; [by apply (served_Some _ _ _ _ _ _ _ glm_tables_ok)|by apply Hz].
  - intros fam r (e & He & Hc)%bind_Some. rewrite fmap_is_Some. split_and!; [| |by eexists].
    + unfold glm_compiled_credit_rates. rewrite list_elem_of_omap. exists e.
      apply (served_Some _ _ _ _ _ _ _ glm_tables_ok) in He as [? _]. done.
    + apply (served_Some _ _ _ _ _ _ _ glm_tables_ok) in He as [? _]. by eapply credit_card_ok.
  - unfold glm_compiled_tariffs_at. rewrite <- list_fmap_compose. apply (bool_decide_unpack _). vm_compute. exact I.
  - apply (bool_decide_unpack _). vm_compute. exact I.
Qed.
Lemma glm_served_model_priced_witness :
  glm_matched_credit_rates_at "GLM-5.2[1m]" = Some ("zhipu/glm-credits/glm-5.2", CREDIT_GLM_5_2) /\ rates_ok CREDIT_GLM_5_2.
Proof.
  split; [reflexivity|]. destruct (glm_served_model_priced "GLM-5.2[1m]" 0) as (_ & _ & _ & _ & HA & _).
  apply (HA "zhipu/glm-credits/glm-5.2" CREDIT_GLM_5_2). reflexivity.
Defined.

(** ** Credits *)

(** The off-peak rule as a timetable: seconds since Monday 00:00 UTC (5 January
    1970 was a Monday); 14:00-18:00 in Singapore is 06:00-10:00 UTC. *)
Definition week_second (ts : Z) : Z := (ts - 4 * 86400) mod (7 * 86400).
Definition peak_window (ts : Z) : Prop :=
  exists day, 0 <= day <= 4 /\ day * 86400 + 6 * 3600 <= week_second ts < day * 86400 + 10 * 3600.
Lemma peak_spec ts : i64_min <= ts <= i64_max - 8 * 3600 -> glm_is_peak_utc ts = true <-> peak_window ts.
Proof.
  intros Ht. unfold glm_is_peak_utc, peak_window, week_second.
  replace (sat_i64 (ts + 8 * 3600)) with (ts + 28800) by width_lia.
  rewrite !andb_true_iff, !Z.leb_le, Z.ltb_lt.
  pose proof (Z.div_mod (ts - 4 * 86400) (7 * 86400) ltac:(lia)) as Hts.
  pose proof (Z.mod_pos_bound (ts - 4 * 86400) (7 * 86400) ltac:(lia)) as Hw.
  set (w := (ts - 4 * 86400) mod (7 * 86400)) in *. set (k := (ts - 4 * 86400) / (7 * 86400)) in *. clearbody w k.
  replace ts with (k * 604800 + 345600 + w) by lia.
  assert (Hdiv : (k * 604800 + 345600 + w + 28800) / 86400 = k * 7 + 4 + (w + 28800) / 86400) by div_mod_lia.
  assert (Hmod : (k * 604800 + 345600 + w + 28800) mod 86400 = (w + 28800) mod 86400) by div_mod_lia.
  rewrite Hdiv, Hmod.
  assert (Hday : (k * 7 + 4 + (w + 28800) / 86400 + 3) mod 7 = ((w + 28800) / 86400) mod 7) by div_mod_lia.
  rewrite Hday. clear Hdiv Hmod Hday. split.
  - intros (Hd & Hlo & Hhi). exists ((w + 28800) / 86400). div_mod_lia.
  - intros (day & Hday & Hlo & Hhi). div_mod_lia.
Qed.

Definition weighted (u : TurnUsage) (r : GlmCreditRates) : Z :=
  input_tokens u * input_tenths r + cache_read_tokens u * cached_input_tenths r + output_tokens u * output_tenths r.
Lemma credit_micro_cases u r off : usage_ok u -> rates_ok r ->
  glm_credit_cost_micro u r off
  = if output_tokens u <? reasoning_output_tokens u then Err ReasoningExceedsOutput
    else Ok (weighted u r * (if off then 5 else 10)).
Proof.
  intros (? & ? & ? & ? & ?) (? & ? & ?). unfold glm_credit_cost_micro, validate.
  destruct (output_tokens u <? reasoning_output_tokens u); [done|]. cbn [mbind result_bind].
  destruct (turn_leg_ok (input_tokens u) (input_tenths r)) as [-> ?]; [done..|]. cbn [mbind result_bind].
  destruct (turn_leg_ok (cache_read_tokens u) (cached_input_tenths r)) as [-> ?]; [done..|]. cbn [mbind result_bind].
  destruct (turn_leg_ok (output_tokens u) (output_tenths r)) as [-> ?]; [done..|]. cbn [mbind result_bind].
  rewrite add_legs_ok; [|by repeat (apply Forall_cons_2; [done|])|lia|cbn; width_lia].
  cbn [mbind result_bind sumZ]. unfold Datatypes.id.
  replace (input_tokens u * input_tenths r + (_ + _)) with (weighted u r) by (unfold weighted; lia).
  rewrite (proj2 (checked_i128_Some _ (weighted u r * (if off then 5 else 10)))); [done|].
  split; [done|]. unfold weighted. destruct off; width_lia.
Qed.

(** Native credits follow the published timetable and formula exactly.  Peak
    is Monday to Friday 06:00-10:00 UTC; a turn costs its weighted tokens divided
    by 100,000, half of that off peak, rounded half up to whole credits once, at
    the end; inconsistent reasoning counts are refused, and for 64-bit counts
    nothing overflows. *)
Theorem glm_credits_exact (u : TurnUsage) (r : GlmCreditRates) (ts : Z)
    (Hu : usage_ok u) (Hr : rates_ok r) (Ht : i64_min <= ts <= i64_max - 8 * 3600) :
  (glm_is_peak_utc ts = true <-> peak_window ts) /\
  (output_tokens u < reasoning_output_tokens u -> glm_credits_at u r ts = Err ReasoningExceedsOutput) /\
  (reasoning_output_tokens u <= output_tokens u ->
     glm_credit_cost_micro u r false = Ok (10 * weighted u r) /\
     glm_credit_cost_micro u r true = Ok (5 * weighted u r) /\
     exists c, glm_credits_at u r ts = Ok c /\
       let d := if glm_is_peak_utc ts then 100000 else 200000 in
       d * (2 * c - 1) <= 2 * weighted u r < d * (2 * c + 1)).
Proof.
  split; [by apply peak_spec|]. unfold glm_credits_at. rewrite !credit_micro_cases by done.
  split; intros Hv; [by rewrite (proj2 (Z.ltb_lt _ _))|]. rewrite (proj2 (Z.ltb_ge _ _)) by done.
  split_and!; [f_equal; lia..|].
  assert (0 <= weighted u r <= 3 * (u64_max * 1000000000)) as Hw.
  { destruct Hu as (? & ? & ? & ? & ?), Hr as (? & ? & ?). unfold weighted.
    destruct (turn_leg_ok (input_tokens u) (input_tenths r)) as [_ ?]; [done..|].
    destruct (turn_leg_ok (cache_read_tokens u) (cached_input_tenths r)) as [_ ?]; [done..|].
    destruct (turn_leg_ok (output_tokens u) (output_tenths r)) as [_ ?]; [done..|]. lia. }
  cbn [mbind result_bind].
  rewrite (proj2 (checked_i128_Some _ (weighted u r * (if negb (glm_is_peak_utc ts) then 5 else 10) + 500000)))
    by (split; [done|destruct (negb _); width_lia]).
  eexists. split; [reflexivity|]. cbn zeta. destruct (glm_is_peak_utc ts); cbn [negb]; rewrite Z.quot_div_nonneg by lia; div_mod_lia.
Qed.
Lemma glm_credits_exact_witness :
  glm_is_peak_utc 1786082400 = true /\ glm_credits_at (mkTU 1000000 0 0 50000 0) CREDIT_GLM_5_2 1786082400 = Ok 810.
Proof.
  split; [apply (glm_credits_exact (mkTU 1000000 0 0 50000 0) CREDIT_GLM_5_2 1786082400)|reflexivity].
  - unfold usage_ok. cbn. width_lia.
  - unfold rates_ok, rate_ok. cbn. lia.
  - width_lia.
  - exists 4. vm_compute. intuition congruence.
Defined.
End Glm.
