(* ===== verification/CodexTariffs.v ===== *)
(** * Codex price and credit catalogue ([crates/metering/src/codex.rs])

    Effective-dated API prices with an audited schedule identity per epoch, the
    separate ChatGPT credit card, and the admission identity of a request. *)
From S2P Require Import Prelude Text Tariffs MeterUsage TurnMeter.

Module Codex.
Record CodexPrices := mkCP {
  input : Z; cached_input : Z; cache_write_input : Z; output : Z;
  api_fast_multiplier_basis_points : Z;
  long_context_threshold : Z; long_input_basis_points : Z; long_output_basis_points : Z
}.
Record CodexCreditRates := mkCR { cr_input : Z; cr_cached_input : Z; cr_output : Z }.
Record CodexCreditUsage := mkCU {
  fresh_input_tokens : Z; cached_input_tokens : Z; output_tokens : Z;
  input_credit_nano : Z; cached_input_credit_nano : Z; output_credit_nano : Z; total_credit_nano : Z
}.
Record CodexModelSpec := mkSpec {
  spec_id : string; spec_upstream : string; spec_created : Z; spec_max_output_tokens : Z;
  spec_reasoning_efforts : list string; spec_fast : option Z; spec_prices : CodexPrices; spec_credit_rates : CodexCreditRates
}.
#[global] Instance CodexPrices_eq_dec : EqDecision CodexPrices.
Proof. solve_decision. Defined.
(** [IdentifiedCodexPriceEpoch]: the epoch's price vector with its schedule id. *)
Record Identified := mkIdent { prices_of : CodexPrices; tariff_schedule_id : string }.
Definition CodexSchedule : Type := Schedule Identified.

Definition CODEX_ALIAS_GENERATION : Z := 1.
Definition CODEX_CREDIT_FAMILY : string := "chatgpt/codex-credits".
Inductive CodexServiceTier := Standard | Fast.
Inductive CodexContextTier := StandardContext | Long.
Record CodexTariffModifiers := mkMods {
  service_tier : CodexServiceTier; service_tier_multiplier_basis_points : Z;
  context_tier : CodexContextTier; input_multiplier_basis_points : Z; output_multiplier_basis_points : Z
}.
Record CodexAdmissionTariffIdentity := mkIdentity {
  canonical_model_id : string; id_max_output_tokens : Z; alias_generation : Z;
  id_tariff_schedule_id : string; schedule_effective_from : Z; id_prices : CodexPrices; modifiers : CodexTariffModifiers
}.
Record CatalogEntry := mkEntry {
  id : string; upstream : string; created : Z; max_output_tokens : Z; reasoning_efforts : list string;
  subscription_fast_multiplier_basis_points : option Z; credit_rates : CodexCreditRates;
  tariff_family : string; credit_family : string; schedule : CodexSchedule
}.

Definition EFFORTS_WITH_MAX : list string := ["none"; "low"; "medium"; "high"; "xhigh"; "max"].
Definition EFFORTS_STANDARD : list string := ["none"; "low"; "medium"; "high"; "xhigh"].
Definition FAST_25X : option Z := Some 25000.
Definition FAST_20X : option Z := Some 20000.
Definition PRICE_CUT_2026_07_30 : Z := 1785369600.
Definition GPT_56_SOL_PROMO_START_2026_08_21 : Z := 1787270400.
Definition GPT_56_SOL_STANDARD_RETURN_2026_11_22 : Z := 1795305600.
Definition GPT_54_RELEASED : Z := 1772668800.
Definition GPT_55_RELEASED : Z := 1776988800.
Definition GPT_56_RELEASED : Z := 1783555200.
Definition prices (inp cached write out fast : Z) : CodexPrices := mkCP inp cached write out fast 272000 20000 15000.
Definition credits (inp cached out : Z) : CodexCreditRates := mkCR inp cached out.

Definition GPT_56_SOL_SCHEDULE : CodexSchedule :=
  (mkEpoch 0 (mkIdent (prices 5000 500 6250 30000 25000) "openai/gpt-5.6-sol/epoch-0/v1"),
   [ mkEpoch PRICE_CUT_2026_07_30 (mkIdent (prices 5000 500 6250 30000 20000) "openai/gpt-5.6-sol/2026-07-30/v2");
     mkEpoch GPT_56_SOL_PROMO_START_2026_08_21
       (mkIdent (prices 4000 400 5000 20000 20000) "openai/gpt-5.6-sol/2026-08-21-promo/v3");
     mkEpoch GPT_56_SOL_STANDARD_RETURN_2026_11_22
       (mkIdent (prices 5000 500 6250 30000 20000) "openai/gpt-5.6-sol/2026-11-22-standard/v4") ]).
Definition GPT_56_TERRA_SCHEDULE : CodexSchedule :=
  (mkEpoch 0 (mkIdent (prices 2500 250 3125 15000 25000) "openai/gpt-5.6-terra/epoch-0/v1"),
   [ mkEpoch PRICE_CUT_2026_07_30 (mkIdent (prices 2000 200 2500 12000 20000) "openai/gpt-5.6-terra/2026-07-30/v2") ]).
Definition GPT_56_LUNA_SCHEDULE : CodexSchedule :=
  (mkEpoch 0 (mkIdent (prices 1000 100 1250 6000 25000) "openai/gpt-5.6-luna/epoch-0/v1"),
   [ mkEpoch PRICE_CUT_2026_07_30 (mkIdent (prices 200 20 250 1200 20000) "openai/gpt-5.6-luna/2026-07-30/v2") ]).
Definition GPT_55_SCHEDULE : CodexSchedule :=
  (mkEpoch 0 (mkIdent (prices 5000 500 5000 30000 25000) "openai/gpt-5.5/epoch-0/v1"), []).
Definition GPT_54_SCHEDULE : CodexSchedule :=
  (mkEpoch 0 (mkIdent (prices 2500 250 2500 15000 20000) "openai/gpt-5.4/epoch-0/v1"), []).

Definition CATALOG : list CatalogEntry :=
  [ mkEntry "gpt-5.6" "gpt-5.6-sol" GPT_56_RELEASED 128000 EFFORTS_WITH_MAX FAST_25X (credits 125000 12500 750000)
      "openai/codex/gpt-5.6-sol" "chatgpt/codex-credits/gpt-5.6-sol" GPT_56_SOL_SCHEDULE;
    mkEntry "gpt-5.6-sol" "gpt-5.6-sol" GPT_56_RELEASED 128000 EFFORTS_WITH_MAX FAST_25X (credits 125000 12500 750000)
      "openai/codex/gpt-5.6-sol" "chatgpt/codex-credits/gpt-5.6-sol" GPT_56_SOL_SCHEDULE;
    mkEntry "gpt-5.6-terra" "gpt-5.6-terra" GPT_56_RELEASED 128000 EFFORTS_WITH_MAX FAST_25X (credits 50000 5000 300000)
      "openai/codex/gpt-5.6-terra" "chatgpt/codex-credits/gpt-5.6-terra" GPT_56_TERRA_SCHEDULE;
    mkEntry "gpt-5.6-luna" "gpt-5.6-luna" GPT_56_RELEASED 128000 EFFORTS_WITH_MAX FAST_25X (credits 5000 500 30000)
      "openai/codex/gpt-5.6-luna" "chatgpt/codex-credits/gpt-5.6-luna" GPT_56_LUNA_SCHEDULE;
    mkEntry "gpt-5.5" "gpt-5.5" GPT_55_RELEASED 128000 EFFORTS_STANDARD FAST_25X (credits 125000 12500 750000)
      "openai/codex/gpt-5.5" "chatgpt/codex-credits/gpt-5.5" GPT_55_SCHEDULE;
    mkEntry "gpt-5.4" "gpt-5.4" GPT_54_RELEASED 128000 EFFORTS_STANDARD FAST_20X (credits 62500 6250 375000)
      "openai/codex/gpt-5.4" "chatgpt/codex-credits/gpt-5.4" GPT_54_SCHEDULE ].

Definition price_epoch_at (s : CodexSchedule) (now_unix : Z) : Epoch Identified :=
  fold_left (fun current e => if effective_from e <=? now_unix then e else current) (epochs s) s.1.
Definition prices_at (s : CodexSchedule) (now_unix : Z) : CodexPrices := prices_of (eprices (price_epoch_at s now_unix)).
Definition find_id (model_id : string) : option CatalogEntry := find_ident id CATALOG model_id.
Definition codex_catalog_at (now_unix : Z) : list CodexModelSpec :=
  (fun e => mkSpec (id e) (upstream e) (created e) (max_output_tokens e) (reasoning_efforts e)
     (subscription_fast_multiplier_basis_points e) (prices_at (schedule e) now_unix) (credit_rates e)) <$> CATALOG.
Definition codex_prices_at (model_id : string) (now_unix : Z) : option CodexPrices :=
  (fun e => prices_at (schedule e) now_unix) <$> find_id model_id.
Definition codex_matched_tariff_at (model_id : string) (now_unix : Z) : option (string * CodexPrices) :=
  (fun e => (tariff_family e, prices_at (schedule e) now_unix)) <$> find_id model_id.
Definition codex_credit_rates_family : string := CODEX_CREDIT_FAMILY.
Definition codex_credit_rates (model_id : string) : option CodexCreditRates := credit_rates <$> find_id model_id.
Definition codex_matched_credit_rates_at (model_id : string) : option (string * CodexCreditRates) :=
  (fun e => (credit_family e, credit_rates e)) <$> find_id model_id.
(** Push unless the family is already listed. *)
Definition push_family {P} (l : list (string * P)) (x : string * P) : list (string * P) :=
  if existsb (fun y => bool_decide (y.1 = x.1)) l then l else l ++ [x].
Definition codex_compiled_tariffs_at (now_unix : Z) : list (string * CodexPrices) :=
  fold_left (fun tariffs e => push_family tariffs (tariff_family e, prices_at (schedule e) now_unix)) CATALOG [].
Definition codex_compiled_credit_rates : list (string * CodexCreditRates) :=
  fold_left (fun families e => push_family families (credit_family e, credit_rates e)) CATALOG [].
Definition find_family (family : string) : option CatalogEntry :=
  List.find (fun e => bool_decide (tariff_family e = family)) CATALOG.
Definition codex_tariff_has_future_epoch_at (family : string) (now_unix : Z) : bool :=
  match find_family family with
  | Some entry => existsb (fun ep => now_unix <? effective_from ep) (epochs (schedule entry))
  | None => false
  end.
Definition codex_tariff_seed_safe (family : string) : bool :=
  match find_family family with
  | Some entry => Nat.eqb (length (epochs (schedule entry))) 1
  | None => false
  end.

Definition codex_tariff_capability_at (model_id : string) (priced_ts : Z) (tier : CodexServiceTier)
    (estimated_input_tokens : Z) : result TariffIdentityError CodexAdmissionTariffIdentity :=
  guard_ok (negb (priced_ts <=? 0)) InvalidPricedTimestamp;;
  entry ← ok_or (find_id model_id) UnsupportedModelIdentity;
  let ep := price_epoch_at (schedule entry) priced_ts in
  let p := prices_of (eprices ep) in
  tier_bp ← match tier with
            | Standard => Ok 10000
            | Fast =>
                _ ← ok_or (subscription_fast_multiplier_basis_points entry) UnsupportedModifier;
                Ok (api_fast_multiplier_basis_points p)
            end;
  let '(ctx, in_bp, out_bp) :=
    if long_context_threshold p <? estimated_input_tokens
    then (Long, long_input_basis_points p, long_output_basis_points p)
    else (StandardContext, 10000, 10000) in
  Ok (mkIdentity (upstream entry) (max_output_tokens entry) CODEX_ALIAS_GENERATION
        (tariff_schedule_id (eprices ep)) (effective_from ep) p
        (mkMods tier tier_bp ctx in_bp out_bp)).

Definition codex_subscription_fast_multiplier_basis_points (model_id : string) : option Z :=
  find_id model_id >>? subscription_fast_multiplier_basis_points.
Definition codex_credit_cost_nano_with_rates (rates : CodexCreditRates) (fast_multiplier inp cached out : Z) : CodexCreditUsage :=
  let cached := cached `min` inp in
  let fresh := sat_u64 (inp - cached) in
  let a := apply_multiplier (sat_i128 (fresh * cr_input rates)) fast_multiplier in
  let b := apply_multiplier (sat_i128 (cached * cr_cached_input rates)) fast_multiplier in
  let c := apply_multiplier (sat_i128 (out * cr_output rates)) fast_multiplier in
  mkCU fresh cached out a b c (sat_i128 (sat_i128 (a + b) + c)).
Definition codex_credit_cost_nano (model_id : string) (inp cached out : Z) (fast : bool) : option CodexCreditUsage :=
  rates ← codex_credit_rates model_id;
  fast_multiplier ← (if fast then codex_subscription_fast_multiplier_basis_points model_id else Some 10000);
  Some (codex_credit_cost_nano_with_rates rates fast_multiplier inp cached out).

(** ** Epochs *)
Lemma catalog_oldest_first e : e ∈ CATALOG -> oldest_first (schedule e) /\ effective_from (schedule e).1 = 0.
Proof.
  unfold CATALOG. rewrite !elem_of_cons, elem_of_nil.
  intros [->|[->|[->|[->|[->|[->|[]]]]]]]; (split; [repeat constructor; cbn; try lia; done|reflexivity]).
Qed.
Lemma price_epoch_spec s now : oldest_first s -> effective_from s.1 <= now ->
  let e := price_epoch_at s now in
  e ∈ epochs s /\ effective_from e <= now /\
  forall e', e' ∈ epochs s -> effective_from e' <= now -> effective_from e' <= effective_from e.
Proof.
  intros Hs H0. cbn zeta. unfold price_epoch_at. rewrite (fold_last_match _ (fun e => e)).
  destruct (last _) as [e|] eqn:El; [cbn; by apply newest_started|].
  apply last_None in El. unfold epochs in El. cbn in El. by rewrite (proj2 (Z.leb_le _ _) H0) in El.
Qed.
Lemma codex_ids : NoDup (id <$> CATALOG).
Proof. apply (bool_decide_unpack _). vm_compute. exact I. Qed.
Lemma find_id_Some m e : find_id m = Some e -> e ∈ CATALOG /\ id e = m.
Proof.
  intros H. apply List.find_some in H as [? Hb]. apply bool_decide_eq_true in Hb. by rewrite list_elem_of_In.
Qed.
(** A canonical identity is itself catalogued, on the same schedule. *)
Lemma upstream_catalogued e : e ∈ CATALOG ->
  exists e', find_id (upstream e) = Some e' /\ schedule e' = schedule e /\ upstream e' = upstream e.
Proof.
  unfold CATALOG. rewrite !elem_of_cons, elem_of_nil.
  intros [->|[->|[->|[->|[->|[->|[]]]]]]]; eexists; (split; [reflexivity|split; reflexivity]).
Qed.
(** A schedule id is never reused for another price vector or another model. *)
Lemma schedule_ids_unique e1 e2 x1 x2 : e1 ∈ CATALOG -> e2 ∈ CATALOG ->
  x1 ∈ epochs (schedule e1) -> x2 ∈ epochs (schedule e2) ->
  tariff_schedule_id (eprices x1) = tariff_schedule_id (eprices x2) ->
  prices_of (eprices x1) = prices_of (eprices x2) /\ effective_from x1 = effective_from x2 /\ upstream e1 = upstream e2.
Proof.
  assert (Forall (fun e1 => Forall (fun e2 => Forall (fun x1 => Forall (fun x2 =>
      tariff_schedule_id (eprices x1) = tariff_schedule_id (eprices x2) ->
      prices_of (eprices x1) = prices_of (eprices x2) /\ effective_from x1 = effective_from x2 /\ upstream e1 = upstream e2)
    (epochs (schedule e2))) (epochs (schedule e1))) CATALOG) CATALOG) as HF
    by (apply (bool_decide_unpack _); vm_compute; exact I).
  intros H1 H2 Hx1 Hx2. rewrite Forall_forall in HF. specialize (HF e1 H1). rewrite Forall_forall in HF.
  specialize (HF e2 H2). rewrite Forall_forall in HF. specialize (HF x1 Hx1). rewrite Forall_forall in HF. by apply HF.
Qed.
Lemma fast_supported e : e ∈ CATALOG -> is_Some (subscription_fast_multiplier_basis_points e).
Proof.
  assert (Forall (fun e => is_Some (subscription_fast_multiplier_basis_points e)) CATALOG) as HF
    by (apply (bool_decide_unpack _); vm_compute; exact I).
  rewrite Forall_forall in HF. apply HF.
Qed.

(** The identity the capability table returns for a catalogued model. *)
Definition identity_of (e : CatalogEntry) (ts : Z) (tier : CodexServiceTier) (est : Z) : CodexAdmissionTariffIdentity :=
  let ep := price_epoch_at (schedule e) ts in
  let p := prices_of (eprices ep) in
  let long := 272000 <? est in
  mkIdentity (upstream e) 128000 1 (tariff_schedule_id (eprices ep)) (effective_from ep) p
    (mkMods tier (match tier with Standard => 10000 | Fast => api_fast_multiplier_basis_points p end)
       (if long then Long else StandardContext) (if long then 20000 else 10000) (if long then 15000 else 10000)).
Lemma catalog_uniform e x : e ∈ CATALOG -> x ∈ epochs (schedule e) ->
  max_output_tokens e = 128000 /\ long_context_threshold (prices_of (eprices x)) = 272000 /\
  long_input_basis_points (prices_of (eprices x)) = 20000 /\ long_output_basis_points (prices_of (eprices x)) = 15000.
Proof.
  assert (Forall (fun e => Forall (fun x => max_output_tokens e = 128000 /\ long_context_threshold (prices_of (eprices x)) = 272000 /\
    long_input_basis_points (prices_of (eprices x)) = 20000 /\ long_output_basis_points (prices_of (eprices x)) = 15000)
    (epochs (schedule e))) CATALOG) as HF by (apply (bool_decide_unpack _); vm_compute; exact I).
  intros He Hx. rewrite Forall_forall in HF. specialize (HF e He). rewrite Forall_forall in HF. by apply HF.
Qed.
Lemma epoch_in_force e ts : e ∈ CATALOG -> 0 < ts ->
  let x := price_epoch_at (schedule e) ts in
  x ∈ epochs (schedule e) /\ effective_from x <= ts /\
  forall x', x' ∈ epochs (schedule e) -> effective_from x' <= ts -> effective_from x' <= effective_from x.
Proof. intros He Ht. destruct (catalog_oldest_first e He) as [Ho H0]. apply price_epoch_spec; [done|lia]. Qed.
Lemma capability_cases model ts tier est :
  codex_tariff_capability_at model ts tier est =
  if ts <=? 0 then Err InvalidPricedTimestamp
  else match find_id model with
       | None => Err UnsupportedModelIdentity
       | Some e => Ok (identity_of e ts tier est)
       end.
Proof.
  unfold codex_tariff_capability_at. destruct (Z.leb_spec ts 0); [done|]. cbn [negb guard_ok mbind result_bind].
  destruct (find_id model) as [e|] eqn:E; [|done]. cbn [ok_or mbind result_bind]. apply find_id_Some in E as [He _].
  destruct (epoch_in_force e ts He ltac:(lia)) as [Hx _]. destruct (catalog_uniform e _ He Hx) as (H1 & H2 & H3 & H4).
  destruct (fast_supported e He) as [bp Hbp]. unfold identity_of.
  destruct tier; rewrite ?Hbp; cbn [ok_or mbind result_bind]; rewrite H2, H1; destruct (272000 <? est); rewrite ?H3, ?H4; reflexivity.
Qed.

(** The admission identity of a Codex request is total, exact and stable.  A
    non-positive timestamp and an unknown model are the two typed refusals and the
    only ones; for every catalogued model the identity carries the price vector
    billed at that time, both under the requested id and under the canonical one,
    from the newest epoch that has started; the context tier is long exactly above
    272,000 input tokens.  A persisted schedule id determines the model, the epoch
    and the price vector. *)
Theorem codex_capability_exact (model : string) (ts : Z) (tier : CodexServiceTier) (est : Z) :
  (codex_tariff_capability_at model ts tier est = Err InvalidPricedTimestamp <-> ts <= 0) /\
  (codex_tariff_capability_at model ts tier est = Err UnsupportedModelIdentity <-> 0 < ts /\ ~ official_id id CATALOG model) /\
  codex_tariff_capability_at model ts tier est <> Err UnsupportedModifier /\
  (forall i, codex_tariff_capability_at model ts tier est = Ok i ->
     codex_prices_at model ts = Some (id_prices i) /\
     codex_prices_at (canonical_model_id i) ts = Some (id_prices i) /\
     schedule_effective_from i <= ts /\
     (forall e x, find_id model = Some e -> x ∈ epochs (schedule e) -> effective_from x <= ts ->
        effective_from x <= schedule_effective_from i) /\
     context_tier (modifiers i) = (if 272000 <? est then Long else StandardContext) /\
     (forall model' ts' tier' est' i', codex_tariff_capability_at model' ts' tier' est' = Ok i' ->
        id_tariff_schedule_id i' = id_tariff_schedule_id i ->
        id_prices i' = id_prices i /\ schedule_effective_from i' = schedule_effective_from i /\
        canonical_model_id i' = canonical_model_id i)).
Proof.
  rewrite capability_cases, <- find_ident_None. change (find_ident id CATALOG model) with (find_id model).
  destruct (Z.leb_spec ts 0).
  { split_and!; try done; [split; [done|lia]]. }
  destruct (find_id model) as [e|] eqn:E.
  2:{ split_and!; try done; split; (done || lia). }
  split_and!; [split; [done|lia]|split; [done|by intros [_ ?]]|done|]. intros i Hi. injection Hi as <-.
  pose proof (find_id_Some _ _ E) as [He _]. destruct (epoch_in_force e ts He ltac:(lia)) as (Hx & Hle & Hnew).
  destruct (upstream_catalogued e He) as (e' & Hu & Hs & _).
  split_and!; [by unfold codex_prices_at; rewrite E|unfold codex_prices_at; cbn [identity_of canonical_model_id]; rewrite Hu; cbn; unfold prices_at; by rewrite Hs
    |done| |done|].
  - intros e0 x He0 Hx0 Ht. injection He0 as <-. by apply Hnew.
  - intros m' ts' t' est' i' Hc Hid. rewrite capability_cases in Hc. destruct (Z.leb_spec ts' 0); [done|].
    destruct (find_id m') as [e2|] eqn:E2; [|done]. injection Hc as <-. apply find_id_Some in E2 as [He2 _].
    destruct (epoch_in_force e2 ts' He2 ltac:(lia)) as (Hx2 & _). by apply (schedule_ids_unique e2 e _ _ He2 He Hx2 Hx).
Qed.
Lemma codex_capability_exact_witness : exists i, codex_tariff_capability_at "gpt-5.6" 1788000000 Fast 300000 = Ok i /\
  codex_prices_at "gpt-5.6-sol" 1788000000 = Some (id_prices i).
Proof.
  eexists. split; [reflexivity|].
  destruct (codex_capability_exact "gpt-5.6" 1788000000 Fast 300000) as (_ & _ & _ & HA). apply (HA _ eq_refl).
Defined.

(** ** Credits *)
(** Credit rates are multiples of 250 nanocredits, so no multiplier rounds. *)
Definition rates_exact (r : CodexCreditRates) : Prop :=
  Forall (fun z => 0 <= z <= 1000000000 /\ z mod 250 = 0) [cr_input r; cr_cached_input r; cr_output r].
Lemma catalog_rates e : e ∈ CATALOG -> rates_exact (credit_rates e) /\
  (subscription_fast_multiplier_basis_points e = Some 25000 \/ subscription_fast_multiplier_basis_points e = Some 20000).
Proof.
  assert (Forall (fun e => Forall (fun z => 0 <= z <= 1000000000 /\ z mod 250 = 0)
      [cr_input (credit_rates e); cr_cached_input (credit_rates e); cr_output (credit_rates e)] /\
    (subscription_fast_multiplier_basis_points e = Some 25000 \/ subscription_fast_multiplier_basis_points e = Some 20000)) CATALOG) as HF
    by (apply (bool_decide_unpack _); vm_compute; exact I).
  rewrite Forall_forall in HF. apply HF.
Qed.
Lemma credit_leg t r bp : is_u64 t -> 0 <= r <= 1000000000 -> r mod 250 = 0 -> bp = 10000 \/ bp = 20000 \/ bp = 25000 ->
  let c := apply_multiplier (sat_i128 (t * r)) bp in 10000 * c = t * r * bp /\ 0 <= c <= 3 * (u64_max * 1000000000).
Proof.
  intros Ht Hr Hm Hbp. cbn zeta. assert (0 <= t * r <= u64_max * 1000000000) as Hb by (unfold_widths; nia).
  replace (sat_i128 (t * r)) with (t * r) by width_lia.
  assert (exists k, t * r = 250 * k) as [k Hk] by (exists (t * (r / 250)); pose proof (Z.div_mod r 250); nia).
  rewrite Hk in *. unfold apply_multiplier. rewrite (proj2 (Z.leb_le 0 (250 * k))) by lia.
  destruct Hbp as [->|[->| ->]].
  - rewrite (wrap_i128_id (_ * _)) by width_lia. rewrite wrap_i128_id by width_lia. rewrite Z.quot_div_nonneg by lia. div_mod_lia.
  - rewrite (wrap_i128_id (_ * _)) by width_lia. rewrite wrap_i128_id by width_lia. rewrite Z.quot_div_nonneg by lia. div_mod_lia.
  - rewrite (wrap_i128_id (_ * _)) by width_lia. rewrite wrap_i128_id by width_lia. rewrite Z.quot_div_nonneg by lia. div_mod_lia.
Qed.

(** Codex credits are exact.  For every catalogued model and every 64-bit usage
    the cached tokens are clamped into the input they are part of, fresh and
    cached input partition it, and the credit total is the exact weighted sum
    times the model's multiplier - 1x, 2x or 2.5x - with no rounding and no
    saturation; an unknown model has no credit cost. *)
Theorem codex_credits_exact (model : string) (inp cached out : Z) (fast : bool)
    (Hi : is_u64 inp) (Hc : is_u64 cached) (Ho : is_u64 out) :
  (codex_credit_cost_nano model inp cached out fast = None <-> ~ official_id id CATALOG model) /\
  (forall e, find_id model = Some e -> exists u bp,
     codex_credit_cost_nano model inp cached out fast = Some u /\
     (bp = if fast then default 0 (subscription_fast_multiplier_basis_points e) else 10000) /\
     cached_input_tokens u = cached `min` inp /\ fresh_input_tokens u + cached_input_tokens u = inp /\
     0 <= fresh_input_tokens u /\ output_tokens u = out /\
     10000 * total_credit_nano u
       = bp * (fresh_input_tokens u * cr_input (credit_rates e) + cached_input_tokens u * cr_cached_input (credit_rates e)
               + out * cr_output (credit_rates e))).
Proof.
  rewrite <- find_ident_None. change (find_ident id CATALOG model) with (find_id model).
  unfold codex_credit_cost_nano, codex_credit_rates, codex_subscription_fast_multiplier_basis_points.
  destruct (find_id model) as [e|] eqn:E; [|by split].
  apply find_id_Some in E as [He _]. destruct (catalog_rates e He) as [Hr Hf]. unfold rates_exact in Hr.
  rewrite !Forall_cons in Hr. destruct Hr as ([H1 H1'] & [H2 H2'] & [H3 H3'] & _).
  set (bp := if fast then default 0 (subscription_fast_multiplier_basis_points e) else 10000).
  assert (bp = 10000 \/ bp = 20000 \/ bp = 25000) as Hbp by (subst bp; destruct fast; [destruct Hf as [-> | ->]; cbn|]; auto).
  assert ((if fast then subscription_fast_multiplier_basis_points e else Some 10000) = Some bp) as Hsome
    by (subst bp; destruct fast; [|done]; by destruct Hf as [-> | ->]).
  cbn [mbind option_bind fmap option_fmap option_map]. rewrite Hsome. cbn [mbind option_bind].
  split; [done|]. intros e0 He0. injection He0 as <-. eexists _, bp. split; [reflexivity|]. split; [done|].
  unfold codex_credit_cost_nano_with_rates. cbn [cached_input_tokens fresh_input_tokens output_tokens total_credit_nano].
  replace (sat_u64 (inp - cached `min` inp)) with (inp - cached `min` inp) by width_lia.
  destruct (credit_leg (inp - cached `min` inp) (cr_input (credit_rates e)) bp) as [Ea ?]; [width_lia|done..|].
  destruct (credit_leg (cached `min` inp) (cr_cached_input (credit_rates e)) bp) as [Eb ?]; [width_lia|done..|].
  destruct (credit_leg out (cr_output (credit_rates e)) bp) as [Ec ?]; [width_lia|done..|].
  split_and!; [done|lia|lia|done|].
  set (x := apply_multiplier (sat_i128 (_ * cr_input _)) bp) in *. set (y := apply_multiplier (sat_i128 (_ * cr_cached_input _)) bp) in *.
  set (z := apply_multiplier (sat_i128 (out * _)) bp) in *. clearbody x y z.
  replace (sat_i128 (sat_i128 (x + y) + z)) with (x + y + z) by width_lia. lia.
Qed.
Lemma codex_credits_exact_witness :
  total_credit_nano <$> codex_credit_cost_nano "gpt-5.6" 1000 400 10 true = Some 218750000 /\
  exists u, codex_credit_cost_nano "gpt-5.6" 1000 400 10 true = Some u /\ cached_input_tokens u = 400.
Proof.
  split; [reflexivity|].
  destruct (codex_credits_exact "gpt-5.6" 1000 400 10 true ltac:(width_lia) ltac:(width_lia) ltac:(width_lia)) as [_ HA].
  destruct (HA _ eq_refl) as (u & bp & Hu & _ & Hc & _). exists u. split; [exact Hu|exact Hc].
Defined.

(** ** Inventories *)
Section Inventory.
Context {P : Type}.
Implicit Types (l acc : list (string * P)).

Lemma push_family_spec acc x y : y ∈ push_family acc x <-> y ∈ acc \/ y = x /\ (x.1 ∉ acc.*1).
Proof.
  unfold push_family. destruct (existsb _ acc) eqn:E.
  - split; [auto|]. intros [?|[-> Hx]]; [done|]. destruct Hx. apply List.existsb_exists in E as (z & Hz & Hb).
    apply bool_decide_eq_true in Hb. rewrite list_elem_of_fmap. exists z. by rewrite list_elem_of_In.
  - rewrite elem_of_app, list_elem_of_singleton. split; [|tauto]. intros [?| ->]; [auto|]. right. split; [done|].
    rewrite list_elem_of_fmap. intros (z & Hz & Hin). rewrite list_elem_of_In in Hin.
    assert (existsb (fun y => bool_decide (y.1 = x.1)) acc = true) as Ht; [|congruence].
    apply List.existsb_exists. exists z. split; [done|]. by apply bool_decide_eq_true.
Qed.
Lemma push_family_NoDup acc x : NoDup acc.*1 -> NoDup (push_family acc x).*1.
Proof.
  intros Hn. unfold push_family. destruct (existsb _ acc) eqn:E; [done|]. rewrite fmap_app, NoDup_app. split_and!; [done| |].
  - intros f Hf Hx. cbn in Hx. apply list_elem_of_singleton in Hx as ->. rewrite list_elem_of_fmap in Hf.
    destruct Hf as (z & Hz & Hin). rewrite list_elem_of_In in Hin.
    assert (existsb (fun y => bool_decide (y.1 = x.1)) acc = true) as Ht; [|congruence].
    apply List.existsb_exists. exists z. split; [done|]. by apply bool_decide_eq_true.
  - apply NoDup_singleton.
Qed.
Lemma inventory_NoDup l : forall acc, NoDup acc.*1 -> NoDup (fold_left push_family l acc).*1.
Proof. induction l as [|x l IH]; intros acc Hn; [done|]. by apply IH, push_family_NoDup. Qed.
(** Where a family always carries the same value, the inventory lists every row. *)
Lemma inventory_complete l : forall acc,
  (forall x y, x ∈ l -> y ∈ l ++ acc -> x.1 = y.1 -> x = y) -> forall x, x ∈ l \/ x ∈ acc -> x ∈ fold_left push_family l acc.
Proof.
  induction l as [|z l IH]; intros acc Hag x Hx; cbn; [destruct Hx as [Hx|]; [by apply elem_of_nil in Hx|done]|].
  apply IH.
  - intros u v Hu Hv. apply Hag; [by right|]. apply elem_of_app in Hv as [Hv|Hv]; [set_solver|].
    apply push_family_spec in Hv as [Hv|[-> _]]; set_solver.
  - rewrite push_family_spec. destruct Hx as [Hx|Hx]; [|auto]. apply elem_of_cons in Hx as [->|Hx]; [|auto]. right.
    destruct (decide (z.1 ∈ acc.*1)) as [Hz|Hz]; [|auto]. left. apply list_elem_of_fmap in Hz as (y & Hy & Hin).
    rewrite (Hag z y); [done|by left|set_solver|done].
Qed.
End Inventory.

Lemma compiled_fold now : codex_compiled_tariffs_at now
  = fold_left push_family ((fun e => (tariff_family e, prices_at (schedule e) now)) <$> CATALOG) [].
Proof. reflexivity. Qed.
Lemma compiled_credit_fold : codex_compiled_credit_rates
  = fold_left push_family ((fun e => (credit_family e, credit_rates e)) <$> CATALOG) [].
Proof. reflexivity. Qed.
Lemma families_agree e1 e2 : e1 ∈ CATALOG -> e2 ∈ CATALOG ->
  (tariff_family e1 = tariff_family e2 -> schedule e1 = schedule e2) /\
  (credit_family e1 = credit_family e2 -> credit_rates e1 = credit_rates e2).
Proof.
  unfold CATALOG. intros H1 H2. rewrite !elem_of_cons, elem_of_nil in H1, H2.
  destruct H1 as [->|[->|[->|[->|[->|[->|[]]]]]]], H2 as [->|[->|[->|[->|[->|[->|[]]]]]]]; split; intros Hf; (reflexivity || (vm_compute in Hf; discriminate Hf)).
Qed.
(** The compiled inventories list each family once, with the price the matcher
    bills: an alias shares its canonical model's row. *)
Lemma codex_matched_compiled model now fam p :
  codex_matched_tariff_at model now = Some (fam, p) -> (fam, p) ∈ codex_compiled_tariffs_at now.
Proof.
  unfold codex_matched_tariff_at. rewrite fmap_Some. intros (e & [He _]%find_id_Some & ?). rewrite compiled_fold.
  apply inventory_complete; [|left; rewrite list_elem_of_fmap; by exists e].
  intros x y Hx Hy Hf. rewrite app_nil_r in Hy. apply list_elem_of_fmap in Hx as (a & -> & Ha), Hy as (b & -> & Hb).
  cbn in *. by rewrite Hf, (proj1 (families_agree a b Ha Hb) Hf).
Qed.
Lemma codex_matched_credits_compiled model fam r :
  codex_matched_credit_rates_at model = Some (fam, r) -> (fam, r) ∈ codex_compiled_credit_rates.
Proof.
  unfold codex_matched_credit_rates_at. rewrite fmap_Some. intros (e & [He _]%find_id_Some & ?). rewrite compiled_credit_fold.
  apply inventory_complete; [|left; rewrite list_elem_of_fmap; by exists e].
  intros x y Hx Hy Hf. rewrite app_nil_r in Hy. apply list_elem_of_fmap in Hx as (a & -> & Ha), Hy as (b & -> & Hb).
  cbn in *. by rewrite Hf, (proj2 (families_agree a b Ha Hb) Hf).
Qed.
Lemma codex_families_unique now : NoDup (codex_compiled_tariffs_at now).*1 /\ NoDup codex_compiled_credit_rates.*1.
Proof. rewrite compiled_fold, compiled_credit_fold. split; apply inventory_NoDup; constructor. Qed.
(** A family is safe to seed exactly when no epoch lies after its first. *)
Lemma codex_seed_safe_no_future fam now : codex_tariff_seed_safe fam = true -> 0 <= now ->
  codex_tariff_has_future_epoch_at fam now = false.
Proof.
  unfold codex_tariff_seed_safe, codex_tariff_has_future_epoch_at. destruct (find_family fam) as [e|] eqn:E; [|done].
  apply List.find_some in E as [He _]. rewrite <- list_elem_of_In in He.
  destruct (catalog_oldest_first e He) as [_ H0]. destruct (schedule e) as [x l]. cbn in *.
  destruct l; [|done]. intros _ Hn. rewrite orb_false_r. lia.
Qed.
End Codex.
