(* ===== verification/GeminiTariffs.v ===== *)
(** * Gemini price catalogue, usage and cost ([crates/metering/src/gemini.rs])

    Modality buckets, search billing, tiered long-context rates, and the merge of
    streamed cumulative snapshots with separately arriving grounding facts. *)
From S2P Require Import Prelude Text Tariffs MeterUsage TurnMeter.

Module Gemini.
Inductive GeminiSearchBilling := PerQuery (nano : Z) | PerGroundedPrompt (nano : Z).
Record GeminiPrices := mkGP {
  input : Z; audio_input : Z; cached_input : Z; cached_audio_input : Z; output : Z; image_output : Z;
  long_context_threshold : Z; long_input : Z; long_audio_input : Z; long_cached_input : Z;
  long_cached_audio_input : Z; long_output : Z; search : GeminiSearchBilling
}.
Record GeminiModelSpec := mkSpec {
  spec_id : string; spec_display_name : string; spec_created : Z; spec_input_token_limit : Z;
  spec_output_token_limit : Z; spec_prices : GeminiPrices
}.
Record GeminiUsage := mkGU {
  input_tokens : Z; tool_prompt_tokens : Z; audio_input_tokens : Z; cached_input_tokens : Z;
  cached_audio_input_tokens : Z; output_tokens : Z; thinking_output_tokens : Z; image_output_tokens : Z;
  search_queries : Z; grounded_search_prompts : Z
}.
Definition GeminiUsage_default : GeminiUsage := mkGU 0 0 0 0 0 0 0 0 0 0.
Definition total_tokens (u : GeminiUsage) : Z :=
  sat_u64 (sat_u64 (sat_u64 (sat_u64 (sat_u64 (input_tokens u + audio_input_tokens u) + cached_input_tokens u)
    + cached_audio_input_tokens u) + output_tokens u) + image_output_tokens u).
Definition is_zero (u : GeminiUsage) : bool :=
  (total_tokens u =? 0) && (search_queries u =? 0) && (grounded_search_prompts u =? 0).
Record CatalogEntry := mkEntry {
  id : string; display_name : string; created : Z; input_token_limit : Z; output_token_limit : Z;
  tariff_family : string; schedule : Schedule GeminiPrices
}.

Definition SEARCH_GEMINI_3 : GeminiSearchBilling := PerQuery 14000000.
Definition SEARCH_GEMINI_25 : GeminiSearchBilling := PerGroundedPrompt 35000000.
Definition GEMINI_25_PRO_RELEASED : Z := 1750118400.
Definition GEMINI_25_FLASH_RELEASED : Z := 1750118400.
Definition GEMINI_25_FLASH_LITE_RELEASED : Z := 1753142400.
Definition GEMINI_3_FLASH_PREVIEW_RELEASED : Z := 1765929600.
Definition GEMINI_31_PRO_PREVIEW_RELEASED : Z := 1771459200.
Definition GEMINI_31_FLASH_LITE_RELEASED : Z := 1778112000.
Definition GEMINI_35_FLASH_RELEASED : Z := 1779148800.
Definition GEMINI_31_FLASH_IMAGE_RELEASED : Z := 1779926400.
Definition GEMINI_36_FLASH_RELEASED : Z := 1784592000.
Definition GEMINI_37_FLASH_RELEASED : Z := 1786579200.
Definition flat_prices (inp audio cached cached_audio out : Z) (s : GeminiSearchBilling) : GeminiPrices :=
  mkGP inp audio cached cached_audio out 0 u64_max inp audio cached cached_audio out s.
Definition flat (inp audio cached cached_audio out : Z) (s : GeminiSearchBilling) : Schedule GeminiPrices :=
  (mkEpoch 0 (flat_prices inp audio cached cached_audio out s), []).

Definition GEMINI_3_FLASH_PREVIEW : Schedule GeminiPrices := flat 500 1000 50 100 3000 SEARCH_GEMINI_3.
Definition GEMINI_36_STANDARD_START : Z := 1798761600.
Definition GEMINI_36_FLASH : Schedule GeminiPrices :=
  (mkEpoch 0 (flat_prices 750 750 75 75 3750 SEARCH_GEMINI_3),
   [mkEpoch GEMINI_36_STANDARD_START (flat_prices 1500 1500 150 150 7500 SEARCH_GEMINI_3)]).
Definition GEMINI_37_FLASH_STANDARD_RATES_START : Z := 1798761600.
Definition GEMINI_37_FLASH : Schedule GeminiPrices :=
  (mkEpoch 0 (flat_prices 750 750 75 75 3750 SEARCH_GEMINI_3),
   [mkEpoch GEMINI_37_FLASH_STANDARD_RATES_START (flat_prices 1500 1500 150 150 7500 SEARCH_GEMINI_3)]).
Definition GEMINI_35_FLASH : Schedule GeminiPrices := flat 1500 1500 150 150 9000 SEARCH_GEMINI_3.
Definition GEMINI_31_FLASH_LITE : Schedule GeminiPrices := flat 250 500 25 50 1500 SEARCH_GEMINI_3.
Definition GEMINI_31_PRO_PREVIEW : Schedule GeminiPrices :=
  (mkEpoch 0 (mkGP 2000 2000 200 200 12000 0 200000 4000 4000 400 400 18000 SEARCH_GEMINI_3), []).
Definition GEMINI_25_PRO : Schedule GeminiPrices :=
  (mkEpoch 0 (mkGP 1250 1250 125 125 10000 0 200000 2500 2500 250 250 15000 SEARCH_GEMINI_25), []).
Definition GEMINI_25_FLASH : Schedule GeminiPrices := flat 300 1000 30 100 2500 SEARCH_GEMINI_25.
Definition GEMINI_25_FLASH_LITE : Schedule GeminiPrices := flat 100 300 10 30 400 SEARCH_GEMINI_25.
Definition GEMINI_31_FLASH_IMAGE : Schedule GeminiPrices :=
  (mkEpoch 0 (mkGP 500 500 500 500 3000 60000 u64_max 500 500 500 500 3000 SEARCH_GEMINI_3), []).

Definition CATALOG : list CatalogEntry :=
  [ mkEntry "gemini-3.1-flash-image" "Gemini 3.1 Flash Image (Nano Banana 2)" GEMINI_31_FLASH_IMAGE_RELEASED 131072 32768
      "google/gemini/gemini-3.1-flash-image" GEMINI_31_FLASH_IMAGE;
    mkEntry "gemini-3.7-flash" "Gemini 3.7 Flash" GEMINI_37_FLASH_RELEASED 1048576 65536
      "google/gemini/gemini-3.7-flash" GEMINI_37_FLASH;
    mkEntry "gemini-3.6-flash" "Gemini 3.6 Flash" GEMINI_36_FLASH_RELEASED 1048576 65536
      "google/gemini/gemini-3.6-flash" GEMINI_36_FLASH;
    mkEntry "gemini-3.5-flash" "Gemini 3.5 Flash" GEMINI_35_FLASH_RELEASED 1048576 65536
      "google/gemini/gemini-3.5-flash" GEMINI_35_FLASH;
    mkEntry "gemini-3-flash-preview" "Gemini 3 Flash Preview" GEMINI_3_FLASH_PREVIEW_RELEASED 1048576 65536
      "google/gemini/gemini-3-flash-preview" GEMINI_3_FLASH_PREVIEW;
    mkEntry "gemini-3.1-flash-lite" "Gemini 3.1 Flash-Lite" GEMINI_31_FLASH_LITE_RELEASED 1048576 65536
      "google/gemini/gemini-3.1-flash-lite" GEMINI_31_FLASH_LITE;
    mkEntry "gemini-3.1-pro-preview" "Gemini 3.1 Pro Preview" GEMINI_31_PRO_PREVIEW_RELEASED 1048576 65536
      "google/gemini/gemini-3.1-pro-preview" GEMINI_31_PRO_PREVIEW;
    mkEntry "gemini-2.5-pro" "Gemini 2.5 Pro" GEMINI_25_PRO_RELEASED 1048576 65536
      "google/gemini/gemini-2.5-pro" GEMINI_25_PRO;
    mkEntry "gemini-2.5-flash" "Gemini 2.5 Flash" GEMINI_25_FLASH_RELEASED 1048576 65536
      "google/gemini/gemini-2.5-flash" GEMINI_25_FLASH;
    mkEntry "gemini-2.5-flash-lite" "Gemini 2.5 Flash-Lite" GEMINI_25_FLASH_LITE_RELEASED 1048576 65536
      "google/gemini/gemini-2.5-flash-lite" GEMINI_25_FLASH_LITE ].

Definition gemini_prices_of : Schedule GeminiPrices -> Z -> GeminiPrices := prices_at.
Definition gemini_catalog_at (now_unix : Z) : list GeminiModelSpec :=
  (fun e => mkSpec (id e) (display_name e) (created e) (input_token_limit e) (output_token_limit e)
     (prices_at (schedule e) now_unix)) <$> CATALOG.
Definition find_id (model_id : string) : option CatalogEntry := find_ident id CATALOG model_id.
Definition gemini_prices_at (model_id : string) (now_unix : Z) : option GeminiPrices :=
  (fun e => prices_at (schedule e) now_unix) <$> find_id model_id.
Definition gemini_matched_tariff_at (model_id : string) (now_unix : Z) : option (string * GeminiPrices) :=
  (fun e => (tariff_family e, prices_at (schedule e) now_unix)) <$> find_id model_id.
Definition gemini_compiled_tariffs_at (now_unix : Z) : list (string * GeminiPrices) :=
  (fun e => (tariff_family e, prices_at (schedule e) now_unix)) <$> CATALOG.
Definition find_family (family : string) : option CatalogEntry :=
  List.find (fun e => bool_decide (tariff_family e = family)) CATALOG.
Definition gemini_tariff_has_future_epoch_at (family : string) (now_unix : Z) : bool :=
  match find_family family with
  | Some entry => existsb (fun ep => now_unix <? effective_from ep) (epochs (schedule entry))
  | None => false
  end.
Definition gemini_tariff_seed_safe (family : string) : bool :=
  match find_family family with
  | Some entry => Nat.eqb (length (epochs (schedule entry))) 1
  | None => false
  end.

(** ** Usage *)
Definition as_array (v : Value) : option (list Value) := match v with VArray l => Some l | _ => None end.
(** [&metadata[k]]: null when absent. *)
Definition index (k : string) (v : Value) : Value := default VNull (get k v).
Definition has_modality (modality : string) (detail : Value) : bool :=
  match get "modality" detail >>? as_str with
  | Some value => eq_ignore_ascii_case value modality
  | None => false
  end.
Definition count_modality (details : Value) (modality : string) : Z :=
  fold_left (fun acc n => sat_u64 (acc + n))
    (omap (fun d => get "tokenCount" d >>? as_u64)
       (List.filter (has_modality modality) (default [] (as_array details)))) 0.

Definition usage_from_metadata (metadata : Value) : GeminiUsage :=
  let prompt := u64_field metadata "promptTokenCount" in
  let cached := u64_field metadata "cachedContentTokenCount" `min` prompt in
  let tool_prompt := u64_field metadata "toolUsePromptTokenCount" in
  let audio_prompt := count_modality (index "promptTokensDetails" metadata) "AUDIO" `min` prompt in
  let cached_audio := (count_modality (index "cacheTokensDetails" metadata) "AUDIO" `min` cached) `min` audio_prompt in
  let audio := sat_u64 (audio_prompt - cached_audio) in
  let cached_in := sat_u64 (cached - cached_audio) in
  let inp := sat_u64 (sat_u64 (sat_u64 (prompt - cached) - audio) + tool_prompt) in
  let candidates := u64_field metadata "candidatesTokenCount" in
  let image_candidates := count_modality (index "candidatesTokensDetails" metadata) "IMAGE" `min` candidates in
  let thoughts := u64_field metadata "thoughtsTokenCount" in
  mkGU inp (tool_prompt `min` inp) audio cached_in cached_audio
    (sat_u64 (sat_u64 (candidates - image_candidates) + thoughts)) thoughts image_candidates 0 0.

(** [as u64] of a length, which is below [2^64]. *)
Definition len_u64 {A} (l : list A) : Z := Z.of_nat (length l).
Definition grounding_step (acc : Z * bool) (candidate : Value) : Z * bool :=
  match get "groundingMetadata" candidate with
  | None => acc
  | Some grounding =>
      let queries := from_option len_u64 0 (get "webSearchQueries" grounding >>? as_array) in
      (sat_u64 (acc.1 + queries),
       acc.2 || ((0 <? queries)
         || match get "groundingChunks" grounding >>? as_array with
            | Some chunks => negb (Nat.eqb (length chunks) 0)
            | None => false
            end))
  end.
Definition grounding_usage (value : Value) : Z * bool :=
  fold_left grounding_step (default [] (get "candidates" value >>? as_array)) (0, false).
Definition set_search (u : GeminiUsage) (queries prompts : Z) : GeminiUsage :=
  mkGU (input_tokens u) (tool_prompt_tokens u) (audio_input_tokens u) (cached_input_tokens u) (cached_audio_input_tokens u)
    (output_tokens u) (thinking_output_tokens u) (image_output_tokens u) queries prompts.
Definition merge_grounding_usage (u : GeminiUsage) (value : Value) : GeminiUsage :=
  let '(queries, grounded) := grounding_usage value in
  set_search u (search_queries u `max` queries) (grounded_search_prompts u `max` Z.b2z grounded).
Definition usage_from_metadata_value (metadata : Value) : GeminiUsage := usage_from_metadata metadata.
Definition usage_from_response_value (value : Value) : option GeminiUsage :=
  metadata ← get "usageMetadata" value;
  Some (merge_grounding_usage (usage_from_metadata metadata) value).
Definition merge_stream_response_value (u : GeminiUsage) (value : Value) : GeminiUsage :=
  let u1 :=
    match get "usageMetadata" value with
    | Some metadata =>
        let snapshot := usage_from_metadata metadata in
        if (0 <? total_tokens snapshot) || (total_tokens u =? 0)
        then set_search snapshot (search_queries u) (grounded_search_prompts u)
        else u
    | None => u
    end in
  merge_grounding_usage u1 value.

Section Parser.
Variables (from_slice from_str : string -> option Value).

Definition usage_from_response_json (bytes : string) : GeminiUsage :=
  default GeminiUsage_default (from_slice bytes >>? usage_from_response_value).
Definition sse_payload (line : string) : option Value :=
  data ← strip_prefix "data:" line; from_str (trim data).
Definition sse_line (u : GeminiUsage) (line : string) : GeminiUsage :=
  match sse_payload line with Some value => merge_stream_response_value u value | None => u end.
Definition usage_from_sse (bytes : string) : GeminiUsage :=
  if is_utf8 bytes then fold_left sse_line (lines bytes) GeminiUsage_default else GeminiUsage_default.
End Parser.

(** ** Cost *)
Definition prompt_tokens (u : GeminiUsage) : Z :=
  sat_u64 (sat_u64 (sat_u64 (input_tokens u + audio_input_tokens u) + cached_input_tokens u) + cached_audio_input_tokens u).
Definition cost_nanodollars (u : GeminiUsage) (p : GeminiPrices) : Z :=
  let long := long_context_threshold p <? prompt_tokens u in
  let '(inp, audio, cached, cached_audio, out) :=
    if long then (long_input p, long_audio_input p, long_cached_input p, long_cached_audio_input p, long_output p)
    else (input p, audio_input p, cached_input p, cached_audio_input p, output p) in
  let s := match search p with
           | PerQuery nano => sat_i128 (search_queries u * nano)
           | PerGroundedPrompt nano => sat_i128 (grounded_search_prompts u * nano)
           end in
  sat_i128 (sat_i128 (sat_i128 (sat_i128 (sat_i128 (sat_i128 (
      sat_i128 (input_tokens u * inp)
    + sat_i128 (audio_input_tokens u * audio))
    + sat_i128 (cached_input_tokens u * cached))
    + sat_i128 (cached_audio_input_tokens u * cached_audio))
    + sat_i128 (output_tokens u * out))
    + sat_i128 (image_output_tokens u * image_output p))
    + s).

(** ** Buckets *)
Definition usage_ok (u : GeminiUsage) : Prop :=
  Forall is_u64 [input_tokens u; tool_prompt_tokens u; audio_input_tokens u; cached_input_tokens u; cached_audio_input_tokens u;
    output_tokens u; thinking_output_tokens u; image_output_tokens u; search_queries u; grounded_search_prompts u].
Lemma count_modality_ok details modality : is_u64 (count_modality details modality).
Proof. apply sat_fold_ok. width_lia. Qed.

Lemma prompt_buckets p c a ca t : is_u64 p -> is_u64 t -> 0 <= c <= p -> 0 <= a <= p -> 0 <= ca -> ca <= c -> ca <= a ->
  sat_u64 (a - ca) = a - ca /\ sat_u64 (c - ca) = c - ca /\
  sat_u64 (sat_u64 (sat_u64 (p - c) - (a - ca)) + t) = Z.min u64_max (Z.max 0 (p - c - (a - ca)) + t).
Proof.
  intros. split; [width_lia|]. split; [width_lia|].
  replace (sat_u64 (p - c)) with (p - c) by width_lia.
  replace (sat_u64 (p - c - (a - ca))) with (Z.max 0 (p - c - (a - ca))) by width_lia. width_lia.
Qed.
Lemma output_buckets k i th : is_u64 k -> is_u64 th -> 0 <= i <= k ->
  sat_u64 (sat_u64 (k - i) + th) = Z.min u64_max (k - i + th).
Proof. intros. replace (sat_u64 (k - i)) with (k - i) by width_lia. width_lia. Qed.

(** [buckets]: the reported counts of a metadata object and their clamps. *)
Ltac buckets m Hm :=
  unfold usage_from_metadata; cbn [input_tokens tool_prompt_tokens audio_input_tokens cached_input_tokens cached_audio_input_tokens
    output_tokens thinking_output_tokens image_output_tokens search_queries grounded_search_prompts];
  pose proof (u64_field_ok "promptTokenCount" m Hm); pose proof (u64_field_ok "cachedContentTokenCount" m Hm);
  pose proof (u64_field_ok "toolUsePromptTokenCount" m Hm); pose proof (u64_field_ok "candidatesTokenCount" m Hm);
  pose proof (u64_field_ok "thoughtsTokenCount" m Hm);
  pose proof (count_modality_ok (index "promptTokensDetails" m) "AUDIO");
  pose proof (count_modality_ok (index "cacheTokensDetails" m) "AUDIO");
  pose proof (count_modality_ok (index "candidatesTokensDetails" m) "IMAGE");
  clear Hm;
  generalize dependent (u64_field m "promptTokenCount"); intros prompt;
  generalize dependent (u64_field m "cachedContentTokenCount"); intros cached0;
  generalize dependent (u64_field m "toolUsePromptTokenCount"); intros tool;
  generalize dependent (u64_field m "candidatesTokenCount"); intros candidates;
  generalize dependent (u64_field m "thoughtsTokenCount"); intros thoughts;
  generalize dependent (count_modality (index "promptTokensDetails" m) "AUDIO"); intros audio0;
  generalize dependent (count_modality (index "cacheTokensDetails" m) "AUDIO"); intros cached_audio0;
  generalize dependent (count_modality (index "candidatesTokensDetails" m) "IMAGE"); intros image0;
  intros;
  set (cached := cached0 `min` prompt) in *; set (audio := audio0 `min` prompt) in *;
  set (cached_audio := (cached_audio0 `min` cached) `min` audio) in *; set (image := image0 `min` candidates) in *;
  assert (0 <= cached <= prompt) by (subst cached; width_lia);
  assert (0 <= audio <= prompt) by (subst audio; width_lia);
  assert (0 <= cached_audio /\ cached_audio <= cached /\ cached_audio <= audio) as (? & ? & ?) by (subst cached_audio; width_lia);
  assert (0 <= image <= candidates) by (subst image; width_lia);
  clearbody cached audio cached_audio image;
  destruct (prompt_buckets prompt cached audio cached_audio tool) as (Ebka & Ebkc & Ebki); [done..|];
  rewrite ?Ebka, ?Ebkc, ?Ebki, ?(output_buckets candidates image thoughts) by done; clear Ebka Ebkc Ebki.

Lemma metadata_ok m : value_ok m -> usage_ok (usage_from_metadata m).
Proof.
  intros Hm. unfold usage_ok. buckets m Hm.
  rewrite !Forall_cons, Forall_nil. split_and!; try done; width_lia.
Qed.

(** The buckets of a usage report lose nothing.  Cached and uncached parts of
    the cached prompt and of its audio add up to the (clamped) reported counts,
    text and image output add up to candidates plus thoughts, and the four prompt
    buckets together cover prompt and tool tokens; they cover them exactly, each
    token once, whenever the cached and the fresh audio counts fit inside the
    prompt they are part of. *)
Theorem gemini_buckets_cover (m : Value) (Hm : value_ok m) :
  let u := usage_from_metadata m in
  let prompt := u64_field m "promptTokenCount" in
  let tool := u64_field m "toolUsePromptTokenCount" in
  let candidates := u64_field m "candidatesTokenCount" in
  let thoughts := u64_field m "thoughtsTokenCount" in
  let billed := input_tokens u + audio_input_tokens u + cached_input_tokens u + cached_audio_input_tokens u in
  cached_input_tokens u + cached_audio_input_tokens u = u64_field m "cachedContentTokenCount" `min` prompt /\
  audio_input_tokens u + cached_audio_input_tokens u = count_modality (index "promptTokensDetails" m) "AUDIO" `min` prompt /\
  tool_prompt_tokens u <= input_tokens u /\
  (prompt + tool <= u64_max -> prompt + tool <= billed) /\
  (prompt + tool <= u64_max -> audio_input_tokens u + (cached_input_tokens u + cached_audio_input_tokens u) <= prompt ->
     billed = prompt + tool) /\
  (candidates + thoughts <= u64_max ->
     output_tokens u + image_output_tokens u = candidates + thoughts /\ thinking_output_tokens u <= output_tokens u).
Proof. cbn zeta. buckets m Hm. split; [|split; [|split; [|split; [|split]]]]; intros; width_lia. Qed.
Definition demo_metadata : Value := VObject
  [("promptTokenCount", VNumber (PosInt 100)); ("cachedContentTokenCount", VNumber (PosInt 30));
   ("promptTokensDetails", VArray [VObject [("modality", VString "audio"); ("tokenCount", VNumber (PosInt 20))]]);
   ("candidatesTokenCount", VNumber (PosInt 7)); ("thoughtsTokenCount", VNumber (PosInt 5))].
Lemma demo_metadata_ok : value_ok demo_metadata.
Proof. unfold is_u64, u64_max. cbn. width_lia. Qed.
Lemma gemini_buckets_cover_witness :
  usage_from_metadata demo_metadata = mkGU 50 0 20 30 0 12 5 0 0 0 /\
  tool_prompt_tokens (usage_from_metadata demo_metadata) <= input_tokens (usage_from_metadata demo_metadata).
Proof.
  split; [reflexivity|]. destruct (gemini_buckets_cover demo_metadata demo_metadata_ok) as (_ & _ & Ht & _). exact Ht.
Defined.

(** ** Streams *)
Definition token_legs : list (GeminiUsage -> Z) :=
  [input_tokens; tool_prompt_tokens; audio_input_tokens; cached_input_tokens; cached_audio_input_tokens;
   output_tokens; thinking_output_tokens; image_output_tokens].
Lemma token_legs_search f u q g : f ∈ token_legs -> f (set_search u q g) = f u.
Proof.
  unfold token_legs. intros Hf. repeat (apply elem_of_cons in Hf as [->|Hf]; [done|]). by apply elem_of_nil in Hf.
Qed.
Lemma total_set_search u q g : total_tokens (set_search u q g) = total_tokens u.
Proof. done. Qed.
Lemma merge_grounding_spec u v : merge_grounding_usage u v
  = set_search u (search_queries u `max` (grounding_usage v).1) (grounded_search_prompts u `max` Z.b2z (grounding_usage v).2).
Proof. unfold merge_grounding_usage. by destruct (grounding_usage v). Qed.

(** A snapshot without tokens reports nothing at all. *)
Lemma subsets m : value_ok m -> let u := usage_from_metadata m in
  thinking_output_tokens u <= output_tokens u /\ tool_prompt_tokens u <= input_tokens u.
Proof. intros Hm. cbn zeta. buckets m Hm. width_lia. Qed.
Lemma zero_total u f : usage_ok u -> thinking_output_tokens u <= output_tokens u -> tool_prompt_tokens u <= input_tokens u ->
  total_tokens u <= 0 -> f ∈ token_legs -> f u = 0.
Proof.
  intros Hok ? ? Ht Hf. unfold usage_ok in Hok. rewrite !Forall_cons in Hok.
  destruct Hok as (H1 & H2 & H3 & H4 & H5 & H6 & H7 & H8 & _). unfold total_tokens in Ht.
  unfold token_legs in Hf. repeat (apply elem_of_cons in Hf as [->|Hf]; [width_lia|]). by apply elem_of_nil in Hf.
Qed.
Lemma zero_snapshot m f : value_ok m -> total_tokens (usage_from_metadata m) <= 0 -> f ∈ token_legs ->
  f (usage_from_metadata m) = 0.
Proof.
  intros Hm Ht Hf. destruct (subsets m Hm) as [? ?]. by apply zero_total; [apply metadata_ok|..].
Qed.

Section Streams.
Variable from_str : string -> option Value.
Hypothesis Hparse : parser_ok from_str.

Definition events (bytes : string) : list Value := omap (sse_payload from_str) (lines bytes).
Definition snapshots (evs : list Value) : list GeminiUsage :=
  omap (fun v => usage_from_metadata <$> get "usageMetadata" v) evs.
(** The last snapshot that carries token counts. *)
Definition last_counted (evs : list Value) : option GeminiUsage :=
  last (List.filter (fun u => 0 <? total_tokens u) (snapshots evs)).
Definition merged (evs : list Value) : GeminiUsage := fold_left merge_stream_response_value evs GeminiUsage_default.
Definition max_queries (evs : list Value) : Z := foldr (fun v acc => (grounding_usage v).1 `max` acc) 0 evs.

Lemma merge_search u v :
  search_queries (merge_stream_response_value u v) = search_queries u `max` (grounding_usage v).1 /\
  grounded_search_prompts (merge_stream_response_value u v) = grounded_search_prompts u `max` Z.b2z (grounding_usage v).2.
Proof.
  unfold merge_stream_response_value. rewrite merge_grounding_spec.
  destruct (get "usageMetadata" v); [|done]. by destruct (_ || _).
Qed.
Lemma merge_tokens u v f : f ∈ token_legs ->
  f (merge_stream_response_value u v)
  = match usage_from_metadata <$> get "usageMetadata" v with
    | Some s => if (0 <? total_tokens s) || (total_tokens u =? 0) then f s else f u
    | None => f u
    end.
Proof.
  intros Hf. unfold merge_stream_response_value. rewrite merge_grounding_spec, token_legs_search by done.
  destruct (get "usageMetadata" v); [|done]. cbn. destruct (_ || _); [by rewrite token_legs_search|done].
Qed.
Lemma total_by_legs u w : (forall f, f ∈ token_legs -> f u = f w) -> total_tokens u = total_tokens w.
Proof.
  intros Hl. unfold total_tokens, token_legs in *. rewrite !Hl; [done|..]; rewrite !elem_of_cons; tauto.
Qed.
Lemma merged_tokens evs : (forall v, v ∈ evs -> value_ok v) ->
  forall f, f ∈ token_legs -> f (merged evs) = from_option f 0 (last_counted evs).
Proof.
  unfold merged, last_counted. induction evs as [|v evs IH] using rev_ind; intros Hok f Hf.
  { unfold token_legs in Hf. repeat (apply elem_of_cons in Hf as [->|Hf]; [done|]). by apply elem_of_nil in Hf. }
  specialize (IH ltac:(set_solver)). assert (Hv : value_ok v) by set_solver.
  rewrite fold_left_app. cbn [fold_left]. rewrite merge_tokens by done.
  unfold snapshots. rewrite omap_app, List.filter_app. fold (snapshots evs).
  set (u := fold_left _ evs _) in *. set (old := List.filter _ (snapshots evs)) in *. cbn [omap list_omap].
  destruct (get "usageMetadata" v) as [m|] eqn:Em; cbn [fmap option_fmap option_map]; [|by rewrite app_nil_r, IH].
  pose proof (get_ok _ _ _ Hv Em) as Hm. cbn [List.filter]. destruct (Z.ltb_spec 0 (total_tokens (usage_from_metadata m))) as [Hp|Hz].
  - by rewrite last_snoc.
  - rewrite app_nil_r. cbn [orb]. destruct (Z.eqb_spec (total_tokens u) 0) as [H0|]; [|by apply IH].
    rewrite (zero_snapshot m f Hm Hz Hf). destruct (last old) as [w|] eqn:El; [|done].
    assert (total_tokens u = total_tokens w) as Hw by (apply total_by_legs; intros g Hg; by rewrite IH).
    apply last_Some_elem_of in El. subst old. rewrite list_elem_of_In, List.filter_In in El. lia.
Qed.
Lemma merged_search evs : 0 <= max_queries evs /\ search_queries (merged evs) = max_queries evs /\
  grounded_search_prompts (merged evs) = Z.b2z (existsb (fun v => (grounding_usage v).2) evs).
Proof.
  unfold merged, max_queries. induction evs as [|v evs IH] using rev_ind; [done|].
  rewrite fold_left_app, foldr_app, existsb_app. cbn [fold_left foldr existsb].
  destruct (merge_search (fold_left merge_stream_response_value evs GeminiUsage_default) v) as [-> ->].
  destruct IH as (H0 & -> & ->). rewrite orb_false_r.
  assert (Hf : forall a b, foldr (fun v acc => (grounding_usage v).1 `max` acc) (a `max` b) evs
    = foldr (fun v acc => (grounding_usage v).1 `max` acc) b evs `max` a).
  { intros a b. clear. induction evs; cbn; lia. }
  rewrite Hf. split_and!; [lia|lia|]. by destruct (existsb _ evs), (grounding_usage v).2.
Qed.
Lemma sse_fold ls : forall u, fold_left (sse_line from_str) ls u = fold_left merge_stream_response_value (omap (sse_payload from_str) ls) u.
Proof.
  induction ls as [|l ls IH]; intros u; [done|]. cbn [fold_left omap list_omap]. unfold sse_line at 2.
  by destruct (sse_payload from_str l); cbn [fold_left]; rewrite IH.
Qed.
Lemma events_ok bytes v : v ∈ events bytes -> value_ok v.
Proof.
  unfold events. rewrite list_elem_of_omap. intros (raw & _ & Hp). unfold sse_payload in Hp.
  apply bind_Some in Hp as (data & _ & Hp). by eapply Hparse.
Qed.

(** A Gemini stream is metered by its last counted snapshot.  Every token count
    of the result is that of the last snapshot that carries any token, so a frame
    with annotations only, or an empty metadata object, never erases counts an
    earlier frame reported; search facts are kept whichever frame carried them
    and a repeated query list is not charged twice.  Bytes that are not text and
    streams that never report yield the empty usage. *)
Theorem gemini_stream_exact (bytes : string) :
  let u := usage_from_sse from_str bytes in
  (is_utf8 bytes = false -> u = GeminiUsage_default) /\
  (is_utf8 bytes = true ->
     (forall f, f ∈ token_legs -> f u = from_option f 0 (last_counted (events bytes))) /\
     search_queries u = max_queries (events bytes) /\
     (grounded_search_prompts u = 1 <-> exists v, v ∈ events bytes /\ (grounding_usage v).2 = true)).
Proof.
  cbn zeta. unfold usage_from_sse. split; intros ->; [done|]. rewrite sse_fold.
  change (omap (sse_payload from_str) (lines bytes)) with (events bytes). fold (merged (events bytes)).
  split; [apply merged_tokens, events_ok|]. destruct (merged_search (events bytes)) as (_ & Hq & Hg). split; [done|]. rewrite Hg.
  setoid_rewrite list_elem_of_In. rewrite <- List.existsb_exists. by destruct (existsb _ _).
Qed.
End Streams.

Definition demo_frame (payload : string) : option Value :=
  if bool_decide (payload = "{count}") then Some (VObject [("usageMetadata", demo_metadata)])
  else if bool_decide (payload = "{note}") then Some (VObject [("usageMetadata", VObject [("trafficType", VString "x")])])
  else None.
Lemma demo_frame_ok : parser_ok demo_frame.
Proof.
  intros s v. unfold demo_frame. repeat case_bool_decide; intros Hv; simplify_eq; [|done].
  cbn [value_ok foldr snd]. split; [exact demo_metadata_ok|done].
Qed.
Definition demo_stream : string :=
  String.app "data: {count}" (String LF "data: {note}").
Lemma gemini_stream_exact_witness :
  usage_from_sse demo_frame demo_stream = mkGU 50 0 20 30 0 12 5 0 0 0 /\
  search_queries (usage_from_sse demo_frame demo_stream) = max_queries (events demo_frame demo_stream).
Proof.
  split; [reflexivity|]. destruct (gemini_stream_exact demo_frame demo_frame_ok demo_stream) as [_ HS].
  destruct (HS eq_refl) as (_ & Hq & _). exact Hq.
Defined.

(** ** Cost *)
Definition prices_ok (p : GeminiPrices) : Prop :=
  Forall rate_ok [input p; audio_input p; cached_input p; cached_audio_input p; output p; image_output p;
    long_input p; long_audio_input p; long_cached_input p; long_cached_audio_input p; long_output p;
    match search p with PerQuery n => n | PerGroundedPrompt n => n end].
#[global] Instance gemini_prices_ok_dec p : Decision (prices_ok p).
Proof. unfold prices_ok. apply _. Defined.
Lemma gemini_catalog_prices_ok e now : e ∈ CATALOG -> prices_ok (prices_at (schedule e) now).
Proof.
  intros He. assert (Forall (fun e => Forall prices_ok (eprices <$> epochs (schedule e))) CATALOG) as HF
    by (apply (bool_decide_unpack _); vm_compute; exact I).
  rewrite Forall_forall in HF. specialize (HF e He). rewrite Forall_forall in HF. apply HF, prices_at_elem.
Qed.
(** The price of a turn in unbounded integers: one tier for the whole request,
    chosen by all prompt buckets together. *)
Definition exact_cost (u : GeminiUsage) (p : GeminiPrices) : Z :=
  let long := long_context_threshold p
    <? Z.min u64_max (input_tokens u + audio_input_tokens u + cached_input_tokens u + cached_audio_input_tokens u) in
  input_tokens u * (if long then long_input p else input p)
  + audio_input_tokens u * (if long then long_audio_input p else audio_input p)
  + cached_input_tokens u * (if long then long_cached_input p else cached_input p)
  + cached_audio_input_tokens u * (if long then long_cached_audio_input p else cached_audio_input p)
  + output_tokens u * (if long then long_output p else output p)
  + image_output_tokens u * image_output p
  + match search p with PerQuery n => search_queries u * n | PerGroundedPrompt n => grounded_search_prompts u * n end.
Lemma sat_leg t r : is_u64 t -> rate_ok r -> sat_i128 (t * r) = t * r /\ 0 <= t * r <= u64_max * 1000000000.
Proof.
  intros Ht Hr. assert (0 <= t * r <= u64_max * 1000000000) by (unfold rate_ok in Hr; unfold_widths; nia).
  split; [width_lia|done].
Qed.
Lemma sat_sum a b : 0 <= a <= 10 * (u64_max * 1000000000) -> 0 <= b <= u64_max * 1000000000 -> sat_i128 (a + b) = a + b.
Proof. intros. width_lia. Qed.
Lemma prompt_tokens_spec u : usage_ok u -> prompt_tokens u
  = Z.min u64_max (input_tokens u + audio_input_tokens u + cached_input_tokens u + cached_audio_input_tokens u).
Proof.
  unfold usage_ok, prompt_tokens. rewrite !Forall_cons. intros (? & _ & ? & ? & ? & _). width_lia.
Qed.
(** Seven saturating legs are their sum. *)
Lemma sat_sum_legs a b c d e f g :
  Forall (fun z => 0 <= z <= u64_max * 1000000000) [a; b; c; d; e; f; g] ->
  sat_i128 (sat_i128 (sat_i128 (sat_i128 (sat_i128 (sat_i128 (a + b) + c) + d) + e) + f) + g) = a + b + c + d + e + f + g.
Proof.
  rewrite !Forall_cons. intros (? & ? & ? & ? & ? & ? & ? & _).
  rewrite (sat_sum a b), (sat_sum (a + b)), (sat_sum (a + b + c)), (sat_sum (a + b + c + d)),
    (sat_sum (a + b + c + d + e)), (sat_sum (a + b + c + d + e + f)) by lia. done.
Qed.

Lemma cost_tier u inp audio cached cached_audio out img s :
  usage_ok u -> Forall rate_ok [inp; audio; cached; cached_audio; out; img] -> 0 <= s <= u64_max * 1000000000 ->
  sat_i128 (sat_i128 (sat_i128 (sat_i128 (sat_i128 (sat_i128 (
      sat_i128 (input_tokens u * inp) + sat_i128 (audio_input_tokens u * audio))
    + sat_i128 (cached_input_tokens u * cached)) + sat_i128 (cached_audio_input_tokens u * cached_audio))
    + sat_i128 (output_tokens u * out)) + sat_i128 (image_output_tokens u * img)) + s)
  = input_tokens u * inp + audio_input_tokens u * audio + cached_input_tokens u * cached
    + cached_audio_input_tokens u * cached_audio + output_tokens u * out + image_output_tokens u * img + s.
Proof.
  unfold usage_ok. rewrite !Forall_cons. intros (? & _ & ? & ? & ? & ? & _ & ? & _) (? & ? & ? & ? & ? & ? & _) Hs.
  destruct (sat_leg (input_tokens u) inp) as [-> ?]; [done..|]. destruct (sat_leg (audio_input_tokens u) audio) as [-> ?]; [done..|].
  destruct (sat_leg (cached_input_tokens u) cached) as [-> ?]; [done..|].
  destruct (sat_leg (cached_audio_input_tokens u) cached_audio) as [-> ?]; [done..|].
  destruct (sat_leg (output_tokens u) out) as [-> ?]; [done..|]. destruct (sat_leg (image_output_tokens u) img) as [-> ?]; [done..|].
  apply sat_sum_legs. rewrite !Forall_cons, Forall_nil. tauto.
Qed.

Lemma exact_cost_bounds u p : usage_ok u -> prices_ok p -> 0 <= exact_cost u p <= 7 * (u64_max * 1000000000).
Proof.
  intros Hu Hp. unfold usage_ok, prices_ok in *. rewrite !Forall_cons in *.
  destruct Hu as (? & _ & ? & ? & ? & ? & _ & ? & ? & ? & _), Hp as (? & ? & ? & ? & ? & ? & ? & ? & ? & ? & ? & ? & _).
  assert (Hleg : forall t r, is_u64 t -> rate_ok r -> 0 <= t * r <= u64_max * 1000000000) by (intros; by apply sat_leg).
  unfold exact_cost. set (long := _ <? _). clearbody long.
  pose proof (Hleg (input_tokens u) (if long then long_input p else input p) ltac:(done) ltac:(by destruct long)).
  pose proof (Hleg (audio_input_tokens u) (if long then long_audio_input p else audio_input p) ltac:(done) ltac:(by destruct long)).
  pose proof (Hleg (cached_input_tokens u) (if long then long_cached_input p else cached_input p) ltac:(done) ltac:(by destruct long)).
  pose proof (Hleg (cached_audio_input_tokens u) (if long then long_cached_audio_input p else cached_audio_input p) ltac:(done) ltac:(by destruct long)).
  pose proof (Hleg (output_tokens u) (if long then long_output p else output p) ltac:(done) ltac:(by destruct long)).
  pose proof (Hleg (image_output_tokens u) (image_output p) ltac:(done) ltac:(done)).
  assert (0 <= match search p with PerQuery n => search_queries u * n | PerGroundedPrompt n => grounded_search_prompts u * n end
    <= u64_max * 1000000000) by (destruct (search p); by apply Hleg).
  lia.
Qed.

(** A card with plausible rates is priced without saturation. *)
Lemma card_cost_exact u p : usage_ok u -> prices_ok p -> cost_nanodollars u p = exact_cost u p.
Proof.
  intros Hu Hok. unfold cost_nanodollars, exact_cost. rewrite prompt_tokens_spec by done.
  pose proof Hu as Hu'. unfold usage_ok in Hu'. rewrite !Forall_cons in Hu'. destruct Hu' as (_ & _ & _ & _ & _ & _ & _ & _ & Hq & Hg & _).
  unfold prices_ok in Hok. rewrite !Forall_cons in Hok. destruct Hok as (? & ? & ? & ? & ? & ? & ? & ? & ? & ? & ? & Hs & _).
  destruct (search p) as [n|n].
  - destruct (sat_leg (search_queries u) n) as [-> ?]; [done..|].
    destruct (_ <? _); (rewrite cost_tier; [done|done|rewrite !Forall_cons, Forall_nil; tauto|done]).
  - destruct (sat_leg (grounded_search_prompts u) n) as [-> ?]; [done..|].
    destruct (_ <? _); (rewrite cost_tier; [done|done|rewrite !Forall_cons, Forall_nil; tauto|done]).
Qed.

(** Gemini costs are exact.  For every catalogued card at any time and every
    64-bit usage the saturating arithmetic never saturates: the cost is the exact
    sum over the buckets, at the long-context rates for the whole request exactly
    when the prompt buckets together exceed the threshold, plus the search charge
    by queries or once per grounded prompt as the card says. *)
Theorem gemini_cost_exact (u : GeminiUsage) (model : string) (now : Z) (p : GeminiPrices)
    (Hu : usage_ok u) (Hp : gemini_prices_at model now = Some p) :
  cost_nanodollars u p = exact_cost u p /\ 0 <= cost_nanodollars u p < i128_max /\
  exists fam, gemini_matched_tariff_at model now = Some (fam, p) /\ (fam, p) ∈ gemini_compiled_tariffs_at now.
Proof.
  unfold gemini_prices_at in Hp. apply fmap_Some in Hp as (e & He & ->). pose proof He as He'.
  apply List.find_some in He as [Hin _]. rewrite <- list_elem_of_In in Hin.
  pose proof (gemini_catalog_prices_ok e now Hin) as Hok. set (p := prices_at (schedule e) now) in *.
  pose proof (card_cost_exact u p Hu Hok) as Hc. split; [done|]. split.
  - rewrite Hc. pose proof (exact_cost_bounds u p Hu Hok). unfold i128_max, u64_max in *. lia.
  - unfold gemini_matched_tariff_at. rewrite He'. exists (tariff_family e). split; [done|]. unfold gemini_compiled_tariffs_at. rewrite list_elem_of_fmap. by exists e.
Qed.
Lemma gemini_cost_exact_witness :
  cost_nanodollars (mkGU 50 0 20 30 0 12 5 0 2 1) (eprices GEMINI_36_FLASH.1) = 28099750.
Proof.
  destruct (gemini_cost_exact (mkGU 50 0 20 30 0 12 5 0 2 1) "gemini-3.6-flash" 0 (eprices GEMINI_36_FLASH.1)) as (H & _ & _);
    [|reflexivity|rewrite H; reflexivity].
  unfold usage_ok. rewrite !Forall_cons, Forall_nil. cbn. width_lia.
Defined.
End Gemini.
