(* ===== verification/Controls.v ===== *)
(** * Optional request controls ([crates/forward/src/validation.rs])

    The shared parsers of optional JSON fields: a missing or null field is
    absent, any other value must have the declared type and domain. *)
From S2P Require Import Prelude Text Tariffs MeterUsage.

Definition Map : Type := list (string * Value).
Definition map_get (object : Map) (field : string) : option Value := get field (VObject object).

Definition optional_bool (object : Map) (field : string) : result string (option bool) :=
  match map_get object field with
  | None | Some VNull => Ok None
  | Some (VBool value) => Ok (Some value)
  | Some _ => Err field
  end.

Fixpoint optional_positive_u64 (object : Map) (fields : list string) : result string (option Z) :=
  match fields with
  | [] => Ok None
  | field :: rest =>
      match map_get object field with
      | None | Some VNull => optional_positive_u64 object rest
      | Some value =>
          ok_or (Some <$> (as_u64 value >>? (fun n => if 0 <? n then Some n else None))) field
      end
  end.

(** A field is present when it has a value other than null. *)
Definition present (object : Map) (field : string) : option Value :=
  match map_get object field with Some VNull | None => None | Some v => Some v end.
Definition positive_u64 (v : Value) (n : Z) : Prop := as_u64 v = Some n /\ 0 < n.
(** [field] with value [v] is the first present alias. *)
Definition first_present (object : Map) (fields : list string) (field : string) (v : Value) : Prop :=
  exists before after, fields = before ++ field :: after /\
    Forall (fun f => present object f = None) before /\ present object field = Some v.

Lemma optional_positive_u64_unfold object field rest :
  optional_positive_u64 object (field :: rest)
  = match present object field with
    | None => optional_positive_u64 object rest
    | Some v => ok_or (Some <$> (as_u64 v >>? (fun n => if 0 <? n then Some n else None))) field
    end.
Proof. unfold present. cbn [optional_positive_u64]. by destruct (map_get object field) as [[]|]. Qed.
Lemma first_present_cons object fields f field v : present object f = None ->
  first_present object (f :: fields) field v <-> first_present object fields field v.
Proof.
  intros Hf. split.
  - intros ([|b before] & after & Heq & Hb & Hv); injection Heq as -> ->; [congruence|].
    apply Forall_cons in Hb as [_ Hb]. by exists before, after.
  - intros (before & after & -> & Hb & Hv). exists (f :: before), after. split; [done|]. by split; [constructor|].
Qed.
Lemma first_present_head object fields f v field w : present object f = Some v ->
  first_present object (f :: fields) field w <-> field = f /\ w = v.
Proof.
  intros Hf. split.
  - intros ([|b before] & after & Heq & Hb & Hv); injection Heq as -> ->; [split; congruence|].
    apply Forall_cons in Hb as [Hb _]. congruence.
  - intros [-> ->]. exists [], fields. repeat split; [constructor|done].
Qed.

Lemma positive_filter v :
  (as_u64 v >>? (fun n => if 0 <? n then Some n else None)) = None <-> (forall n, ~ positive_u64 v n).
Proof.
  unfold positive_u64. destruct (as_u64 v) as [n|]; cbn; [|split; [intros _ n [? _]|]; done].
  destruct (Z.ltb_spec 0 n); split; try done.
  - intros H'. exfalso. apply (H' n). done.
  - intros _ k [? ?]. simplify_eq. lia.
Qed.
Lemma positive_filter_Some v n :
  (as_u64 v >>? (fun n => if 0 <? n then Some n else None)) = Some n <-> positive_u64 v n.
Proof.
  unfold positive_u64. destruct (as_u64 v) as [k|]; cbn; [|split; [|intros []]; done].
  destruct (Z.ltb_spec 0 k); split; [intros; by simplify_eq|by intros [? ?]|done|intros [? ?]; simplify_eq; lia].
Qed.

Lemma optional_bool_cases object field :
  (optional_bool object field = Ok None <-> present object field = None) /\
  (forall b, optional_bool object field = Ok (Some b) <-> present object field = Some (VBool b)) /\
  (forall f, optional_bool object field = Err f
     <-> f = field /\ exists v, present object field = Some v /\ forall b, v <> VBool b).
Proof. unfold optional_bool, present. destruct (map_get object field) as [[]|]; naive_solver. Qed.
Lemma optional_positive_u64_cases object fields :
  (optional_positive_u64 object fields = Ok None <-> Forall (fun f => present object f = None) fields) /\
  (forall n, optional_positive_u64 object fields = Ok (Some n)
     <-> exists f v, first_present object fields f v /\ positive_u64 v n) /\
  (forall f, optional_positive_u64 object fields = Err f
     <-> exists v, first_present object fields f v /\ forall n, ~ positive_u64 v n).
Proof.
  induction fields as [|f rest IH].
  - cbn. split_and!; [by split| |].
    + intros n. split; [done|]. intros (g & v & (before & after & Heq & _) & _). by destruct before.
    + intros g. split; [done|]. intros (v & (before & after & Heq & _) & _). by destruct before.
  - rewrite optional_positive_u64_unfold. destruct (present object f) as [v|] eqn:Hf.
    + split_and!.
      * split; [by destruct (as_u64 v >>? _)|]. intros [? _]%Forall_cons. congruence.
      * intros n. setoid_rewrite (first_present_head object rest f v _ _ Hf). rewrite ok_or_Ok. split.
        -- destruct (as_u64 v >>? _) as [k|] eqn:E; [|done]. intros ?; simplify_eq/=.
           exists f, v. by rewrite <- positive_filter_Some.
        -- intros (g & w & [-> ->] & Hp). apply positive_filter_Some in Hp. by rewrite Hp.
      * intros g. setoid_rewrite (first_present_head object rest f v _ _ Hf). split.
        -- destruct (as_u64 v >>? _) as [k|] eqn:E; [done|]. intros ?; simplify_eq/=.
           exists v. by rewrite <- positive_filter.
        -- intros (w & [-> ->] & Hp). apply positive_filter in Hp. by rewrite Hp.
    + setoid_rewrite Forall_cons. setoid_rewrite (fun g w => first_present_cons object rest f g w Hf).
      destruct IH as (IH1 & IH2 & IH3). split_and!; [|done..]. rewrite IH1. naive_solver.
Qed.

(** Request controls fail closed.  An integer control is absent exactly when
    every alias is missing or null; it has a value exactly when the first present
    alias is a positive 64-bit integer, which is then the value; it is an error,
    naming that alias, exactly when the first present alias is anything else - a
    later well-formed alias never rescues it.  A boolean control is absent, read
    or an error on the same terms. *)
Theorem controls_fail_closed (object : Map) (fields : list string) (field : string) :
  (optional_positive_u64 object fields = Ok None <-> Forall (fun f => present object f = None) fields) /\
  (forall n, optional_positive_u64 object fields = Ok (Some n)
     <-> exists f v, first_present object fields f v /\ positive_u64 v n) /\
  (forall f, optional_positive_u64 object fields = Err f
     <-> exists v, first_present object fields f v /\ forall n, ~ positive_u64 v n) /\
  (optional_bool object field = Ok None <-> present object field = None) /\
  (forall b, optional_bool object field = Ok (Some b) <-> present object field = Some (VBool b)) /\
  (forall f, optional_bool object field = Err f
     <-> f = field /\ exists v, present object field = Some v /\ forall b, v <> VBool b).
Proof.
  pose proof (optional_positive_u64_cases object fields) as (? & ? & ?).
  pose proof (optional_bool_cases object field) as (? & ? & ?). done.
Qed.
