(* ===== verification/Calendar.v ===== *)
(** * Subscription lifecycles ([crates/forward/src/lifecycle.rs])

    When a provider subscription runs out: a fixed number of days after it was
    acquired, or a number of Gregorian calendar months.  The civil calendar is
    computed in eras of 400 years counted from March; the plain operators that
    could leave [i128] are written with their wrap-around, all others act on
    remainders; every division is Euclidean in the code or divides a
    non-negative number, so that [/] and [mod] of [Z] are its value. *)
From S2P Require Import Prelude.

Definition SECONDS_PER_DAY : Z := 86400.
Definition UNIX_EPOCH_DAY_OFFSET : Z := 719468.

Definition is_leap_year (year : Z) : bool :=
  (year mod 4 =? 0) && (negb (year mod 100 =? 0) || (year mod 400 =? 0)).

Definition days_in_month (year month : Z) : Z :=
  if (month =? 1) || (month =? 3) || (month =? 5) || (month =? 7) || (month =? 8) || (month =? 10) || (month =? 12) then 31
  else if (month =? 4) || (month =? 6) || (month =? 9) || (month =? 11) then 30
  else if (month =? 2) && is_leap_year year then 29
  else if month =? 2 then 28
  else 0.

Definition days_from_civil (year month day : Z) : option Z :=
  if negb ((1 <=? month) && (month <=? 12)) || (day =? 0) || (days_in_month year month <? day) then None
  else
    let adjusted_year := wrap_i128 (year - Z.b2z (month <=? 2)) in
    let era := adjusted_year / 400 in
    let year_of_era := adjusted_year - era * 400 in
    let shifted_month := month + (if 2 <? month then -3 else 9) in
    let day_of_year := (153 * shifted_month + 2) / 5 + day - 1 in
    let day_of_era := year_of_era * 365 + year_of_era / 4 - year_of_era / 100 + day_of_year in
    checked_i128 (era * 146097)
      >>? (fun a => checked_i128 (a + day_of_era))
      >>? (fun b => checked_i128 (b - UNIX_EPOCH_DAY_OFFSET)).

Definition civil_from_days (days : Z) : Z * Z * Z :=
  let shifted := wrap_i128 (days + UNIX_EPOCH_DAY_OFFSET) in
  let era := shifted / 146097 in
  let day_of_era := shifted - era * 146097 in
  let year_of_era := (day_of_era - day_of_era / 1460 + day_of_era / 36524 - day_of_era / 146096) / 365 in
  let year := wrap_i128 (year_of_era + era * 400) in
  let day_of_year := day_of_era - (365 * year_of_era + year_of_era / 4 - year_of_era / 100) in
  let shifted_month := (5 * day_of_year + 2) / 153 in
  let day := day_of_year - (153 * shifted_month + 2) / 5 + 1 in
  let month := shifted_month + (if shifted_month <? 10 then 3 else -9) in
  (wrap_i128 (year + Z.b2z (month <=? 2)), month, day).

Definition add_utc_calendar_months (timestamp months : Z) : option Z :=
  let days := timestamp / SECONDS_PER_DAY in
  let seconds_of_day := timestamp mod SECONDS_PER_DAY in
  let '(year, month, day) := civil_from_days days in
  month_index ← (checked_i128 (year * 12)
    >>? (fun a => checked_i128 (a + (month - 1)))
    >>? (fun b => checked_i128 (b + months)));
  let target_year := month_index / 12 in
  target_month ← checked_u32 (month_index mod 12 + 1);
  let target_day := day `min` days_in_month target_year target_month in
  target_days ← days_from_civil target_year target_month target_day;
  target ← (checked_i128 (target_days * SECONDS_PER_DAY) >>? (fun a => checked_i128 (a + seconds_of_day)));
  checked_i64 target.

(** [subscription_days_left] is the rounded quotient of [days_left_secs] by a
    day; the model keeps the exact number of seconds. *)
Record SubscriptionLifecycle := mkLifecycle {
  acquired_at : option Z;
  subscription_expires_at : option Z;
  days_left_secs : option Z
}.
Definition EMPTY : SubscriptionLifecycle := mkLifecycle None None None.
Definition from_expiry (acquired : Z) (expires : option Z) (now : Z) : SubscriptionLifecycle :=
  if acquired <=? 0 then EMPTY
  else mkLifecycle (Some acquired) expires ((fun e => e - now) <$> expires).
Definition fixed_days (acquired days now : Z) : SubscriptionLifecycle :=
  let expires_at :=
    (if 0 <? acquired then checked_i64 (days * SECONDS_PER_DAY) else None)
      >>? (fun lifetime => checked_i64 (acquired + lifetime)) in
  from_expiry acquired expires_at now.
(** [gemini_credential::is_supported_paid_plan] *)
Definition is_supported_paid_plan (plan : string) : bool :=
  bool_decide (plan = "google_ai_pro") || bool_decide (plan = "google_ai_ultra")
  || bool_decide (plan = "code_assist_standard") || bool_decide (plan = "code_assist_enterprise")
  || bool_decide (plan = "workspace_ai_ultra").
Definition gemini (acquired : Z) (plan : string) (now : Z) : SubscriptionLifecycle :=
  if (acquired <=? 0) || negb (is_supported_paid_plan plan) then EMPTY
  else if bool_decide (plan = "google_ai_pro")
  then from_expiry acquired (add_utc_calendar_months acquired 18) now
  else fixed_days acquired 30 now.

(** ** The 400-year era *)

(** Days before year [y] of an era, years starting in March. *)
Definition era_days (y : Z) : Z := 365 * y + y / 4 - y / 100.
Definition era_year (doe : Z) : Z := (doe - doe / 1460 + doe / 36524 - doe / 146096) / 365.
(** Year [y] of an era has a leap day at its end. *)
Definition era_leap (y : Z) : bool := is_leap_year (y + 1).

Ltac date_lia := repeat (apply pair_equal_spec; split); try lia; try reflexivity.

Lemma era_year_bounds doe : 0 <= doe < 146097 ->
  0 <= era_year doe < 400 /\ era_days (era_year doe) <= doe.
Proof. intros H. unfold era_year, era_days. div_mod_lia. Qed.
Lemma era_leap_true y : 0 <= y < 400 -> era_leap y = true <-> y mod 4 = 3 /\ (y mod 100 <> 99 \/ y = 399).
Proof.
  intros Hy. unfold era_leap, is_leap_year.
  rewrite andb_true_iff, orb_true_iff, negb_true_iff, !Z.eqb_eq, Z.eqb_neq.
  div_mod_lia.
Qed.
Lemma era_year_upper doe : 0 <= doe < 146097 ->
  doe <= era_days (era_year doe) + 364 + Z.b2z (era_leap (era_year doe)).
Proof.
  intros H. pose proof (era_year_bounds doe H) as [Hy Hlo].
  pose proof (era_leap_true _ Hy) as HL.
  destruct (decide (doe <= era_days (era_year doe) + 364)) as [|Hgt]; [destruct (era_leap _); cbn; lia|].
  assert (doe = era_days (era_year doe) + 365 /\ era_leap (era_year doe) = true) as [? ->]; [|cbn; lia].
  rewrite HL. clear HL Hlo. unfold era_days, era_year in *. div_mod_lia.
Qed.
(** Within a year the day of the year determines the shifted month and day. *)
Lemma era_year_unique y n : 0 <= y < 400 -> 0 <= n <= 364 + Z.b2z (era_leap y) ->
  0 <= era_days y + n < 146097 /\ era_year (era_days y + n) = y.
Proof.
  intros Hy Hn. pose proof (era_leap_true y Hy) as HL.
  assert (n <= 364 \/ n = 365 /\ y mod 4 = 3 /\ (y mod 100 <> 99 \/ y = 399)) as Hc.
  { destruct (era_leap y); cbn in Hn; [|lia]. destruct (decide (n = 365)); [right|lia]. split; [done|by apply HL]. }
  clear HL. destruct Hn as [Hn _]. unfold era_year, era_days. div_mod_lia.
Qed.

Lemma leap_period y k : is_leap_year (y + k * 400) = is_leap_year y.
Proof.
  unfold is_leap_year.
  replace ((y + k * 400) mod 4) with (y mod 4) by (symmetry; replace (k * 400) with (k * 100 * 4) by lia; apply Z.mod_add; lia).
  replace ((y + k * 400) mod 100) with (y mod 100) by (symmetry; replace (k * 400) with (k * 4 * 100) by lia; apply Z.mod_add; lia).
  by rewrite Z.mod_add by lia.
Qed.

(** Months counted from March: [month_start mp] days precede month [mp]. *)
Definition month_start (mp : Z) : Z := (153 * mp + 2) / 5.
Definition month_of (mp : Z) : Z := mp + (if mp <? 10 then 3 else -9).
Definition shifted_of (month : Z) : Z := month + (if 2 <? month then -3 else 9).
Definition shifted_month_of (doy : Z) : Z := (5 * doy + 2) / 153.

(** The length of month [mp] of an era's year, the leap day being the year's last. *)
Lemma month_len mp leap y : 0 <= mp <= 11 -> (mp = 11 -> is_leap_year y = leap) ->
  days_in_month y (month_of mp)
  = (if mp =? 11 then 365 + Z.b2z leap else month_start (mp + 1)) - month_start mp.
Proof.
  intros Hmp Hl. assert (mp ∈ seqZ 0 12) as Hin by (apply elem_of_seqZ; lia).
  cbn in Hin. repeat (apply elem_of_cons in Hin as [->|Hin]; [try reflexivity|]); [|set_solver].
  rewrite <- (Hl eq_refl). unfold days_in_month, month_of. cbn. by destruct (is_leap_year y).
Qed.
Lemma shifted_month_spec doy : 0 <= doy <= 365 ->
  let mp := shifted_month_of doy in
  0 <= mp <= 11 /\ month_start mp <= doy /\ (mp < 11 -> doy < month_start (mp + 1)).
Proof. intros H. cbn zeta. unfold shifted_month_of, month_start. div_mod_lia. Qed.
Lemma shifted_month_unique mp doy : 0 <= mp <= 11 -> month_start mp <= doy <= 365 ->
  (mp < 11 -> doy < month_start (mp + 1)) -> shifted_month_of doy = mp.
Proof. unfold shifted_month_of, month_start. intros. div_mod_lia. Qed.
Lemma month_of_shifted month : 1 <= month <= 12 ->
  0 <= shifted_of month <= 11 /\ month_of (shifted_of month) = month.
Proof. intros. unfold month_of, shifted_of. repeat case_match; lia. Qed.
Lemma month_of_range mp : 0 <= mp <= 11 ->
  1 <= month_of mp <= 12 /\ shifted_of (month_of mp) = mp /\ (month_of mp <=? 2) = (10 <=? mp).
Proof. intros. unfold month_of, shifted_of. repeat case_match; lia. Qed.

(** ** Eras, shifted years and shifted months

    A day and a civil date have the same coordinates: era, year of the era,
    shifted month and day of the month. *)
Definition month_length (yoe mp : Z) : Z :=
  (if mp =? 11 then 365 + Z.b2z (era_leap yoe) else month_start (mp + 1)) - month_start mp.
Definition coords (era yoe mp dom : Z) : Prop :=
  Z.abs era <= 100000000000000000000 /\ 0 <= yoe < 400 /\ 0 <= mp <= 11 /\ 0 <= dom < month_length yoe mp.
Definition coord_day (era yoe mp dom : Z) : Z :=
  era * 146097 + (era_days yoe + (month_start mp + dom)) - UNIX_EPOCH_DAY_OFFSET.
Definition coord_year (era yoe mp : Z) : Z := yoe + era * 400 + Z.b2z (10 <=? mp).
Definition valid_date (y m d : Z) : Prop := 1 <= m <= 12 /\ 1 <= d <= days_in_month y m.

Lemma coords_year era yoe mp dom : coords era yoe mp dom ->
  0 <= month_start mp + dom <= 364 + Z.b2z (era_leap yoe).
Proof.
  intros (_ & _ & Hmp & Hd). unfold month_length in Hd. revert Hd.
  assert (0 <= Z.b2z (era_leap yoe)) by (destruct era_leap; cbn; lia).
  case_match; unfold month_start; intros; div_mod_lia.
Qed.
Lemma coords_month era yoe mp : 0 <= mp <= 11 ->
  days_in_month (coord_year era yoe mp) (month_of mp) = month_length yoe mp.
Proof.
  intros H. unfold month_length. apply month_len; [done|]. intros ->. unfold coord_year, era_leap. cbn.
  rewrite <- (leap_period (yoe + 1) era). f_equal. lia.
Qed.

Lemma civil_from_coords era yoe mp dom : coords era yoe mp dom ->
  civil_from_days (coord_day era yoe mp dom) = (coord_year era yoe mp, month_of mp, dom + 1).
Proof.
  intros HC. pose proof (coords_year _ _ _ _ HC) as Hdoy. destruct HC as (He & Hy & Hmp & Hd).
  destruct (era_year_unique yoe (month_start mp + dom) Hy Hdoy) as [Hdoe Hyu].
  set (doe := era_days yoe + (month_start mp + dom)) in *.
  pose proof (month_of_range mp Hmp) as (Hm & _ & Hm2).
  unfold civil_from_days, coord_day. fold doe.
  replace (era * 146097 + doe - UNIX_EPOCH_DAY_OFFSET + UNIX_EPOCH_DAY_OFFSET) with (doe + era * 146097) by lia.
  rewrite (wrap_i128_id (doe + _)) by width_lia. rewrite Z.div_add, (Z.div_small doe) by lia.
  replace (doe + era * 146097 - (0 + era) * 146097) with doe by lia.
  fold (era_year doe). rewrite Hyu. rewrite Z.add_0_l. fold (era_days yoe).
  replace (doe - era_days yoe) with (month_start mp + dom) by lia. fold (shifted_month_of (month_start mp + dom)).
  assert (Z.b2z (era_leap yoe) <= 1) by (destruct era_leap; cbn; lia).
  rewrite (shifted_month_unique mp) by (try lia; intros; unfold month_length in Hd; destruct (Z.eqb_spec mp 11); lia).
  fold (month_start mp) (month_of mp). rewrite Hm2. unfold coord_year.
  rewrite (wrap_i128_id (yoe + era * 400)) by width_lia.
  rewrite wrap_i128_id by (destruct (10 <=? mp); cbn; width_lia).
  repeat f_equal; lia.
Qed.
Lemma days_from_coords era yoe mp dom : coords era yoe mp dom ->
  days_from_civil (coord_year era yoe mp) (month_of mp) (dom + 1) = Some (coord_day era yoe mp dom).
Proof.
  intros HC. pose proof (coords_year _ _ _ _ HC) as Hdoy. destruct HC as (He & Hy & Hmp & Hd).
  destruct (era_year_unique yoe (month_start mp + dom) Hy Hdoy) as [Hdoe _].
  pose proof (month_of_range mp Hmp) as (Hm & Hs & Hm2).
  unfold days_from_civil. rewrite coords_month by done.
  rewrite (proj2 (orb_false_iff _ _)) by (split; [apply orb_false_iff; split|]; lia).
  rewrite Hm2. replace (coord_year era yoe mp - Z.b2z (10 <=? mp)) with (yoe + era * 400) by (unfold coord_year; lia).
  rewrite wrap_i128_id by width_lia. rewrite Z.div_add, Z.div_small by lia. rewrite Z.add_0_l.
  replace (yoe + era * 400 - era * 400) with yoe by lia. fold (shifted_of (month_of mp)). rewrite Hs. fold (month_start mp).
  replace (yoe * 365 + yoe / 4 - yoe / 100 + (month_start mp + (dom + 1) - 1))
    with (era_days yoe + (month_start mp + dom)) by (unfold era_days; lia).
  unfold checked_i128. rewrite decide_True by width_lia. cbn. rewrite decide_True by width_lia. cbn.
  rewrite decide_True by (unfold UNIX_EPOCH_DAY_OFFSET; width_lia). done.
Qed.

Lemma day_coords d : Z.abs d <= 100000000000000000000 ->
  exists era yoe mp dom, coords era yoe mp dom /\ d = coord_day era yoe mp dom.
Proof.
  intros Hd. set (s := d + UNIX_EPOCH_DAY_OFFSET).
  pose proof (Z.div_mod s 146097 ltac:(lia)) as Hs. pose proof (Z.mod_pos_bound s 146097 ltac:(lia)) as Hdoe.
  set (doe := s mod 146097) in *. set (era := s / 146097) in *. clearbody era doe.
  pose proof (era_year_bounds doe Hdoe) as [Hy Hlo]. pose proof (era_year_upper doe Hdoe) as Hhi.
  set (yoe := era_year doe) in *. set (doy := doe - era_days yoe).
  assert (Z.b2z (era_leap yoe) <= 1) by (destruct era_leap; cbn; lia).
  pose proof (shifted_month_spec doy ltac:(lia)) as (Hmp & Hmlo & Hmhi). set (mp := shifted_month_of doy) in *.
  exists era, yoe, mp, (doy - month_start mp). split.
  - split_and!; try lia. { unfold UNIX_EPOCH_DAY_OFFSET in *. lia. }
    unfold month_length. destruct (Z.eqb_spec mp 11); lia.
  - unfold coord_day. lia.
Qed.
Lemma date_coords y m d : Z.abs y <= 100000000000000000000 -> valid_date y m d ->
  exists era yoe mp dom, coords era yoe mp dom /\ y = coord_year era yoe mp /\ m = month_of mp /\ d = dom + 1.
Proof.
  intros Hy [Hm Hd]. destruct (month_of_shifted m Hm) as [Hmp Hmm]. set (mp := shifted_of m) in *.
  set (a := y - Z.b2z (10 <=? mp)). exists (a / 400), (a mod 400), mp, (d - 1).
  assert (y = coord_year (a / 400) (a mod 400) mp) as Hyc.
  { unfold coord_year. pose proof (Z.div_mod a 400). lia. }
  assert (0 <= Z.b2z (10 <=? mp) <= 1) by (destruct (10 <=? mp); cbn; lia).
  split; [|split_and!; [done|done|lia]]. split_and!; try lia; try (apply Z.mod_pos_bound; lia).
  - subst a. div_mod_lia.
  - rewrite Hyc, <- Hmm, coords_month in Hd by done. lia.
Qed.

(** ** The Gregorian calendar *)

(** The day after a date, by the rule of the calendar. *)
Definition tomorrow (date : Z * Z * Z) : Z * Z * Z :=
  let '(y, m, d) := date in
  if d <? days_in_month y m then (y, m, d + 1)
  else if m <? 12 then (y, m + 1, 1)
  else (y + 1, 1, 1).

Lemma era_days_succ y : 0 <= y < 400 ->
  (if y =? 399 then 146097 else era_days (y + 1)) = era_days y + 365 + Z.b2z (era_leap y).
Proof.
  intros Hy. pose proof (era_leap_true y Hy) as HL. unfold era_days.
  destruct (era_leap y); cbn.
  - apply proj1 in HL. specialize (HL eq_refl). destruct (Z.eqb_spec y 399); [subst; reflexivity|div_mod_lia].
  - assert (~ (y mod 4 = 3 /\ (y mod 100 <> 99 \/ y = 399))) as HL' by (intros HH; apply HL in HH; done).
    clear HL. destruct (Z.eqb_spec y 399); div_mod_lia.
Qed.
Lemma month_length_bounds yoe mp : 0 <= mp <= 11 -> 28 <= month_length yoe mp <= 31.
Proof.
  intros. unfold month_length. assert (0 <= Z.b2z (era_leap yoe) <= 1) by (destruct era_leap; cbn; lia).
  destruct (Z.eqb_spec mp 11) as [->|]; unfold month_start; div_mod_lia.
Qed.
(** The coordinates of the next day. *)
Lemma coords_succ era yoe mp dom : coords era yoe mp dom -> Z.abs era < 100000000000000000000 ->
  exists era' yoe' mp' dom', coords era' yoe' mp' dom' /\
    coord_day era' yoe' mp' dom' = coord_day era yoe mp dom + 1 /\
    (coord_year era' yoe' mp', month_of mp', dom' + 1) = tomorrow (coord_year era yoe mp, month_of mp, dom + 1).
Proof.
  intros HC He. destruct HC as (_ & Hy & Hmp & Hd). unfold tomorrow. rewrite coords_month by done.
  pose proof (month_of_range mp Hmp) as (Hm & _ & _).
  destruct (Z.ltb_spec (dom + 1) (month_length yoe mp)).
  { exists era, yoe, mp, (dom + 1). split; [split_and!; lia|]. split; [unfold coord_day; lia|done]. }
  destruct (Z.eqb_spec mp 11) as [->|Hn].
  - pose proof (era_days_succ yoe Hy) as Hs. unfold month_length in *. cbn in *. change (month_start 11) with 337 in *.
    destruct (Z.eqb_spec yoe 399) as [->|].
    + exists (era + 1), 0, 0, 0. split; [split_and!; try lia; reflexivity|]. unfold coord_day.
      change (month_start 0) with 0. change (month_start 11) with 337. change (era_days 0) with 0.
      split; [lia|]. unfold coord_year. cbn. date_lia.
    + exists era, (yoe + 1), 0, 0. split; [split_and!; try lia; reflexivity|]. unfold coord_day.
      change (month_start 0) with 0. change (month_start 11) with 337.
      split; [lia|]. unfold coord_year. cbn. date_lia.
  - exists era, yoe, (mp + 1), 0. pose proof (month_length_bounds yoe (mp + 1) ltac:(lia)).
    assert (month_length yoe mp = month_start (mp + 1) - month_start mp) as Hl
      by (unfold month_length; by rewrite (proj2 (Z.eqb_neq mp 11))).
    split; [split_and!; lia|]. split; [unfold coord_day; lia|].
    unfold coord_year. destruct (decide (mp = 9)) as [->|]; [change (9 + 1) with 10; unfold month_of; cbn; date_lia|].
    destruct (decide (mp = 10)) as [->|]; [change (10 + 1) with 11; unfold month_of; cbn; date_lia|].
    unfold month_of. rewrite !(proj2 (Z.ltb_lt _ 10)), (proj2 (Z.ltb_lt (mp + 3) 12)), !(proj2 (Z.leb_gt 10 _)) by lia.
    cbn. date_lia.
Qed.

(** The civil calendar is the Gregorian one and its two conversions are
    inverse: day 0 is 1 January 1970, the next day number is the next date of the
    calendar (month lengths, leap years and centuries included), every date read
    from a day number is a valid date that converts back to that day, every valid
    date converts to a day number that reads back as the same date, and nothing
    else converts. *)
Theorem civil_calendar_exact :
  civil_from_days 0 = (1970, 1, 1) /\
  (forall d, Z.abs d < 1000000000000000000 ->
     civil_from_days (d + 1) = tomorrow (civil_from_days d) /\
     (let '(y, m, n) := civil_from_days d in valid_date y m n /\ days_from_civil y m n = Some d)) /\
  (forall y m n, Z.abs y < 1000000000000000 -> 0 <= n ->
     (valid_date y m n -> exists d, days_from_civil y m n = Some d /\ civil_from_days d = (y, m, n)) /\
     (~ valid_date y m n -> days_from_civil y m n = None)).
Proof.
  split; [reflexivity|]. split.
  - intros d Hd. destruct (day_coords d ltac:(lia)) as (era & yoe & mp & dom & HC & ->).
    rewrite (civil_from_coords _ _ _ _ HC). split.
    + destruct (coords_succ _ _ _ _ HC) as (e' & y' & m' & d' & HC' & <- & <-); [|by apply civil_from_coords].
      destruct HC as (_ & Hy & Hmp & Hdom). pose proof (era_days_succ yoe Hy). clear -Hd Hy Hmp Hdom.
      pose proof (month_length_bounds yoe mp Hmp). unfold coord_day, era_days, month_start, UNIX_EPOCH_DAY_OFFSET in Hd.
      div_mod_lia.
    + rewrite (days_from_coords _ _ _ _ HC). split; [|done]. destruct HC as (_ & _ & Hmp & Hdom).
      split; [apply month_of_range; lia|]. rewrite coords_month by done. lia.
  - intros y m n Hy Hn. split.
    + intros Hv. destruct (date_coords y m n ltac:(lia) Hv) as (era & yoe & mp & dom & HC & -> & -> & ->).
      eexists. split; [by apply days_from_coords|by apply civil_from_coords].
    + intros Hv. unfold days_from_civil.
      destruct (negb _ || _ || _) eqn:E; [done|]. destruct Hv. unfold valid_date. lia.
Qed.

(** ** Expiry *)

(** [t] is [ts] moved by calendar months: same time of day, month index advanced
    by [months], day of the month kept unless the target month is shorter. *)
Definition months_later (ts months t : Z) : Prop :=
  let '(y, m, d) := civil_from_days (ts / SECONDS_PER_DAY) in
  let '(y', m', d') := civil_from_days (t / SECONDS_PER_DAY) in
  t mod SECONDS_PER_DAY = ts mod SECONDS_PER_DAY /\
  y' * 12 + (m' - 1) = y * 12 + (m - 1) + months /\
  valid_date y' m' d' /\ d' = d `min` days_in_month y' m'.

Lemma checked_i128_in z : is_i128 z -> checked_i128 z = Some z.
Proof. intros. by apply checked_i128_Some. Qed.
Lemma dim_pos y m : 1 <= m <= 12 -> 28 <= days_in_month y m <= 31.
Proof.
  intros Hm. assert (m ∈ seqZ 1 12) as Hin by (apply elem_of_seqZ; lia).
  unfold days_in_month. vm_compute in Hin.
  repeat (apply elem_of_cons in Hin as [->|Hin]; [cbn; repeat case_match; lia|]). by apply elem_of_nil in Hin.
Qed.

Lemma civil_from_days_bounds d : Z.abs d <= 1000000000000000 ->
  let '(y, m, n) := civil_from_days d in valid_date y m n /\ Z.abs y <= 10000000000000 /\ days_from_civil y m n = Some d.
Proof.
  intros Hd. destruct (day_coords d ltac:(lia)) as (era & yoe & mp & dom & HC & ->).
  rewrite (civil_from_coords _ _ _ _ HC), (days_from_coords _ _ _ _ HC).
  pose proof (coords_year _ _ _ _ HC). destruct HC as (_ & Hy & Hmp & Hdom).
  assert (Z.b2z (era_leap yoe) <= 1) by (destruct era_leap; cbn; lia).
  split; [|split; [|done]].
  - split; [apply month_of_range; lia|]. rewrite coords_month by done. lia.
  - unfold coord_year. assert (0 <= Z.b2z (10 <=? mp) <= 1) by (destruct (10 <=? mp); cbn; lia).
    unfold coord_day, era_days, UNIX_EPOCH_DAY_OFFSET in Hd. div_mod_lia.
Qed.
Lemma days_from_civil_total y m n : Z.abs y <= 100000000000000 -> valid_date y m n ->
  exists d, days_from_civil y m n = Some d /\ civil_from_days d = (y, m, n) /\ Z.abs d <= 100000000000000000.
Proof.
  intros Hy Hv. destruct (date_coords y m n ltac:(lia) Hv) as (era & yoe & mp & dom & HC & -> & -> & ->).
  eexists. split; [by apply days_from_coords|]. split; [by apply civil_from_coords|].
  pose proof (coords_year _ _ _ _ HC). destruct HC as (_ & Hyoe & Hmp & Hdom).
  assert (Z.b2z (era_leap yoe) <= 1) by (destruct era_leap; cbn; lia).
  assert (0 <= Z.b2z (10 <=? mp) <= 1) by (destruct (10 <=? mp); cbn; lia).
  unfold coord_day, era_days, UNIX_EPOCH_DAY_OFFSET, coord_year in *. div_mod_lia.
Qed.

#[local] Arguments civil_from_days : simpl never.
#[local] Arguments days_from_civil : simpl never.
Lemma add_months_spec ts months : is_i64 ts -> is_u32 months ->
  exists t, months_later ts months t /\ add_utc_calendar_months ts months = checked_i64 t.
Proof.
  intros Ht Hm. unfold add_utc_calendar_months, months_later, SECONDS_PER_DAY in *.
  pose proof (Z.mod_pos_bound ts 86400 ltac:(lia)) as Hsec.
  pose proof (civil_from_days_bounds (ts / 86400)) as Hc.
  destruct (civil_from_days (ts / 86400)) as [[y m] d]. destruct Hc as ([Hm1 Hd1] & Hy & _).
  { unfold is_i64, i64_min, i64_max in Ht. div_mod_lia. }
  rewrite (checked_i128_in (y * 12)) by width_lia. cbn.
  rewrite (checked_i128_in (y * 12 + _)) by width_lia. cbn.
  rewrite (checked_i128_in (y * 12 + _ + _)) by width_lia. cbn.
  set (i := y * 12 + (m - 1) + months). pose proof (Z.mod_pos_bound i 12 ltac:(lia)). pose proof (Z.div_mod i 12 ltac:(lia)).
  rewrite (proj2 (checked_u32_Some (i mod 12 + 1) (i mod 12 + 1))) by (split; [done|width_lia]). cbn.
  pose proof (dim_pos (i / 12) (i mod 12 + 1) ltac:(lia)).
  destruct (days_from_civil_total (i / 12) (i mod 12 + 1) (d `min` days_in_month (i / 12) (i mod 12 + 1)))
    as (td & Htd & Hciv & Hb); [width_lia|split; lia|].
  rewrite Htd. cbn. rewrite (checked_i128_in (td * 86400)) by width_lia. cbn.
  rewrite checked_i128_in by width_lia. cbn.
  exists (td * 86400 + ts mod 86400). split; [|done].
  replace ((td * 86400 + ts mod 86400) / 86400) with td
    by (rewrite Z.div_add_l, (Z.div_small (ts mod 86400)) by lia; lia).
  rewrite Hciv.
  split_and!; try lia; [|split; lia]. rewrite Z.add_comm, Z.mod_add, Z.mod_small by lia. done.
Qed.

(** A Gemini subscription expires exactly as its plan says.  Without an
    acquisition time or a supported paid plan nothing is reported.  AI Pro runs
    18 Gregorian calendar months (same time of day, the day clamped to the end of
    a shorter month), every other plan 30 days; an expiry outside 64-bit seconds
    is absent instead of wrapped, and the time left is the distance to it. *)
Theorem gemini_lifecycle_exact (acquired now : Z) (plan : string) (Ht : is_i64 acquired) :
  let l := gemini acquired plan now in
  (acquired <= 0 \/ is_supported_paid_plan plan = false -> l = EMPTY) /\
  (0 < acquired -> is_supported_paid_plan plan = true ->
     acquired_at l = Some acquired /\
     days_left_secs l = (fun e => e - now) <$> subscription_expires_at l /\
     exists t, subscription_expires_at l = checked_i64 t /\
       (if bool_decide (plan = "google_ai_pro") then months_later acquired 18 t
        else t = acquired + 30 * 86400)).
Proof.
  cbn zeta. unfold gemini. split.
  - intros [H|H]; [|rewrite H, orb_true_r; done]. by rewrite (proj2 (Z.leb_le _ _)).
  - intros Hp Hs. rewrite Hs, (proj2 (Z.leb_gt _ _)) by lia. cbn. unfold fixed_days, from_expiry.
    rewrite (proj2 (Z.leb_gt acquired 0)), (proj2 (Z.ltb_lt 0 acquired)) by lia.
    case_bool_decide; cbn; (split_and!; [done..|]).
    + destruct (add_months_spec acquired 18 Ht) as (t & ? & ?); [width_lia|]. eauto.
    + eauto.
Qed.
Lemma gemini_lifecycle_exact_witness :
  subscription_expires_at (gemini 1725105600 "google_ai_pro" 0) = Some 1772280000 /\
  acquired_at (gemini 1725105600 "google_ai_pro" 0) = Some 1725105600.
Proof.
  split; [vm_compute; reflexivity|].
  apply (gemini_lifecycle_exact 1725105600 0 "google_ai_pro"); [width_lia|lia|reflexivity].
Defined.
