(* ===== verification/TurnQueue.v ===== *)
(** * Delivery queue of priced turns ([crates/forward/src/glm/queue.rs])

    A bounded FIFO between the stream finalizer and the calibration authority.
    The KIMI, Suno and Tripo3D planes carry the same machine for their event
    types, so the model is generic in the event. *)
From S2P Require Import Prelude.

Inductive WriteOutcome : Type := Durable | Transient | Conflict.

Section Queue.
Context {E : Type}.

Record TurnQueue := mkQueue {
  queue : list E;
  capacity : Z;
  dropped : Z;
  healthy : bool
}.
Record DeliveryHealth := mkHealth { pending_events : Z; dropped_events : Z; persistence_ok : bool }.

Definition q_len (q : TurnQueue) : Z := Z.of_nat (length (queue q)).
Definition q_is_empty (q : TurnQueue) : bool := match queue q with [] => true | _ => false end.

Definition TurnQueue_new (cap : Z) : TurnQueue := mkQueue [] (Z.max cap 1) 0 true.

(** [push]: overflow drops the newest event, never the head. *)
Definition q_push (q : TurnQueue) (e : E) : bool * TurnQueue :=
  if capacity q <=? q_len q
  then (false, mkQueue (queue q) (capacity q) (sat_u64 (dropped q + 1)) false)
  else (true, mkQueue (queue q ++ [e]) (capacity q) (dropped q) (healthy q)).

Definition q_head (q : TurnQueue) : option E := head (queue q).

Definition resolve_head (q : TurnQueue) (o : WriteOutcome) : TurnQueue :=
  match o with
  | Durable =>
      let rest := tail (queue q) in
      mkQueue rest (capacity q) (dropped q) (match rest with [] => true | _ => false end)
  | Transient => mkQueue (queue q) (capacity q) (dropped q) false
  | Conflict =>
      let rest := tail (queue q) in
      mkQueue rest (capacity q) (sat_u64 (dropped q + 1)) (match rest with [] => true | _ => false end)
  end.

Definition may_poll_quota (q : TurnQueue) : bool := q_is_empty q.
Definition q_health (q : TurnQueue) : DeliveryHealth :=
  mkHealth (q_len q) (dropped q) (healthy q && q_is_empty q).

(** ** Runs
    The caller pushes turns and reports the outcome of writing the head. *)
Inductive qop : Type := QPush (e : E) | QResolve (o : WriteOutcome).

Definition apply_op (q : TurnQueue) (op : qop) : TurnQueue :=
  match op with QPush e => (q_push q e).2 | QResolve o => resolve_head q o end.
Definition run (cap : Z) (ops : list qop) : TurnQueue := fold_left apply_op ops (TurnQueue_new cap).

(** What a run did, observed from outside the queue. *)
Record history := mkHist {
  accepted : list E;    (* pushes that returned true, in order *)
  settled : list (E * WriteOutcome);  (* heads that left, with their outcome *)
  lost : Z              (* refused pushes and conflict reports *)
}.
Definition observe (s : TurnQueue * history) (op : qop) : TurnQueue * history :=
  let '(q, h) := s in
  match op with
  | QPush e =>
      let '(ok, q') := q_push q e in
      (q', mkHist (if ok then accepted h ++ [e] else accepted h) (settled h) (if ok then lost h else lost h + 1))
  | QResolve o =>
      let lost' := match o with Conflict => lost h + 1 | _ => lost h end in
      let settled' := match o, q_head q with
                      | Transient, _ | _, None => settled h
                      | _, Some e => settled h ++ [(e, o)]
                      end in
      (resolve_head q o, mkHist (accepted h) settled' lost')
  end.
Definition run_observed (cap : Z) (ops : list qop) : TurnQueue * history :=
  fold_left observe ops (TurnQueue_new cap, mkHist [] [] 0).

Lemma run_observed_fst cap ops : (run_observed cap ops).1 = run cap ops.
Proof.
  unfold run_observed, run. generalize (TurnQueue_new cap) (mkHist [] [] 0).
  induction ops as [|op ops IH]; intros q h; cbn; [done|].
  destruct op as [e|o]; cbn; [|apply IH]. destruct (q_push q e). apply IH.
Qed.

Record queue_inv (cap : Z) (s : TurnQueue * history) : Prop := {
  qi_cap : capacity s.1 = Z.max cap 1;
  qi_len : q_len s.1 <= Z.max cap 1;
  qi_fifo : map fst (settled s.2) ++ queue s.1 = accepted s.2;
  qi_dropped : 0 <= lost s.2 /\ dropped s.1 = sat_u64 (lost s.2)
}.

Lemma observe_inv cap s op : queue_inv cap s -> queue_inv cap (observe s op).
Proof.
  destruct s as [q h]. intros [Hc Hl Hf [Hn Hd]]. cbn in *. destruct op as [e|o]; cbn.
  - unfold q_push. destruct (Z.leb_spec (capacity q) (q_len q)); split; cbn; try done; try width_lia.
    + unfold q_len in *. cbn. rewrite length_app. cbn. lia.
    + by rewrite app_assoc, Hf.
  - unfold q_head, q_len in *. destruct (queue q) as [|x rest] eqn:Eq, o; cbn in *; split; cbn; rewrite ?Eq; cbn;
      try done; try width_lia; rewrite ?map_app; cbn; rewrite <- ?app_assoc; try done; unfold q_len; cbn; lia.
Qed.
Lemma run_inv cap ops : queue_inv cap (run_observed cap ops).
Proof.
  unfold run_observed.
  assert (H0 : queue_inv cap (TurnQueue_new cap, mkHist [] [] 0)) by (split; cbn; try done; unfold q_len; cbn; lia).
  revert H0. generalize (TurnQueue_new cap, mkHist [] [] 0).
  induction ops as [|op ops IH]; intros s Hs; cbn; [done|]. by apply IH, observe_inv.
Qed.

(** C39: turns are delivered in order and none disappears silently.  After any run,
    the turns that left the queue followed by those still in it are exactly the
    accepted turns in the order they were pushed; the queue never exceeds its
    capacity; the dropped counter is the number of refused pushes and conflict
    reports (saturating); quota may be polled only when every accepted turn has
    left; and the plane reports healthy only then. *)
Theorem queue_delivers_in_order (cap : Z) (ops : list qop) :
  let q := run cap ops in
  let h := (run_observed cap ops).2 in
  map fst (settled h) ++ queue q = accepted h
  /\ q_len q <= Z.max cap 1
  /\ dropped q = sat_u64 (lost h)
  /\ (may_poll_quota q = true <-> map fst (settled h) = accepted h)
  /\ (persistence_ok (q_health q) = true -> map fst (settled h) = accepted h).
Proof.
  intros q h. unfold q. rewrite <- run_observed_fst. destruct (run_inv cap ops) as [_ Hl Hf [_ Hd]].
  fold h in Hf, Hd. split; [done|]. split; [done|]. split; [done|].
  assert (Hp : may_poll_quota (run_observed cap ops).1 = true <-> map fst (settled h) = accepted h).
  { unfold may_poll_quota, q_is_empty. rewrite <- Hf.
    destruct (queue (run_observed cap ops).1) as [|x l]; [by rewrite app_nil_r|].
    split; [done|]. intros E1. apply (f_equal length) in E1. rewrite length_app in E1. cbn in E1. lia. }
  split; [done|]. unfold q_health. cbn. rewrite andb_true_iff. intros [_ He]. by apply Hp.
Qed.

(** A failed head blocks everything behind it.  As long as the head's write
    keeps failing transiently, whatever is pushed meanwhile, the head stays first,
    quota polling stays blocked and the plane stays unhealthy. *)
Theorem failed_head_blocks (q : TurnQueue) (e : E) (ops : list qop) :
  q_head q = Some e ->
  Forall (fun op => match op with QResolve o => o = Transient | QPush _ => True end) ops ->
  let q' := fold_left apply_op ops (resolve_head q Transient) in
  q_head q' = Some e /\ may_poll_quota q' = false /\ persistence_ok (q_health q') = false.
Proof.
  intros Hh Hops.
  assert (Hgen : forall q, q_head q = Some e -> healthy q = false ->
    let q' := fold_left apply_op ops q in q_head q' = Some e /\ healthy q' = false).
  { induction Hops as [|op ops Hop Hops IH]; intros q0 H0 Hf; cbn; [done|].
    destruct op as [x|o]; cbn in *.
    - apply IH; unfold q_push; case_match; cbn; try done. unfold q_head in *. cbn. by destruct (queue q0).
    - subst o. apply IH; done. }
  destruct (Hgen (resolve_head q Transient) Hh eq_refl) as [H1 H2].
  intros q'. fold q' in H1, H2. split; [done|].
  unfold may_poll_quota, q_health, q_is_empty, q_head in *. cbn [persistence_ok]. rewrite H2.
  by destruct (queue q').
Qed.
End Queue.
