(* ===== verification/Breaker.v ===== *)
(** * The upstream circuit breaker ([crates/forward/src/breaker.rs])

    Correlated provider failures of distinct subscriptions within a short window
    open the breaker for a cool-down.  Times are [i64] seconds; each operation
    holds the mutex, so operations are atomic steps. *)
From S2P Require Import Prelude.

Definition WINDOW : Z := 10.
Definition COOLDOWN : Z := 15.

Record Breaker := mkBreaker {
  fails : list (Z * string);
  open_until : Z;
  fleet_size : Z
}.

Definition distinct_threshold (fleet : Z) : Z := Z.max fleet 1 / 2 + 1.
Definition Breaker_new (fleet : Z) : Breaker := mkBreaker [] 0 fleet.
Definition set_fleet_size (b : Breaker) (fleet : Z) : Breaker :=
  if fleet_size b =? fleet then b else mkBreaker [] (open_until b) fleet.

(** The [HashSet] of the e-mails in the window. *)
Definition distinct_emails (fs : list (Z * string)) : list string := remove_dups (map snd fs).

Definition record_fail (b : Breaker) (now : Z) (email : string) : Breaker :=
  let kept := filter (fun f => wrap_i64 (now - f.1) < WINDOW) (fails b) ++ [(now, email)] in
  if distinct_threshold (fleet_size b) <=? Z.of_nat (length (distinct_emails kept))
  then mkBreaker [] (wrap_i64 (now + COOLDOWN)) (fleet_size b)
  else mkBreaker kept (open_until b) (fleet_size b).
Definition record_ok (b : Breaker) (now : Z) : Breaker :=
  if (open_until b <=? now) && negb (bool_decide (fails b = [])) then mkBreaker [] (open_until b) (fleet_size b) else b.
Definition open_for (b : Breaker) (now : Z) : option Z :=
  if now <? open_until b then Some (Z.max (wrap_i64 (open_until b - now)) 1) else None.

(** ** Runs against a clock that does not go back
    The state carries the clock and, as a ghost, every failure reported so far
    with the fleet size in force. *)
Record fail_event := mkFail { fe_time : Z; fe_email : string; fe_fleet : Z }.
Record bstate := mkBState { bs_breaker : Breaker; bs_clock : Z; bs_events : list fail_event }.

Definition time_ok (t : Z) : Prop := 0 <= t <= i64_max - COOLDOWN.

Inductive brk_step : bstate -> bstate -> Prop :=
| brk_fail b c evs now email :
    c <= now -> time_ok now ->
    brk_step (mkBState b c evs)
      (mkBState (record_fail b now email) now (evs ++ [mkFail now email (fleet_size b)]))
| brk_ok b c evs now :
    c <= now -> time_ok now -> brk_step (mkBState b c evs) (mkBState (record_ok b now) now evs)
| brk_fleet b c evs fleet :
    0 <= fleet -> brk_step (mkBState b c evs) (mkBState (set_fleet_size b fleet) c evs)
| brk_tick b c evs now :
    c <= now -> time_ok now -> brk_step (mkBState b c evs) (mkBState b now evs).
Definition binit (fleet : Z) : bstate := mkBState (Breaker_new fleet) 0 [].

(** A correlated outage: at some reported failure, more than half of the fleet in
    force had distinct subscriptions failing within the window. *)
Definition outage (evs : list fail_event) (t : Z) : Prop :=
  exists n email emails, mkFail t email n ∈ evs /\ NoDup emails
    /\ Z.max n 1 < 2 * Z.of_nat (length emails)
    /\ forall e, e ∈ emails -> exists t' n', mkFail t' e n' ∈ evs /\ t - WINDOW < t' <= t.

Record binv (s : bstate) : Prop := {
  bi_clock : time_ok (bs_clock s);
  bi_fails : forall t e, (t, e) ∈ fails (bs_breaker s) ->
    0 <= t <= bs_clock s /\ exists n, mkFail t e n ∈ bs_events s;
  bi_open : open_until (bs_breaker s) = 0
    \/ exists t, open_until (bs_breaker s) = t + COOLDOWN /\ 0 <= t <= bs_clock s /\ outage (bs_events s) t
}.

Lemma outage_mono evs ev t : outage evs t -> outage (evs ++ [ev]) t.
Proof.
  intros (n & em & l & H1 & H2 & H3 & H4). exists n, em, l. split; [set_solver|]. split; [done|]. split; [done|].
  intros e He. destruct (H4 e He) as (t' & n' & ? & ?). exists t', n'. set_solver.
Qed.
Lemma threshold_majority n k : distinct_threshold n <= k -> Z.max n 1 < 2 * k.
Proof.
  unfold distinct_threshold. intros H. pose proof (Z.div_mod (Z.max n 1) 2 ltac:(lia)).
  pose proof (Z.mod_pos_bound (Z.max n 1) 2 ltac:(lia)). lia.
Qed.

Lemma fail_inv b c evs now email :
  c <= now -> time_ok now -> binv (mkBState b c evs) ->
  binv (mkBState (record_fail b now email) now (evs ++ [mkFail now email (fleet_size b)])).
Proof.
  intros Hc Ht [_ Hf Ho]. cbn in *. unfold record_fail.
  set (kept := filter _ _ ++ _).
  assert (Hk : forall t e, (t, e) ∈ kept -> 0 <= t <= now /\ now - WINDOW < t
     /\ exists n, mkFail t e n ∈ evs ++ [mkFail now email (fleet_size b)]).
  { intros t e [[Hw Hin]%list_elem_of_filter|[[= -> ->]|[]%elem_of_nil]%elem_of_cons]%elem_of_app; cbn in *.
    - destruct (Hf t e Hin) as [Hb (n & Hn)]. unfold time_ok, COOLDOWN, WINDOW in *.
      rewrite wrap_i64_id in Hw by width_lia. split; [lia|]. split; [lia|]. exists n. set_solver.
    - unfold WINDOW, time_ok in *. split; [lia|]. split; [lia|]. exists (fleet_size b). set_solver. }
  destruct (Z.leb_spec (distinct_threshold (fleet_size b)) (Z.of_nat (length (distinct_emails kept)))) as [Hle|Hle];
    split; cbn; try done.
  - intros t e []%elem_of_nil.
  - right. exists now. unfold time_ok, COOLDOWN in *. unwrap. split; [done|]. split; [lia|].
    exists (fleet_size b), email, (distinct_emails kept). split; [set_solver|]. split; [apply NoDup_remove_dups|].
    split; [by apply threshold_majority|]. intros e He. unfold distinct_emails in He. rewrite elem_of_remove_dups in He.
    apply list_elem_of_fmap in He as ([t e'] & -> & Hin). destruct (Hk t e' Hin) as (? & ? & n & Hn).
    exists t, n. split; [done|]. cbn. lia.
  - intros t e Hin. destruct (Hk t e Hin) as (? & _ & ?). done.
  - destruct Ho as [?|(t & ? & ? & ?)]; [auto|]. right. exists t. split; [done|]. split; [lia|]. by apply outage_mono.
Qed.

Lemma step_binv s s' : brk_step s s' -> binv s -> binv s'.
Proof.
  destruct 1 as [b c evs now email Hc Ht|b c evs now Hc Ht|b c evs fleet|b c evs now Hc Ht]; intros HI.
  - by apply (fail_inv _ c).
  - destruct HI as [_ Hf Ho]. cbn in *. unfold record_ok.
    assert (Ho' : open_until b = 0 \/ exists t, open_until b = t + COOLDOWN /\ 0 <= t <= now /\ outage evs t).
    { destruct Ho as [?|(t & ? & ? & ?)]; [auto|]. right. exists t. repeat split; try done; lia. }
    destruct (_ && _); split; cbn; try done; [set_solver|].
    intros t e Hin. destruct (Hf t e Hin). split; [lia|done].
  - destruct HI as [? Hf Ho]. cbn in *. unfold set_fleet_size. case_match; split; cbn; try done. set_solver.
  - destruct HI as [_ Hf Ho]. split; cbn in *; [done| |].
    + intros t e Hin. destruct (Hf t e Hin). split; [lia|done].
    + destruct Ho as [?|(t & ? & ? & ?)]; [auto|]. right. exists t. repeat split; try done; lia.
Qed.

(** The breaker refuses requests only for a correlated outage.  In every
    reachable state, if the breaker is open at the current time then within the
    last cool-down a strict majority of the fleet in force had distinct
    subscriptions failing inside one window, and the announced wait is between
    one second and the cool-down. *)
Theorem breaker_opens_only_on_outage (fleet : Z) (s : bstate) (wait : Z) :
  rtc brk_step (binit fleet) s ->
  open_for (bs_breaker s) (bs_clock s) = Some wait ->
  1 <= wait <= COOLDOWN
  /\ exists t, bs_clock s - COOLDOWN < t <= bs_clock s /\ outage (bs_events s) t.
Proof.
  intros Hr Ho. assert (HI : binv s).
  { eapply rtc_invariant; [|intros a b; apply step_binv|exact Hr].
    split; cbn; [unfold time_ok, COOLDOWN; width_lia|set_solver|by left]. }
  destruct HI as [Hc _ Hop]. unfold open_for in Ho. unfold time_ok, COOLDOWN in *.
  destruct (Z.ltb_spec (bs_clock s) (open_until (bs_breaker s))); [|done]. injection Ho as <-.
  destruct Hop as [E|(t & E & Ht & Hout)]; [lia|]. rewrite E in *.
  unwrap. split; [lia|]. exists t. split; [lia|done].
Qed.

(** A correlated outage opens the breaker at once, and it closes by itself.
    When a failure completes a strict majority of distinct subscriptions inside
    the window, every request until the cool-down elapses is refused with a
    positive wait, and none after it. *)
Theorem breaker_trips_and_recovers (b : Breaker) (now t : Z) (email : string) :
  time_ok now -> is_i64 t -> now <= t ->
  (forall f, f ∈ fails b -> 0 <= f.1 <= now) ->
  Z.max (fleet_size b) 1
    < 2 * Z.of_nat (length (distinct_emails (filter (fun f => now - f.1 < WINDOW) (fails b) ++ [(now, email)]))) ->
  open_for (record_fail b now email) t
  = if t <? now + COOLDOWN then Some (now + COOLDOWN - t) else None.
Proof.
  intros Hn Ht Hle Hf Hmaj. unfold record_fail.
  assert (Ek : filter (fun f => wrap_i64 (now - f.1) < WINDOW) (fails b) = filter (fun f => now - f.1 < WINDOW) (fails b)).
  { revert Hf. clear Hmaj. induction (fails b) as [|f fs IH]; intros Hf; [done|].
    rewrite !filter_cons, IH by set_solver. specialize (Hf f ltac:(set_solver)). unfold time_ok, COOLDOWN in Hn.
    unwrap. done. }
  rewrite Ek. unfold distinct_threshold.
  pose proof (Z.div_mod (Z.max (fleet_size b) 1) 2 ltac:(lia)). pose proof (Z.mod_pos_bound (Z.max (fleet_size b) 1) 2 ltac:(lia)).
  destruct (Z.leb_spec (Z.max (fleet_size b) 1 / 2 + 1)
    (Z.of_nat (length (distinct_emails (filter (fun f => now - f.1 < WINDOW) (fails b) ++ [(now, email)]))))); [|lia].
  unfold open_for. cbn. unfold time_ok, COOLDOWN in *. rewrite (wrap_i64_id (now + 15)) by width_lia.
  destruct (Z.ltb_spec t (now + 15)); [|done]. unwrap. f_equal. lia.
Qed.

Lemma breaker_opens_only_on_outage_witness :
  1 <= 15 <= COOLDOWN /\ exists t, 100 - COOLDOWN < t <= 100 /\ outage [mkFail 100 "a" 1] t.
Proof.
  refine (breaker_opens_only_on_outage 1 (mkBState (record_fail (Breaker_new 1) 100 "a") 100 [mkFail 100 "a" 1]) 15 _ _);
    [|vm_compute; reflexivity].
  eapply rtc_once. refine (brk_fail (Breaker_new 1) 0 [] 100 "a" _ _); vm_compute; [discriminate|split; discriminate].
Defined.
Lemma breaker_trips_and_recovers_witness :
  open_for (record_fail (mkBreaker [(98, "a")] 0 3) 100 "b") 110 = Some 5.
Proof.
  refine (eq_trans (breaker_trips_and_recovers (mkBreaker [(98, "a")] 0 3) 100 110 "b" _ _ _ _ _) _);
    try (vm_compute; split; discriminate); try (vm_compute; reflexivity); [vm_compute; discriminate|].
  intros f ->%list_elem_of_singleton. vm_compute. split; discriminate.
Defined.
