(* ===== verification/Waits.v ===== *)
(** * Quiet waits and orderings shared by the planes

    [smooth_step] of [crates/forward/src/proxy.rs], the wait before another round
    of a rotation, in milliseconds, and [sort_by] of a slice (a stable sort) by an
    integer key vector. *)
From S2P Require Import Prelude.

Definition clamp (lo hi z : Z) : Z := Z.max lo (Z.min hi z).
Definition smooth_step (hint_secs remaining_ms : Z) : option Z :=
  if remaining_ms =? 0 then None
  else Some (clamp 250 2000 (Z.max 0 hint_secs * 1000) `min` remaining_ms).

(** Lexicographic order of key vectors. *)
Fixpoint lex_le (a b : list Z) : bool :=
  match a, b with
  | [], _ => true
  | _ :: _, [] => false
  | x :: a, y :: b => (x <? y) || ((x =? y) && lex_le a b)
  end.
Lemma lex_le_refl a : lex_le a a = true.
Proof. induction a as [|x a IH]; cbn; [done|]. by rewrite Z.eqb_refl, IH, orb_true_r. Qed.
Lemma lex_le_trans a b c : lex_le a b = true -> lex_le b c = true -> lex_le a c = true.
Proof.
  revert b c. induction a as [|x a IH]; intros [|y b] [|z c]; cbn; try done.
  rewrite !orb_true_iff, !andb_true_iff, !Z.ltb_lt, !Z.eqb_eq.
  intros [?|[-> H1]] [?|[<- H2]]; [left; lia..|]. right. split; [done|]. by eapply IH.
Qed.
Lemma lex_le_total a b : lex_le a b = false -> lex_le b a = true.
Proof.
  revert b. induction a as [|x a IH]; intros [|y b]; cbn; try done.
  rewrite orb_false_iff, andb_false_iff, orb_true_iff, andb_true_iff, Z.ltb_ge, Z.eqb_neq, Z.ltb_lt, Z.eqb_eq.
  intros [H1 [H2|H2]]; [left; lia|]. destruct (Z.eq_dec y x); [right; auto|left; lia].
Qed.

Section Sort.
  Context {A : Type} (key : A -> list Z).
Fixpoint insert_sorted (x : A) (l : list A) : list A :=
  match l with
  | [] => [x]
  | y :: l => if lex_le (key y) (key x) then y :: insert_sorted x l else x :: y :: l
  end.
Definition sort_by (l : list A) : list A := foldl (fun acc x => insert_sorted x acc) [] l.

Inductive ordered_by : list A -> Prop :=
| ordered_nil : ordered_by []
| ordered_cons x l : Forall (fun y => lex_le (key x) (key y) = true) l -> ordered_by l -> ordered_by (x :: l).

Lemma insert_sorted_perm x l : insert_sorted x l ≡ₚ x :: l.
Proof.
  induction l as [|y l IH]; cbn; [done|]. destruct (lex_le _ _); [|done]. rewrite IH. by constructor.
Qed.
Lemma insert_sorted_ordered x l : ordered_by l -> ordered_by (insert_sorted x l).
Proof.
  induction 1 as [|y l Hy Hl IH]; cbn; [repeat constructor|]. destruct (lex_le (key y) (key x)) eqn:E.
  - constructor; [|done]. rewrite insert_sorted_perm. by constructor.
  - apply lex_le_total in E. constructor; [|by constructor]. constructor; [done|].
    eapply Forall_impl; [exact Hy|]. intros z Hz. by eapply lex_le_trans.
Qed.
Lemma sort_by_spec l : sort_by l ≡ₚ l /\ ordered_by (sort_by l).
Proof.
  unfold sort_by. assert (H : forall acc, ordered_by acc ->
    foldl (fun acc x => insert_sorted x acc) acc l ≡ₚ acc ++ l /\ ordered_by (foldl (fun acc x => insert_sorted x acc) acc l)).
  { induction l as [|x l IH]; intros acc Ha; cbn; [by rewrite app_nil_r|].
    destruct (IH _ (insert_sorted_ordered x acc Ha)) as [H1 H2]. split; [|done].
    rewrite H1, insert_sorted_perm. cbn. by rewrite Permutation_middle. }
  apply (H []). constructor.
Qed.
Lemma ordered_head x l y : ordered_by (x :: l) -> y ∈ x :: l -> lex_le (key x) (key y) = true.
Proof.
  inversion 1 as [|? ? Hx _]; subst. intros [->|Hy]%elem_of_cons; [apply lex_le_refl|].
  rewrite Forall_forall in Hx. by apply Hx.
Qed.
Lemma ordered_find (p : A -> bool) l x y : ordered_by l -> List.find p l = Some x -> y ∈ l -> p y = true ->
  lex_le (key x) (key y) = true.
Proof.
  induction 1 as [|z l Hz Hl IH]; cbn; [done|]. destruct (p z) eqn:E.
  - intros [= <-] Hy _. eapply ordered_head; [by constructor|done].
  - intros Hf [->|Hy]%elem_of_cons Hp; [congruence|]. by apply IH.
Qed.
(** Stability: elements of equal keys keep their order. *)
Definition with_key_of (k : list Z) (l : list A) : list A := List.filter (fun x => bool_decide (key x = k)) l.
Lemma with_key_cons k x l : with_key_of k (x :: l) = (if bool_decide (key x = k) then [x] else []) ++ with_key_of k l.
Proof. unfold with_key_of. cbn. by case_bool_decide. Qed.
Lemma insert_sorted_with_key k x l : ordered_by l ->
  with_key_of k (insert_sorted x l) = with_key_of k l ++ (if bool_decide (key x = k) then [x] else []).
Proof.
  induction 1 as [|y l Hy Hl IH]; cbn [insert_sorted]; [by rewrite with_key_cons, app_nil_r|].
  destruct (lex_le (key y) (key x)) eqn:E; rewrite !with_key_cons.
  - by rewrite IH, (assoc_L (++)).
  - case_bool_decide as Ex; [|by rewrite app_nil_r].
    assert (Hne : forall z, lex_le (key y) (key z) = true -> key z <> k) by congruence.
    rewrite (bool_decide_false (key y = k)) by (apply Hne, lex_le_refl).
    assert (Hnil : with_key_of k l = []); [|by rewrite Hnil].
    clear IH Hl. induction Hy as [|z l Hz Hy IH]; [done|]. by rewrite with_key_cons, bool_decide_false by auto.
Qed.
Lemma sort_by_stable k l : with_key_of k (sort_by l) = with_key_of k l.
Proof.
  unfold sort_by. assert (H : forall acc, ordered_by acc ->
    with_key_of k (foldl (fun acc x => insert_sorted x acc) acc l) = with_key_of k acc ++ with_key_of k l).
  { induction l as [|x l IH]; intros acc Ha; cbn [foldl]; [by rewrite app_nil_r|].
    rewrite IH by (by apply insert_sorted_ordered). rewrite insert_sorted_with_key, <- (assoc_L (++)) by done.
    by rewrite (with_key_cons k x l). }
  apply (H []). constructor.
Qed.
End Sort.
