(* ===== verification/PoolHealth.v ===== *)
(** * Authentication health of the subscription pool

    The durable verdict about a subscription's token, its slots and its cooling
    ([crates/pool/src/lib.rs]): clean probes, live successes, operator actions,
    roster reloads and the durable row.  The capacity estimate of the same records
    is floating point and is left out; so is its hook for persistence.  Every
    operation holds the pool's write lock, so it is one step.  The clock and the
    token fingerprint are arguments. *)
From stdpp Require Import sorting.
From S2P Require Import Prelude.
#[local] Open Scope Z_scope.

Inductive AuthState : Type := Healthy | Suspect | Dead.
#[global] Instance AuthState_eq_dec : EqDecision AuthState.
Proof. solve_decision. Defined.
Definition as_str (s : AuthState) : string := match s with Healthy => "healthy" | Suspect => "suspect" | Dead => "dead" end.
Definition from_persisted (s : string) : AuthState :=
  if bool_decide (s = "dead") then Dead else if bool_decide (s = "suspect") then Suspect else Healthy.
Definition DEAD_STREAK : Z := 2.
Definition DEAD_MIN_SECS : Z := 300.

Record Sub := mkSub { s_email : string; s_token : string; s_proxy : string; s_fleet : string; s_plan : string }.
#[global] Instance Sub_eq_dec : EqDecision Sub.
Proof. solve_decision. Defined.
(** The authentication part of [Live]. *)
Record Auth := mkAuth {
  auth_state : AuthState; auth_fail_streak : Z; first_auth_fail_ts : Z; last_auth_fail_ts : Z; last_auth_http : Z;
  dead_since_ts : Z; dead_reason : string; auth_token_fp : string }.
#[global] Instance Auth_eq_dec : EqDecision Auth.
Proof. solve_decision. Defined.
Record QuotaSnapshot := mkQuota {
  used_fraction_units : Z; measurement_resolution_fraction_units : Z; observed_at : Z; resets_at : option Z }.
Record Live := mkLive {
  cooling_until : Z; last_used : Z; polled_ts : Z; last_probe_req : Z; inflight : Z; auth : Auth;
  quota5h : option QuotaSnapshot; quota7d : option QuotaSnapshot }.
Definition Auth_default : Auth := mkAuth Healthy 0 0 0 0 0 "" "".
Definition Live_default : Live := mkLive 0 0 0 0 0 Auth_default None None.
Record SubHealth := mkHealth {
  h_email : string; h_state : string; h_streak : Z; h_first : Z; h_last : Z; h_http : Z; h_dead_since : Z; h_reason : string; h_fp : string }.
#[global] Instance SubHealth_eq_dec : EqDecision SubHealth.
Proof. solve_decision. Defined.
Record Pool := mkPool { subs : list Sub; live : gmap string Live }.

Definition with_auth (f : Auth -> Auth) (l : Live) : Live :=
  mkLive (cooling_until l) (last_used l) (polled_ts l) (last_probe_req l) (inflight l) (f (auth l)) (quota5h l) (quota7d l).
Definition reset_auth_healthy (a : Auth) : Auth := mkAuth Healthy 0 0 0 0 0 "" (auth_token_fp a).
Definition set_fp (fp : string) (a : Auth) : Auth :=
  mkAuth (auth_state a) (auth_fail_streak a) (first_auth_fail_ts a) (last_auth_fail_ts a) (last_auth_http a) (dead_since_ts a) (dead_reason a) fp.
Definition reason_of (http : Z) : string := if http =? 403 then "permission_error" else "authentication_error".
(** A rejection by a clean probe. *)
Definition auth_failed (http now : Z) (a : Auth) : Auth :=
  let streak := wrap_i64 (auth_fail_streak a + 1) in
  let first := if first_auth_fail_ts a =? 0 then now else first_auth_fail_ts a in
  let corroborated := (DEAD_STREAK <=? streak) && (DEAD_MIN_SECS <=? wrap_i64 (now - first)) in
  let state := match auth_state a with Healthy => Suspect | s => s end in
  mkAuth (if corroborated then Dead else state) streak first now http
    (if corroborated && (dead_since_ts a =? 0) then now else dead_since_ts a)
    (if corroborated then reason_of http else dead_reason a) (auth_token_fp a).
Definition is_rejection (http : Z) : bool := one_of [401; 403] http.
Definition is_success (http : Z) : bool := between 200 299 http.
Definition new_token (fp : string) (a : Auth) : bool := negb (bool_decide (fp = "")) && negb (bool_decide (auth_token_fp a = fp)).
Definition apply_probe (http : Z) (fp : string) (now : Z) (l : Live) : Live :=
  let renew a := if new_token fp a then reset_auth_healthy (set_fp fp a) else a in
  let verdict a := if is_rejection http then auth_failed http now a
                   else if is_success http then reset_auth_healthy a else a in
  with_auth (fun a => verdict (renew a))
    (mkLive (cooling_until l) (last_used l) now (last_probe_req l) (inflight l) (auth l) (quota5h l) (quota7d l)).
Definition health_row (email : string) (l : Live) : SubHealth := 
  let a := auth l in
  mkHealth email (as_str (auth_state a)) (auth_fail_streak a) (first_auth_fail_ts a) (last_auth_fail_ts a) (last_auth_http a)
    (dead_since_ts a) (dead_reason a) (auth_token_fp a).

(** [live.entry(email).or_default()], updated by [f]. *)
Definition entry (p : Pool) (email : string) : Live := default Live_default (live p !! email).
Definition update (p : Pool) (email : string) (f : Live -> Live) : Pool := mkPool (subs p) (<[email := f (entry p email)]> (live p)).
Definition known (p : Pool) (email : string) : bool := existsb (fun s => bool_decide (s_email s = email)) (subs p).

Definition mark_used (now : Z) (email : string) (p : Pool) : Pool :=
  update p email (fun l => mkLive (cooling_until l) now (polled_ts l) (last_probe_req l) (sat_i64 (inflight l + 1)) (auth l) (quota5h l) (quota7d l)).
Definition mark_healthy (now : Z) (email : string) (p : Pool) : Pool :=
  update p email (fun l => mkLive (if cooling_until l <=? now then 0 else cooling_until l) now (polled_ts l) (last_probe_req l) (inflight l)
                             (reset_auth_healthy (auth l)) (quota5h l) (quota7d l)).
Definition record_probe (now : Z) (email : string) (http : Z) (fp : string) (p : Pool) : option SubHealth * Pool :=
  let before := health_row email (entry p email) in
  let p' := update p email (apply_probe http fp now) in
  let after := health_row email (entry p' email) in
  (if bool_decide (before = after) then None else Some after, p').
Definition revive (email : string) (p : Pool) : option SubHealth * Pool :=
  if negb (known p email) then (None, p)
  else let p' := update p email (with_auth reset_auth_healthy) in (Some (health_row email (entry p' email)), p').
Definition killed (now : Z) (reason : string) (a : Auth) : Auth :=
  mkAuth Dead (auth_fail_streak a) (first_auth_fail_ts a) (last_auth_fail_ts a) (last_auth_http a)
    (if dead_since_ts a =? 0 then now else dead_since_ts a) (if bool_decide (reason = "") then "operator" else reason) (auth_token_fp a).
Definition kill (now : Z) (email reason : string) (p : Pool) : option SubHealth * Pool :=
  if negb (known p email) then (None, p)
  else let p' := update p email (with_auth (killed now reason)) in (Some (health_row email (entry p' email)), p').
Definition is_auth_dead (p : Pool) (email : string) : bool :=
  match live p !! email with Some l => bool_decide (auth_state (auth l) = Dead) | None => false end.
Definition is_cooling (p : Pool) (email : string) (now : Z) : bool :=
  match live p !! email with Some l => now <? cooling_until l | None => false end.
Definition request_probe (now : Z) (email : string) (p : Pool) : Pool :=
  match live p !! email with
  | Some l => if wrap_i64 (now - 15) <=? last_probe_req l then p
              else mkPool (subs p) (<[email := mkLive (cooling_until l) (last_used l) 0 now (inflight l) (auth l) (quota5h l) (quota7d l)]> (live p))
  | None => p
  end.
Definition end_stream (now : Z) (email : string) (p : Pool) : Pool :=
  update p email (fun l => mkLive (cooling_until l) now (polled_ts l) (last_probe_req l) (Z.max (wrap_i64 (inflight l - 1)) 0) (auth l) (quota5h l) (quota7d l)).
Definition cool (now : Z) (email : string) (secs : Z) (p : Pool) : Pool :=
  update p email (fun l => mkLive (Z.max (cooling_until l) (sat_i64 (now + Z.max secs 1))) (last_used l) (polled_ts l) (last_probe_req l)
                             (inflight l) (auth l) (quota5h l) (quota7d l)).
Definition mark_cooling (now : Z) (email : string) (secs : Z) (p : Pool) : Pool := cool now email secs p.
Definition mark_done (email : string) (p : Pool) : Pool :=
  update p email (fun l => mkLive (cooling_until l) (last_used l) (polled_ts l) (last_probe_req l) (Z.max (wrap_i64 (inflight l - 1)) 0) (auth l) (quota5h l) (quota7d l)).
Definition soonest_ready (now : Z) (p : Pool) : option Z :=
  let waits := List.filter (fun d => 0 <? d)
    (map (fun l => wrap_i64 (cooling_until l - now)) (omap (fun s => live p !! s_email s) (subs p))) in
  match waits with [] => None | d :: ds => Some (foldl Z.min d ds) end.

Section Fingerprint.
  Context (token_fp : string -> string).
(** The roster is replaced; a subscription that left keeps its record only while it cools. *)
Definition renew_token (m : gmap string Live) (s : Sub) : gmap string Live :=
  let fp := token_fp (s_token s) in
  match m !! s_email s with
  | Some l => if negb (bool_decide (auth_token_fp (auth l) = "")) && negb (bool_decide (auth_token_fp (auth l) = fp))
              then <[s_email s := mkLive (cooling_until l) (last_used l) (polled_ts l) (last_probe_req l) (inflight l)
                                    (set_fp fp (reset_auth_healthy (auth l))) None None]> m
              else m
  | None => m
  end.
Definition replace_subs (now : Z) (new : list Sub) (p : Pool) : bool * Pool :=
  let kept := filter (fun kv => kv.1 ∈ map s_email new \/ now < cooling_until kv.2) (live p) in
  (negb (bool_decide (subs p = new)), mkPool new (foldl renew_token kept new)).
Definition import_row (p : Pool) (r : SubHealth) : Pool :=
  match List.find (fun s => bool_decide (s_email s = h_email r)) (rev (subs p)) with
  | None => p
  | Some s =>
      let current := token_fp (s_token s) in
      let fp := h_fp r in
      if negb (bool_decide (fp = "")) && negb (bool_decide (fp = current))
      then update p (h_email r) (with_auth (fun a => set_fp current (reset_auth_healthy a)))
      else update p (h_email r) (with_auth (fun _ =>
             mkAuth (from_persisted (h_state r)) (Z.max (h_streak r) 0) (h_first r) (h_last r) (h_http r) (h_dead_since r) (h_reason r) fp))
  end.
Definition import_health (rows : list SubHealth) (p : Pool) : Pool := foldl import_row p rows.
End Fingerprint.

(** ** The evidence behind a verdict *)
Abbreviation failure := (Z * Z)%type.   (* status and time of a rejected probe *)
Definition first_at (ev : list failure) : Z := default 0 (snd <$> head ev).
Definition last_at (ev : list failure) : Z := default 0 (snd <$> last ev).
Definition corroborated (ev : list failure) : bool := (2 <=? Z.of_nat (length ev)) && (300 <=? last_at ev - first_at ev).
(** The verdict rejections [ev] of the token with fingerprint [fp] justify. *)
Definition auth_of (fp : string) (ev : list failure) : Auth :=
  mkAuth (match ev with [] => Healthy | _ => if corroborated ev then Dead else Suspect end)
    (Z.of_nat (length ev)) (first_at ev) (last_at ev) (default 0 (fst <$> last ev))
    (default 0 (snd <$> List.find (fun x => 300 <=? x.2 - first_at ev) ev))
    (if corroborated ev then reason_of (default 0 (fst <$> last ev)) else "") fp.
(** Rejections come in the order of their times, within the clock's range. *)
Definition ordered (ev : list failure) : Prop :=
  StronglySorted Z.le (snd <$> ev) /\ Forall (fun x => 0 < x.2 <= i64_max) ev.

Lemma first_snoc ev x : first_at (ev ++ [x]) = if decide (ev = []) then x.2 else first_at ev.
Proof. destruct ev; [by rewrite decide_True|by rewrite decide_False]. Qed.
Lemma last_snoc' ev x : last_at (ev ++ [x]) = x.2.
Proof. unfold last_at. by rewrite last_snoc. Qed.
Lemma ordered_snoc ev x : ordered (ev ++ [x]) -> ordered ev /\ 0 < x.2 <= i64_max /\ Forall (fun y => y.2 <= x.2) ev.
Proof.
  unfold ordered. rewrite fmap_app, Forall_app, Forall_singleton. intros [Hs [Hf Hx]].
  split_and!; [|done|lia|lia|].
  - by apply StronglySorted_app_1_l in Hs.
  - apply Forall_forall. intros y Hy. eapply StronglySorted_app_1_elem_of; [exact Hs|by apply list_elem_of_fmap_2|by left].
Qed.
Lemma first_bounds ev x : ordered (ev ++ [x]) -> ev <> [] -> 0 < first_at ev <= x.2 /\ last_at ev <= x.2.
Proof.
  intros (Hev & Hx & Hle)%ordered_snoc Hn. destruct ev as [|y ev]; [done|]. rewrite Forall_forall in Hle. destruct Hev as [_ Hp].
  rewrite Forall_forall in Hp. split; [pose proof (Hp y ltac:(by left)); pose proof (Hle y ltac:(by left)); cbn; lia|].
  unfold last_at. destruct (last (y :: ev)) as [z|] eqn:E; cbn; [|by apply last_None in E].
  apply last_Some_elem_of in E. by apply Hle.
Qed.
Lemma probes_corroborated_mono ev x : ordered (ev ++ [x]) -> corroborated (ev ++ [x]) = false -> corroborated ev = false.
Proof.
  intros Ho. destruct (decide (ev = [])) as [->|Hn]; [done|]. pose proof (first_bounds ev x Ho Hn).
  unfold corroborated. rewrite last_snoc', first_snoc, decide_False, length_app by done. cbn [length]. rewrite !andb_false_iff, !Z.leb_gt. lia.
Qed.
Lemma find_snoc {A} (p : A -> bool) l x :
  List.find p (l ++ [x]) = match List.find p l with Some y => Some y | None => if p x then Some x else None end.
Proof. induction l as [|y l IH]; cbn; [done|]. by destruct (p y). Qed.
Lemma dead_since_snoc ev http now : ordered (ev ++ [(http, now)]) ->
  let old := default 0 (snd <$> List.find (fun x => 300 <=? x.2 - first_at ev) ev) in
  (if corroborated (ev ++ [(http, now)]) && (old =? 0) then now else old)
  = default 0 (snd <$> List.find (fun x => 300 <=? x.2 - first_at (ev ++ [(http, now)])) (ev ++ [(http, now)])).
Proof.
  intros Ho. cbv zeta. destruct (decide (ev = [])) as [->|Hn]; [cbn; by rewrite Z.sub_diag|].
  rewrite first_snoc, decide_False, find_snoc by done. destruct (List.find _ ev) as [y|] eqn:E; cbn.
  - apply List.find_some in E as [Hy%list_elem_of_In _]. destruct (ordered_snoc _ _ Ho) as ([_ Hp] & _). rewrite Forall_forall in Hp.
    pose proof (Hp y Hy). rewrite (proj2 (Z.eqb_neq _ _)) by (cbn; lia). by rewrite andb_false_r.
  - rewrite andb_true_r. unfold corroborated. rewrite last_snoc', first_snoc, decide_False, length_app by done.
    destruct ev; [done|]. cbn [length]. rewrite (proj2 (Z.leb_le 2 _)) by lia. cbn. by destruct (300 <=? _).
Qed.
(** One more rejection. *)
Lemma auth_failed_snoc fp ev http now : ordered (ev ++ [(http, now)]) -> Z.of_nat (length ev) < i64_max ->
  auth_failed http now (auth_of fp ev) = auth_of fp (ev ++ [(http, now)]).
Proof.
  intros Ho Hl. pose proof (ordered_snoc ev (http, now) Ho) as (Hev & Hx & Hle). cbn in Hx.
  unfold auth_failed, auth_of. cbv zeta. cbn [auth_fail_streak first_auth_fail_ts auth_state dead_since_ts dead_reason auth_token_fp].
  rewrite (wrap_i64_id (Z.of_nat (length ev) + 1)) by width_lia.
  assert (Hfirst : (if first_at ev =? 0 then now else first_at ev) = first_at (ev ++ [(http, now)])).
  { rewrite first_snoc. destruct (decide (ev = [])) as [->|Hn]; [done|]. pose proof (first_bounds ev _ Ho Hn).
    rewrite (proj2 (Z.eqb_neq _ _)) by lia. done. }
  rewrite Hfirst. rewrite wrap_i64_id.
  2:{ rewrite first_snoc. destruct (decide (ev = [])) as [->|Hn]; [cbn; width_lia|]. pose proof (first_bounds ev _ Ho Hn). cbn in *. width_lia. }
  assert (Hcor : (DEAD_STREAK <=? Z.of_nat (length ev) + 1) && (DEAD_MIN_SECS <=? now - first_at (ev ++ [(http, now)]))
    = corroborated (ev ++ [(http, now)])).
  { unfold corroborated. rewrite last_snoc', length_app. cbn [length snd]. unfold DEAD_STREAK, DEAD_MIN_SECS. f_equal. f_equal. lia. }
  rewrite Hcor, last_snoc', last_snoc, length_app. cbn [default fmap option_fmap option_map fst snd length].
  rewrite (dead_since_snoc ev http now Ho). destruct (corroborated (ev ++ [(http, now)])) eqn:Ec.
  - destruct ev; cbn; f_equal; lia.
  - rewrite (probes_corroborated_mono ev _ Ho Ec). destruct ev; cbn; f_equal; lia.
Qed.

(** ** Histories *)
Inductive op : Type :=
| Probe (email : string) (http : Z) (fp : string) (now : Z) | Used (email : string) (now : Z) | Served (email : string) (now : Z)
| Revived (email : string) | Killed (email reason : string) (now : Z) | Replaced (new : list Sub) (now : Z) | Imported (rows : list SubHealth)
| ProbeRequested (email : string) (now : Z) | StreamEnded (email : string) (now : Z)
| Cooled (email : string) (secs now : Z) | Done (email : string).
(** What stands against a subscription: the fingerprint of its token, the durable
    row its verdict was imported from, whether an operator killed it, and the
    rejections by clean probes since then. *)
Record account := mkAccount { a_fp : string; a_start : option SubHealth; a_killed : bool; a_ev : list failure }.
Definition blank (fp : string) : account := mkAccount fp None false [].
Definition rejected (acc : account) (http now : Z) : account := mkAccount (a_fp acc) (a_start acc) (a_killed acc) (a_ev acc ++ [(http, now)]).
Definition start_state (acc : account) : AuthState := from_option (fun r => from_persisted (h_state r)) Healthy (a_start acc).
Definition start_streak (acc : account) : Z := from_option (fun r => Z.max (h_streak r) 0) 0 (a_start acc).
Definition start_first (acc : account) : Z := from_option h_first 0 (a_start acc).
(** The time of the first rejection of the series, an imported one included. *)
Definition series_first (acc : account) : Z := if start_first acc =? 0 then first_at (a_ev acc) else start_first acc.
Definition condemned (acc : account) : bool :=
  negb (bool_decide (a_ev acc = [])) && (2 <=? start_streak acc + Z.of_nat (length (a_ev acc)))
  && (300 <=? last_at (a_ev acc) - series_first acc).
Definition verdict (acc : account) : AuthState :=
  if a_killed acc || bool_decide (start_state acc = Dead) || condemned acc then Dead
  else match a_ev acc with [] => start_state acc | _ => Suspect end.

Section Histories.
  Context (token_fp : string -> string).
Definition run_op (p : Pool) (o : op) : Pool :=
  match o with
  | Probe e http fp now => (record_probe now e http fp p).2
  | Used e now => mark_used now e p
  | Served e now => mark_healthy now e p
  | Revived e => (revive e p).2
  | Killed e reason now => (kill now e reason p).2
  | Replaced new now => (replace_subs token_fp now new p).2
  | Imported rows => import_health token_fp rows p
  | ProbeRequested e now => request_probe now e p
  | StreamEnded e now => end_stream now e p
  | Cooled e secs now => cool now e secs p
  | Done e => mark_done e p
  end.
Definition run (p : Pool) (ops : list op) : Pool := foldl run_op p ops.
(** A roster that names another token starts a new account. *)
Definition observe_token (email : string) (acc : account) (s : Sub) : account :=
  if bool_decide (s_email s = email) && negb (bool_decide (a_fp acc = "")) && negb (bool_decide (a_fp acc = token_fp (s_token s)))
  then blank (token_fp (s_token s)) else acc.
(** A durable row of the current token (or of none) replaces the account. *)
Definition observe_row (roster : list Sub) (email : string) (acc : account) (r : SubHealth) : account :=
  if bool_decide (h_email r = email) then
    match List.find (fun s => bool_decide (s_email s = h_email r)) (rev roster) with
    | None => acc
    | Some s =>
        if negb (bool_decide (h_fp r = "")) && negb (bool_decide (h_fp r = token_fp (s_token s)))
        then blank (token_fp (s_token s)) else mkAccount (h_fp r) (Some r) false []
    end
  else acc.
Definition observe (p : Pool) (email : string) (acc : account) (o : op) : account :=
  match o with
  | Probe e http fp now =>
      if bool_decide (e = email) then
        let acc := if negb (bool_decide (fp = "")) && negb (bool_decide (a_fp acc = fp)) then blank fp else acc in
        if is_rejection http then rejected acc http now else if is_success http then blank (a_fp acc) else acc
      else acc
  | Served e _ => if bool_decide (e = email) then blank (a_fp acc) else acc
  | Revived e => if bool_decide (e = email) && known p e then blank (a_fp acc) else acc
  | Killed e _ _ => if bool_decide (e = email) && known p e then mkAccount (a_fp acc) (a_start acc) true (a_ev acc) else acc
  | Replaced new now =>
      let kept := bool_decide (email ∈ map s_email new) || (now <? cooling_until (entry p email)) in
      foldl (observe_token email) (if kept then acc else blank "") new
  | Imported rows => foldl (observe_row (subs p) email) acc rows
  | _ => acc
  end.
Fixpoint account_from (email : string) (p : Pool) (acc : account) (ops : list op) : account :=
  match ops with [] => acc | o :: ops => account_from email (run_op p o) (observe p email acc o) ops end.
Definition account_of (p : Pool) (email : string) (ops : list op) : account := account_from email p (blank "") ops.

Definition probe_time (o : op) : option Z := match o with Probe _ _ _ now => Some now | _ => None end.
(** Probes are recorded in the order of a positive clock; imported rows carry a
    time and a count of failures that leave room for those to come. *)
Definition row_fits (n : nat) (r : SubHealth) : Prop := 0 <= h_first r <= i64_max /\ Z.max (h_streak r) 0 + Z.of_nat n < i64_max.
Definition imports_fit (n : nat) (o : op) : Prop := match o with Imported rows => Forall (row_fits n) rows | _ => True end.
Definition timed (ops : list op) : Prop :=
  StronglySorted Z.le (omap probe_time ops) /\ Forall (fun t => 0 < t <= i64_max) (omap probe_time ops) /\
  Z.of_nat (length ops) < i64_max /\ Forall (imports_fit (length ops)) ops.

Lemma entry_update p e e' f : entry (update p e f) e' = if decide (e = e') then f (entry p e) else entry p e'.
Proof.
  unfold entry at 1, update. cbn [live]. destruct (decide (e = e')) as [->|Hn]; [by rewrite lookup_insert_eq|].
  by rewrite lookup_insert_ne.
Qed.

(** *** The record follows the account *)
Record tracks (a : Auth) (acc : account) : Prop := {
  tk_fp : auth_token_fp a = a_fp acc;
  tk_state : auth_state a = verdict acc;
  tk_streak : auth_fail_streak a = start_streak acc + Z.of_nat (length (a_ev acc));
  tk_first : first_auth_fail_ts a = series_first acc;
  tk_blank : a_start acc = None -> a_killed acc = false -> a = auth_of (a_fp acc) (a_ev acc) }.
Lemma account_tracks_reset a acc : tracks a acc -> tracks (reset_auth_healthy a) (blank (a_fp acc)).
Proof. intros [Hf _ _ _ _]. split; try done. intros _ _. unfold reset_auth_healthy. by rewrite Hf. Qed.
Lemma tracks_killed a acc now reason : tracks a acc -> tracks (killed now reason a) (mkAccount (a_fp acc) (a_start acc) true (a_ev acc)).
Proof. intros [Hf Hs Hk H1 _]. split; cbn; done. Qed.
Lemma imported_tracks r :
  tracks (mkAuth (from_persisted (h_state r)) (Z.max (h_streak r) 0) (h_first r) (h_last r) (h_http r) (h_dead_since r) (h_reason r) (h_fp r))
    (mkAccount (h_fp r) (Some r) false []).
Proof.
  split; cbn; try done; [|lia|].
  - unfold verdict, condemned, start_state. cbn. case_bool_decide; done.
  - unfold series_first, start_first. cbn. destruct (Z.eqb_spec (h_first r) 0); done.
Qed.
Lemma start_streak_nonneg acc : 0 <= start_streak acc.
Proof. unfold start_streak. destruct (a_start acc); cbn; lia. Qed.
Lemma series_first_snoc acc http now : ordered (a_ev acc ++ [(http, now)]) ->
  series_first (rejected acc http now) = if series_first acc =? 0 then now else series_first acc.
Proof.
  intros Ho. unfold series_first, rejected. cbn [a_ev a_start]. change (start_first _) with (start_first acc).
  destruct (Z.eqb_spec (start_first acc) 0) as [E|E]; [|by rewrite (proj2 (Z.eqb_neq _ _))]. rewrite first_snoc.
  destruct (decide (a_ev acc = [])) as [->|Hn]; [done|]. pose proof (first_bounds _ _ Ho Hn). by rewrite (proj2 (Z.eqb_neq _ _)) by lia.
Qed.
Lemma condemned_mono acc http now : ordered (a_ev acc ++ [(http, now)]) -> condemned acc = true -> condemned (rejected acc http now) = true.
Proof.
  intros Ho. unfold condemned. rewrite series_first_snoc by done. cbn [rejected a_ev a_start]. change (start_streak _) with (start_streak acc).
  rewrite last_snoc', length_app. rewrite !andb_true_iff, !negb_true_iff, !bool_decide_eq_false, !Z.leb_le. cbn. intros [[Hn H2] H3].
  pose proof (first_bounds _ _ Ho Hn) as [Hf Hl]. cbn in Hl. split; [split; [by destruct (a_ev acc)|lia]|].
  destruct (Z.eqb_spec (series_first acc) 0) as [E|E]; [|lia]. exfalso. unfold series_first in E.
  destruct (Z.eqb_spec (start_first acc) 0); lia.
Qed.
Lemma tracks_rejected a acc http now : tracks a acc -> ordered (a_ev acc ++ [(http, now)]) ->
  start_streak acc + Z.of_nat (length (a_ev acc)) < i64_max -> 0 <= start_first acc <= i64_max ->
  tracks (auth_failed http now a) (rejected acc http now).
Proof.
  intros [Hf Hs Hk H1 Hb] Ho Hl Hst. pose proof (start_streak_nonneg acc). pose proof (ordered_snoc _ _ Ho) as (_ & Hx & _). cbn in Hx.
  pose proof (series_first_snoc acc http now Ho) as Hfirst.
  assert (Hrange : 0 <= series_first (rejected acc http now) <= i64_max).
  { rewrite Hfirst. destruct (Z.eqb_spec (series_first acc) 0); [lia|]. unfold series_first in *.
    destruct (Z.eqb_spec (start_first acc) 0); [|lia]. destruct (decide (a_ev acc = [])) as [E|E]; [by rewrite E in *|].
    pose proof (first_bounds _ _ Ho E). cbn in *. lia. }
  assert (Hcor : (DEAD_STREAK <=? wrap_i64 (auth_fail_streak a + 1)) && (DEAD_MIN_SECS <=? wrap_i64 (now - series_first (rejected acc http now)))
    = condemned (rejected acc http now)).
  { rewrite Hk, !wrap_i64_id by width_lia. unfold condemned. cbn [rejected a_ev]. change (start_streak _) with (start_streak acc).
    rewrite last_snoc', length_app, bool_decide_false by (by destruct (a_ev acc)). cbn. unfold DEAD_STREAK, DEAD_MIN_SECS. f_equal. f_equal. lia. }
  split.
  - done.
  - unfold auth_failed. cbv zeta. cbn [auth_state]. rewrite H1, <- Hfirst, Hcor, Hs. unfold verdict. cbn [rejected a_killed a_ev].
    change (start_state (rejected acc http now)) with (start_state acc). pose proof (condemned_mono acc http now Ho) as Hm.
    destruct (condemned (rejected acc http now)); [by rewrite orb_true_r|].
    destruct (condemned acc); [by specialize (Hm eq_refl)|]. rewrite !orb_false_r.
    destruct (a_killed acc); cbn [orb]; [done|]. case_bool_decide; [done|]. destruct (a_ev acc); cbn; [by destruct (start_state acc)|done].
  - unfold auth_failed. cbv zeta. cbn [auth_fail_streak rejected a_ev]. change (start_streak (rejected _ _ _)) with (start_streak acc).
    rewrite Hk, wrap_i64_id, length_app by width_lia. cbn. lia.
  - unfold auth_failed. cbv zeta. cbn [first_auth_fail_ts]. by rewrite H1, <- Hfirst.
  - cbn [rejected a_start a_killed]. intros E1 E2. rewrite (Hb E1 E2). apply auth_failed_snoc; [done|]. lia.
Qed.
(** Rejections seen so far, followed by the probes to come, are in order. *)
Definition pending_ok (n : nat) (acc : account) (ops : list op) : Prop :=
  (StronglySorted Z.le ((snd <$> a_ev acc) ++ omap probe_time ops) /\
   Forall (fun t => 0 < t <= i64_max) ((snd <$> a_ev acc) ++ omap probe_time ops)) /\
  start_streak acc + Z.of_nat (length (a_ev acc) + length ops) < i64_max /\ 0 <= start_first acc <= i64_max /\
  Forall (imports_fit n) ops /\ (length ops <= n)%nat /\ Z.of_nat n < i64_max.
Lemma forall_sublist {A} (P : A -> Prop) l k : sublist l k -> Forall P k -> Forall P l.
Proof. rewrite !Forall_forall. intros Hs Hk x Hx. apply Hk. by eapply elem_of_sublist. Qed.
Lemma sorted_sublist (l k : list Z) : sublist l k -> StronglySorted Z.le k -> StronglySorted Z.le l.
Proof.
  induction 1 as [|x l k Hs IH|x l k Hs IH]; intros Hk; [done|apply StronglySorted_inv in Hk as [Hk Hx]..].
  - constructor; [by apply IH|]. by eapply forall_sublist.
  - by apply IH.
Qed.
Lemma pending_sublist n acc acc' o ops : pending_ok n acc (o :: ops) ->
  sublist ((snd <$> a_ev acc') ++ omap probe_time ops) ((snd <$> a_ev acc) ++ omap probe_time (o :: ops)) ->
  start_streak acc' + Z.of_nat (length (a_ev acc') + length ops) < i64_max -> 0 <= start_first acc' <= i64_max -> pending_ok n acc' ops.
Proof.
  intros ([Hs Hf] & _ & _ & Hi & Hn & Hm) Hsub Hl Hst. apply Forall_cons in Hi as [_ Hi]. cbn in Hn.
  split_and!; [by eapply sorted_sublist|by eapply forall_sublist|done|lia|lia|done|lia|done].
Qed.
Lemma omap_skip o ops : exists pre, omap probe_time (o :: ops) = pre ++ omap probe_time ops.
Proof. cbn. destruct (probe_time o) as [t|]; [by exists [t]|by exists []]. Qed.
(** The account keeps its rejections, or loses them. *)
Lemma pending_keep n acc acc' o ops : pending_ok n acc (o :: ops) -> a_ev acc' = a_ev acc -> a_start acc' = a_start acc -> pending_ok n acc' ops.
Proof.
  intros H Ee Es. pose proof H as (_ & Hl & Hst & _). cbn in Hl. eapply pending_sublist; [exact H| | |].
  - rewrite Ee. destruct (omap_skip o ops) as [pre ->]. apply sublist_app; [done|]. by apply sublist_inserts_l.
  - unfold start_streak in *. rewrite Ee, Es. lia.
  - unfold start_first in *. by rewrite Es.
Qed.
Lemma pending_fresh n acc fp start killed o ops : pending_ok n acc (o :: ops) -> from_option (row_fits n) True start ->
  pending_ok n (mkAccount fp start killed []) ops.
Proof.
  intros H Hr. pose proof H as (_ & _ & _ & _ & Hn & Hm). cbn in Hn. eapply pending_sublist; [exact H| | |].
  - destruct (omap_skip o ops) as [pre ->]. by do 2 apply sublist_inserts_l.
  - unfold start_streak. destruct start as [r|]; cbn in *; [destruct Hr|]; lia.
  - unfold start_first. destruct start as [r|]; cbn in *; [by destruct Hr|width_lia].
Qed.
Lemma pending_push n acc e http fp now ops : pending_ok n acc (Probe e http fp now :: ops) ->
  pending_ok n (rejected acc http now) ops /\ ordered (a_ev acc ++ [(http, now)]).
Proof.
  intros H. pose proof H as ([Hs Hf] & Hl & Hst & _). cbn in Hl, Hs, Hf. split.
  - eapply pending_sublist; [exact H| | |done].
    + cbn [rejected a_ev]. by rewrite fmap_app, <- app_assoc.
    + cbn [rejected a_ev]. change (start_streak (rejected _ _ _)) with (start_streak acc). rewrite length_app. cbn. lia.
  - split.
    + rewrite fmap_app. cbn. replace (now :: omap probe_time ops) with ([now] ++ omap probe_time ops) in Hs by done.
      rewrite (assoc_L (++)) in Hs. by apply StronglySorted_app_1_l in Hs.
    + apply Forall_app in Hf as [H1 H2]. apply Forall_cons in H2 as [H2 _]. apply Forall_app. split; [by apply Forall_fmap in H1|by apply Forall_singleton].
Qed.
Lemma probe_tracks n a acc e http fp now ops : tracks a acc -> pending_ok n acc (Probe e http fp now :: ops) ->
  let renewed := if negb (bool_decide (fp = "")) && negb (bool_decide (a_fp acc = fp)) then blank fp else acc in
  let acc' := if is_rejection http then rejected renewed http now else if is_success http then blank (a_fp renewed) else renewed in
  tracks ((fun a => if is_rejection http then auth_failed http now a else if is_success http then reset_auth_healthy a else a)
            (if new_token fp a then reset_auth_healthy (set_fp fp a) else a)) acc' /\ pending_ok n acc' ops.
Proof.
  intros Ha Hp renewed acc'. set (a1 := if new_token fp a then _ else a).
  assert (Hr : tracks a1 renewed /\ pending_ok n renewed (Probe e http fp now :: ops)).
  { unfold a1, renewed, new_token. rewrite (tk_fp _ _ Ha). destruct (negb _ && negb _); [|done]. split; [split; done|].
    destruct Hp as ([Hs Hf] & Hl & _ & Hi & Hn & Hm). cbn in *.
    apply StronglySorted_app_1_r in Hs. apply Forall_app in Hf as [_ Hf]. split_and!; try done; cbn; [lia|width_lia..]. }
  destruct Hr as [Hr Hpr]. unfold acc'. destruct (is_rejection http); [|destruct (is_success http)].
  - destruct (pending_push _ _ _ _ _ _ _ Hpr) as [Hk Ho]. split; [|done]. destruct Hpr as (_ & Hl & Hst & _). cbn in Hl.
    apply tracks_rejected; [done|done|lia|done].
  - split; [by apply account_tracks_reset|]. by eapply pending_fresh.
  - split; [done|]. by eapply pending_keep.
Qed.
Lemma fresh_tracks fp : tracks (auth_of fp []) (blank fp).
Proof. split; done. Qed.
Lemma renew_tracks email new : forall m acc, tracks (auth (default Live_default (m !! email))) acc ->
  tracks (auth (default Live_default (foldl (renew_token token_fp) m new !! email))) (foldl (observe_token email) acc new).
Proof.
  induction new as [|s new IH]; intros m acc H; [done|]. cbn [foldl]. apply IH. unfold renew_token, observe_token.
  destruct (decide (s_email s = email)) as [->|Hn].
  - rewrite (bool_decide_true (email = email)) by done. cbn [andb]. rewrite <- (tk_fp _ _ H). destruct (m !! email) as [l|] eqn:El; cbn [default] in *.
    + change (default Live_default (Some l)) with l in *. destruct (_ && _); [|by rewrite El]. rewrite lookup_insert_eq. cbn. apply fresh_tracks.
    + rewrite El. exact H.
  - rewrite (bool_decide_false (s_email s = email)) by done. cbn [andb]. destruct (m !! s_email s) as [l|]; [|done].
    destruct (_ && _); [|done]. by rewrite lookup_insert_ne.
Qed.
Lemma token_account email new : forall acc, foldl (observe_token email) acc new = acc \/ exists fp, foldl (observe_token email) acc new = blank fp.
Proof.
  induction new as [|s new IH]; intros acc; [by left|]. cbn [foldl]. destruct (IH (observe_token email acc s)) as [->|[fp ->]]; [|by right; exists fp].
  unfold observe_token. destruct (_ && _); [by right; eexists|by left].
Qed.
Lemma replaced_tracks n p email acc new now ops : tracks (auth (entry p email)) acc -> pending_ok n acc (Replaced new now :: ops) ->
  let acc' := observe p email acc (Replaced new now) in
  tracks (auth (entry (replace_subs token_fp now new p).2 email)) acc' /\ pending_ok n acc' ops.
Proof.
  intros Ha Hp. cbn [observe]. set (kept := bool_decide _ || _). set (acc1 := if kept then acc else blank ""). split.
  - unfold replace_subs, entry. cbn [snd live]. apply renew_tracks. unfold acc1, kept, entry in *. rewrite map_lookup_filter.
    destruct (live p !! email) as [l|] eqn:El; cbn; [change (default Live_default (Some l)) with l in *|].
    + case_guard as Hk; cbn; [rewrite (proj2 (orb_true_iff _ _)); [done|]|rewrite (proj2 (orb_false_iff _ _)); [apply fresh_tracks|]].
      * rewrite bool_decide_eq_true, Z.ltb_lt. destruct Hk; [by left|by right].
      * rewrite bool_decide_eq_false, Z.ltb_ge. cbn in Hk. split; [tauto|lia].
    + destruct (_ || _); [done|apply fresh_tracks].
  - assert (Hk : pending_ok n acc1 ops) by (unfold acc1; destruct kept; [by eapply pending_keep|by eapply pending_fresh]).
    destruct (token_account email new acc1) as [->|[fp ->]]; [done|]. by eapply pending_fresh.
Qed.
Lemma imported_row_tracks p email acc r : tracks (auth (entry p email)) acc ->
  tracks (auth (entry (import_row token_fp p r) email)) (observe_row (subs p) email acc r).
Proof.
  intros Ha. unfold import_row, observe_row. destruct (decide (h_email r = email)) as [->|Hn].
  - rewrite (bool_decide_true (email = email)) by done. destruct (List.find _ _) as [s|]; [|done].
    destruct (_ && _); rewrite entry_update, decide_True by done; cbn; [apply fresh_tracks|apply imported_tracks].
  - rewrite (bool_decide_false (h_email r = email)) by done. destruct (List.find _ _) as [s|]; [|done].
    destruct (_ && _); by rewrite entry_update, decide_False.
Qed.
Lemma import_row_subs p r : subs (import_row token_fp p r) = subs p.
Proof. unfold import_row. repeat case_match; done. Qed.
Lemma imports_tracks email rows : forall p acc, tracks (auth (entry p email)) acc ->
  tracks (auth (entry (import_health token_fp rows p) email)) (foldl (observe_row (subs p) email) acc rows).
Proof.
  induction rows as [|r rows IH]; intros p acc H; [done|]. cbn [foldl]. unfold import_health. cbn [foldl].
  specialize (IH (import_row token_fp p r) (observe_row (subs p) email acc r)). rewrite import_row_subs in IH.
  apply IH. by apply imported_row_tracks.
Qed.
Lemma row_account email roster rows : forall acc, let acc' := foldl (observe_row roster email) acc rows in
  acc' = acc \/ exists fp start, acc' = mkAccount fp start false [] /\ from_option (fun r => r ∈ rows) True start.
Proof.
  induction rows as [|r rows IH]; intros acc; [by left|]. cbn [foldl].
  assert (Hs : forall start, from_option (fun r => r ∈ rows) True start -> from_option (fun x => x ∈ r :: rows) True start)
    by (intros [x|]; cbn; [by right|done]).
  destruct (IH (observe_row roster email acc r)) as [->|(fp & start & -> & Hin)]; [|right; eauto].
  unfold observe_row. case_bool_decide; [|by left]. destruct (List.find _ _); [|by left]. right.
  destruct (_ && _); eexists _, _; (split; [reflexivity|]); cbn; [done|by left].
Qed.
Lemma op_tracks n p email acc o ops : tracks (auth (entry p email)) acc -> pending_ok n acc (o :: ops) ->
  tracks (auth (entry (run_op p o) email)) (observe p email acc o) /\ pending_ok n (observe p email acc o) ops.
Proof.
  intros Ha Hp. assert (Hkeep : pending_ok n acc ops) by (by eapply pending_keep).
  assert (Hblank : forall fp, pending_ok n (blank fp) ops) by (intros fp; by eapply pending_fresh).
  destruct o as [e http fp now|e now|e now|e|e reason now|new now|rows|e now|e now|e secs now|e]; cbn [run_op].
  6: by apply replaced_tracks.
  6: { split; [by apply imports_tracks|]. cbn [observe]. destruct (row_account email (subs p) rows acc) as [->|(fp & start & -> & Hs)]; [done|].
       eapply pending_fresh; [exact Hp|]. destruct Hp as (_ & _ & _ & Hi & _). apply Forall_cons in Hi as [Hi _]. cbn in Hi.
       destruct start as [r|]; [|done]. cbn in *. rewrite Forall_forall in Hi. by apply Hi. }
  all: cbn [observe]; unfold mark_used, mark_healthy, end_stream, cool, mark_done, record_probe, revive, kill, request_probe; cbn [snd].
  all: try (rewrite entry_update; destruct (decide (e = email)) as [->|Hn]; cbn [auth]; [done|done]).
  - rewrite entry_update. destruct (decide (e = email)) as [->|Hn]; [|by rewrite bool_decide_false].
    rewrite bool_decide_true by done. unfold apply_probe, with_auth. cbn [auth]. by apply (probe_tracks n _ _ email).
  - rewrite entry_update. destruct (decide (e = email)) as [->|Hn]; [|by rewrite bool_decide_false].
    rewrite bool_decide_true by done. cbn [auth]. split; [by apply account_tracks_reset|done].
  - destruct (known p e); cbn [negb snd]; rewrite ?andb_false_r, ?andb_true_r; [|done]. rewrite entry_update.
    destruct (decide (e = email)) as [->|Hn]; [|by rewrite bool_decide_false]. rewrite bool_decide_true by done. split; [by apply account_tracks_reset|done].
  - destruct (known p e); cbn [negb snd]; rewrite ?andb_false_r, ?andb_true_r; [|done]. rewrite entry_update.
    destruct (decide (e = email)) as [->|Hn]; [|by rewrite bool_decide_false]. rewrite bool_decide_true by done.
    split; [by apply tracks_killed|]. by eapply pending_keep.
  - split; [|done]. destruct (live p !! e) as [l|] eqn:El; [|done]. destruct (_ <=? _); [done|]. unfold entry in *. cbn [live].
    destruct (decide (e = email)) as [->|Hn]; [rewrite lookup_insert_eq; by rewrite El in Ha|by rewrite lookup_insert_ne].
Qed.
Lemma pool_run_tracks n email ops : forall p acc, tracks (auth (entry p email)) acc -> pending_ok n acc ops ->
  tracks (auth (entry (run p ops) email)) (account_from email p acc ops).
Proof.
  induction ops as [|o ops IH]; intros p acc Ha Hp; [done|]. cbn [account_from]. change (run p (o :: ops)) with (run (run_op p o) ops).
  destruct (op_tracks n p email acc o ops Ha Hp). by apply IH.
Qed.
Lemma account_tracks p email ops : live p !! email = None -> timed ops -> tracks (auth (entry (run p ops) email)) (account_of p email ops).
Proof.
  intros Hn (H1 & H2 & H3 & H4). apply (pool_run_tracks (length ops)).
  - unfold entry. rewrite Hn. apply fresh_tracks.
  - by split_and!.
Qed.
End Histories.
Lemma state_roundtrip s : from_persisted (as_str s) = s.
Proof. by destruct s. Qed.
(** The durable row restores the record it was written from. *)
Lemma row_restores token_fp email s l : s_email s = email -> 0 <= auth_fail_streak (auth l) ->
  let restored := import_health token_fp [health_row email l] (mkPool [s] ∅) in
  auth (entry restored email)
  = if negb (bool_decide (auth_token_fp (auth l) = "")) && negb (bool_decide (auth_token_fp (auth l) = token_fp (s_token s)))
    then auth_of (token_fp (s_token s)) [] else auth l.
Proof.
  intros Hs Hk. unfold import_health, import_row. cbn [foldl subs rev app List.find]. unfold health_row. cbn [h_email].
  rewrite bool_decide_true by done. cbn [h_fp]. destruct (_ && _); rewrite entry_update, decide_True by done; [done|].
  unfold with_auth. cbn. rewrite state_roundtrip, Z.max_l by done. by destruct (auth l).
Qed.

(** C36: the verdict about a subscription's token is exact.  After any interleaving
    of probes, served turns, operator revivals and kills, roster replacements,
    imports of durable rows, slot and cooling operations on any subscriptions, a
    subscription is dead exactly when, on its current account, an operator killed
    it, or the imported row said so, or clean probes rejected its token: at least
    twice counting the imported failures, the last one at least 300 seconds after
    the first of the series.  The account is wiped by a successful probe, a served
    turn, a revival of a known subscription and a new token (seen by a probe, a
    roster or an imported row), replaced by an imported row, and forgotten when a
    roster omits the subscription while it does not cool.  It is healthy exactly
    when nothing of that kind stands against it; on an account without kill and
    import the recorded times and reason are those of the rejections.  The row
    written for it restores that verdict in another process that knows the same
    token, and none in one that knows another. *)
Theorem pool_verdict_exact (token_fp : string -> string) (p : Pool) (email : string) (ops : list op) (s : Sub)
    (Hnew : live p !! email = None) (Ht : timed ops) (Hs : s_email s = email) :
  let q := run token_fp p ops in
  let acc := account_of token_fp p email ops in
  let restored := import_health token_fp [health_row email (entry q email)] (mkPool [s] ∅) in
  (is_auth_dead q email = true <->
     a_killed acc = true \/ start_state acc = Dead
     \/ (a_ev acc <> [] /\ 2 <= start_streak acc + Z.of_nat (length (a_ev acc)) /\ 300 <= last_at (a_ev acc) - series_first acc)) /\
  (auth_state (auth (entry q email)) = Healthy <-> a_killed acc = false /\ start_state acc = Healthy /\ a_ev acc = []) /\
  auth_token_fp (auth (entry q email)) = a_fp acc /\
  (a_start acc = None -> a_killed acc = false -> auth (entry q email) = auth_of (a_fp acc) (a_ev acc)) /\
  (a_fp acc = "" \/ a_fp acc = token_fp (s_token s) -> auth (entry restored email) = auth (entry q email)) /\
  (a_fp acc <> "" -> a_fp acc <> token_fp (s_token s) -> auth (entry restored email) = auth_of (token_fp (s_token s)) []).
Proof.
  cbv zeta. pose proof (account_tracks token_fp p email ops Hnew Ht) as [Hf Hst Hk _ Hb].
  set (acc := account_of token_fp p email ops) in *. set (q := run token_fp p ops) in *. pose proof (start_streak_nonneg acc).
  assert (Hdead : is_auth_dead q email = bool_decide (auth_state (auth (entry q email)) = Dead)).
  { unfold is_auth_dead, entry. by destruct (live q !! email). }
  pose proof (row_restores token_fp email s (entry q email) Hs ltac:(lia)) as Hrow. cbv zeta in Hrow. rewrite Hf in Hrow.
  assert (Hc : condemned acc = true <->
    a_ev acc <> [] /\ 2 <= start_streak acc + Z.of_nat (length (a_ev acc)) /\ 300 <= last_at (a_ev acc) - series_first acc).
  { unfold condemned. rewrite !andb_true_iff, negb_true_iff, bool_decide_eq_false, !Z.leb_le. tauto. }
  rewrite Hdead, bool_decide_eq_true, Hst, <- Hc. unfold verdict. split_and!.
  - destruct (decide (start_state acc = Dead)) as [E|E]; [rewrite bool_decide_true by done|rewrite bool_decide_false by done];
      destruct (a_killed acc), (condemned acc); cbn; destruct (a_ev acc); intuition congruence.
  - assert (Hev : a_ev acc = [] -> condemned acc = false) by (unfold condemned; by intros ->).
    destruct (decide (start_state acc = Dead)) as [E|E]; [rewrite bool_decide_true by done|rewrite bool_decide_false by done];
      destruct (a_killed acc); cbn; try (split; [done|intros (? & ? & ?); congruence]).
    destruct (condemned acc) eqn:Ec; [split; [done|intros (_ & _ & ?%Hev); done]|]. destruct (a_ev acc); intuition congruence.
  - done.
  - done.
  - intros Hfp. rewrite Hrow. destruct (negb _ && negb _) eqn:E; [|done].
    rewrite andb_true_iff, !negb_true_iff, !bool_decide_eq_false in E. tauto.
  - intros Hn1 Hn2. by rewrite Hrow, !bool_decide_false.
Qed.

Definition demo_sub : Sub := mkSub "a" "token" "" "prod" "max20".
Definition demo_pool : Pool := mkPool [demo_sub] ∅.
Definition demo_fp (_ : string) : string := "f1".
(** A failure imported at start-up counts towards the series of a later probe. *)
Definition demo_row : SubHealth := mkHealth "a" "suspect" 1 100 100 401 0 "" "f1".
Definition demo_history : list op :=
  [Imported [demo_row]; Used "a" 150; Used "b" 160; Probe "b" 403 "f2" 200; Cooled "a" 30 300; Probe "a" 429 "f1" 350; Probe "a" 403 "f1" 400].
Lemma pool_verdict_exact_witness :
  is_auth_dead (run demo_fp demo_pool demo_history) "a" = true /\ is_auth_dead (run demo_fp demo_pool demo_history) "b" = false /\
  auth (entry (import_health demo_fp [health_row "a" (entry (run demo_fp demo_pool demo_history) "a")] (mkPool [demo_sub] ∅)) "a")
    = auth (entry (run demo_fp demo_pool demo_history) "a").
Proof.
  assert (Ht : timed demo_history).
  { split_and!; [repeat constructor; cbn; lia|repeat constructor; cbn; width_lia|cbn; width_lia|].
    repeat constructor; cbn; width_lia. }
  pose proof (pool_verdict_exact demo_fp demo_pool "a" demo_history demo_sub eq_refl Ht eq_refl) as H.
  change (account_of demo_fp demo_pool "a" demo_history) with (mkAccount "f1" (Some demo_row) false [(403, 400)]) in H. cbn zeta in H.
  destruct H as (Hd & _ & _ & _ & Hr & _). split_and!; [|by vm_compute|apply Hr; by right].
  apply Hd. right. right. split; [done|]. vm_compute. split; discriminate.
Defined.
(** A dead subscription that leaves the roster and returns with the same token is
    healthy again, while one that cools keeps its record. *)
Example roster_flap_revives :
  let dead := (kill 400 "a" "permission_error" demo_pool).2 in
  let back := fun p => (replace_subs (fun t => t) 500 [demo_sub] (replace_subs (fun t => t) 450 [] p).2).2 in
  is_auth_dead dead "a" = true /\ is_auth_dead (back dead) "a" = false /\
  is_auth_dead (back (cool 400 "a" 100 dead)) "a" = true.
Proof. by vm_compute. Qed.
