(* ===== verification/CodexHealth.v ===== *)
(** * Health of a Codex home

    The admission policy of one Codex subscription
    ([crates/forward/src/codex/health.rs]): the account axis, the transport axis,
    hard and soft cooling, the freshness of quota evidence, the admission verdict
    of an ordinary and of a last-resort pass, and the durable slice.  The
    theorems relate the state to the observations since the last success. *)
From stdpp Require Import sorting.
From S2P Require Import Prelude.
#[local] Open Scope Z_scope.

Definition DEADLINE_DEGRADE_STREAK : Z := 2.
Definition DEADLINE_WEDGE_STREAK : Z := 4.
Definition DEADLINE_WEDGE_MIN_SECS : Z := 60.
Definition AUTH_DEAD_STREAK : Z := 2.
Definition AUTH_DEAD_MIN_SECS : Z := 300.
Definition SNAPSHOT_STALE_AFTER_PROBES : Z := 3.
Definition WEDGED_COOL_SECS : Z := 10.
Definition AUTH_QUARANTINE_SECS : Z := 900.
Definition AUTH_SOFT_COOL_SECS : Z := 15.

Inductive AccountState : Type := Healthy | Suspect | Dead.
#[global] Instance AccountState_eq_dec : EqDecision AccountState.
Proof. solve_decision. Defined.
Inductive TransportState : Type := Responsive | Degraded | Wedged.
#[global] Instance TransportState_eq_dec : EqDecision TransportState.
Proof. solve_decision. Defined.
Inductive Freshness : Type := Fresh | Stale | Unknown.
#[global] Instance Freshness_eq_dec : EqDecision Freshness.
Proof. solve_decision. Defined.

Definition account_from_str (value : string) : AccountState :=
  if bool_decide (value = "dead") then Dead else if bool_decide (value = "suspect") then Suspect else Healthy.
Definition account_as_str (a : AccountState) : string :=
  match a with Healthy => "healthy" | Suspect => "suspect" | Dead => "dead" end.

Record LimitView := mkLimits {
  reached : bool; max_used_percent : option Z; observed_at : Z; soonest_reset_at : option Z }.
Inductive HealthSignal : Type :=
| ProbeOk | TurnOk | Deadline | TransportClosed
| AuthRejected (permanent : bool)
| UsageLimited (retry_after_secs : option Z).
Inductive RejectReason : Type := AccountDead | TransportWedged | TransportDegraded | Cooling | ProviderLimit.
#[global] Instance RejectReason_eq_dec : EqDecision RejectReason.
Proof. solve_decision. Defined.
Inductive Admission : Type :=
| Admit (snapshot_stale : bool)
| Reject (reason : RejectReason) (ready_at : option Z).
Definition is_admitted (a : Admission) : bool := match a with Admit _ => true | Reject _ _ => false end.

Record DurableAccountHealth := mkDurable {
  d_account : AccountState; d_auth_fail_streak : Z; d_first_auth_fail_ts : Z; d_cooling_until : Z }.
Record HomeHealth := mkHome {
  account : AccountState; transport : TransportState;
  deadline_streak : Z; first_deadline_ts : Z;
  auth_fail_streak : Z; first_auth_fail_ts : Z;
  cooling_until : Z; soft_cooling_until : Z; last_ok_ts : Z; probe_requested : bool }.
Definition HomeHealth_new : HomeHealth := mkHome Healthy Responsive 0 0 0 0 0 0 0 false.

(** Cooling is only ever extended. *)
Definition cool_until (h : HomeHealth) (until : Z) : HomeHealth :=
  mkHome (account h) (transport h) (deadline_streak h) (first_deadline_ts h) (auth_fail_streak h)
    (first_auth_fail_ts h) (Z.max (cooling_until h) until) (soft_cooling_until h) (last_ok_ts h) (probe_requested h).
Definition soft_cool_until (h : HomeHealth) (until : Z) : HomeHealth :=
  mkHome (account h) (transport h) (deadline_streak h) (first_deadline_ts h) (auth_fail_streak h)
    (first_auth_fail_ts h) (cooling_until h) (Z.max (soft_cooling_until h) until) (last_ok_ts h) (probe_requested h).
Definition set_transport (h : HomeHealth) (t : TransportState) : HomeHealth :=
  mkHome (account h) t (deadline_streak h) (first_deadline_ts h) (auth_fail_streak h)
    (first_auth_fail_ts h) (cooling_until h) (soft_cooling_until h) (last_ok_ts h) (probe_requested h).
Definition request_probe (h : HomeHealth) : HomeHealth :=
  mkHome (account h) (transport h) (deadline_streak h) (first_deadline_ts h) (auth_fail_streak h)
    (first_auth_fail_ts h) (cooling_until h) (soft_cooling_until h) (last_ok_ts h) true.

(** The backoff of an uncorroborated rejection, doubling with the streak. *)
Definition soft_delay (streak : Z) : Z :=
  let shift := Z.min (default u32_max (checked_u32 (sat_i64 (streak - 1)))) 30 in
  Z.max 1 (Z.min (sat_i64 (AUTH_SOFT_COOL_SECS * Z.shiftl 1 shift)) AUTH_QUARANTINE_SECS).

Definition apply (h : HomeHealth) (signal : HealthSignal) (now : Z) : HomeHealth :=
  match signal with
  | ProbeOk | TurnOk => mkHome Healthy Responsive 0 0 0 0 0 0 now false
  | Deadline =>
      let streak := wrap_i64 (deadline_streak h + 1) in
      let first := if first_deadline_ts h =? 0 then now else first_deadline_ts h in
      let h1 := mkHome (account h) (transport h) streak first (auth_fail_streak h) (first_auth_fail_ts h)
                  (cooling_until h) (soft_cooling_until h) (last_ok_ts h) (probe_requested h) in
      request_probe
        (if (DEADLINE_WEDGE_STREAK <=? streak) && (DEADLINE_WEDGE_MIN_SECS <=? wrap_i64 (now - first))
         then cool_until (set_transport h1 Wedged) (sat_i64 (now + WEDGED_COOL_SECS))
         else if DEADLINE_DEGRADE_STREAK <=? streak then set_transport h1 Degraded else h1)
  | TransportClosed =>
      request_probe (cool_until (set_transport h Wedged) (sat_i64 (now + WEDGED_COOL_SECS)))
  | AuthRejected permanent =>
      let streak := wrap_i64 (auth_fail_streak h + 1) in
      let first := if first_auth_fail_ts h =? 0 then now else first_auth_fail_ts h in
      let corroborated := (AUTH_DEAD_STREAK <=? streak) && (AUTH_DEAD_MIN_SECS <=? wrap_i64 (now - first)) in
      let suspected := if bool_decide (account h = Healthy) then Suspect else account h in
      let h1 := mkHome (if permanent || corroborated then Dead else suspected) (transport h) (deadline_streak h)
                  (first_deadline_ts h) streak first (cooling_until h) (soft_cooling_until h) (last_ok_ts h) (probe_requested h) in
      request_probe
        (if permanent || corroborated then cool_until h1 (sat_i64 (now + AUTH_QUARANTINE_SECS))
         else soft_cool_until h1 (sat_i64 (now + soft_delay streak)))
  | UsageLimited retry_after_secs => cool_until h (sat_i64 (now + Z.max (default 0 retry_after_secs) 1))
  end.

Definition durable (h : HomeHealth) : DurableAccountHealth :=
  mkDurable (account h) (auth_fail_streak h) (first_auth_fail_ts h) (cooling_until h).
Definition restore (h : HomeHealth) (d : DurableAccountHealth) : HomeHealth :=
  mkHome (d_account d) (transport h) (deadline_streak h) (first_deadline_ts h) (d_auth_fail_streak d)
    (d_first_auth_fail_ts d) (Z.max (cooling_until h) (d_cooling_until d)) (soft_cooling_until h) (last_ok_ts h) (probe_requested h).
Definition is_cooling (h : HomeHealth) (now : Z) : bool := now <? cooling_until h.
Definition effective_cooling_until (h : HomeHealth) : Z := Z.max (cooling_until h) (soft_cooling_until h).
Definition needs_recycle (h : HomeHealth) : bool := bool_decide (transport h = Wedged).
Definition wants_probe (h : HomeHealth) : bool := probe_requested h.
Definition take_probe_request (h : HomeHealth) : bool * HomeHealth :=
  (probe_requested h,
   mkHome (account h) (transport h) (deadline_streak h) (first_deadline_ts h) (auth_fail_streak h)
     (first_auth_fail_ts h) (cooling_until h) (soft_cooling_until h) (last_ok_ts h) false).

Definition freshness (limits : option LimitView) (now probe_interval_secs : Z) : Freshness :=
  match limits with
  | None => Unknown
  | Some l =>
      let ttl := sat_i64 (Z.max probe_interval_secs 1 * SNAPSHOT_STALE_AFTER_PROBES) in
      if ttl <? sat_i64 (now - observed_at l) then Stale else Fresh
  end.
Definition is_provider_limited (l : LimitView) : bool := reached l.
Definition until_future (h : HomeHealth) (now : Z) : option Z :=
  if now <? cooling_until h then Some (cooling_until h) else None.

Definition admission_inner (h : HomeHealth) (limits : option LimitView) (now probe_interval_secs : Z)
    (ignore_soft_cooling : bool) : Admission :=
  if bool_decide (account h = Dead) then Reject AccountDead (until_future h now)
  else if bool_decide (transport h = Wedged) then Reject TransportWedged (until_future h now)
  else if is_cooling h now then Reject Cooling (Some (cooling_until h))
  else if negb ignore_soft_cooling && (now <? soft_cooling_until h) then Reject Cooling (Some (soft_cooling_until h))
  else
    let f := freshness limits now probe_interval_secs in
    match (if bool_decide (f = Fresh) then limits else None) with
    | Some l =>
        if is_provider_limited l then Reject ProviderLimit (soonest_reset_at l)
        else if bool_decide (transport h = Degraded) then Reject TransportDegraded None
        else Admit (bool_decide (f = Stale))
    | None =>
        if bool_decide (transport h = Degraded) then Reject TransportDegraded None
        else Admit (bool_decide (f = Stale))
    end.
Definition admission (h : HomeHealth) (limits : option LimitView) (now probe_interval_secs : Z) : Admission :=
  admission_inner h limits now probe_interval_secs false.
Definition admission_ignoring_soft_cooling (h : HomeHealth) (limits : option LimitView) (now probe_interval_secs : Z)
    : Admission := admission_inner h limits now probe_interval_secs true.

(** ** Observations since the last success *)
Definition event : Type := HealthSignal * Z.
Definition is_success (s : HealthSignal) : bool := match s with ProbeOk | TurnOk => true | _ => false end.
Definition since_ok (hist : list event) : list event :=
  foldl (fun acc e => if is_success e.1 then [] else acc ++ [e]) [] hist.
Definition run (hist : list event) : HomeHealth := foldl (fun h e => apply h e.1 e.2) HomeHealth_new hist.

Definition deadlines (s : list event) : list Z := omap (fun e => match e.1 with Deadline => Some e.2 | _ => None end) s.
Definition rejections (s : list event) : list Z := omap (fun e => match e.1 with AuthRejected _ => Some e.2 | _ => None end) s.
Definition span (ts : list Z) : Z := default 0 (last ts) - default 0 (head ts).
(** At least [n] observations stretched over at least [secs]. *)
Definition corroborated (n secs : Z) (ts : list Z) : bool := (n <=? Z.of_nat (length ts)) && (secs <=? span ts).
Definition is_permanent (e : event) : bool := match e.1 with AuthRejected true => true | _ => false end.
Definition is_closed (e : event) : bool := match e.1 with TransportClosed => true | _ => false end.
Definition is_limit (e : event) : bool := match e.1 with UsageLimited _ => true | _ => false end.
Definition death_evidence (s : list event) : bool :=
  existsb is_permanent s || corroborated AUTH_DEAD_STREAK AUTH_DEAD_MIN_SECS (rejections s).
Definition wedge_evidence (s : list event) : bool :=
  existsb is_closed s || corroborated DEADLINE_WEDGE_STREAK DEADLINE_WEDGE_MIN_SECS (deadlines s).
Definition account_of (s : list event) : AccountState :=
  if death_evidence s then Dead else if bool_decide (rejections s = []) then Healthy else Suspect.
(** The transport signals, newest last. *)
Definition transport_signals (s : list event) : list HealthSignal :=
  omap (fun e => match e.1 with Deadline | TransportClosed => Some e.1 | _ => None end) s.

(** A clock that does not go back, away from the ends of [i64]. *)
Definition timed (hist : list event) : Prop :=
  Forall (fun e => 0 < e.2 <= i64_max - AUTH_QUARANTINE_SECS) hist /\ StronglySorted Z.le (map snd hist) /\
  Z.of_nat (length hist) <= i64_max.

Record tracks (s : list event) (h : HomeHealth) : Prop := {
  tk_deadlines : deadline_streak h = Z.of_nat (length (deadlines s));
  tk_first_deadline : first_deadline_ts h = default 0 (head (deadlines s));
  tk_rejections : auth_fail_streak h = Z.of_nat (length (rejections s));
  tk_first_rejection : first_auth_fail_ts h = default 0 (head (rejections s));
  tk_account : account h = account_of s;
  tk_responsive : transport h = Responsive <-> existsb is_closed s = false /\ (length (deadlines s) < 2)%nat;
  tk_wedged : transport h = Wedged -> wedge_evidence s = true;
  tk_closed : last (transport_signals s) = Some TransportClosed -> transport h = Wedged;
  tk_hard : cooling_until h = 0 \/ existsb is_limit s || death_evidence s || wedge_evidence s = true;
  tk_limits : forall r t, (UsageLimited r, t) ∈ s -> sat_i64 (t + Z.max (default 0 r) 1) <= cooling_until h;
  tk_soft : soft_cooling_until h <= default 0 (last (rejections s)) + AUTH_QUARANTINE_SECS;
  tk_soft_none : rejections s = [] -> soft_cooling_until h = 0
}.

Lemma soft_delay_bounds k : 1 <= soft_delay k <= AUTH_QUARANTINE_SECS.
Proof. unfold soft_delay, AUTH_QUARANTINE_SECS. lia. Qed.
Lemma omap_snoc {A B} (f : A -> option B) l x : omap f (l ++ [x]) = omap f l ++ option_list (f x).
Proof. rewrite omap_app. cbn. by destruct (f x). Qed.
Lemma head_snoc {A} (l : list A) x : head (l ++ [x]) = Some (default x (head l)).
Proof. by destruct l. Qed.
Lemma existsb_snoc {A} (p : A -> bool) l x : existsb p (l ++ [x]) = existsb p l || p x.
Proof. rewrite existsb_app. cbn. by rewrite orb_false_r. Qed.
Lemma omap_length_le {A B} (f : A -> option B) l : (length (omap f l) <= length l)%nat.
Proof. induction l as [|x l IH]; cbn; [lia|]. destruct (f x); cbn; lia. Qed.

Lemma since_ok_snoc hist e : since_ok (hist ++ [e]) = if is_success e.1 then [] else since_ok hist ++ [e].
Proof. unfold since_ok. by rewrite foldl_app. Qed.
Lemma run_snoc hist e : run (hist ++ [e]) = apply (run hist) e.1 e.2.
Proof. unfold run. by rewrite foldl_app. Qed.
Lemma since_ok_sub hist : sublist (since_ok hist) hist.
Proof.
  induction hist as [|e hist IH] using rev_ind; [constructor|]. rewrite since_ok_snoc.
  destruct (is_success e.1); [apply sublist_nil_l|]. by apply sublist_app.
Qed.

(** A success clears both axes. *)
Lemma tracks_reset now : tracks [] (mkHome Healthy Responsive 0 0 0 0 0 0 now false).
Proof.
  constructor; cbn; try done.
  - split; [intros _; split; [done|lia]|done].
  - by left.
  - intros r t H. by apply elem_of_nil in H.
Qed.

(** ** One more observation *)
Section Step.
  Context (s : list event) (h : HomeHealth) (t : Z).
  Hypothesis (Ht : tracks s h) (Hpast : Forall (fun e => 0 < e.2 <= t) s)
    (Hnow : 0 < t <= i64_max - AUTH_QUARANTINE_SECS) (Hlen : Z.of_nat (length s) < i64_max).

Lemma past_times (f : event -> option Z) : (forall e x, f e = Some x -> x = e.2) -> Forall (fun x => 0 < x <= t) (omap f s).
Proof.
  intros Hf. apply Forall_forall. intros x (e & He & Hx)%list_elem_of_omap. apply Hf in Hx as ->.
  rewrite Forall_forall in Hpast. by apply Hpast.
Qed.
Lemma past_deadlines : Forall (fun x => 0 < x <= t) (deadlines s).
Proof. apply past_times. intros [[] u] x; cbn; naive_solver. Qed.
Lemma past_rejections : Forall (fun x => 0 < x <= t) (rejections s).
Proof. apply past_times. intros [[] u] x; cbn; naive_solver. Qed.

Lemma first_since ts : Forall (fun x => 0 < x <= t) ts ->
  (if default 0 (head ts) =? 0 then t else default 0 (head ts)) = default t (head ts) /\ 0 < default t (head ts) <= t.
Proof.
  intros H. destruct ts as [|x ts]; cbn; [lia|]. inversion H; subst. destruct (Z.eqb_spec x 0); lia.
Qed.
Lemma corroborated_snoc n secs ts : corroborated n secs (ts ++ [t])
  = (n <=? Z.of_nat (length ts) + 1) && (secs <=? t - default t (head ts)).
Proof.
  unfold corroborated, span. rewrite last_snoc, head_snoc, length_app. cbn. f_equal. f_equal. lia.
Qed.
Lemma corroborated_mono n secs ts : Forall (fun x => 0 < x <= t) ts -> 1 <= n ->
  corroborated n secs ts = true -> corroborated n secs (ts ++ [t]) = true.
Proof.
  rewrite corroborated_snoc. unfold corroborated, span. rewrite !andb_true_iff, !Z.leb_le. intros H Hn [H1 H2].
  destruct ts as [|x ts]; cbn [length] in *; [lia|]. split; [lia|]. cbn [head default] in *.
  assert (default 0 (last (x :: ts)) <= t); [|cbn in *; lia].
  destruct (last (x :: ts)) as [y|] eqn:E; cbn; [|lia]. apply last_Some_elem_of in E.
  rewrite Forall_forall in H. by apply H.
Qed.
Lemma len_deadlines : 0 <= Z.of_nat (length (deadlines s)) < i64_max.
Proof. assert (length (deadlines s) <= length s)%nat by apply omap_length_le. lia. Qed.
Lemma len_rejections : 0 <= Z.of_nat (length (rejections s)) < i64_max.
Proof. assert (length (rejections s) <= length s)%nat by apply omap_length_le. lia. Qed.

(** The views of the extended history. *)
Lemma deadlines_snoc sig : deadlines (s ++ [(sig, t)]) = deadlines s ++ match sig with Deadline => [t] | _ => [] end.
Proof. unfold deadlines. rewrite omap_snoc. by destruct sig. Qed.
Lemma rejections_snoc sig : rejections (s ++ [(sig, t)]) = rejections s ++ match sig with AuthRejected _ => [t] | _ => [] end.
Proof. unfold rejections. rewrite omap_snoc. by destruct sig. Qed.
Lemma signals_snoc sig : transport_signals (s ++ [(sig, t)])
  = transport_signals s ++ match sig with Deadline | TransportClosed => [sig] | _ => [] end.
Proof. unfold transport_signals. rewrite omap_snoc. by destruct sig. Qed.
Lemma death_snoc sig : death_evidence (s ++ [(sig, t)])
  = death_evidence s || match sig with AuthRejected p => p || corroborated AUTH_DEAD_STREAK AUTH_DEAD_MIN_SECS (rejections s ++ [t]) | _ => false end.
Proof.
  unfold death_evidence. rewrite existsb_snoc, rejections_snoc. unfold is_permanent at 2. cbn [fst].
  destruct sig as [| | | |[]|]; rewrite ?app_nil_r, ?orb_false_r; try done.
  - destruct (existsb _ _), (corroborated _ _ (rejections s)); done.
  - destruct (corroborated _ _ (rejections s)) eqn:E; [|by destruct (existsb _ _)].
    rewrite (corroborated_mono AUTH_DEAD_STREAK _ _ past_rejections ltac:(done) E). by destruct (existsb _ _).
Qed.
Lemma wedge_snoc sig : wedge_evidence (s ++ [(sig, t)])
  = wedge_evidence s || match sig with TransportClosed => true
      | Deadline => corroborated DEADLINE_WEDGE_STREAK DEADLINE_WEDGE_MIN_SECS (deadlines s ++ [t]) | _ => false end.
Proof.
  unfold wedge_evidence. rewrite existsb_snoc, deadlines_snoc. unfold is_closed at 2. cbn [fst].
  destruct sig; rewrite ?app_nil_r, ?orb_false_r; try done.
  - destruct (corroborated _ _ (deadlines s)) eqn:E; [|by destruct (existsb _ _)].
    rewrite (corroborated_mono DEADLINE_WEDGE_STREAK _ _ past_deadlines ltac:(done) E). by destruct (existsb _ _).
  - by rewrite !orb_true_r.
Qed.
Lemma account_snoc sig : account_of (s ++ [(sig, t)])
  = match sig with
    | AuthRejected p => if p || corroborated AUTH_DEAD_STREAK AUTH_DEAD_MIN_SECS (rejections s ++ [t]) then Dead
                        else if bool_decide (account_of s = Healthy) then Suspect else account_of s
    | _ => account_of s
    end.
Proof.
  unfold account_of. rewrite death_snoc, rejections_snoc. destruct sig as [| | | |p|]; rewrite ?orb_false_r, ?app_nil_r; try done.
  rewrite (bool_decide_eq_false_2 (rejections s ++ [t] = [])) by (by destruct (rejections s)).
  destruct (p || _); [by rewrite orb_true_r|]. rewrite orb_false_r. destruct (death_evidence s); [done|].
  by destruct (bool_decide (rejections s = [])).
Qed.

(** What a [UsageLimited] observation bought is never shortened. *)
Lemma limits_kept c sig : (forall r u, (UsageLimited r, u) ∈ s -> sat_i64 (u + Z.max (default 0 r) 1) <= c) ->
  (forall r, sig = UsageLimited r -> sat_i64 (t + Z.max (default 0 r) 1) <= c) ->
  forall r u, (UsageLimited r, u) ∈ s ++ [(sig, t)] -> sat_i64 (u + Z.max (default 0 r) 1) <= c.
Proof. intros H1 H2 r u [H|H%list_elem_of_singleton]%elem_of_app; [by apply H1|]. injection H as H ->. by apply H2. Qed.
Lemma soft_kept : soft_cooling_until h <= t + AUTH_QUARANTINE_SECS.
Proof.
  pose proof (tk_soft s h Ht) as H. pose proof past_rejections as Hp.
  assert (default 0 (last (rejections s)) <= t); [|lia].
  destruct (last (rejections s)) as [x|] eqn:E; cbn; [|lia]. apply last_Some_elem_of in E.
  rewrite Forall_forall in Hp. by apply Hp.
Qed.

Lemma step_limit r : tracks (s ++ [(UsageLimited r, t)]) (apply h (UsageLimited r) t).
Proof.
  destruct Ht. constructor; cbn -[existsb death_evidence wedge_evidence]; rewrite ?deadlines_snoc, ?rejections_snoc, ?signals_snoc, ?account_snoc,
    ?wedge_snoc, ?death_snoc, ?existsb_snoc, ?orb_false_r, ?app_nil_r; try done.
  - right. cbn. by rewrite orb_true_r.
  - apply limits_kept; [intros r' u H; specialize (tk_limits0 r' u H); lia|]. intros r' [= <-]. lia.
Qed.
Lemma step_closed : tracks (s ++ [(TransportClosed, t)]) (apply h TransportClosed t).
Proof.
  destruct Ht. constructor; cbn -[existsb death_evidence wedge_evidence]; rewrite ?deadlines_snoc, ?rejections_snoc, ?signals_snoc, ?account_snoc,
    ?wedge_snoc, ?death_snoc, ?existsb_snoc, ?orb_false_r, ?app_nil_r; try done.
  - cbn. rewrite orb_true_r. naive_solver.
  - by rewrite orb_true_r.
  - right. by rewrite !orb_true_r.
  - apply limits_kept; [intros r' u H; specialize (tk_limits0 r' u H); lia|done].
Qed.
Lemma step_rejected p : tracks (s ++ [(AuthRejected p, t)]) (apply h (AuthRejected p) t).
Proof.
  pose proof len_rejections as Hl. pose proof (first_since _ past_rejections) as [Hf Hb]. pose proof soft_kept as Hs.
  destruct Ht. unfold apply. rewrite tk_first_rejection0, Hf, tk_rejections0, tk_account0.
  assert (Hw : wrap_i64 (Z.of_nat (length (rejections s)) + 1) = Z.of_nat (length (rejections s)) + 1) by (apply wrap_i64_id; width_lia).
  assert (Hd : wrap_i64 (t - default t (head (rejections s))) = t - default t (head (rejections s))) by (apply wrap_i64_id; unfold AUTH_QUARANTINE_SECS in *; width_lia).
  rewrite Hw, Hd, <- corroborated_snoc. clear Hw Hd Hf.
  set (cor := corroborated _ _ (rejections s ++ [t])). pose proof (soft_delay_bounds (Z.of_nat (length (rejections s)) + 1)) as Hsd.
  assert (Hsat : sat_i64 (t + soft_delay (Z.of_nat (length (rejections s)) + 1)) <= t + AUTH_QUARANTINE_SECS) by (unfold AUTH_QUARANTINE_SECS in *; width_lia).
  constructor; rewrite ?deadlines_snoc, ?rejections_snoc, ?signals_snoc, ?account_snoc, ?wedge_snoc, ?death_snoc, ?existsb_snoc, ?orb_false_r, ?app_nil_r;
    fold cor; destruct (p || cor) eqn:E; cbn; rewrite ?orb_false_r, ?orb_true_r; try done;
    try (rewrite length_app; cbn; lia); try (rewrite head_snoc; cbn; lia); try (rewrite last_snoc; cbn; lia);
    try (by destruct (rejections s)).
  - right. by destruct (existsb is_limit s), (wedge_evidence s).
  - apply limits_kept; [intros r' u H; specialize (tk_limits0 r' u H); lia|done].
  - apply limits_kept; [intros r' u H; specialize (tk_limits0 r' u H); lia|done].
Qed.
Lemma step_deadline : tracks (s ++ [(Deadline, t)]) (apply h Deadline t).
Proof.
  pose proof len_deadlines as Hl. pose proof (first_since _ past_deadlines) as [Hf Hb].
  destruct Ht. unfold apply. rewrite tk_first_deadline0, Hf, tk_deadlines0.
  assert (Hw : wrap_i64 (Z.of_nat (length (deadlines s)) + 1) = Z.of_nat (length (deadlines s)) + 1) by (apply wrap_i64_id; width_lia).
  assert (Hd : wrap_i64 (t - default t (head (deadlines s))) = t - default t (head (deadlines s))) by (apply wrap_i64_id; unfold AUTH_QUARANTINE_SECS in *; width_lia).
  rewrite Hw, Hd, <- corroborated_snoc. clear Hw Hd Hf. set (cor := corroborated _ _ (deadlines s ++ [t])).
  assert (Hcor : cor = true -> (2 <= length (deadlines s))%nat).
  { unfold cor. rewrite corroborated_snoc, andb_true_iff, !Z.leb_le. unfold DEADLINE_WEDGE_STREAK. lia. }
  assert (Hlim : forall c, cooling_until h <= c -> forall r u, (UsageLimited r, u) ∈ s ++ [(Deadline, t)] -> sat_i64 (u + Z.max (default 0 r) 1) <= c).
  { intros c Hc. apply limits_kept; [intros r' u H; specialize (tk_limits0 r' u H); lia|done]. }
  unfold DEADLINE_DEGRADE_STREAK. destruct cor eqn:Ec; [|destruct (Z.leb_spec 2 (Z.of_nat (length (deadlines s)) + 1))];
    constructor; rewrite ?deadlines_snoc, ?rejections_snoc, ?signals_snoc, ?account_snoc, ?wedge_snoc, ?death_snoc, ?existsb_snoc, ?orb_false_r, ?app_nil_r;
    fold cor; rewrite ?Ec; cbn; rewrite ?orb_false_r, ?orb_true_r; try done;
    try (rewrite length_app; cbn; lia); try (rewrite head_snoc; cbn; lia); try (by rewrite last_snoc); try (apply Hlim; lia);
    try (rewrite length_app; cbn; specialize (Hcor eq_refl); split; [done|intros [_ ?]; lia]).
  - by right.
  - split; [done|]. intros [_ ?]. rewrite length_app in *. cbn in *. lia.
  - rewrite tk_responsive0, length_app. cbn. split; intros [? ?]; (split; [done|lia]).
Qed.
End Step.

Lemma tracks_step s h e : tracks s h -> Forall (fun x => 0 < x.2 <= e.2) s -> 0 < e.2 <= i64_max - AUTH_QUARANTINE_SECS ->
  Z.of_nat (length s) < i64_max -> tracks (if is_success e.1 then [] else s ++ [e]) (apply h e.1 e.2).
Proof.
  intros Ht Hp Hn Hl. destruct e as [sig t]. destruct sig as [| | | |p|r]; cbn [fst snd is_success] in *.
  - apply tracks_reset. - apply tracks_reset. - by apply step_deadline. - by apply step_closed.
  - by apply step_rejected. - by apply step_limit.
Qed.
(** The state after any timed history is determined by what was seen since the last success. *)
Lemma run_tracks hist : timed hist -> tracks (since_ok hist) (run hist).
Proof.
  induction hist as [|e hist IH] using rev_ind; [intros _; apply (tracks_reset 0)|].
  intros (H1 & H2 & H3). rewrite since_ok_snoc, run_snoc. apply Forall_app in H1 as [H1 H1e].
  rewrite map_app in H2. rewrite length_app in H3. cbn in H3.
  assert (Hle : Forall (fun x => 0 < x.2 <= e.2) hist).
  { apply Forall_forall. intros x Hx. rewrite Forall_forall in H1. specialize (H1 x Hx).
    split; [lia|]. eapply (StronglySorted_app_1_elem_of Z.le); [exact H2| |by left].
    by apply list_elem_of_fmap_2. }
  rewrite Forall_singleton in H1e. apply tracks_step.
  - apply IH. split; [done|]. split; [by eapply StronglySorted_app_1_l|lia].
  - apply Forall_forall. intros x Hx. rewrite Forall_forall in Hle. apply Hle.
    eapply elem_of_sublist; [done|apply since_ok_sub].
  - done.
  - pose proof (sublist_length _ _ (since_ok_sub hist)). lia.
Qed.

(** ** Admission *)
Lemma admission_admits h limits now interval soft st :
  admission_inner h limits now interval soft = Admit st <->
  account h <> Dead /\ transport h = Responsive /\ cooling_until h <= now /\ (soft = true \/ soft_cooling_until h <= now) /\
  (forall l, limits = Some l -> freshness limits now interval = Fresh -> reached l = false) /\
  st = bool_decide (freshness limits now interval = Stale).
Proof.
  unfold admission_inner, is_cooling, is_provider_limited. cbn zeta.
  destruct (decide (account h = Dead)) as [Ha|Ha];
    [rewrite bool_decide_eq_true_2 by done; naive_solver|rewrite (bool_decide_eq_false_2 (account h = Dead)) by done].
  destruct (decide (transport h = Wedged)) as [Hw|Hw];
    [rewrite bool_decide_eq_true_2 by done; split; [done|intros (_ & ? & _); congruence]
    |rewrite (bool_decide_eq_false_2 (transport h = Wedged)) by done].
  destruct (Z.ltb_spec now (cooling_until h)); [split; [done|intros; lia]|].
  destruct (negb soft && (now <? soft_cooling_until h)) eqn:Es.
  { apply andb_true_iff in Es as [Es ?%Z.ltb_lt]. split; [done|]. intros (_ & _ & _ & [->|?] & _); [done|lia]. }
  assert (Hs : soft = true \/ soft_cooling_until h <= now).
  { apply andb_false_iff in Es as [?%negb_false_iff|?%Z.ltb_ge]; auto. }
  assert (Hend : (if bool_decide (transport h = Degraded) then Reject TransportDegraded None
      else Admit (bool_decide (freshness limits now interval = Stale))) = Admit st <->
      transport h = Responsive /\ st = bool_decide (freshness limits now interval = Stale)).
  { destruct (transport h); [|rewrite bool_decide_eq_true_2 by done; naive_solver|done].
    rewrite bool_decide_eq_false_2 by done. naive_solver. }
  destruct limits as [l|]; [|assert ((if bool_decide (freshness None now interval = Fresh) then @None LimitView else None) = None) as -> by (by case_match);
    rewrite Hend; naive_solver].
  destruct (decide (freshness (Some l) now interval = Fresh)) as [Hf|Hf].
  - rewrite (bool_decide_eq_true_2 (freshness (Some l) now interval = Fresh)) by done. destruct (reached l) eqn:El.
    + split; [done|]. intros (_ & _ & _ & _ & Hl & _). specialize (Hl l eq_refl Hf). congruence.
    + rewrite Hend. split; [intros [? ?]; split_and!; try done; congruence|naive_solver].
  - rewrite (bool_decide_eq_false_2 (freshness (Some l) now interval = Fresh)) by done. rewrite Hend.
    split; [intros [? ?]; split_and!; done|naive_solver].
Qed.

Lemma existsb_event p (s : list event) : existsb p s = true <-> exists e, e ∈ s /\ p e = true.
Proof. rewrite existsb_exists. by setoid_rewrite list_elem_of_In. Qed.
Lemma closed_seen s : existsb is_closed s = true <-> exists t, (TransportClosed, t) ∈ s.
Proof. rewrite existsb_event. split; [intros ([[] t] & He & [=]); eauto|intros [t Ht]; eauto]. Qed.
Lemma permanent_seen s : existsb is_permanent s = true <-> exists t, (AuthRejected true, t) ∈ s.
Proof. rewrite existsb_event. split; [intros ([[| | | |[]|] t] & He & [=]); eauto|intros [t Ht]; eauto]. Qed.
Lemma limit_seen s : existsb is_limit s = true <-> exists r t, (UsageLimited r, t) ∈ s.
Proof. rewrite existsb_event. split; [intros ([[] t] & He & [=]); eauto|intros (r & t & Ht); eauto]. Qed.
Lemma death_seen s : death_evidence s = true <->
  (exists t, (AuthRejected true, t) ∈ s) \/ (2 <= Z.of_nat (length (rejections s)) /\ 300 <= span (rejections s)).
Proof. unfold death_evidence, corroborated. by rewrite orb_true_iff, permanent_seen, andb_true_iff, !Z.leb_le. Qed.
Lemma wedge_seen s : wedge_evidence s = true <->
  (exists t, (TransportClosed, t) ∈ s) \/ (4 <= Z.of_nat (length (deadlines s)) /\ 60 <= span (deadlines s)).
Proof. unfold wedge_evidence, corroborated. by rewrite orb_true_iff, closed_seen, andb_true_iff, !Z.leb_le. Qed.
(** Every piece of death evidence is a rejection. *)
Lemma death_rejected s : death_evidence s = true -> rejections s <> [].
Proof.
  rewrite death_seen. intros [[t Ht]|[H _]] E; [|rewrite E in H; cbn in H; lia].
  assert (t ∈ rejections s) as Hx by (apply list_elem_of_omap; eexists; split; [exact Ht|done]).
  rewrite E in Hx. by apply elem_of_nil in Hx.
Qed.
Lemma account_dead s : account_of s = Dead <-> death_evidence s = true.
Proof. unfold account_of. destruct (death_evidence s); [done|]. by destruct (bool_decide (rejections s = [])). Qed.
Lemma account_healthy s : account_of s = Healthy <-> rejections s = [].
Proof.
  unfold account_of. destruct (death_evidence s) eqn:E; [pose proof (death_rejected s E); naive_solver|].
  case_bool_decide; naive_solver.
Qed.

(** The verdict about a Codex home is exactly what was observed since it last
    served.  The account is dead exactly after a permanent rejection or at least
    two rejections stretched over five minutes, healthy exactly without one; the
    transport is responsive exactly while it was not closed and missed fewer than
    two deadlines; a recycle is asked for whenever the last transport observation
    is a closed generation, and never without a closed one or four misses over a
    minute.  Hard cooling has such a verdict or a quota refusal behind it and is
    never shortened; soft cooling ends within the quarantine after the last
    rejection. *)
Theorem codex_health_exact (hist : list event) (Htimed : timed hist) :
  let h := run hist in
  let s := since_ok hist in
  (account h = Dead <-> (exists t, (AuthRejected true, t) ∈ s) \/
     (2 <= Z.of_nat (length (rejections s)) /\ 300 <= span (rejections s))) /\
  (account h = Healthy <-> rejections s = []) /\
  (transport h = Responsive <-> ~ (exists t, (TransportClosed, t) ∈ s) /\ (length (deadlines s) < 2)%nat) /\
  (last (transport_signals s) = Some TransportClosed -> needs_recycle h = true) /\
  (needs_recycle h = true -> (exists t, (TransportClosed, t) ∈ s) \/
     (4 <= Z.of_nat (length (deadlines s)) /\ 60 <= span (deadlines s))) /\
  (cooling_until h <> 0 -> (exists r t, (UsageLimited r, t) ∈ s) \/ account h = Dead \/ wedge_evidence s = true) /\
  (forall r t, (UsageLimited r, t) ∈ s -> sat_i64 (t + Z.max (default 0 r) 1) <= cooling_until h) /\
  soft_cooling_until h <= default 0 (last (rejections s)) + AUTH_QUARANTINE_SECS.
Proof.
  cbn zeta. destruct (run_tracks hist Htimed). unfold needs_recycle. rewrite tk_account0.
  rewrite account_dead, account_healthy, <- death_seen, <- wedge_seen, <- closed_seen, <- limit_seen, bool_decide_eq_true.
  split_and!; try done.
  - by rewrite tk_responsive0, not_true_iff_false.
  - intros Hc. destruct tk_hard0 as [|H]; [done|]. rewrite !orb_true_iff in H. tauto.
Qed.

(** Nothing we merely inferred can empty the Codex plane.  In the last-resort
    pass a home is refused only if, since it last served, the provider declared
    it dead or refused it on quota, or its transport closed or missed two
    deadlines - or a current snapshot states an exhausted limit; a rejection we
    did not see corroborated never refuses it.  The ordinary pass agrees with the
    last-resort one again no later than the quarantine after the last rejection,
    and stale evidence never refuses in either. *)
Theorem codex_last_resort (hist : list event) (limits : option LimitView) (now interval : Z) (Htimed : timed hist)
    (Hnow : 0 <= now) :
  let h := run hist in
  let s := since_ok hist in
  (is_admitted (admission_ignoring_soft_cooling h limits now interval) = false ->
     death_evidence s = true \/ (exists r t, (UsageLimited r, t) ∈ s) \/ wedge_evidence s = true \/
     (2 <= length (deadlines s))%nat \/ exists l, limits = Some l /\ reached l = true /\ freshness limits now interval = Fresh) /\
  (default 0 (last (rejections s)) + AUTH_QUARANTINE_SECS <= now ->
     admission h limits now interval = admission_ignoring_soft_cooling h limits now interval) /\
  (is_admitted (admission h limits now interval) = true ->
     admission h limits now interval = admission_ignoring_soft_cooling h limits now interval).
Proof.
  cbn zeta. destruct (run_tracks hist Htimed). split_and!.
  - intros Hr. destruct (death_evidence (since_ok hist)) eqn:Ed; [by left|].
    destruct (existsb is_limit (since_ok hist)) eqn:El; [right; left; by apply limit_seen|].
    destruct (wedge_evidence (since_ok hist)) eqn:Ew; [by do 2 right; left|].
    destruct (decide (2 <= length (deadlines (since_ok hist)))%nat); [by do 3 right; left|]. do 4 right.
    destruct tk_hard0 as [Hz|H]; [|done].
    destruct (match limits with Some l => reached l && bool_decide (freshness limits now interval = Fresh) | None => false end) eqn:E.
    { destruct limits as [l|]; [|done]. apply andb_true_iff in E as [? ?%bool_decide_eq_true]. eauto. }
    exfalso. enough (admission_ignoring_soft_cooling (run hist) limits now interval
      = Admit (bool_decide (freshness limits now interval = Stale))) as Ha by (by rewrite Ha in Hr).
    apply admission_admits. split_and!; [|apply tk_responsive0; split; [|lia]|lia|by left| |done].
    + rewrite tk_account0, account_dead. by rewrite Ed.
    + unfold wedge_evidence in Ew. by apply orb_false_iff in Ew as [? _].
    + intros l -> Hf. apply andb_false_iff in E as [|Hn%bool_decide_eq_false]; [done|]. by destruct Hn.
  - intros Hq. unfold admission, admission_ignoring_soft_cooling, admission_inner. cbn [negb andb].
    assert ((now <? soft_cooling_until (run hist)) = false) as -> by (apply Z.ltb_ge; lia). done.
  - unfold admission, admission_ignoring_soft_cooling. destruct (admission_inner _ _ _ _ false) as [st|] eqn:E; [|done].
    intros _. symmetry. apply admission_admits. apply admission_admits in E. naive_solver.
Qed.

(** The durable slice round-trips through its stored spelling and a restart: the
    account verdict survives, the transport starts afresh. *)
Lemma durable_restored h : 0 <= cooling_until h ->
  account_from_str (account_as_str (account h)) = account h /\
  durable (restore HomeHealth_new (durable h)) = durable h /\
  transport (restore HomeHealth_new (durable h)) = Responsive.
Proof.
  intros Hc. unfold restore, durable. cbn [cooling_until HomeHealth_new d_cooling_until]. rewrite Z.max_r by done.
  by destruct h as [[] ? ? ? ? ? c ? ? ?].
Qed.

(** ** Concrete histories *)
Definition demo_history : list event :=
  [(TurnOk, 1000); (AuthRejected false, 1010); (UsageLimited (Some 30), 1020); (AuthRejected false, 1400)].
Example demo_dead : account (run demo_history) = Dead /\ cooling_until (run demo_history) = 2300.
Proof. vm_compute. auto. Qed.
(** A closed generation asks for a recycle; a deadline miss that follows a first
    one takes the request back without a success in between. *)
Example deadline_withdraws_recycle :
  needs_recycle (run [(Deadline, 100); (TransportClosed, 110)]) = true /\
  needs_recycle (run [(Deadline, 100); (TransportClosed, 110); (Deadline, 120)]) = false.
Proof. vm_compute. auto. Qed.

Lemma demo_timed : timed demo_history.
Proof.
  split_and!; [apply (bool_decide_unpack _); vm_compute; exact I| |vm_compute; discriminate].
  cbn. repeat constructor; vm_compute; discriminate.
Qed.
Lemma codex_health_exact_witness :
  account (run demo_history) = Dead <-> (exists t, (AuthRejected true, t) ∈ since_ok demo_history) \/
    (2 <= Z.of_nat (length (rejections (since_ok demo_history))) /\ 300 <= span (rejections (since_ok demo_history))).
Proof. apply (codex_health_exact demo_history demo_timed). Defined.
Lemma codex_last_resort_witness :
  admission (run demo_history) None 2400 60 = admission_ignoring_soft_cooling (run demo_history) None 2400 60.
Proof.
  destruct (codex_last_resort demo_history None 2400 60 demo_timed) as (_ & H & _); [lia|].
  apply H. vm_compute. discriminate.
Defined.
