(* ===== verification/CodexPool.v ===== *)
(** * The Codex pool

    Selection of a home and rotation of a turn
    ([crates/forward/src/codex/mod.rs], [runner.rs], [transport.rs]): the
    candidates of a pass, the two relaxed passes, the ordering with its rotation
    cursor, affinity and cache roots, the forced refresh of a rejected token on one
    home, and the rotation over homes with its retry budget, quiet waits and
    external fallback.

    The soft reserve compares binary floating-point shares of a window; whether a
    window is over its cap is an argument ([over_cap]), and so are the clock, the
    rosters and the answers of the upstream. *)
From S2P Require Import Prelude Waits CodexHealth.

(** ** Windows and limits ([transport.rs]) *)
Record CodexRateLimitWindow := mkWindow {
  used_fraction_units : Z; used_percent : Z; window_duration_mins : option Z; resets_at : option Z }.
Record CodexRateLimits := mkRateLimits {
  primary : option CodexRateLimitWindow; secondary : option CodexRateLimitWindow;
  rl_reached : bool; rl_observed_at : Z }.
Definition windows (l : CodexRateLimits) : list CodexRateLimitWindow := option_list (primary l) ++ option_list (secondary l).
Definition min_of (l : list Z) : option Z :=
  match l with [] => None | x :: l => Some (foldl Z.min x l) end.
Definition rl_max_used_percent (l : CodexRateLimits) : option Z := max_of (map used_percent (windows l)).
Definition soonest_reset_at_or_above (l : CodexRateLimits) (threshold_percent : Z) : option Z :=
  min_of (omap resets_at (List.filter (fun w => threshold_percent <=? used_percent w) (windows l))).
Definition limit_view (limits : option CodexRateLimits) : option LimitView :=
  (fun l => mkLimits (rl_reached l) (rl_max_used_percent l) (rl_observed_at l) (soonest_reset_at_or_above l 100)) <$> limits.
Definition within_provider_limit (limits : option CodexRateLimits) : bool :=
  match limits with None => true | Some l => negb (rl_reached l) end.

(** ** Ordering signals ([mod.rs]) *)
Definition QUOTA_STEER_FLOOR_PERCENT : Z := 50.
Definition QUOTA_STEER_BUCKET_PERCENT : Z := 10.
Definition CACHE_ROOT_MIN_WARM_HOMES : Z := 2.
Definition quota_rank (used : option Z) : Z :=
  Z.quot (Z.max (sat_i64 (default 0 used - QUOTA_STEER_FLOOR_PERCENT)) 0) QUOTA_STEER_BUCKET_PERCENT.
Definition fast_rank_of (catalog_available catalog_fast_supported : option bool) : Z :=
  match catalog_available, catalog_fast_supported with
  | Some true, Some true => 0
  | None, _ => 1
  | Some true, _ => 2
  | Some false, _ => 3
  end.
Record CodexModelCatalog := mkCatalog { models : gset string; fast_models : gset string }.
Record CodexHome := mkCodexHome {
  home_id : string; home_order : Z; home_retired : bool; home_health : HomeHealth;
  home_limits : option CodexRateLimits; home_inflight : Z;
  calibration_persistence_ok : bool; calibration_dropped_events : Z; credit_tracking_started_ts : Z;
  model_catalog : option CodexModelCatalog }.
Definition fast_route_rank (h : CodexHome) (model : string) : Z :=
  let available := (fun c => bool_decide (model ∈ models c)) <$> model_catalog h in
  let supported := c ← model_catalog h;
                   if bool_decide (model ∈ models c) then Some (bool_decide (model ∈ fast_models c)) else None in
  fast_rank_of available supported.
Definition calibration_seed_rank (h : CodexHome) : Z :=
  if calibration_persistence_ok h && (calibration_dropped_events h =? 0) && (credit_tracking_started_ts h =? 0) then 0 else 1.

(** The window reserve of a pass: the configured one or [WindowReserve::FULL]. *)
Inductive WindowReserve : Type := Configured | FULL.
Inductive HomeSelection : Type := Ready (id : string) | Unavailable (ready_at : option Z).
Definition min_ready (soonest : option Z) (ready_at : Z) : option Z :=
  Some (match soonest with Some v => Z.min v ready_at | None => ready_at end).

Section Select.
  (** Window [w] of home [id] is over its cap in a pass at [now], with a snapshot
      observed at the last argument ([used_fraction() > window_cap_at(..)]). *)
  Context (over_cap : WindowReserve -> string -> Z -> Z -> CodexRateLimitWindow -> bool).
  Context (probe_interval_secs : Z) (configured_is_full : bool).

Definition reserve_blocked (limits : option CodexRateLimits) (id : string) (reserve : WindowReserve) (now : Z) : option Z :=
  l ← limits; min_of (omap resets_at (List.filter (over_cap reserve id now (rl_observed_at l)) (windows l))).

Record candidate := mkCandidate {
  c_fast : Z; c_stale : bool; c_inflight : Z; c_seed : Z; c_used : Z; c_home : CodexHome }.
Definition candidate_of (h : CodexHome) (stale : bool) (fast_model : option string) : candidate :=
  mkCandidate (match fast_model with Some m => fast_route_rank h m | None => 0 end) stale (home_inflight h)
    (calibration_seed_rank h) (quota_rank (home_limits h ≫= rl_max_used_percent)) h.
Definition candidates_step (exclude : list string) (now : Z) (reserve : WindowReserve) (fast_model : option string)
    (ignore_soft_cooling : bool) (acc : list candidate * option Z) (h : CodexHome) : list candidate * option Z :=
  let '(candidates, soonest) := acc in
  if home_retired h then acc
  else if bool_decide (home_id h ∈ exclude) then acc
  else
    match admission_inner (home_health h) (limit_view (home_limits h)) now probe_interval_secs ignore_soft_cooling with
    | Admit snapshot_stale =>
        match reserve_blocked (home_limits h) (home_id h) reserve now with
        | Some blocked_until => (candidates, min_ready soonest blocked_until)
        | None => (candidates ++ [candidate_of h snapshot_stale fast_model], soonest)
        end
    | Reject _ (Some ready_at) => (candidates, min_ready soonest ready_at)
    | Reject _ None => acc
    end.
Definition selection_candidates (homes : list CodexHome) (exclude : list string) (now : Z) (reserve : WindowReserve)
    (fast_model : option string) (ignore_soft_cooling : bool) : list candidate * option Z :=
  foldl (candidates_step exclude now reserve fast_model ignore_soft_cooling) ([], None) homes.

(** The three passes: within the reserve, up to the provider's wall, and without
    the cooling we inferred. *)
Definition relaxed_pass (homes : list CodexHome) (exclude : list string) (now : Z) (fast_model : option string)
    (ignore_soft_cooling : bool) (acc : list candidate * option Z) : list candidate * option Z :=
  match acc with
  | ([], soonest) =>
      let '(relaxed, relaxed_soonest) := selection_candidates homes exclude now FULL fast_model ignore_soft_cooling in
      match relaxed with
      | [] => ([], match relaxed_soonest with Some _ => relaxed_soonest | None => soonest end)
      | _ :: _ => (relaxed, soonest)
      end
  | _ => acc
  end.
Definition passes (homes : list CodexHome) (exclude : list string) (now : Z) (fast_model : option string)
    : list candidate * option Z :=
  let first := selection_candidates homes exclude now Configured fast_model false in
  let second := if configured_is_full then first else relaxed_pass homes exclude now fast_model false first in
  relaxed_pass homes exclude now fast_model true second.

Definition candidate_key (preferred : option string) (width cursor : Z) (c : candidate) : list Z :=
  [c_fast c; Z.b2z (c_stale c); c_inflight c; match preferred with None => c_seed c | Some _ => 0 end; c_used c;
   wrap_u64 (wrap_u64 (home_order (c_home c) + width) - cursor) mod width].
Definition c_id (c : candidate) : string := home_id (c_home c).
Definition is_warm (warm : list string) (c : candidate) : bool := bool_decide (c_id c ∈ warm).

(** The choice a conversation or a cache root makes ahead of the ordering. *)
Definition primary_choice (preferred : option string) (warm : list string) (place_cache_root : bool) (best : Z)
    (candidates : list candidate) : list candidate :=
  match preferred with
  | Some id => option_list (List.find (fun c => (c_fast c =? best) && bool_decide (c_id c = id)) candidates)
  | None =>
      if place_cache_root then
        let warm_count := Z.of_nat (length (List.filter (fun c => (c_fast c =? best) && is_warm warm c) candidates)) in
        let wanted := if warm_count <? CACHE_ROOT_MIN_WARM_HOMES then fun c => (c_fast c =? best) && negb (is_warm warm c)
                      else fun c => (c_fast c =? best) && is_warm warm c in
        option_list (match List.find wanted candidates with Some c => Some c | None => head candidates end)
      else []
  end.
Definition push_new (ordered : list candidate) (c : candidate) : list candidate :=
  if bool_decide (c_id c ∈ map c_id ordered) then ordered else ordered ++ [c].
Definition ordering (preferred : option string) (warm : list string) (place_cache_root : bool) (candidates : list candidate)
    : list candidate :=
  match candidates with
  | [] => []
  | first :: _ =>
      let best := c_fast first in
      let chosen := primary_choice preferred warm place_cache_root best candidates in
      let spilled := if place_cache_root
                     then foldl push_new chosen (List.filter (fun c => (c_fast c =? best) && is_warm warm c) candidates)
                     else chosen in
      foldl push_new spilled candidates
  end.

(** [acquire] is whether a home's turn slot can still be taken. *)
Definition select_home (shutting_down : bool) (homes : list CodexHome) (exclude : list string) (preferred : option string)
    (warm : list string) (place_cache_root : bool) (cursor : Z) (fast_model : option string) (now : Z)
    (acquire : string -> bool) : HomeSelection :=
  if shutting_down then Unavailable None
  else
    let '(candidates, soonest) := passes homes exclude now fast_model in
    let width := Z.max (Z.of_nat (length homes)) 1 in
    let sorted := sort_by (candidate_key preferred width (cursor mod width)) candidates in
    match List.find (fun c => acquire (c_id c)) (ordering preferred warm place_cache_root sorted) with
    | Some c => Ready (c_id c)
    | None => Unavailable soonest
    end.

(** ** Properties of a selection *)
(** A home serves in a pass. *)
Definition serves (exclude : list string) (now : Z) (reserve : WindowReserve) (soft : bool) (h : CodexHome) : Prop :=
  home_retired h = false /\ (home_id h ∉ exclude) /\
  is_admitted (admission_inner (home_health h) (limit_view (home_limits h)) now probe_interval_secs soft) = true /\
  reserve_blocked (home_limits h) (home_id h) reserve now = None.
Definition pass_candidate (exclude : list string) (now : Z) (reserve : WindowReserve) (fast_model : option string) (soft : bool)
    (h : CodexHome) : option candidate :=
  if home_retired h || bool_decide (home_id h ∈ exclude) then None
  else match admission_inner (home_health h) (limit_view (home_limits h)) now probe_interval_secs soft with
       | Admit st => match reserve_blocked (home_limits h) (home_id h) reserve now with
                     | None => Some (candidate_of h st fast_model) | Some _ => None end
       | Reject _ _ => None
       end.
Lemma pass_candidate_Some exclude now reserve fast soft h c : pass_candidate exclude now reserve fast soft h = Some c ->
  serves exclude now reserve soft h /\ c_home c = h.
Proof.
  unfold pass_candidate, serves. destruct (home_retired h); [done|]. cbn. case_bool_decide; [done|].
  destruct (admission_inner _ _ _ _ _) as [st|]; [|done]. destruct (reserve_blocked _ _ _ _); [done|]. intros [= <-]. done.
Qed.
Lemma pass_candidate_serves exclude now reserve fast soft h : serves exclude now reserve soft h ->
  exists c, pass_candidate exclude now reserve fast soft h = Some c.
Proof.
  unfold pass_candidate. intros (-> & Hn & Ha & ->). cbn. rewrite bool_decide_eq_false_2 by done.
  destruct (admission_inner _ _ _ _ _); [eauto|done].
Qed.
Lemma selection_candidates_omap homes exclude now reserve fast soft :
  (selection_candidates homes exclude now reserve fast soft).1 = omap (pass_candidate exclude now reserve fast soft) homes.
Proof.
  unfold selection_candidates. assert (H : forall acc, (foldl (candidates_step exclude now reserve fast soft) acc homes).1
    = acc.1 ++ omap (pass_candidate exclude now reserve fast soft) homes); [|by rewrite H].
  induction homes as [|h homes IH]; intros [cs so]; cbn [foldl omap list_omap]; [by rewrite app_nil_r|].
  rewrite IH. unfold candidates_step, pass_candidate. cbn [fst].
  destruct (home_retired h); cbn [orb fst]; [done|]. case_bool_decide; [done|].
  destruct (admission_inner _ _ _ _ _) as [st|re [ra|]]; cbn [fst]; try done.
  destruct (reserve_blocked _ _ _ _); cbn [fst]; [done|]. by rewrite <- app_assoc.
Qed.
Definition pass (homes : list CodexHome) (exclude : list string) (now : Z) (fast : option string) (reserve : WindowReserve) (soft : bool)
  : list candidate := omap (pass_candidate exclude now reserve fast soft) homes.
Lemma pass_nil homes exclude now fast reserve soft :
  pass homes exclude now fast reserve soft = [] <-> forall h, h ∈ homes -> ~ serves exclude now reserve soft h.
Proof.
  unfold pass. split.
  - intros E h Hh Hs. destruct (pass_candidate_serves exclude now reserve fast soft h Hs) as [c Hc].
    assert (c ∈ omap (pass_candidate exclude now reserve fast soft) homes) as Hx by (apply list_elem_of_omap; eauto).
    rewrite E in Hx. by apply elem_of_nil in Hx.
  - intros Hn. destruct (omap _ homes) as [|c l] eqn:E; [done|].
    assert (c ∈ omap (pass_candidate exclude now reserve fast soft) homes) as (h & Hh & Hc)%list_elem_of_omap by (rewrite E; left).
    apply pass_candidate_Some in Hc as [Hs _]. by destruct (Hn h Hh).
Qed.
(** The candidates are those of the first pass that has any. *)
Lemma passes_first homes exclude now fast :
  (passes homes exclude now fast).1
  = match pass homes exclude now fast Configured false with
    | [] => match (if configured_is_full then [] else pass homes exclude now fast FULL false) with
            | [] => pass homes exclude now fast FULL true | l => l end
    | l => l
    end.
Proof.
  unfold passes, relaxed_pass, pass. rewrite <- !selection_candidates_omap.
  destruct (selection_candidates homes exclude now Configured fast false) as [k1 s1],
    (selection_candidates homes exclude now FULL fast false) as [k2 s2],
    (selection_candidates homes exclude now FULL fast true) as [k3 s3].
  by destruct k1, configured_is_full, k2, k3.
Qed.
Lemma passes_serves homes exclude now fast c : c ∈ (passes homes exclude now fast).1 ->
  exists reserve soft, serves exclude now reserve soft (c_home c) /\ c_home c ∈ homes /\
    ((reserve, soft) = (Configured, false) \/ forall h, h ∈ homes -> ~ serves exclude now Configured false h).
Proof.
  assert (Hin : forall reserve soft, c ∈ pass homes exclude now fast reserve soft -> serves exclude now reserve soft (c_home c) /\ c_home c ∈ homes).
  { intros reserve soft (h & Hh & Hc)%list_elem_of_omap. apply pass_candidate_Some in Hc as [Hs <-]. done. }
  rewrite passes_first. destruct (pass _ _ _ _ Configured false) as [|x l] eqn:E1.
  - rewrite pass_nil in E1. destruct (if configured_is_full then _ else _) as [|x l] eqn:E2.
    + intros H%Hin. exists FULL, true. naive_solver.
    + destruct configured_is_full; [done|]. rewrite <- E2. intros H%Hin. exists FULL, false. naive_solver.
  - rewrite <- E1. intros H%Hin. exists Configured, false. naive_solver.
Qed.
Lemma passes_NoDup homes exclude now fast : NoDup (map home_id homes) -> NoDup (map c_id (passes homes exclude now fast).1).
Proof.
  intros Hn. assert (H : forall reserve soft, sublist (map c_id (pass homes exclude now fast reserve soft)) (map home_id homes)).
  { intros reserve soft. unfold pass. clear Hn. induction homes as [|h homes IH]; cbn; [constructor|].
    destruct (pass_candidate _ _ _ _ _ h) as [c|] eqn:E; cbn; [|by constructor].
    apply pass_candidate_Some in E as [_ <-]. by constructor. }
  rewrite passes_first. destruct (pass _ _ _ _ Configured false) eqn:E1; [|rewrite <- E1; by eapply sublist_NoDup].
  destruct configured_is_full; [by eapply sublist_NoDup|].
  destruct (pass _ _ _ _ FULL false) eqn:E2; [by eapply sublist_NoDup|rewrite <- E2; by eapply sublist_NoDup].
Qed.

Lemma push_new_elem acc l c : c ∈ foldl push_new acc l -> c ∈ acc \/ c ∈ l.
Proof.
  revert acc. induction l as [|x l IH]; intros acc; cbn; [by left|]. intros [H|H]%IH; [|right; by right].
  unfold push_new in H. case_bool_decide; [by left|]. apply elem_of_app in H as [H|H%list_elem_of_singleton]; [by left|].
  subst. right. left.
Qed.
Lemma push_new_ids acc l i : i ∈ map c_id acc \/ i ∈ map c_id l -> i ∈ map c_id (foldl push_new acc l).
Proof.
  revert acc. induction l as [|x l IH]; intros acc; cbn; [intros [H|H]; [done|by apply elem_of_nil in H]|].
  intros H. apply IH. unfold push_new. case_bool_decide as Hx.
  - destruct H as [H|[->|H]%elem_of_cons]; auto.
  - rewrite map_app, elem_of_app. destruct H as [H|[->|H]%elem_of_cons]; auto. left. right. by left.
Qed.
Lemma push_new_prefix acc l : exists k, foldl push_new acc l = acc ++ k.
Proof.
  revert acc. induction l as [|x l IH]; intros acc; cbn; [exists []; by rewrite app_nil_r|].
  destruct (IH (push_new acc x)) as [k ->]. unfold push_new. case_bool_decide; [eauto|]. exists (x :: k). by rewrite <- app_assoc.
Qed.
Lemma push_new_all acc l : NoDup (map c_id (acc ++ l)) -> foldl push_new acc l = acc ++ l.
Proof.
  revert acc. induction l as [|x l IH]; intros acc Hn; cbn; [by rewrite app_nil_r|].
  unfold push_new at 2. rewrite bool_decide_eq_false_2.
  - rewrite IH; rewrite <- app_assoc; done.
  - rewrite map_app in Hn. cbn in Hn. apply NoDup_app in Hn as (_ & Hn & _). intros Hx. apply (Hn _ Hx). left.
Qed.

Lemma primary_choice_elem preferred warm root best l c : c ∈ primary_choice preferred warm root best l -> c ∈ l.
Proof.
  assert (Hf : forall p, List.find p l = Some c -> c ∈ l) by (intros p [H _]%List.find_some; by apply list_elem_of_In).
  unfold primary_choice. destruct preferred as [id|].
  - destruct (List.find _ l) eqn:E; cbn; [|by intros ?%elem_of_nil]. intros ->%list_elem_of_singleton. by eapply Hf.
  - destruct root; [|by intros ?%elem_of_nil]. destruct (List.find _ l) eqn:E; cbn.
    + intros ->%list_elem_of_singleton. by eapply Hf.
    + destruct l as [|x l]; cbn; [by intros ?%elem_of_nil|]. intros ->%list_elem_of_singleton. left.
Qed.
Lemma ordering_elem preferred warm root l c : c ∈ ordering preferred warm root l -> c ∈ l.
Proof.
  unfold ordering. destruct l as [|x l0] eqn:El; [done|]. rewrite <- El.
  intros [H|H]%push_new_elem; [|done]. destruct root; [apply push_new_elem in H as [H|[H _]%elem_of_lfilter]; [|done]|];
    by apply primary_choice_elem in H.
Qed.
Lemma ordering_ids preferred warm root l i : i ∈ map c_id l -> i ∈ map c_id (ordering preferred warm root l).
Proof. unfold ordering. destruct l; [done|]. intros H. apply push_new_ids. by right. Qed.
Lemma ordering_plain warm l : NoDup (map c_id l) -> ordering None warm false l = l.
Proof. unfold ordering. destruct l; [done|]. intros H. by apply (push_new_all [] _). Qed.
Lemma ordering_preferred id warm root l c : l <> [] ->
  List.find (fun c => (c_fast c =? default 0 (c_fast <$> head l)) && bool_decide (c_id c = id)) l = Some c ->
  exists k, ordering (Some id) warm root l = c :: k.
Proof.
  destruct l as [|x l]; [done|]. intros _ Hf. unfold ordering, primary_choice. cbn [head fmap option_fmap option_map default] in Hf. cbn -[List.find] in Hf.
  cbn zeta. rewrite Hf. cbn [option_list].
  destruct root; repeat match goal with |- context [foldl push_new ?a ?f] =>
    lazymatch a with context [foldl] => fail | _ => let k := fresh "k" in destruct (push_new_prefix a f) as [k ->] end end; by eexists.
Qed.

Lemma select_home_unfold homes exclude preferred warm root cursor fast now acquire :
  let width := Z.max (Z.of_nat (length homes)) 1 in
  let sorted := sort_by (candidate_key preferred width (cursor mod width)) (passes homes exclude now fast).1 in
  select_home false homes exclude preferred warm root cursor fast now acquire
  = match List.find (fun c => acquire (c_id c)) (ordering preferred warm root sorted) with
    | Some c => Ready (c_id c) | None => Unavailable (passes homes exclude now fast).2 end.
Proof. cbn zeta. unfold select_home. by destruct (passes homes exclude now fast). Qed.
Lemma find_acquire (acquire : string -> bool) l : 
  List.find (fun c => acquire (c_id c)) l = None <-> forall i, i ∈ map c_id l -> acquire i = false.
Proof.
  split.
  - intros Hf i (c & -> & Hc)%list_elem_of_fmap. apply (List.find_none _ _ Hf). by apply list_elem_of_In.
  - intros Ha. destruct (List.find _ l) as [c|] eqn:E; [|done]. apply List.find_some in E as [Hc%list_elem_of_In Hx].
    rewrite Ha in Hx; [done|]. by apply list_elem_of_fmap_2.
Qed.
Lemma ordering_same_ids preferred warm root key l i :
  i ∈ map c_id (ordering preferred warm root (sort_by key l)) <-> i ∈ map c_id l.
Proof.
  destruct (sort_by_spec key l) as [Hp _]. split.
  - intros (c & -> & Hc)%list_elem_of_fmap. apply ordering_elem in Hc. rewrite Hp in Hc. by apply list_elem_of_fmap_2.
  - intros H. apply ordering_ids. by rewrite Hp.
Qed.
Lemma ready_elem homes exclude preferred warm root cursor fast now acquire id :
  select_home false homes exclude preferred warm root cursor fast now acquire = Ready id ->
  acquire id = true /\ id ∈ map c_id (passes homes exclude now fast).1.
Proof.
  rewrite select_home_unfold. destruct (List.find _ _) as [c|] eqn:E; [|done]. intros [= <-].
  apply List.find_some in E as [Hc%list_elem_of_In Ha]. split; [done|].
  eapply ordering_same_ids, list_elem_of_fmap_2, Hc.
Qed.
Lemma last_resort_admits h limits now interval soft :
  is_admitted (admission_inner h limits now interval soft) = true ->
  is_admitted (admission_ignoring_soft_cooling h limits now interval) = true.
Proof.
  destruct (admission_inner _ _ _ _ soft) as [st|] eqn:E; [|done]. intros _.
  apply admission_admits in E as (H1 & H2 & H3 & _ & H5 & H6). unfold admission_ignoring_soft_cooling.
  rewrite (proj2 (admission_admits h limits now interval true st)); [done|]. naive_solver.
Qed.
(** Without a Fast request every candidate is in the same class. *)
Lemma passes_fast homes exclude now c : c ∈ (passes homes exclude now None).1 -> c_fast c = 0.
Proof.
  assert (H : forall reserve soft, c ∈ pass homes exclude now None reserve soft -> c_fast c = 0).
  { intros reserve soft (h & _ & Hc)%list_elem_of_omap. unfold pass_candidate in Hc. destruct (_ || _); [done|].
    destruct (admission_inner _ _ _ _ _); [|done]. destruct (reserve_blocked _ _ _ _); [done|]. by injection Hc as <-. }
  rewrite passes_first. destruct (pass _ _ _ _ Configured false) eqn:E1; [|rewrite <- E1; apply H].
  destruct configured_is_full; [apply H|]. destruct (pass _ _ _ _ FULL false) eqn:E2; [apply H|rewrite <- E2; apply H].
Qed.
Lemma passes_nil homes exclude now fast : (passes homes exclude now fast).1 = [] <->
  forall h, h ∈ homes -> ~ serves exclude now Configured false h /\ (configured_is_full = false -> ~ serves exclude now FULL false h) /\
    ~ serves exclude now FULL true h.
Proof.
  rewrite passes_first. assert (Hp := pass_nil homes exclude now fast).
  destruct (pass homes exclude now fast Configured false) as [|x l] eqn:E1.
  - rewrite Hp in E1. destruct configured_is_full; [rewrite Hp; naive_solver|].
    destruct (pass homes exclude now fast FULL false) as [|x l] eqn:E2; [rewrite Hp in E2 |- *; naive_solver|].
    split; [done|]. intros Hn. exfalso. enough (pass homes exclude now fast FULL false = []) by congruence. apply Hp. naive_solver.
  - split; [done|]. intros Hn. exfalso. enough (pass homes exclude now fast Configured false = []) by congruence. apply Hp. naive_solver.
Qed.

(** A Codex home is chosen honestly.  With every slot free a request is
    refused exactly when no home that was not tried serves in any pass; a chosen
    home is in the roster, untried, not retired, its slot was taken, and the
    last-resort admission accepts it - if it does not serve within its reserve
    and outside all cooling, no home did.  A conversation stays on its home
    whenever that home serves, and without affinity the choice is minimal in the
    ordering among the homes whose slot can be taken. *)
Theorem codex_select_exact (homes : list CodexHome) (exclude : list string) (preferred : option string) (warm : list string)
    (root : bool) (cursor : Z) (fast : option string) (now : Z) (acquire : string -> bool) (Hids : NoDup (map home_id homes)) :
  let r := select_home false homes exclude preferred warm root cursor fast now acquire in
  ((forall id, acquire id = true) -> ((exists ready_at, r = Unavailable ready_at) <->
     forall h, h ∈ homes -> ~ serves exclude now Configured false h /\
       (configured_is_full = false -> ~ serves exclude now FULL false h) /\ ~ serves exclude now FULL true h)) /\
  (forall id, r = Ready id -> exists h, h ∈ homes /\ home_id h = id /\ home_retired h = false /\ (id ∉ exclude) /\ acquire id = true /\
     is_admitted (admission_ignoring_soft_cooling (home_health h) (limit_view (home_limits h)) now probe_interval_secs) = true /\
     (serves exclude now Configured false h \/ forall h', h' ∈ homes -> ~ serves exclude now Configured false h')) /\
  (forall h, h ∈ homes -> preferred = Some (home_id h) -> fast = None -> serves exclude now Configured false h ->
     acquire (home_id h) = true -> r = Ready (home_id h)) /\
  (forall id, preferred = None -> root = false -> r = Ready id ->
     exists c, c ∈ (passes homes exclude now fast).1 /\ c_id c = id /\
       forall c', c' ∈ (passes homes exclude now fast).1 -> acquire (c_id c') = true ->
         let width := Z.max (Z.of_nat (length homes)) 1 in
         lex_le (candidate_key None width (cursor mod width) c) (candidate_key None width (cursor mod width) c') = true).
Proof.
  cbn zeta. split_and!.
  - intros Ha. rewrite <- (passes_nil homes exclude now fast), select_home_unfold.
    destruct (List.find _ _) as [c|] eqn:E.
    + split; [by intros [? [=]]|]. intros Hn. apply List.find_some in E as [Hc%list_elem_of_In _].
      apply (list_elem_of_fmap_2 c_id), ordering_same_ids in Hc. rewrite Hn in Hc. by apply elem_of_nil in Hc.
    + split; [|eauto]. intros _. pose proof (proj1 (find_acquire acquire _) E) as H.
      destruct (passes _ _ _ _).1 as [|c l] eqn:Ep; [done|]. exfalso.
      assert (acquire (c_id c) = false) by (apply H, ordering_same_ids; left). by rewrite Ha in *.
  - intros id [Ha (c & -> & Hc)%list_elem_of_fmap]%ready_elem.
    destruct (passes_serves _ _ _ _ _ Hc) as (reserve & soft & Hs & Hh & Ht). exists (c_home c).
    destruct Hs as (H1 & H2 & H3 & H4). split_and!; try done; [by eapply last_resort_admits|].
    destruct Ht as [[= -> ->]|Ht]; [left; by split_and!|by right].
  - intros h Hh -> -> Hs Ha. rewrite select_home_unfold.
    destruct (pass_candidate_serves exclude now Configured None false h Hs) as [c Hc].
    assert (Hin : c ∈ (passes homes exclude now None).1).
    { rewrite passes_first. assert (Hp : c ∈ pass homes exclude now None Configured false) by (apply list_elem_of_omap; eauto).
      destruct (pass homes exclude now None Configured false); [by apply elem_of_nil in Hp|done]. }
    apply pass_candidate_Some in Hc as [_ Hc].
    set (key := candidate_key _ _ _). destruct (sort_by_spec key (passes homes exclude now None).1) as [Hp _].
    set (l := sort_by key _) in *. assert (Hcl : c ∈ l) by (by rewrite Hp).
    assert (Hbest : forall x, x ∈ l -> (c_fast x =? default 0 (c_fast <$> head l)) = true).
    { intros x Hx. apply Z.eqb_eq. rewrite Hp in Hx. rewrite (passes_fast _ _ _ _ Hx).
      destruct l as [|y l0] eqn:El; [done|]. cbn. symmetry. eapply (passes_fast homes exclude now). rewrite <- Hp. left. }
    destruct (List.find (fun x => (c_fast x =? default 0 (c_fast <$> head l)) && bool_decide (c_id x = home_id h)) l) as [y|] eqn:Ey.
    2:{ pose proof (List.find_none _ _ Ey c ltac:(by apply list_elem_of_In)) as Hx. cbn beta in Hx.
        rewrite (Hbest c Hcl), bool_decide_eq_true_2 in Hx; [done|]. unfold c_id. by rewrite Hc. }
    destruct (ordering_preferred (home_id h) warm root l y) as [k ->]; [intros El; rewrite El in Hcl; by apply elem_of_nil in Hcl|done|].
    apply List.find_some in Ey as [_ [_ Hid%bool_decide_eq_true]%andb_true_iff]. cbn [List.find]. rewrite Hid, Ha. by rewrite Hid.
  - intros id -> ->. rewrite select_home_unfold, ordering_plain.
    2:{ destruct (sort_by_spec (candidate_key None (Z.of_nat (length homes) `max` 1) (cursor mod (Z.of_nat (length homes) `max` 1)))
          (passes homes exclude now fast).1) as [Hp _]. rewrite Hp. by apply passes_NoDup. }
    set (key := candidate_key _ _ _). destruct (sort_by_spec key (passes homes exclude now fast).1) as [Hp Ho].
    destruct (List.find _ _) as [c|] eqn:E; [|done]. intros [= <-]. exists c. split_and!; [|done|].
    + apply List.find_some in E as [Hc%list_elem_of_In _]. by rewrite Hp in Hc.
    + intros c' Hc' Ha. eapply (ordered_find key (fun c => acquire (c_id c))); [exact Ho|exact E|by rewrite Hp|done].
Qed.
End Select.

(** ** Errors and blame ([transport.rs], [mod.rs]) *)
Inductive ProcessError : Type :=
| Disabled | InvalidConfig (message : string) | Closed | Timeout (phase : string) | Protocol (message : string)
| ContextWindowExceeded | UsageLimitExceeded (retry_after : option Z) | BadRequest | PolicyViolation
| MissingAuthoritativeUsage | AuthenticationRequired | SubscriptionRequired
| ExternalFallbackFailed (local : ProcessError).
Definition DEFAULT_LIMIT_RETRY_SECS : Z := 60.
(** The evidence a failure is ([note_transport_error]). *)
Definition transport_signal (e : ProcessError) : HealthSignal :=
  match e with
  | SubscriptionRequired => AuthRejected true
  | AuthenticationRequired => AuthRejected false
  | UsageLimitExceeded retry_after => UsageLimited (Some (wrap_i64 (default DEFAULT_LIMIT_RETRY_SECS retry_after)))
  | Timeout _ => Deadline
  | InvalidConfig _ | Disabled => AuthRejected true
  | _ => TransportClosed
  end.
Definition is_client_fault (e : ProcessError) : bool :=
  match e with BadRequest | ContextWindowExceeded | PolicyViolation | MissingAuthoritativeUsage => true | _ => false end.
Definition is_account_fault (e : ProcessError) : bool :=
  match e with UsageLimitExceeded _ | AuthenticationRequired | SubscriptionRequired => true | _ => false end.
Definition note_turn_error (e : ProcessError) : list HealthSignal :=
  if is_client_fault e then [] else [transport_signal e].

(** ** One turn on one home ([CodexHome::run_turn])

    A token (given the one that was just rejected), the answer to the send, and
    the outcome of the event stream. *)
Record home_io := mkIo {
  io_token : option string -> result ProcessError string;
  io_send : string -> result ProcessError ();
  io_events : result ProcessError () }.
Definition is_auth (e : ProcessError) : bool := match e with AuthenticationRequired => true | _ => false end.
Fixpoint run_home (refresh_retry_left : nat) (io : home_io) (emitted : bool) (rejected : option string)
    : result ProcessError () * list HealthSignal :=
  match io_token io rejected with
  | Err e => (Err e, [])
  | Ok token =>
      match io_send io token with
      | Ok _ => (io_events io, [])
      | Err e =>
          match refresh_retry_left with
          | S less => if is_auth e && negb emitted
                      then let '(r, noted) := run_home less io emitted (Some token) in (r, note_turn_error e ++ noted)
                      else (Err e, [])
          | O => (Err e, [])
          end
      end
  end.

(** ** Rotation ([CodexGateway::run_active_turn]) *)
Definition retry_after_from (ready_at : option Z) (now : Z) : option Z :=
  (fun r => clamp 1 (7 * 24 * 3600) (sat_i64 (r - now))) <$> ready_at.
(** What one round meets. *)
Record turn_env := mkTurnEnv {
  te_shutdown : bool; te_homes : list CodexHome; te_now : Z; te_cursor : Z; te_acquire : string -> bool;
  te_wait_ms : Z; te_io : string -> home_io;
  te_emitted : string -> bool;                       (* output left for the client during the attempt *)
  te_fallback : option (result ProcessError ()) }.   (* the external turn, where one supports the model *)
Record routing := mkRouting { preferred_home : option string; warm_homes : list string; places_cache_root : bool }.
Record rotation := mkRotation { tried : list string; transport_retries_left : Z; last_error : option ProcessError; emitted : bool }.
Definition rotation_init : rotation := mkRotation [] 1 None false.
Record turn_attempt := mkAttempt { a_id : string; a_result : result ProcessError (); a_noted : list HealthSignal; a_emitted : bool }.
Inductive turn_outcome : Type := Served (id : string) | External | Failed (e : ProcessError).

Definition run_claudestore_after_local_terminal (fallback : option (result ProcessError ())) (emitted : bool) (local : ProcessError)
    : turn_outcome :=
  match fallback with
  | None => Failed local
  | Some r => if emitted then Failed local
              else match r with Ok _ => External | Err _ => Failed (ExternalFallbackFailed local) end
  end.

Section Rotate.
  Context (over_cap : WindowReserve -> string -> Z -> Z -> CodexRateLimitWindow -> bool).
  Context (probe_interval_secs : Z) (configured_is_full : bool) (route : routing) (fast_model : option string).

Definition rotate_step (env : turn_env) (st : rotation) : list turn_attempt * (turn_outcome + rotation) :=
  match select_home over_cap probe_interval_secs configured_is_full (te_shutdown env) (te_homes env) (tried st)
          (preferred_home route) (warm_homes route) (places_cache_root route) (te_cursor env) fast_model (te_now env)
          (te_acquire env) with
  | Unavailable ready_at =>
      let hint := default 1 (retry_after_from ready_at (te_now env)) in
      let end_with local := inl (run_claudestore_after_local_terminal (te_fallback env) (emitted st) local) in
      ([], match last_error st with
           | Some e => end_with e
           | None => match smooth_step hint (te_wait_ms env) with
                     | Some _ => inr (mkRotation [] (transport_retries_left st) None (emitted st))
                     | None => end_with (UsageLimitExceeded (retry_after_from ready_at (te_now env)))
                     end
           end)
  | Ready id =>
      let '(r, noted) := run_home 1 (te_io env id) (emitted st) None in
      let sent := emitted st || te_emitted env id in
      match r with
      | Ok _ => ([mkAttempt id r (noted ++ [TurnOk]) sent], inl (Served id))
      | Err e =>
          ([mkAttempt id r (noted ++ note_turn_error e) sent],
           if is_client_fault e then inl (Failed e)
           else if sent then inl (Failed e)
           else if is_account_fault e then inr (mkRotation (tried st ++ [id]) (transport_retries_left st) (Some e) sent)
           else if transport_retries_left st =? 0
                then inl (run_claudestore_after_local_terminal (te_fallback env) sent e)
                else inr (mkRotation (tried st ++ [id]) (transport_retries_left st - 1) (Some e) sent))
      end
  end.
Fixpoint rotate (fuel : nat) (env : nat -> turn_env) (st : rotation) : option (turn_outcome * list turn_attempt) :=
  match fuel with
  | O => None
  | S fuel =>
      match rotate_step (env 0%nat) st with
      | (now_tried, inl out) => Some (out, now_tried)
      | (now_tried, inr st') =>
          '(out, later) ← rotate fuel (fun k => env (S k)) st'; Some (out, now_tried ++ later)
      end
  end.
Definition run_turn (fuel : nat) (shutting_down : bool) (env : nat -> turn_env) : option (turn_outcome * list turn_attempt) :=
  if shutting_down then Some (Failed Closed, []) else rotate fuel env rotation_init.

(** ** Properties of a rotation *)
Definition is_fault (t : turn_attempt) : bool := match a_result t with Err e => negb (is_account_fault e) | Ok _ => false end.
Definition faults (trace : list turn_attempt) : Z := Z.of_nat (length (List.filter is_fault trace)).
(** An attempt another one may replace. *)
Definition replaceable (t : turn_attempt) : Prop :=
  a_emitted t = false /\ exists e, a_result t = Err e /\ is_client_fault e = false.
Record rotation_ok (ids : gset string) (st : rotation) : Prop := {
  rk_tried : NoDup (tried st); rk_ids : Forall (fun i => i ∈ ids) (tried st);
  rk_fresh : last_error st = None -> tried st = []; rk_emitted : emitted st = false; rk_retries : 0 <= transport_retries_left st }.
Record rotated_ok (ids : gset string) (st : rotation) (out : turn_outcome) (trace : list turn_attempt) : Prop := {
  rt_once : NoDup (map a_id trace);
  rt_ids : forall t, t ∈ trace -> a_id t ∈ ids /\ a_id t ∉ tried st;
  rt_faults : faults trace <= transport_retries_left st + 1;
  rt_replaced : forall i t, trace !! i = Some t -> (S i < length trace)%nat -> replaceable t;
  rt_served : forall id, out = Served id -> exists n e, last trace = Some (mkAttempt id (Ok ()) n e);
  rt_external : out = External -> Forall (fun t => a_emitted t = false) trace }.

Lemma step_ready env st id :
  select_home over_cap probe_interval_secs configured_is_full (te_shutdown env) (te_homes env) (tried st)
    (preferred_home route) (warm_homes route) (places_cache_root route) (te_cursor env) fast_model (te_now env) (te_acquire env) = Ready id ->
  (exists h, h ∈ te_homes env /\ home_id h = id) /\ id ∉ tried st.
Proof.
  destruct (te_shutdown env); [done|]. intros H. apply ready_elem in H as [_ (c & -> & Hc)%list_elem_of_fmap].
  apply passes_serves in Hc as (reserve & soft & (_ & Hn & _) & Hh & _). unfold c_id. eauto.
Qed.
Lemma size_tried ids st id : rotation_ok ids st -> id ∈ ids -> id ∉ tried st -> (S (length (tried st)) <= size ids)%nat.
Proof.
  intros [H1 H2 _ _ _] Hid Hn. assert (Hnd : NoDup (id :: tried st)) by (by constructor).
  change (S (length (tried st))) with (length (id :: tried st)).
  rewrite <- (size_list_to_set (C:=gset string) (id :: tried st) Hnd). apply subseteq_size.
  rewrite Forall_forall in H2. set_solver.
Qed.
Lemma fallback_not_served fb em local id : run_claudestore_after_local_terminal fb em local <> Served id.
Proof. unfold run_claudestore_after_local_terminal. destruct fb as [[]|]; [destruct em..|]; done. Qed.
Lemma fallback_external fb em local : run_claudestore_after_local_terminal fb em local = External -> em = false.
Proof. unfold run_claudestore_after_local_terminal. destruct fb as [[]|]; [destruct em..|]; done. Qed.

Section Steps.
  Context (ids : gset string) (env : turn_env) (st : rotation).
  Hypothesis (Hids : forall h, h ∈ te_homes env -> home_id h ∈ ids) (Hst : rotation_ok ids st).

Lemma end_without_attempt out : (forall id, out <> Served id) -> rotated_ok ids st out [].
Proof.
  intros Ho. destruct Hst. constructor; cbn.
  - constructor.
  - intros t Ht. by apply elem_of_nil in Ht.
  - unfold faults. cbn. lia.
  - done.
  - intros id Hs. by destruct (Ho id).
  - constructor.
Qed.
Lemma end_with_attempt out t : a_id t ∈ ids -> a_id t ∉ tried st -> (out = External -> a_emitted t = false) ->
  (forall id, out = Served id -> exists n e, t = mkAttempt id (Ok ()) n e) -> rotated_ok ids st out [t].
Proof.
  intros H1 H2 H3 H4. destruct Hst. constructor; cbn.
  - apply NoDup_singleton.
  - intros t' ->%list_elem_of_singleton. done.
  - unfold faults. cbn. destruct (is_fault t); cbn; lia.
  - intros i x Hx Hi. lia.
  - intros id (n & e & ->)%H4. eauto.
  - intros Ho. constructor; [by apply H3|constructor].
Qed.
Lemma rotate_step_ends now out : rotate_step env st = (now, inl out) -> rotated_ok ids st out now.
Proof.
  unfold rotate_step. destruct (select_home _ _ _ _ _ _ _ _ _ _ _ _ _) as [id|ready] eqn:Es.
  - apply step_ready in Es as [(h & Hh & Hid) Hn]. assert (Hi : id ∈ ids) by (rewrite <- Hid; auto).
    destruct (run_home _ _ _ _) as [r noted]. destruct r as [[]|e].
    + intros [= <- <-]. apply end_with_attempt; try done. intros x [= ->]. eauto.
    + destruct (is_client_fault e); [intros [= <- <-]; by apply end_with_attempt|].
      destruct (emitted st || te_emitted env id) eqn:Ee; [intros [= <- <-]; by apply end_with_attempt|].
      destruct (is_account_fault e); [done|]. destruct (transport_retries_left st =? 0); [|done].
      intros [= <- <-]. apply end_with_attempt; try done. intros x Hx. by apply fallback_not_served in Hx.
  - destruct (last_error st) as [e|]; [intros [= <- <-]|destruct (smooth_step _ _); [done|intros [= <- <-]]];
      apply end_without_attempt; intros id; apply fallback_not_served.
Qed.
Lemma rotate_step_goes now st' : rotate_step env st = (now, inr st') -> rotation_ok ids st' /\
  ((now = [] /\ st' = st /\ te_wait_ms env <> 0) \/
   (exists t, now = [t] /\ replaceable t /\ a_id t ∈ ids /\ (a_id t ∉ tried st) /\ tried st' = tried st ++ [a_id t] /\
      transport_retries_left st' = transport_retries_left st - Z.b2z (is_fault t))).
Proof.
  unfold rotate_step. destruct (select_home _ _ _ _ _ _ _ _ _ _ _ _ _) as [id|ready] eqn:Es.
  - apply step_ready in Es as [(h & Hh & Hid) Hn]. assert (Hi : id ∈ ids) by (rewrite <- Hid; auto). destruct Hst.
    destruct (run_home _ _ _ _) as [r noted]. destruct r as [[]|e]; [done|].
    destruct (is_client_fault e) eqn:Ec; [done|]. destruct (emitted st || te_emitted env id) eqn:Ee; [done|].
    assert (Htr : NoDup (tried st ++ [id])) by (apply NoDup_app; split_and!; [done|set_solver|apply NoDup_singleton]).
    assert (Hal : Forall (fun i => i ∈ ids) (tried st ++ [id])) by (apply Forall_app; auto).
    destruct (is_account_fault e) eqn:Ea; [|destruct (Z.eqb_spec (transport_retries_left st) 0); [done|]]; intros [= <- <-].
    + split; [by constructor|]. right. eexists. split; [done|]. split_and!; try done; [split; [done|by exists e]|].
      unfold is_fault. cbn. rewrite Ea. cbn. lia.
    + split; [constructor; try done; cbn; lia|]. right. eexists. split; [done|]. split_and!; try done; [split; [done|by exists e]|].
      unfold is_fault. cbn. rewrite Ea. cbn. lia.
  - destruct Hst. destruct (last_error st) as [e|] eqn:El; [done|].
    unfold smooth_step. destruct (Z.eqb_spec (te_wait_ms env) 0); [done|]. intros [= <- <-].
    assert (Heq : mkRotation [] (transport_retries_left st) None (emitted st) = st).
    { destruct st as [tr rt le em]. cbn in *. rewrite El, rk_fresh0 by done. done. }
    rewrite Heq. split; [by constructor; rewrite ?El|]. left. auto.
Qed.
End Steps.

Lemma rotated_ok_cons ids st st' t out trace :
  replaceable t -> a_id t ∈ ids -> a_id t ∉ tried st -> tried st' = tried st ++ [a_id t] ->
  transport_retries_left st' = transport_retries_left st - Z.b2z (is_fault t) ->
  trace <> [] \/ (forall id, out <> Served id) -> rotated_ok ids st' out trace -> rotated_ok ids st out (t :: trace).
Proof.
  intros Hr Hi Hn Ht Hf Hne []. rewrite Ht in *. constructor; cbn.
  - constructor; [|done]. intros (x & Hx & Hin)%list_elem_of_fmap. destruct (rt_ids0 x Hin) as [_ Hx']. apply Hx'.
    rewrite <- Hx. set_solver.
  - intros x [->|Hx]%elem_of_cons; [done|]. destruct (rt_ids0 x Hx) as [? Hx']. set_solver.
  - unfold faults in *. cbn. destruct (is_fault t); cbn in *; lia.
  - intros [|i] x Hx Hl; cbn in *; [by injection Hx as <-|]. eapply rt_replaced0; [done|lia].
  - intros id Hs. destruct (rt_served0 id Hs) as (n & e & Hl). exists n, e. destruct trace; [done|]. exact Hl.
  - intros Ho. constructor; [apply Hr|by apply rt_external0].
Qed.
Lemma rotate_ok ids fuel : forall env st waits,
  (forall k h, h ∈ te_homes (env k) -> home_id h ∈ ids) -> (forall k, (waits <= k)%nat -> te_wait_ms (env k) = 0) ->
  rotation_ok ids st -> (waits + (size ids - length (tried st)) + 1 <= fuel)%nat ->
  exists out trace, rotate fuel env st = Some (out, trace) /\ rotated_ok ids st out trace.
Proof.
  induction fuel as [|fuel IH]; intros env st waits Hids Hw Hst Hf; [lia|]. cbn [rotate].
  destruct (rotate_step (env 0%nat) st) as [now [out|st']] eqn:Es.
  - exists out, now. split; [done|]. exact (rotate_step_ends ids (env 0%nat) st (Hids 0%nat) Hst now out Es).
  - destruct (rotate_step_goes ids (env 0%nat) st (Hids 0%nat) Hst now st' Es) as [Hst' [(-> & -> & Hms)|(t & -> & Hr & Hi & Hn & Ht & Hl)]].
    + destruct waits as [|waits]; [exfalso; apply Hms, Hw; lia|].
      destruct (IH (fun k => env (S k)) st waits) as (out & trace & -> & Hok); [intros k; apply (Hids (S k))|intros k Hk; apply Hw; lia|done|lia|].
      exists out, trace. done.
    + pose proof (size_tried ids st (a_id t) Hst Hi Hn) as Hsz.
      destruct (IH (fun k => env (S k)) st' waits) as (out & trace & -> & Hok);
        [intros k; apply (Hids (S k))|intros k Hk; apply Hw; lia|done|rewrite Ht, length_app; cbn; lia|].
      exists out, (t :: trace). split; [done|]. eapply rotated_ok_cons; try done.
      destruct trace; [right|by left]. intros id ->. destruct (rt_served _ _ _ _ Hok id eq_refl) as (? & ? & [=]).
Qed.

(** C37: the rotation of a Codex turn ends, and replaces only what may be replaced.
    Whatever the homes answer and however the roster changes, once the waiting
    budget is over the turn ends within one round per home; no home is tried
    twice; only an attempt that sent nothing to the client and failed for a
    reason another home may not share is followed by another one; at most two
    attempts fail on the transport; a served turn is the success of its last
    attempt; and the external fallback serves only a turn of which nothing was
    sent. *)
Theorem codex_rotation_bounded (env : nat -> turn_env) (ids : gset string) (waits : nat)
    (Hids : forall k h, h ∈ te_homes (env k) -> home_id h ∈ ids)
    (Hwait : forall k, (waits <= k)%nat -> te_wait_ms (env k) = 0) :
  exists out trace, run_turn (waits + (size ids + 1)) false env = Some (out, trace)
  /\ NoDup (map a_id trace) /\ (length trace <= size ids)%nat /\ faults trace <= 2
  /\ (forall i t, trace !! i = Some t -> (S i < length trace)%nat -> replaceable t)
  /\ (forall id, out = Served id -> exists n e, last trace = Some (mkAttempt id (Ok ()) n e))
  /\ (out = External -> Forall (fun t => a_emitted t = false) trace).
Proof.
  destruct (rotate_ok ids (waits + (size ids + 1)) env rotation_init waits Hids Hwait) as (out & trace & H & []).
  - constructor; cbn; try done; constructor.
  - cbn. lia.
  - exists out, trace. split_and!; try done.
    rewrite <- (length_map a_id), <- (size_list_to_set (C:=gset string) _ rt_once0). apply subseteq_size.
    intros i (t & -> & Ht)%elem_of_list_to_set%list_elem_of_fmap. by apply rt_ids0.
Qed.
End Rotate.

(** ** A concrete pool *)
Definition demo_home (id : string) (order : Z) (h : HomeHealth) : CodexHome := mkCodexHome id order false h None 0 true 0 1 None.
Definition demo_io (e : result ProcessError ()) : home_io := mkIo (fun _ => Ok "token") (fun _ => Ok ()) e.
Definition demo_turn (homes : list CodexHome) : turn_env :=
  mkTurnEnv false homes 1000 0 (fun _ => true) 0
    (fun id => demo_io (if bool_decide (id = "a") then Err (UsageLimitExceeded None) else Ok ())) (fun _ => false) None.
Definition demo_homes : list CodexHome := [demo_home "a" 0 HomeHealth_new; demo_home "b" 1 HomeHealth_new].
Definition no_cap (_ : WindowReserve) (_ : string) (_ _ : Z) (_ : CodexRateLimitWindow) : bool := false.
Example demo_rotates :
  run_turn no_cap 60 false (mkRouting None [] false) None 3 false (fun _ => demo_turn demo_homes)
  = Some (Served "b", [mkAttempt "a" (Err (UsageLimitExceeded None)) [UsageLimited (Some 60)] false; mkAttempt "b" (Ok ()) [TurnOk] false]).
Proof. vm_compute. reflexivity. Qed.
(** A home under an uncorroborated rejection is the last resort, not a refusal. *)
Example demo_last_resort :
  select_home no_cap 60 false false [demo_home "a" 0 (run [(AuthRejected false, 995)])] [] None [] false 0 None 1000 (fun _ => true) = Ready "a".
Proof. vm_compute. reflexivity. Qed.
Lemma codex_select_exact_witness :
  select_home no_cap 60 false false demo_homes [] (Some "b") [] false 0 None 1000 (fun _ => true) = Ready "b".
Proof.
  apply (codex_select_exact no_cap 60 false demo_homes [] (Some "b") [] false 0 None 1000 (fun _ => true)) with (h := demo_home "b" 1 HomeHealth_new); try done.
  - apply (bool_decide_unpack _). vm_compute. exact I.
  - right. left.
  - split_and!; [done|apply not_elem_of_nil|done|done].
Defined.
Lemma codex_rotation_bounded_witness :
  exists out trace, run_turn no_cap 60 false (mkRouting None [] false) None 3 false (fun _ => demo_turn demo_homes) = Some (out, trace) /\ faults trace <= 2.
Proof.
  destruct (codex_rotation_bounded no_cap 60 false (mkRouting None [] false) None (fun _ => demo_turn demo_homes) {["a"; "b"]} 0)
    as (out & trace & H1 & _ & _ & H2 & _).
  - intros k h Hh. unfold demo_turn, demo_homes in Hh. cbn [te_homes] in Hh. rewrite !elem_of_cons, elem_of_nil in Hh. destruct Hh as [->|[->|[]]]; cbn; set_solver.
  - intros k _. reflexivity.
  - exists out, trace. split; [exact H1|exact H2].
Defined.
