(* ===== verification/Tripo3d.v ===== *)
(** * The Tripo3D credit rate card ([crates/metering/src/tripo3d.rs])

    Exact prices, version admission sets, conservative family reserves and the
    credit-to-nanodollar link.  Credits of one task stay below a few hundred, so
    the additions of the pricer are exact; the counted tasks and the conversion
    use checked arithmetic.  [unreachable!] is the outcome [Err Unreachable]. *)
From S2P Require Import Prelude.

Definition TRIPO3D_NANOUSD_PER_CREDIT : Z := 10000000.

Inductive Tripo3dTaskKind : Type :=
| TextToModel | ImageToModel | MultiviewToModel | TextureModel | MeshSegmentation
| MeshCompletion | HighpolyToLowpoly | AnimatePrerigcheck | AnimateRig | AnimateRetarget
| ConvertModel | ImportModel | TextToImage | GenerateImage | GenerateMultiviewImage
| EditMultiviewImage | RefineModel.
Inductive Tripo3dTextureQuality : Type := TQ_Standard | TQ_Detailed | TQ_Extreme.
Inductive Tripo3dGeometryQuality : Type := GQ_Standard | GQ_Detailed.
Record Tripo3dOptions := mkOptions {
  texture : bool; pbr : bool; smart_low_poly : bool; generate_parts : bool; quad : bool;
  style : bool; texture_quality : Tripo3dTextureQuality; geometry_quality : Tripo3dGeometryQuality }.
Definition Tripo3dOptions_default : Tripo3dOptions :=
  mkOptions false false false false false false TQ_Standard GQ_Standard.
Inductive Tripo3dConvertMode : Type := Basic | Advanced.
Inductive Tripo3dMeteringError : Type := NegativeCredits | Overflow.
Inductive Panic : Type := Unreachable.
Record Tripo3dReserve := mkReserve { credits : Z; conservative : bool }.

#[global] Instance TaskKind_eq_dec : EqDecision Tripo3dTaskKind.
Proof. solve_decision. Defined.
#[global] Instance TextureQuality_eq_dec : EqDecision Tripo3dTextureQuality.
Proof. solve_decision. Defined.
#[global] Instance GeometryQuality_eq_dec : EqDecision Tripo3dGeometryQuality.
Proof. solve_decision. Defined.
#[global] Instance Options_eq_dec : EqDecision Tripo3dOptions.
Proof. solve_decision. Defined.

(** ** Version admission sets *)
Definition VERSIONS_TO_MODEL : list string :=
  ["v3.1-20260211"; "v3.0-20250812"; "P1-20260311"; "v2.5-20250123"; "v2.0-20240919";
   "Turbo-v1.0-20250506"; "v1.4-20240625"].
Definition VERSIONS_MULTIVIEW : list string :=
  ["v3.1-20260211"; "v3.0-20250812"; "P1-20260311"; "v2.5-20250123"; "v2.0-20240919"].
Definition VERSIONS_TEXTURE_MODEL : list string := ["v3.0-20250812"; "v2.5-20250123"].
Definition VERSIONS_MESH_SEGMENTATION : list string := ["v1.0-20250506"].
Definition VERSIONS_MESH_COMPLETION : list string := ["v1.0-20250506"].
Definition VERSIONS_ANIMATE_PRERIGCHECK : list string := ["v2.0-20250506"; "v1.0-20240301"].
Definition VERSIONS_ANIMATE_RIG : list string := ["v2.5-20260210"; "v2.0-20250506"; "v1.0-20240301"].
Definition VERSIONS_IMAGE : list string :=
  ["flux.1_kontext_pro"; "flux.1_dev"; "gpt_4o"; "gpt_image_1.5"; "gpt_image_2"; "midjourney";
   "gemini_2.5_flash_image_preview"; "gemini_3_pro_image_preview"; "gemini_3.1_flash_image_preview"].
Definition DEFAULT_GENERATION_VERSION : string := "v2.5-20250123".
Definition DEFAULT_IMAGE_VERSION : string := "flux.1_kontext_pro".

Definition slice_contains (admitted : list string) (version : string) : bool :=
  bool_decide (version ∈ admitted).
Definition is_default (o : Tripo3dOptions) : bool := bool_decide (o = Tripo3dOptions_default).

(** ** The exact pricer *)
Inductive GenerationTier : Type := P1 | Standard | LegacyV14.

Definition generation_tier (version : string) : option GenerationTier :=
  if bool_decide (version = "P1-20260311") then Some P1
  else if bool_decide (version = "v1.4-20240625") then Some LegacyV14
  else if slice_contains ["v3.1-20260211"; "v3.0-20250812"; "v2.5-20250123"; "v2.0-20240919";
                    "Turbo-v1.0-20250506"] version then Some Standard
  else None.

Definition texture_quality_surcharge (quality : Tripo3dTextureQuality) : Z :=
  match quality with TQ_Standard => 10 | TQ_Detailed => 20 | TQ_Extreme => 30 end.

Definition generation_base (kind : Tripo3dTaskKind) : result Panic (Z * Z * Z * Z * option Z) :=
  match kind with
  | TextToModel => Ok (30, 40, 10, 20, Some 20)
  | ImageToModel => Ok (40, 50, 20, 30, Some 30)
  | MultiviewToModel => Ok (40, 50, 20, 30, None)
  | _ => Err Unreachable
  end.

(** A flag's surcharge on the running total. *)
Definition surcharge (flag : bool) (amount total : Z) : Z := if flag then total + amount else total.

Definition generation_credits (kind : Tripo3dTaskKind) (tier : GenerationTier) (o : Tripo3dOptions)
  : result Panic (option Z) :=
  base ← generation_base kind;
  let '(p1_plain, p1_textured, std_plain, _, legacy) := base in
  match tier with
  | P1 =>
      if smart_low_poly o || generate_parts o || quad o || style o
         || bool_decide (texture_quality o ≠ TQ_Standard)
         || bool_decide (geometry_quality o ≠ GQ_Standard)
      then Ok None
      else Ok (Some (if texture o then p1_textured else p1_plain))
  | Standard =>
      if negb (texture o) && bool_decide (texture_quality o ≠ TQ_Standard) then Ok None
      else
        let total := if texture o then std_plain + texture_quality_surcharge (texture_quality o) else std_plain in
        let total := surcharge (smart_low_poly o) 10 total in
        let total := surcharge (generate_parts o) 20 total in
        let total := surcharge (quad o) 5 total in
        let total := surcharge (style o) 5 total in
        let total := surcharge (bool_decide (geometry_quality o = GQ_Detailed)) 20 total in
        Ok (Some total)
  | LegacyV14 => if negb (is_default o) then Ok None else Ok legacy
  end.

Definition version_independent (model_version : option string) : bool :=
  match model_version with None => true | Some _ => false end.
Definition flat_version_ok (model_version : option string) (admitted : list string) : bool :=
  match model_version with Some version => slice_contains admitted version | None => true end.

(** A flat price behind a guard: [None] unless the guard holds. *)
Definition flat (guard : bool) (price : Z) : result Panic (option Z) :=
  if guard then Ok (Some price) else Ok None.

Definition tripo3d_task_credits (kind : Tripo3dTaskKind) (model_version : option string)
    (o : Tripo3dOptions) : result Panic (option Z) :=
  match kind with
  | TextToModel | ImageToModel | MultiviewToModel =>
      let admitted := match kind with MultiviewToModel => VERSIONS_MULTIVIEW | _ => VERSIONS_TO_MODEL end in
      let version := default DEFAULT_GENERATION_VERSION model_version in
      if negb (slice_contains admitted version) then Ok None
      else match generation_tier version with
           | None => Ok None
           | Some tier => generation_credits kind tier o
           end
  | RefineModel =>
      let version := default "v1.4-20240625" model_version in
      flat (bool_decide (version = "v1.4-20240625") && is_default o) 30
  | TextureModel =>
      let version := default DEFAULT_GENERATION_VERSION model_version in
      if negb (slice_contains VERSIONS_TEXTURE_MODEL version) then Ok None
      else if texture o || pbr o || smart_low_poly o || generate_parts o || quad o
              || bool_decide (geometry_quality o ≠ GQ_Standard) then Ok None
      else
        let total := match texture_quality o with TQ_Standard => 10 | TQ_Detailed => 20 | TQ_Extreme => 30 end in
        Ok (Some (surcharge (style o) 5 total))
  | MeshSegmentation => flat (flat_version_ok model_version VERSIONS_MESH_SEGMENTATION && is_default o) 40
  | MeshCompletion => flat (flat_version_ok model_version VERSIONS_MESH_COMPLETION && is_default o) 50
  | HighpolyToLowpoly => Ok None
  | AnimatePrerigcheck => flat (flat_version_ok model_version VERSIONS_ANIMATE_PRERIGCHECK && is_default o) 0
  | AnimateRig => flat (flat_version_ok model_version VERSIONS_ANIMATE_RIG && is_default o) 25
  | AnimateRetarget | ConvertModel | EditMultiviewImage => Ok None
  | ImportModel => flat (version_independent model_version && is_default o) 0
  | TextToImage => flat (slice_contains VERSIONS_IMAGE (default DEFAULT_IMAGE_VERSION model_version) && is_default o) 5
  | GenerateImage => flat (slice_contains VERSIONS_IMAGE (default DEFAULT_IMAGE_VERSION model_version) && is_default o) 10
  | GenerateMultiviewImage => flat (version_independent model_version && is_default o) 10
  end.

(** ** Counted tasks *)
Definition tripo3d_animate_retarget_credits (animations : Z) : option Z :=
  if animations =? 0 then None else checked_i64 animations >>? fun n => checked_i64 (10 * n).
Definition tripo3d_edit_multiview_image_credits (edited_images : Z) : option Z :=
  if edited_images =? 0 then None else checked_i64 edited_images >>? fun n => checked_i64 (5 * n).
Definition tripo3d_convert_model_credits (mode : Tripo3dConvertMode) : Z :=
  match mode with Basic => 5 | Advanced => 10 end.

(** ** Wire names *)
Definition as_wire (kind : Tripo3dTaskKind) : string :=
  match kind with
  | TextToModel => "text_to_model"
  | ImageToModel => "image_to_model"
  | MultiviewToModel => "multiview_to_model"
  | TextureModel => "texture_model"
  | MeshSegmentation => "mesh_segmentation"
  | MeshCompletion => "mesh_completion"
  | HighpolyToLowpoly => "highpoly_to_lowpoly"
  | AnimatePrerigcheck => "animate_prerigcheck"
  | AnimateRig => "animate_rig"
  | AnimateRetarget => "animate_retarget"
  | ConvertModel => "convert_model"
  | ImportModel => "import_model"
  | TextToImage => "text_to_image"
  | GenerateImage => "generate_image"
  | GenerateMultiviewImage => "generate_multiview_image"
  | EditMultiviewImage => "edit_multiview_image"
  | RefineModel => "refine_model"
  end.
Definition from_wire (wire : string) : option Tripo3dTaskKind :=
  if bool_decide (wire = "text_to_model") then Some TextToModel
  else if bool_decide (wire = "image_to_model") then Some ImageToModel
  else if bool_decide (wire = "multiview_to_model") then Some MultiviewToModel
  else if bool_decide (wire = "texture_model") then Some TextureModel
  else if bool_decide (wire = "mesh_segmentation") then Some MeshSegmentation
  else if bool_decide (wire = "mesh_completion") then Some MeshCompletion
  else if bool_decide (wire = "highpoly_to_lowpoly") then Some HighpolyToLowpoly
  else if bool_decide (wire = "animate_prerigcheck") then Some AnimatePrerigcheck
  else if bool_decide (wire = "animate_rig") then Some AnimateRig
  else if bool_decide (wire = "animate_retarget") then Some AnimateRetarget
  else if bool_decide (wire = "convert_model") then Some ConvertModel
  else if bool_decide (wire = "import_model") then Some ImportModel
  else if bool_decide (wire = "text_to_image") then Some TextToImage
  else if bool_decide (wire = "generate_image") then Some GenerateImage
  else if bool_decide (wire = "generate_multiview_image") then Some GenerateMultiviewImage
  else if bool_decide (wire = "edit_multiview_image") then Some EditMultiviewImage
  else if bool_decide (wire = "refine_model") then Some RefineModel
  else None.
Definition is_per_unit (kind : Tripo3dTaskKind) : bool :=
  match kind with AnimateRetarget | ConvertModel | EditMultiviewImage => true | _ => false end.

(** ** Conservative reserves *)
Definition version_admitted (kind : Tripo3dTaskKind) (model_version : option string) : bool :=
  match model_version with
  | None => true
  | Some version =>
      match kind with
      | TextToModel | ImageToModel => slice_contains VERSIONS_TO_MODEL version
      | MultiviewToModel => slice_contains VERSIONS_MULTIVIEW version
      | TextureModel => slice_contains VERSIONS_TEXTURE_MODEL version
      | MeshSegmentation => slice_contains VERSIONS_MESH_SEGMENTATION version
      | MeshCompletion => slice_contains VERSIONS_MESH_COMPLETION version
      | AnimatePrerigcheck => slice_contains VERSIONS_ANIMATE_PRERIGCHECK version
      | AnimateRig => slice_contains VERSIONS_ANIMATE_RIG version
      | RefineModel => bool_decide (version = "v1.4-20240625")
      | TextToImage | GenerateImage => slice_contains VERSIONS_IMAGE version
      | HighpolyToLowpoly | AnimateRetarget | ConvertModel | ImportModel
      | GenerateMultiviewImage | EditMultiviewImage => false
      end
  end.

Definition tripo3d_family_max_credits (kind : Tripo3dTaskKind) : option Z :=
  match kind with
  | TextToModel => Some 100
  | ImageToModel | MultiviewToModel => Some 110
  | TextureModel => Some 35
  | MeshSegmentation => Some 40
  | MeshCompletion => Some 50
  | AnimatePrerigcheck => Some 0
  | AnimateRig => Some 25
  | ImportModel => Some 0
  | TextToImage => Some 5
  | GenerateImage => Some 10
  | GenerateMultiviewImage => Some 10
  | RefineModel => Some 30
  | HighpolyToLowpoly | AnimateRetarget | ConvertModel | EditMultiviewImage => None
  end.

Definition tripo3d_reserve_credits (kind : Tripo3dTaskKind) (model_version : option string)
    (o : Tripo3dOptions) : result Panic (option Tripo3dReserve) :=
  exact ← tripo3d_task_credits kind model_version o;
  match exact with
  | Some c => Ok (Some (mkReserve c false))
  | None =>
      if is_per_unit kind || bool_decide (kind = HighpolyToLowpoly) then Ok None
      else if negb (version_admitted kind model_version) then Ok None
      else match tripo3d_family_max_credits kind with
           | None => Ok None
           | Some c => Ok (Some (mkReserve c true))
           end
  end.

Definition tripo3d_cost_nanodollars (c : Z) : result Tripo3dMeteringError Z :=
  if c <? 0 then Err NegativeCredits
  else ok_or (checked_i128 (c * TRIPO3D_NANOUSD_PER_CREDIT)) Overflow.

(** ** The pricer stays inside its family and its version set *)
Lemma slice_contains_spec l v : slice_contains l v = true <-> v ∈ l.
Proof. apply bool_decide_eq_true. Qed.

(** Every outcome of the pricer: it never panics; a price is in the family and
    only for a kind whose version set admits the request. *)
Definition tripo_price_ok (kind : Tripo3dTaskKind) (v : option string) (r : result Panic (option Z)) : Prop :=
  match r with
  | Err _ => False
  | Ok None => True
  | Ok (Some c) => version_admitted kind v = true
      /\ exists M, tripo3d_family_max_credits kind = Some M /\ 0 <= c <= M
  end.

Lemma flat_price_ok kind v guard price M :
  tripo3d_family_max_credits kind = Some M -> 0 <= price <= M ->
  (guard = true -> version_admitted kind v = true) ->
  tripo_price_ok kind v (flat guard price).
Proof. intros HM Hp Hg. unfold flat. destruct guard; cbn; eauto. Qed.

Definition is_generation (kind : Tripo3dTaskKind) : bool :=
  match kind with TextToModel | ImageToModel | MultiviewToModel => true | _ => false end.

Lemma generation_price_ok kind v tier o :
  is_generation kind = true -> version_admitted kind v = true ->
  tripo_price_ok kind v (generation_credits kind tier o).
Proof.
  intros Hk Hv. destruct o as [te pb sl gp qu st tq gq]. unfold tripo_price_ok.
  destruct kind; try done; destruct tier; cbn; unfold surcharge, texture_quality_surcharge.
  all: repeat match goal with
       | |- context [if ?b then _ else _] => destruct b
       | |- context [match ?q with TQ_Standard => _ | TQ_Detailed => _ | TQ_Extreme => _ end] => destruct q
       end; cbn; try done; (split; [exact Hv|]; eexists; split; [done|lia]).
Qed.

(** The guard of each flat task implies the version set of its reserve. *)
Lemma default_admitted l d v : slice_contains l (default d v) = true -> from_option (slice_contains l) true v = true.
Proof. by destruct v. Qed.

Lemma task_price_ok kind v o : tripo_price_ok kind v (tripo3d_task_credits kind v o).
Proof.
  destruct kind; cbn [tripo3d_task_credits]; try exact I.
  1-3: destruct (slice_contains _ _) eqn:Hc; [|exact I]; cbn [negb]; apply default_admitted in Hc;
       destruct (generation_tier _); [|exact I]; apply generation_price_ok; [done|]; by destruct v.
  1: { destruct (slice_contains _ _) eqn:Hc; [|exact I]. cbn [negb]. apply default_admitted in Hc.
       destruct (_ || _); [exact I|]. split; [by destruct v|]. eexists. split; [done|].
       unfold surcharge. destruct (texture_quality o), (style o); lia. }
  all: (eapply flat_price_ok; [done|lia|]); intros [Hg _]%andb_true_iff;
    first [by apply default_admitted in Hg; destruct v | by destruct v].
Qed.

(** The option set that attains the family maximum. *)
Definition dearest_options (kind : Tripo3dTaskKind) : Tripo3dOptions :=
  match kind with
  | TextToModel | ImageToModel | MultiviewToModel => mkOptions true true true true true true TQ_Extreme GQ_Detailed
  | TextureModel => mkOptions false false false false false true TQ_Extreme GQ_Standard
  | _ => Tripo3dOptions_default
  end.

(** The family maximum is exactly the dearest published price.  The pricer
    never panics; every published price of a task, whatever its version and
    options, is between zero and the family maximum; and each family maximum is
    the published price of some option set. *)
Theorem tripo3d_family_max_exact (kind : Tripo3dTaskKind) (v : option string) (o : Tripo3dOptions) :
  (exists p, tripo3d_task_credits kind v o = Ok p
     /\ forall c, p = Some c -> exists M, tripo3d_family_max_credits kind = Some M /\ 0 <= c <= M)
  /\ (forall M, tripo3d_family_max_credits kind = Some M ->
        tripo3d_task_credits kind None (dearest_options kind) = Ok (Some M)).
Proof.
  split.
  - pose proof (task_price_ok kind v o) as H. destruct (tripo3d_task_credits kind v o) as [p|]; [|done].
    exists p. split; [done|]. intros c ->. apply H.
  - intros M HM. destruct kind; cbn in HM; try discriminate HM; injection HM as <-; vm_compute; reflexivity.
Qed.

(** The reserve of a Tripo3D task.  A reserve exists exactly when the task is
    neither per-unit nor the conflicted [highpoly_to_lowpoly] and the requested
    version is in its reviewed set; it never exceeds the family maximum; it is
    the published price of the combination when there is one, and the family
    maximum, flagged conservative, otherwise. *)
Theorem tripo3d_reserve_exact (kind : Tripo3dTaskKind) (v : option string) (o : Tripo3dOptions) :
  exists r, tripo3d_reserve_credits kind v o = Ok r
  /\ (is_Some r <-> is_per_unit kind = false /\ kind ≠ HighpolyToLowpoly /\ version_admitted kind v = true)
  /\ forall q, r = Some q ->
       exists M, tripo3d_family_max_credits kind = Some M /\ 0 <= credits q <= M
       /\ if conservative q then tripo3d_task_credits kind v o = Ok None /\ credits q = M
          else tripo3d_task_credits kind v o = Ok (Some (credits q)).
Proof.
  unfold tripo3d_reserve_credits. pose proof (task_price_ok kind v o) as H.
  destruct (tripo3d_task_credits kind v o) as [[c|]|] eqn:E; cbn in *; [| |done].
  - destruct H as (Hv & M & HM & Hc). eexists. split; [done|]. split.
    + split; [|by eauto]. intros _. by destruct kind.
    + intros q [= <-]. cbn. eauto.
  - destruct (is_per_unit kind) eqn:Hu; cbn; [eexists; split; [done|]; split; [|done]; split; [by intros []|naive_solver]|].
    case_bool_decide as Hk; cbn; [eexists; split; [done|]; split; [|done]; split; [by intros []|naive_solver]|].
    destruct (version_admitted kind v) eqn:Hv; cbn; [|eexists; split; [done|]; split; [|done]; split; [by intros []|naive_solver]].
    destruct (tripo3d_family_max_credits kind) as [M|] eqn:HM; [|by destruct kind].
    eexists. split; [done|]. split; [split; [done|by eauto]|]. intros q [= <-]. exists M. cbn.
    split; [done|]. split; [destruct kind; simplify_eq/=; lia|done].
Qed.

(** Wire names round trip.  A wire string denotes a task kind exactly when it
    is that kind's wire name, so no two kinds share a name and an unknown string
    denotes nothing. *)
Theorem tripo3d_wire_roundtrip (wire : string) (kind : Tripo3dTaskKind) :
  from_wire wire = Some kind <-> wire = as_wire kind.
Proof.
  split.
  - unfold from_wire. repeat (case_bool_decide; [intros [= <-]; done|]). done.
  - intros ->. by destruct kind.
Qed.

(** Settling a Tripo3D task within its reserve costs at most the reserved
    amount, and neither conversion can fail: consumed credits between zero and
    the reserve convert exactly at the fixed rate. *)
Theorem tripo3d_settle_within_reserve
    (kind : Tripo3dTaskKind) (v : option string) (o : Tripo3dOptions) (q : Tripo3dReserve) (consumed : Z) :
  tripo3d_reserve_credits kind v o = Ok (Some q) -> 0 <= consumed <= credits q ->
  exists paid held, tripo3d_cost_nanodollars consumed = Ok paid
    /\ tripo3d_cost_nanodollars (credits q) = Ok held
    /\ paid = consumed * TRIPO3D_NANOUSD_PER_CREDIT /\ paid <= held.
Proof.
  intros Hr Hc. assert (Hq : credits q <= 110).
  { unfold tripo3d_reserve_credits in Hr. pose proof (task_price_ok kind v o) as H.
    destruct (tripo3d_task_credits kind v o) as [[c|]|]; cbn in *; [| |done].
    - injection Hr as <-. destruct H as (_ & M & HM & Hb). cbn in *. destruct kind; simplify_eq/=; lia.
    - destruct (_ || _); [done|]. destruct (negb _); [done|]. destruct kind; simplify_eq/=; lia. }
  unfold tripo3d_cost_nanodollars, checked_i128, TRIPO3D_NANOUSD_PER_CREDIT.
  rewrite !(proj2 (Z.ltb_ge _ _)) by lia. rewrite !decide_True by width_lia. cbn.
  eexists _, _. repeat split; lia.
Qed.

Lemma tripo3d_settle_within_reserve_witness :
  exists paid held, tripo3d_cost_nanodollars 45 = Ok paid /\ tripo3d_cost_nanodollars 110 = Ok held
    /\ paid = 45 * TRIPO3D_NANOUSD_PER_CREDIT /\ paid <= held.
Proof.
  refine (tripo3d_settle_within_reserve ImageToModel (Some "P1-20260311")
    (mkOptions true false false false true false TQ_Standard GQ_Standard) (mkReserve 110 true) 45 _ _);
    [vm_compute; reflexivity|cbn; lia].
Defined.
