(* ===== verification/MediaTariffs.v ===== *)
(** * Image and song tariffs ([crates/metering/src/openai_image.rs], [suno.rs])

    GPT Image 2 costs over five disjoint token legs, and Suno's derived credit
    schedule.  Every operation is checked integer arithmetic. *)
From S2P Require Import Prelude Tripo3d.

(** ** GPT Image 2 *)
Module OpenAiImage.
Definition OPENAI_IMAGE_TARIFF_SCHEDULE_ID : string := "openai/gpt-image-2/2026-04-21/v1".
Definition GPT_IMAGE_2_ALIAS : string := "gpt-image-2".
Definition GPT_IMAGE_2_SNAPSHOT : string := "gpt-image-2-2026-04-21".
Definition OPENAI_IMAGE_TARIFF_FAMILY : string := "openai/gpt-image-2".

Record OpenAiImagePrices := mkImagePrices {
  fresh_text_input : Z; cached_text_input : Z; fresh_image_input : Z;
  cached_image_input : Z; image_output : Z }.
Record OpenAiImageUsage := mkImageUsage {
  total_text_input_tokens : Z; cached_text_input_tokens : Z; total_image_input_tokens : Z;
  cached_image_input_tokens : Z; image_output_tokens : Z }.
Record OpenAiImageTariffIdentity := mkImageIdentity {
  canonical_model_id : string; tariff_schedule_id : string;
  schedule_effective_from : Z; prices : OpenAiImagePrices }.
Inductive OpenAiImageMeteringError : Type :=
| UnsupportedModelIdentity | CachedTextExceedsTotal | CachedImageExceedsTotal | Overflow.

Definition GPT_IMAGE_2_PRICES : OpenAiImagePrices := mkImagePrices 5000 1250 8000 2000 30000.
Definition openai_image_compiled_tariff : string * OpenAiImagePrices :=
  (OPENAI_IMAGE_TARIFF_FAMILY, GPT_IMAGE_2_PRICES).

Definition openai_image_tariff (model_id : string) : result OpenAiImageMeteringError OpenAiImageTariffIdentity :=
  if bool_decide (model_id ≠ GPT_IMAGE_2_ALIAS) && bool_decide (model_id ≠ GPT_IMAGE_2_SNAPSHOT)
  then Err UnsupportedModelIdentity
  else Ok (mkImageIdentity GPT_IMAGE_2_SNAPSHOT OPENAI_IMAGE_TARIFF_SCHEDULE_ID 0 GPT_IMAGE_2_PRICES).

Definition validate (u : OpenAiImageUsage) : result OpenAiImageMeteringError () :=
  guard_ok (cached_text_input_tokens u <=? total_text_input_tokens u) CachedTextExceedsTotal ≫= fun _ =>
  guard_ok (cached_image_input_tokens u <=? total_image_input_tokens u) CachedImageExceedsTotal.

Definition leg (tokens rate : Z) : result OpenAiImageMeteringError Z :=
  ok_or (checked_i128 (tokens * rate)) Overflow.
(** The accumulation loop over the legs. *)
Fixpoint add_parts (total : Z) (parts : list Z) : result OpenAiImageMeteringError Z :=
  match parts with
  | [] => Ok total
  | part :: parts => ok_or (checked_i128 (total + part)) Overflow ≫= fun total => add_parts total parts
  end.
(** The subtractions are on [u64] and wrap; [validate] has ruled that out. *)
Definition openai_image_cost_nanodollars (u : OpenAiImageUsage) (p : OpenAiImagePrices)
  : result OpenAiImageMeteringError Z :=
  _ ← validate u;
  let fresh_text := wrap_u64 (total_text_input_tokens u - cached_text_input_tokens u) in
  let fresh_image := wrap_u64 (total_image_input_tokens u - cached_image_input_tokens u) in
  a ← leg fresh_text (fresh_text_input p);
  b ← leg (cached_text_input_tokens u) (cached_text_input p);
  c ← leg fresh_image (fresh_image_input p);
  d ← leg (cached_image_input_tokens u) (cached_image_input p);
  e ← leg (image_output_tokens u) (image_output p);
  add_parts 0 [a; b; c; d; e].

Definition usage_u64 (u : OpenAiImageUsage) : Prop :=
  is_u64 (total_text_input_tokens u) /\ is_u64 (cached_text_input_tokens u)
  /\ is_u64 (total_image_input_tokens u) /\ is_u64 (cached_image_input_tokens u)
  /\ is_u64 (image_output_tokens u).

Lemma leg_ok t r : is_u64 t -> 0 <= r <= 30000 -> leg t r = Ok (t * r).
Proof. intros. unfold leg, checked_i128. rewrite decide_True; [done|unfold_widths; nia]. Qed.
Lemma add_parts_ok total parts :
  0 <= total -> Forall (fun z => 0 <= z) parts -> total + sumZ id parts <= i128_max ->
  add_parts total parts = Ok (total + sumZ id parts).
Proof.
  intros Ht Hp. revert total Ht. induction Hp as [|z parts Hz Hp IH]; intros total Ht Hb; cbn in *; [by rewrite Z.add_0_r|].
  assert (0 <= sumZ id parts) by (apply sumZ_nonneg; by apply Forall_forall).
  unfold checked_i128, id in *. rewrite decide_True by width_lia. cbn. rewrite IH by lia. f_equal. lia.
Qed.

(** GPT Image 2 costs are exact.  For every 64-bit usage report, whatever its
    size, the cost at the compiled prices is the sum of the five legs with the
    cached tokens billed once, at the cached rate, when each cached count is at
    most its total; otherwise the cost is refused with the matching error.
    Overflow cannot happen. *)
Theorem openai_image_cost_exact (u : OpenAiImageUsage) :
  usage_u64 u ->
  openai_image_cost_nanodollars u GPT_IMAGE_2_PRICES =
    (if total_text_input_tokens u <? cached_text_input_tokens u then Err CachedTextExceedsTotal
     else if total_image_input_tokens u <? cached_image_input_tokens u then Err CachedImageExceedsTotal
     else Ok (5000 * total_text_input_tokens u - 3750 * cached_text_input_tokens u
              + 8000 * total_image_input_tokens u - 6000 * cached_image_input_tokens u
              + 30000 * image_output_tokens u)).
Proof.
  destruct u as [tt ct ti ci out]. intros (H1 & H2 & H3 & H4 & H5). cbn [total_text_input_tokens cached_text_input_tokens
    total_image_input_tokens cached_image_input_tokens image_output_tokens] in *.
  unfold openai_image_cost_nanodollars, validate, GPT_IMAGE_2_PRICES. cbn [total_text_input_tokens cached_text_input_tokens
    total_image_input_tokens cached_image_input_tokens image_output_tokens
    fresh_text_input cached_text_input fresh_image_input cached_image_input image_output].
  rewrite !Z.leb_antisym. destruct (Z.ltb_spec tt ct); [done|]. destruct (Z.ltb_spec ti ci); [done|].
  cbn [negb guard_ok mbind result_bind].
  unwrap. rewrite !leg_ok by (unfold_widths; lia). cbn [mbind result_bind].
  rewrite add_parts_ok; cbn [sumZ]; unfold id; [f_equal; lia|lia|repeat constructor; width_lia|width_lia].
Qed.

Lemma openai_image_cost_exact_witness :
  openai_image_cost_nanodollars (mkImageUsage 100 40 1000 0 u64_max) GPT_IMAGE_2_PRICES
  = Ok (500000 - 150000 + 8000000 + 30000 * u64_max).
Proof. refine (openai_image_cost_exact (mkImageUsage 100 40 1000 0 u64_max) _). vm_compute. repeat split; discriminate. Defined.
End OpenAiImage.

(** ** Suno *)
Module Suno.
Definition SUNO_NANOUSD_PER_CREDIT : Z := 4000000.
Definition SUNO_CREDITS_PER_SONG : Z := 5.
Definition SUNO_PAID_MODELS : list string := ["v4"; "v4.5"; "v4.5+"; "v5"; "v5.5"].

Inductive SunoOperation : Type :=
| Song | StemsAutoSplit | StemsSplitFromMix | StemsAdvancedSplit | MidiFromStem.
Inductive SunoMeteringError : Type := NegativeCredits | Overflow.

Definition suno_operation_credits (operation : SunoOperation) : option Z :=
  match operation with
  | Song => Some SUNO_CREDITS_PER_SONG
  | StemsAutoSplit => Some 50
  | StemsSplitFromMix => Some 10
  | StemsAdvancedSplit => None
  | MidiFromStem => Some 10
  end.
Definition suno_stems_advanced_split_credits (stems : Z) : option Z :=
  if stems =? 0 then None else checked_i64 stems >>? fun n => checked_i64 (10 * n).
Definition suno_paid_model (model : string) : option string :=
  snd <$> list_find (fun known => known = model) SUNO_PAID_MODELS.
Definition suno_song_credits_for_model (model : string) : option Z :=
  suno_paid_model model >>? fun _ => Some SUNO_CREDITS_PER_SONG.
Definition suno_song_cost_nanodollars : Z := wrap_i128 (SUNO_CREDITS_PER_SONG * SUNO_NANOUSD_PER_CREDIT).
Definition suno_cost_nanodollars (credits : Z) : result SunoMeteringError Z :=
  if credits <? 0 then Err NegativeCredits
  else ok_or (checked_i128 (credits * SUNO_NANOUSD_PER_CREDIT)) Overflow.
End Suno.

(** ** Counted operations of both credit schedules *)
Lemma counted_spec k n c :
  0 < k -> is_u64 n ->
  (if n =? 0 then None else checked_i64 n >>? fun m => checked_i64 (k * m)) = Some c
  <-> 0 < n /\ k * n <= i64_max /\ c = k * n.
Proof.
  intros Hk Hn. destruct (Z.eqb_spec n 0) as [->|Hz]; [split; [done|lia]|]. unfold checked_i64.
  case_decide as H1; cbn; [case_decide as H2|]; split.
  - intros [= <-]. width_lia.
  - by intros (_ & _ & ->).
  - done.
  - intros (? & ? & ->). exfalso. apply H2. width_lia.
  - done.
  - intros (? & ? & ->). exfalso. apply H1. unfold_widths. nia.
Qed.

(** Counted operations are priced per unit or refused, and every priced one
    converts to nanodollars.  For every 64-bit count, retargeting, multiview
    editing and stem splitting cost exactly 10, 5 and 10 credits per unit; the
    price is refused exactly for a zero count or one whose credits leave [i64];
    and the credits of a price always fit the nanodollar conversion, at the two
    schedules' own rates. *)
Theorem counted_credits_exact (n : Z) :
  is_u64 n -> forall c,
  (tripo3d_animate_retarget_credits n = Some c <-> 0 < n /\ 10 * n <= i64_max /\ c = 10 * n)
  /\ (tripo3d_edit_multiview_image_credits n = Some c <-> 0 < n /\ 5 * n <= i64_max /\ c = 5 * n)
  /\ (Suno.suno_stems_advanced_split_credits n = Some c <-> 0 < n /\ 10 * n <= i64_max /\ c = 10 * n)
  /\ (0 < c <= i64_max -> tripo3d_cost_nanodollars c = Ok (c * TRIPO3D_NANOUSD_PER_CREDIT)
        /\ Suno.suno_cost_nanodollars c = Ok (c * Suno.SUNO_NANOUSD_PER_CREDIT)).
Proof.
  intros Hn c. split; [by apply counted_spec|]. split; [by apply counted_spec|]. split; [by apply counted_spec|].
  intros Hc. unfold tripo3d_cost_nanodollars, Suno.suno_cost_nanodollars, checked_i128,
    TRIPO3D_NANOUSD_PER_CREDIT, Suno.SUNO_NANOUSD_PER_CREDIT.
  rewrite !(proj2 (Z.ltb_ge _ _)) by lia. by rewrite !decide_True by width_lia.
Qed.
(** A song is priced only on a reviewed paid model.  The flat song price
    applies exactly to the five paid model ids; the free-tier and retired ids
    have none; and the song's credits convert to the song's compiled cost. *)
Theorem suno_song_priced_exactly (model : string) :
  (forall c, Suno.suno_song_credits_for_model model = Some c <-> model ∈ Suno.SUNO_PAID_MODELS /\ c = 5)
  /\ Suno.suno_song_credits_for_model "v4.5-all" = None
  /\ (c ← Suno.suno_song_credits_for_model "v5"; res_ok (Suno.suno_cost_nanodollars c))
     = Some Suno.suno_song_cost_nanodollars
  /\ Suno.suno_song_cost_nanodollars = 20000000.
Proof.
  split; [|by vm_compute]. intros c. unfold Suno.suno_song_credits_for_model, Suno.suno_paid_model.
  destruct (list_find (fun known => known = model) Suno.SUNO_PAID_MODELS) as [[i k]|] eqn:E; cbn.
  - apply list_find_Some in E as (Hi & -> & _). apply list_elem_of_lookup_2 in Hi. naive_solver.
  - apply list_find_None in E. rewrite Forall_forall in E. naive_solver.
Qed.
