(* ===== verification/TariffPayload.v ===== *)
(** * Payloads of tariff overrides

    The mirror structs a tariff override stores, their validation against the
    tariff family, the conversions to and from the metering price structs, and
    the compiled catalogue a seed is taken from
    ([crates/registry/src/pricing/tariffs.rs],
    [crates/forward/src/pricing/tariff_book.rs],
    [crates/server/src/tariff_admin.rs]).

    The JSON codecs derived for the mirror structs are the class [PayloadSerde];
    its laws are that a struct is written as an object, that values that fit their
    fields are read back as written, and that only such values are read. *)
From S2P Require Import Prelude Text Waits Tariffs MeterUsage TurnMeter KimiTariffs GlmTariffs CodexTariffs GeminiTariffs MediaTariffs.

(** ** Mirror structs *)
Record AnthropicTariffPrices := mkAnthropicT {
  at_input : Z; at_output : Z; at_cache_read : Z; at_cache_write_5m : Z; at_cache_write_1h : Z }.
Inductive GeminiTariffSearchBilling : Type := T_PerQuery (nano : Z) | T_PerGroundedPrompt (nano : Z).
Record GeminiTariffPrices := mkGeminiT {
  gt_input : Z; gt_audio_input : Z; gt_cached_input : Z; gt_cached_audio_input : Z; gt_output : Z; gt_image_output : Z;
  gt_long_context_threshold : Z; gt_long_input : Z; gt_long_audio_input : Z; gt_long_cached_input : Z;
  gt_long_cached_audio_input : Z; gt_long_output : Z; gt_search : GeminiTariffSearchBilling }.
Record CodexTariffPrices := mkCodexT {
  ct_input : Z; ct_cached_input : Z; ct_cache_write_input : Z; ct_output : Z; ct_api_fast_multiplier_basis_points : Z;
  ct_long_context_threshold : Z; ct_long_input_basis_points : Z; ct_long_output_basis_points : Z }.
Record CodexTariffCreditRates := mkCodexCreditsT { cct_input : Z; cct_cached_input : Z; cct_output : Z }.
Record GlmTariffPrices := mkGlmT { glt_cached_input : Z; glt_input : Z; glt_cache_write : Z; glt_output : Z }.
Record GlmTariffCreditRates := mkGlmCreditsT { glct_input_tenths : Z; glct_cached_input_tenths : Z; glct_output_tenths : Z }.
Record KimiTariffPrices := mkKimiT { kt_cached_input : Z; kt_input : Z; kt_cache_write : Z; kt_output : Z }.
Record OpenAiImageTariffPrices := mkImageT {
  it_fresh_text_input : Z; it_cached_text_input : Z; it_fresh_image_input : Z; it_cached_image_input : Z; it_image_output : Z }.
Inductive TariffOverridePayload : Type :=
| P_Anthropic (p : AnthropicTariffPrices) | P_Gemini (p : GeminiTariffPrices) | P_Codex (p : CodexTariffPrices)
| P_CodexCredits (p : CodexTariffCreditRates) | P_Glm (p : GlmTariffPrices) | P_GlmCredits (p : GlmTariffCreditRates)
| P_Kimi (p : KimiTariffPrices) | P_OpenAiImage (p : OpenAiImageTariffPrices).

(** [require_non_negative!]: the checked fields of each struct. *)
Definition non_negative (fields : list Z) : bool := forallb (fun z => 0 <=? z) fields.
Definition AnthropicTariffPrices_validate (p : AnthropicTariffPrices) : bool :=
  non_negative [at_input p; at_output p; at_cache_read p; at_cache_write_5m p; at_cache_write_1h p].
Definition GeminiTariffPrices_validate (p : GeminiTariffPrices) : bool :=
  non_negative [gt_input p; gt_audio_input p; gt_cached_input p; gt_cached_audio_input p; gt_output p; gt_image_output p;
                gt_long_input p; gt_long_audio_input p; gt_long_cached_input p; gt_long_cached_audio_input p; gt_long_output p].
Definition CodexTariffPrices_validate (p : CodexTariffPrices) : bool :=
  non_negative [ct_input p; ct_cached_input p; ct_cache_write_input p; ct_output p].
Definition CodexTariffCreditRates_validate (p : CodexTariffCreditRates) : bool :=
  non_negative [cct_input p; cct_cached_input p; cct_output p].
Definition GlmTariffPrices_validate (p : GlmTariffPrices) : bool :=
  non_negative [glt_cached_input p; glt_input p; glt_cache_write p; glt_output p].
Definition GlmTariffCreditRates_validate (p : GlmTariffCreditRates) : bool :=
  non_negative [glct_input_tenths p; glct_cached_input_tenths p; glct_output_tenths p].
Definition KimiTariffPrices_validate (p : KimiTariffPrices) : bool :=
  non_negative [kt_cached_input p; kt_input p; kt_cache_write p; kt_output p].
Definition OpenAiImageTariffPrices_validate (p : OpenAiImageTariffPrices) : bool :=
  non_negative [it_fresh_text_input p; it_cached_text_input p; it_fresh_image_input p; it_cached_image_input p; it_image_output p].
Definition search_nano (s : GeminiTariffSearchBilling) : Z :=
  match s with T_PerQuery nano | T_PerGroundedPrompt nano => nano end.

(** ** The codecs *)
(** [str::parse::<i128>]: an optional sign, at least one digit, a value in range. *)
Definition parse_i128 (raw : string) : option Z :=
  match raw with
  | EmptyString => None
  | String c s =>
      (if byte_of c =? 45 then Z.opp <$> unsigned_value s
       else if byte_of c =? 43 then unsigned_value s else unsigned_value raw) >>? checked_i128
  end.
(** [i128_string]: money legs are canonical decimal strings. *)
Definition i128_serialize (value : Z) : Value := VString (pretty value).
Definition i128_deserialize (v : Value) : option Z :=
  raw ← as_str v; value ← parse_i128 raw; if bool_decide (raw = pretty value) then Some value else None.

Inductive kind : Type := KAnthropic | KGemini | KCodex | KCodexCredits | KGlm | KGlmCredits | KKimi | KImage.
#[global] Instance kind_eq_dec : EqDecision kind.
Proof. solve_decision. Defined.
Definition payload_kind (p : TariffOverridePayload) : kind :=
  match p with
  | P_Anthropic _ => KAnthropic | P_Gemini _ => KGemini | P_Codex _ => KCodex | P_CodexCredits _ => KCodexCredits
  | P_Glm _ => KGlm | P_GlmCredits _ => KGlmCredits | P_Kimi _ => KKimi | P_OpenAiImage _ => KImage
  end.
(** The values of a payload fit their fields: [i128] legs, [u64] thresholds, [i64] multipliers. *)
Definition money_legs (p : TariffOverridePayload) : list Z :=
  match p with
  | P_Anthropic p => [at_input p; at_output p; at_cache_read p; at_cache_write_5m p; at_cache_write_1h p]
  | P_Gemini p => [gt_input p; gt_audio_input p; gt_cached_input p; gt_cached_audio_input p; gt_output p; gt_image_output p;
      gt_long_input p; gt_long_audio_input p; gt_long_cached_input p; gt_long_cached_audio_input p; gt_long_output p;
      search_nano (gt_search p)]
  | P_Codex p => [ct_input p; ct_cached_input p; ct_cache_write_input p; ct_output p]
  | P_CodexCredits p => [cct_input p; cct_cached_input p; cct_output p]
  | P_Glm p => [glt_cached_input p; glt_input p; glt_cache_write p; glt_output p]
  | P_GlmCredits p => [glct_input_tenths p; glct_cached_input_tenths p; glct_output_tenths p]
  | P_Kimi p => [kt_cached_input p; kt_input p; kt_cache_write p; kt_output p]
  | P_OpenAiImage p => [it_fresh_text_input p; it_cached_text_input p; it_fresh_image_input p; it_cached_image_input p; it_image_output p]
  end.
Definition thresholds (p : TariffOverridePayload) : list Z :=
  match p with P_Gemini p => [gt_long_context_threshold p] | P_Codex p => [ct_long_context_threshold p] | _ => [] end.
Definition multipliers (p : TariffOverridePayload) : list Z :=
  match p with
  | P_Codex p => [ct_api_fast_multiplier_basis_points p; ct_long_input_basis_points p; ct_long_output_basis_points p]
  | _ => []
  end.
Definition payload_widths (p : TariffOverridePayload) : Prop :=
  Forall is_i128 (money_legs p) /\ Forall is_u64 (thresholds p) /\ Forall is_i64 (multipliers p).

Definition is_object (v : Value) : bool := match v with VObject _ => true | _ => false end.
Class PayloadSerde := {
  from_anthropic : Value -> option AnthropicTariffPrices;
  from_gemini : Value -> option GeminiTariffPrices;
  from_codex : Value -> option CodexTariffPrices;
  from_codex_credits : Value -> option CodexTariffCreditRates;
  from_glm : Value -> option GlmTariffPrices;
  from_glm_credits : Value -> option GlmTariffCreditRates;
  from_kimi : Value -> option KimiTariffPrices;
  from_openai_image : Value -> option OpenAiImageTariffPrices;
  to_canonical_value : TariffOverridePayload -> Value }.
Definition from_kind `{PayloadSerde} (k : kind) (v : Value) : option TariffOverridePayload :=
  match k with
  | KAnthropic => P_Anthropic <$> from_anthropic v
  | KGemini => P_Gemini <$> from_gemini v
  | KCodex => P_Codex <$> from_codex v
  | KCodexCredits => P_CodexCredits <$> from_codex_credits v
  | KGlm => P_Glm <$> from_glm v
  | KGlmCredits => P_GlmCredits <$> from_glm_credits v
  | KKimi => P_Kimi <$> from_kimi v
  | KImage => P_OpenAiImage <$> from_openai_image v
  end.
Class PayloadSerdeOk `{PayloadSerde} : Prop := {
  canonical_object : forall p, is_object (to_canonical_value p) = true;
  from_widths : forall k v p, from_kind k v = Some p -> payload_widths p;
  from_canonical : forall p, payload_widths p -> from_kind (payload_kind p) (to_canonical_value p) = Some p }.

(** ** Families *)
Definition family_byte (b : Z) : bool :=
  between 97 122 b || between 48 57 b || one_of [47; 95; 45; 46] b.
Fixpoint all_bytes (p : Z -> bool) (s : string) : bool :=
  match s with EmptyString => true | String c s => p (byte_of c) && all_bytes p s end.
Definition str_bytes (s : string) : Z := Z.of_nat (String.length s).
Definition validate_tariff_family (family : string) : bool :=
  match family with
  | EmptyString => false
  | String first _ =>
      (str_bytes family <=? 128) && (between 97 122 (byte_of first) || between 48 57 (byte_of first))
      && all_bytes family_byte family
  end.
Definition starts_with (p s : string) : bool := match strip_prefix p s with Some _ => true | None => false end.

Inductive PayloadError : Type := NotAnObject | MissingSegment | Malformed | NegativeLeg | UnknownFamily.
#[global] Instance PayloadError_eq_dec : EqDecision PayloadError.
Proof. solve_decision. Defined.
Definition require_family_segment (family prefix : string) : result PayloadError () :=
  guard_ok (negb (str_bytes family =? str_bytes prefix)) MissingSegment.
(** Decode, validate and wrap one struct. *)
Definition typed {T} (from : Value -> option T) (valid : T -> bool) (wrap : T -> TariffOverridePayload) (payload : Value)
    : result PayloadError TariffOverridePayload :=
  parsed ← ok_or (from payload) Malformed; _ ← guard_ok (valid parsed) NegativeLeg; Ok (wrap parsed).

Section Parse.
  Context `{PayloadSerde}.
Definition parse_tariff_override_payload (family : string) (payload : Value) : result PayloadError TariffOverridePayload :=
  if negb (is_object payload) then Err NotAnObject
  else if starts_with "anthropic/" family then
    _ ← require_family_segment family "anthropic/";
    typed from_anthropic AnthropicTariffPrices_validate P_Anthropic payload
  else if starts_with "google/gemini/" family then
    _ ← require_family_segment family "google/gemini/";
    typed from_gemini (fun p => GeminiTariffPrices_validate p && (0 <=? search_nano (gt_search p))) P_Gemini payload
  else if starts_with "openai/codex/" family then
    _ ← require_family_segment family "openai/codex/";
    typed from_codex (fun p => CodexTariffPrices_validate p
      && non_negative [ct_api_fast_multiplier_basis_points p; ct_long_input_basis_points p; ct_long_output_basis_points p]) P_Codex payload
  else if bool_decide (family = "chatgpt/codex-credits") || starts_with "chatgpt/codex-credits/" family then
    typed from_codex_credits CodexTariffCreditRates_validate P_CodexCredits payload
  else if starts_with "zhipu/glm-credits/" family then
    _ ← require_family_segment family "zhipu/glm-credits/";
    typed from_glm_credits GlmTariffCreditRates_validate P_GlmCredits payload
  else if starts_with "zhipu/glm/" family then
    _ ← require_family_segment family "zhipu/glm/";
    typed from_glm GlmTariffPrices_validate P_Glm payload
  else if starts_with "moonshot/kimi/" family then
    _ ← require_family_segment family "moonshot/kimi/";
    typed from_kimi KimiTariffPrices_validate P_Kimi payload
  else if bool_decide (family = "openai/gpt-image-2") then
    typed from_openai_image OpenAiImageTariffPrices_validate P_OpenAiImage payload
  else Err UnknownFamily.
End Parse.

(** ** Conversions *)
Definition anthropic_prices (p : AnthropicTariffPrices) : Prices :=
  mkPrices (at_input p) (at_output p) (at_cache_read p) (at_cache_write_5m p) (at_cache_write_1h p).
Definition codex_prices (p : CodexTariffPrices) : Codex.CodexPrices :=
  Codex.mkCP (ct_input p) (ct_cached_input p) (ct_cache_write_input p) (ct_output p) (ct_api_fast_multiplier_basis_points p)
    (ct_long_context_threshold p) (ct_long_input_basis_points p) (ct_long_output_basis_points p).
Definition book_codex_credit_rates (p : CodexTariffCreditRates) : Codex.CodexCreditRates :=
  Codex.mkCR (cct_input p) (cct_cached_input p) (cct_output p).
Definition gemini_prices (p : GeminiTariffPrices) : Gemini.GeminiPrices :=
  Gemini.mkGP (gt_input p) (gt_audio_input p) (gt_cached_input p) (gt_cached_audio_input p) (gt_output p) (gt_image_output p)
    (gt_long_context_threshold p) (gt_long_input p) (gt_long_audio_input p) (gt_long_cached_input p)
    (gt_long_cached_audio_input p) (gt_long_output p)
    (match gt_search p with T_PerQuery n => Gemini.PerQuery n | T_PerGroundedPrompt n => Gemini.PerGroundedPrompt n end).
Definition glm_prices (p : GlmTariffPrices) : TurnPrices := mkTP (glt_cached_input p) (glt_input p) (glt_cache_write p) (glt_output p).
Definition glm_credit_rates (p : GlmTariffCreditRates) : Glm.GlmCreditRates :=
  Glm.mkRates (glct_input_tenths p) (glct_cached_input_tenths p) (glct_output_tenths p).
Definition kimi_prices (p : KimiTariffPrices) : TurnPrices := mkTP (kt_cached_input p) (kt_input p) (kt_cache_write p) (kt_output p).
Definition openai_image_prices (p : OpenAiImageTariffPrices) : OpenAiImage.OpenAiImagePrices :=
  OpenAiImage.mkImagePrices (it_fresh_text_input p) (it_cached_text_input p) (it_fresh_image_input p) (it_cached_image_input p) (it_image_output p).

Definition as_anthropic (p : TariffOverridePayload) : option Prices := match p with P_Anthropic q => Some (anthropic_prices q) | _ => None end.
Definition as_codex (p : TariffOverridePayload) : option Codex.CodexPrices := match p with P_Codex q => Some (codex_prices q) | _ => None end.
Definition as_codex_credits (p : TariffOverridePayload) : option Codex.CodexCreditRates :=
  match p with P_CodexCredits q => Some (book_codex_credit_rates q) | _ => None end.
Definition as_gemini (p : TariffOverridePayload) : option Gemini.GeminiPrices := match p with P_Gemini q => Some (gemini_prices q) | _ => None end.
Definition as_glm (p : TariffOverridePayload) : option TurnPrices := match p with P_Glm q => Some (glm_prices q) | _ => None end.
Definition as_glm_credits (p : TariffOverridePayload) : option Glm.GlmCreditRates := match p with P_GlmCredits q => Some (glm_credit_rates q) | _ => None end.
Definition as_kimi (p : TariffOverridePayload) : option TurnPrices := match p with P_Kimi q => Some (kimi_prices q) | _ => None end.
Definition as_openai_image (p : TariffOverridePayload) : option OpenAiImage.OpenAiImagePrices :=
  match p with P_OpenAiImage q => Some (openai_image_prices q) | _ => None end.

(** ** The compiled catalogue a seed is taken from ([tariff_admin.rs]) *)
Definition anthropic_payload (p : Prices) : AnthropicTariffPrices :=
  mkAnthropicT (p_input p) (p_output p) (p_cache_read p) (p_cache_write_5m p) (p_cache_write_1h p).
Definition codex_payload (p : Codex.CodexPrices) : CodexTariffPrices :=
  mkCodexT (Codex.input p) (Codex.cached_input p) (Codex.cache_write_input p) (Codex.output p) (Codex.api_fast_multiplier_basis_points p)
    (Codex.long_context_threshold p) (Codex.long_input_basis_points p) (Codex.long_output_basis_points p).
Definition codex_credit_payload (p : Codex.CodexCreditRates) : CodexTariffCreditRates :=
  mkCodexCreditsT (Codex.cr_input p) (Codex.cr_cached_input p) (Codex.cr_output p).
Definition gemini_payload (p : Gemini.GeminiPrices) : GeminiTariffPrices :=
  mkGeminiT (Gemini.input p) (Gemini.audio_input p) (Gemini.cached_input p) (Gemini.cached_audio_input p) (Gemini.output p)
    (Gemini.image_output p) (Gemini.long_context_threshold p) (Gemini.long_input p) (Gemini.long_audio_input p)
    (Gemini.long_cached_input p) (Gemini.long_cached_audio_input p) (Gemini.long_output p)
    (match Gemini.search p with Gemini.PerQuery n => T_PerQuery n | Gemini.PerGroundedPrompt n => T_PerGroundedPrompt n end).
Definition glm_payload (p : TurnPrices) : GlmTariffPrices := mkGlmT (cached_input p) (input p) (cache_write p) (output p).
Definition glm_credit_payload (p : Glm.GlmCreditRates) : GlmTariffCreditRates :=
  mkGlmCreditsT (Glm.input_tenths p) (Glm.cached_input_tenths p) (Glm.output_tenths p).
Definition kimi_payload (p : TurnPrices) : KimiTariffPrices := mkKimiT (cached_input p) (input p) (cache_write p) (output p).
Definition openai_image_payload (p : OpenAiImage.OpenAiImagePrices) : OpenAiImageTariffPrices :=
  mkImageT (OpenAiImage.fresh_text_input p) (OpenAiImage.cached_text_input p) (OpenAiImage.fresh_image_input p)
    (OpenAiImage.cached_image_input p) (OpenAiImage.image_output p).

Record CompiledTariff := mkCompiled { ct_family : string; ct_payload : Value; has_future_epoch : bool; seed_safe : bool }.
Fixpoint family_bytes (s : string) : list Z :=
  match s with EmptyString => [] | String c s => byte_of c :: family_bytes s end.

Section Catalogue.
  Context `{PayloadSerde}.
(** One entry: a family, its payload and the two flags of its schedule. *)
Definition compiled_entry {P} (wrap : P -> TariffOverridePayload) (future safe : string -> bool) (x : string * P) : CompiledTariff :=
  mkCompiled x.1 (to_canonical_value (wrap x.2)) (future x.1) (safe x.1).
Definition single_epoch {P} (wrap : P -> TariffOverridePayload) : string * P -> CompiledTariff :=
  compiled_entry wrap (fun _ => false) (fun _ => true).
Definition unsorted_catalog_at (now_unix : Z) : list CompiledTariff :=
  map (single_epoch (fun p => P_Anthropic (anthropic_payload p))) (anthropic_compiled_tariffs_at now_unix)
  ++ map (compiled_entry (fun p => P_Codex (codex_payload p))
       (fun f => Codex.codex_tariff_has_future_epoch_at f now_unix) Codex.codex_tariff_seed_safe) (Codex.codex_compiled_tariffs_at now_unix)
  ++ map (single_epoch (fun p => P_CodexCredits (codex_credit_payload p))) Codex.codex_compiled_credit_rates
  ++ map (compiled_entry (fun p => P_Gemini (gemini_payload p))
       (fun f => Gemini.gemini_tariff_has_future_epoch_at f now_unix) Gemini.gemini_tariff_seed_safe) (Gemini.gemini_compiled_tariffs_at now_unix)
  ++ map (compiled_entry (fun p => P_Glm (glm_payload p))
       (fun f => Glm.glm_tariff_has_future_epoch_at f now_unix) Glm.glm_tariff_seed_safe) (Glm.glm_compiled_tariffs_at now_unix)
  ++ map (single_epoch (fun p => P_GlmCredits (glm_credit_payload p))) Glm.glm_compiled_credit_rates
  ++ map (compiled_entry (fun p => P_Kimi (kimi_payload p))
       (fun f => Kimi.kimi_tariff_has_future_epoch_at f now_unix) Kimi.kimi_tariff_seed_safe) (Kimi.kimi_compiled_tariffs_at now_unix)
  ++ [single_epoch (fun p => P_OpenAiImage (openai_image_payload p)) OpenAiImage.openai_image_compiled_tariff].
Definition compiled_tariff_catalog_at (now_unix : Z) : list CompiledTariff :=
  sort_by (fun c => family_bytes (ct_family c)) (unsorted_catalog_at now_unix).
(** The families a seed refuses, or none. *)
Definition ensure_seed_safe (targets : list CompiledTariff) : result (list string) () :=
  match map ct_family (List.filter (fun c => negb (seed_safe c)) targets) with
  | [] => Ok ()
  | unsafe_families => Err unsafe_families
  end.
End Catalogue.

(** ** What a payload parses to *)
Definition segment (family prefix : string) (k : kind) : option kind :=
  if str_bytes family =? str_bytes prefix then None else Some k.
Definition family_kind (family : string) : option kind :=
  if starts_with "anthropic/" family then segment family "anthropic/" KAnthropic
  else if starts_with "google/gemini/" family then segment family "google/gemini/" KGemini
  else if starts_with "openai/codex/" family then segment family "openai/codex/" KCodex
  else if bool_decide (family = "chatgpt/codex-credits") || starts_with "chatgpt/codex-credits/" family then Some KCodexCredits
  else if starts_with "zhipu/glm-credits/" family then segment family "zhipu/glm-credits/" KGlmCredits
  else if starts_with "zhipu/glm/" family then segment family "zhipu/glm/" KGlm
  else if starts_with "moonshot/kimi/" family then segment family "moonshot/kimi/" KKimi
  else if bool_decide (family = "openai/gpt-image-2") then Some KImage
  else None.
Definition family_prefix (family : string) : bool :=
  existsb (fun p => starts_with p family)
    ["anthropic/"; "google/gemini/"; "openai/codex/"; "zhipu/glm-credits/"; "zhipu/glm/"; "moonshot/kimi/"].
Definition payload_valid (p : TariffOverridePayload) : bool :=
  match p with
  | P_Anthropic p => AnthropicTariffPrices_validate p
  | P_Gemini p => GeminiTariffPrices_validate p && (0 <=? search_nano (gt_search p))
  | P_Codex p => CodexTariffPrices_validate p
      && non_negative [ct_api_fast_multiplier_basis_points p; ct_long_input_basis_points p; ct_long_output_basis_points p]
  | P_CodexCredits p => CodexTariffCreditRates_validate p
  | P_Glm p => GlmTariffPrices_validate p
  | P_GlmCredits p => GlmTariffCreditRates_validate p
  | P_Kimi p => KimiTariffPrices_validate p
  | P_OpenAiImage p => OpenAiImageTariffPrices_validate p
  end.

Section ParseFacts.
  Context `{PayloadSerdeOk}.
(** Reading a value as the payload of a family: the kind of the family decides. *)
Lemma parse_cases family v : parse_tariff_override_payload family v =
  if negb (is_object v) then Err NotAnObject
  else match family_kind family with
       | Some k => p ← ok_or (from_kind k v) Malformed; _ ← guard_ok (payload_valid p) NegativeLeg; Ok p
       | None => Err (if family_prefix family then MissingSegment else UnknownFamily)
       end.
Proof.
  unfold parse_tariff_override_payload, family_kind, family_prefix, require_family_segment, segment, typed.
  cbn [existsb]. destruct (negb (is_object v)); [done|].
  destruct (starts_with "anthropic/" family); [|destruct (starts_with "google/gemini/" family);
    [|destruct (starts_with "openai/codex/" family); [|destruct (bool_decide (family = "chatgpt/codex-credits") || _);
    [|destruct (starts_with "zhipu/glm-credits/" family); [|destruct (starts_with "zhipu/glm/" family);
    [|destruct (starts_with "moonshot/kimi/" family); [|destruct (bool_decide (family = "openai/gpt-image-2")); [|done]]]]]]]];
  repeat match goal with |- context [str_bytes family =? ?n] => destruct (str_bytes family =? n); [done|] end;
  cbn; by match goal with |- context [ok_or (?f v) _] => destruct (f v) end.
Qed.
(** A payload that parses has the kind of its family, valid legs and fitting values. *)
Lemma parse_kind family v p : parse_tariff_override_payload family v = Ok p ->
  family_kind family = Some (payload_kind p) /\ payload_valid p = true /\ payload_widths p.
Proof.
  rewrite parse_cases. destruct (negb _); [done|]. destruct (family_kind family) as [k|]; [|done].
  intros H'. inv_ok. match goal with F : from_kind k v = Some _ |- _ => rename F into Hf end.
  split; [|eauto using from_widths]. f_equal. revert Hf. destruct k; cbn; by intros (? & _ & ->)%fmap_Some.
Qed.
(** The canonical form of a valid payload parses back to it. *)
Lemma parse_canonical family p : family_kind family = Some (payload_kind p) -> payload_valid p = true -> payload_widths p ->
  parse_tariff_override_payload family (to_canonical_value p) = Ok p.
Proof. intros Hk Hv Hw. rewrite parse_cases, canonical_object, Hk, from_canonical by done. cbn. by rewrite Hv. Qed.
End ParseFacts.

(** ** Decimal strings *)
Lemma parse_unsigned s z : unsigned_value s = Some z -> parse_i128 s = checked_i128 z.
Proof.
  intros H. destruct (unsigned_head s z H) as (c & s' & -> & Hc). cbn [parse_i128].
  unfold byte_between in Hc. rewrite andb_true_iff, !Z.leb_le in Hc.
  rewrite !(proj2 (Z.eqb_neq _ _)) by lia. by rewrite H.
Qed.
Lemma parse_pretty z : parse_i128 (pretty z) = checked_i128 z.
Proof.
  destruct z as [|x|x]; [done|apply parse_unsigned, (pretty_digits (Npos x))|].
  change (pretty (Zneg x)) with (String (Ascii.ascii_of_nat 45) (pretty (Npos x))). cbn [parse_i128].
  change (byte_of (Ascii.ascii_of_nat 45) =? 45) with true. cbn iota. by rewrite pretty_digits.
Qed.
Lemma i128_read v z : i128_deserialize v = Some z <-> is_i128 z /\ v = i128_serialize z.
Proof.
  unfold i128_deserialize, i128_serialize. split.
  - intros (raw & Hr & (value & Hp & Hb)%bind_Some)%bind_Some. case_bool_decide as E; [|done]. injection Hb as <-.
    destruct v; try done. injection Hr as ->. subst. rewrite parse_pretty, checked_i128_Some in Hp. naive_solver.
  - intros [Hz ->]. cbn [as_str]. change (mbind ?f (Some ?x)) with (f x). cbv beta.
    rewrite parse_pretty, (proj2 (checked_i128_Some z z)) by done. cbn. by rewrite bool_decide_true.
Qed.
Lemma i128_back z : is_i128 z -> i128_deserialize (i128_serialize z) = Some z.
Proof. intros. by apply i128_read. Qed.
(** [i128_string] is exact: it reads a value as a money leg exactly when the
    value is the canonical decimal string of an integer in [i128], and that is the
    string it writes.  Numbers, floats, signs, leading zeros, blanks and integers
    out of range are refused. *)
Theorem i128_string_exact (v : Value) (z : Z) :
  i128_deserialize v = Some z <-> is_i128 z /\ v = i128_serialize z.
Proof. apply i128_read. Qed.
Example i128_refusals :
  map i128_deserialize [VString "+5"; VString "007"; VString "-0"; VString " 5"; VString ""; VString "-";
    VNumber (PosInt 5); VString "170141183460469231731687303715884105728"] = replicate 8 None /\
  i128_deserialize (VString "-170141183460469231731687303715884105728") = Some i128_min.
Proof. by vm_compute. Qed.

(** ** A codec with these laws: an object with exactly the fields of the struct, in
    the order of its sorted map, money legs as decimal strings *)
Definition fields_of (names : list string) (v : Value) : option (list Value) :=
  match v with VObject fs => if bool_decide (fs.*1 = names) then Some fs.*2 else None | _ => None end.
Definition legs_of (names : list string) (v : Value) : option (list Z) := fields_of names v >>? mapM i128_deserialize.
Definition object (names : list string) (vs : list Value) : Value := VObject (zip names vs).
Definition legs_object (names : list string) (legs : list Z) : Value := object names (i128_serialize <$> legs).
Definition u64_read (v : Value) : option Z := as_u64 v >>? checked_u64.
Definition i64_write (z : Z) : Value := VNumber (if z <? 0 then NegInt z else PosInt z).
Definition i64_read (v : Value) : option Z :=
  match v with VNumber (PosInt z) | VNumber (NegInt z) => checked_i64 z | _ => None end.

Lemma fields_back names vs : length names = length vs -> fields_of names (object names vs) = Some vs.
Proof. intros E. cbn. rewrite fst_zip, snd_zip by lia. by rewrite bool_decide_true. Qed.
Lemma legs_back names l : length names = length l -> Forall is_i128 l -> legs_of names (legs_object names l) = Some l.
Proof.
  intros E Hl. unfold legs_of, legs_object. rewrite fields_back by (by rewrite length_fmap). cbn.
  clear E. induction Hl as [|z l Hz _ IH]; [done|]. rewrite fmap_cons. cbn [mapM]. rewrite i128_back by done. cbn. by rewrite IH.
Qed.
Lemma legs_widths names v l : legs_of names v = Some l -> Forall is_i128 l.
Proof.
  intros (fs & _ & H)%bind_Some. apply mapM_Some in H. induction H as [|? ? ? ? Hz _ IH]; constructor; [|done].
  by apply i128_read in Hz as [? _].
Qed.
Lemma u64_back z : is_u64 z -> u64_read (VNumber (PosInt z)) = Some z.
Proof. intros. by apply checked_u64_Some. Qed.
Lemma i64_back z : is_i64 z -> i64_read (i64_write z) = Some z.
Proof. intros. unfold i64_write. destruct (z <? 0); by apply checked_i64_Some. Qed.

Module FieldCodec.
Definition anthropic_names := ["cache_read"; "cache_write_1h"; "cache_write_5m"; "input"; "output"].
Definition gemini_names := ["audio_input"; "cached_audio_input"; "cached_input"; "image_output"; "input"; "long_audio_input";
  "long_cached_audio_input"; "long_cached_input"; "long_context_threshold"; "long_input"; "long_output"; "output"; "search"].
Definition codex_names := ["api_fast_multiplier_basis_points"; "cache_write_input"; "cached_input"; "input"; "long_context_threshold";
  "long_input_basis_points"; "long_output_basis_points"; "output"].
Definition codex_credit_names := ["cached_input"; "input"; "output"].
Definition turn_names := ["cache_write"; "cached_input"; "input"; "output"].
Definition glm_credit_names := ["cached_input_tenths"; "input_tenths"; "output_tenths"].
Definition image_names := ["cached_image_input"; "cached_text_input"; "fresh_image_input"; "fresh_text_input"; "image_output"].
Definition search_names := ["kind"; "nano"].
Definition search_of (v : Value) : option GeminiTariffSearchBilling :=
  match fields_of search_names v with
  | Some [VString k; n] =>
      nano ← i128_deserialize n;
      if bool_decide (k = "per_query") then Some (T_PerQuery nano)
      else if bool_decide (k = "per_grounded_prompt") then Some (T_PerGroundedPrompt nano) else None
  | _ => None
  end.
Definition search_value (s : GeminiTariffSearchBilling) : Value :=
  match s with
  | T_PerQuery n => object search_names [VString "per_query"; i128_serialize n]
  | T_PerGroundedPrompt n => object search_names [VString "per_grounded_prompt"; i128_serialize n]
  end.
Definition anthropic_of (v : Value) : option AnthropicTariffPrices :=
  match legs_of anthropic_names v with Some [r; w1; w5; i; o] => Some (mkAnthropicT i o r w5 w1) | _ => None end.
Definition gemini_of (v : Value) : option GeminiTariffPrices :=
  match fields_of gemini_names v with
  | Some [a; ca; c; im; i; la; lca; lc; t; li; lo; o; s] =>
      a ← i128_deserialize a; ca ← i128_deserialize ca; c ← i128_deserialize c; im ← i128_deserialize im; i ← i128_deserialize i;
      la ← i128_deserialize la; lca ← i128_deserialize lca; lc ← i128_deserialize lc; t ← u64_read t; li ← i128_deserialize li;
      lo ← i128_deserialize lo; o ← i128_deserialize o; s ← search_of s;
      Some (mkGeminiT i a c ca o im t li la lc lca lo s)
  | _ => None
  end.
Definition codex_of (v : Value) : option CodexTariffPrices :=
  match fields_of codex_names v with
  | Some [f; w; c; i; t; li; lo; o] =>
      f ← i64_read f; w ← i128_deserialize w; c ← i128_deserialize c; i ← i128_deserialize i; t ← u64_read t;
      li ← i64_read li; lo ← i64_read lo; o ← i128_deserialize o; Some (mkCodexT i c w o f t li lo)
  | _ => None
  end.
Definition codex_credits_of (v : Value) : option CodexTariffCreditRates :=
  match legs_of codex_credit_names v with Some [c; i; o] => Some (mkCodexCreditsT i c o) | _ => None end.
Definition glm_of (v : Value) : option GlmTariffPrices :=
  match legs_of turn_names v with Some [w; c; i; o] => Some (mkGlmT c i w o) | _ => None end.
Definition glm_credits_of (v : Value) : option GlmTariffCreditRates :=
  match legs_of glm_credit_names v with Some [c; i; o] => Some (mkGlmCreditsT i c o) | _ => None end.
Definition kimi_of (v : Value) : option KimiTariffPrices :=
  match legs_of turn_names v with Some [w; c; i; o] => Some (mkKimiT c i w o) | _ => None end.
Definition image_of (v : Value) : option OpenAiImageTariffPrices :=
  match legs_of image_names v with Some [ci; ct; fi; ft; o] => Some (mkImageT ft ct fi ci o) | _ => None end.
Definition value_of (p : TariffOverridePayload) : Value :=
  match p with
  | P_Anthropic p => legs_object anthropic_names [at_cache_read p; at_cache_write_1h p; at_cache_write_5m p; at_input p; at_output p]
  | P_Gemini p => object gemini_names
      ((i128_serialize <$> [gt_audio_input p; gt_cached_audio_input p; gt_cached_input p; gt_image_output p; gt_input p;
          gt_long_audio_input p; gt_long_cached_audio_input p; gt_long_cached_input p])
       ++ [VNumber (PosInt (gt_long_context_threshold p)); i128_serialize (gt_long_input p); i128_serialize (gt_long_output p);
           i128_serialize (gt_output p); search_value (gt_search p)])
  | P_Codex p => object codex_names
      [i64_write (ct_api_fast_multiplier_basis_points p); i128_serialize (ct_cache_write_input p); i128_serialize (ct_cached_input p);
       i128_serialize (ct_input p); VNumber (PosInt (ct_long_context_threshold p)); i64_write (ct_long_input_basis_points p);
       i64_write (ct_long_output_basis_points p); i128_serialize (ct_output p)]
  | P_CodexCredits p => legs_object codex_credit_names [cct_cached_input p; cct_input p; cct_output p]
  | P_Glm p => legs_object turn_names [glt_cache_write p; glt_cached_input p; glt_input p; glt_output p]
  | P_GlmCredits p => legs_object glm_credit_names [glct_cached_input_tenths p; glct_input_tenths p; glct_output_tenths p]
  | P_Kimi p => legs_object turn_names [kt_cache_write p; kt_cached_input p; kt_input p; kt_output p]
  | P_OpenAiImage p => legs_object image_names
      [it_cached_image_input p; it_cached_text_input p; it_fresh_image_input p; it_fresh_text_input p; it_image_output p]
  end.
Definition serde : PayloadSerde := {|
  from_anthropic := anthropic_of; from_gemini := gemini_of; from_codex := codex_of; from_codex_credits := codex_credits_of;
  from_glm := glm_of; from_glm_credits := glm_credits_of; from_kimi := kimi_of; from_openai_image := image_of;
  to_canonical_value := value_of |}.
Lemma search_back s : is_i128 (search_nano s) -> search_of (search_value s) = Some s.
Proof. intros H. destruct s as [n|n]; unfold search_of, search_value; rewrite fields_back by done; by rewrite i128_back. Qed.
Lemma search_widths v s : search_of v = Some s -> is_i128 (search_nano s).
Proof.
  unfold search_of. destruct (fields_of _ _) as [[|[] [|n []]]|]; try done. intros (nano & [H _]%i128_read & Hs)%bind_Some.
  revert Hs. repeat case_bool_decide; naive_solver.
Qed.

Lemma value_of_object p : is_object (value_of p) = true.
Proof. by destruct p. Qed.
Lemma i64_read_width v z : i64_read v = Some z -> is_i64 z.
Proof. destruct v as [| |[]| | |]; try done; cbn; by intros [-> ?]%checked_i64_Some. Qed.
Ltac one_width := match goal with
  | H : legs_of _ _ = Some _ |- _ => apply legs_widths in H
  | H : _ ≫= _ = Some _ |- _ => apply bind_Some in H as (? & ? & H)
  | H : i128_deserialize _ = Some _ |- _ => apply i128_read in H as [? _]
  | H : search_of _ = Some _ |- _ => apply search_widths in H
  | H : u64_read _ = Some _ |- _ => apply bind_Some in H as (? & _ & [-> ?]%checked_u64_Some)
  | H : i64_read _ = Some _ |- _ => apply i64_read_width in H
  end.
Lemma codec_widths k v p : from_kind (H:=serde) k v = Some p -> payload_widths p.
Proof.
  unfold payload_widths. destruct k; cbn; intros (q & Hq & ->)%fmap_Some; revert Hq.
  all: unfold anthropic_of, gemini_of, codex_of, codex_credits_of, glm_of, glm_credits_of, kimi_of, image_of.
  all: repeat case_match; try done; intros Hq; repeat one_width; simplify_eq/=; rewrite ?Forall_cons, ?Forall_nil in *; tauto.
Qed.
Lemma codec_back p : payload_widths p -> from_kind (H:=serde) (payload_kind p) (value_of p) = Some p.
Proof.
  unfold payload_widths. intros (Hl & Ht & Hm). destruct p as [q|q|q|q|q|q|q|q]; destruct q; cbn [money_legs thresholds multipliers
    payload_kind value_of from_kind from_anthropic from_gemini from_codex from_codex_credits from_glm from_glm_credits from_kimi
    from_openai_image serde at_input at_output at_cache_read at_cache_write_5m at_cache_write_1h] in *.
  all: unfold anthropic_of, gemini_of, codex_of, codex_credits_of, glm_of, glm_credits_of, kimi_of, image_of.
  all: rewrite ?Forall_cons, ?Forall_nil in *; destruct_and?.
  all: try (rewrite legs_back by (done || (rewrite ?Forall_cons, ?Forall_nil; tauto)); done).
  all: rewrite fields_back by done; cbn [app fmap list_fmap].
  - rewrite !i128_back, u64_back by done. cbn. rewrite search_back by done. done.
  - rewrite !i128_back, !i64_back, u64_back by done. done.
Qed.
#[global] Instance serde_ok : PayloadSerdeOk (H:=serde).
Proof. split; [apply value_of_object|apply codec_widths|apply codec_back]. Qed.
End FieldCodec.

(** ** The compiled catalogue *)
#[global] Instance Anthropic_eq_dec : EqDecision AnthropicTariffPrices.
Proof. solve_decision. Defined.
#[global] Instance Search_eq_dec : EqDecision GeminiTariffSearchBilling.
Proof. solve_decision. Defined.
#[global] Instance Gemini_eq_dec : EqDecision GeminiTariffPrices.
Proof. solve_decision. Defined.
#[global] Instance Codex_eq_dec : EqDecision CodexTariffPrices.
Proof. solve_decision. Defined.
#[global] Instance CodexCredits_eq_dec : EqDecision CodexTariffCreditRates.
Proof. solve_decision. Defined.
#[global] Instance Glm_eq_dec : EqDecision GlmTariffPrices.
Proof. solve_decision. Defined.
#[global] Instance GlmCredits_eq_dec : EqDecision GlmTariffCreditRates.
Proof. solve_decision. Defined.
#[global] Instance Kimi_eq_dec : EqDecision KimiTariffPrices.
Proof. solve_decision. Defined.
#[global] Instance Image_eq_dec : EqDecision OpenAiImageTariffPrices.
Proof. solve_decision. Defined.
#[global] Instance Payload_eq_dec : EqDecision TariffOverridePayload.
Proof. solve_decision. Defined.
#[global] Instance payload_widths_dec p : Decision (payload_widths p).
Proof. unfold payload_widths. apply _. Defined.

Definition typed_family {P} (wrap : P -> TariffOverridePayload) (x : string * P) : string * TariffOverridePayload := (x.1, wrap x.2).
(** The typed payloads behind the entries of a catalogue. *)
Definition typed_catalog_at (now_unix : Z) : list (string * TariffOverridePayload) :=
  (typed_family (fun p => P_Anthropic (anthropic_payload p)) <$> anthropic_compiled_tariffs_at now_unix)
  ++ (typed_family (fun p => P_Codex (codex_payload p)) <$> Codex.codex_compiled_tariffs_at now_unix)
  ++ (typed_family (fun p => P_CodexCredits (codex_credit_payload p)) <$> Codex.codex_compiled_credit_rates)
  ++ (typed_family (fun p => P_Gemini (gemini_payload p)) <$> Gemini.gemini_compiled_tariffs_at now_unix)
  ++ (typed_family (fun p => P_Glm (glm_payload p)) <$> Glm.glm_compiled_tariffs_at now_unix)
  ++ (typed_family (fun p => P_GlmCredits (glm_credit_payload p)) <$> Glm.glm_compiled_credit_rates)
  ++ (typed_family (fun p => P_Kimi (kimi_payload p)) <$> Kimi.kimi_compiled_tariffs_at now_unix)
  ++ (typed_family (fun p => P_OpenAiImage (openai_image_payload p)) <$> [OpenAiImage.openai_image_compiled_tariff]).
(** Every payload any catalogue can list: one per family and price epoch. *)
Definition epoch_payloads {E P} (family : E -> string) (payloads : E -> list P) (wrap : P -> TariffOverridePayload)
    (entries : list E) : list (string * TariffOverridePayload) :=
  flat_map (fun e => map (fun p => (family e, wrap p)) (payloads e)) entries.
Definition all_payloads : list (string * TariffOverridePayload) :=
  (typed_family (fun p => P_Anthropic (anthropic_payload p)) <$> anthropic_compiled_tariffs_at 0)
  ++ epoch_payloads Codex.tariff_family (fun e => (fun ep => Codex.prices_of (eprices ep)) <$> epochs (Codex.schedule e))
       (fun p => P_Codex (codex_payload p)) Codex.CATALOG
  ++ (typed_family (fun p => P_CodexCredits (codex_credit_payload p)) <$> Codex.codex_compiled_credit_rates)
  ++ epoch_payloads Gemini.tariff_family (fun e => eprices <$> epochs (Gemini.schedule e))
       (fun p => P_Gemini (gemini_payload p)) Gemini.CATALOG
  ++ epoch_payloads Glm.tariff_family (fun e => eprices <$> epochs (Glm.schedule e)) (fun p => P_Glm (glm_payload p)) Glm.CATALOG
  ++ (typed_family (fun p => P_GlmCredits (glm_credit_payload p)) <$> Glm.glm_compiled_credit_rates)
  ++ epoch_payloads Kimi.tariff_family (fun e => eprices <$> epochs (Kimi.schedule e)) (fun p => P_Kimi (kimi_payload p)) Kimi.CATALOG
  ++ (typed_family (fun p => P_OpenAiImage (openai_image_payload p)) <$> [OpenAiImage.openai_image_compiled_tariff]).
(** The seed flag of a family. *)
Definition family_seed_safe (family : string) : bool :=
  match family_kind family with
  | Some KCodex => Codex.codex_tariff_seed_safe family
  | Some KGemini => Gemini.gemini_tariff_seed_safe family
  | Some KGlm => Glm.glm_tariff_seed_safe family
  | Some KKimi => Kimi.kimi_tariff_seed_safe family
  | _ => true
  end.
Lemma all_payloads_ok x : x ∈ all_payloads ->
  validate_tariff_family x.1 = true /\ family_kind x.1 = Some (payload_kind x.2) /\ payload_valid x.2 = true /\ payload_widths x.2.
Proof.
  revert x. apply Forall_forall. apply (bool_decide_unpack _). vm_compute. exact I.
Qed.
Lemma all_payloads_seed x y : x ∈ all_payloads -> y ∈ all_payloads -> x.1 = y.1 -> family_seed_safe x.1 = true -> x.2 = y.2.
Proof.
  intros Hx Hy. assert (Forall (fun x => Forall (fun y => x.1 = y.1 -> family_seed_safe x.1 = true -> x.2 = y.2) all_payloads) all_payloads) as HF
    by (apply (bool_decide_unpack _); vm_compute; exact I).
  rewrite Forall_forall in HF. specialize (HF x Hx). rewrite Forall_forall in HF. by apply HF.
Qed.
Lemma fold_pick_elem {A} (b : A -> bool) (l : list A) : forall cur,
  fold_left (fun cur e => if b e then e else cur) l cur ∈ cur :: l.
Proof.
  induction l as [|e l IH]; intros cur; cbn; [by left|]. specialize (IH (if b e then e else cur)). destruct (b e); set_solver.
Qed.
Lemma codex_prices_elem s now : Codex.prices_at s now ∈ (fun ep => Codex.prices_of (eprices ep)) <$> epochs s.
Proof.
  unfold Codex.prices_at. apply (list_elem_of_fmap_2 (fun ep => Codex.prices_of (eprices ep))). unfold Codex.price_epoch_at.
  pose proof (fold_pick_elem (fun e => effective_from e <=? now) (epochs s) s.1) as H.
  apply elem_of_cons in H as [->|H]; [unfold epochs; set_solver|done].
Qed.
Lemma inventory_sub {P} (l : list (string * P)) : forall acc x, x ∈ fold_left Codex.push_family l acc -> x ∈ acc ++ l.
Proof.
  induction l as [|z l IH]; intros acc x Hx; cbn in Hx; [by rewrite app_nil_r|].
  apply IH in Hx. rewrite elem_of_app, Codex.push_family_spec in Hx. set_solver.
Qed.
Lemma elem_epochs {E P} (family : E -> string) (payloads : E -> list P) wrap entries e p :
  e ∈ entries -> p ∈ payloads e -> (family e, wrap p) ∈ epoch_payloads family payloads wrap entries.
Proof.
  intros He Hp. unfold epoch_payloads. rewrite list_elem_of_In, List.in_flat_map. rewrite list_elem_of_In in He. exists e.
  split; [done|]. rewrite <- list_elem_of_In. by apply (list_elem_of_fmap_2 (fun p => (family e, wrap p))).
Qed.
Lemma typed_covered now x : x ∈ typed_catalog_at now -> x ∈ all_payloads.
Proof.
  unfold typed_catalog_at, all_payloads. rewrite !elem_of_app. intros H.
  destruct H as [H|[H|[H|[H|[H|[H|[H|H]]]]]]];
    [left|right; left|by do 2 right; left|do 3 right; left|do 4 right; left|by do 5 right; left|do 6 right; left|by do 7 right];
    apply list_elem_of_fmap in H as (y & -> & Hy); unfold typed_family.
  - apply (list_elem_of_fmap_2 (typed_family (fun p => P_Anthropic (anthropic_payload p)))). revert Hy. unfold anthropic_compiled_tariffs_at.
    change (0 <? SONNET5_STD_START) with true. destruct (now <? _); [done|]. set_solver.
  - rewrite Codex.compiled_fold in Hy. apply inventory_sub in Hy. apply list_elem_of_fmap in Hy as (e & -> & He).
    apply (elem_epochs Codex.tariff_family _ (fun p => P_Codex (codex_payload p))); [done|apply codex_prices_elem].
  - apply list_elem_of_fmap in Hy as (e & -> & He).
    apply (elem_epochs Gemini.tariff_family _ (fun p => P_Gemini (gemini_payload p))); [done|apply prices_at_elem].
  - apply list_elem_of_fmap in Hy as (e & -> & He).
    apply (elem_epochs Glm.tariff_family _ (fun p => P_Glm (glm_payload p))); [done|apply prices_at_elem].
  - apply list_elem_of_fmap in Hy as (e & -> & He).
    apply (elem_epochs Kimi.tariff_family _ (fun p => P_Kimi (kimi_payload p))); [done|apply prices_at_elem].
Qed.

(** The families a catalogue lists. *)
Definition families_at (now_unix : Z) : list string := (typed_catalog_at now_unix).*1.
Lemma families_at_eq now : families_at now
  = if now <? SONNET5_STD_START then families_at 0 else families_at SONNET5_STD_START.
Proof. unfold families_at, typed_catalog_at, anthropic_compiled_tariffs_at. by destruct (now <? SONNET5_STD_START). Qed.
Lemma families_unique now : NoDup (families_at now).
Proof. rewrite families_at_eq. destruct (now <? _); apply (bool_decide_unpack _); vm_compute; exact I. Qed.

Definition family_has_future_epoch_at (family : string) (now_unix : Z) : bool :=
  match family_kind family with
  | Some KCodex => Codex.codex_tariff_has_future_epoch_at family now_unix
  | Some KGemini => Gemini.gemini_tariff_has_future_epoch_at family now_unix
  | Some KGlm => Glm.glm_tariff_has_future_epoch_at family now_unix
  | Some KKimi => Kimi.kimi_tariff_has_future_epoch_at family now_unix
  | _ => false
  end.
Section CatalogueFacts.
  Context `{PayloadSerdeOk}.
Definition typed_entry (now : Z) (x : string * TariffOverridePayload) : CompiledTariff :=
  mkCompiled x.1 (to_canonical_value x.2) (family_has_future_epoch_at x.1 now) (family_seed_safe x.1).
Lemma entries_typed {P} (wrap : P -> TariffOverridePayload) future safe now (l : list (string * P)) :
  (forall x, x ∈ l -> future x.1 = family_has_future_epoch_at x.1 now /\ safe x.1 = family_seed_safe x.1) ->
  map (compiled_entry wrap future safe) l = typed_entry now <$> (typed_family wrap <$> l).
Proof.
  intros Hx. rewrite <- list_fmap_compose. apply map_ext_in. intros x Hin%list_elem_of_In. unfold compiled_entry, typed_entry. cbn.
  by destruct (Hx x Hin) as [-> ->].
Qed.
Lemma unsorted_typed now : unsorted_catalog_at now = typed_entry now <$> typed_catalog_at now.
Proof.
  unfold unsorted_catalog_at. pose proof (fun x Hx => proj1 (proj2 (all_payloads_ok x (typed_covered now x Hx)))) as Hall.
  revert Hall. unfold typed_catalog_at. rewrite !fmap_app. intros Hall. unfold single_epoch.
  repeat apply f_equal2; try reflexivity. apply entries_typed. intros x Hx.
  assert (Hk : family_kind x.1 = Some KAnthropic).
  { apply (Hall (typed_family (fun p => P_Anthropic (anthropic_payload p)) x)). apply elem_of_app. left. by apply list_elem_of_fmap_2. }
  unfold family_has_future_epoch_at, family_seed_safe. by rewrite Hk.
Qed.
Lemma catalog_elem now c : c ∈ compiled_tariff_catalog_at now <-> exists x, x ∈ typed_catalog_at now /\ c = typed_entry now x.
Proof.
  unfold compiled_tariff_catalog_at. rewrite (proj1 (sort_by_spec _ _)), unsorted_typed, list_elem_of_fmap. naive_solver.
Qed.
Lemma entry_parses now x : x ∈ typed_catalog_at now ->
  parse_tariff_override_payload x.1 (to_canonical_value x.2) = Ok x.2.
Proof. intros (_ & Hk & Hv & Hw)%typed_covered%all_payloads_ok. by apply parse_canonical. Qed.

(** The book reads a seeded catalogue as the compiled inventory [l]. *)
Definition reads_back {P} (now : Z) (as_prices : TariffOverridePayload -> option P) (l : list (string * P)) : Prop :=
  forall fam p, (fam, p) ∈ l <-> exists c q, c ∈ compiled_tariff_catalog_at now /\ ct_family c = fam /\
    parse_tariff_override_payload fam (ct_payload c) = Ok q /\ as_prices q = Some p.
Lemma reads_typed {P} now (as_prices : TariffOverridePayload -> option P) l :
  (forall fam p, (fam, p) ∈ l <-> exists q, (fam, q) ∈ typed_catalog_at now /\ as_prices q = Some p) -> reads_back now as_prices l.
Proof.
  intros Hl fam p. rewrite Hl. split.
  - intros (q & Hq & Ha). exists (typed_entry now (fam, q)), q. split_and!; [|done| |done].
    + apply catalog_elem. by exists (fam, q).
    + by apply (entry_parses now (fam, q)).
  - intros (c & q & (x & Hx & ->)%catalog_elem & <- & Hp & Ha). cbn in *. rewrite (entry_parses now x Hx) in Hp.
    injection Hp as <-. exists x.2. by destruct x.
Qed.
Lemma gemini_trip p : gemini_prices (gemini_payload p) = p.
Proof. destruct p as [? ? ? ? ? ? ? ? ? ? ? ? []]; done. Qed.
Ltac read_inventory :=
  intros fam p; unfold typed_catalog_at; split;
  [intros Hin; eexists; split; [rewrite !elem_of_app, !list_elem_of_fmap;
     repeat (first [left; exists (fam, p); split; [reflexivity|exact Hin] | right]); (exists (fam, p); split; [reflexivity|exact Hin])
   |cbn [as_anthropic as_codex as_codex_credits as_gemini as_glm as_glm_credits as_kimi as_openai_image snd]; f_equal; first [apply gemini_trip|by destruct p]]
  |intros (q & Hq & Ha); rewrite !elem_of_app, !list_elem_of_fmap in Hq;
   destruct Hq as [Hq|[Hq|[Hq|[Hq|[Hq|[Hq|[Hq|Hq]]]]]]]; destruct Hq as ([f r] & [= -> ->] & Hr); 
   cbn [as_anthropic as_codex as_codex_credits as_gemini as_glm as_glm_credits as_kimi as_openai_image snd] in Ha; try discriminate Ha;
   injection Ha as <-; first [rewrite gemini_trip; exact Hr|destruct r; exact Hr]].
Lemma anthropic_reads now : reads_back now as_anthropic (anthropic_compiled_tariffs_at now).
Proof. apply reads_typed. read_inventory. Qed.
Lemma codex_reads now : reads_back now as_codex (Codex.codex_compiled_tariffs_at now).
Proof. apply reads_typed. read_inventory. Qed.
Lemma codex_credits_reads now : reads_back now as_codex_credits Codex.codex_compiled_credit_rates.
Proof. apply reads_typed. read_inventory. Qed.
Lemma gemini_reads now : reads_back now as_gemini (Gemini.gemini_compiled_tariffs_at now).
Proof.
  apply reads_typed. read_inventory.
Qed.
Lemma glm_reads now : reads_back now as_glm (Glm.glm_compiled_tariffs_at now).
Proof. apply reads_typed. read_inventory. Qed.
Lemma glm_credits_reads now : reads_back now as_glm_credits Glm.glm_compiled_credit_rates.
Proof. apply reads_typed. read_inventory. Qed.
Lemma kimi_reads now : reads_back now as_kimi (Kimi.kimi_compiled_tariffs_at now).
Proof. apply reads_typed. read_inventory. Qed.
Lemma image_reads now : reads_back now as_openai_image [OpenAiImage.openai_image_compiled_tariff].
Proof. apply reads_typed. read_inventory. Qed.

Lemma catalog_families now : ct_family <$> compiled_tariff_catalog_at now ≡ₚ families_at now.
Proof.
  unfold compiled_tariff_catalog_at. rewrite (proj1 (sort_by_spec _ _)), unsorted_typed, <- list_fmap_compose. done.
Qed.
Lemma entry_injective now now' x y : x ∈ typed_catalog_at now -> y ∈ typed_catalog_at now' ->
  x.1 = y.1 -> to_canonical_value x.2 = to_canonical_value y.2 -> x.2 = y.2.
Proof.
  intros Hx Hy Hf Hv. pose proof (entry_parses now x Hx) as Px. pose proof (entry_parses now' y Hy) as Py. congruence.
Qed.
(** Every family that is not safe to seed changes its price at one of the epochs. *)
Lemma unsafe_changes x : x ∈ typed_catalog_at 0 -> family_seed_safe x.1 = false ->
  exists now y, y ∈ typed_catalog_at now /\ y.1 = x.1 /\ y.2 <> x.2.
Proof.
  intros Hx Hs. pose (cuts := [1785369600; 1798761600]).
  assert (Forall (fun x => family_seed_safe x.1 = true \/
    Exists (fun now => Exists (fun y => y.1 = x.1 /\ y.2 <> x.2) (typed_catalog_at now)) cuts) (typed_catalog_at 0)) as HF
    by (apply (bool_decide_unpack _); vm_compute; exact I).
  rewrite Forall_forall in HF. destruct (HF x Hx) as [Ht|He]; [congruence|].
  apply Exists_exists in He as (now & _ & (y & Hy & ?)%Exists_exists). by exists now, y.
Qed.
Lemma family_at_zero now x : x ∈ typed_catalog_at now -> exists x0, x0 ∈ typed_catalog_at 0 /\ x0.1 = x.1.
Proof.
  intros Hx. assert (Hf : x.1 ∈ families_at now) by by apply list_elem_of_fmap_2.
  enough (x.1 ∈ families_at 0) as (x0 & ? & ?)%list_elem_of_fmap by eauto.
  rewrite families_at_eq in Hf. destruct (now <? _); [done|]. revert Hf. generalize (x.1). apply Forall_forall.
  apply (bool_decide_unpack _). vm_compute. exact I.
Qed.
Lemma seed_safe_timeless now c : c ∈ compiled_tariff_catalog_at now ->
  (seed_safe c = true <->
   forall now' c', c' ∈ compiled_tariff_catalog_at now' -> ct_family c' = ct_family c -> ct_payload c' = ct_payload c).
Proof.
  intros (x & Hx & ->)%catalog_elem. cbn. split.
  - intros Hs now' c' (y & Hy & ->)%catalog_elem Hf. cbn in *.
    rewrite (all_payloads_seed x y); [done|by apply (typed_covered now)|by apply (typed_covered now')|done|done].
  - intros Hall. destruct (family_seed_safe x.1) eqn:Hs; [done|]. exfalso.
    destruct (family_at_zero now x Hx) as (x0 & Hx0 & Hf0). rewrite <- Hf0 in Hs.
    destruct (unsafe_changes x0 Hx0 Hs) as (now' & y & Hy & Hf & Hne). apply Hne.
    assert (E : forall n z, z ∈ typed_catalog_at n -> z.1 = x.1 -> z.2 = x.2).
    { intros n z Hz Hzf. eapply entry_injective; [exact Hz|exact Hx|done|].
      apply (Hall n (typed_entry n z)); [|done]. apply catalog_elem. by exists z. }
    rewrite (E _ _ Hy), (E _ _ Hx0); congruence.
Qed.
Lemma ensure_safe targets : ensure_seed_safe targets = Ok () <-> Forall (fun c => seed_safe c = true) targets.
Proof.
  unfold ensure_seed_safe. induction targets as [|c l IH]; cbn; [by rewrite Forall_nil|]. rewrite Forall_cons, <- IH.
  destruct (seed_safe c); cbn; [tauto|]. split; [done|by intros [? _]].
Qed.

(** The compiled catalogue is exactly what the override book can hold.  At any
    time its families are distinct, sorted and well formed; every payload parses
    under its family, is already in canonical form, and each provider's
    inventory of compiled prices is exactly what the book's conversions read back
    from the catalogue. *)
Theorem seed_catalogue_exact (now : Z) :
  NoDup (ct_family <$> compiled_tariff_catalog_at now) /\
  ordered_by (fun c => family_bytes (ct_family c)) (compiled_tariff_catalog_at now) /\
  (forall c, c ∈ compiled_tariff_catalog_at now -> validate_tariff_family (ct_family c) = true /\
     exists q, parse_tariff_override_payload (ct_family c) (ct_payload c) = Ok q /\ to_canonical_value q = ct_payload c) /\
  reads_back now as_anthropic (anthropic_compiled_tariffs_at now) /\
  reads_back now as_codex (Codex.codex_compiled_tariffs_at now) /\
  reads_back now as_codex_credits Codex.codex_compiled_credit_rates /\
  reads_back now as_gemini (Gemini.gemini_compiled_tariffs_at now) /\
  reads_back now as_glm (Glm.glm_compiled_tariffs_at now) /\
  reads_back now as_glm_credits Glm.glm_compiled_credit_rates /\
  reads_back now as_kimi (Kimi.kimi_compiled_tariffs_at now) /\
  reads_back now as_openai_image [OpenAiImage.openai_image_compiled_tariff].
Proof.
  split; [rewrite catalog_families; apply families_unique|]. split; [apply sort_by_spec|].
  split; [|eauto 10 using anthropic_reads, codex_reads, codex_credits_reads, gemini_reads, glm_reads, glm_credits_reads, kimi_reads, image_reads].
  intros c (x & Hx & ->)%catalog_elem. cbn. split; [apply all_payloads_ok; eauto using typed_covered|].
  exists x.2. split; [by apply (entry_parses now)|done].
Qed.

(** A seed request is accepted exactly when a row that is effective from time
    zero reproduces the whole compiled schedule: every selected family has, at
    every other time its catalogue lists it, the very same payload. *)
Theorem seed_accepted_exactly_timeless (now : Z) (targets : list CompiledTariff)
    (Ht : forall c, c ∈ targets -> c ∈ compiled_tariff_catalog_at now) :
  ensure_seed_safe targets = Ok () <->
  forall c now' c', c ∈ targets -> c' ∈ compiled_tariff_catalog_at now' -> ct_family c' = ct_family c -> ct_payload c' = ct_payload c.
Proof.
  rewrite ensure_safe, Forall_forall. split.
  - intros Hs c now' c' Hc. by apply (proj1 (seed_safe_timeless now c (Ht c Hc)) (Hs c Hc)).
  - intros Hall c Hc. apply (seed_safe_timeless now c (Ht c Hc)). intros now' c'. by apply Hall.
Qed.
End CatalogueFacts.

Lemma seed_catalogue_exact_witness :
  reads_back (H:=FieldCodec.serde) 1788220800 as_gemini (Gemini.gemini_compiled_tariffs_at 1788220800) /\
  length (compiled_tariff_catalog_at (H:=FieldCodec.serde) 1788220800) = 42%nat.
Proof. split; [apply (seed_catalogue_exact (H:=FieldCodec.serde) 1788220800)|by vm_compute]. Defined.
(** At that time the whole catalogue is refused, and the KIMI families alone are accepted. *)
Lemma seed_accepted_exactly_timeless_witness :
  ensure_seed_safe (compiled_tariff_catalog_at (H:=FieldCodec.serde) 1788220800)
    = Err ["google/gemini/gemini-3.6-flash"; "google/gemini/gemini-3.7-flash"; "openai/codex/gpt-5.6-luna"; "openai/codex/gpt-5.6-sol";
           "openai/codex/gpt-5.6-terra"] /\
  forall c now' c', c ∈ List.filter (fun c => starts_with "moonshot/" (ct_family c)) (compiled_tariff_catalog_at (H:=FieldCodec.serde) 1788220800) ->
    c' ∈ compiled_tariff_catalog_at (H:=FieldCodec.serde) now' -> ct_family c' = ct_family c -> ct_payload c' = ct_payload c.
Proof.
  split; [by vm_compute|]. apply (seed_accepted_exactly_timeless (H:=FieldCodec.serde) 1788220800).
  - intros c Hc%elem_of_lfilter. tauto.
  - by vm_compute.
Defined.
