(* ===== verification/TariffBook.v ===== *)
(** * Hot tariff overrides

    The append-only override table and its writer
    ([crates/registry/src/pricing/tariffs.rs], migrations 0036 and 0037), the
    process-wide book read from it ([crates/forward/src/pricing/tariff_book.rs])
    and the two Control API operations that publish rows
    ([crates/server/src/admin.rs], [tariff_admin.rs]).

    The table is the list of its rows in insertion order.  Writers of one family
    hold its advisory lock, so an insert is one step.  The digest, the order of
    [ORDER BY] under the database's collation and the JSON codecs are parameters. *)
From S2P Require Import Prelude Text Waits Tariffs MeterUsage TurnMeter KimiTariffs GlmTariffs CodexTariffs GeminiTariffs MediaTariffs TariffPayload.

(** ** Rows *)
Record TariffOverride := mkOverride {
  tariff_family : string; version : Z; effective_from : Z; payload : Value; payload_digest : string;
  created_ts : Z; created_by : string; reason : string }.
Record TariffOverrideInsert := mkInsert {
  in_family : string; in_version : Z; in_effective_from : Z; in_payload : Value; in_created_by : string; in_reason : string }.
Inductive TariffOverrideRejection : Type :=
| Invalid
| Conflict (existing_digest : string) (existing_effective_from : Z)
| SequenceViolation (expected_next : Z).
Inductive TariffOverrideInsertOutcome : Type :=
| Inserted (row : TariffOverride)
| Unchanged (row : TariffOverride)
| Rejected (rejection : TariffOverrideRejection).
(** The errors of the authority itself. *)
Inductive AuthorityError : Type := VersionOverflow | IntegrityFailure | InvalidText.
Definition Table : Type := list TariffOverride.

Definition TARIFF_OVERRIDE_CLOCK_SKEW_GRACE_SECS : Z := 60.
Definition require_id (value : string) : bool :=
  negb (bool_decide (value = EmptyString)) && bool_decide (trim value = value).
Definition validate_tariff_override_insert (i : TariffOverrideInsert) : bool :=
  validate_tariff_family (in_family i) && negb (in_version i <? 2) && negb (in_effective_from i <? 0)
  && require_id (in_created_by i) && require_id (in_reason i).

(** [Iterator::max_by_key]: the last of the greatest. *)
Fixpoint max_by_key {A} (key : A -> Z) (l : list A) : option A :=
  match l with
  | [] => None
  | x :: l => match max_by_key key l with Some y => if key y <? key x then Some x else Some y | None => Some x end
  end.
Definition of_family (family : string) (row : TariffOverride) : bool := bool_decide (tariff_family row = family).
Definition resolve_tariff_override (rows : list TariffOverride) (family : string) (priced_ts : Z) : option TariffOverride :=
  max_by_key version (List.filter (fun row => of_family family row && (effective_from row <=? priced_ts)) rows).
Definition family_head_version (rows : list TariffOverride) (family : string) : Z :=
  default 1 (max_of (map version (List.filter (of_family family) rows))).

(** ** The authority *)
Definition hex_byte (b : Z) : bool := between 48 57 b || between 97 102 b.
Definition digest_format (s : string) : bool :=
  match strip_prefix "sha256:v2:" s with Some h => (str_bytes h =? 64) && all_bytes hex_byte h | None => false end.
Class Authority := {
  value_digest : Value -> string;
  order_by : Table -> Table }.
Class AuthorityOk `{Authority} : Prop := {
  value_digest_format : forall v, digest_format (value_digest v) = true;
  order_by_perm : forall t, order_by t ≡ₚ t }.

(** PostgreSQL text holds no NUL. *)
Definition pg_text (s : string) : bool := all_bytes (fun b => negb (b =? 0)) s.
(** The CHECKs and the sequence trigger of migrations 0036 and 0037. *)
Definition table_checks (row : TariffOverride) : bool :=
  (2 <=? version row) && (0 <=? effective_from row) && (0 <=? created_ts row)
  && negb (bool_decide (created_by row = EmptyString)) && negb (bool_decide (reason row = EmptyString))
  && digest_format (payload_digest row) && validate_tariff_family (tariff_family row).
Definition enforce_version (t : Table) (row : TariffOverride) : bool :=
  version row =? family_head_version t (tariff_family row) + 1.
Inductive db_error : Type := SequenceTrigger | CheckViolation.
Definition db_insert (t : Table) (row : TariffOverride) : result db_error Table :=
  if negb (enforce_version t row) then Err SequenceTrigger
  else if negb (table_checks row) then Err CheckViolation
  else Ok (t ++ [row]).

Section Store.
  Context `{Authority, PayloadSerde}.
Definition tariff_override_from_row (row : TariffOverride) : result AuthorityError TariffOverride :=
  if bool_decide (value_digest (payload row) = payload_digest row) then Ok row else Err IntegrityFailure.
Fixpoint collect_rows (rows : list TariffOverride) : result AuthorityError (list TariffOverride) :=
  match rows with
  | [] => Ok []
  | row :: rows => r ← tariff_override_from_row row; rs ← collect_rows rows; Ok (r :: rs)
  end.
Definition postgres_list_tariff_overrides (t : Table) : result AuthorityError (list TariffOverride) := collect_rows (order_by t).

Definition has_key (family : string) (v : Z) (row : TariffOverride) : bool := of_family family row && (version row =? v).
Definition new_row (i : TariffOverrideInsert) (now : Z) (canonical : Value) : TariffOverride :=
  mkOverride (in_family i) (in_version i) (in_effective_from i) canonical (value_digest canonical) now (in_created_by i) (in_reason i).
Definition postgres_insert_tariff_override (now : Z) (t : Table) (i : TariffOverrideInsert)
    : result AuthorityError (TariffOverrideInsertOutcome * Table) :=
  if negb (validate_tariff_override_insert i) then Ok (Rejected Invalid, t)
  else match parse_tariff_override_payload (in_family i) (in_payload i) with
  | Err _ => Ok (Rejected Invalid, t)
  | Ok p =>
      let canonical := to_canonical_value p in
      let digest := value_digest canonical in
      if (2 <? in_version i) && (in_effective_from i <? now - TARIFF_OVERRIDE_CLOCK_SKEW_GRACE_SECS) then Ok (Rejected Invalid, t)
      else
        _ ← guard_ok (in_version i <=? i32_max) VersionOverflow;
        match List.find (has_key (in_family i) (in_version i)) t with
        | Some row =>
            existing ← tariff_override_from_row row;
            Ok (if bool_decide (payload_digest existing = digest) && (effective_from existing =? in_effective_from i)
                then Unchanged existing
                else Rejected (Conflict (payload_digest existing) (effective_from existing)), t)
        | None =>
            let expected_next := family_head_version t (in_family i) + 1 in
            if negb (in_version i =? expected_next) then Ok (Rejected (SequenceViolation expected_next), t)
            else
              _ ← guard_ok (pg_text (in_created_by i) && pg_text (in_reason i)) InvalidText;
              match db_insert t (new_row i now canonical) with
              | Ok t' => Ok (Inserted (new_row i now canonical), t')
              | Err SequenceTrigger => Ok (Rejected (SequenceViolation expected_next), t)
              | Err CheckViolation => Ok (Rejected Invalid, t)
              end
        end
  end.
End Store.

(** ** The book *)
Record TariffBookSnapshot := mkSnapshot {
  rows : list TariffOverride; payloads : gmap (string * Z) TariffOverridePayload; fetched_at : Z }.
Definition snapshot_empty : TariffBookSnapshot := mkSnapshot [] ∅ 0.
Definition schedule_id_of (family : string) (v : Z) : string := family +:+ "/v" +:+ pretty v.
Record PinnedTariff := mkPin { pin_family : string; pin_version : Z; pin_schedule_id : string }.
Definition PinnedTariff_of (row : TariffOverride) : PinnedTariff :=
  mkPin (tariff_family row) (version row) (schedule_id_of (tariff_family row) (version row)).
Record TariffBook := mkBook { enabled : bool; current : TariffBookSnapshot }.
Definition TariffBook_new (enabled : bool) : TariffBook := mkBook enabled snapshot_empty.
Definition install (enabled : bool) (b : TariffBook) : TariffBook := mkBook enabled (current b).
Definition snapshot (b : TariffBook) : TariffBookSnapshot := if negb (enabled b) then snapshot_empty else current b.

Definition resolve (s : TariffBookSnapshot) (family : string) (priced_ts : Z) : option (PinnedTariff * TariffOverridePayload) :=
  row ← resolve_tariff_override (rows s) family priced_ts;
  payload ← payloads s !! (tariff_family row, version row);
  Some (PinnedTariff_of row, payload).
Definition version_payload (s : TariffBookSnapshot) (family : string) (v : Z) : option TariffOverridePayload := payloads s !! (family, v).

Section Book.
  Context `{PayloadSerde}.
Fixpoint index_rows (acc : gmap (string * Z) TariffOverridePayload) (l : list TariffOverride)
    : result PayloadError (gmap (string * Z) TariffOverridePayload) :=
  match l with
  | [] => Ok acc
  | row :: l =>
      payload ← parse_tariff_override_payload (tariff_family row) (payload row);
      index_rows (<[(tariff_family row, version row) := payload]> acc) l
  end.
Definition from_rows (now : Z) (l : list TariffOverride) : result PayloadError TariffBookSnapshot :=
  payloads ← index_rows ∅ l; Ok (mkSnapshot l payloads now).
Definition swap_rows (now : Z) (b : TariffBook) (l : list TariffOverride) : result PayloadError TariffBook :=
  snapshot ← from_rows now l; Ok (mkBook (enabled b) snapshot).
(** One turn of [refresher_loop]: a table that cannot be read, or a row that does
    not parse, keeps the last good snapshot. *)
Definition refresher_turn (now : Z) (b : TariffBook) (fetched : result AuthorityError (list TariffOverride)) : TariffBook :=
  match fetched with
  | Ok l => match swap_rows now b l with Ok b' => b' | Err _ => b end
  | Err _ => b
  end.
Definition book_version_payload_refreshed (now : Z) (b : TariffBook) (family : string) (v : Z)
    (fetched : result AuthorityError (list TariffOverride)) : option TariffOverridePayload * TariffBook :=
  match version_payload (snapshot b) family v with
  | Some payload => (Some payload, b)
  | None =>
      match fetched with
      | Ok l => match swap_rows now b l with
                | Ok b' => (version_payload (snapshot b') family v, b')
                | Err _ => (None, b)
                end
      | Err _ => (None, b)
      end
  end.
Definition version_payload_refreshed (now : Z) (b : TariffBook) (family : string) (v : Z)
    (fetched : result AuthorityError (list TariffOverride)) : option TariffOverridePayload * TariffBook :=
  if negb (enabled b) then (None, b) else book_version_payload_refreshed now b family v fetched.
End Book.

(** ** Reserve and charge *)
Record ReserveBase (T : Type) := mkReserve { reserve_prices : T; reserve_pin : option PinnedTariff }.
Arguments mkReserve {T}.
Arguments reserve_prices {T}.
Arguments reserve_pin {T}.
Definition reserve_base {T} (book : TariffBookSnapshot) (family : string) (priced_ts : Z) (compiled : T)
    (convert : TariffOverridePayload -> option T) : ReserveBase T :=
  match resolve book family priced_ts with
  | Some (pin, payload) =>
      match convert payload with
      | Some prices => mkReserve prices (Some pin)
      | None => mkReserve compiled None
      end
  | None => mkReserve compiled None
  end.
Inductive ChargeBase (T : Type) : Type := Compiled (prices : T) | Override (prices : T) (schedule_id : string) | MissingPinned.
Arguments Compiled {T}.
Arguments Override {T}.
Arguments MissingPinned {T}.
Definition pin_of (pinned : option PinnedTariff) (family : string) : option PinnedTariff :=
  pin ← pinned; if bool_decide (pin_family pin = family) then Some pin else None.
Definition charge_base {T} (book : TariffBookSnapshot) (pinned : option PinnedTariff) (served_family : option string) (priced_ts : Z)
    (compiled : T) (convert : TariffOverridePayload -> option T) : ChargeBase T :=
  match served_family with
  | None => Compiled compiled
  | Some family =>
      match pin_of pinned family with
      | Some pin =>
          match version_payload book (pin_family pin) (pin_version pin) with
          | Some payload => match convert payload with Some prices => Override prices (pin_schedule_id pin) | None => MissingPinned end
          | None => MissingPinned
          end
      | None =>
          match resolve book family priced_ts with
          | Some (pin, payload) =>
              match convert payload with Some prices => Override prices (pin_schedule_id pin) | None => Compiled compiled end
          | None => Compiled compiled
          end
      end
  end.

(** ** Publishing through the Control API *)
Record TariffOverrideReq := mkReq {
  rq_family : string; rq_effective_from : Z; rq_payload : Value; rq_created_by : string; rq_reason : string }.
Inductive response : Type := BadRequest | Unavailable | Answer (o : TariffOverrideInsertOutcome).
Definition request_insert (req : TariffOverrideReq) (v : Z) : TariffOverrideInsert :=
  mkInsert (rq_family req) v (rq_effective_from req) (rq_payload req) (rq_created_by req) (rq_reason req).
Section Handlers.
  Context `{Authority, PayloadSerde}.
(** [publish_tariff_override], where the billing authority is configured.  [now] is read by the handler, [c1] and [c2] by the
    authority; [t0] is the table when it is listed, [t1] when the first insert
    runs, and [race] what other writers append before the retry. *)
Definition publish_tariff_override (now c1 c2 : Z) (t0 t1 : Table) (race : Table -> Table) (req : TariffOverrideReq) : response * Table :=
  if negb (validate_tariff_family (rq_family req)) then (BadRequest, t1)
  else if negb (require_id (rq_created_by req)) || negb (require_id (rq_reason req)) then (BadRequest, t1)
  else match parse_tariff_override_payload (rq_family req) (rq_payload req) with
  | Err _ => (BadRequest, t1)
  | Ok _ =>
      if rq_effective_from req <? now - TARIFF_OVERRIDE_CLOCK_SKEW_GRACE_SECS then (BadRequest, t1)
      else match postgres_list_tariff_overrides t0 with
      | Err _ => (Unavailable, t1)
      | Ok listed =>
          match postgres_insert_tariff_override c1 t1 (request_insert req (family_head_version listed (rq_family req) + 1)) with
          | Ok (Rejected (SequenceViolation expected_next), t) =>
              match postgres_insert_tariff_override c2 (race t) (request_insert req expected_next) with
              | Ok (o, t') => (Answer o, t')
              | Err _ => (Unavailable, race t)
              end
          | Ok (o, t) => (Answer o, t)
          | Err _ => (Unavailable, t1)
          end
      end
  end.

(** [seed_tariff_overrides]. *)
Inductive seed_result : Type := SeedRefused (head : Z) | SeedOutcome (o : TariffOverrideInsertOutcome).
Definition seed_insert (by_ reason : string) (c : CompiledTariff) : TariffOverrideInsert :=
  mkInsert (ct_family c) 2 0 (ct_payload c) by_ reason.
Fixpoint seed_targets (clock : string -> Z) (by_ reason : string) (listed : list TariffOverride) (t : Table)
    (targets : list CompiledTariff) : result (AuthorityError * Table) (list (string * seed_result) * Table) :=
  match targets with
  | [] => Ok ([], t)
  | c :: targets =>
      let head := family_head_version listed (ct_family c) in
      if 2 <? head then
        '(outcomes, t') ← seed_targets clock by_ reason listed t targets;
        Ok ((ct_family c, SeedRefused head) :: outcomes, t')
      else match postgres_insert_tariff_override (clock (ct_family c)) t (seed_insert by_ reason c) with
      | Err e => Err (e, t)
      | Ok (o, t1) =>
          '(outcomes, t') ← seed_targets clock by_ reason listed t1 targets;
          Ok ((ct_family c, SeedOutcome o) :: outcomes, t')
      end
  end.
Definition seed_conflict (r : seed_result) : bool :=
  match r with SeedRefused _ | SeedOutcome (Rejected _) => true | _ => false end.
Inductive seed_response : Type := SeedBadRequest | SeedUnavailable | SeedAnswer (conflict : bool) (outcomes : list (string * seed_result)).
Definition seed_selection (catalog : list CompiledTariff) (family : option string) : option (list CompiledTariff) :=
  match family with
  | Some f => (fun c => [c]) <$> List.find (fun c => bool_decide (ct_family c = f)) catalog
  | None => Some catalog
  end.
Definition seed_tariff_overrides (now : Z) (clock : string -> Z) (by_ reason : string) (family : option string) (t : Table)
    : seed_response * Table :=
  if negb (require_id by_) || negb (require_id reason) then (SeedBadRequest, t)
  else match seed_selection (compiled_tariff_catalog_at now) family with
  | None => (SeedBadRequest, t)
  | Some targets =>
      match ensure_seed_safe targets with
      | Err _ => (SeedBadRequest, t)
      | Ok _ =>
          match postgres_list_tariff_overrides t with
          | Err _ => (SeedUnavailable, t)
          | Ok listed =>
              match seed_targets clock by_ reason listed t targets with
              | Ok (outcomes, t') => (SeedAnswer (existsb (fun x => seed_conflict x.2) outcomes) outcomes, t')
              | Err (_, t') => (SeedUnavailable, t')
              end
          end
      end
  end.
End Handlers.

(** ** Resolution *)
Definition keys_unique (l : list TariffOverride) : Prop :=
  forall r r', r ∈ l -> r' ∈ l -> tariff_family r = tariff_family r' -> version r = version r' -> r = r'.
Lemma max_by_key_Some {A} (key : A -> Z) l x : max_by_key key l = Some x -> x ∈ l /\ forall y, y ∈ l -> key y <= key x.
Proof.
  revert x. induction l as [|z l IH]; intros x; cbn; [done|]. destruct (max_by_key key l) as [y|] eqn:E.
  - destruct (IH y eq_refl) as [Hy Hm]. destruct (key y <? key z) eqn:Ez; intros [= <-]; (split; [set_solver|]);
      intros w [->|Hw]%elem_of_cons; try lia; specialize (Hm w Hw); lia.
  - intros [= <-]. destruct l as [|w l]; [|cbn in E; repeat case_match; done].
    split; [set_solver|]. intros y Hy%list_elem_of_singleton. subst. lia.
Qed.
Lemma max_by_key_None {A} (key : A -> Z) l : max_by_key key l = None -> l = [].
Proof. destruct l; [done|]. cbn. repeat case_match; done. Qed.
Definition applies (family : string) (ts : Z) (r : TariffOverride) : Prop := tariff_family r = family /\ effective_from r <= ts.
Lemma applies_filter family ts l r :
  r ∈ List.filter (fun row => of_family family row && (effective_from row <=? ts)) l <-> r ∈ l /\ applies family ts r.
Proof. unfold of_family, applies. rewrite elem_of_lfilter, andb_true_iff, bool_decide_eq_true, Z.leb_le. tauto. Qed.
(** The row in force is the newest of those that have started. *)
Lemma resolve_spec l family ts r : keys_unique l ->
  resolve_tariff_override l family ts = Some r <->
  r ∈ l /\ applies family ts r /\ forall r', r' ∈ l -> applies family ts r' -> version r' <= version r.
Proof.
  intros Hu. unfold resolve_tariff_override. split.
  - intros [[Hr Ha]%applies_filter Hm]%max_by_key_Some. split_and!; [done..|]. intros r' Hr' Ha'. apply Hm. by apply applies_filter.
  - intros (Hr & Ha & Hm). destruct (max_by_key _ _) as [x|] eqn:E.
    + apply max_by_key_Some in E as [[Hx Hax]%applies_filter Hmx]. f_equal. apply Hu; [done..|destruct Ha, Hax; congruence|].
      apply Z.le_antisymm; [by apply Hm|]. apply Hmx. by apply applies_filter.
    + apply max_by_key_None in E. assert (r ∈ []) as Hn; [|by apply elem_of_nil in Hn]. rewrite <- E. by apply applies_filter.
Qed.
Lemma option_ext {A} (o1 o2 : option A) : (forall x, o1 = Some x <-> o2 = Some x) -> o1 = o2.
Proof. intros E. destruct o1 as [x|]; [symmetry; by apply E|]. destruct o2 as [y|]; [by apply E|done]. Qed.
Lemma resolve_perm l l' family ts : keys_unique l -> l' ≡ₚ l -> resolve_tariff_override l' family ts = resolve_tariff_override l family ts.
Proof.
  intros Hu Hp. assert (Hu' : keys_unique l') by (intros r r'; rewrite !Hp; apply Hu).
  apply option_ext. intros r. rewrite !resolve_spec by done. setoid_rewrite Hp. done.
Qed.
Lemma head_bounds l family r : r ∈ l -> tariff_family r = family -> version r <= family_head_version l family.
Proof.
  intros Hr Hf. unfold family_head_version. assert (Hin : version r ∈ map version (List.filter (of_family family) l)).
  { apply (list_elem_of_fmap_2 version). apply elem_of_lfilter. split; [done|]. by apply bool_decide_eq_true. }
  destruct (max_of _) as [m|] eqn:E; cbn; [|by apply max_of_None in E; rewrite E in Hin; apply elem_of_nil in Hin].
  assert (HF := proj1 (max_of_le _ m m E) ltac:(lia)). rewrite Forall_forall in HF. by apply HF.
Qed.

(** ** The table invariant *)
Section Facts.
  Context `{AuthorityOk, PayloadSerdeOk}.
Record row_ok (r : TariffOverride) : Prop := {
  row_family : validate_tariff_family (tariff_family r) = true;
  row_version : 2 <= version r <= i32_max;
  row_effective : 0 <= effective_from r;
  row_digest : value_digest (payload r) = payload_digest r;
  row_payload : exists p, parse_tariff_override_payload (tariff_family r) (payload r) = Ok p /\ to_canonical_value p = payload r;
  row_grace : 2 < version r -> created_ts r - TARIFF_OVERRIDE_CLOCK_SKEW_GRACE_SECS <= effective_from r }.
(** Every row is well formed and each family is numbered 2, 3, 4, ... in the order of insertion. *)
Definition family_versions (t : Table) (family : string) : list Z := version <$> List.filter (of_family family) t.
Record table_ok (t : Table) : Prop := {
  ok_rows : Forall row_ok t;
  ok_sequence : forall family, family_versions t family = seqZ 2 (Z.of_nat (length (family_versions t family))) }.

Lemma table_empty : table_ok [].
Proof. split; [constructor|done]. Qed.
Lemma max_of_seqZ (n : nat) : max_of (seqZ 2 (Z.of_nat (S n))) = Some (2 + Z.of_nat n).
Proof.
  assert (Hin : 2 + Z.of_nat n ∈ seqZ 2 (Z.of_nat (S n))) by (apply elem_of_seqZ; lia).
  destruct (max_of _) as [m|] eqn:E; [|apply max_of_None in E; rewrite E in Hin; by apply elem_of_nil in Hin].
  f_equal. apply Z.le_antisymm.
  - apply (max_of_le _ m _ E). apply Forall_forall. intros x Hx%elem_of_seqZ. lia.
  - assert (HF := proj1 (max_of_le _ m m E) ltac:(lia)). rewrite Forall_forall in HF. by apply HF.
Qed.
Lemma head_length t family : table_ok t -> family_head_version t family = 1 + Z.of_nat (length (family_versions t family)).
Proof.
  intros [_ Hs]. specialize (Hs family). unfold family_head_version.
  change (map version (List.filter (of_family family) t)) with (family_versions t family).
  remember (length (family_versions t family)) as n eqn:Hn. rewrite Hs. destruct n as [|n]; [done|].
  rewrite max_of_seqZ. cbn [default]. change (default 1 (Some ?x)) with x. unfold default, from_option, id. lia.
Qed.
Lemma in_versions t family v : v ∈ family_versions t family <-> exists r, r ∈ t /\ tariff_family r = family /\ version r = v.
Proof.
  unfold family_versions, of_family. rewrite list_elem_of_fmap. setoid_rewrite elem_of_lfilter. setoid_rewrite bool_decide_eq_true.
  naive_solver.
Qed.
Lemma NoDup_fmap_elem {A B} (f : A -> B) l x y : NoDup (f <$> l) -> x ∈ l -> y ∈ l -> f x = f y -> x = y.
Proof.
  induction l as [|z l IH]; [intros _ Hx; by apply elem_of_nil in Hx|]. rewrite fmap_cons, NoDup_cons. intros [Hz Hn] Hx Hy E.
  apply elem_of_cons in Hx as [->|Hx], Hy as [->|Hy]; [done| | |by apply IH]; exfalso; apply Hz.
  - rewrite E. by apply list_elem_of_fmap_2.
  - rewrite <- E. by apply list_elem_of_fmap_2.
Qed.
Lemma table_keys_unique t : table_ok t -> keys_unique t.
Proof.
  intros [_ Hs] r r' Hr Hr' Hf Hv. specialize (Hs (tariff_family r)).
  eapply (NoDup_fmap_elem version (List.filter (of_family (tariff_family r)) t)); [| | |done].
  - unfold family_versions in Hs. rewrite Hs. apply NoDup_seqZ.
  - apply elem_of_lfilter. split; [done|]. by apply bool_decide_eq_true.
  - apply elem_of_lfilter. split; [done|]. by apply bool_decide_eq_true.
Qed.
Lemma versions_app t row family : family_versions (t ++ [row]) family
  = family_versions t family ++ (if of_family family row then [version row] else []).
Proof. unfold family_versions. rewrite List.filter_app, fmap_app. cbn. by destruct (of_family family row). Qed.
Lemma table_append t row : table_ok t -> row_ok row -> version row = family_head_version t (tariff_family row) + 1 ->
  table_ok (t ++ [row]).
Proof.
  intros Ht Hr Hv. pose proof (head_length t (tariff_family row) Ht) as Hh. destruct Ht as [HF Hs]. split.
  - apply Forall_app. split; [done|]. by constructor.
  - intros family. rewrite versions_app. unfold of_family. case_bool_decide as E; [|by rewrite app_nil_r].
    subst family. rewrite length_app. cbn [length]. rewrite Nat2Z.inj_add, seqZ_app by lia. rewrite <- Hs. f_equal.
    change (seqZ ?a (Z.of_nat 1)) with [0 + a]. f_equal. lia.
Qed.
Lemma list_rows_ok t : table_ok t -> exists l, postgres_list_tariff_overrides t = Ok l /\ l ≡ₚ t.
Proof.
  intros [HF _]. exists (order_by t). split; [|apply order_by_perm]. unfold postgres_list_tariff_overrides.
  rewrite <- (order_by_perm t) in HF. induction HF as [|r l Hr _ IH]; [done|]. cbn. unfold tariff_override_from_row.
  rewrite bool_decide_true by apply Hr. cbn. by rewrite IH.
Qed.
Lemma index_rows_ok l : forall acc, Forall row_ok l -> keys_unique l ->
  exists m, index_rows acc l = Ok m /\
    (forall r, r ∈ l -> exists p, parse_tariff_override_payload (tariff_family r) (payload r) = Ok p /\ m !! (tariff_family r, version r) = Some p) /\
    (forall k, (forall r, r ∈ l -> k <> (tariff_family r, version r)) -> m !! k = acc !! k).
Proof.
  induction l as [|r l IH]; intros acc HF Hu; [exists acc; split; [done|]; split; [intros r Hr; by apply elem_of_nil in Hr|done]|].
  apply Forall_cons in HF as [Hr HF]. destruct (row_payload r Hr) as (p & Hp & _). cbn. rewrite Hp. cbn.
  destruct (IH (<[(tariff_family r, version r):=p]> acc) HF) as (m & Hm & Hin & Hout); [intros a b Ha Hb; apply Hu; by right|].
  exists m. split; [done|]. split.
  - intros r' [->|Hr']%elem_of_cons; [|by apply Hin]. destruct (decide ((tariff_family r, version r) ∈ (fun r => (tariff_family r, version r)) <$> l)) as [Hl|Hl].
    + apply list_elem_of_fmap in Hl as (r' & [= Hf Hv] & Hr'). rewrite (Hu r r'); [by apply Hin|by left|by right|done..].
    + exists p. split; [done|]. rewrite Hout; [apply lookup_insert_eq|]. intros r' Hr' E. apply Hl. rewrite E.
      by apply (list_elem_of_fmap_2 (fun r => (tariff_family r, version r))).
  - intros k Hk. rewrite Hout by (intros; apply Hk; by right). apply lookup_insert_ne. intros E. apply (Hk r); [by left|done].
Qed.

(** What one insert does, given the invariant of the table. *)
Definition insert_ok (now : Z) (t : Table) (i : TariffOverrideInsert) : Prop :=
  match postgres_insert_tariff_override now t i with
  | Ok (Inserted row, t') =>
      t' = t ++ [row] /\ row_ok row /\ version row = family_head_version t (tariff_family row) + 1 /\
      (tariff_family row, version row, effective_from row, created_ts row, created_by row, reason row)
        = (in_family i, in_version i, in_effective_from i, now, in_created_by i, in_reason i) /\
      exists p, parse_tariff_override_payload (in_family i) (in_payload i) = Ok p /\ payload row = to_canonical_value p
  | Ok (Unchanged row, t') =>
      t' = t /\ row ∈ t /\ tariff_family row = in_family i /\ version row = in_version i /\ effective_from row = in_effective_from i /\
      exists p, parse_tariff_override_payload (in_family i) (in_payload i) = Ok p /\ payload_digest row = value_digest (to_canonical_value p)
  | Ok (Rejected (Conflict d e), t') =>
      t' = t /\ exists row p, row ∈ t /\ tariff_family row = in_family i /\ version row = in_version i /\
        d = payload_digest row /\ e = effective_from row /\
        parse_tariff_override_payload (in_family i) (in_payload i) = Ok p /\
        (d <> value_digest (to_canonical_value p) \/ e <> in_effective_from i)
  | Ok (Rejected (SequenceViolation n), t') =>
      t' = t /\ n = family_head_version t (in_family i) + 1 /\ n < in_version i
  | Ok (Rejected Invalid, t') =>
      t' = t /\ (validate_tariff_override_insert i = false \/
        (exists e, parse_tariff_override_payload (in_family i) (in_payload i) = Err e) \/
        (2 < in_version i /\ in_effective_from i < now - TARIFF_OVERRIDE_CLOCK_SKEW_GRACE_SECS))
  | Err VersionOverflow => i32_max < in_version i
  | Err InvalidText => pg_text (in_created_by i) && pg_text (in_reason i) = false
  | Err IntegrityFailure => False
  end.
Lemma validated i : validate_tariff_override_insert i = true ->
  validate_tariff_family (in_family i) = true /\ 2 <= in_version i /\ 0 <= in_effective_from i /\
  in_created_by i <> EmptyString /\ in_reason i <> EmptyString.
Proof.
  unfold validate_tariff_override_insert, require_id. rewrite !andb_true_iff, !negb_true_iff, !Z.ltb_ge, !bool_decide_eq_false. tauto.
Qed.
Lemma has_key_find t family v :
  match List.find (has_key family v) t with
  | Some r => r ∈ t /\ tariff_family r = family /\ version r = v
  | None => forall r, r ∈ t -> tariff_family r = family -> version r <> v
  end.
Proof.
  destruct (List.find _ t) as [r|] eqn:E.
  - apply List.find_some in E as [Hr Hk]. unfold has_key, of_family in Hk. rewrite andb_true_iff, bool_decide_eq_true, Z.eqb_eq in Hk.
    rewrite list_elem_of_In. tauto.
  - intros r Hr Hf Hv. rewrite list_elem_of_In in Hr. apply (List.find_none _ _ E) in Hr. unfold has_key, of_family in Hr.
    rewrite andb_false_iff, bool_decide_eq_false, Z.eqb_neq in Hr. tauto.
Qed.
(** A version that is not stored but not above the head does not exist. *)
Lemma missing_version t family v : table_ok t -> 2 <= v -> (forall r, r ∈ t -> tariff_family r = family -> version r <> v) ->
  family_head_version t family < v.
Proof.
  intros Ht Hv Hno. rewrite (head_length t family Ht). apply Z.nle_gt. intros Hle.
  assert (Hin : v ∈ family_versions t family).
  { rewrite (ok_sequence t Ht family). apply elem_of_seqZ. lia. }
  apply in_versions in Hin as (r & Hr & Hf & E). by apply (Hno r).
Qed.
Lemma new_row_ok now i p : validate_tariff_override_insert i = true ->
  parse_tariff_override_payload (in_family i) (in_payload i) = Ok p -> in_version i <= i32_max ->
  (2 < in_version i -> now - TARIFF_OVERRIDE_CLOCK_SKEW_GRACE_SECS <= in_effective_from i) -> row_ok (new_row i now (to_canonical_value p)).
Proof.
  intros (Hf & Hv & He & _)%validated Hp Hmax Hg. split; cbn; [done|lia|done|done| |done].
  exists p. split; [|done]. destruct (parse_kind _ _ _ Hp) as (Hk & Hval & Hw). by apply parse_canonical.
Qed.
Lemma insert_total now t i : table_ok t -> 0 <= now -> insert_ok now t i.
Proof.
  intros Ht Hnow. unfold insert_ok, postgres_insert_tariff_override.
  destruct (validate_tariff_override_insert i) eqn:Hval; cbn [negb]; [|by auto].
  destruct (parse_tariff_override_payload (in_family i) (in_payload i)) as [p|e] eqn:Hp; [|by eauto].
  destruct (_ && _) eqn:Hg; [rewrite andb_true_iff, Z.ltb_lt, Z.ltb_lt in Hg; split; [done|]; tauto|].
  rewrite andb_false_iff, !Z.ltb_ge in Hg. destruct (in_version i <=? i32_max) eqn:Hmax; cbn [guard_ok mbind result_bind]; [|lia].
  pose proof (validated i Hval) as (Hfam & Hv & He & Hby & Hre).
  pose proof (has_key_find t (in_family i) (in_version i)) as Hk. destruct (List.find _ t) as [r|].
  - destruct Hk as (Hr & Hrf & Hrv). unfold tariff_override_from_row.
    assert (Hro : row_ok r) by (eapply Forall_forall; [apply Ht|done]).
    rewrite bool_decide_true by apply Hro. cbn [mbind result_bind].
    destruct (bool_decide _ && _) eqn:Hs.
    + rewrite andb_true_iff, bool_decide_eq_true, Z.eqb_eq in Hs. destruct Hs. split_and!; try done. by exists p.
    + rewrite andb_false_iff, bool_decide_eq_false, Z.eqb_neq in Hs. split; [done|]. by exists r, p.
  - pose proof (missing_version t _ _ Ht Hv Hk) as Hm. destruct (in_version i =? _) eqn:Hn; cbn [negb]; [|split_and!; [done..|lia]].
    destruct (pg_text _ && _) eqn:Htx; cbn [guard_ok mbind result_bind]; [|done].
    unfold db_insert, enforce_version, table_checks. cbn [new_row version tariff_family effective_from created_ts created_by reason payload_digest].
    rewrite Hn. cbn [negb]. rewrite !bool_decide_false by done. rewrite value_digest_format, Hfam, !(proj2 (Z.leb_le _ _)) by lia. cbn.
    split_and!; [done|apply new_row_ok; [done..|lia|lia]|lia|done|]. by exists p.
Qed.

(** ** Histories of the table *)
Definition insert_step (t t' : Table) : Prop :=
  exists now i o, 0 <= now /\ postgres_insert_tariff_override now t i = Ok (o, t').
Definition published : relation Table := rtc insert_step.
(** A step keeps the table or appends the next version of one family. *)
Lemma insert_appends now t i o t' : table_ok t -> 0 <= now -> postgres_insert_tariff_override now t i = Ok (o, t') ->
  table_ok t' /\ match o with Inserted row => t' = t ++ [row] /\ version row = family_head_version t (tariff_family row) + 1 | _ => t' = t end.
Proof.
  intros Ht Hn E. pose proof (insert_total now t i Ht Hn) as Hi. unfold insert_ok in Hi. rewrite E in Hi.
  destruct o as [row|row|[|d e|n]]; destruct Hi as (-> & Hi); try done.
  destruct Hi as (Hr & Hv & _). split; [by apply table_append|done].
Qed.
Lemma step_ok t t' : insert_step t t' -> table_ok t -> table_ok t' /\ exists new, t' = t ++ new.
Proof.
  intros (now & i & o & Hn & E) Ht. destruct (insert_appends now t i o t' Ht Hn E) as [Hok Ho]. split; [done|].
  destruct o; [destruct Ho as [-> _]; eauto|exists []; by rewrite app_nil_r..].
Qed.
Lemma published_ok t t' : published t t' -> table_ok t -> table_ok t' /\ exists new, t' = t ++ new.
Proof.
  induction 1 as [t|t t1 t' Hs _ IH]; intros Ht; [split; [done|]; exists []; by rewrite app_nil_r|].
  destruct (step_ok _ _ Hs Ht) as (Ht1 & n1 & ->). destruct (IH Ht1) as (Ht' & n2 & ->). split; [done|].
  exists (n1 ++ n2). by rewrite app_assoc.
Qed.
Lemma reachable_ok t : published [] t -> table_ok t.
Proof. intros Hp. by apply (published_ok [] t Hp), table_empty. Qed.

(** ** Snapshots read from a table *)
Definition reads (t : Table) (s : TariffBookSnapshot) : Prop :=
  exists l now, postgres_list_tariff_overrides t = Ok l /\ from_rows now l = Ok s.
Definition row_typed (r : TariffOverride) : option TariffOverridePayload :=
  res_ok (parse_tariff_override_payload (tariff_family r) (payload r)).
Lemma rows_perm_ok t l : table_ok t -> l ≡ₚ t -> Forall row_ok l /\ keys_unique l.
Proof.
  intros Ht Hp. split; [rewrite Hp; apply Ht|]. intros r r'. rewrite !Hp. by apply table_keys_unique.
Qed.
Lemma from_rows_spec now l : Forall row_ok l -> keys_unique l -> exists s, from_rows now l = Ok s /\ rows s = l /\
  (forall r, r ∈ l -> exists p, row_typed r = Some p /\ payloads s !! (tariff_family r, version r) = Some p) /\
  (forall k, (forall r, r ∈ l -> k <> (tariff_family r, version r)) -> payloads s !! k = None).
Proof.
  intros HF Hu. destruct (index_rows_ok l ∅ HF Hu) as (m & Hm & Hin & Hout). exists (mkSnapshot l m now).
  unfold from_rows. rewrite Hm. cbn. split_and!; [done..| |].
  - intros r Hr. destruct (Hin r Hr) as (p & Hp & Hl). exists p. split; [|done]. unfold row_typed. by rewrite Hp.
  - intros k Hk. rewrite Hout by done. apply lookup_empty.
Qed.
(** A table the writer produced can always be read. *)
Lemma reads_total t : table_ok t -> exists s, reads t s.
Proof.
  intros Ht. destruct (list_rows_ok t Ht) as (l & Hl & Hp). destruct (rows_perm_ok t l Ht Hp) as [HF Hu].
  destruct (from_rows_spec 0 l HF Hu) as (s & Hs & _). by exists s, l, 0.
Qed.
Lemma reads_spec t s : table_ok t -> reads t s -> rows s ≡ₚ t /\
  (forall r, r ∈ t -> exists p, row_typed r = Some p /\ payloads s !! (tariff_family r, version r) = Some p).
Proof.
  intros Ht (l & now & Hl & Hf). destruct (list_rows_ok t Ht) as (l' & Hl' & Hp). rewrite Hl in Hl'. injection Hl' as <-.
  destruct (rows_perm_ok t l Ht Hp) as [HF Hu]. destruct (from_rows_spec now l HF Hu) as (s' & Hs' & Hr & Hin & _).
  rewrite Hf in Hs'. injection Hs' as <-. rewrite Hr. split; [done|]. intros r Hrt. apply Hin. by rewrite Hp.
Qed.
Lemma resolve_reads t s family ts : table_ok t -> reads t s ->
  match resolve_tariff_override t family ts with
  | Some r => exists p, row_typed r = Some p /\ family_kind family = Some (payload_kind p) /\ resolve s family ts = Some (PinnedTariff_of r, p)
  | None => resolve s family ts = None
  end.
Proof.
  intros Ht Hr. destruct (reads_spec t s Ht Hr) as [Hp Hin]. unfold resolve.
  rewrite (resolve_perm t (rows s) family ts (table_keys_unique t Ht) Hp).
  destruct (resolve_tariff_override t family ts) as [r|] eqn:E; [|done].
  apply (resolve_spec t family ts r (table_keys_unique t Ht)) in E as (Hrt & [<- _] & _).
  destruct (Hin r Hrt) as (p & Hpar & Hl). exists p. split; [done|]. cbn. rewrite Hl. cbn. split; [|done].
  unfold row_typed in Hpar. destruct (parse_tariff_override_payload _ _) as [q|] eqn:Eq; [|done]. injection Hpar as ->.
  by destruct (parse_kind _ _ _ Eq) as (-> & _).
Qed.

(** A conversion that accepts every payload of the family's kind. *)
Definition converts {T} (family : string) (convert : TariffOverridePayload -> option T) : Prop :=
  forall p, family_kind family = Some (payload_kind p) -> is_Some (convert p).
Lemma version_payload_reads t s r p : table_ok t -> reads t s -> r ∈ t -> row_typed r = Some p ->
  version_payload s (tariff_family r) (version r) = Some p.
Proof. intros Ht Hr Hin Hp. destruct (reads_spec t s Ht Hr) as [_ Hall]. destruct (Hall r Hin) as (q & Hq & Hl). by rewrite <- Hp, Hq. Qed.

Lemma snapshot_row t s family v p : table_ok t -> reads t s -> version_payload s family v = Some p ->
  exists r, r ∈ t /\ tariff_family r = family /\ version r = v /\ row_typed r = Some p.
Proof.
  intros Ht (l & now & Hl & Hf) Hv. destruct (list_rows_ok t Ht) as (l' & Hl' & Hp). rewrite Hl in Hl'. injection Hl' as <-.
  destruct (rows_perm_ok t l Ht Hp) as [HF Hu]. destruct (from_rows_spec now l HF Hu) as (s' & Hs' & _ & Hin & Hout).
  rewrite Hf in Hs'. injection Hs' as <-.
  destruct (decide ((family, v) ∈ (fun r => (tariff_family r, version r)) <$> l)) as [Hk|Hk].
  - apply list_elem_of_fmap in Hk as (r & [= -> ->] & Hr). exists r. rewrite <- Hp. destruct (Hin r Hr) as (q & Hq & Hl2).
    unfold version_payload in Hv. rewrite Hv in Hl2. injection Hl2 as ->. split_and!; done.
  - unfold version_payload in Hv. rewrite Hout in Hv; [done|]. intros r Hr Ek. apply Hk. rewrite Ek.
    by apply (list_elem_of_fmap_2 (fun r => (tariff_family r, version r))).
Qed.

(** C34: the base a reservation holds is the base its settlement charges, as long
    as it is served by the family it was pinned for.  If admission, on a snapshot of
    the table, pinned a version of the requested family, then settlement of a
    request served by that family, on any snapshot of any later table, charges the
    same prices under the schedule id that was pinned, whatever was published in
    between and whatever timestamp or compiled prices it uses; and a process whose
    enabled book is stale finds the pinned version with its one refresh.  A request
    served by another family is repriced instead: at that family's version in force
    at the priced timestamp, or at the compiled prices where there is none (or it
    is no card of this kind); one served by no known family is charged the compiled
    prices. *)
Theorem pinned_charge_replays {T} (t t' : Table) (s s' : TariffBookSnapshot) (family : string) (ts ts' now : Z)
    (compiled compiled' prices : T) (convert : TariffOverridePayload -> option T) (pin : PinnedTariff) (b : TariffBook)
    (Ht : published [] t) (Ht' : published t t') (Hs : reads t s) (Hs' : reads t' s')
    (Hr : reserve_base s family ts compiled convert = mkReserve prices (Some pin)) :
  pin_family pin = family /\ 2 <= pin_version pin /\ pin_schedule_id pin = family +:+ "/v" +:+ pretty (pin_version pin) /\
  charge_base s' (Some pin) (Some family) ts' compiled' convert = Override prices (pin_schedule_id pin) /\
  (forall served, served <> family ->
   charge_base s' (Some pin) (Some served) ts' compiled' convert
   = match resolve_tariff_override t' served ts' with
     | Some row => match row_typed row ≫= convert with
                   | Some served_prices => Override served_prices (schedule_id_of served (version row))
                   | None => Compiled compiled'
                   end
     | None => Compiled compiled'
     end) /\
  charge_base s' (Some pin) None ts' compiled' convert = Compiled compiled' /\
  (enabled b = true -> (current b = snapshot_empty \/ exists t0, published [] t0 /\ published t0 t' /\ reads t0 (current b)) ->
   exists p, convert p = Some prices /\
     (version_payload_refreshed now b family (pin_version pin) (postgres_list_tariff_overrides t')).1 = Some p).
Proof.
  pose proof (reachable_ok t Ht) as Hok. destruct (published_ok t t' Ht' Hok) as (Hok' & new & Hext).
  unfold reserve_base in Hr. pose proof (resolve_reads t s family ts Hok Hs) as Hres.
  destruct (resolve_tariff_override t family ts) as [r|] eqn:E; [|rewrite Hres in Hr; discriminate Hr].
  destruct Hres as (p & Hp & Hk & Heq). rewrite Heq in Hr. destruct (convert p) as [pr|] eqn:Hc; [|discriminate Hr].
  injection Hr as -> <-. apply (resolve_spec t family ts r (table_keys_unique t Hok)) in E as (Hrt & [Hrf _] & _).
  assert (Hrt' : r ∈ t') by (rewrite Hext; apply elem_of_app; by left).
  assert (Hrow : row_ok r) by (eapply Forall_forall; [apply Hok|done]).
  split; [done|]. split; [apply Hrow|]. split; [cbn; unfold schedule_id_of; by rewrite Hrf|]. split; [|split; [|split; [done|]]].
  - unfold charge_base, pin_of. cbn [mbind option_bind PinnedTariff_of pin_family pin_version pin_schedule_id].
    rewrite bool_decide_true by done. cbn [PinnedTariff_of pin_family pin_version pin_schedule_id].
    by rewrite (version_payload_reads t' s' r p), Hc.
  - intros served Hne. unfold charge_base, pin_of. cbn [mbind option_bind PinnedTariff_of pin_family].
    rewrite bool_decide_false by congruence. pose proof (resolve_reads t' s' served ts' Hok' Hs') as Hres'.
    destruct (resolve_tariff_override t' served ts') as [r'|] eqn:E'; [|by rewrite Hres'].
    destruct Hres' as (p' & Hp' & _ & ->). rewrite Hp'. cbn [mbind option_bind].
    apply (resolve_spec t' served ts' r' (table_keys_unique t' Hok')) in E' as (_ & [<- _] & _). by destruct (convert p').
  - intros Hen Hcur. exists p. split; [done|]. cbn [PinnedTariff_of pin_version]. rewrite <- Hrf.
    unfold version_payload_refreshed, book_version_payload_refreshed. rewrite Hen. cbn [negb]. unfold snapshot. rewrite Hen. cbn [negb].
    destruct (version_payload (current b) (tariff_family r) (version r)) as [q|] eqn:Ev; cbn.
    + f_equal. destruct Hcur as [Hc0|(t0 & Ht0 & Ht0' & Hr0)]; [by rewrite Hc0 in Ev|].
      destruct (published_ok t0 t' Ht0' (reachable_ok t0 Ht0)) as (_ & new0 & Hext0).
      destruct (snapshot_row t0 (current b) _ _ _ (reachable_ok t0 Ht0) Hr0 Ev) as (r0 & Hin0 & Hf0 & Hv0 & Hp0).
      assert (r0 ∈ t') as Hin' by (rewrite Hext0; apply elem_of_app; by left).
      rewrite (table_keys_unique t' Hok' r r0) in Hp by done. congruence.
    + destruct (list_rows_ok t' Hok') as (l & Hl & Hperm). rewrite Hl. destruct (rows_perm_ok t' l Hok' Hperm) as [HF Hu].
      destruct (from_rows_spec now l HF Hu) as (s2 & Hs2 & Hr2 & Hin2 & _). unfold swap_rows. rewrite Hs2. cbn. rewrite Hen. cbn.
      apply (version_payload_reads t'); [done|by exists l, now|done|done].
Qed.

(** Appending the next version of a family takes effect exactly from its own time on. *)
Lemma resolve_append t row family ts : table_ok (t ++ [row]) -> table_ok t -> version row = family_head_version t (tariff_family row) + 1 ->
  resolve_tariff_override (t ++ [row]) family ts
  = if of_family family row && (effective_from row <=? ts) then Some row else resolve_tariff_override t family ts.
Proof.
  intros Ht' Ht Hv. pose proof (table_keys_unique _ Ht') as Hu'. pose proof (table_keys_unique _ Ht) as Hu.
  unfold of_family. destruct (bool_decide _ && _) eqn:E.
  - rewrite andb_true_iff, bool_decide_eq_true, Z.leb_le in E. destruct E as [Hf He].
    apply (resolve_spec _ family ts row Hu'). split_and!; [apply elem_of_app; right; by apply list_elem_of_singleton|done|].
    intros r [Hr|Hr%list_elem_of_singleton]%elem_of_app [Hrf _]; [|subst; lia].
    pose proof (head_bounds t (tariff_family row) r Hr ltac:(congruence)). lia.
  - rewrite andb_false_iff, bool_decide_eq_false, Z.leb_gt in E.
    assert (Hna : ~ applies family ts row) by (unfold applies; intros [? ?]; destruct E; [done|lia]).
    apply option_ext. intros r. rewrite (resolve_spec _ _ _ _ Hu'), (resolve_spec _ _ _ _ Hu).
    setoid_rewrite elem_of_app. setoid_rewrite list_elem_of_singleton. naive_solver.
Qed.

(** Every insert on a table the authority wrote answers as specified: an
    accepted row is appended as the next version of its family, in canonical form
    with its digest; every other answer leaves the table as it was and names the
    reason; no stored row fails its digest and the database's own checks never
    fire.  The table stays well formed, each family numbered 2, 3, 4, ... without
    gaps. *)
Theorem insert_exact (now : Z) (t : Table) (i : TariffOverrideInsert) (Ht : published [] t) (Hn : 0 <= now) :
  insert_ok now t i /\ (forall o t', postgres_insert_tariff_override now t i = Ok (o, t') -> table_ok t').
Proof.
  pose proof (reachable_ok t Ht) as Hok. split; [by apply insert_total|]. intros o t' E. by apply (insert_appends now t i o t').
Qed.

(** A published version prices exactly the requests of its family from its
    effective time on: every other resolution is the one before.  A version above
    the seed therefore changes nothing priced earlier than the clock-skew grace
    before its insertion. *)
Theorem published_version_in_force (now : Z) (t t' : Table) (i : TariffOverrideInsert) (row : TariffOverride)
    (Ht : published [] t) (Hn : 0 <= now) (Hi : postgres_insert_tariff_override now t i = Ok (Inserted row, t')) :
  (forall family ts, resolve_tariff_override t' family ts
     = if of_family family row && (effective_from row <=? ts) then Some row else resolve_tariff_override t family ts) /\
  (2 < in_version i -> forall family ts, ts < now - TARIFF_OVERRIDE_CLOCK_SKEW_GRACE_SECS ->
     resolve_tariff_override t' family ts = resolve_tariff_override t family ts).
Proof.
  pose proof (reachable_ok t Ht) as Hok. destruct (insert_appends now t i _ t' Hok Hn Hi) as [Hok' [-> Hv]].
  assert (Hall : forall family ts, resolve_tariff_override (t ++ [row]) family ts
     = if of_family family row && (effective_from row <=? ts) then Some row else resolve_tariff_override t family ts)
    by (intros; by apply resolve_append).
  split; [done|]. intros Hv2 family ts Hts. rewrite Hall.
  pose proof (insert_total now t i Hok Hn) as Hspec. unfold insert_ok in Hspec. rewrite Hi in Hspec.
  destruct Hspec as (_ & Hr & _ & [= _ Hve _ Hcr _ _] & _). pose proof (row_grace row Hr ltac:(lia)).
  rewrite (proj2 (Z.leb_gt _ _)) by lia. by rewrite andb_false_r.
Qed.

(** A replay is idempotent: repeating an accepted insert, on any later table,
    answers [Unchanged] with the stored row and writes nothing. *)
Theorem insert_replay_unchanged (now now' : Z) (t t1 t2 : Table) (i : TariffOverrideInsert) (row : TariffOverride)
    (Ht : published [] t) (Hn : 0 <= now) (Hi : postgres_insert_tariff_override now t i = Ok (Inserted row, t1))
    (H12 : published t1 t2) (Hg : 2 < in_version i -> now' - TARIFF_OVERRIDE_CLOCK_SKEW_GRACE_SECS <= in_effective_from i) :
  postgres_insert_tariff_override now' t2 i = Ok (Unchanged row, t2).
Proof.
  pose proof (reachable_ok t Ht) as Hok. destruct (insert_appends now t i _ t1 Hok Hn Hi) as [Hok1 [-> Hv]].
  destruct (published_ok _ t2 H12 Hok1) as (Hok2 & new & Hext).
  pose proof (insert_total now t i Hok Hn) as Hspec. unfold insert_ok in Hspec. rewrite Hi in Hspec.
  destruct Hspec as (_ & Hr & _ & [= Hf Hve He _ _ _] & p & Hp & Hpay).
  revert Hi. unfold postgres_insert_tariff_override. destruct (negb _); [done|]. rewrite Hp.
  destruct (_ && _); [done|]. destruct (in_version i <=? i32_max); [|done]. intros _.
  rewrite (proj2 (andb_false_iff _ _)) by (rewrite !Z.ltb_ge; destruct (Z.le_gt_cases (in_version i) 2); [by left|right; apply Hg; lia]).
  cbn [guard_ok mbind result_bind]. assert (Hin : row ∈ t2).
  { rewrite Hext, !elem_of_app. left. right. by apply list_elem_of_singleton. }
  pose proof (has_key_find t2 (in_family i) (in_version i)) as Hk. destruct (List.find _ t2) as [r|]; [|by destruct (Hk row Hin Hf Hve)].
  destruct Hk as (Hrt & Hrf & Hrv). rewrite (table_keys_unique t2 Hok2 r row); [|done|done|congruence|congruence]. unfold tariff_override_from_row.
  rewrite bool_decide_true by apply Hr. cbn [mbind result_bind]. rewrite <- (row_digest row Hr), Hpay, He, Z.eqb_refl.
  by rewrite bool_decide_true.
Qed.

(** ** The Control API *)
Lemma max_of_perm l l' : l ≡ₚ l' -> max_of l = max_of l'.
Proof.
  intros Hp. destruct (max_of l) as [m|] eqn:E, (max_of l') as [m'|] eqn:E'; [|apply max_of_None in E'|apply max_of_None in E|done].
  - f_equal. apply Z.le_antisymm.
    + apply (max_of_le l m m' E). rewrite Hp. apply (max_of_le l' m' m' E'). lia.
    + apply (max_of_le l' m' m E'). rewrite <- Hp. apply (max_of_le l m m E). lia.
  - subst. symmetry in Hp. by apply Permutation_nil in Hp as ->.
  - subst. by apply Permutation_nil in Hp as ->.
Qed.
Lemma lfilter_perm {A} (p : A -> bool) l l' : l ≡ₚ l' -> List.filter p l ≡ₚ List.filter p l'.
Proof. induction 1; cbn; repeat case_match; try done; [by constructor|by constructor|by etrans]. Qed.
Lemma head_perm l l' family : l ≡ₚ l' -> family_head_version l family = family_head_version l' family.
Proof.
  intros Hp. unfold family_head_version. f_equal. apply max_of_perm. apply (fmap_Permutation version). by apply lfilter_perm.
Qed.
Lemma head_grows t new family : table_ok t -> table_ok (t ++ new) -> family_head_version t family <= family_head_version (t ++ new) family.
Proof.
  intros Ht Ht'. rewrite !head_length by done. unfold family_versions. rewrite List.filter_app, fmap_app, length_app. lia.
Qed.
Lemma listed_head t l family : table_ok t -> postgres_list_tariff_overrides t = Ok l -> family_head_version l family = family_head_version t family.
Proof. intros Ht E. destruct (list_rows_ok t Ht) as (l' & E' & Hp). rewrite E in E'. injection E' as <-. by apply head_perm. Qed.
(** An insert at or below the next version is never a sequence violation. *)
Lemma no_violation now t i n t' : table_ok t -> 0 <= now -> in_version i <= family_head_version t (in_family i) + 1 ->
  postgres_insert_tariff_override now t i <> Ok (Rejected (SequenceViolation n), t').
Proof.
  intros Ht Hn Hv E. pose proof (insert_total now t i Ht Hn) as Hi. unfold insert_ok in Hi. rewrite E in Hi. destruct Hi as (_ & -> & ?). lia.
Qed.

(** An insert at a version already stored. *)
Lemma insert_stored now t i row : table_ok t -> row ∈ t -> tariff_family row = in_family i -> version row = in_version i ->
  match postgres_insert_tariff_override now t i with
  | Ok (Rejected Invalid, _) => True
  | Ok (Unchanged r, _) => r = row
  | Ok (Rejected (Conflict d e), _) => d = payload_digest row /\ e = effective_from row
  | _ => False
  end.
Proof.
  intros Ht Hin Hf Hv. assert (Hrow : row_ok row) by (eapply Forall_forall; [apply Ht|done]).
  unfold postgres_insert_tariff_override. destruct (negb _); [done|]. destruct (parse_tariff_override_payload _ _); [|done].
  destruct (_ && _); [done|]. rewrite (proj2 (Z.leb_le _ _)) by (rewrite <- Hv; apply Hrow). cbn [guard_ok mbind result_bind].
  pose proof (has_key_find t (in_family i) (in_version i)) as Hk. destruct (List.find _ t) as [r|]; [|by destruct (Hk row Hin Hf Hv)].
  destruct Hk as (Hrt & Hrf & Hrv). rewrite (table_keys_unique t Ht r row); [|done|done|congruence|congruence].
  unfold tariff_override_from_row. rewrite bool_decide_true by apply Hrow. cbn [mbind result_bind]. by destruct (_ && _).
Qed.
(** What the handler refuses before it asks the authority. *)
Definition malformed_request (now : Z) (req : TariffOverrideReq) : bool :=
  negb (validate_tariff_family (rq_family req)) || (negb (require_id (rq_created_by req)) || negb (require_id (rq_reason req)))
  || (match parse_tariff_override_payload (rq_family req) (rq_payload req) with Ok _ => false | Err _ => true end)
  || (rq_effective_from req <? now - TARIFF_OVERRIDE_CLOCK_SKEW_GRACE_SECS).
(** The answer to a publisher that lost the race for the version after [head]. *)
Definition lost_race_answer (now c1 : Z) (t1 : Table) (head : Z) (req : TariffOverrideReq) (answer : response) : Prop :=
  match answer with
  | BadRequest => malformed_request now req = true
  | Answer (Rejected Invalid) =>
      rq_effective_from req < 0 \/ (2 < head + 1 /\ rq_effective_from req < c1 - TARIFF_OVERRIDE_CLOCK_SKEW_GRACE_SECS)
  | Answer (Unchanged row) =>
      row ∈ t1 /\ tariff_family row = rq_family req /\ version row = head + 1 /\ effective_from row = rq_effective_from req
  | Answer (Rejected (Conflict digest effective)) =>
      exists row, row ∈ t1 /\ tariff_family row = rq_family req /\ version row = head + 1
        /\ digest = payload_digest row /\ effective = effective_from row
  | Unavailable | Answer (Inserted _) | Answer (Rejected (SequenceViolation _)) => False
  end.
Lemma stored_version t family v : table_ok t -> 2 <= v <= family_head_version t family ->
  exists row, row ∈ t /\ tariff_family row = family /\ version row = v.
Proof. intros Ht Hv. apply in_versions. rewrite (ok_sequence t Ht family). apply elem_of_seqZ. rewrite head_length in Hv by done. lia. Qed.
Lemma lost_race c1 now t0 t1 req : table_ok t0 -> table_ok t1 -> 0 <= c1 -> malformed_request now req = false ->
  family_head_version t0 (rq_family req) < family_head_version t1 (rq_family req) ->
  match postgres_insert_tariff_override c1 t1 (request_insert req (family_head_version t0 (rq_family req) + 1)) with
  | Ok (o, _) => lost_race_answer now c1 t1 (family_head_version t0 (rq_family req)) req (Answer o)
  | Err _ => False
  end.
Proof.
  intros Hok0 Hok1 Hc Hm Hlt. set (head := family_head_version t0 (rq_family req)) in *.
  assert (1 <= head) by (unfold head; rewrite head_length by done; lia).
  destruct (stored_version t1 (rq_family req) (head + 1) Hok1 ltac:(lia)) as (row & Hin & Hf & Hv).
  set (i := request_insert req (head + 1)). pose proof (insert_stored c1 t1 i row Hok1 Hin Hf Hv) as Hst.
  pose proof (insert_total c1 t1 i Hok1 Hc) as Hspec. unfold insert_ok in Hspec.
  destruct (postgres_insert_tariff_override c1 t1 i) as [[[r|r|[|d e|n]] t']|err]; try done; cbn.
  - subst r. destruct Hspec as (_ & _ & _ & _ & He & _). done.
  - unfold malformed_request in Hm. rewrite !orb_false_iff, !negb_false_iff in Hm. destruct Hm as [[[M1 [M2 M3]] M4] M5].
    destruct Hspec as (_ & [Hval|[(e & He)|[? ?]]]); [|cbn in He; by rewrite He in M4|right; done].
    left. unfold validate_tariff_override_insert in Hval. cbn in Hval. rewrite M1, M2, M3 in Hval.
    rewrite (proj2 (Z.ltb_ge (head + 1) 2)) in Hval by lia. cbn in Hval. rewrite !andb_true_r in Hval. apply negb_false_iff in Hval. lia.
  - exists row. destruct Hst as [-> ->]. done.
Qed.

(** C35: publishing through the Control API never retries.  The version it asks for
    is at most the next one of the table it meets, so the authority never answers
    with a sequence violation and the clock and the writers of the retry never
    matter; a publication either appends the next version of its family or leaves
    the table as it was.  Where another publisher advanced the family after the
    listing, nothing is written, and the answer is exactly one of these: a bad
    request, if the handler refuses it before asking; invalid, if its effective time
    is negative or has passed the insert's clock-skew grace; unchanged, with the
    stored row of that version, whose effective time is the requested one; or a
    conflict that names the digest and effective time of that row.  It is never
    unavailable. *)
Theorem publish_never_retries (now c1 c2 : Z) (t0 t1 : Table) (race : Table -> Table) (req : TariffOverrideReq)
    (H0t : published [] t0) (H01 : published t0 t1) (Hc : 0 <= c1) :
  let r := publish_tariff_override now c1 c2 t0 t1 race req in
  (forall n, r.1 <> Answer (Rejected (SequenceViolation n))) /\
  (forall c2' race', r = publish_tariff_override now c1 c2' t0 t1 race' req) /\
  (r.2 = t1 \/ exists row, r.1 = Answer (Inserted row) /\ r.2 = t1 ++ [row] /\ version row = family_head_version t1 (rq_family req) + 1) /\
  (family_head_version t0 (rq_family req) < family_head_version t1 (rq_family req) ->
     r.2 = t1 /\ lost_race_answer now c1 t1 (family_head_version t0 (rq_family req)) req r.1).
Proof.
  pose proof (reachable_ok t0 H0t) as Hok0. destruct (published_ok t0 t1 H01 Hok0) as (Hok1 & new & Hext). cbv zeta.
  pose proof (lost_race c1 now t0 t1 req Hok0 Hok1 Hc) as Hlost.
  destruct (malformed_request now req) eqn:Hm.
  { assert (E : forall c2 race, publish_tariff_override now c1 c2 t0 t1 race req = (BadRequest, t1)).
    { intros c2' race'. unfold publish_tariff_override. revert Hm. unfold malformed_request.
      destruct (negb (validate_tariff_family _)); [done|].
      destruct (negb (require_id (rq_created_by req)) || negb (require_id (rq_reason req))); [done|].
      destruct (parse_tariff_override_payload _ _); [|done]. cbn. by intros ->. }
    rewrite E. split_and!; [done|intros; by rewrite E|by left|done]. }
  specialize (Hlost eq_refl). unfold malformed_request in Hm. rewrite !orb_false_iff in Hm. destruct Hm as [[[M1 [M2 M3]] M4] M5].
  unfold publish_tariff_override. rewrite M1, M2, M3, M5. cbn [orb].
  destruct (parse_tariff_override_payload _ _); [|done].
  destruct (list_rows_ok t0 Hok0) as (l & Hl & _). rewrite Hl. rewrite (listed_head t0 l (rq_family req) Hok0 Hl).
  set (i := request_insert req _) in *. assert (Hle : in_version i <= family_head_version t1 (in_family i) + 1).
  { cbn. pose proof (head_grows t0 new (rq_family req) Hok0). rewrite Hext in *. intuition lia. }
  pose proof (no_violation c1 t1 i) as Hnv. pose proof (insert_total c1 t1 i Hok1 Hc) as Hspec. unfold insert_ok in Hspec.
  destruct (postgres_insert_tariff_override c1 t1 i) as [[[row|row|[|d e|n]] t']|err] eqn:E; cbn;
    try (destruct Hspec as [-> _]; split_and!; [done|done|by left|by intros ?%Hlost]).
  - destruct Hspec as (-> & _ & Hv & Hpair & _). cbn in Hpair. injection Hpair as Hf Hve _ _ _ _. rewrite Hf in Hv.
    split_and!; [done|done|right; exists row; done|by intros ?%Hlost].
  - by destruct (Hnv n t' Hok1 Hc Hle).
  - split_and!; [done|done|by left|by intros ?%Hlost].
Qed.

(** A row seeded from an entry of the compiled catalogue. *)
Definition seeded (targets : list CompiledTariff) (r : TariffOverride) : Prop :=
  exists c, c ∈ targets /\ tariff_family r = ct_family c /\ version r = 2 /\ effective_from r = 0 /\ payload r = ct_payload c.
Lemma entry_canonical now c p : c ∈ compiled_tariff_catalog_at now ->
  parse_tariff_override_payload (ct_family c) (ct_payload c) = Ok p -> to_canonical_value p = ct_payload c.
Proof. intros (x & Hx & ->)%catalog_elem. cbn. rewrite (entry_parses now x Hx). by intros [= <-]. Qed.
Lemma seed_step now clock by_ reason t c : table_ok t -> 0 <= clock -> c ∈ compiled_tariff_catalog_at now ->
  forall o t', postgres_insert_tariff_override clock t (seed_insert by_ reason c) = Ok (o, t') ->
  table_ok t' /\ exists new, t' = t ++ new /\ Forall (seeded [c]) new.
Proof.
  intros Ht Hc Hcat o t' E. split; [by apply (insert_appends _ _ _ _ _ Ht Hc E)|].
  pose proof (insert_total clock t (seed_insert by_ reason c) Ht Hc) as Hi. unfold insert_ok in Hi. rewrite E in Hi.
  destruct o as [row|row|[|d e|n]]; destruct Hi as (-> & Hi); [|exists []; by rewrite app_nil_r..].
  destruct Hi as (_ & _ & [= Hf Hv He _ _ _] & p & Hp & Hpay). exists [row]. split; [done|]. apply Forall_singleton.
  exists c. split; [by apply list_elem_of_singleton|]. split_and!; [done..|]. rewrite Hpay. by apply (entry_canonical now).
Qed.
Definition seed_table (r : result (AuthorityError * Table) (list (string * seed_result) * Table)) : Table :=
  match r with Ok (_, t) | Err (_, t) => t end.
Lemma seed_targets_spec now clock by_ reason listed targets : forall t, table_ok t -> (forall f, 0 <= clock f) ->
  Forall (fun c => c ∈ compiled_tariff_catalog_at now) targets ->
  let t' := seed_table (seed_targets clock by_ reason listed t targets) in
  table_ok t' /\ exists new, t' = t ++ new /\ Forall (seeded targets) new.
Proof.
  induction targets as [|c targets IH]; intros t Ht Hc HF; cbn [seed_targets].
  { cbn. split; [done|]. exists []. by rewrite app_nil_r. }
  apply Forall_cons in HF as [Hcat HF]. destruct (2 <? _).
  - destruct (IH t Ht Hc HF) as (Ht' & new & E & HFn). destruct (seed_targets clock by_ reason listed t targets) as [[outs t']|[e t']];
      cbn in *; (split; [done|]; exists new; split; [done|]; eapply Forall_impl; [exact HFn|]; intros r (c' & ? & ?); exists c'; set_solver).
  - destruct (postgres_insert_tariff_override _ t _) as [[o t1]|e] eqn:E; [|cbn; split; [done|]; exists []; by rewrite app_nil_r].
    destruct (seed_step now _ by_ reason t c Ht (Hc _) Hcat o t1 E) as (Ht1 & n1 & -> & HF1).
    destruct (IH _ Ht1 Hc HF) as (Ht' & new & E' & HFn).
    destruct (seed_targets clock by_ reason listed (t ++ n1) targets) as [[outs t']|[e t']]; cbn in *;
      (split; [done|]; exists (n1 ++ new); split; [by rewrite app_assoc|]; apply Forall_app; split;
       [eapply Forall_impl; [exact HF1|]; intros r (c' & Hin%list_elem_of_singleton & ?); subst; exists c; set_solver
       |eapply Forall_impl; [exact HFn|]; intros r (c' & ? & ?); exists c'; set_solver]).
Qed.
Lemma seed_spec now clock by_ reason family t : table_ok t -> (forall f, 0 <= clock f) ->
  let t' := (seed_tariff_overrides now clock by_ reason family t).2 in
  table_ok t' /\ exists targets new, t' = t ++ new /\ Forall (seeded targets) new /\
    forall c, c ∈ targets -> c ∈ compiled_tariff_catalog_at now /\ seed_safe c = true.
Proof.
  intros Ht Hc. cbv zeta. unfold seed_tariff_overrides.
  assert (Hkeep : table_ok t /\ exists targets new, t = t ++ new /\ Forall (seeded targets) new /\
    forall c, c ∈ targets -> c ∈ compiled_tariff_catalog_at now /\ seed_safe c = true).
  { split; [done|]. exists [], []. rewrite app_nil_r. split_and!; [done|constructor|]. intros c Hn. by apply elem_of_nil in Hn. }
  destruct (_ || _); [exact Hkeep|]. destruct (seed_selection _ family) as [targets|] eqn:Hsel; [|exact Hkeep].
  destruct (ensure_seed_safe targets) as [[]|] eqn:Hsafe; [|exact Hkeep]. rewrite ensure_safe, Forall_forall in Hsafe.
  destruct (postgres_list_tariff_overrides t) as [listed|]; [|exact Hkeep].
  assert (Hcat : forall c, c ∈ targets -> c ∈ compiled_tariff_catalog_at now).
  { destruct family as [f|]; cbn in Hsel; [|by injection Hsel as <-]. apply fmap_Some in Hsel as (x & [Hx _]%List.find_some & ->).
    intros c ->%list_elem_of_singleton. by apply list_elem_of_In. }
  pose proof (seed_targets_spec now clock by_ reason listed targets t Ht Hc) as Hspec. rewrite Forall_forall in Hspec. specialize (Hspec Hcat).
  destruct (seed_targets clock by_ reason listed t targets) as [[outs t']|[e t']]; cbn in *;
    (destruct Hspec as (Ht' & new & E & HF); split; [done|]; exists targets, new; split_and!; [done..|]; auto).
Qed.
(** Seeding prices [fam] as the compiled inventory [l] does, at every time. *)
Definition seed_neutral {P} (t : Table) (s' : TariffBookSnapshot) (as_prices : TariffOverridePayload -> option P)
    (l : Z -> list (string * P)) : Prop :=
  forall fam ts p, (fam, p) ∈ l ts -> (forall r, r ∈ t -> tariff_family r <> fam) ->
    reserve_prices (reserve_base s' fam ts p as_prices) = p.
Lemma seed_neutral_reads {P} now t targets new s' (as_prices : TariffOverridePayload -> option P) l :
  table_ok (t ++ new) -> Forall (seeded targets) new -> (forall c, c ∈ targets -> c ∈ compiled_tariff_catalog_at now /\ seed_safe c = true) ->
  reads (t ++ new) s' -> (forall ts, reads_back ts as_prices (l ts)) -> seed_neutral t s' as_prices l.
Proof.
  intros Ht' HF Hsafe Hs' Hback fam ts p Hin Hno. unfold reserve_base. pose proof (resolve_reads _ s' fam ts Ht' Hs') as Hres.
  destruct (resolve_tariff_override (t ++ new) fam ts) as [r|] eqn:E; [|by rewrite Hres].
  destruct Hres as (q & Hq & _ & ->). apply (resolve_spec _ _ _ _ (table_keys_unique _ Ht')) in E as (Hr & [Hrf _] & _).
  apply elem_of_app in Hr as [Hr|Hr]; [by destruct (Hno r Hr)|]. rewrite Forall_forall in HF. destruct (HF r Hr) as (c & Hc & Hfc & _ & _ & Hpay).
  destruct (Hsafe c Hc) as [Hcat Hss]. apply (Hback ts fam p) in Hin as (c' & q' & Hc' & Hf' & Hpar & Has).
  rewrite (proj1 (seed_safe_timeless now c Hcat) Hss ts c' Hc') in Hpar by congruence.
  unfold row_typed in Hq. rewrite Hpay, Hrf, Hpar in Hq. injection Hq as <-. by rewrite Has.
Qed.
Lemma seeded_family_new t new targets fam ts : table_ok t -> table_ok (t ++ new) -> Forall (seeded targets) new ->
  (exists r, r ∈ t /\ tariff_family r = fam) -> resolve_tariff_override (t ++ new) fam ts = resolve_tariff_override t fam ts.
Proof.
  intros Ht Ht' HF (r0 & Hr0 & Hf0).
  assert (Hnew : forall r, r ∈ new -> tariff_family r <> fam).
  { intros r Hr Hf. rewrite Forall_forall in HF. destruct (HF r Hr) as (_ & _ & _ & Hv & _).
    assert (Hv2 : 2 ∈ family_versions t fam).
    { rewrite (ok_sequence t Ht fam). apply elem_of_seqZ. assert (Hin : version r0 ∈ family_versions t fam) by (apply in_versions; eauto).
      destruct (family_versions t fam); [by apply elem_of_nil in Hin|cbn; lia]. }
    assert (Hv2' : 2 ∈ family_versions new fam) by (apply in_versions; eauto).
    pose proof (ok_sequence _ Ht' fam) as Hseq. assert (Hnd : NoDup (family_versions (t ++ new) fam)) by (rewrite Hseq; apply NoDup_seqZ).
    unfold family_versions in Hnd. rewrite List.filter_app, fmap_app in Hnd. apply NoDup_app in Hnd as (_ & Hd & _). by apply (Hd 2). }
  apply option_ext. intros r. rewrite (resolve_spec _ _ _ _ (table_keys_unique _ Ht')), (resolve_spec _ _ _ _ (table_keys_unique _ Ht)).
  unfold applies. setoid_rewrite elem_of_app. naive_solver.
Qed.

(** Seeding changes no price.  After any seed request, accepted or not, a
    family that already had versions resolves as before at every time, and every
    compiled family that had none is priced, at every time, exactly as its
    compiled schedule prices it. *)
Theorem seeding_changes_no_price (now : Z) (clock : string -> Z) (by_ reason : string) (family : option string) (t : Table)
    (s' : TariffBookSnapshot) (Ht : published [] t) (Hc : forall f, 0 <= clock f) :
  let t' := (seed_tariff_overrides now clock by_ reason family t).2 in
  reads t' s' ->
  table_ok t' /\
  (forall fam ts, (exists r, r ∈ t /\ tariff_family r = fam) -> resolve_tariff_override t' fam ts = resolve_tariff_override t fam ts) /\
  seed_neutral t s' as_anthropic anthropic_compiled_tariffs_at /\
  seed_neutral t s' as_codex Codex.codex_compiled_tariffs_at /\
  seed_neutral t s' as_codex_credits (fun _ => Codex.codex_compiled_credit_rates) /\
  seed_neutral t s' as_gemini Gemini.gemini_compiled_tariffs_at /\
  seed_neutral t s' as_glm Glm.glm_compiled_tariffs_at /\
  seed_neutral t s' as_glm_credits (fun _ => Glm.glm_compiled_credit_rates) /\
  seed_neutral t s' as_kimi Kimi.kimi_compiled_tariffs_at /\
  seed_neutral t s' as_openai_image (fun _ => [OpenAiImage.openai_image_compiled_tariff]).
Proof.
  pose proof (reachable_ok t Ht) as Hok. destruct (seed_spec now clock by_ reason family t Hok Hc) as (Ht' & targets & new & E & HF & Hsafe).
  cbv zeta in *. revert Ht' E. generalize ((seed_tariff_overrides now clock by_ reason family t).2). intros t' Ht' -> Hs'.
  split; [done|]. split; [intros; by eapply seeded_family_new|].
  split_and!; eapply seed_neutral_reads; try done; intros ts;
    [apply anthropic_reads|apply codex_reads|apply codex_credits_reads|apply gemini_reads|apply glm_reads|apply glm_credits_reads
    |apply kimi_reads|apply image_reads].
Qed.
End Facts.

(** ** A concrete authority and histories on it *)
Module Demo.
Definition bytes_sum (s : string) : Z := sumZ id (family_bytes s).
Definition checksum (v : Value) : Z :=
  match v with
  | VObject fields => sumZ (fun f => bytes_sum f.1 + match f.2 with VString s => 7 * bytes_sum s | _ => 1 end) fields
  | _ => 0
  end.
Definition hex_char (n : Z) : Ascii.ascii := Ascii.ascii_of_N (Z.to_N (if n <? 10 then 48 + n else 87 + n)).
Fixpoint repeat_char (c : Ascii.ascii) (n : nat) : string := match n with O => EmptyString | S n => String c (repeat_char c n) end.
Definition demo_digest (v : Value) : string := "sha256:v2:" +:+ repeat_char (hex_char (checksum v mod 16)) 64.
#[local] Instance authority : Authority := {|
  value_digest := demo_digest;
  order_by := sort_by (fun r => family_bytes (tariff_family r) ++ [version r]) |}.
#[local] Existing Instance FieldCodec.serde.
Lemma demo_digest_format v : digest_format (demo_digest v) = true.
Proof.
  unfold demo_digest. pose proof (Z.mod_pos_bound (checksum v) 16 ltac:(lia)) as Hb. revert Hb. generalize (checksum v mod 16). intros z Hz.
  assert (Hin : z ∈ seqZ 0 16) by (apply elem_of_seqZ; lia). clear Hz. revert z Hin. apply Forall_forall. apply (bool_decide_unpack _). by vm_compute.
Qed.
#[local] Instance authority_ok : AuthorityOk.
Proof. split; [apply demo_digest_format|]. intros t. apply sort_by_spec. Qed.

Definition family : string := "moonshot/kimi/kimi-k3".
Definition kimi_value (legs : Z * Z * Z * Z) : Value :=
  let '(c, i, w, o) := legs in to_canonical_value (P_Kimi (mkKimiT c i w o)).
Definition demo_insert (v eff : Z) (legs : Z * Z * Z * Z) : TariffOverrideInsert :=
  mkInsert family v eff (kimi_value legs) "operator" "correction".
Definition step (t : Table) (now : Z) (i : TariffOverrideInsert) : Table :=
  match postgres_insert_tariff_override now t i with Ok (_, t') => t' | Err _ => t end.
Lemma step_published t now i : 0 <= now -> published t (step t now i).
Proof.
  intros Hn. unfold step. destruct (postgres_insert_tariff_override now t i) as [[o t']|] eqn:E; [|apply rtc_refl].
  apply rtc_once. by exists now, i, o.
Qed.
Definition read (t : Table) : TariffBookSnapshot :=
  match postgres_list_tariff_overrides t with
  | Ok l => match from_rows 0 l with Ok s => s | Err _ => snapshot_empty end
  | Err _ => snapshot_empty
  end.
Lemma read_reads t : published [] t -> reads t (read t).
Proof.
  intros Ht%reachable_ok. destruct (list_rows_ok t Ht) as (l & Hl & Hp). destruct (rows_perm_ok t l Ht Hp) as [HF Hu].
  destruct (from_rows_spec 0 l HF Hu) as (s & Hs & _). exists l, 0. unfold read. rewrite Hl, Hs. done.
Qed.
Definition seed_legs : Z * Z * Z * Z := (150, 600, 600, 2500).
Definition new_legs : Z * Z * Z * Z := (100, 500, 500, 2000).
Definition t1 : Table := step [] 1000 (demo_insert 2 0 seed_legs).
Definition t2 : Table := step t1 2000 (demo_insert 3 1990 new_legs).
Lemma t1_published : published [] t1.
Proof. apply step_published. lia. Qed.
Lemma t2_published : published t1 t2.
Proof. apply step_published. lia. Qed.
Definition compiled : TurnPrices := mkTP 1 2 3 4.
Definition seed_prices : TurnPrices := mkTP 150 600 600 2500.
Definition new_prices : TurnPrices := mkTP 100 500 500 2000.
Definition pin2 : PinnedTariff := mkPin family 2 "moonshot/kimi/kimi-k3/v2".

Lemma pinned_charge_replays_witness :
  charge_base (read t2) (Some pin2) (Some family) 5000 compiled as_kimi = Override seed_prices "moonshot/kimi/kimi-k3/v2" /\
  charge_base (read t2) None (Some family) 5000 compiled as_kimi = Override new_prices "moonshot/kimi/kimi-k3/v3".
Proof.
  split; [|by vm_compute].
  apply (pinned_charge_replays t1 t2 (read t1) (read t2) family 1500 5000 0 compiled compiled seed_prices as_kimi pin2 (TariffBook_new true)).
  - apply t1_published.
  - apply t2_published.
  - apply read_reads, t1_published.
  - apply read_reads. etrans; [apply t1_published|apply t2_published].
  - by vm_compute.
Defined.
Lemma insert_exact_witness :
  insert_ok 2000 t1 (demo_insert 3 1990 new_legs) /\ length t2 = 2%nat /\
  postgres_insert_tariff_override 2000 t1 (demo_insert 4 1990 new_legs) = Ok (Rejected (SequenceViolation 3), t1) /\
  postgres_insert_tariff_override 2000 t1 (demo_insert 3 1939 new_legs) = Ok (Rejected Invalid, t1).
Proof. split; [apply (insert_exact 2000 t1 _ t1_published); lia|by vm_compute]. Defined.
Lemma published_version_in_force_witness :
  (resolve_tariff_override t2 family 1989 = resolve_tariff_override t1 family 1989) /\
  version <$> resolve_tariff_override t2 family 1990 = Some 3.
Proof.
  assert (E : exists row, postgres_insert_tariff_override 2000 t1 (demo_insert 3 1990 new_legs) = Ok (Inserted row, t2))
    by (eexists; vm_compute; reflexivity).
  split; [|by vm_compute]. destruct E as [row E].
  destruct (published_version_in_force 2000 t1 t2 _ row t1_published ltac:(lia) E) as [H _]. rewrite H.
  assert (Hr : effective_from row = 1990) by (vm_compute in E; by injection E as <-).
  rewrite Hr. by rewrite andb_false_r.
Defined.
Lemma insert_replay_unchanged_witness : exists row,
  postgres_insert_tariff_override 2050 t2 (demo_insert 3 1990 new_legs) = Ok (Unchanged row, t2).
Proof.
  assert (E : exists row, postgres_insert_tariff_override 2000 t1 (demo_insert 3 1990 new_legs) = Ok (Inserted row, t2))
    by (eexists; vm_compute; reflexivity).
  destruct E as [row E]. exists row.
  apply (insert_replay_unchanged 2000 2050 t1 t2 t2 _ row t1_published); [lia|exact E|apply rtc_refl|cbn; unfold TARIFF_OVERRIDE_CLOCK_SKEW_GRACE_SECS; lia].
Defined.
(** The same replay a minute after the version took effect is refused instead. *)
Example late_replay_refused :
  postgres_insert_tariff_override 2051 t2 (demo_insert 3 1990 new_legs) = Ok (Rejected Invalid, t2).
Proof. by vm_compute. Qed.

Definition demo_req : TariffOverrideReq := mkReq family 1990 (kimi_value (90, 400, 400, 1900)) "operator" "second".
(** A publisher that listed the table before another version landed gets a conflict. *)
Lemma publish_never_retries_witness :
  (publish_tariff_override 2000 2000 2000 t1 t2 (fun t => t) demo_req).2 = t2 /\
  exists d, (publish_tariff_override 2000 2000 2000 t1 t2 (fun t => t) demo_req).1 = Answer (Rejected (Conflict d 1990)).
Proof.
  split; [|eexists; by vm_compute].
  refine (proj1 (proj2 (proj2 (proj2 (publish_never_retries 2000 2000 2000 t1 t2 (fun t => t) demo_req t1_published t2_published _))) _));
    [lia|vm_compute; reflexivity].
Defined.
(** A request admitted at the compiled prices, unpinned, while version 2 was not yet
    published, is charged at version 2 when it settles after the publication. *)
Example unpinned_charge_repriced :
  let t := (publish_tariff_override 1000 1000 1000 [] [] (fun t => t) (mkReq family 950 (kimi_value new_legs) "operator" "first")).2 in
  reserve_base (read []) family 960 compiled as_kimi = mkReserve compiled None /\
  charge_base (read t) None (Some family) 960 compiled as_kimi = Override new_prices "moonshot/kimi/kimi-k3/v2".
Proof. by vm_compute. Qed.
Definition t3 : Table := (seed_tariff_overrides 1788220800 (fun _ => 1788220800) "operator" "bridge" (Some "zhipu/glm/glm-5.2") t1).2.
Lemma seeding_changes_no_price_witness :
  seed_neutral t1 (read t3) as_glm Glm.glm_compiled_tariffs_at /\ length t3 = 2%nat.
Proof.
  split; [|by vm_compute].
  apply (seeding_changes_no_price 1788220800 (fun _ => 1788220800) "operator" "bridge" (Some "zhipu/glm/glm-5.2") t1 (read t3) t1_published).
  - intros _. lia.
  - apply read_reads. etrans; [apply t1_published|]. replace t3 with (step t1 1788220800 (seed_insert "operator" "bridge"
      (hd (mkCompiled "" VNull false false) (List.filter (fun c => bool_decide (ct_family c = "zhipu/glm/glm-5.2")) (compiled_tariff_catalog_at 1788220800))))).
    + apply step_published. lia.
    + by vm_compute.
Defined.
End Demo.
