(* ===== verification/GlmSelect.v ===== *)
(** * Profile selection ([crates/forward/src/glm/selection.rs], mirrored by
    [crates/forward/src/kimi/selection.rs])

    The rank core is the same on both planes; what makes a profile ineligible is
    each plane's own taxonomy, so that the selector is generic in the reason.
    A request is placed on a subscription profile: a sticky conversation first,
    then fresh evidence, load, weekly and five-hour quota steering, and a rotation
    cursor among ties.  Integers are [i64] where the code multiplies them. *)
From S2P Require Import Prelude.

Inductive Ineligible : Type :=
| QuotaWall | AccountDead | AccountSuspect | ModelIneligible | TransportWedged.
Record WindowEvidence := mkEvidence {
  used_fraction_units : option Z;
  reset_in_secs : option Z }.
Record Candidate (R : Type) := mkCandidate {
  profile_id : string;
  ineligible : option R;
  window_5h : option WindowEvidence;
  window_weekly : option WindowEvidence;
  quota_age_secs : option Z;
  inflight : Z }.
Arguments mkCandidate {R}.
Arguments profile_id {R}.
Arguments ineligible {R}.
Arguments window_5h {R}.
Arguments window_weekly {R}.
Arguments quota_age_secs {R}.
Arguments inflight {R}.
#[global] Instance Ineligible_eq_dec : EqDecision Ineligible.
Proof. solve_decision. Defined.
#[global] Instance WindowEvidence_eq_dec : EqDecision WindowEvidence.
Proof. solve_decision. Defined.
#[global] Instance Candidate_eq_dec `{!EqDecision R} : EqDecision (Candidate R).
Proof. solve_decision. Defined.

Section Select.
Context {R : Type}.

Definition is_eligible (c : Candidate R) : bool := match ineligible c with None => true | Some _ => false end.
Definition has_observation (c : Candidate R) : bool :=
  match window_5h c, window_weekly c with None, None => false | _, _ => true end.

Definition FRACTION_SCALE : Z := 100000000.
Definition STEERING_THRESHOLD : Z := FRACTION_SCALE / 2.
Definition STALE_AFTER_SECS : Z := 300.
Definition RESET_DISCOUNT_HORIZON_SECS : Z := 3600.
Definition WEEKLY_SOFT_RESERVE : Z := 95 * FRACTION_SCALE / 100.

(** [i64] multiplication wraps; the division truncates. *)
Definition discounted_5h (w : WindowEvidence) : option Z :=
  used ← used_fraction_units w;
  let discount := match reset_in_secs w with
                  | Some secs => Z.max 0 (Z.min RESET_DISCOUNT_HORIZON_SECS secs)
                  | None => RESET_DISCOUNT_HORIZON_SECS
                  end in
  Some (Z.quot (wrap_i64 (used * discount)) RESET_DISCOUNT_HORIZON_SECS).

Definition above_threshold (o : option Z) : Z :=
  match o with Some used => if STEERING_THRESHOLD <=? used then used else 0 | None => 0 end.
Definition rank (c : Candidate R) : Z * Z * Z * Z :=
  let freshness := match quota_age_secs c with
                   | Some age => if age <=? STALE_AFTER_SECS then 0 else 2
                   | None => 1
                   end in
  (freshness, inflight c,
   above_threshold (window_weekly c ≫= used_fraction_units),
   above_threshold (window_5h c ≫= discounted_5h)).

(** The lexicographic order of the rank tuples, and its minimum. *)
Definition lex (c : comparison) (d : comparison) : comparison := match c with Eq => d | _ => c end.
Definition rank_compare (x y : Z * Z * Z * Z) : comparison :=
  let '(a, b, c, d) := x in
  let '(a', b', c', d') := y in
  lex (a ?= a') (lex (b ?= b') (lex (c ?= c') (d ?= d'))).
Definition rank_le (x y : Z * Z * Z * Z) : Prop := rank_compare x y <> Gt.
Definition rank_min (l : list (Z * Z * Z * Z)) : option (Z * Z * Z * Z) :=
  match l with
  | [] => None
  | x :: l => Some (fold_left (fun m y => match rank_compare y m with Lt => y | _ => m end) l x)
  end.

(** The stable sort by profile id. *)
Fixpoint insert_by_id (c : Candidate R) (l : list (Candidate R)) : list (Candidate R) :=
  match l with
  | [] => [c]
  | x :: l => if String.leb (profile_id c) (profile_id x) then c :: x :: l else x :: insert_by_id c l
  end.
Definition sort_by_id (l : list (Candidate R)) : list (Candidate R) := foldr insert_by_id [] l.

Definition at_reserve (c : Candidate R) : bool :=
  match window_weekly c ≫= used_fraction_units with
  | Some used => WEEKLY_SOFT_RESERVE <=? used
  | None => false
  end.
(** The candidates fresh placements choose from. *)
Definition placeable (candidates : list (Candidate R)) : list (Candidate R) :=
  let eligible := List.filter is_eligible candidates in
  let observed := List.filter has_observation eligible in
  if existsb (fun c => negb (at_reserve c)) observed
  then List.filter (fun c => negb (at_reserve c)) eligible
  else eligible.
Definition tied (candidates : list (Candidate R)) : list (Candidate R) :=
  let filtered := placeable candidates in
  match rank_min (map rank filtered) with
  | None => []
  | Some best => sort_by_id (List.filter (fun c => bool_decide (rank c = best)) filtered)
  end.
Definition pinned (candidates : list (Candidate R)) (sticky : option string) : option (Candidate R) :=
  sticky_id ← sticky;
  List.find (fun c => bool_decide (profile_id c = sticky_id) && is_eligible c) candidates.

Definition select (candidates : list (Candidate R)) (sticky : option string) (cursor : Z) : option (Candidate R) :=
  match pinned candidates sticky with
  | Some c => Some c
  | None =>
      let eligible := List.filter is_eligible candidates in
      match eligible with
      | [] => None
      | _ =>
          match placeable candidates with
          | [] => None
          | _ =>
              let t := tied candidates in
              t !! Z.to_nat (cursor mod Z.of_nat (length t))
          end
      end
  end.
Definition ineligible_ids (candidates : list (Candidate R)) : gset string :=
  list_to_set (map profile_id (List.filter (fun c => negb (is_eligible c)) candidates)).

(** ** The order *)
Lemma rank_compare_refl x : rank_compare x x = Eq.
Proof. destruct x as [[[a b] c] d]. cbn. by rewrite !Z.compare_refl. Qed.
Lemma rank_le_spec x y : rank_le x y <->
  let '(a, b, c, d) := x in let '(a', b', c', d') := y in
  a < a' \/ (a = a' /\ (b < b' \/ (b = b' /\ (c < c' \/ (c = c' /\ d <= d'))))).
Proof.
  destruct x as [[[a b] c] d], y as [[[a' b'] c'] d']. unfold rank_le. cbn. unfold lex.
  destruct (Z.compare_spec a a'), (Z.compare_spec b b'), (Z.compare_spec c c'), (Z.compare_spec d d');
    split; intros ?; try done; lia.
Qed.
#[global] Instance rank_le_preorder : PreOrder rank_le.
Proof.
  split; [intros x; unfold rank_le; by rewrite rank_compare_refl|].
  intros [[[a b] c] d] [[[a' b'] c'] d'] [[[a'' b''] c''] d''] H1%rank_le_spec H2%rank_le_spec.
  apply rank_le_spec. lia.
Qed.

Lemma rank_compare_total x y : rank_compare y x <> Lt -> rank_le x y.
Proof.
  destruct x as [[[a b] c] d], y as [[[a' b'] c'] d']. intros E. apply rank_le_spec. cbn in E. unfold lex in E.
  destruct (Z.compare_spec a' a), (Z.compare_spec b' b), (Z.compare_spec c' c), (Z.compare_spec d' d); try done; lia.
Qed.
Lemma rank_fold_spec l x :
  let m := fold_left (fun m y => match rank_compare y m with Lt => y | _ => m end) l x in
  (m = x \/ m ∈ l) /\ rank_le m x /\ forall y, y ∈ l -> rank_le m y.
Proof.
  revert x. induction l as [|y l IH]; intros x; cbn; [split; [by left|]; split; [done|set_solver]|].
  set (z := match rank_compare y x with Lt => y | _ => x end). destruct (IH z) as (H1 & H2 & H3).
  assert (Hz : (z = x \/ z = y) /\ rank_le z x /\ rank_le z y).
  { unfold z. destruct (rank_compare y x) eqn:E.
    2: { split; [by right|]. split; [unfold rank_le; by rewrite E|done]. }
    all: split; [by left|]; split; [done|]; apply rank_compare_total; by rewrite E. }
  clearbody z. set (m := fold_left _ l z) in *. clearbody m. destruct Hz as (Hz & Hx & Hy). split.
  - destruct H1 as [->|H1]; [|right; by right]. destruct Hz as [->| ->]; [by left|right; by left].
  - split; [by transitivity z|]. intros w [->|Hw]%elem_of_cons; [by transitivity z|auto].
Qed.
Lemma rank_min_spec l m :
  rank_min l = Some m -> m ∈ l /\ forall y, y ∈ l -> rank_le m y.
Proof.
  destruct l as [|x l]; cbn; [done|]. intros [= <-]. destruct (rank_fold_spec l x) as ([E|E] & H2 & H3).
  - split; [rewrite E; set_solver|]. intros y [->|Hy]%elem_of_cons; auto.
  - split; [set_solver|]. intros y [->|Hy]%elem_of_cons; auto.
Qed.

(** ** The sort *)
Lemma insert_by_id_perm c l : insert_by_id c l ≡ₚ c :: l.
Proof. induction l as [|x l IH]; cbn; [done|]. case_match; [done|]. rewrite IH. constructor. Qed.
Lemma sort_by_id_perm l : sort_by_id l ≡ₚ l.
Proof. induction l as [|x l IH]; cbn; [done|]. by rewrite insert_by_id_perm, IH. Qed.

(** ** Placement *)
Lemma placeable_spec cands c :
  c ∈ placeable cands <-> c ∈ cands /\ is_eligible c = true
    /\ (at_reserve c = true -> forall d, d ∈ cands -> is_eligible d = true -> has_observation d = true -> at_reserve d = true).
Proof.
  unfold placeable. destruct (existsb _ _) eqn:E.
  - apply existsb_exists in E as (d & Hd%list_elem_of_In & Hr). rewrite !elem_of_lfilter in *.
    split; [intros [[? ?] ?]; destruct (at_reserve c); naive_solver|].
    intros (? & ? & Hx). split; [done|]. destruct (at_reserve c); [|done].
    destruct Hd as [[? ?] ?]. rewrite (Hx eq_refl d) in Hr by done. done.
  - rewrite elem_of_lfilter. split; [|naive_solver]. intros [? ?]. split; [done|]. split; [done|].
    intros _ d Hd He Ho. destruct (at_reserve d) eqn:Ed; [done|]. exfalso.
    assert (existsb (fun c => negb (at_reserve c)) (List.filter has_observation (List.filter is_eligible cands)) = true);
      [|congruence]. apply existsb_exists. exists d. rewrite <- list_elem_of_In, !elem_of_lfilter, Ed. done.
Qed.
Lemma placeable_nonempty cands c : c ∈ cands -> is_eligible c = true -> placeable cands <> [].
Proof.
  intros Hc He. unfold placeable. destruct (existsb _ _) eqn:E.
  - apply existsb_exists in E as (d & Hd%list_elem_of_In & Hr). intros E2. apply (not_elem_of_nil d).
    rewrite <- E2, !elem_of_lfilter in *. naive_solver.
  - intros E2. apply (not_elem_of_nil c). by rewrite <- E2, elem_of_lfilter.
Qed.
Lemma tied_spec cands c :
  c ∈ tied cands <-> c ∈ placeable cands /\ forall d, d ∈ placeable cands -> rank_le (rank c) (rank d).
Proof.
  unfold tied. destruct (rank_min _) as [best|] eqn:E.
  - apply rank_min_spec in E as [Hb Hm]. apply list_elem_of_fmap in Hb as (b & -> & Hb).
    assert (Hm' : forall d, d ∈ placeable cands -> rank_le (rank b) (rank d)).
    { intros d Hd. apply Hm. apply list_elem_of_fmap. eauto. }
    rewrite sort_by_id_perm, elem_of_lfilter, bool_decide_eq_true. split; [by intros [? ->]|].
    intros [Hc Hr]. split; [done|]. specialize (Hm' c Hc). specialize (Hr b Hb). clear Hm.
    destruct (rank c) as [[[? ?] ?] ?], (rank b) as [[[? ?] ?] ?]. apply rank_le_spec in Hm', Hr. repeat f_equal; lia.
  - assert (En : placeable cands = []) by (by destruct (placeable cands)). rewrite En. set_solver.
Qed.
Lemma tied_nonempty cands : placeable cands <> [] -> tied cands <> [].
Proof.
  intros Hp. unfold tied. destruct (rank_min _) as [best|] eqn:E; [|by destruct (placeable cands)].
  apply rank_min_spec in E as [Hb _]. apply list_elem_of_fmap in Hb as (b & -> & Hb). intros E2.
  assert (Hin : b ∈ sort_by_id (List.filter (fun c => bool_decide (rank c = rank b)) (placeable cands))).
  { rewrite sort_by_id_perm, elem_of_lfilter, bool_decide_eq_true. done. }
  rewrite E2 in Hin. by apply elem_of_nil in Hin.
Qed.
Lemma tied_lookup cands cursor : tied cands <> [] -> 0 <= cursor ->
  exists c, tied cands !! Z.to_nat (cursor mod Z.of_nat (length (tied cands))) = Some c.
Proof.
  intros Hn Hc. apply lookup_lt_is_Some_2. destruct (tied cands) as [|x l]; [done|].
  pose proof (Z.mod_pos_bound cursor (Z.of_nat (length (x :: l))) ltac:(cbn; lia)). lia.
Qed.

Lemma pinned_spec cands sticky c :
  pinned cands sticky = Some c -> c ∈ cands /\ is_eligible c = true /\ Some (profile_id c) = sticky.
Proof.
  unfold pinned. destruct sticky as [id|]; cbn; [|done]. intros [H1%list_elem_of_In H2]%List.find_some.
  apply andb_true_iff in H2 as [->%bool_decide_eq_true H2]. done.
Qed.
Lemma select_unpinned cands sticky cursor :
  pinned cands sticky = None ->
  select cands sticky cursor = if bool_decide (placeable cands = []) then None
    else tied cands !! Z.to_nat (cursor mod Z.of_nat (length (tied cands))).
Proof.
  intros Hp. unfold select. rewrite Hp. destruct (List.filter is_eligible cands) eqn:Ee.
  - unfold placeable. by rewrite Ee.
  - by destruct (placeable cands).
Qed.
Lemma select_tied cands sticky cursor c :
  pinned cands sticky = None -> select cands sticky cursor = Some c -> c ∈ tied cands.
Proof. intros Hp. rewrite select_unpinned by done. case_bool_decide; [done|]. apply list_elem_of_lookup_2. Qed.
Lemma select_eligible cands sticky cursor c :
  select cands sticky cursor = Some c -> c ∈ cands /\ is_eligible c = true.
Proof.
  intros E. destruct (pinned cands sticky) as [d|] eqn:Hp.
  - unfold select in E. rewrite Hp in E. injection E as ->. apply pinned_spec in Hp. naive_solver.
  - apply select_tied in E; [|done]. apply tied_spec in E as [Hm%placeable_spec _]. naive_solver.
Qed.
Lemma select_serves cands sticky cursor c :
  0 <= cursor -> c ∈ cands -> is_eligible c = true -> is_Some (select cands sticky cursor).
Proof.
  intros Hcur Hc He. destruct (pinned cands sticky) eqn:Hp; [unfold select; rewrite Hp; eauto|].
  pose proof (placeable_nonempty cands c Hc He) as Hne.
  rewrite select_unpinned, bool_decide_eq_false_2 by done.
  apply (tied_lookup cands cursor (tied_nonempty _ Hne) Hcur).
Qed.

(** Placement is exact and never refuses while a profile can serve.  A sticky
    profile that is eligible always wins.  Otherwise the choice is an eligible
    candidate whose rank is least among the placeable ones, and a profile on its
    weekly reserve is chosen only when every observed eligible profile is on its
    reserve too.  No profile is returned exactly when none is eligible. *)
Theorem glm_select_exact (cands : list (Candidate R)) (sticky : option string) (cursor : Z) :
  0 <= cursor ->
  (select cands sticky cursor = None <-> forall c, c ∈ cands -> is_eligible c = false)
  /\ (forall c, pinned cands sticky = Some c -> select cands sticky cursor = Some c /\ Some (profile_id c) = sticky)
  /\ (forall c, select cands sticky cursor = Some c -> c ∈ cands /\ is_eligible c = true)
  /\ (forall c, pinned cands sticky = None -> select cands sticky cursor = Some c ->
        (forall d, d ∈ placeable cands -> rank_le (rank c) (rank d))
        /\ (at_reserve c = true -> forall d, d ∈ cands -> is_eligible d = true ->
             has_observation d = true -> at_reserve d = true)).
Proof.
  intros Hcur. split; [|split; [|split]].
  - split.
    + intros HN c Hc. destruct (is_eligible c) eqn:He; [|done].
      destruct (select_serves cands sticky cursor c Hcur Hc He). congruence.
    + intros HN. destruct (select cands sticky cursor) as [c|] eqn:E; [|done].
      apply select_eligible in E as [H1 H2]. by rewrite (HN c H1) in H2.
  - intros c Hp. split; [unfold select; by rewrite Hp|]. apply pinned_spec in Hp; naive_solver.
  - apply select_eligible.
  - intros c Hp E. apply select_tied in E; [|done]. apply tied_spec in E as [Hm Hr]. split; [done|].
    apply placeable_spec in Hm. naive_solver.
Qed.

(** Rotation is fair.  Without a sticky profile, among any run of consecutive
    cursor values as long as the list of equally ranked best candidates, each of
    them is chosen. *)
Theorem glm_rotation_fair (cands : list (Candidate R)) (c : Candidate R) (start : Z) :
  0 <= start -> c ∈ tied cands ->
  exists i, 0 <= i < Z.of_nat (length (tied cands)) /\ select cands None (start + i) = Some c.
Proof.
  intros Hs Hc. pose proof Hc as [Hp _]%tied_spec.
  apply list_elem_of_lookup in Hc as [j Hj]. pose proof (lookup_lt_Some _ _ _ Hj) as Hlt.
  set (n := Z.of_nat (length (tied cands))). exists ((Z.of_nat j - start) mod n).
  pose proof (Z.mod_pos_bound (Z.of_nat j - start) n ltac:(lia)). split; [done|].
  rewrite select_unpinned by done. rewrite bool_decide_eq_false_2 by (intros E; rewrite E in Hp; by apply elem_of_nil in Hp).
  fold n. rewrite Z.add_mod_idemp_r by lia. replace (start + (Z.of_nat j - start)) with (Z.of_nat j) by lia.
  rewrite Z.mod_small by lia. by rewrite Nat2Z.id.
Qed.

End Select.

(** ** A small fleet *)
Definition demo_candidate (id : string) (weekly : Z) (load : Z) : Candidate Ineligible :=
  mkCandidate id None None (Some (mkEvidence (Some weekly) None)) (Some 10) load.
Definition demo_fleet : list (Candidate Ineligible) :=
  [demo_candidate "b" 10 0; demo_candidate "full" 97000000 0; demo_candidate "a" 20 0].

Lemma glm_select_exact_witness :
  exists c, select demo_fleet (Some "full") 0 = Some c /\ profile_id c = "full".
Proof.
  eexists. split.
  - refine (proj1 (proj1 (proj2 (glm_select_exact demo_fleet (Some "full") 0 _)) _ _)); [done|vm_compute; reflexivity].
  - reflexivity.
Defined.
Lemma glm_rotation_fair_witness :
  exists i, 0 <= i < 2 /\ select demo_fleet None (5 + i) = Some (demo_candidate "b" 10 0).
Proof.
  refine (glm_rotation_fair demo_fleet (demo_candidate "b" 10 0) 5 _ _); [done|].
  apply list_elem_of_lookup. exists 1%nat. vm_compute. reflexivity.
Defined.
