(* ===== verification/KimiPlane.v ===== *)
(** * Serving a request on the KIMI plane
    ([crates/forward/src/kimi/selection.rs], [transport.rs], [pool.rs], [gateway.rs],
    [crates/kimi-credential])

    The plane mirrors GLM's, with a refreshable credential: a first refusal forces
    a token refresh and one retry on the same profile.  Placement has an escape
    hatch, so that a hold inferred from the environment never denies a request by
    itself.  The selector is the one of [GlmSelect], at KIMI's own reasons. *)
From S2P Require Import Prelude Text Waits GlmSelect.

(** ** Reasons ([selection.rs]) *)
Inductive Ineligible : Type :=
| QuotaWall | AuthQuarantined | TransportWedged | CapabilityNotInPlan | ModelCooling.
#[global] Instance KimiIneligible_eq_dec : EqDecision Ineligible.
Proof. solve_decision. Defined.
Definition is_environmental (r : Ineligible) : bool :=
  match r with AuthQuarantined | TransportWedged => true | _ => false end.
(** The selector at KIMI's reasons. *)
Definition kimi_select : list (Candidate Ineligible) -> option string -> Z -> option (Candidate Ineligible) := select.
Definition kimi_rank : Candidate Ineligible -> Z * Z * Z * Z := rank.

(** ** Verdicts ([transport.rs]) *)
Inductive UpstreamVerdict : Type :=
| V_Ok | V_Auth | V_MembershipTemporary | V_QuotaExhausted | V_Transport | V_ClientError.
#[global] Instance KimiVerdict_eq_dec : EqDecision UpstreamVerdict.
Proof. solve_decision. Defined.
Definition classify_status (status : Z) : UpstreamVerdict :=
  if between 200 299 status then V_Ok
  else if status =? 401 then V_Auth
  else if status =? 402 then V_MembershipTemporary
  else if status =? 403 then V_QuotaExhausted
  else if one_of [408; 409; 425; 429] status then V_Transport
  else if between 500 599 status then V_Transport
  else V_ClientError.
Definition spends_transport_budget (v : UpstreamVerdict) : bool :=
  match v with V_Transport | V_MembershipTemporary => true | _ => false end.
Definition may_rotate (v : UpstreamVerdict) : bool :=
  match v with V_Ok | V_ClientError => false | _ => true end.

(** ** The decision after an attempt ([pool.rs]) *)
Inductive Delivery : Type := PreByte | Delivering.
#[global] Instance KimiDelivery_eq_dec : EqDecision Delivery.
Proof. solve_decision. Defined.
Record AttemptPolicy := mkPolicy { transport_budget : Z; auth_retry_available : bool }.
Definition AttemptPolicy_default : AttemptPolicy := mkPolicy 3 true.
Inductive NextStep : Type :=
| RefreshAndRetrySameProfile | RotateToAnotherProfile | SurfaceUpstreamError | SurfaceCapacityExhausted | Deliver.
#[global] Instance KimiNextStep_eq_dec : EqDecision NextStep.
Proof. solve_decision. Defined.
Inductive ProfileEffect : Type := E_None | E_CoolUntilReset | E_AuthQuarantine | E_TransportFault.
Record Decision := mkDecision { next : NextStep; effect : ProfileEffect; policy : AttemptPolicy }.

Definition effect_for (v : UpstreamVerdict) : ProfileEffect :=
  match v with
  | V_QuotaExhausted => E_CoolUntilReset
  | V_Auth => E_AuthQuarantine
  | V_Transport | V_MembershipTemporary => E_TransportFault
  | V_Ok | V_ClientError => E_None
  end.
Definition decide_next (v : UpstreamVerdict) (delivery : Delivery) (p : AttemptPolicy) (eligible_profiles_left : Z) : Decision :=
  if bool_decide (v = V_Ok) then mkDecision Deliver E_None p
  else if bool_decide (delivery = Delivering) then mkDecision SurfaceUpstreamError (effect_for v) p
  else if bool_decide (v = V_Auth) && auth_retry_available p
  then mkDecision RefreshAndRetrySameProfile E_None (mkPolicy (transport_budget p) false)
  else if bool_decide (v = V_ClientError) then mkDecision SurfaceUpstreamError E_None p
  else if negb (may_rotate v) then mkDecision SurfaceUpstreamError (effect_for v) p
  else
    let spends := spends_transport_budget v in
    let remaining := if spends then Z.max 0 (transport_budget p - 1) else transport_budget p in
    if spends && (remaining =? 0)
    then mkDecision SurfaceUpstreamError (effect_for v) (mkPolicy 0 (auth_retry_available p))
    else if eligible_profiles_left =? 0
    then mkDecision SurfaceCapacityExhausted (effect_for v) (mkPolicy remaining (auth_retry_available p))
    else mkDecision RotateToAnotherProfile (effect_for v) (mkPolicy remaining true).

(** ** Plans ([crates/kimi-credential]) *)
Record KimiPlanCapabilities := mkCaps { allows_k3 : bool; allows_1m_context : bool; allows_highspeed : bool }.
Definition KimiPlanCapabilities_default : KimiPlanCapabilities := mkCaps false false false.
Definition KIMI_REVIEWED_PLANS : list (string * KimiPlanCapabilities) :=
  [ ("Adagio", mkCaps false false false); ("Andante", mkCaps false false false); ("Moderato", mkCaps true false false);
    ("Allegretto", mkCaps true true true); ("Allegro", mkCaps true true true); ("Vivace", mkCaps true true true) ].
Definition find_plan (plan_name : string) : option (string * KimiPlanCapabilities) :=
  List.find (fun e => eq_ignore_ascii_case e.1 (trim plan_name)) KIMI_REVIEWED_PLANS.
Definition reviewed_plan_name (plan_name : string) : option string := fst <$> find_plan plan_name.
Definition reviewed_plan_capabilities (plan_name : string) : option KimiPlanCapabilities := snd <$> find_plan plan_name.
Definition capabilities_or_base (plan_name : string) : KimiPlanCapabilities :=
  default KimiPlanCapabilities_default (reviewed_plan_capabilities plan_name).
Definition bounded_plan_label (plan : string) : string := default "unreviewed" (reviewed_plan_name plan).

(** ** Profile health ([gateway.rs]) *)
Definition AUTH_QUARANTINE_SECS : Z := 300.
Definition TRANSPORT_COOL_SECS : Z := 10.
Definition MODEL_FAILURE_COOL_SECS : Z := 60.
Definition KIMI_ROLLING_WINDOW_SECS : Z := 18000.
Definition KIMI_WEEKLY_WINDOW_SECS : Z := 604800.
Definition KIMI_FRACTION_SCALE : Z := 100000000.

Record KimiQuotaWindowStatus := mkWindow {
  w_duration_secs : Z; w_used_units : Z; w_limit_units : Z; w_used_fraction_units : Z;
  w_measurement_resolution : Z; w_resets_at : Z; w_observed_at : Z }.
Record KimiQuotaSnapshot := mkSnapshot {
  s_window_duration_secs : Z; s_window_name : option string; s_resets_at : Z; s_observed_at : Z;
  s_native_used_units : Z; s_native_limit_units : Z; s_used_fraction_units : Z; s_measurement_resolution : Z }.
Record ModelFailure := mkFailure { streak : Z; cool_until : Z }.
Definition ModelFailure_default : ModelFailure := mkFailure 0 0.
Record ProfileHealth := mkProfileHealth {
  authenticated : bool;
  auth_quarantined_until : Z;
  transport_cool_until : Z;
  quota_cool_until : Z;
  quota_used_fraction_units : option Z;
  quota_observed_at : option Z;
  quota_windows : list KimiQuotaWindowStatus;
  model_failures : gmap string ModelFailure }.
Definition ProfileHealth_default : ProfileHealth := mkProfileHealth false 0 0 0 None None [] ∅.
Record RuntimeProfile := mkProfile { p_id : string; p_plan : string; p_health : ProfileHealth; p_inflight : Z }.

Definition active_cooling (until now : Z) : option Z := if now <? until then Some until else None.
Definition supports (plan model : string) : bool :=
  let capabilities := capabilities_or_base plan in
  let m := to_ascii_lowercase model in
  if bool_decide (m = "kimi-for-coding") then true
  else if bool_decide (m = "kimi-for-coding-highspeed") then allows_highspeed capabilities
  else if bool_decide (m = "k3-256k") then allows_k3 capabilities
  else if bool_decide (m = "k3") || bool_decide (m = "k3[1m]") then allows_k3 capabilities && allows_1m_context capabilities
  else false.
Definition window_evidence (h : ProfileHealth) (duration_secs now : Z) : option WindowEvidence :=
  let tolerance := Z.quot duration_secs 10 in
  let distance w := i64_abs (wrap_i64 (w_duration_secs w - duration_secs)) in
  w ← min_by_key distance (List.filter (fun w => distance w <=? tolerance) (quota_windows h));
  Some (mkEvidence (Some (w_used_fraction_units w)) (Some (Z.max (sat_i64 (w_resets_at w - now)) 0))).
Definition health_ineligible (p : RuntimeProfile) (model : string) (now : Z) : option Ineligible :=
  let h := p_health p in
  if negb (supports (p_plan p) model) then Some CapabilityNotInPlan
  else if now <? auth_quarantined_until h then Some AuthQuarantined
  else if now <? quota_cool_until h then Some QuotaWall
  else if now <? transport_cool_until h then Some TransportWedged
  else match model_failures h !! model with
       | Some f => if now <? cool_until f then Some ModelCooling else None
       | None => None
       end.
Definition candidate (p : RuntimeProfile) (model : string) (now : Z) : Candidate Ineligible :=
  let h := p_health p in
  mkCandidate (p_id p) (health_ineligible p model now)
    (window_evidence h KIMI_ROLLING_WINDOW_SECS now) (window_evidence h KIMI_WEEKLY_WINDOW_SECS now)
    ((fun observed => Z.max (sat_i64 (now - observed)) 0) <$> quota_observed_at h) (p_inflight p).

Definition apply_effect (h : ProfileHealth) (e : ProfileEffect) (now : Z) : ProfileHealth :=
  let '(mkProfileHealth au aq tc qc qu qo qw mf) := h in
  match e with
  | E_None => h
  | E_CoolUntilReset => mkProfileHealth au aq tc (sat_i64 (now + AUTH_QUARANTINE_SECS)) qu qo qw mf
  | E_AuthQuarantine => mkProfileHealth false (sat_i64 (now + AUTH_QUARANTINE_SECS)) tc qc qu qo qw mf
  | E_TransportFault => mkProfileHealth au aq (sat_i64 (now + TRANSPORT_COOL_SECS)) qc qu qo qw mf
  end.
Definition apply_effect_with_hint (h : ProfileHealth) (e : ProfileEffect) (now : Z) (retry_after_secs : option Z) : ProfileHealth :=
  let '(mkProfileHealth au aq tc qc qu qo qw mf) := h in
  match e, retry_after_secs with
  | E_CoolUntilReset, Some seconds => mkProfileHealth au aq tc (sat_i64 (now + seconds)) qu qo qw mf
  | E_TransportFault, Some seconds => mkProfileHealth au aq (sat_i64 (now + seconds)) qc qu qo qw mf
  | _, _ => apply_effect h e now
  end.
Definition mark_healthy (h : ProfileHealth) : ProfileHealth :=
  let '(mkProfileHealth _ _ _ qc qu qo qw mf) := h in mkProfileHealth true 0 0 qc qu qo qw mf.
Definition mark_model_failure (h : ProfileHealth) (model : string) (now : Z) : ProfileHealth :=
  let '(mkProfileHealth au aq tc qc qu qo qw mf) := h in
  let failure := default ModelFailure_default (mf !! model) in
  let s := Z.min u32_max (streak failure + 1) in
  let failure' := if 2 <=? s then mkFailure 0 (sat_i64 (now + MODEL_FAILURE_COOL_SECS)) else mkFailure s (cool_until failure) in
  mkProfileHealth au aq tc qc qu qo qw (<[model := failure']> mf).
Definition mark_model_healthy (h : ProfileHealth) (model : string) : ProfileHealth :=
  let '(mkProfileHealth au aq tc qc qu qo qw mf) := h in mkProfileHealth au aq tc qc qu qo qw (delete model mf).
Definition exhausted (s : KimiQuotaSnapshot) : bool := KIMI_FRACTION_SCALE <=? s_used_fraction_units s.
Definition window_of (s : KimiQuotaSnapshot) : KimiQuotaWindowStatus :=
  mkWindow (s_window_duration_secs s) (s_native_used_units s) (s_native_limit_units s) (s_used_fraction_units s)
    (s_measurement_resolution s) (s_resets_at s) (s_observed_at s).
Definition publish_quota (h : ProfileHealth) (snapshots : list KimiQuotaSnapshot) (observed_at : Z) : ProfileHealth :=
  let '(mkProfileHealth _ _ _ _ _ _ _ mf) := h in
  mkProfileHealth true 0 0
    (default 0 (max_of (map s_resets_at (List.filter exhausted snapshots))))
    (max_of (map s_used_fraction_units snapshots)) (Some observed_at) (map window_of snapshots) mf.
(** The deadline shared with sibling processes: the latest of all axes. *)
Definition cooling_deadline (h : ProfileHealth) (now : Z) : option Z :=
  let profile_axes := (auth_quarantined_until h `max` transport_cool_until h) `max` quota_cool_until h in
  let model_axes := default 0 (max_of ((fun kf => cool_until kf.2) <$> map_to_list (model_failures h))) in
  let until := profile_axes `max` model_axes in
  if now <? until then Some until else None.

(** ** Placement with its escape hatch *)
Definition relax (c : Candidate Ineligible) : Candidate Ineligible :=
  match ineligible c with
  | Some r => if is_environmental r
              then mkCandidate (profile_id c) None (window_5h c) (window_weekly c) (quota_age_secs c) (inflight c)
              else c
  | None => c
  end.
Definition candidates_of (profiles : list RuntimeProfile) (model : string) (excluded : gset string) (now : Z)
    : list (Candidate Ineligible) :=
  map (fun p => candidate p model now) (List.filter (fun p => negb (bool_decide (p_id p ∈ excluded))) profiles).
Definition select_profile (profiles : list RuntimeProfile) (model : string) (excluded : gset string)
    (sticky : option string) (now cursor : Z) : option RuntimeProfile :=
  let candidates := candidates_of profiles model excluded now in
  selected ← match kimi_select candidates sticky cursor with
             | Some c => Some c
             | None => kimi_select (map relax candidates) sticky cursor
             end;
  List.find (fun p => bool_decide (p_id p = profile_id selected)) profiles.
Definition eligible_count (profiles : list RuntimeProfile) (model : string) (excluded : gset string)
    (current : string) (now : Z) : Z :=
  Z.of_nat (length (List.filter (fun p => match health_ineligible p model now with None => true | Some _ => false end)
    (List.filter (fun p => negb (bool_decide (p_id p = current)) && negb (bool_decide (p_id p ∈ excluded))) profiles))).

(** ** The loop of [handle] *)

Inductive GatewayFailure : Type :=
| F_Auth | F_Transport | F_Protocol | F_Capacity | F_LowBalance
| F_BadRequest (code : string) | F_Unsupported (code : string) | F_Unavailable (code : string) | F_Upstream (status : Z).
#[global] Instance GatewayFailure_eq_dec : EqDecision GatewayFailure.
Proof. solve_decision. Defined.
Definition verdict (e : GatewayFailure) : UpstreamVerdict :=
  match e with
  | F_Auth => V_Auth
  | F_Transport | F_Protocol | F_Unavailable _ => V_Transport
  | F_Upstream status => classify_status status
  | F_Capacity => V_QuotaExhausted
  | F_LowBalance | F_BadRequest _ | F_Unsupported _ => V_ClientError
  end.

(** What acquiring a token ([access_token]) and reading a body can fail with. *)
Inductive io_failure : Type := IO_Auth | IO_Transport | IO_Protocol.
Definition failure_of (e : io_failure) : GatewayFailure :=
  match e with IO_Auth => F_Auth | IO_Transport => F_Transport | IO_Protocol => F_Protocol end.

(** What follows a success status: a usable first byte (or whole body) whose
    delivery marker was written; no background slot during shutdown; a first byte
    the stream accounting refuses; a delivery marker that could not be written; or
    a body that never starts, with the failure that is surfaced for it. *)
Inductive body_outcome : Type := Started | NoBackground | BadFrame | NoMarker | BodyFailed (e : io_failure).
Inductive answer : Type :=
| SendFailed
| Answered (status : Z) (retry_after : option Z) (body : body_outcome).
(** What one step of the loop meets: the roster, clock and cursor of a selection,
    the milliseconds left of the capacity deadline, shutdown; the token the
    profile's credential yields given the token that was just rejected; the
    upstream answer; and the rosters and clocks of the two counts. *)
Record step_env := mkEnv {
  se_profiles : list RuntimeProfile; se_now : Z; se_cursor : Z; se_wait_ms : Z; se_shutdown : bool;
  se_token : string -> option string -> result io_failure string; se_answer : answer;
  se_count_profiles : list RuntimeProfile; se_count_now : Z;
  se_body_profiles : list RuntimeProfile; se_body_now : Z }.
Inductive handled : Type := Delivered (id : string) | Failed (e : GatewayFailure).
(** What an attempt did to its profile's health. *)
Inductive applied : Type := Untouched | Refreshed | Blamed (e : ProfileEffect) (retry_after : option Z) | ModelBlamed.
Record tried := mkTried { t_id : string; t_verdict : UpstreamVerdict; t_applied : applied }.
(** [current]: the leased profile and the token rejected on it, inside the inner loop. *)
Record loop_state := mkLoop { excluded : gset string; loop_policy : AttemptPolicy; current : option (string * option string) }.
Definition loop_init : loop_state := mkLoop ∅ AttemptPolicy_default None.

(** The profile of an outer iteration: the calibration target, once, or a placement. *)
Definition pick (env : step_env) (model : string) (pinned sticky : option string) (ex : gset string) : option RuntimeProfile :=
  match pinned with
  | Some id =>
      if bool_decide (ex = ∅) then
        p ← List.find (fun p => bool_decide (p_id p = id)) (se_profiles env);
        match health_ineligible p model (se_now env) with None => Some p | Some _ => None end
      else None
  | None => select_profile (se_profiles env) model ex sticky (se_now env) (se_cursor env)
  end.
Definition rotated (st : loop_state) (id : string) (d : Decision) : loop_state :=
  mkLoop ({[id]} ∪ excluded st) (policy d) None.

(** The outer iteration's head. *)
Definition place (env : step_env) (model : string) (pinned sticky : option string) (st : loop_state)
    : handled + loop_state :=
  match pick env model pinned sticky (excluded st) with
  | Some p => inr (mkLoop (excluded st) (loop_policy st) (Some (p_id p, None)))
  | None =>
      let remaining := if bool_decide (excluded st = ∅) then se_wait_ms env else 0 in
      match (if se_shutdown env then None else smooth_step 0 remaining) with
      | Some _ => inr st
      | None => inl (Failed F_Capacity)
      end
  end.
(** One inner iteration on the leased profile [id]. *)
Definition attempt (env : step_env) (model : string) (st : loop_state) (id : string) (rejected : option string)
    : tried * (handled + loop_state) :=
  let left := eligible_count (se_count_profiles env) model (excluded st) id (se_count_now env) in
  match se_token env id rejected with
  | Err e =>
      let v := verdict (failure_of e) in
      let d := decide_next v PreByte (loop_policy st) left in
      (mkTried id v (Blamed (effect d) None),
       if bool_decide (next d = RotateToAnotherProfile) then inr (rotated st id d) else inl (Failed (failure_of e)))
  | Ok token =>
      match se_answer env with
      | SendFailed =>
          let d := decide_next V_Transport PreByte (loop_policy st) left in
          (mkTried id V_Transport (Blamed (effect d) None),
           if bool_decide (next d = RotateToAnotherProfile) then inr (rotated st id d) else inl (Failed F_Transport))
      | Answered status retry_after body =>
          let v := classify_status status in
          let d := decide_next v PreByte (loop_policy st) left in
          match next d with
          | RefreshAndRetrySameProfile =>
              (mkTried id v Refreshed, inr (mkLoop (excluded st) (policy d) (Some (id, Some token))))
          | RotateToAnotherProfile => (mkTried id v (Blamed (effect d) retry_after), inr (rotated st id d))
          | SurfaceCapacityExhausted => (mkTried id v (Blamed (effect d) retry_after), inl (Failed F_Capacity))
          | SurfaceUpstreamError => (mkTried id v (Blamed (effect d) retry_after), inl (Failed (F_Upstream status)))
          | Deliver =>
              match body with
              | Started => (mkTried id v Untouched, inl (Delivered id))
              | NoBackground => (mkTried id v Untouched, inl (Failed (F_Unavailable "kimi_shutdown")))
              | BadFrame => (mkTried id v Untouched, inl (Failed F_Protocol))
              | NoMarker => (mkTried id v Untouched, inl (Failed (F_Unavailable "kimi_delivery_marker_unavailable")))
              | BodyFailed e =>
                  let left' := eligible_count (se_body_profiles env) model (excluded st) id (se_body_now env) in
                  let d' := decide_next V_Transport PreByte (policy d) left' in
                  (mkTried id V_Transport ModelBlamed,
                   match next d' with
                   | RotateToAnotherProfile => inr (rotated st id d')
                   | SurfaceCapacityExhausted => inl (Failed F_Capacity)
                   | _ => inl (Failed (failure_of e))
                   end)
              end
          end
      end
  end.
Definition loop_step (env : step_env) (model : string) (pinned sticky : option string) (st : loop_state)
    : list tried * (handled + loop_state) :=
  match current st with
  | None => ([], place env model pinned sticky st)
  | Some (id, rejected) => let '(t, r) := attempt env model st id rejected in ([t], r)
  end.
Fixpoint attempt_loop (fuel : nat) (env : nat -> step_env) (model : string) (pinned sticky : option string) (st : loop_state)
    : option (handled * list tried) :=
  match fuel with
  | O => None
  | S fuel =>
      let '(now_tried, r) := loop_step (env 0%nat) model pinned sticky st in
      match r with
      | inl out => Some (out, now_tried)
      | inr st' =>
          '(out, trace) ← attempt_loop fuel (fun k => env (S k)) model pinned sticky st';
          Some (out, now_tried ++ trace)
      end
  end.

(** ** Decisions *)
(** The one-byte boundary, the refresh and the budget.  Once a byte was
    delivered nothing is retried.  Before that, a first refusal on a profile
    forces exactly one refresh on the same profile, blames nobody and uses up the
    retry; rotation happens exactly when the verdict blames the profile or the
    transport, another profile is left and a transport failure still has budget;
    the next profile gets its own refresh; only transport and membership failures
    spend budget; and only a success is delivered. *)
Theorem kimi_decide_exact (v : UpstreamVerdict) (d : Delivery) (p : AttemptPolicy) (left : Z) :
  let r := decide_next v d p left in
  (next r = Deliver <-> v = V_Ok) /\
  (next r = RefreshAndRetrySameProfile <-> v = V_Auth /\ d = PreByte /\ auth_retry_available p = true) /\
  (next r = RefreshAndRetrySameProfile -> effect r = E_None /\ auth_retry_available (policy r) = false
     /\ transport_budget (policy r) = transport_budget p) /\
  (next r = RotateToAnotherProfile <->
     d = PreByte /\ may_rotate v = true /\ left <> 0 /\ (v = V_Auth -> auth_retry_available p = false)
     /\ (spends_transport_budget v = true -> 2 <= transport_budget p)) /\
  (next r = RotateToAnotherProfile -> auth_retry_available (policy r) = true /\ effect r = effect_for v
     /\ transport_budget (policy r) = transport_budget p - (if spends_transport_budget v then 1 else 0)) /\
  (next r = SurfaceCapacityExhausted -> d = PreByte /\ left = 0 /\ may_rotate v = true /\ effect r = effect_for v).
Proof.
  intros r. unfold r, decide_next. destruct p as [b a].
  destruct v, d, a; repeat (case_bool_decide; try done); cbn;
    try (destruct (Z.eqb_spec left 0)); try (destruct (Z.eqb_spec (Z.max 0 (b - 1)) 0));
    cbn; repeat split; intros; destruct_and?; try done; try lia;
    try (match goal with H : true = true -> _ |- _ => specialize (H eq_refl); lia | H : V_Auth = V_Auth -> _ |- _ => by specialize (H eq_refl) end).
Qed.

(** ** Placement *)
(** A profile whose hold is the provider's own statement: a quota wall, a
    capability outside the plan, a model that keeps failing. *)
Definition walled (p : RuntimeProfile) (model : string) (now : Z) : Prop :=
  exists r, health_ineligible p model now = Some r /\ r ∈ [QuotaWall; CapabilityNotInPlan; ModelCooling].
Lemma provider_statement r : r ∈ [QuotaWall; CapabilityNotInPlan; ModelCooling] <-> is_environmental r = false.
Proof. rewrite !elem_of_cons, elem_of_nil. destruct r; cbn; naive_solver. Qed.

Lemma elem_of_candidates profiles model ex now c :
  c ∈ candidates_of profiles model ex now <-> exists p, p ∈ profiles /\ (p_id p ∉ ex) /\ c = candidate p model now.
Proof.
  unfold candidates_of. rewrite list_elem_of_fmap. split.
  - intros (p & -> & [Hp Hn]%elem_of_lfilter). apply negb_true_iff, bool_decide_eq_false in Hn. eauto.
  - intros (p & Hp & Hn & ->). exists p. split; [done|]. rewrite elem_of_lfilter. split; [done|]. by rewrite bool_decide_eq_false_2.
Qed.
Lemma relax_eligible c : is_eligible (relax c) = true <->
  match ineligible c with None => True | Some r => is_environmental r = true end.
Proof.
  unfold relax, is_eligible. destruct (ineligible c) as [r|] eqn:E; [|by rewrite E].
  destruct (is_environmental r) eqn:Er; cbn; [done|]. by rewrite E.
Qed.
Lemma relax_id c : profile_id (relax c) = profile_id c.
Proof. unfold relax. destruct (ineligible c) as [r|]; [|done]. by destruct (is_environmental r). Qed.

(** The candidate a placement chooses. *)
Definition chosen (profiles : list RuntimeProfile) (model : string) (ex : gset string) (sticky : option string) (now cursor : Z)
    : option (Candidate Ineligible) :=
  let candidates := candidates_of profiles model ex now in
  match kimi_select candidates sticky cursor with
  | Some c => Some c
  | None => kimi_select (map relax candidates) sticky cursor
  end.
Lemma chosen_spec profiles model ex sticky now cursor c : 0 <= cursor ->
  chosen profiles model ex sticky now cursor = Some c ->
  exists p, p ∈ profiles /\ (p_id p ∉ ex) /\ profile_id c = p_id p /\
    (health_ineligible p model now = None \/
     (exists r, health_ineligible p model now = Some r /\ is_environmental r = true) /\
     forall q, q ∈ profiles -> p_id q ∉ ex -> health_ineligible q model now <> None).
Proof.
  intros Hcur. unfold chosen. destruct (kimi_select _ _ _) as [c'|] eqn:E1.
  - intros [= ->]. apply select_eligible in E1 as [(p & Hp & Hn & ->)%elem_of_candidates He].
    exists p. split_and!; [done..|]. left. unfold is_eligible in He. cbn in He. by destruct (health_ineligible p model now).
  - intros E2. apply select_eligible in E2 as [Hc He]. apply list_elem_of_fmap in Hc as (c0 & -> & Hc0).
    rewrite relax_eligible in He. apply elem_of_candidates in Hc0 as (p & Hp & Hn & ->).
    exists p. split_and!; [done..|by rewrite relax_id|]. cbn in He. destruct (health_ineligible p model now) as [r|] eqn:Eh; [right|by left].
    split; [eauto|]. intros q Hq Hqn Hqe.
    destruct (select_serves (candidates_of profiles model ex now) sticky cursor (candidate q model now) Hcur) as [w Hw].
    { apply elem_of_candidates. eauto. } { unfold is_eligible. cbn. by rewrite Hqe. }
    unfold kimi_select in E1. congruence.
Qed.
Lemma chosen_None profiles model ex sticky now cursor : 0 <= cursor ->
  chosen profiles model ex sticky now cursor = None <-> forall p, p ∈ profiles -> p_id p ∉ ex -> walled p model now.
Proof.
  intros Hcur. split.
  - unfold chosen. destruct (kimi_select _ _ _) eqn:E1; [done|]. intros E2 p Hp Hn. unfold walled.
    assert (Hno : is_eligible (relax (candidate p model now)) <> true).
    { intros He. destruct (select_serves (map relax (candidates_of profiles model ex now)) sticky cursor (relax (candidate p model now)) Hcur) as [w Hw];
        [|done|unfold kimi_select in E2; congruence].
      apply list_elem_of_fmap. exists (candidate p model now). split; [done|]. apply elem_of_candidates. eauto. }
    rewrite relax_eligible in Hno. cbn in Hno. destruct (health_ineligible p model now) as [r|]; [|done].
    exists r. split; [done|]. apply provider_statement. by destruct (is_environmental r).
  - intros Hall. destruct (chosen _ _ _ _ _ _) as [c|] eqn:E; [|done].
    apply chosen_spec in E as (p & Hp & Hn & _ & Hc); [|done]. destruct (Hall p Hp Hn) as (r & Hr & He%provider_statement).
    destruct Hc as [Hc|[(r' & Hr' & He') _]]; congruence.
Qed.
Lemma select_profile_chosen profiles model ex sticky now cursor :
  select_profile profiles model ex sticky now cursor
  = c ← chosen profiles model ex sticky now cursor; List.find (fun p => bool_decide (p_id p = profile_id c)) profiles.
Proof. done. Qed.
Lemma kimi_select_profile_Some profiles model ex sticky now cursor p : 0 <= cursor ->
  select_profile profiles model ex sticky now cursor = Some p -> p ∈ profiles /\ p_id p ∉ ex.
Proof.
  intros Hcur. rewrite select_profile_chosen. intros (c & Hc & Hf)%bind_Some.
  apply List.find_some in Hf as [Hp%list_elem_of_In Hid%bool_decide_eq_true].
  apply chosen_spec in Hc as (q & Hq & Hn & Hqc & _); [|done]. split; [done|]. by rewrite Hid, Hqc.
Qed.
Lemma kimi_select_profile_None profiles model ex sticky now cursor : 0 <= cursor ->
  select_profile profiles model ex sticky now cursor = None <-> forall p, p ∈ profiles -> p_id p ∉ ex -> walled p model now.
Proof.
  intros Hcur. rewrite <- (chosen_None _ _ _ sticky _ _ Hcur), select_profile_chosen.
  destruct (chosen _ _ _ _ _ _) as [c|] eqn:E; cbn; [|done]. split; [|done].
  apply chosen_spec in E as (p & Hp & _ & Hc & _); [|done]. rewrite list_elem_of_In in Hp. intros Hf.
  pose proof (List.find_none _ _ Hf p Hp) as Hx. cbn in Hx. by rewrite Hc, bool_decide_eq_true_2 in Hx.
Qed.

(** A hold we inferred never denies a placement.  No profile is returned
    exactly when every untried profile is held by a provider statement (a quota
    wall, a capability outside the plan, a cooling model); a profile under such a
    statement is never returned; and one under an inferred hold (quarantined
    auth, wedged transport) is returned only when no untried profile is
    eligible. *)
Theorem kimi_placement_floor (profiles : list RuntimeProfile) (model : string) (ex : gset string)
    (sticky : option string) (now cursor : Z) (Hcur : 0 <= cursor) (Hids : NoDup (map p_id profiles)) :
  let r := select_profile profiles model ex sticky now cursor in
  (r = None <-> forall p, p ∈ profiles -> p_id p ∉ ex -> walled p model now) /\
  (forall p, r = Some p -> p ∈ profiles /\ (p_id p ∉ ex) /\ ~ walled p model now /\
     (health_ineligible p model now <> None ->
        forall q, q ∈ profiles -> p_id q ∉ ex -> health_ineligible q model now <> None)).
Proof.
  cbn zeta. split; [by apply kimi_select_profile_None|]. intros p Hs.
  destruct (kimi_select_profile_Some _ _ _ _ _ _ _ Hcur Hs) as [Hp Hn]. split; [done|]. split; [done|].
  rewrite select_profile_chosen in Hs. apply bind_Some in Hs as (c & Hc & Hf).
  apply List.find_some in Hf as [_ Hid%bool_decide_eq_true].
  apply chosen_spec in Hc as (q & Hq & Hqn & Hqc & Hh); [|done].
  assert (q = p) as ->.
  { apply list_elem_of_lookup in Hq as [i Hi], Hp as [j Hj].
    assert (i = j); [|congruence]. eapply (NoDup_lookup (map p_id profiles)); [done|..].
    - rewrite list_lookup_fmap, Hi. cbn. reflexivity.
    - rewrite list_lookup_fmap, Hj. cbn. congruence. }
  split.
  - intros (r & Hr & He%provider_statement). destruct Hh as [Hh|[(r' & Hr' & He') _]]; congruence.
  - intros Hne. destruct Hh as [Hh|[_ Hall]]; [done|]. exact Hall.
Qed.

(** ** The loop *)
Lemma kimi_eligible_count_zero profiles model ex cur now p :
  eligible_count profiles model ex cur now = 0 ->
  p ∈ profiles -> p_id p <> cur -> p_id p ∉ ex -> health_ineligible p model now <> None.
Proof.
  unfold eligible_count. intros E Hp Hc Hex He.
  destruct (List.filter _ (List.filter _ profiles)) eqn:El; [|cbn in E; lia].
  apply (not_elem_of_nil p). rewrite <- El, !elem_of_lfilter.
  rewrite !bool_decide_eq_false_2 by done. rewrite He. done.
Qed.
(** No profile of a roster outside [seen] may be used. *)
Definition none_left (read : list RuntimeProfile * Z) (model : string) (seen : gset string) : Prop :=
  forall p, p ∈ read.1 -> p_id p ∉ seen -> health_ineligible p model read.2 <> None.
(** The count an attempt reads last: a body that never starts is judged by a second one. *)
Definition last_count (env : step_env) : list RuntimeProfile * Z :=
  match se_answer env with
  | Answered status _ (BodyFailed _) =>
      if bool_decide (classify_status status = V_Ok) then (se_body_profiles env, se_body_now env)
      else (se_count_profiles env, se_count_now env)
  | _ => (se_count_profiles env, se_count_now env)
  end.
(** The roster's entry of a calibration target is missing or may not be used. *)
Definition target_unusable (env : step_env) (model id : string) : Prop :=
  forall p, List.find (fun p => bool_decide (p_id p = id)) (se_profiles env) = Some p ->
    health_ineligible p model (se_now env) <> None.
(** Why a step may end the run for want of capacity: after an attempt, no other
    profile is left in its last count; at a placement, the roster has no
    profile outside [seen], or the pinned target was seen or cannot be used. *)
Definition starved (env : step_env) (model : string) (pinned : option string) (st : loop_state) (seen : gset string) : Prop :=
  match current st, pinned with
  | Some _, _ => none_left (last_count env) model seen
  | None, None => none_left (se_profiles env, se_now env) model seen
  | None, Some id => id ∈ seen \/ target_unusable env model id
  end.
(** The state after [k] steps, none of which ended the run. *)
Fixpoint loop_after (k : nat) (env : nat -> step_env) (model : string) (pinned sticky : option string) (st : loop_state)
    : option loop_state :=
  match k with
  | O => Some st
  | S k =>
      match (loop_step (env 0%nat) model pinned sticky st).2 with
      | inl _ => None
      | inr st' => loop_after k (fun j => env (S j)) model pinned sticky st'
      end
  end.
(** The step that ended the run was starved, of everything outside [seen]. *)
Definition capacity_exhausted (env : nat -> step_env) (model : string) (pinned sticky : option string) (st : loop_state)
    (seen : gset string) : Prop :=
  exists k st', loop_after k env model pinned sticky st = Some st' /\
    (loop_step (env k) model pinned sticky st').2 = inl (Failed F_Capacity) /\ starved (env k) model pinned st' seen.

Definition is_refresh (t : tried) : bool := match t_applied t with Refreshed => true | _ => false end.
Definition spent (trace : list tried) : Z := sumZ (fun t => Z.b2z (spends_transport_budget (t_verdict t))) trace.
Definition attempts (trace : list tried) : list string := map t_id (List.filter (fun t => negb (is_refresh t)) trace).
Definition refreshes (trace : list tried) : list string := map t_id (List.filter is_refresh trace).

Definition state_ok (pinned : option string) (ids : gset string) (st : loop_state) : Prop :=
  1 <= transport_budget (loop_policy st) /\
  (forall id rej, current st = Some (id, rej) -> id ∈ ids /\ id ∉ excluded st) /\
  (forall target, pinned = Some target ->
    excluded st ⊆ {[target]} /\ forall id rej, current st = Some (id, rej) -> id = target).
(** What a finished run guarantees, from the state [st]. *)
Record run_ok (env : nat -> step_env) (model : string) (pinned sticky : option string) (ids : gset string) (st : loop_state)
    (out : handled) (trace : list tried) : Prop := {
  ro_fresh : NoDup (attempts trace);
  ro_refreshes : NoDup (refreshes trace);
  ro_ids : forall t, t ∈ trace -> t_id t ∈ ids /\ t_id t ∉ excluded st;
  ro_retry : forall id rej, current st = Some (id, rej) -> auth_retry_available (loop_policy st) = false -> id ∉ refreshes trace;
  ro_spent : spent trace <= transport_budget (loop_policy st);
  ro_deliver : forall id, out = Delivered id -> last trace = Some (mkTried id V_Ok Untouched);
  ro_pinned : forall target t, pinned = Some target -> t ∈ trace -> t_id t = target;
  ro_capacity : out = Failed F_Capacity ->
    capacity_exhausted env model pinned sticky st (list_to_set (map t_id trace) ∪ excluded st)
}.

Lemma kimi_decide_capacity v d p left : next (decide_next v d p left) = SurfaceCapacityExhausted -> left = 0.
Proof. unfold decide_next. destruct v, d, p as [b []]; repeat (case_bool_decide; try done); cbn; repeat case_match; try done; lia. Qed.
Lemma decide_rotate v p left : 1 <= transport_budget p -> next (decide_next v PreByte p left) = RotateToAnotherProfile ->
  let p' := policy (decide_next v PreByte p left) in
  v <> V_Ok /\ 1 <= transport_budget p' /\ transport_budget p' = transport_budget p - Z.b2z (spends_transport_budget v).
Proof.
  intros Hb. unfold decide_next. destruct v, p as [b []]; repeat (case_bool_decide; try done); cbn in *;
    repeat (case_match; try done); cbn in *; rewrite ?Z.eqb_neq in *; intros _; repeat split; try done; lia.
Qed.
Lemma decide_refresh v p left : next (decide_next v PreByte p left) = RefreshAndRetrySameProfile ->
  v = V_Auth /\ auth_retry_available p = true /\ policy (decide_next v PreByte p left) = mkPolicy (transport_budget p) false.
Proof.
  unfold decide_next. destruct v, p as [b []]; repeat (case_bool_decide; try done); cbn in *; repeat (case_match; try done).
Qed.
Lemma kimi_decide_deliver v p left : next (decide_next v PreByte p left) = Deliver -> v = V_Ok /\ policy (decide_next v PreByte p left) = p.
Proof.
  unfold decide_next. destruct v, p as [b []]; repeat (case_bool_decide; try done); cbn in *; repeat (case_match; try done).
Qed.

(** An inner iteration that answers the client. *)
Lemma kimi_attempt_ends env model st id rej t out :
  attempt env model st id rej = (t, inl out) ->
  t_id t = id /\ is_refresh t = false /\ (forall x, out = Delivered x -> t = mkTried x V_Ok Untouched) /\
  (out = Failed F_Capacity -> none_left (last_count env) model ({[id]} ∪ excluded st)).
Proof.
  intros H. rename env into e0.
  assert (Hleft : forall v p profiles now, next (decide_next v PreByte p
      (eligible_count profiles model (excluded st) id now)) = SurfaceCapacityExhausted ->
      none_left (profiles, now) model ({[id]} ∪ excluded st)).
  { intros v p profiles now Hd%kimi_decide_capacity q Hq Hs. eapply kimi_eligible_count_zero; [exact Hd|done|set_solver|set_solver]. }
  unfold attempt in H. destruct (se_token e0 id rej) as [tok|e].
  2:{ case_bool_decide; [done|]. injection H as <- <-. split_and!; [done..|]. by destruct e. }
  destruct (se_answer e0) as [|status ra body] eqn:Ea.
  { case_bool_decide; [done|]. injection H as <- <-. done. }
  destruct (next (decide_next (classify_status status) _ _ _)) eqn:En; try discriminate H.
  - injection H as <- <-. done.
  - injection H as <- <-. split_and!; [done..|]. intros _. unfold last_count. rewrite Ea.
    destruct body; [by eapply Hleft..|]. case_bool_decide as Hv; [|by eapply Hleft].
    by rewrite Hv in En.
  - pose proof (kimi_decide_deliver _ _ _ En) as [Hv _]. destruct body as [| | | |e].
    + injection H as <- <-. split_and!; [done..| |done]. intros x [= <-]. by rewrite Hv.
    + injection H as <- <-. done.
    + injection H as <- <-. done.
    + injection H as <- <-. done.
    + destruct (next (decide_next V_Transport PreByte (policy _) _)) eqn:En'; try discriminate H; injection H as <- <-;
        (split_and!; [done..|]); try (by destruct e). intros _. unfold last_count.
      rewrite Ea, bool_decide_eq_true_2 by done. by eapply Hleft.
Qed.
(** An inner iteration that goes on: a refresh on the same profile, or a rotation. *)
Lemma attempt_goes_on env model st id rej t st' : 1 <= transport_budget (loop_policy st) ->
  attempt env model st id rej = (t, inr st') ->
  t_id t = id /\
  ((is_refresh t = true /\ spends_transport_budget (t_verdict t) = false /\ auth_retry_available (loop_policy st) = true /\
      excluded st' = excluded st /\ loop_policy st' = mkPolicy (transport_budget (loop_policy st)) false /\
      exists tok, current st' = Some (id, tok)) \/
   (is_refresh t = false /\ excluded st' = {[id]} ∪ excluded st /\ current st' = None /\
      1 <= transport_budget (loop_policy st') /\
      transport_budget (loop_policy st') = transport_budget (loop_policy st) - Z.b2z (spends_transport_budget (t_verdict t)))).
Proof.
  intros Hb H. unfold attempt in H. destruct (se_token env id rej) as [tok|e].
  2:{ case_bool_decide as Hn; [|done]. injection H as <- <-. split; [done|right].
      destruct (decide_rotate _ _ _ Hb Hn) as (_ & H1 & H2). done. }
  destruct (se_answer env) as [|status ra body].
  { case_bool_decide as Hn; [|done]. injection H as <- <-. split; [done|right].
    destruct (decide_rotate _ _ _ Hb Hn) as (_ & H1 & H2). done. }
  destruct (next (decide_next (classify_status status) _ _ _)) eqn:En; try discriminate H.
  - injection H as <- <-. split; [done|left]. destruct (decide_refresh _ _ _ En) as (Hv & Ha & Hp). cbn [t_verdict excluded loop_policy current]. rewrite Hp, Hv. eauto 10.
  - injection H as <- <-. split; [done|right]. destruct (decide_rotate _ _ _ Hb En) as (_ & H1 & H2). done.
  - destruct (kimi_decide_deliver _ _ _ En) as [_ Hp]. destruct body as [| | | |e]; try discriminate H.
    rewrite Hp in H. destruct (next (decide_next V_Transport _ _ _)) eqn:En'; try discriminate H.
    injection H as <- <-. split; [done|right]. destruct (decide_rotate _ _ _ Hb En') as (_ & H1 & H2). done.
Qed.

(** The outer head. *)
Lemma pick_Some env model pinned sticky ex p : 0 <= se_cursor env -> pick env model pinned sticky ex = Some p ->
  p ∈ se_profiles env /\ (p_id p ∉ ex) /\ forall target, pinned = Some target -> p_id p = target.
Proof.
  intros Hcur. unfold pick. destruct pinned as [id|]; [|intros [? ?]%kimi_select_profile_Some; done].
  case_bool_decide as He; [|done]. intros (q & Hq & Hh)%bind_Some. destruct (health_ineligible q _ _); [done|]. simplify_eq.
  apply List.find_some in Hq as [Hq%list_elem_of_In Hid%bool_decide_eq_true].
  split_and!; [done|set_solver|]. intros target [= <-]. done.
Qed.
Lemma place_ends env model pinned sticky st out : 0 <= se_cursor env -> current st = None ->
  (forall target, pinned = Some target -> excluded st ⊆ {[target]}) ->
  place env model pinned sticky st = inl out ->
  out = Failed F_Capacity /\ starved env model pinned st (excluded st).
Proof.
  intros Hcur Hc Hpin. unfold place, starved. rewrite Hc. destruct (pick _ _ _ _ _) as [p|] eqn:Ep; [done|].
  destruct (if se_shutdown env then None else _); [done|]. intros [= <-]. split; [done|].
  unfold pick in Ep. destruct pinned as [id|].
  - case_bool_decide as He.
    + right. intros p Hp Hnone. rewrite Hp in Ep. apply bind_None in Ep as [?|(q & [= <-] & Hq)]; [done|]. by rewrite Hnone in Hq.
    + left. specialize (Hpin id eq_refl). apply set_choose_L in He as [x Hx]. set_solver.
  - rewrite kimi_select_profile_None in Ep by done. intros p Hp Hn. cbn [snd]. destruct (Ep p Hp Hn) as (r & -> & _). done.
Qed.
Lemma place_goes_on env model pinned sticky st st' : 0 <= se_cursor env -> current st = None ->
  place env model pinned sticky st = inr st' ->
  excluded st' = excluded st /\ loop_policy st' = loop_policy st /\
  ((exists p, p ∈ se_profiles env /\ (p_id p ∉ excluded st) /\ (forall target, pinned = Some target -> p_id p = target) /\
      current st' = Some (p_id p, None)) \/
   (st' = st /\ se_wait_ms env <> 0)).
Proof.
  intros Hcur Hc. unfold place. destruct (pick _ _ _ _ _) as [p|] eqn:Ep.
  - intros [= <-]. apply pick_Some in Ep as (? & ? & ?); [|done]. split_and!; [done..|]. left. eauto 10.
  - destruct (se_shutdown env); [done|]. unfold smooth_step. case_bool_decide; [|done].
    destruct (Z.eqb_spec (se_wait_ms env) 0); [done|]. intros [= <-]. auto.
Qed.

(** Steps left without waiting: three for every untried profile and one more. *)
Definition steps_left (ids : gset string) (st : loop_state) : nat :=
  let n := size (ids ∖ excluded st) in
  match current st with
  | None => 3 * n + 1
  | Some _ => if auth_retry_available (loop_policy st) then 3 * n else 3 * n - 1
  end.

Lemma starved_mono env model pinned st seen seen' : seen ⊆ seen' -> starved env model pinned st seen -> starved env model pinned st seen'.
Proof.
  intros Hsub. unfold starved, none_left. destruct (current st), pinned;
    [intros H q Hp Hs; apply H; [done|set_solver]..| |intros H q Hp Hs; apply H; [done|set_solver]].
  intros [H|H]; [left; set_solver|by right].
Qed.
Lemma capacity_exhausted_step env model pinned sticky st st' seen seen' :
  (loop_step (env 0%nat) model pinned sticky st).2 = inr st' -> seen ⊆ seen' ->
  capacity_exhausted (fun k => env (S k)) model pinned sticky st' seen -> capacity_exhausted env model pinned sticky st seen'.
Proof.
  intros Hs Hsub (k & st'' & Hk & He & Hst). exists (S k), st''. cbn [loop_after]. rewrite Hs.
  split_and!; [done..|]. by eapply starved_mono.
Qed.

Lemma run_ok_skip env model pinned sticky ids st st' out trace :
  (loop_step (env 0%nat) model pinned sticky st).2 = inr st' ->
  excluded st' = excluded st -> transport_budget (loop_policy st') = transport_budget (loop_policy st) -> current st = None ->
  run_ok (fun k => env (S k)) model pinned sticky ids st' out trace -> run_ok env model pinned sticky ids st out trace.
Proof.
  intros Hstep He Hb Hc [H1 H2 H3 H4 H5 H6 H7 H8]. rewrite He, Hb in *. split; try done.
  - intros id rej Hcur. congruence.
  - intros Ho. by eapply capacity_exhausted_step, H8.
Qed.
Lemma run_ok_refresh env model pinned sticky ids st st' t tok out trace :
  (loop_step (env 0%nat) model pinned sticky st).2 = inr st' -> (forall target, pinned = Some target -> t_id t = target) ->
  is_refresh t = true -> spends_transport_budget (t_verdict t) = false -> t_id t ∈ ids -> t_id t ∉ excluded st ->
  (exists rej, current st = Some (t_id t, rej)) -> auth_retry_available (loop_policy st) = true ->
  excluded st' = excluded st -> loop_policy st' = mkPolicy (transport_budget (loop_policy st)) false ->
  current st' = Some (t_id t, tok) ->
  run_ok (fun k => env (S k)) model pinned sticky ids st' out trace -> run_ok env model pinned sticky ids st out (t :: trace).
Proof.
  intros Hstep Hpin Hr Hsp Hid Hex Hcur Ha He Hp Hc [H1 H2 H3 H4 H5 H6 H7 H8]. rewrite He, Hp in *. split.
  - unfold attempts. cbn. by rewrite Hr.
  - unfold refreshes. cbn. rewrite Hr. cbn. constructor; [|done]. by apply (H4 (t_id t) tok).
  - intros t' [->|Ht]%elem_of_cons; [done|]. by apply H3.
  - intros id rej _ Hf. congruence.
  - cbn. rewrite Hsp. cbn. exact H5.
  - intros id ->. specialize (H6 id eq_refl). by destruct trace.
  - intros target t' Ht [->|Hin]%elem_of_cons; eauto.
  - intros Ho. eapply capacity_exhausted_step; [done| |by apply H8]. cbn. set_solver.
Qed.
Lemma run_ok_rotate env model pinned sticky ids st st' t rej out trace :
  (loop_step (env 0%nat) model pinned sticky st).2 = inr st' -> (forall target, pinned = Some target -> t_id t = target) ->
  is_refresh t = false -> t_id t ∈ ids -> t_id t ∉ excluded st -> current st = Some (t_id t, rej) ->
  excluded st' = {[t_id t]} ∪ excluded st ->
  transport_budget (loop_policy st') = transport_budget (loop_policy st) - Z.b2z (spends_transport_budget (t_verdict t)) ->
  run_ok (fun k => env (S k)) model pinned sticky ids st' out trace -> run_ok env model pinned sticky ids st out (t :: trace).
Proof.
  intros Hstep Hpin Hr Hid Hex Hcur He Hb [H1 H2 H3 H4 H5 H6 H7 H8]. rewrite He in *.
  assert (Hnot : forall f, t_id t ∉ map t_id (List.filter f trace)).
  { intros f (t' & Heq & [Ht _]%elem_of_lfilter)%list_elem_of_fmap. apply H3 in Ht as [_ Hn]. set_solver. }
  split.
  - unfold attempts. cbn. rewrite Hr. cbn. constructor; [apply Hnot|done].
  - unfold refreshes. cbn. by rewrite Hr.
  - intros t' [->|Ht]%elem_of_cons; [done|]. apply H3 in Ht. set_solver.
  - intros id rej' Hc' _. rewrite Hcur in Hc'. simplify_eq. unfold refreshes. cbn. rewrite Hr. apply Hnot.
  - cbn. unfold spent in H5. lia.
  - intros id ->. specialize (H6 id eq_refl). by destruct trace.
  - intros target t' Ht [->|Hin]%elem_of_cons; eauto.
  - intros Ho. eapply capacity_exhausted_step; [done| |by apply H8]. cbn. set_solver.
Qed.
Lemma run_ok_end env model pinned sticky ids st t rej out :
  (loop_step (env 0%nat) model pinned sticky st).2 = inl out -> (forall target, pinned = Some target -> t_id t = target) ->
  1 <= transport_budget (loop_policy st) -> t_id t ∈ ids -> t_id t ∉ excluded st -> current st = Some (t_id t, rej) ->
  is_refresh t = false -> (forall x, out = Delivered x -> t = mkTried x V_Ok Untouched) ->
  (out = Failed F_Capacity -> none_left (last_count (env 0%nat)) model ({[t_id t]} ∪ excluded st)) ->
  run_ok env model pinned sticky ids st out [t].
Proof.
  intros Hstep Hpin Hb Hid Hex Hc Hr Hd Hcap. split.
  - unfold attempts. cbn. rewrite Hr. cbn. apply NoDup_singleton.
  - unfold refreshes. cbn. rewrite Hr. constructor.
  - intros t' ->%list_elem_of_singleton. done.
  - intros id rej' _ _. unfold refreshes. cbn. rewrite Hr. set_solver.
  - cbn. destruct (spends_transport_budget (t_verdict t)); cbn; lia.
  - intros id Ho. cbn. by rewrite (Hd id Ho).
  - intros target t' Ht ->%list_elem_of_singleton. eauto.
  - intros Ho. exists 0%nat, st. subst out. split_and!; [done..|]. unfold starved. rewrite Hc. cbn. rewrite union_empty_r_L. by apply Hcap.
Qed.

Lemma run_ok_nil env model pinned sticky ids st :
  (loop_step (env 0%nat) model pinned sticky st).2 = inl (Failed F_Capacity) ->
  1 <= transport_budget (loop_policy st) -> starved (env 0%nat) model pinned st (excluded st) ->
  run_ok env model pinned sticky ids st (Failed F_Capacity) [].
Proof.
  intros Hstep Hb Hcap. split; try done; [apply NoDup_nil_2|apply NoDup_nil_2|set_solver|set_solver|cbn; lia|set_solver|].
  intros _. exists 0%nat, st. cbn [list_to_set map fmap]. rewrite union_empty_l_L. done.
Qed.

Lemma size_excluded (ids ex : gset string) (id : string) : id ∈ ids -> id ∉ ex -> (size (ids ∖ ({[id]} ∪ ex)) < size (ids ∖ ex))%nat.
Proof. intros. apply subset_size. set_solver. Qed.
Lemma size_untried (ids ex : gset string) (id : string) : id ∈ ids -> id ∉ ex -> (1 <= size (ids ∖ ex))%nat.
Proof. intros. pose proof (size_excluded ids ex id ltac:(done) ltac:(done)). lia. Qed.

Lemma state_ok_current pinned ids st id rej : 1 <= transport_budget (loop_policy st) -> current st = Some (id, rej) ->
  id ∈ ids -> id ∉ excluded st -> (forall target, pinned = Some target -> excluded st ⊆ {[target]} /\ id = target) ->
  state_ok pinned ids st.
Proof.
  intros Hb Hc Hi Hn Hp. split_and!; [done| |].
  - intros x r Hx. rewrite Hc in Hx. by simplify_eq.
  - intros target Ht. destruct (Hp target Ht) as [? ->]. split; [done|]. intros x r Hx. rewrite Hc in Hx. by simplify_eq.
Qed.
Lemma state_ok_between pinned ids st : 1 <= transport_budget (loop_policy st) -> current st = None ->
  (forall target, pinned = Some target -> excluded st ⊆ {[target]}) -> state_ok pinned ids st.
Proof.
  intros Hb Hc Hp. split_and!; [done|congruence|]. intros target Ht. split; [by apply Hp|congruence].
Qed.

Lemma kimi_attempt_loop_ok fuel : forall env model pinned sticky ids st waits,
  (forall k, 0 <= se_cursor (env k)) -> (forall k p, p ∈ se_profiles (env k) -> p_id p ∈ ids) ->
  (forall k, (waits <= k)%nat -> se_wait_ms (env k) = 0) -> state_ok pinned ids st -> (waits + steps_left ids st <= fuel)%nat ->
  exists out trace, attempt_loop fuel env model pinned sticky st = Some (out, trace) /\ run_ok env model pinned sticky ids st out trace.
Proof.
  induction fuel as [|fuel IH]; intros env model pinned sticky ids st waits Hcur Hids Hw (Hb & Hc & Hpin) Hf.
  { exfalso. revert Hf. unfold steps_left. destruct (current st) as [[id rej]|] eqn:Ec; [|lia].
    destruct (Hc id rej eq_refl) as [Hi Hn]. pose proof (size_untried ids (excluded st) id Hi Hn). case_match; lia. }
  assert (IH' : forall st' w', (forall k, (w' <= k)%nat -> se_wait_ms (env (S k)) = 0) -> state_ok pinned ids st' ->
    (w' + steps_left ids st' <= fuel)%nat -> exists out trace,
    attempt_loop fuel (fun k => env (S k)) model pinned sticky st' = Some (out, trace) /\
    run_ok (fun k => env (S k)) model pinned sticky ids st' out trace).
  { intros st' w' Hw' Hok Hfuel. eapply (IH (fun k => env (S k)) model pinned sticky ids st' w'); auto. intros k p. apply Hids. }
  assert (Hwaits : forall k, (waits <= k)%nat -> se_wait_ms (env (S k)) = 0) by (intros k Hk; apply Hw; lia).
  cbn. unfold loop_step. destruct (current st) as [[id rej]|] eqn:Ec.
  - destruct (Hc id rej eq_refl) as [Hi Hn]. pose proof (size_untried ids (excluded st) id Hi Hn) as Hsz.
    pose proof (size_excluded ids (excluded st) id Hi Hn) as Hse.
    destruct (attempt (env 0%nat) model st id rej) as [t r] eqn:Ea.
    assert (Hstep : (loop_step (env 0%nat) model pinned sticky st).2 = r) by (unfold loop_step; by rewrite Ec, Ea).
    assert (Htgt : forall target, pinned = Some target -> id = target) by (intros target Ht; by eapply (proj2 (Hpin target Ht))).
    destruct r as [out|st'].
    + destruct (kimi_attempt_ends _ _ _ _ _ _ _ Ea) as (<- & Hr & Hd & Hcap). exists out, [t]. split; [done|].
      by eapply run_ok_end.
    + destruct (attempt_goes_on _ _ _ _ _ _ _ Hb Ea) as (<- & [(Hr & Hsp & Ha & He & Hp & tok & Hc')|(Hr & He & Hc' & Hb' & Hbe)]).
      * destruct (IH' st' waits Hwaits) as (out & trace & -> & Hrun).
        { apply (state_ok_current pinned ids st' (t_id t) tok); rewrite ?Hp, ?He; try done. intros target Ht. split; [by apply Hpin|eauto]. }
        { unfold steps_left in *. rewrite Ec, Ha in Hf. rewrite Hc', He, Hp. cbn. lia. }
        exists out, (t :: trace). split; [done|]. eapply run_ok_refresh; eauto.
      * destruct (IH' st' waits Hwaits) as (out & trace & -> & Hrun).
        { apply state_ok_between; try done. intros target Ht. rewrite He, <- (Htgt target Ht). specialize (Hpin target Ht) as [Hx _].
          rewrite <- (Htgt target Ht) in Hx. set_solver. }
        { unfold steps_left in *. rewrite Ec in Hf. rewrite Hc', He. destruct (auth_retry_available (loop_policy st)); lia. }
        exists out, (t :: trace). split; [done|]. eapply run_ok_rotate; eauto.
  - destruct (place (env 0%nat) model pinned sticky st) as [out|st'] eqn:Ep;
      (assert (Hloop : (loop_step (env 0%nat) model pinned sticky st).2 = place (env 0%nat) model pinned sticky st)
        by (unfold loop_step; by rewrite Ec)); rewrite Ep in Hloop.
    + destruct (place_ends _ _ _ _ _ _ (Hcur 0%nat) Ec (fun target Ht => proj1 (Hpin target Ht)) Ep) as [-> Hcap].
      exists (Failed F_Capacity), []. split; [done|]. by apply run_ok_nil.
    + destruct (place_goes_on _ _ _ _ _ _ (Hcur 0%nat) Ec Ep) as (He & Hp & [(p & Hpp & Hpn & Htgt & Hc')|[-> Hwait]]).
      * destruct (IH' st' waits Hwaits) as (out & trace & -> & Hrun).
        { apply (state_ok_current pinned ids st' (p_id p) None); rewrite ?Hp, ?He; try done; [by apply (Hids 0%nat)|].
          intros target Ht. split; [by apply Hpin|eauto]. }
        { unfold steps_left in *. rewrite Ec in Hf. rewrite Hc', He. case_match; lia. }
        exists out, trace. split; [done|]. eapply run_ok_skip; eauto. by rewrite Hp.
      * destruct waits as [|w]; [by rewrite Hw in Hwait by lia|].
        destruct (IH' st w) as (out & trace & -> & Hrun); [intros k Hk; apply Hw; lia| |lia|].
        { apply state_ok_between; try done. intros target Ht. by apply Hpin. }
        exists out, trace. split; [done|]. by eapply run_ok_skip.
Qed.

(** C38: the KIMI attempt loop ends, and fairly.  Whatever the upstream answers and
    however credentials and health change meanwhile, once the capacity deadline
    has passed after some number of waits, and as long as the rosters hold at most
    a given set of profiles, the loop answers within those waits plus three steps
    for every profile and one more; it attempts no profile twice, apart from at
    most one retry per profile after a refused token was refreshed; it spends at
    most three transport failures; it delivers only on the profile's own success,
    its last attempt; a calibrated request attempts its pinned profile only; and
    exhausted capacity is reported only by a step that was starved: after an
    attempt, the roster it counted last had no eligible profile outside those
    attempted; at a placement, the roster had none, or, for a calibrated request,
    the pinned profile had been attempted, was missing or was not eligible (other
    profiles may be).  [se_cursor] is the rotation counter, never negative. *)
Theorem kimi_attempts_bounded (env : nat -> step_env) (model : string) (pinned sticky : option string)
    (ids : gset string) (waits : nat)
    (Hcur : forall k, 0 <= se_cursor (env k)) (Hids : forall k p, p ∈ se_profiles (env k) -> p_id p ∈ ids)
    (Hwait : forall k, (waits <= k)%nat -> se_wait_ms (env k) = 0) :
  exists out trace, attempt_loop (waits + (3 * size ids + 1)) env model pinned sticky loop_init = Some (out, trace)
  /\ NoDup (attempts trace) /\ NoDup (refreshes trace) /\ (length trace <= 2 * size ids)%nat
  /\ spent trace <= 3
  /\ (forall id, out = Delivered id -> last trace = Some (mkTried id V_Ok Untouched))
  /\ (forall target t, pinned = Some target -> t ∈ trace -> t_id t = target)
  /\ (out = Failed F_Capacity -> capacity_exhausted env model pinned sticky loop_init (list_to_set (map t_id trace))).
Proof.
  destruct (kimi_attempt_loop_ok (waits + (3 * size ids + 1)) env model pinned sticky ids loop_init waits Hcur Hids Hwait)
    as (out & trace & Hrun & [H1 H2 H3 H4 H5 H6 H7 H8]).
  { by apply state_ok_between. }
  { unfold steps_left. cbn. rewrite difference_empty_L. lia. }
  exists out, trace. split; [done|]. split; [done|]. split; [done|]. split; [|split; [done|split; [done|split; [done|]]]].
  - assert (Hlen : forall f, NoDup (map t_id (List.filter f trace)) -> (length (List.filter f trace) <= size ids)%nat).
    { intros f Hn. rewrite <- (length_map t_id). rewrite <- (size_list_to_set (C:=gset string)) by done.
      apply subseteq_size. intros x (t & -> & [Ht _]%elem_of_lfilter)%elem_of_list_to_set%list_elem_of_fmap. by apply H3. }
    pose proof (Hlen _ H1). pose proof (Hlen _ H2).
    assert (length trace = length (List.filter (fun t => negb (is_refresh t)) trace) + length (List.filter is_refresh trace))%nat; [|lia].
    clear. induction trace as [|t trace IH]; cbn; [done|]. destruct (is_refresh t); cbn; lia.
  - intros Ho. specialize (H8 Ho). cbn in H8. by rewrite union_empty_r_L in H8.
Qed.

(** ** Runs *)
Definition demo_profile (id : string) (h : ProfileHealth) : RuntimeProfile := mkProfile id "Vivace" h 0.
Definition healthy : ProfileHealth := ProfileHealth_default.
Definition quarantined : ProfileHealth := apply_effect healthy E_AuthQuarantine 1000.
Definition demo_env (roster : list RuntimeProfile) (token : string -> option string -> result io_failure string)
    (answers : nat -> answer) (k : nat) : step_env :=
  mkEnv roster 1000 0 0 false token (answers k) roster 1000 roster 1000.
Definition any_token (id : string) (rejected : option string) : result io_failure string :=
  Ok (match rejected with Some _ => "fresh" | None => "stale" end).
(** A stale token is refreshed and the same profile serves. *)
Example demo_refresh :
  attempt_loop 4 (demo_env [demo_profile "a" healthy] any_token
      (fun k => match k with 1%nat => Answered 401 None Started | _ => Answered 200 None Started end)) "k3" None None loop_init
  = Some (Delivered "a", [mkTried "a" V_Auth Refreshed; mkTried "a" V_Ok Untouched]).
Proof. vm_compute. reflexivity. Qed.
(** A refresh that is itself refused is surfaced at once: the handler acts on a
    rotation only, the retry it was told to make is not made, the profile is not
    blamed, and the healthy second profile is not tried. *)
Example token_refusal_surfaces :
  attempt_loop 7 (demo_env [demo_profile "a" healthy; demo_profile "b" healthy]
      (fun id _ => if bool_decide (id = "a") then Err IO_Auth else Ok "token") (fun _ => Answered 200 None Started))
    "k3" None None loop_init
  = Some (Failed F_Auth, [mkTried "a" V_Auth (Blamed E_None None)]).
Proof. vm_compute. reflexivity. Qed.
(** The count that decides about rotation ignores the escape hatch: after a quota
    wall on [a] the request ends with exhausted capacity, although a placement
    without [a] would return [b], held only by an inferred quarantine. *)
Example inferred_hold_denies :
  attempt_loop 7 (demo_env [demo_profile "a" healthy; demo_profile "b" quarantined] any_token
      (fun _ => Answered 403 None Started)) "k3" None None loop_init
  = Some (Failed F_Capacity, [mkTried "a" V_QuotaExhausted (Blamed E_CoolUntilReset None)]) /\
  p_id <$> select_profile [demo_profile "a" healthy; demo_profile "b" quarantined] "k3" {["a"]} None 1000 0 = Some "b".
Proof. split; vm_compute; reflexivity. Qed.

(** A calibration whose target is quarantined ends at once with exhausted
    capacity, although the other profile is healthy; unpinned it is served. *)
Example pinned_target_starves :
  let env := demo_env [demo_profile "a" healthy; demo_profile "b" quarantined] any_token (fun _ => Answered 200 None Started) in
  attempt_loop 7 env "k3" (Some "b") None loop_init = Some (Failed F_Capacity, []) /\
  attempt_loop 7 env "k3" None None loop_init = Some (Delivered "a", [mkTried "a" V_Ok Untouched]).
Proof. split; vm_compute; reflexivity. Qed.

Lemma kimi_attempts_bounded_witness :
  exists out trace, attempt_loop (0 + (3 * size ({["a"]} : gset string) + 1))
    (demo_env [demo_profile "a" healthy] any_token (fun _ => Answered 401 None Started)) "k3" None None loop_init = Some (out, trace)
    /\ spent trace <= 3.
Proof.
  destruct (kimi_attempts_bounded (demo_env [demo_profile "a" healthy] any_token (fun _ => Answered 401 None Started))
    "k3" None None {["a"]} 0) as (out & trace & H1 & _ & _ & _ & H2 & _).
  - intros k. cbn. lia.
  - intros k p Hp. cbn in Hp. apply list_elem_of_singleton in Hp as ->. cbn. set_solver.
  - intros k _. reflexivity.
  - exists out, trace. split; [exact H1|exact H2].
Defined.
Lemma kimi_placement_floor_witness :
  ~ walled (demo_profile "b" quarantined) "k3" 1000.
Proof.
  apply (kimi_placement_floor [demo_profile "a" healthy; demo_profile "b" quarantined] "k3" {["a"]} None 1000 0);
    [lia| |vm_compute; reflexivity].
  apply (bool_decide_unpack _). vm_compute. exact I.
Defined.
