(* ===== verification/GlmAttempt.v ===== *)
(** * Serving a request on the GLM plane
    ([crates/forward/src/glm/transport.rs], [pool.rs], [gateway.rs])

    Upstream answers become verdicts; [decide] turns a verdict into the next step;
    profiles carry health with separate cooling axes; and the attempt loop of
    [handle] rotates over profiles until it commits to one or surfaces an error.
    The network is the environment of the loop: one answer per attempt. *)
From S2P Require Import Prelude Text GlmSelect.

(** ** Verdicts ([transport.rs]) *)
Inductive UpstreamVerdict : Type :=
| V_Ok | V_AccountDead | V_AccountSuspect | V_QuotaExhausted | V_ModelIneligible | V_Transport | V_ClientError.
#[global] Instance UpstreamVerdict_eq_dec : EqDecision UpstreamVerdict.
Proof. solve_decision. Defined.

Definition classify_http_status (status : Z) : UpstreamVerdict :=
  if between 200 299 status then V_Ok
  else if status =? 401 then V_AccountDead
  else if status =? 403 then V_AccountSuspect
  else if one_of [408; 409; 425; 429] status then V_Transport
  else if between 500 599 status then V_Transport
  else V_ClientError.
Definition classify_status (status : Z) (business_code : option Z) : UpstreamVerdict :=
  match business_code with
  | Some code =>
      if one_of [0; 200] code && between 200 299 status then V_Ok
      else if one_of [0; 200] code then classify_http_status status
      else if between 1000 1005 code then V_AccountDead
      else if code =? 401 then V_AccountDead
      else if code =? 1309 then V_AccountDead
      else if one_of [1113; 1313] code || between 1316 1321 code then V_AccountSuspect
      else if code =? 1315 then V_AccountSuspect
      else if one_of [1308; 1310] code then V_QuotaExhausted
      else if code =? 1311 then V_ModelIneligible
      else if one_of [1302; 1305] code then V_Transport
      else if between 1210 1215 code || one_of [1301; 1220] code then V_ClientError
      else V_AccountSuspect
  | None => classify_http_status status
  end.
Definition may_rotate (v : UpstreamVerdict) : bool :=
  match v with V_Ok | V_ClientError => false | _ => true end.
Definition spends_transport_budget (v : UpstreamVerdict) : bool :=
  match v with V_Transport => true | _ => false end.

(** ** The decision after an attempt ([pool.rs]) *)
Inductive Delivery : Type := PreByte | Delivering.
#[global] Instance Delivery_eq_dec : EqDecision Delivery.
Proof. solve_decision. Defined.
Record AttemptPolicy := mkPolicy { transport_budget : Z }.
Definition AttemptPolicy_default : AttemptPolicy := mkPolicy 3.
Inductive NextStep : Type :=
| RotateToAnotherProfile | SurfaceUpstreamError | SurfaceCapacityExhausted | Deliver.
Inductive ProfileEffect : Type :=
| E_None | E_CoolUntilReset | E_AccountDead | E_AccountSuspect | E_ModelIneligible | E_TransportFault.
Record Decision := mkDecision { next : NextStep; effect : ProfileEffect; policy : AttemptPolicy }.
#[global] Instance NextStep_eq_dec : EqDecision NextStep.
Proof. solve_decision. Defined.

Definition effect_for (v : UpstreamVerdict) : ProfileEffect :=
  match v with
  | V_QuotaExhausted => E_CoolUntilReset
  | V_AccountDead => E_AccountDead
  | V_AccountSuspect => E_AccountSuspect
  | V_ModelIneligible => E_ModelIneligible
  | V_Transport => E_TransportFault
  | V_Ok | V_ClientError => E_None
  end.
Definition decide_next (v : UpstreamVerdict) (delivery : Delivery) (p : AttemptPolicy) (eligible_profiles_left : Z)
  : Decision :=
  if bool_decide (v = V_Ok) then mkDecision Deliver E_None p
  else if bool_decide (delivery = Delivering) then mkDecision SurfaceUpstreamError (effect_for v) p
  else if bool_decide (v = V_ClientError) then mkDecision SurfaceUpstreamError E_None p
  else if negb (may_rotate v) then mkDecision SurfaceUpstreamError (effect_for v) p
  else
    let spends := spends_transport_budget v in
    let remaining := if spends then Z.max 0 (transport_budget p - 1) else transport_budget p in
    if spends && (remaining =? 0) then mkDecision SurfaceUpstreamError (effect_for v) (mkPolicy 0)
    else if eligible_profiles_left =? 0
    then mkDecision SurfaceCapacityExhausted (effect_for v) (mkPolicy remaining)
    else mkDecision RotateToAnotherProfile (effect_for v) (mkPolicy remaining).

(** ** Profile health ([gateway.rs]) *)
Definition TRANSPORT_COOL_SECS : Z := 10.
Definition QUOTA_WALL_FALLBACK_COOL_SECS : Z := 300.
Definition GLM_5H_WINDOW_SECS : Z := 18000.
Definition GLM_WEEKLY_WINDOW_SECS : Z := 604800.
Definition GLM_FRACTION_SCALE : Z := 100000000.

Record GlmQuotaWindowStatus := mkWindow {
  w_duration_secs : Z; w_used_units : option Z; w_limit_units : option Z; w_remaining_units : option Z;
  w_used_fraction_units : option Z; w_measurement_resolution : option Z; w_resets_at : option Z;
  w_observed_at : Z }.
Record GlmQuotaSnapshot := mkSnapshot {
  s_window_duration_secs : Z; s_resets_at : option Z; s_observed_at : Z; s_native_used : option Z;
  s_native_limit : option Z; s_native_remaining : option Z; s_percentage_raw : option Z;
  s_used_fraction_units : option Z; s_measurement_resolution : option Z }.
Record ProfileHealth := mkProfileHealth {
  authenticated : bool;
  account_dead : bool;
  account_suspect : bool;
  transport_cool_until : Z;
  quota_cool_until : Z;
  model_ineligible : gset string;
  quota_used_fraction_units : option Z;
  quota_observed_at : option Z;
  quota_windows : list GlmQuotaWindowStatus }.
Definition ProfileHealth_default : ProfileHealth :=
  mkProfileHealth false false false 0 0 ∅ None None [].
Record RuntimeProfile := mkProfile { p_id : string; p_health : ProfileHealth; p_inflight : Z }.

Definition window_evidence (h : ProfileHealth) (duration_secs now : Z) : option WindowEvidence :=
  let tolerance := Z.quot duration_secs 10 in
  let distance w := i64_abs (wrap_i64 (w_duration_secs w - duration_secs)) in
  w ← min_by_key distance (List.filter (fun w => distance w <=? tolerance) (quota_windows h));
  Some (mkEvidence (w_used_fraction_units w) ((fun reset => Z.max (sat_i64 (reset - now)) 0) <$> w_resets_at w)).
Definition health_ineligible (h : ProfileHealth) (model : string) (now : Z) : option Ineligible :=
  if bool_decide (to_ascii_lowercase model ∈ model_ineligible h) then Some ModelIneligible
  else if account_dead h then Some AccountDead
  else if account_suspect h then Some AccountSuspect
  else if now <? quota_cool_until h then Some QuotaWall
  else if now <? transport_cool_until h then Some TransportWedged
  else None.
Definition candidate (p : RuntimeProfile) (model : string) (now : Z) : Candidate Ineligible :=
  let h := p_health p in
  mkCandidate (p_id p) (health_ineligible h model now)
    (window_evidence h GLM_5H_WINDOW_SECS now) (window_evidence h GLM_WEEKLY_WINDOW_SECS now)
    ((fun observed => Z.max (sat_i64 (now - observed)) 0) <$> quota_observed_at h) (p_inflight p).

Definition apply_effect (h : ProfileHealth) (e : ProfileEffect) (now : Z) (model : option string)
    (quota_reset : option Z) : ProfileHealth :=
  let '(mkProfileHealth au ad asu tc qc mi qu qo qw) := h in
  match e with
  | E_None => h
  | E_CoolUntilReset =>
      let until := match quota_reset with
                   | Some reset => if now <? reset then reset else sat_i64 (now + QUOTA_WALL_FALLBACK_COOL_SECS)
                   | None => sat_i64 (now + QUOTA_WALL_FALLBACK_COOL_SECS)
                   end in
      mkProfileHealth au ad asu tc until mi qu qo qw
  | E_AccountDead => mkProfileHealth false true asu tc qc mi qu qo qw
  | E_AccountSuspect => mkProfileHealth au ad true tc qc mi qu qo qw
  | E_ModelIneligible =>
      match model with
      | Some model => mkProfileHealth au ad asu tc qc ({[to_ascii_lowercase model]} ∪ mi) qu qo qw
      | None => h
      end
  | E_TransportFault => mkProfileHealth au ad asu (sat_i64 (now + TRANSPORT_COOL_SECS)) qc mi qu qo qw
  end.
Definition mark_healthy (h : ProfileHealth) (model : string) : ProfileHealth :=
  let '(mkProfileHealth au ad asu tc qc mi qu qo qw) := h in
  mkProfileHealth true false false 0 qc (mi ∖ {[to_ascii_lowercase model]}) qu qo qw.

Definition exhausted (s : GlmQuotaSnapshot) : bool :=
  match s_used_fraction_units s with Some f => GLM_FRACTION_SCALE <=? f | None => false end.
Definition window_of (s : GlmQuotaSnapshot) : GlmQuotaWindowStatus :=
  mkWindow (s_window_duration_secs s) (s_native_used s) (s_native_limit s) (s_native_remaining s)
    (s_used_fraction_units s) (s_measurement_resolution s) (s_resets_at s) (s_observed_at s).
Definition publish_quota (h : ProfileHealth) (snapshots : list GlmQuotaSnapshot) (observed_at : Z) : ProfileHealth :=
  let '(mkProfileHealth _ _ _ _ _ mi _ _ _) := h in
  mkProfileHealth true false false 0
    (default 0 (max_of (omap s_resets_at (List.filter exhausted snapshots))))
    mi (max_of (omap s_used_fraction_units snapshots)) (Some observed_at) (map window_of snapshots).

(** ** The attempt loop ([gateway.rs], the loop of [handle]) *)
Definition select_profile (profiles : list RuntimeProfile) (model : string) (excluded : gset string)
    (sticky : option string) (now cursor : Z) : option RuntimeProfile :=
  let candidates := map (fun p => candidate p model now)
    (List.filter (fun p => negb (bool_decide (p_id p ∈ excluded))) profiles) in
  selected ← select candidates sticky cursor;
  List.find (fun p => bool_decide (p_id p = profile_id selected)) profiles.
Definition eligible_count (profiles : list RuntimeProfile) (model : string) (excluded : gset string)
    (current : string) (now : Z) : Z :=
  Z.of_nat (length (List.filter (fun p => is_eligible (candidate p model now))
    (List.filter (fun p => negb (bool_decide (p_id p = current)) && negb (bool_decide (p_id p ∈ excluded))) profiles))).

(** What one attempt meets: the roster and clock read by the selection, the
    cursor, the upstream answer, and the roster and clock read by the count. *)
Inductive answer : Type :=
| SendFailed
| Answered (status : Z) (business_code : option Z) (read_ok : bool).
Record attempt_env := mkEnv {
  ae_profiles : list RuntimeProfile; ae_now : Z; ae_cursor : Z; ae_answer : answer;
  ae_count_profiles : list RuntimeProfile; ae_count_now : Z }.
Inductive handled : Type :=
| Committed (id : string)
| CapacityError
| TransportError
| UpstreamError (status : Z)
| ProtocolError.
Record loop_state := mkLoop { excluded : gset string; loop_policy : AttemptPolicy }.
Definition loop_init : loop_state := mkLoop ∅ AttemptPolicy_default.

Definition verdict_of (a : answer) : UpstreamVerdict :=
  match a with
  | SendFailed => V_Transport
  | Answered status code read_ok =>
      if between 200 299 status then V_Ok
      else if read_ok then classify_status status code else V_Transport
  end.

(** One attempt as it happened: the profile, the verdict, and the effect the
    handler applied to the profile's health ([None]: it applied none). *)
Record tried := mkTried { t_id : string; t_verdict : UpstreamVerdict; t_effect : option ProfileEffect }.

(** One iteration: what it tried, with either the response or the state of the
    next iteration.  The effect on the shared health shows in the rosters later
    iterations read, together with whatever other requests do to it.  A success
    status commits the request: every path after it returns from the handler,
    with the profile's response or with an error, and none comes back here. *)
Definition attempt (env : attempt_env) (model : string) (sticky : option string) (st : loop_state)
    : list tried * (handled + loop_state) :=
  match select_profile (ae_profiles env) model (excluded st) sticky (ae_now env) (ae_cursor env) with
  | None => ([], inl CapacityError)
  | Some p =>
      let v := verdict_of (ae_answer env) in
      let remaining := eligible_count (ae_count_profiles env) model (excluded st) (p_id p) (ae_count_now env) in
      let d := decide_next v PreByte (loop_policy st) remaining in
      let rotated := mkLoop ({[p_id p]} ∪ excluded st) (policy d) in
      match ae_answer env with
      | SendFailed =>
          ([mkTried (p_id p) v (Some (effect d))],
           if bool_decide (next d = RotateToAnotherProfile) then inr rotated else inl TransportError)
      | Answered status _ _ =>
          if between 200 299 status then ([mkTried (p_id p) v None], inl (Committed (p_id p)))
          else
            ([mkTried (p_id p) v (Some (effect d))],
             match next d with
             | RotateToAnotherProfile => inr rotated
             | SurfaceCapacityExhausted => inl CapacityError
             | SurfaceUpstreamError => inl (UpstreamError status)
             | Deliver => inl ProtocolError
             end)
      end
  end.
(** The loop; [fuel] bounds the iterations, [None] is running out of it. *)
Fixpoint attempt_loop (fuel : nat) (env : nat -> attempt_env) (model : string) (sticky : option string) (st : loop_state)
    : option (handled * list tried) :=
  match fuel with
  | O => None
  | S fuel =>
      let '(now_tried, r) := attempt (env 0%nat) model sticky st in
      match r with
      | inl out => Some (out, now_tried)
      | inr st' =>
          '(out, trace) ← attempt_loop fuel (fun k => env (S k)) model sticky st';
          Some (out, now_tried ++ trace)
      end
  end.

(** ** Verdicts and decisions *)
Lemma classify_not_ok status code : between 200 299 status = false -> classify_status status code <> V_Ok.
Proof.
  intros Hs. assert (Hh : classify_http_status status <> V_Ok).
  { unfold classify_http_status. rewrite Hs. by repeat case_match. }
  unfold classify_status. destruct code as [c|]; [|done]. rewrite Hs, andb_false_r. by repeat (case_match; [done|]).
Qed.
Lemma verdict_ok a : verdict_of a = V_Ok <-> exists s c r, a = Answered s c r /\ between 200 299 s = true.
Proof.
  destruct a as [|s c r]; cbn; [split; [done|naive_solver]|]. destruct (between 200 299 s) eqn:E.
  - split; [eauto 6|done].
  - split; [|intros (? & ? & ? & [= <- <- <-] & ?); congruence]. destruct r; [|done]. intros H. by apply classify_not_ok in H.
Qed.

(** [decide_next] unfolded on each verdict and delivery state. *)
Ltac solve_decide :=
  unfold decide_next; repeat (case_bool_decide; try done); cbn; repeat (case_match; try done); cbn in *;
  rewrite ?Z.eqb_eq, ?Z.eqb_neq in *; try done; try lia.
Lemma decide_capacity v d p left : next (decide_next v d p left) = SurfaceCapacityExhausted -> left = 0.
Proof. destruct v; solve_decide. Qed.
Lemma decide_effect v d p left : v <> V_Ok -> effect (decide_next v d p left) = effect_for v.
Proof. destruct v; solve_decide. Qed.
Lemma decide_deliver v d p left : v <> V_Ok -> next (decide_next v d p left) <> Deliver.
Proof. destruct v; solve_decide. Qed.
Lemma decide_rotate_budget v d p left :
  1 <= transport_budget p -> next (decide_next v d p left) = RotateToAnotherProfile ->
  v <> V_Ok /\ 1 <= transport_budget (policy (decide_next v d p left))
  /\ transport_budget (policy (decide_next v d p left))
     = transport_budget p - (if bool_decide (v = V_Transport) then 1 else 0).
Proof.
  intros Hb. unfold decide_next. destruct v; repeat (case_bool_decide; try done); cbn;
    repeat (case_match; try done); cbn in *; rewrite ?Z.eqb_neq in *; intros _; split; try done; lia.
Qed.

(** The one-byte boundary and the retry budget.  Once a byte was delivered no
    verdict retries or rotates.  Before that, the loop rotates exactly when the
    verdict blames a profile or the transport, another eligible profile is left,
    and a transport failure still has budget; only transport failures spend
    budget; and a success is the only thing that is delivered. *)
Theorem glm_decide_exact (v : UpstreamVerdict) (d : Delivery) (p : AttemptPolicy) (left : Z) :
  let r := decide_next v d p left in
  (next r = Deliver <-> v = V_Ok)
  /\ (next r = RotateToAnotherProfile <->
        d = PreByte /\ may_rotate v = true /\ left <> 0
        /\ (v = V_Transport -> 2 <= transport_budget p))
  /\ (next r = SurfaceCapacityExhausted -> d = PreByte /\ left = 0 /\ may_rotate v = true)
  /\ (next r = RotateToAnotherProfile ->
        transport_budget (policy r) = transport_budget p - (if bool_decide (v = V_Transport) then 1 else 0))
  /\ (effect r = E_None <-> may_rotate v = false).
Proof.
  intros r. unfold r, decide_next.
  destruct v, d; repeat (case_bool_decide; try done); cbn;
    try (destruct (Z.eqb_spec left 0)); try (destruct (Z.eqb_spec (Z.max 0 (transport_budget p - 1)) 0));
    cbn; repeat split; intros; destruct_and?; try done; try lia;
    match goal with H : V_Transport = V_Transport -> _ |- _ => specialize (H eq_refl); lia end.
Qed.

(** ** Health axes *)
Lemma health_eligible h model now :
  health_ineligible h model now = None <->
  (to_ascii_lowercase model ∉ model_ineligible h) /\ account_dead h = false /\ account_suspect h = false
  /\ quota_cool_until h <= now /\ transport_cool_until h <= now.
Proof.
  unfold health_ineligible. case_bool_decide; [naive_solver|].
  destruct (account_dead h), (account_suspect h); try naive_solver.
  destruct (Z.ltb_spec now (quota_cool_until h)); [split; [done|naive_solver lia]|].
  destruct (Z.ltb_spec now (transport_cool_until h)); [split; [done|naive_solver lia]|]. naive_solver lia.
Qed.

Lemma publish_quota_cool h snaps obs z :
  0 <= z ->
  quota_cool_until (publish_quota h snaps obs) <= z <->
  forall s r, s ∈ snaps -> exhausted s = true -> s_resets_at s = Some r -> r <= z.
Proof.
  intros Hz. destruct h. cbn. destruct (max_of _) as [m|] eqn:E; cbn.
  - rewrite (max_of_le _ _ _ E), Forall_forall. split.
    + intros H s r Hs He Hr. apply H. apply list_elem_of_omap. exists s. by rewrite elem_of_lfilter.
    + intros H x [s [[Hs He]%elem_of_lfilter Hr]]%list_elem_of_omap. eauto.
  - apply max_of_None in E. split; [|done]. intros _ s r Hs He Hr.
    assert (Hin : r ∈ omap s_resets_at (List.filter exhausted snaps)); [|rewrite E in Hin; by apply elem_of_nil in Hin].
    apply list_elem_of_omap. exists s. by rewrite elem_of_lfilter.
Qed.

(** The cooling axes are separate.  Every verdict that lets the loop rotate
    takes the profile out of rotation for the requested model at once; a model
    refusal changes nothing for other models; a successful turn lifts the account
    and transport axes and that model's block, but neither a quota wall nor
    another model's block; and after a quota poll a profile is eligible exactly
    when the model is not blocked and no exhausted window still awaits its reset. *)
Theorem glm_axes_separate (h : ProfileHealth) (model other : string) (now : Z) (reset : option Z) :
  0 <= now < i64_max ->
  (forall v, may_rotate v = true ->
     health_ineligible (apply_effect h (effect_for v) now (Some model) reset) model now <> None)
  /\ (to_ascii_lowercase other <> to_ascii_lowercase model ->
      health_ineligible (apply_effect h E_ModelIneligible now (Some model) reset) other now
      = health_ineligible h other now)
  /\ (health_ineligible (mark_healthy h model) other now = None <->
      (to_ascii_lowercase other ∈ model_ineligible h -> to_ascii_lowercase other = to_ascii_lowercase model)
      /\ quota_cool_until h <= now)
  /\ (forall snaps obs, health_ineligible (publish_quota h snaps obs) model now = None <->
      (to_ascii_lowercase model ∉ model_ineligible h)
      /\ forall s r, s ∈ snaps -> exhausted s = true -> s_resets_at s = Some r -> r <= now).
Proof.
  intros Hn. split; [|split; [|split]].
  - intros v Hv Hc%health_eligible. destruct h, v; try done; cbn in Hc.
    + naive_solver.
    + naive_solver.
    + destruct Hc as (_ & _ & _ & Hq & _). unfold QUOTA_WALL_FALLBACK_COOL_SECS in Hq.
      destruct reset as [r|]; [destruct (Z.ltb_spec now r)|]; width_lia.
    + set_solver.
    + destruct Hc as (_ & _ & _ & _ & Hq). unfold TRANSPORT_COOL_SECS in Hq. width_lia.
  - intros Hne. destruct h as [au ad asu tc qc mi qu qo qw]. unfold health_ineligible. cbn.
    rewrite (bool_decide_ext _ (to_ascii_lowercase other ∈ mi)) by set_solver. done.
  - rewrite health_eligible. destruct h as [au ad asu tc qc mi qu qo qw]. cbn.
    destruct (decide (to_ascii_lowercase other ∈ mi)), (decide (to_ascii_lowercase other = to_ascii_lowercase model));
      split; intros; destruct_and?; repeat split; try done; try lia; try set_solver.
  - intros snaps obs. rewrite health_eligible, publish_quota_cool by lia. destruct h. cbn. split; [naive_solver|].
    intros [? ?]. repeat split; [done|done|lia].
Qed.

(** ** The loop *)
Lemma select_profile_Some profiles model ex sticky now cursor p :
  select_profile profiles model ex sticky now cursor = Some p -> p ∈ profiles /\ p_id p ∉ ex.
Proof.
  unfold select_profile. destruct (select _ _ _) as [c|] eqn:E; cbn; [|done].
  intros [Hp%list_elem_of_In Hid%bool_decide_eq_true]%List.find_some. split; [done|].
  apply select_eligible in E as [Hc _]. apply list_elem_of_fmap in Hc as (q & -> & Hq).
  apply elem_of_lfilter in Hq as [_ Hq]. rewrite Hid. cbn. by apply negb_true_iff, bool_decide_eq_false in Hq.
Qed.
Lemma select_profile_None profiles model ex sticky now cursor p :
  0 <= cursor -> select_profile profiles model ex sticky now cursor = None ->
  p ∈ profiles -> p_id p ∉ ex -> health_ineligible (p_health p) model now <> None.
Proof.
  intros Hcur HN Hp Hex He.
  set (cands := map (fun p => candidate p model now)
    (List.filter (fun p => negb (bool_decide (p_id p ∈ ex))) profiles)).
  assert (Hin : candidate p model now ∈ cands).
  { apply list_elem_of_fmap. exists p. split; [done|]. apply elem_of_lfilter. by rewrite bool_decide_eq_false_2. }
  destruct (select_serves cands sticky cursor _ Hcur Hin) as [c Hc]; [unfold is_eligible; cbn; by rewrite He|].
  unfold select_profile in HN. fold cands in HN. rewrite Hc in HN. cbn in HN.
  apply select_eligible in Hc as [Hc _]. apply list_elem_of_fmap in Hc as (q & -> & Hq).
  apply elem_of_lfilter in Hq as [Hq _]. apply list_elem_of_In in Hq.
  pose proof (find_none _ _ HN q Hq) as Hf. cbn in Hf. by rewrite bool_decide_eq_true_2 in Hf.
Qed.
Lemma eligible_count_zero profiles model ex current now p :
  eligible_count profiles model ex current now = 0 ->
  p ∈ profiles -> p_id p <> current -> p_id p ∉ ex -> health_ineligible (p_health p) model now <> None.
Proof.
  unfold eligible_count. intros E Hp Hc Hex He.
  destruct (List.filter _ (List.filter _ profiles)) eqn:El; [|cbn in E; lia].
  apply (not_elem_of_nil p). rewrite <- El, !elem_of_lfilter.
  rewrite !bool_decide_eq_false_2 by done. unfold is_eligible. cbn. rewrite He. done.
Qed.

(** Some roster read during the run had no eligible profile outside [seen]. *)
Definition capacity_exhausted (env : nat -> attempt_env) (model : string) (seen : gset string) : Prop :=
  exists k profiles now,
    ((profiles, now) = (ae_profiles (env k), ae_now (env k))
     \/ (profiles, now) = (ae_count_profiles (env k), ae_count_now (env k)))
    /\ forall p, p ∈ profiles -> p_id p ∉ seen -> health_ineligible (p_health p) model now <> None.

(** What a finished run guarantees, from a state with [st]'s exclusions and budget. *)
Record run_ok (env : nat -> attempt_env) (model : string) (ids : gset string) (st : loop_state)
    (out : handled) (trace : list tried) : Prop := {
  ro_fresh : NoDup (map t_id trace);
  ro_ids : forall x, x ∈ map t_id trace -> x ∈ ids /\ x ∉ excluded st;
  ro_budget : Z.of_nat (length (filter (fun t => t_verdict t = V_Transport) trace)) <= transport_budget (loop_policy st);
  ro_protocol : out <> ProtocolError;
  ro_commit : forall id, out = Committed id -> last trace = Some (mkTried id V_Ok None);
  ro_blame : forall t, t ∈ trace -> t_effect t = (if bool_decide (t_verdict t = V_Ok) then None else Some (effect_for (t_verdict t)));
  ro_capacity : out = CapacityError ->
    capacity_exhausted env model (list_to_set (map t_id trace) ∪ excluded st)
}.

(** One iteration that ends the run. *)
Lemma attempt_ends env model sticky ids st tr out :
  0 <= ae_cursor (env 0%nat) -> (forall p, p ∈ ae_profiles (env 0%nat) -> p_id p ∈ ids) ->
  1 <= transport_budget (loop_policy st) ->
  attempt (env 0%nat) model sticky st = (tr, inl out) -> run_ok env model ids st out tr.
Proof.
  intros Hcur Hids Hb. unfold attempt. destruct (select_profile _ _ _ _ _ _) as [p|] eqn:Es.
  2: { intros [= <- <-]. split; cbn; try done; [constructor|set_solver|lia|set_solver|]. intros _.
       exists 0%nat, (ae_profiles (env 0%nat)), (ae_now (env 0%nat)). split; [by left|]. intros p Hp Hs.
       eapply select_profile_None; [done|done|done|set_solver]. }
  apply select_profile_Some in Es as [Hp Hex]. specialize (Hids p Hp).
  set (left := eligible_count _ _ _ _ _). set (v := verdict_of (ae_answer (env 0%nat))).
  assert (Hvo := verdict_ok (ae_answer (env 0%nat))). fold v in Hvo.
  assert (Hvt : ae_answer (env 0%nat) = SendFailed -> v <> V_Ok) by (intros E (? & ? & ? & E2 & _)%Hvo; congruence).
  clearbody v. set (d := decide_next v PreByte (loop_policy st) left).
  assert (Hcap : next d = SurfaceCapacityExhausted -> capacity_exhausted env model ({[p_id p]} ∪ ∅ ∪ excluded st)).
  { intros Hd. exists 0%nat, (ae_count_profiles (env 0%nat)), (ae_count_now (env 0%nat)). split; [by right|].
    intros q Hq Hs. apply decide_capacity in Hd. eapply eligible_count_zero; [exact Hd|done|set_solver|set_solver]. }
  assert (Heff : v <> V_Ok -> effect d = effect_for v) by apply decide_effect.
  assert (Hlen : forall e, Z.of_nat (length (filter (fun t => t_verdict t = V_Transport) [mkTried (p_id p) v e]))
     <= transport_budget (loop_policy st)).
  { intros e. rewrite filter_cons. case_decide; cbn; lia. }
  destruct (ae_answer (env 0%nat)) as [|s c r] eqn:Ea.
  - case_bool_decide; [done|]. intros [= <- <-].
    split; [apply NoDup_singleton|set_solver|apply Hlen|done|done| |done].
    intros t ->%list_elem_of_singleton. cbn [t_effect t_verdict]. by rewrite bool_decide_eq_false_2, Heff by auto.
  - destruct (between 200 299 s) eqn:E2.
    + intros [= <- <-]. assert (Hv : v = V_Ok) by (apply Hvo; eauto 6).
      split; [apply NoDup_singleton|set_solver|apply Hlen|done| | |done].
      * intros id [= ->]. cbn. by rewrite Hv.
      * intros t ->%list_elem_of_singleton. cbn [t_effect t_verdict]. by rewrite bool_decide_eq_true_2.
    + assert (Hv : v <> V_Ok). { intros Ho. apply Hvo in Ho as (s' & c' & r' & E3 & E4). congruence. }
      intros H. assert (Hnx : next d <> Deliver) by (by apply decide_deliver).
      assert (Htr : tr = [mkTried (p_id p) v (Some (effect d))]) by (by destruct (next d); simplify_eq). subst tr.
      split; [apply NoDup_singleton|set_solver|apply Hlen| | | |].
      * intros ->. by destruct (next d); simplify_eq.
      * intros id ->. by destruct (next d); simplify_eq.
      * intros t ->%list_elem_of_singleton. cbn [t_effect t_verdict]. by rewrite bool_decide_eq_false_2, Heff by done.
      * intros ->. cbn. apply Hcap. by destruct (next d); simplify_eq.
Qed.

(** One iteration that rotates. *)
Lemma attempt_rotates env model sticky (ids : gset string) st tr st' :
  (forall p, p ∈ ae_profiles env -> p_id p ∈ ids) ->
  1 <= transport_budget (loop_policy st) ->
  attempt env model sticky st = (tr, inr st') ->
  exists id v, tr = [mkTried id v (Some (effect_for v))] /\ v <> V_Ok /\ id ∈ ids /\ (id ∉ excluded st)
    /\ excluded st' = {[id]} ∪ excluded st /\ 1 <= transport_budget (loop_policy st')
    /\ transport_budget (loop_policy st') = transport_budget (loop_policy st) - (if bool_decide (v = V_Transport) then 1 else 0).
Proof.
  intros Hids Hb. unfold attempt. destruct (select_profile _ _ _ _ _ _) as [p|] eqn:Es; [|done].
  apply select_profile_Some in Es as [Hp Hex]. specialize (Hids p Hp).
  set (left := eligible_count _ _ _ _ _). set (v := verdict_of (ae_answer env)).
  set (d := decide_next v PreByte (loop_policy st) left).
  intros H. assert (Hd : next d = RotateToAnotherProfile /\ tr = [mkTried (p_id p) v (Some (effect d))]
    /\ st' = mkLoop ({[p_id p]} ∪ excluded st) (policy d)).
  { destruct (ae_answer env); [case_bool_decide; by simplify_eq|]. destruct (between _ _ _); [done|].
    by destruct (next d); simplify_eq. }
  clear H. destruct Hd as (Hd & -> & ->). destruct (decide_rotate_budget v PreByte (loop_policy st) left Hb Hd) as (Hv & H1 & H2).
  exists (p_id p), v. unfold d. rewrite decide_effect by done. cbn [excluded loop_policy]. repeat split; done.
Qed.

Lemma run_ok_cons env model ids st st' id v out trace :
  id ∈ ids -> id ∉ excluded st -> v <> V_Ok -> excluded st' = {[id]} ∪ excluded st ->
  transport_budget (loop_policy st') = transport_budget (loop_policy st) - (if bool_decide (v = V_Transport) then 1 else 0) ->
  run_ok (fun k => env (S k)) model ids st' out trace ->
  run_ok env model ids st out (mkTried id v (Some (effect_for v)) :: trace).
Proof.
  intros Hid Hex Hv He Hb [H1 H2 H3 H4 H5 H6 H7]. rewrite He in *. split.
  - cbn. constructor; [|done]. intros Hin%H2. set_solver.
  - intros x [->|Hx%H2]%elem_of_cons; set_solver.
  - rewrite filter_cons. cbn [t_verdict]. destruct (decide (v = V_Transport)) as [Ht|Ht];
      [rewrite bool_decide_eq_true_2 in Hb by done|rewrite bool_decide_eq_false_2 in Hb by done]; rewrite ?length_cons; lia.
  - done.
  - intros x ->. specialize (H5 x eq_refl). by destruct trace.
  - intros t [->|Ht]%elem_of_cons; [|auto]. cbn. by rewrite bool_decide_eq_false_2.
  - intros Ho. destruct (H7 Ho) as (k & profs & now & Hp & Hx). exists (S k), profs, now. split; [done|].
    intros p Hpp Hs. apply Hx; [done|]. cbn in Hs. set_solver.
Qed.

Lemma attempt_loop_ok fuel env model sticky ids st :
  (forall k, 0 <= ae_cursor (env k)) ->
  (forall k p, p ∈ ae_profiles (env k) -> p_id p ∈ ids) ->
  1 <= transport_budget (loop_policy st) -> (size (ids ∖ excluded st) < fuel)%nat ->
  exists out trace, attempt_loop fuel env model sticky st = Some (out, trace) /\ run_ok env model ids st out trace.
Proof.
  revert env st. induction fuel as [|fuel IH]; intros env st Hcur Hids Hb Hf; [lia|]. cbn.
  destruct (attempt (env 0%nat) model sticky st) as [tr [out|st']] eqn:Ea.
  - exists out, tr. split; [done|]. eapply attempt_ends; eauto.
  - destruct (attempt_rotates _ _ _ ids _ _ _ (Hids 0%nat) Hb Ea) as (id & v & -> & Hv & Hid & Hex & He & Hb' & Hbe).
    destruct (IH (fun k => env (S k)) st') as (out & trace & -> & Hrun); [intros k; apply Hcur|intros k p; apply Hids|done| |].
    + enough (Hs : (size (ids ∖ excluded st') < size (ids ∖ excluded st))%nat) by lia. apply subset_size. rewrite He. set_solver.
    + exists out, (mkTried id v (Some (effect_for v)) :: trace). split; [done|]. eapply run_ok_cons; eauto.
Qed.

(** The attempt loop ends, and fairly.  Whatever the upstream answers and
    however the health of the profiles changes meanwhile, as long as the rosters
    it reads hold at most a given set of profiles, the loop answers within one
    more iteration than there are profiles; it never tries a profile twice; it
    spends at most three transport failures; it commits to a profile only on that
    profile's own success, its last attempt; every failed attempt is blamed on
    its own profile with the effect of its verdict; and it reports exhausted
    capacity only when a roster it read had no eligible untried profile. *)
Theorem glm_attempts_bounded (env : nat -> attempt_env) (model : string) (sticky : option string) (ids : gset string) :
  (forall k, 0 <= ae_cursor (env k)) ->
  (forall k p, p ∈ ae_profiles (env k) -> p_id p ∈ ids) ->
  exists out trace, attempt_loop (S (size ids)) env model sticky loop_init = Some (out, trace)
  /\ NoDup (map t_id trace) /\ (length trace <= size ids)%nat
  /\ (length (filter (fun t => t_verdict t = V_Transport) trace) <= 3)%nat
  /\ out <> ProtocolError
  /\ (forall id, out = Committed id -> last trace = Some (mkTried id V_Ok None))
  /\ (forall t, t ∈ trace -> t_verdict t <> V_Ok -> t_effect t = Some (effect_for (t_verdict t)))
  /\ (out = CapacityError -> capacity_exhausted env model (list_to_set (map t_id trace))).
Proof.
  intros Hcur Hids.
  destruct (attempt_loop_ok (S (size ids)) env model sticky ids loop_init Hcur Hids) as (out & trace & Hh & [H1 H2 H3 H4 H5 H6 H7]).
  { cbn. lia. }
  { cbn. rewrite difference_empty_L. lia. }
  exists out, trace. split; [done|]. split; [done|]. split; [|split; [cbn in H3; lia|]].
  - rewrite <- (length_map t_id). rewrite <- (size_list_to_set (C:=gset string)) by done. apply subseteq_size.
    intros x Hx%elem_of_list_to_set. by apply H2.
  - split; [done|]. split; [done|]. split.
    + intros t Ht Hv. rewrite (H6 t Ht). by rewrite bool_decide_eq_false_2.
    + intros Ho. specialize (H7 Ho). cbn in H7. by rewrite union_empty_r_L in H7.
Qed.

(** ** A run over two profiles: the first is out of quota, the second serves. *)
Definition demo_profile (id : string) : RuntimeProfile := mkProfile id ProfileHealth_default 0.
Definition demo_env (k : nat) : attempt_env :=
  let roster := [demo_profile "a"; demo_profile "b"] in
  mkEnv roster 1000 (Z.of_nat k)
    (match k with O => Answered 429 (Some 1308) true | _ => Answered 200 None true end) roster 1000.
Example demo_run :
  attempt_loop 3 demo_env "glm-5.2" None loop_init
  = Some (Committed "b", [mkTried "a" V_QuotaExhausted (Some E_CoolUntilReset); mkTried "b" V_Ok None]).
Proof. vm_compute. reflexivity. Qed.

Lemma glm_attempts_bounded_witness :
  exists out trace, attempt_loop (S (size ({["a"; "b"]} : gset string))) demo_env "glm-5.2" None loop_init = Some (out, trace)
    /\ (length trace <= size ({["a"; "b"]} : gset string))%nat.
Proof.
  destruct (glm_attempts_bounded demo_env "glm-5.2" None {["a"; "b"]}) as (out & trace & H1 & _ & H2 & _).
  - intros k. apply Nat2Z.is_nonneg.
  - intros k p Hp. unfold demo_env in Hp. cbn [ae_profiles] in Hp.
    apply elem_of_cons in Hp as [->|Hp]; [cbn; set_solver|]. apply list_elem_of_singleton in Hp as ->. cbn. set_solver.
  - exists out, trace. split; [exact H1|exact H2].
Defined.
Lemma glm_axes_separate_witness :
  health_ineligible (apply_effect ProfileHealth_default (effect_for V_QuotaExhausted) 1000 (Some "glm-5.2") None) "glm-5.2" 1000 <> None.
Proof.
  refine (proj1 (glm_axes_separate ProfileHealth_default "glm-5.2" "glm-5" 1000 None _) V_QuotaExhausted eq_refl).
  unfold i64_max. lia.
Defined.
