(* ===== verification/GlmPoll.v ===== *)
(** * Idle quota polling of the GLM plane ([crates/forward/src/glm/gateway.rs])

    A quota poll reads the provider while customer turns start and finish on the
    same profile.  Each turn holds a lease: it publishes itself in [inflight] and
    then advances [turn_epoch]; its priced event enters the delivery queue under
    the [turn_drain] barrier before the lease is dropped.  The poll reads epoch and
    count before the provider call and again after it, a second time under the
    barrier, and publishes only after a full drain.  The atomics are sequentially
    consistent and the barrier makes a critical section one step, so the protocol
    is a step relation over single atomic operations.  Its only environment
    assumptions are fewer than [2^32] live leases and fewer than [2^64] turns in
    the life of the process. *)
From S2P Require Import Prelude TurnQueue.

(** ** Draining the queue ([drain_turn_queue_locked]) *)
Fixpoint drain_loop (fuel : nat) (answers : nat -> WriteOutcome) (q : TurnQueue (E:=nat)) : TurnQueue (E:=nat) :=
  match fuel with
  | O => q
  | S fuel =>
      match q_head q with
      | None => q
      | Some _ =>
          let outcome := answers 0%nat in
          let q' := resolve_head q outcome in
          match outcome with
          | Transient => q'
          | _ => drain_loop fuel (fun n => answers (S n)) q'
          end
      end
  end.
(** Every round but the last removes an event, so the queue's length bounds the rounds. *)
Definition drain_turn_queue_locked (answers : nat -> WriteOutcome) (q : TurnQueue (E:=nat)) : bool * TurnQueue (E:=nat) :=
  let q' := drain_loop (S (length (queue q))) answers q in (may_poll_quota q', q').
Definition enqueue_turn (answers : nat -> WriteOutcome) (q : TurnQueue (E:=nat)) (event : nat) : TurnQueue (E:=nat) :=
  match q_push q event with
  | (false, q') => q'
  | (true, q') => (drain_turn_queue_locked answers q').2
  end.

(** ** Leases ([ProfileLease]) and the poll ([poll_profile_quota]) *)
Inductive lease : Type :=
| LCounted       (* [inflight] raised, [turn_epoch] not yet *)
| LActive        (* both raised: the turn may talk to the provider *)
| LFinal.        (* the turn's event was enqueued *)
#[global] Instance lease_eq_dec : EqDecision lease.
Proof. solve_decision. Defined.
Inductive poll : Type :=
| PIdle
| PEpoch (e : Z)        (* line 783: the epoch is read *)
| PDrain (e : Z)        (* line 784: the in-flight count was zero *)
| PFetch (e : Z)        (* line 796: the provider is being read *)
| PCheckEpoch (e : Z)   (* line 831 *)
| PCheckInflight (e : Z)
| PLock (e : Z)         (* line 861 *)
| PCheckEpoch2 (e : Z)  (* line 862 *)
| PCheckInflight2 (e : Z)
| PDrain2               (* line 867 *)
| PObserve              (* line 873: the windows are being persisted *)
| PPublish.             (* line 889 *)

Record shared := mkShared {
  leases : gmap nat lease;   (* live leases, by turn *)
  inflight : Z;
  turn_epoch : Z;
  turns : TurnQueue (E:=nat);
  poller : poll;
  overlapped : bool          (* ghost: a lease was active during the provider read *)
}.
Definition shared_init (capacity : Z) : shared := mkShared ∅ 0 0 (TurnQueue_new capacity) PIdle false.

Definition add_u32 (a b : Z) : Z := (a + b) mod 2 ^ 32.
Definition fetching (p : poll) : bool := match p with PFetch _ => true | _ => false end.
(** The poll holds the barrier from its second check to the publication. *)
Definition holds_barrier (p : poll) : bool :=
  match p with PCheckEpoch2 _ | PCheckInflight2 _ | PDrain2 | PObserve | PPublish => true | _ => false end.
Definition no_active (m : gmap nat lease) : bool := bool_decide (map_Forall (fun _ l => l = LCounted) m).

Inductive poll_step : shared -> shared -> Prop :=
| lease_count m inf ep q p ov i :
    m !! i = None -> Z.of_nat (size m) + 1 < 2 ^ 32 ->
    poll_step (mkShared m inf ep q p ov) (mkShared (<[i := LCounted]> m) (add_u32 inf 1) ep q p ov)
| lease_epoch m inf ep q p ov i :
    m !! i = Some LCounted -> ep < u64_max ->
    poll_step (mkShared m inf ep q p ov)
      (mkShared (<[i := LActive]> m) inf (wrap_u64 (ep + 1)) q p (ov || fetching p))
| lease_finalize m inf ep q p ov i answers :
    m !! i = Some LActive -> holds_barrier p = false ->
    poll_step (mkShared m inf ep q p ov) (mkShared (<[i := LFinal]> m) inf ep (enqueue_turn answers q i) p ov)
| lease_drop m inf ep q p ov i l :
    m !! i = Some l -> l <> LCounted ->
    poll_step (mkShared m inf ep q p ov) (mkShared (delete i m) (add_u32 inf (-1)) ep q p ov)
| other_turn m inf ep q p ov event answers :
    holds_barrier p = false ->
    poll_step (mkShared m inf ep q p ov) (mkShared m inf ep (enqueue_turn answers q event) p ov)
| poll_epoch m inf ep q ov :
    poll_step (mkShared m inf ep q PIdle ov) (mkShared m inf ep q (PEpoch ep) ov)
| poll_inflight m inf ep q ov e :
    poll_step (mkShared m inf ep q (PEpoch e) ov)
      (mkShared m inf ep q (if inf =? 0 then PDrain e else PIdle) ov)
| poll_drain m inf ep q ov e answers :
    poll_step (mkShared m inf ep q (PDrain e) ov)
      (let '(drained, q') := drain_turn_queue_locked answers q in
       if drained then mkShared m inf ep q' (PFetch e) (negb (no_active m)) else mkShared m inf ep q' PIdle ov)
| poll_fetched m inf ep q ov e :
    poll_step (mkShared m inf ep q (PFetch e) ov) (mkShared m inf ep q (PCheckEpoch e) ov)
| poll_check_epoch m inf ep q ov e :
    poll_step (mkShared m inf ep q (PCheckEpoch e) ov)
      (mkShared m inf ep q (if ep =? e then PCheckInflight e else PIdle) ov)
| poll_check_inflight m inf ep q ov e :
    poll_step (mkShared m inf ep q (PCheckInflight e) ov)
      (mkShared m inf ep q (if inf =? 0 then PLock e else PIdle) ov)
| poll_lock m inf ep q ov e :
    poll_step (mkShared m inf ep q (PLock e) ov) (mkShared m inf ep q (PCheckEpoch2 e) ov)
| poll_check_epoch2 m inf ep q ov e :
    poll_step (mkShared m inf ep q (PCheckEpoch2 e) ov)
      (mkShared m inf ep q (if ep =? e then PCheckInflight2 e else PIdle) ov)
| poll_check_inflight2 m inf ep q ov e :
    poll_step (mkShared m inf ep q (PCheckInflight2 e) ov)
      (mkShared m inf ep q (if inf =? 0 then PDrain2 else PIdle) ov)
| poll_drain2 m inf ep q ov answers :
    poll_step (mkShared m inf ep q PDrain2 ov)
      (let '(drained, q') := drain_turn_queue_locked answers q in
       mkShared m inf ep q' (if drained then PObserve else PIdle) ov)
| poll_observe m inf ep q ov :
    poll_step (mkShared m inf ep q PObserve ov) (mkShared m inf ep q PPublish ov)
| poll_give_up m inf ep q p ov :
    (exists e, p = PFetch e) \/ p = PObserve \/ p = PPublish ->
    poll_step (mkShared m inf ep q p ov) (mkShared m inf ep q PIdle ov).

(** ** The invariant *)
Definition quiet (s : shared) (e : Z) : Prop :=
  e <= turn_epoch s /\ (turn_epoch s = e -> no_active (leases s) = true).
Record poll_inv (s : shared) : Prop := {
  pi_inflight : inflight s = Z.of_nat (size (leases s)) /\ Z.of_nat (size (leases s)) < 2 ^ 32;
  pi_epoch : 0 <= turn_epoch s <= u64_max;
  pi_poll : match poller s with
            | PIdle => True
            | PEpoch e => e <= turn_epoch s
            | PDrain e => quiet s e
            | PFetch e | PCheckEpoch e => quiet s e /\ (turn_epoch s = e -> overlapped s = false)
            | PCheckInflight _ | PLock _ | PCheckEpoch2 _ | PCheckInflight2 _ | PDrain2 => overlapped s = false
            | PObserve | PPublish => overlapped s = false /\ queue (turns s) = []
            end
}.

Lemma no_active_insert m i : no_active m = true -> m !! i = None -> no_active (<[i := LCounted]> m) = true.
Proof. unfold no_active. rewrite !bool_decide_eq_true. intros. by apply map_Forall_insert_2. Qed.
Lemma no_active_delete m i : no_active m = true -> no_active (delete i m) = true.
Proof. unfold no_active. rewrite !bool_decide_eq_true. apply map_Forall_delete. Qed.
Lemma no_active_lookup m i l : no_active m = true -> m !! i = Some l -> l = LCounted.
Proof. unfold no_active. rewrite bool_decide_eq_true. intros H Hi. apply (H i l Hi). Qed.
Lemma size_zero_no_active m : size m = 0%nat -> no_active m = true.
Proof. intros ->%map_size_empty_inv. done. Qed.
Lemma drained_empty answers (q : TurnQueue (E:=nat)) :
  (drain_turn_queue_locked answers q).1 = true -> queue (drain_turn_queue_locked answers q).2 = [].
Proof. cbn. unfold may_poll_quota, q_is_empty. by destruct (queue _). Qed.

(** A lease step that keeps or advances the epoch keeps what the poll knows,
    provided no lease becomes active at an unchanged epoch. *)
Lemma poll_inv_frame s s' :
  poll_inv s -> poller s' = poller s ->
  inflight s' = Z.of_nat (size (leases s')) -> Z.of_nat (size (leases s')) < 2 ^ 32 ->
  turn_epoch s <= turn_epoch s' <= u64_max ->
  (turn_epoch s' = turn_epoch s -> no_active (leases s) = true -> no_active (leases s') = true) ->
  (overlapped s' = overlapped s \/ (fetching (poller s) = true /\ turn_epoch s < turn_epoch s')) ->
  (holds_barrier (poller s) = true -> turns s' = turns s) ->
  poll_inv s'.
Proof.
  intros [_ [He1 He2] Hp] Ep Hi Hsz [Hle Hmax] Hq Hov Ht. split; [done|lia|].
  rewrite Ep. unfold quiet in *. destruct (poller s); cbn in *; try done.
  - lia.
  - split; [lia|]. intros E. apply Hq; [lia|]. apply Hp. lia.
  - split; [split; [lia|]|].
    + intros E. apply Hq; [lia|]. apply Hp. lia.
    + intros E. destruct Hov as [->|[_ ?]]; [apply Hp; lia|lia].
  - split; [split; [lia|]|].
    + intros E. apply Hq; [lia|]. apply Hp. lia.
    + intros E. destruct Hov as [->|[? _]]; [apply Hp; lia|done].
  - by destruct Hov as [->|[? _]].
  - by destruct Hov as [->|[? _]].
  - by destruct Hov as [->|[? _]].
  - by destruct Hov as [->|[? _]].
  - by destruct Hov as [->|[? _]].
  - destruct Hov as [->|[? _]]; [|done]. by rewrite Ht.
  - destruct Hov as [->|[? _]]; [|done]. by rewrite Ht.
Qed.

Lemma poll_step_inv s s' : poll_step s s' -> poll_inv s -> poll_inv s'.
Proof.
  destruct 1 as [m inf ep q p ov i Hi Hsz|m inf ep q p ov i Hi Hep|m inf ep q p ov i answers Hi Hb
    |m inf ep q p ov i l Hi Hl|m inf ep q p ov event answers Hb|m inf ep q ov|m inf ep q ov e|m inf ep q ov e answers
    |m inf ep q ov e|m inf ep q ov e|m inf ep q ov e|m inf ep q ov e|m inf ep q ov e|m inf ep q ov e
    |m inf ep q ov answers|m inf ep q ov|m inf ep q p ov Hp]; intros HI;
    pose proof HI as [[Hin Hlt] Hepo Hpoll]; cbn in Hin, Hlt, Hepo, Hpoll.
  - eapply poll_inv_frame; [exact HI| | | | | | |]; cbn; auto; try lia.
    + rewrite map_size_insert_None by done. unfold add_u32. rewrite Z.mod_small; lia.
    + rewrite map_size_insert_None by done. lia.
    + intros _ Hq. by apply no_active_insert.
  - assert (Hs : size (<[i:=LActive]> m) = size m) by (by apply map_size_insert_Some).
    unwrap.
    eapply poll_inv_frame; [exact HI| | | | | | |]; cbn; rewrite ?Hs; auto; try lia.
    destruct ov, (fetching p); auto. right. split; [done|lia].
  - assert (Hs : size (<[i:=LFinal]> m) = size m) by (by apply map_size_insert_Some).
    eapply poll_inv_frame; [exact HI| | | | | | |]; cbn; rewrite ?Hs; auto; try lia; try congruence.
    intros _ Hq. by apply (no_active_lookup m i LActive) in Hq.
  - assert (Hs : size m = S (size (delete i m))).
    { rewrite map_size_delete_Some by eauto. assert (size m <> 0%nat); [|lia].
      intros E%map_size_empty_inv. by rewrite E in Hi. }
    eapply poll_inv_frame; [exact HI| | | | | | |]; cbn; auto; try lia.
    + unfold add_u32. rewrite Z.mod_small; lia.
    + intros _. apply no_active_delete.
  - eapply poll_inv_frame; [exact HI| | | | | | |]; cbn; auto; try lia; congruence.
  - split; cbn; [done|done|lia].
  - split; [done|done|]. destruct (Z.eqb_spec inf 0); cbn; [|done]. split; [done|]. intros _. cbn. apply size_zero_no_active. lia.
  - pose proof (drained_empty answers q) as Hd. destruct (drain_turn_queue_locked answers q) as [[] q']; (split; [done|done|]); cbn; [|done].
    split; [done|]. intros E. destruct Hpoll as [_ Hn]. cbn in Hn. by rewrite Hn.
  - split; [done|done|done].
  - split; [done|done|]. destruct (Z.eqb_spec ep e); cbn; [|done]. by apply Hpoll.
  - split; [done|done|]. by destruct (inf =? 0).
  - split; [done|done|done].
  - split; [done|done|]. by destruct (ep =? e).
  - split; [done|done|]. by destruct (inf =? 0).
  - pose proof (drained_empty answers q) as Hd. destruct (drain_turn_queue_locked answers q) as [[] q']; (split; [done|done|]); cbn; [|done].
    split; [done|]. by apply Hd.
  - split; [done|done|done].
  - split; [done|done|done].
Qed.

Lemma poll_reachable_inv capacity s : rtc poll_step (shared_init capacity) s -> poll_inv s.
Proof.
  intros Hr. eapply rtc_invariant; [|intros a b; apply poll_step_inv|exact Hr]. split; cbn; [done|width_lia|done].
Qed.

(** ** Draining *)
Lemma drain_loop_enough fuel answers (q : TurnQueue (E:=nat)) :
  (length (queue q) < fuel)%nat ->
  queue (drain_loop fuel answers q) = []
  \/ exists n, (n <= length (queue q))%nat /\ answers n = Transient /\ queue (drain_loop fuel answers q) = drop n (queue q).
Proof.
  revert answers q. induction fuel as [|fuel IH]; intros answers q Hf; [lia|]. cbn.
  destruct (queue q) as [|x l] eqn:Eq; unfold q_head; rewrite Eq; cbn; [by left|].
  assert (Hq : forall o, o <> Transient -> queue (resolve_head q o) = l) by (intros [] Ho; cbn; rewrite ?Eq; done).
  assert (Hrec : forall o, o <> Transient -> queue (drain_loop fuel (fun n => answers (S n)) (resolve_head q o)) = []
    \/ exists n, (n <= S (length l))%nat /\ answers n = Transient
       /\ queue (drain_loop fuel (fun n => answers (S n)) (resolve_head q o)) = drop n (x :: l)).
  { intros o Ho. specialize (Hq o Ho). cbn in Hf.
    destruct (IH (fun n => answers (S n)) (resolve_head q o)) as [H|(n & Hn & Ha & Hd)]; [rewrite Hq; lia|by left|].
    right. exists (S n). rewrite Hq in Hn, Hd. cbn. split; [lia|]. done. }
  destruct (answers 0%nat) eqn:Ea; [by apply Hrec| |by apply Hrec].
  right. exists 0%nat. cbn. split; [lia|]. by rewrite Eq.
Qed.

(** A quota observation is never paired with an unfinished turn.  In every
    interleaving of leases, turn deliveries and the poll, when a snapshot is
    published no turn was active on the profile at any moment of the provider
    read, and every accepted turn event has left the delivery queue. *)
Theorem glm_poll_never_overlaps (capacity : Z) (s : shared) :
  rtc poll_step (shared_init capacity) s -> poller s = PPublish ->
  overlapped s = false /\ queue (turns s) = [].
Proof. intros [_ _ Hp]%poll_reachable_inv E. by rewrite E in Hp. Qed.

Ltac poll_by rule := eapply rtc_l; [eapply rule|]; vm_compute.
Lemma glm_poll_never_overlaps_witness :
  overlapped (mkShared ∅ 0 1 (mkQueue [] 8 0 true) PPublish false) = false
  /\ queue (turns (mkShared ∅ 0 1 (mkQueue [] 8 0 true) PPublish false)) = [].
Proof.
  refine (glm_poll_never_overlaps 8 (mkShared ∅ 0 1 (mkQueue [] 8 0 true) PPublish false) _ eq_refl).
  eapply rtc_l; [eapply (lease_count _ _ _ _ _ _ 7%nat); vm_compute; reflexivity|].
  eapply rtc_l; [eapply (lease_epoch _ _ _ _ _ _ 7%nat); vm_compute; reflexivity|].
  eapply rtc_l; [eapply (lease_finalize _ _ _ _ _ _ 7%nat (fun _ => Durable)); vm_compute; reflexivity|].
  eapply rtc_l; [eapply (lease_drop _ _ _ _ _ _ 7%nat LFinal); [vm_compute; reflexivity|discriminate]|].
  vm_compute.
  poll_by poll_epoch. poll_by poll_inflight.
  eapply rtc_l; [eapply poll_drain with (answers := fun _ => Durable)|]. vm_compute.
  poll_by poll_fetched. poll_by poll_check_epoch. poll_by poll_check_inflight. poll_by poll_lock.
  poll_by poll_check_epoch2. poll_by poll_check_inflight2.
  eapply rtc_l; [eapply poll_drain2 with (answers := fun _ => Durable)|]. vm_compute.
  poll_by poll_observe. apply rtc_refl.
Defined.
