(* ===== verification/GlmSettle.v ===== *)
(** * What a delivered GLM turn settles for
    ([crates/forward/src/glm/gateway.rs], [crates/forward/src/settlement_policy.rs])

    The amount [finalize_turn] settles, given the price of the turn ([None]: no
    terminal usage, or a served model outside the priced set), beside the
    fleet-wide policy for turns whose cost was never measured. *)
From S2P Require Import Prelude Tariffs.

Definition unknown_usage_charge (charge_hold_on_unknown_usage : bool) (hold : Z) : Z :=
  if charge_hold_on_unknown_usage then Z.max hold 0 else 0.

(** [clamp] to the non-negative [i64] range before the cast. *)
Definition customer_actual (charge_basis_nano mult_bp : Z) : Z :=
  Z.max 0 (Z.min i64_max (apply_multiplier charge_basis_nano mult_bp)).
Definition finalize_amount (priced : option Z) (hold mult_bp : Z) : Z :=
  match priced with
  | Some total => customer_actual total mult_bp
  | None => hold
  end.

(** A measured turn settles for its discounted price, never more than the price:
    for a price that fits [i64] and a multiplier of at most one, the amount is the
    price times the multiplier rounded half up. *)
Lemma measured_turn_settles_price total hold mult_bp :
  0 <= total <= i64_max -> 0 <= mult_bp <= 10000 ->
  finalize_amount (Some total) hold mult_bp = (total * mult_bp + 5000) / 10000
  /\ finalize_amount (Some total) hold mult_bp <= total.
Proof.
  intros Ht Hm. cbn. unfold customer_actual, apply_multiplier.
  assert (Hb : 0 <= total * mult_bp <= i64_max * 10000) by (split; [nia|apply Z.mul_le_mono_nonneg; lia]).
  rewrite (proj2 (Z.leb_le 0 total)) by lia. rewrite (wrap_i128_id (total * mult_bp)) by width_lia.
  rewrite wrap_i128_id by width_lia.
  rewrite Z.quot_div_nonneg by nia.
  assert (Hle : (total * mult_bp + 5000) / 10000 <= total).
  { destruct (Z.eq_dec total 0) as [->|]; [done|].
    apply Z.lt_succ_r, Z.div_lt_upper_bound; nia. }
  assert (0 <= (total * mult_bp + 5000) / 10000) by (apply Z.div_pos; nia). lia.
Qed.

(** An unmeasured turn settles for its whole hold, whatever the fleet-wide policy
    says; the policy's default would charge nothing. *)
Lemma glm_unmeasured_turn_charges_hold hold mult_bp :
  0 < hold -> finalize_amount None hold mult_bp = hold
  /\ unknown_usage_charge false hold = 0
  /\ finalize_amount None hold mult_bp <> unknown_usage_charge false hold.
Proof. cbn. lia. Qed.
