(* ===== verification/RouterWire.v ===== *)
(** * The router's wire layer

    Headers, synthetic errors, one proxied attempt, the bounded reader and the
    hedged authentication preflight of the unified router
    ([crates/router/src/proxy.rs], [error.rs], [bounded.rs], [auth.rs], and the
    header checks of [routing.rs]).

    A header map is the list of its fields with lower-case names; the order of
    fields of different names carries no meaning.  What a plane answers, how a
    send fails and when timers fire are arguments. *)
From S2P Require Import Prelude Text MeterUsage BodyStore.
#[local] Open Scope Z_scope.

(** ** Text *)
Definition comma : Ascii.ascii := Ascii.ascii_of_nat 44.
Fixpoint all_bytes (p : Ascii.ascii -> bool) (s : string) : bool :=
  match s with EmptyString => true | String c s => p c && all_bytes p s end.
(** [HeaderValue::to_str]: visible ASCII and tab. *)
Definition to_str (v : string) : option string :=
  if all_bytes (fun c => byte_between 32 126 c || (byte_of c =? 9)) v then Some v else None.
(** [HeaderName::try_from]: a token of at most 65535 bytes, in lower case. *)
Definition token_char (c : Ascii.ascii) : bool :=
  byte_between 48 57 c || byte_between 65 90 c || byte_between 97 122 c
  || bool_decide (byte_of c ∈ [33; 35; 36; 37; 38; 39; 42; 43; 45; 46; 94; 95; 96; 124; 126]).
Definition header_name (t : string) : option string :=
  if negb (bool_decide (t = EmptyString)) && (str_len t <=? 65535) && all_bytes token_char t
  then Some (to_ascii_lowercase t) else None.

(** ** Header maps *)
Abbreviation Headers := (list (string * string)) (only parsing).
Definition get_all (h : Headers) (n : string) : list string :=
  map snd (List.filter (fun f => bool_decide (f.1 = n)) h).
Definition header (h : Headers) (n : string) : option string := head (get_all h n).
Definition remove (h : Headers) (n : string) : Headers :=
  List.filter (fun f => negb (bool_decide (f.1 = n))) h.
Definition insert_header (h : Headers) (n v : string) : Headers := remove h n ++ [(n, v)].

Definition HOP_BY_HOP : list string :=
  ["connection"; "keep-alive"; "proxy-authenticate"; "proxy-authorization"; "te"; "trailer"; "transfer-encoding"; "upgrade"]%string.
Definition AUTH_HEADERS : list string := ["x-api-key"; "x-goog-api-key"; "authorization"]%string.
Definition SERVICE_TIER_HEADER : string := "x-apitoken-service-tier".
Definition EXECUTION_STATE_HEADER : string := "x-apitoken-execution-state".
Definition EXECUTION_STATE_NOT_STARTED : string := "not_started".
Definition EXECUTION_GROUP_HEADER : string := "x-apitoken-execution-group".
Definition EXECUTION_ATTEMPT_HEADER : string := "x-apitoken-attempt".
Definition LOGICAL_REQUEST_ID_HEADER : string := "x-apitoken-logical-request-id".

(** The tokens of the first [connection] field. *)
Definition connection_tokens (h : Headers) : list string :=
  match header h "connection" >>? to_str with
  | Some v => omap (fun t => header_name (trim t)) (split comma v)
  | None => []
  end.
Definition strip_hop_by_hop (h : Headers) : Headers :=
  let tokens := connection_tokens h in
  List.filter (fun f => negb (bool_decide (f.1 = "host"%string) || bool_decide (f.1 ∈ HOP_BY_HOP) || bool_decide (f.1 ∈ tokens))) h.
Definition auth_passthrough (h : Headers) : Headers :=
  remove (flat_map (fun n => map (pair n) (get_all h n)) AUTH_HEADERS) LOGICAL_REQUEST_ID_HEADER.

Definition request_content_encoding_forbidden (h : Headers) : bool :=
  existsb (fun v => match to_str v with
                    | None => true
                    | Some v => existsb (fun part => let token := trim part in
                        negb (bool_decide (token = EmptyString)) && negb (eq_ignore_ascii_case token "identity")) (split comma v)
                    end) (get_all h "content-encoding").

(** ** Synthetic responses ([error.rs]) *)
Inductive Lane : Type := LAnthropic | LOpenAi | LGemini.
#[global] Instance Lane_eq_dec : EqDecision Lane.
Proof. solve_decision. Defined.
Inductive RBody : Type := RJson (v : Value) | RStream (bytes : list byte).
Record Response := mkResponse { r_status : Z; r_headers : Headers; r_body : RBody }.
Definition is_success (s : Z) : bool := between 200 299 s.
Definition is_client_error (s : Z) : bool := between 400 499 s.
Definition is_server_error (s : Z) : bool := between 500 599 s.

Definition str (s : string) : Value := VString s.
Definition opt_str (o : option string) : Value := match o with Some s => VString s | None => VNull end.
Definition json_response (status : Z) (body : Value) : Response :=
  mkResponse status [("content-type", "application/json")]%string (RJson body).
Definition openai_error (status : Z) (fields : list (string * Value)) : Response :=
  json_response status (VObject [("error"%string, VObject fields)]).
(** [fresh_error_request_id] is the environment's. *)
Definition anthropic_error_response (id : string) (status : Z) (kind message : string) : Response :=
  let r := json_response status (VObject [("type", str "error"); ("error", VObject [("type", str kind); ("message", str message)]);
                                          ("request_id", str id)]%string) in
  mkResponse status (insert_header (r_headers r) "request-id" id) (r_body r).
Definition upstream_unavailable (id : string) (lane : Lane) (detail : string) : Response :=
  match lane with
  | LAnthropic => anthropic_error_response id 502 "api_error" detail
  | LOpenAi => openai_error 502 [("message", str detail); ("type", str "server_error"); ("code", str "bad_gateway")]%string
  | LGemini => openai_error 502 [("code", VNumber (PosInt 502)); ("message", str detail); ("status", str "UNAVAILABLE")]%string
  end.
Definition starts_with (p s : string) : bool := match strip_prefix p s with Some _ => true | None => false end.
Definition from_path (path : string) : option Lane :=
  if bool_decide (path = "/balance"%string) || starts_with "/v1/messages" path then Some LAnthropic
  else if starts_with "/v1/responses" path || starts_with "/v1/images/" path || bool_decide (path = "/v1/chat/completions"%string)
       then Some LOpenAi
  else if starts_with "/v1beta/" path then Some LGemini
  else if bool_decide (path = "/v1/models"%string) || starts_with "/v1/models/" path then Some LOpenAi
  else None.
Definition unsupported_endpoint : Response :=
  openai_error 404 [("message", str "The requested endpoint is not supported."); ("type", str "invalid_request_error");
                    ("code", str "unsupported_endpoint")]%string.
Definition method_not_allowed (id path : string) : Response :=
  match from_path path with
  | Some LAnthropic => anthropic_error_response id 405 "not_found_error" "Method not allowed for this endpoint."
  | Some LGemini => openai_error 405 [("code", VNumber (PosInt 405)); ("message", str "Method not allowed for this endpoint.");
                                      ("status", str "NOT_FOUND")]%string
  | _ => openai_error 405 [("message", str "Method not allowed for this endpoint."); ("type", str "invalid_request_error");
                           ("code", str "method_not_allowed")]%string
  end.

(** Every other synthetic error has one OpenAI and one Messages envelope. *)
Inductive RouterError : Type :=
| EInvalid (message : string) (param : option string)
| EPayloadTooLarge (message : string)
| EModelNotFound (model : string)
| ECatalogUnavailable | EAuthRejected | EAuthUnavailable | EOverloaded | EBodyTimeout
| EUnsupportedContentEncoding | EPolicyUnavailable | EPolicyRestricted.
Definition model_not_found_message (id : string) : string :=
  String.app "The model `" (String.app id "` does not exist or you do not have access to it.").
Definition coded (status : Z) (message type code : string) : Response :=
  openai_error status [("message", str message); ("type", str type); ("code", str code)]%string.
Definition openai_envelope (e : RouterError) : Response :=
  match e with
  | EInvalid m p => openai_error 400 [("message", str m); ("type", str "invalid_request_error"); ("param", opt_str p); ("code", VNull)]%string
  | EPayloadTooLarge m => openai_error 413 [("message", str m); ("type", str "invalid_request_error"); ("param", VNull);
                                            ("code", str "payload_too_large")]%string
  | EModelNotFound id => openai_error 404 [("message", str (model_not_found_message id)); ("type", str "invalid_request_error");
                                           ("param", str "model"); ("code", str "model_not_found")]%string
  | ECatalogUnavailable => coded 503 "The model catalog is temporarily unavailable." "server_error" "catalog_unavailable"
  | EAuthRejected => coded 401 "Invalid or missing API key." "invalid_request_error" "invalid_api_key"
  | EAuthUnavailable => coded 503 "Authentication is temporarily unavailable." "server_error" "authentication_unavailable"
  | EOverloaded => coded 503 "The router request-body budget is temporarily exhausted." "server_error" "router_overloaded"
  | EBodyTimeout => coded 408 "The request body was not received in time." "invalid_request_error" "request_timeout"
  | EUnsupportedContentEncoding => coded 415 "Request Content-Encoding is not supported." "invalid_request_error" "unsupported_content_encoding"
  | EPolicyUnavailable => coded 503 "Account routing policy is temporarily unavailable." "server_error" "policy_unavailable"
  | EPolicyRestricted => coded 403 "No requested model is allowed by the account routing policy." "permission_error" "policy_restricted"
  end.
Definition messages_envelope (id : string) (e : RouterError) : Response :=
  let err := anthropic_error_response id in
  match e with
  | EInvalid m _ => err 400 "invalid_request_error" m
  | EPayloadTooLarge m => err 413 "request_too_large" m
  | EModelNotFound model => err 404 "not_found_error" (model_not_found_message model)
  | ECatalogUnavailable => err 503 "api_error" "The model catalog is temporarily unavailable."
  | EAuthRejected => err 401 "authentication_error" "Invalid or missing API key."
  | EAuthUnavailable => err 503 "api_error" "Authentication is temporarily unavailable."
  | EOverloaded => err 503 "api_error" "The router request-body budget is temporarily exhausted."
  | EBodyTimeout => err 408 "invalid_request_error" "The request body was not received in time."
  | EUnsupportedContentEncoding => err 415 "invalid_request_error" "Request Content-Encoding is not supported."
  | EPolicyUnavailable => err 503 "api_error" "Account routing policy is temporarily unavailable."
  | EPolicyRestricted => err 403 "permission_error" "No requested model is allowed by the account routing policy."
  end%string.

(** ** One proxied attempt ([proxy.rs]) *)
Record Req := mkReq { q_method : string; q_path_query : option string; q_headers : Headers; q_body : list byte }.
Record Outgoing := mkOutgoing { o_method : string; o_url : string; o_headers : Headers; o_body : list byte }.
Record ExecutionAttemptHeaders := mkExecution { group_id : string; attempt_number : Z }.
Inductive RetryReason : Type := NotStarted | ConnectionRefused.
Definition RetryReason_as_str (r : RetryReason) : string :=
  match r with NotStarted => "not_started" | ConnectionRefused => "connect_refused" end.
Record ProxyAttempt := mkAttempt { response : Response; retry_reason : option RetryReason }.

(** What sending a request leads to: response headers with the stream behind
    them (and whether a response can be built from them), an error with its
    source chain (each link an [io::Error] of some kind, or not one), or the
    expiry of the caller's header timeout. *)
Inductive IoKind : Type := IoConnectionRefused | IoOtherKind.
Inductive Sent : Type :=
| Answered (status : Z) (headers : Headers) (body : list byte) (builds : bool)
| SendFailed (chain : list (option IoKind))
| HeaderTimeout.

Fixpoint error_chain_has_connection_refused (chain : list (option IoKind)) : bool :=
  match chain with
  | [] => false
  | Some IoConnectionRefused :: _ => true
  | _ :: chain => error_chain_has_connection_refused chain
  end.

(** The request the plane receives. *)
Definition outgoing (origin : string) (req : Req) (logical : option string) (execution : option ExecutionAttemptHeaders) : Outgoing :=
  let h := strip_hop_by_hop (q_headers req) in
  let h := remove h EXECUTION_GROUP_HEADER in
  let h := remove h EXECUTION_ATTEMPT_HEADER in
  let h := remove h LOGICAL_REQUEST_ID_HEADER in
  let h := remove h SERVICE_TIER_HEADER in
  let h := match logical with Some id => insert_header h LOGICAL_REQUEST_ID_HEADER id | None => h end in
  let h := match execution with
           | Some e => insert_header (insert_header h EXECUTION_GROUP_HEADER (group_id e)) EXECUTION_ATTEMPT_HEADER (pretty (attempt_number e))
           | None => h
           end in
  mkOutgoing (q_method req) (String.app origin (default "/"%string (q_path_query req))) h (q_body req).

(** The execution-state field occurs once, with exactly the proving value. *)
Definition not_started (headers : Headers) : bool :=
  match get_all headers EXECUTION_STATE_HEADER with
  | [v] => bool_decide (v = EXECUTION_STATE_NOT_STARTED)
  | _ => false
  end.
Definition retry_of (status : Z) (headers : Headers) : option RetryReason :=
  if negb (is_success status) && not_started headers && (negb (is_client_error status) || (status =? 429))
  then Some NotStarted else None.
Definition public_headers (headers : Headers) : Headers :=
  List.filter (fun f => negb (bool_decide (f.1 = EXECUTION_STATE_HEADER) || bool_decide (f.1 = LOGICAL_REQUEST_ID_HEADER)))
    (strip_hop_by_hop headers).

Definition attempt_of (id : string) (error_lane : Lane) (sent : Sent) : ProxyAttempt :=
  match sent with
  | HeaderTimeout => mkAttempt (upstream_unavailable id error_lane "The provider plane did not return response headers in time.") None
  | Answered status headers body builds =>
      if builds then mkAttempt (mkResponse status (public_headers headers) (RStream body)) (retry_of status headers)
      else mkAttempt (upstream_unavailable id error_lane "failed to build upstream response") None
  | SendFailed chain =>
      mkAttempt (upstream_unavailable id error_lane "The provider plane is temporarily unavailable.")
        (if error_chain_has_connection_refused chain then Some ConnectionRefused else None)
  end.

(** [send] answers the requests of one handler. *)
Definition proxy_attempt (id : string) (send : Outgoing -> Sent) (origin : string) (error_lane : Lane) (req : Req)
    (logical : option string) (execution : option ExecutionAttemptHeaders) : Outgoing * ProxyAttempt :=
  let out := outgoing origin req logical execution in
  (out, attempt_of id error_lane (send out)).

Definition proxy_request (id : string) (send : Outgoing -> Sent) (origin : string) (lane : Lane) (req : Req) (logical : string)
    : Outgoing * Response :=
  let '(out, a) := proxy_attempt id send origin lane req (Some logical) None in (out, response a).

(** A native lane: no identity, no attempt ([main.rs]). *)
Definition proxy_native_customer_request (id : string) (send : Outgoing -> Sent) (origin : string) (lane : Lane) (req : Req)
    (logical : option string) : option Outgoing * Response :=
  match logical with
  | None => (None, upstream_unavailable id lane "Failed to create request identity.")
  | Some logical => let '(out, r) := proxy_request id send origin lane req logical in (Some out, r)
  end.

(** [proxy_balance]: the planes in order, until one gives a terminal answer. *)
Fixpoint balance_loop (id : string) (send : nat -> Outgoing -> Sent) (req : Req) (last : option Response) (index : nat) (origins : list string)
    : list Outgoing * Response :=
  match origins with
  | [] => ([], default (upstream_unavailable id LAnthropic "The balance authority is temporarily unavailable.") last)
  | origin :: origins =>
      let '(out, a) := proxy_attempt id (send index) origin LAnthropic req None None in
      let status := r_status (response a) in
      if (status =? 401) || negb (is_server_error status) then ([out], response a)
      else let '(outs, r) := balance_loop id send req (Some (response a)) (S index) origins in (out :: outs, r)
  end.
Definition proxy_balance (id : string) (send : nat -> Outgoing -> Sent) (req : Req) (origins : list string) : list Outgoing * Response :=
  balance_loop id send (mkReq (q_method req) (q_path_query req) (remove (q_headers req) "content-length") []) None 0 origins.

(** ** Bounded responses ([bounded.rs]) *)
Inductive ReadError : Type := Oversized | Transport.
Inductive Chunk : Type := CBytes (b : list byte) | CEnd | CFailed.
Definition len (b : list byte) : Z := Z.of_nat (length b).
Fixpoint read_chunks (limit : Z) (body : list byte) (chunks : list Chunk) : result ReadError (list byte) :=
  match chunks with
  | [] | CEnd :: _ => Ok body
  | CFailed :: _ => Err Transport
  | CBytes b :: chunks => if limit <? sat_u64 (len body + len b) then Err Oversized else read_chunks limit (body ++ b) chunks
  end.
Definition response_bytes (limit : Z) (content_length : option Z) (chunks : list Chunk) : result ReadError (list byte) :=
  if match content_length with Some l => limit <? l | None => false end then Err Oversized
  else read_chunks limit [] chunks.

(** ** Authentication preflight ([auth.rs]) *)
Inductive AuthError : Type := Unauthorized | AuthUnavailable.
Inductive ProbeOutcome : Type := PSuccess | PUnauthorized | PInconclusive.
Record AuthResponse := mkAuthResponse { schema_version : Z; authenticated : bool }.
Definition AUTH_MAX_BODY_BYTES : Z := 1024.
(** What one authority answers: a status, its declared length and its chunks. *)
Record Reply := mkReply { rp_status : Z; rp_length : option Z; rp_chunks : list Chunk }.
Definition probe_auth (parse : list byte -> option AuthResponse) (reply : option Reply) : ProbeOutcome :=
  match reply with
  | None => PInconclusive
  | Some r =>
      if rp_status r =? 401 then PUnauthorized
      else if negb (is_success (rp_status r)) then PInconclusive
      else match response_bytes AUTH_MAX_BODY_BYTES (rp_length r) (rp_chunks r) with
           | Err _ => PInconclusive
           | Ok bytes => match parse bytes with
                         | Some a => if (schema_version a =? 1) && authenticated a then PSuccess else PInconclusive
                         | None => PInconclusive
                         end
           end
  end.
(** [probe_unauthenticated_contract] and [startup_probe]. *)
Definition probe_unauthenticated_contract (parse : list byte -> option (string * string)) (reply : option Reply) : bool :=
  match reply with
  | None => false
  | Some r =>
      (rp_status r =? 401)
      && match response_bytes AUTH_MAX_BODY_BYTES (rp_length r) (rp_chunks r) with
         | Err _ => false
         | Ok bytes => bool_decide (parse bytes = Some ("unauthorized", "Invalid API credential.")%string)
         end
  end.
Definition startup_probe (parse : list byte -> option (string * string)) (replies : list (option Reply)) : bool :=
  existsb (probe_unauthenticated_contract parse) replies.

(** The hedged loop: probes in flight and the next origin to start.  An event
    is the end of a probe in flight or the expiry of the hedge timer. *)
Record Hedge := mkHedge { in_flight : list nat; next_origin : nat }.
Inductive HedgeEvent : Type := ProbeDone (i : nat) (o : ProbeOutcome) | TimerFired.
Inductive HedgeOut : Type := Running (h : Hedge) | Finished (r : result AuthError ()).
Definition hedge_start : Hedge := mkHedge [0%nat] 1.
Definition start_next (h : Hedge) : Hedge := mkHedge (in_flight h ++ [next_origin h]) (S (next_origin h)).
(** [probes.next()] at the top of the loop once every origin was started. *)
Definition loop_top (h : Hedge) : HedgeOut :=
  if bool_decide (next_origin h < 3)%nat then Running h
  else match in_flight h with [] => Finished (Err AuthUnavailable) | _ => Running h end.
Definition hedge_step (h : Hedge) (e : HedgeEvent) : option HedgeOut :=
  match e with
  | TimerFired => if bool_decide (next_origin h < 3)%nat then Some (loop_top (start_next h)) else None
  | ProbeDone i o =>
      if bool_decide (i ∈ in_flight h) then
        let rest := mkHedge (List.filter (fun j => negb (bool_decide (j = i))) (in_flight h)) (next_origin h) in
        Some match o with
             | PSuccess => Finished (Ok ())
             | PUnauthorized => Finished (Err Unauthorized)
             | PInconclusive =>
                 if bool_decide (in_flight rest = []) && bool_decide (next_origin rest < 3)%nat
                 then loop_top (start_next rest) else loop_top rest
             end
      else None
  end.
Fixpoint hedge_run (h : Hedge) (events : list HedgeEvent) : option HedgeOut :=
  match events with
  | [] => Some (Running h)
  | e :: events =>
      match hedge_step h e with
      | Some (Running h) => hedge_run h events
      | Some (Finished r) => match events with [] => Some (Finished r) | _ => None end
      | None => None
      end
  end.
Definition preflight_with_hedge (events : list HedgeEvent) : option HedgeOut := hedge_run hedge_start events.

(** ** Lemmas on header maps *)
Lemma get_all_filter (p : string -> bool) (h : Headers) n :
  get_all (List.filter (fun f => p f.1) h) n = if p n then get_all h n else [].
Proof.
  unfold get_all. induction h as [|[k v] h IH]; cbn; [by destruct (p n)|].
  destruct (p k) eqn:Ek; cbn; case_bool_decide; simplify_eq/=; rewrite IH; destruct (p n) eqn:En; congruence.
Qed.
Lemma get_all_app (h k : Headers) n : get_all (h ++ k) n = get_all h n ++ get_all k n.
Proof. unfold get_all. by rewrite List.filter_app, map_app. Qed.
Lemma get_all_remove (h : Headers) m n : get_all (remove h m) n = if bool_decide (n = m) then [] else get_all h n.
Proof.
  etransitivity; [exact (get_all_filter (fun k => negb (bool_decide (k = m))) h n)|]. by destruct (bool_decide (n = m)).
Qed.
Lemma get_all_insert (h : Headers) m v n : get_all (insert_header h m v) n = if bool_decide (n = m) then [v] else get_all h n.
Proof.
  unfold insert_header. rewrite get_all_app, get_all_remove. unfold get_all at 2. cbn.
  repeat case_bool_decide; simplify_eq/=; [done|]. by rewrite app_nil_r.
Qed.
Definition hop_header (h : Headers) (n : string) : bool :=
  bool_decide (n = "host"%string) || bool_decide (n ∈ HOP_BY_HOP) || bool_decide (n ∈ connection_tokens h).
Lemma get_all_strip (h : Headers) n : get_all (strip_hop_by_hop h) n = if hop_header h n then [] else get_all h n.
Proof.
  etransitivity; [exact (get_all_filter (fun k => negb (hop_header h k)) h n)|]. by destruct (hop_header h n).
Qed.
Lemma get_all_public (h : Headers) n :
  get_all (public_headers h) n
  = if bool_decide (n = EXECUTION_STATE_HEADER) || bool_decide (n = LOGICAL_REQUEST_ID_HEADER) then []
    else if hop_header h n then [] else get_all h n.
Proof.
  etransitivity; [exact (get_all_filter (fun k => negb (bool_decide (k = EXECUTION_STATE_HEADER) || bool_decide (k = LOGICAL_REQUEST_ID_HEADER))) _ n)|].
  rewrite get_all_strip. by destruct (_ || _).
Qed.
Create Rewrite HintDb headers.
#[export] Hint Rewrite get_all_remove get_all_insert get_all_strip get_all_public : headers.

(** What the router alone may say on the hop to a plane. *)
Definition capability (logical : option string) (execution : option ExecutionAttemptHeaders) (n : string) : option (list string) :=
  if bool_decide (n = LOGICAL_REQUEST_ID_HEADER) then Some (option_list logical)
  else if bool_decide (n = EXECUTION_GROUP_HEADER) then Some (option_list (group_id <$> execution))
  else if bool_decide (n = EXECUTION_ATTEMPT_HEADER) then Some (option_list ((fun e => pretty (attempt_number e)) <$> execution))
  else if bool_decide (n = SERVICE_TIER_HEADER) then Some []
  else None.

Lemma outgoing_headers origin req logical execution n :
  get_all (o_headers (outgoing origin req logical execution)) n
  = match capability logical execution n with
    | Some values => values
    | None => if hop_header (q_headers req) n then [] else get_all (q_headers req) n
    end.
Proof.
  unfold outgoing, capability. cbn [o_headers].
  destruct logical, execution; autorewrite with headers; repeat (case_bool_decide; subst); done.
Qed.

(** A retry reason is exactly a proof that nothing was executed. *)
Lemma between_false lo hi z : between lo hi z = false <-> ~ (lo <= z <= hi).
Proof. by rewrite <- not_true_iff_false, between_spec. Qed.
Lemma not_started_spec h : not_started h = true <-> get_all h EXECUTION_STATE_HEADER = [EXECUTION_STATE_NOT_STARTED].
Proof.
  unfold not_started. destruct (get_all h EXECUTION_STATE_HEADER) as [|v [|w l]]; [done| |done].
  rewrite bool_decide_eq_true. split; [by intros ->|congruence].
Qed.
Lemma retry_of_spec status h r : retry_of status h = Some r <->
  r = NotStarted /\ get_all h EXECUTION_STATE_HEADER = [EXECUTION_STATE_NOT_STARTED]
  /\ ~ (200 <= status <= 299) /\ (~ (400 <= status <= 499) \/ status = 429).
Proof.
  rewrite <- not_started_spec, <- !between_false, <- Z.eqb_eq. unfold retry_of, is_success, is_client_error.
  destruct (between 200 299 status), (not_started h), (between 400 499 status), (status =? 429); naive_solver.
Qed.
Lemma attempt_of_retry id lane sent r : retry_reason (attempt_of id lane sent) = Some r <->
  match sent with
  | Answered status headers _ builds =>
      builds = true /\ r = NotStarted /\ get_all headers EXECUTION_STATE_HEADER = [EXECUTION_STATE_NOT_STARTED]
      /\ ~ (200 <= status <= 299) /\ (~ (400 <= status <= 499) \/ status = 429)
  | SendFailed chain => r = ConnectionRefused /\ Some IoConnectionRefused ∈ chain
  | HeaderTimeout => False
  end.
Proof.
  destruct sent as [status headers body [] | chain |]; cbn; [|naive_solver| |naive_solver].
  - rewrite retry_of_spec. naive_solver.
  - assert (H : error_chain_has_connection_refused chain = true <-> Some IoConnectionRefused ∈ chain).
    { induction chain as [|[[]|] chain IH]; cbn; rewrite ?elem_of_nil, ?elem_of_cons, ?IH; naive_solver. }
    destruct (error_chain_has_connection_refused chain); naive_solver.
Qed.

(** ** The hedged preflight *)
(** [done] are the probes that came back inconclusive. *)
Record hedge_inv (h : Hedge) (done : list nat) : Prop := {
  hi_started : in_flight h ++ done ≡ₚ seq 0 (next_origin h);
  hi_bound : (1 <= next_origin h <= 3)%nat;
  hi_active : in_flight h <> []
}.
Definition inconclusive (e : HedgeEvent) : Prop := match e with ProbeDone _ o => o = PInconclusive | TimerFired => True end.
Definition done_of (e : HedgeEvent) : option nat := match e with ProbeDone i _ => Some i | TimerFired => None end.

Lemma hedge_start_inv : hedge_inv hedge_start [].
Proof. split; cbn; [done|lia|done]. Qed.
Lemma remove_in_flight (l : list nat) i : NoDup l -> i ∈ l -> l ≡ₚ i :: List.filter (fun j => negb (bool_decide (j = i))) l.
Proof.
  induction 1 as [|x l Hx Hl IH]; [by intros ?%elem_of_nil|]. cbn. intros [->|Hi]%elem_of_cons.
  - rewrite bool_decide_true by done. cbn. constructor.
    replace (List.filter _ l) with l; [done|]. clear -Hx. induction l as [|y l IH]; cbn; [done|].
    rewrite not_elem_of_cons in Hx. destruct Hx as [? Hx]. rewrite bool_decide_false by congruence. cbn. by rewrite <- IH.
  - rewrite bool_decide_false by congruence. cbn. rewrite (IH Hi) at 1. apply Permutation_swap.
Qed.
Lemma start_next_started h done : in_flight h ++ done ≡ₚ seq 0 (next_origin h) -> (1 <= next_origin h < 3)%nat ->
  hedge_inv (start_next h) done.
Proof.
  intros Hp Hb. split; cbn [start_next in_flight next_origin]; [|lia|by destruct (in_flight h)].
  rewrite seq_S, <- Hp. rewrite <- !(assoc_L (++)). apply Permutation_app_head. apply Permutation_app_comm.
Qed.
Lemma loop_top_running h done : hedge_inv h done -> loop_top h = Running h.
Proof. intros [_ _ Ha]. unfold loop_top. case_bool_decide; [done|]. by destruct (in_flight h). Qed.

Lemma hedge_step_inv h done e out : hedge_inv h done -> hedge_step h e = Some out ->
  match out with
  | Running h' => inconclusive e /\ hedge_inv h' (option_list (done_of e) ++ done)
      /\ (next_origin h + length done < next_origin h' + length (option_list (done_of e) ++ done))%nat
  | Finished (Ok _) => exists i, i ∈ in_flight h /\ e = ProbeDone i PSuccess
  | Finished (Err Unauthorized) => exists i, i ∈ in_flight h /\ e = ProbeDone i PUnauthorized
  | Finished (Err AuthUnavailable) => exists i, e = ProbeDone i PInconclusive /\ i :: done ≡ₚ seq 0 3
  end.
Proof.
  intros HI Hs. pose proof HI as [Hp Hb Ha]. destruct e as [i o|]; unfold hedge_step in Hs; cbv zeta in Hs.
  - case_bool_decide as Hi; [|done]. set (rest := mkHedge _ _) in Hs.
    assert (Hr : in_flight rest ++ i :: done ≡ₚ seq 0 (next_origin h)).
    { assert (Hn : NoDup (in_flight h ++ done)) by (rewrite Hp; apply NoDup_seq). apply NoDup_app in Hn as [Hn _].
      rewrite <- Hp. rewrite (remove_in_flight (in_flight h) i Hn Hi). symmetry. apply Permutation_middle. }
    destruct o; apply (inj Some) in Hs; [subst out; by eauto..|].
    change (next_origin rest) with (next_origin h) in Hs. assert (Hnr : next_origin rest = next_origin h) by done. clearbody rest. case_bool_decide as He; case_bool_decide as Hn; cbn [andb] in Hs; subst out.
    + rewrite <- Hnr in Hr. pose proof (start_next_started rest (i :: done) Hr ltac:(lia)) as HI'. rewrite (loop_top_running _ _ HI').
      split; [done|]. split; [exact HI'|]. cbn. lia.
    + unfold loop_top. rewrite Hnr, bool_decide_false by exact Hn. rewrite He. exists i. split; [done|].
      rewrite He in Hr. cbn in Hr. rewrite Hr. by replace (next_origin h) with 3%nat by lia.
    + assert (HI' : hedge_inv rest (i :: done)) by (split; [by rewrite Hnr|by rewrite Hnr|exact He]).
      rewrite (loop_top_running _ _ HI'). split; [done|]. split; [exact HI'|]. cbn. lia.
    + assert (HI' : hedge_inv rest (i :: done)) by (split; [by rewrite Hnr|by rewrite Hnr|exact He]).
      rewrite (loop_top_running _ _ HI'). split; [done|]. split; [exact HI'|]. cbn. lia.
  - case_bool_decide as Hn; [|done]. simplify_eq.
    pose proof (start_next_started h done Hp ltac:(lia)) as HI'. rewrite (loop_top_running _ _ HI').
    split; [done|]. split; [exact HI'|]. cbn. lia.
Qed.

Lemma hedge_inv_bound h done : hedge_inv h done -> (next_origin h + length done < 6)%nat.
Proof.
  intros [Hp Hb Ha]. apply Permutation_length in Hp. rewrite length_app, length_seq in Hp.
  destruct (in_flight h); [done|]. cbn in Hp. lia.
Qed.

Lemma hedge_run_inv events : forall h done out, hedge_inv h done -> hedge_run h events = Some out ->
  (length events + next_origin h + length done <= 6)%nat
  /\ match out with
     | Running h' => Forall inconclusive events /\ hedge_inv h' (reverse (omap done_of events) ++ done)
     | Finished r => exists evs i o, events = evs ++ [ProbeDone i o] /\ Forall inconclusive evs
         /\ NoDup (i :: reverse (omap done_of evs) ++ done) /\ (i < 3)%nat
         /\ match o with
            | PSuccess => r = Ok ()
            | PUnauthorized => r = Err Unauthorized
            | PInconclusive => r = Err AuthUnavailable /\ i :: reverse (omap done_of evs) ++ done ≡ₚ seq 0 3
            end
     end.
Proof.
  induction events as [|e events IH]; intros h done out HI Hr; cbn in Hr.
  { simplify_eq. pose proof (hedge_inv_bound _ _ HI). split; [cbn; lia|]. by split. }
  destruct (hedge_step h e) as [[h1|r]|] eqn:E; [| |done].
  - apply (hedge_step_inv _ _ _ _ HI) in E as (He & HI1 & Hlt).
    destruct (IH _ _ _ HI1 Hr) as [Hlen Hout]. split; [cbn; lia|].
    assert (Hrev : forall l, reverse (omap done_of (e :: l)) ++ done = reverse (omap done_of l) ++ option_list (done_of e) ++ done).
    { intros l. destruct e as [j o|]; [|done]. change (omap done_of (ProbeDone j o :: l)) with (j :: omap done_of l).
      by rewrite reverse_cons, <- (assoc_L (++)). }
    destruct out as [h'|r].
    + rewrite Hrev. destruct Hout as [Hf HI']. split; [by constructor|done].
    + destruct Hout as (evs & i & o & -> & Hf & Hnd & Hi & Ho). exists (e :: evs), i, o.
      split; [done|]. split; [by constructor|]. rewrite Hrev. by destruct o.
  - destruct events; [|done]. simplify_eq. pose proof (hedge_inv_bound _ _ HI). split; [cbn; lia|].
    apply (hedge_step_inv _ _ _ _ HI) in E. exists [].
    assert (Hin : forall i, i ∈ in_flight h -> NoDup (i :: done) /\ (i < 3)%nat).
    { intros i Hi. pose proof HI as [Hp Hb _]. assert (Hn : NoDup (in_flight h ++ done)) by (rewrite Hp; apply NoDup_seq).
      apply NoDup_app in Hn as (_ & Hd & Hn). split; [constructor; [by apply Hd|done]|].
      assert (i ∈ seq 0 (next_origin h)) as Hs by (rewrite <- Hp; set_solver). apply elem_of_seq in Hs. lia. }
    destruct r as [[]|[]].
    + destruct E as (i & Hi & ->). exists i, PSuccess. destruct (Hin i Hi). by repeat split.
    + destruct E as (i & Hi & ->). exists i, PUnauthorized. destruct (Hin i Hi). by repeat split.
    + destruct E as (i & -> & Hp). exists i, PInconclusive. cbn. split; [done|]. split; [done|].
      assert (Hn : NoDup (i :: done)) by (rewrite Hp; apply NoDup_seq). split; [done|].
      split; [|done]. assert (i ∈ seq 0 3) as Hs by (rewrite <- Hp; set_solver). apply elem_of_seq in Hs. lia.
Qed.

(** ** Theorems *)
(** C13: The hop to a plane is exact: the plane sees the client's method,
    path and body, every end-to-end header of the client unchanged and in order,
    and of the router's own capability headers exactly what the router decided;
    a client's copies of them never pass, in either direction.  Another attempt
    is licensed exactly by the single field [not_started] on an unsuccessful
    answer that is no client error (429 apart), or by a refused connection. *)
Theorem proxy_hop_exact (id origin : string) (send : Outgoing -> Sent) (lane : Lane) (req : Req)
    (logical : option string) (execution : option ExecutionAttemptHeaders) :
  let '(out, a) := proxy_attempt id send origin lane req logical execution in
  (o_method out = q_method req /\ o_body out = q_body req /\ o_url out = String.app origin (default "/"%string (q_path_query req)))
  /\ (forall n, get_all (o_headers out) n
        = match capability logical execution n with
          | Some values => values
          | None => if hop_header (q_headers req) n then [] else get_all (q_headers req) n
          end)
  /\ get_all (r_headers (response a)) EXECUTION_STATE_HEADER = []
  /\ get_all (r_headers (response a)) LOGICAL_REQUEST_ID_HEADER = []
  /\ (forall r, retry_reason a = Some r <->
        match send out with
        | Answered status headers _ builds =>
            builds = true /\ r = NotStarted /\ get_all headers EXECUTION_STATE_HEADER = [EXECUTION_STATE_NOT_STARTED]
            /\ ~ (200 <= status <= 299) /\ (~ (400 <= status <= 499) \/ status = 429)
        | SendFailed chain => r = ConnectionRefused /\ Some IoConnectionRefused ∈ chain
        | HeaderTimeout => False
        end).
Proof.
  unfold proxy_attempt. split; [done|]. split; [apply outgoing_headers|].
  assert (Hs : forall detail n, n = EXECUTION_STATE_HEADER \/ n = LOGICAL_REQUEST_ID_HEADER ->
            get_all (r_headers (upstream_unavailable id lane detail)) n = []).
  { intros detail n [-> | ->]; by destruct lane. }
  assert (Hp : forall s n, n = EXECUTION_STATE_HEADER \/ n = LOGICAL_REQUEST_ID_HEADER ->
            get_all (r_headers (response (attempt_of id lane s))) n = []).
  { intros [status headers body []|chain|] n Hn; cbn [attempt_of response r_headers]; [|by apply Hs..].
    rewrite get_all_public. by destruct Hn as [-> | ->]. }
  split; [by apply Hp; left|]. split; [by apply Hp; right|]. intros r. apply attempt_of_retry.
Qed.

(** C14: The hedged authentication preflight: under every timing of the probes
    and the hedge timer it ends within five events, starts no probe twice, always
    has a probe to wait for, accepts or rejects exactly on the first conclusive
    answer, and reports the authority unavailable exactly when all three planes
    answered inconclusively. *)
Theorem auth_preflight_exact (events : list HedgeEvent) (out : HedgeOut) :
  preflight_with_hedge events = Some out ->
  (length events <= 5)%nat
  /\ match out with
     | Running h => Forall inconclusive events /\ in_flight h <> [] /\ NoDup (omap done_of events ++ in_flight h)
     | Finished r => exists evs i o, events = evs ++ [ProbeDone i o] /\ Forall inconclusive evs
         /\ NoDup (omap done_of evs ++ [i])
         /\ match o with
            | PSuccess => r = Ok ()
            | PUnauthorized => r = Err Unauthorized
            | PInconclusive => r = Err AuthUnavailable /\ omap done_of evs ++ [i] ≡ₚ [0; 1; 2]%nat
            end
     end.
Proof.
  intros Hr. apply (hedge_run_inv _ _ _ _ hedge_start_inv) in Hr as [Hlen Hout]. cbn in Hlen. split; [lia|].
  assert (Hperm : forall (l : list nat) i, i :: reverse l ++ [] ≡ₚ l ++ [i]).
  { intros l i. rewrite app_nil_r, reverse_Permutation. apply Permutation_cons_append. }
  destruct out as [h|r].
  - destruct Hout as [Hf [Hp Hb Ha]]. split; [done|]. split; [done|].
    rewrite app_nil_r, reverse_Permutation in Hp. rewrite Permutation_app_comm, Hp. apply NoDup_seq.
  - destruct Hout as (evs & i & o & -> & Hf & Hn & Hi & Ho). exists evs, i, o. rewrite Hperm in Hn.
    split; [done|]. split; [done|]. split; [done|]. destruct o; [done..|]. by rewrite Hperm in Ho.
Qed.
Lemma auth_preflight_exact_witness :
  preflight_with_hedge [TimerFired; ProbeDone 1 PInconclusive; ProbeDone 0 PSuccess] = Some (Finished (Ok ()))
  /\ (3 <= 5)%nat.
Proof.
  split; [reflexivity|].
  refine (proj1 (auth_preflight_exact [TimerFired; ProbeDone 1 PInconclusive; ProbeDone 0 PSuccess] (Finished (Ok ())) eq_refl)).
Defined.
