(* ===== verification/RouterCatalog.v ===== *)
(** * The unified model catalogue ([crates/router/src/catalog.rs])

    Reading the catalogues of the four planes into entries, the per-plane cache
    with its single flight of refreshes, their aggregation, and the resolution of
    a requested model.  The JSON parser, the clock and the answers of the planes
    are arguments. *)
From S2P Require Import Prelude Text MeterUsage BodyStore Calendar RouterWire.
#[local] Open Scope Z_scope.

(** ** Planes *)
Definition NS_ANTHROPIC : string := "anthropic".
Definition NS_OPENAI : string := "openai".
Definition NS_GOOGLE : string := "google".
Definition NS_KIMI : string := "kimi".
Inductive Plane : Type := PlAnthropic | PlOpenAi | PlGemini | PlKimi.
#[global] Instance Plane_eq_dec : EqDecision Plane.
Proof. solve_decision. Defined.
Definition Plane_ALL : list Plane := [PlAnthropic; PlOpenAi; PlGemini; PlKimi].
Definition namespace (p : Plane) : string :=
  match p with PlAnthropic => NS_ANTHROPIC | PlOpenAi => NS_OPENAI | PlGemini => NS_GOOGLE | PlKimi => NS_KIMI end.
Definition plane_lane (p : Plane) : Lane :=
  match p with PlAnthropic | PlKimi => LAnthropic | PlOpenAi => LOpenAi | PlGemini => LGemini end.
Definition optional (p : Plane) : bool := bool_decide (p = PlKimi).
Definition index (p : Plane) : nat := match p with PlAnthropic => 0 | PlOpenAi => 1 | PlGemini => 2 | PlKimi => 3 end.
Definition slash : Ascii.ascii := Ascii.ascii_of_nat 47.
Definition dash : Ascii.ascii := Ascii.ascii_of_nat 45.
Definition namespace_lane (model : string) : option Lane :=
  '(prefix, native) ← split_once slash model;
  if bool_decide (native = EmptyString) then None
  else plane_lane <$> List.find (fun p => bool_decide (namespace p = prefix)) Plane_ALL.

(** ** Entries *)
Definition REASONING_EFFORTS : list string := ["none"; "minimal"; "low"; "medium"; "high"; "xhigh"; "max"]%string.
Definition ANTHROPIC_EFFORTS : list string := ["low"; "medium"; "high"; "xhigh"; "max"]%string.
Definition SERVICE_TIERS : list string := ["standard"; "priority"]%string.
Definition MODALITIES : list string := ["text"; "image"; "audio"; "video"; "pdf"]%string.
Definition MODEL_ENDPOINTS : list string := ["/v1/images/generations"; "/v1/images/edits"]%string.
Definition MIN_MODEL_CREATED : Z := 1577836800.
Definition MAX_MODEL_CREATED : Z := 4102444800.
Definition MAX_TOKEN_LIMIT : Z := u32_max.
Definition MAX_MODELS_PER_PLANE : Z := 1024.
Definition MAX_MODEL_STRING_BYTES : Z := 256.
Definition MAX_CATALOG_BODY_BYTES : Z := 4 * 1024 * 1024.

Record CatalogLimits := mkLimits { l_context : option Z; l_input : option Z; l_output : option Z }.
Record CatalogEntry := mkEntry {
  e_id : string; e_native_id : string; e_aliases : list string; e_display_name : option string; e_created : Z;
  e_endpoints : option (list string); e_limits : option CatalogLimits; e_reasoning_efforts : option (list string);
  e_service_tiers : option (list string); e_input_modalities : option (list string); e_output_modalities : option (list string);
  e_tool_calling : option bool; e_structured_outputs : option bool; e_reasoning : option bool; e_streaming : option bool }.

(** ** Reading JSON *)
Definition as_array (v : Value) : option (list Value) := match v with VArray l => Some l | _ => None end.
Definition as_bool (v : Value) : option bool := match v with VBool b => Some b | _ => None end.
Definition as_i64 (v : Value) : option Z :=
  match v with VNumber (PosInt z) => if z <=? i64_max then Some z else None | VNumber (NegInt z) => Some z | _ => None end.
(** [as_object]: the object itself, read with [get]. *)
Definition as_object (v : Value) : option Value := match v with VObject _ => Some v | _ => None end.
Definition bad {A} : result () A := Err ().
Definition need {A} (o : option A) : result () A := ok_or o ().

(** [chars().any(char::is_control)]: C0, DEL and, in two bytes, C1. *)
Fixpoint has_control (s : string) : bool :=
  match s with
  | EmptyString => false
  | String a s1 =>
      (byte_of a <? 32) || (byte_of a =? 127)
      || ((byte_of a =? 194) && match s1 with String b _ => byte_between 128 159 b | EmptyString => false end)
      || has_control s1
  end.
Definition bounded_model_id (value : option string) : result () (option string) :=
  match value with
  | None => Ok None
  | Some v =>
      if trim_is_empty v then Ok None
      else if negb (bool_decide (trim v = v)) || (MAX_MODEL_STRING_BYTES <? str_len v) || has_control v then bad
      else Ok (Some v)
  end.
Definition bounded_display_name (value : option string) : result () (option string) :=
  match value with
  | Some v =>
      if bool_decide (v = EmptyString) || negb (bool_decide (trim v = v)) || (MAX_MODEL_STRING_BYTES <? str_len v) || has_control v
      then bad else Ok (Some v)
  | None => Ok None
  end.
Definition namespaced_id (ns native : string) : result () string :=
  let id := String.app ns (String.app "/" native) in
  if str_len id <=? MAX_MODEL_STRING_BYTES then Ok id else bad.
Definition positive_limit (object : Value) (field : string) : result () (option Z) :=
  match get field object with
  | None => Ok None
  | Some v => match as_u64 v with Some z => if between 1 MAX_TOKEN_LIMIT z then Ok (Some z) else bad | None => bad end
  end.
(** The loop shared by [closed_list] and [parse_endpoints]: strings of a closed
    vocabulary, each at most once. *)
Fixpoint closed_values (allowed seen : list string) (values : list Value) : result () (list string) :=
  match values with
  | [] => Ok []
  | v :: values =>
      s ← need (as_str v);
      if negb (bool_decide (s ∈ allowed)) || bool_decide (s ∈ seen) then bad
      else rest ← closed_values allowed (s :: seen) values; Ok (s :: rest)
  end.
Definition closed_list (object : Value) (field : string) (allowed : list string) : result () (option (list string)) :=
  match get field object with
  | None => Ok None
  | Some v =>
      values ← need (as_array v);
      if bool_decide (length allowed < length values)%nat then bad
      else parsed ← closed_values allowed [] values; Ok (Some parsed)
  end.
Definition optional_bool (object : Value) (field : string) : result () (option bool) :=
  match get field object with None => Ok None | Some (VBool b) => Ok (Some b) | Some _ => bad end.
Definition in_model_range (t : Z) : bool := (MIN_MODEL_CREATED <=? t) && (t <? MAX_MODEL_CREATED).
Definition created_seconds (value : option Value) : result () Z :=
  created ← need (value >>? as_i64);
  if in_model_range created then Ok created else bad.
Definition parse_endpoints (apitoken : Value) : result () (option (list string)) :=
  match get "endpoints" apitoken with
  | None => Ok None
  | Some v =>
      values ← need (as_array v);
      if bool_decide (values = []) || bool_decide (length MODEL_ENDPOINTS < length values)%nat then bad
      else parsed ← closed_values MODEL_ENDPOINTS [] values; Ok (Some parsed)
  end.

Record OwnedMetadata := mkOwned {
  om_endpoints : option (list string); om_limits : option CatalogLimits; om_reasoning_efforts : option (list string);
  om_service_tiers : option (list string); om_input_modalities : option (list string); om_output_modalities : option (list string);
  om_tool_calling : option bool; om_structured_outputs : option bool; om_reasoning : option bool; om_streaming : option bool }.
Definition OwnedMetadata_default : OwnedMetadata := mkOwned None None None None None None None None None None.
Definition some_effort (efforts : list string) : bool := existsb (fun e => negb (bool_decide (e = "none"%string))) efforts.

Definition parse_limits (apitoken : Value) : result () (option CatalogLimits) :=
  match get "limits" apitoken with
  | None => Ok None
  | Some v =>
      v ← need (as_object v);
      context ← positive_limit v "context";
      input ← positive_limit v "input";
      output ← positive_limit v "output";
      if match context, input with Some c, Some i => c <? i | _, _ => false end then bad
      else Ok (if bool_decide (context = None) && bool_decide (input = None) && bool_decide (output = None)
               then None else Some (mkLimits context input output))
  end.
Definition parse_owned_metadata (model : Value) : result () OwnedMetadata :=
  match get "apitoken" model with
  | None => Ok OwnedMetadata_default
  | Some apitoken =>
      apitoken ← need (as_object apitoken);
      limits ← parse_limits apitoken;
      endpoints ← parse_endpoints apitoken;
      match get "capabilities" apitoken with
      | None => Ok (mkOwned endpoints limits None None None None None None None None)
      | Some v =>
          v ← need (as_object v);
          efforts ← closed_list v "reasoning_efforts" REASONING_EFFORTS;
          tiers ← closed_list v "service_tiers" SERVICE_TIERS;
          inputs ← closed_list v "input_modalities" MODALITIES;
          outputs ← closed_list v "output_modalities" MODALITIES;
          tools ← optional_bool v "tool_calling";
          structured ← optional_bool v "structured_outputs";
          explicit ← optional_bool v "reasoning";
          if bool_decide (explicit = Some false) && from_option some_effort false efforts then bad
          else
            let reasoning := match explicit with Some b => Some b | None => some_effort <$> efforts end in
            streaming ← optional_bool v "streaming";
            Ok (mkOwned endpoints limits efforts tiers inputs outputs tools structured reasoning streaming)
      end
  end.

(** ** Anthropic models *)
Fixpoint efforts_loop (effort : Value) (supported : bool) (levels : list string) : result () (list string) :=
  match levels with
  | [] => Ok []
  | level :: levels =>
      match get level effort with
      | None => efforts_loop effort supported levels
      | Some v =>
          match as_object v >>? get "supported" >>? as_bool with
          | None => bad
          | Some true =>
              if negb supported then bad
              else rest ← efforts_loop effort supported levels; Ok (level :: rest)
          | Some false => efforts_loop effort supported levels
          end
      end
  end.
Definition parse_anthropic_efforts (model : Value) : result () (option (list string)) :=
  match get "capabilities" model with
  | None => Ok None
  | Some capabilities =>
      capabilities ← need (as_object capabilities);
      match get "effort" capabilities with
      | None => Ok None
      | Some effort =>
          effort ← need (as_object effort);
          supported ← need (get "supported" effort >>? as_bool);
          parsed ← efforts_loop effort supported ANTHROPIC_EFFORTS;
          Ok (Some parsed)
      end
  end.

(** Release times.  A slice that does not end at a character boundary contains a
    byte that is no digit, so that cutting bytes and cutting characters lead to
    the same failure.  Division truncates. *)
Definition byte_at (s : string) (i : nat) : option Z := byte_of <$> String.get i s.
Definition number (s : string) (i j : nat) : option Z := parse_i64 (String.substring i (j - i) s).
Fixpoint fraction_end (s : string) (fuel i : nat) : nat :=
  match fuel with
  | O => i
  | S fuel => if from_option (between 48 57) false (byte_at s i) then fraction_end s fuel (S i) else i
  end.
Definition timezone_index (s : string) : option nat :=
  if bool_decide (byte_at s 19 = Some 46) then
    let i := fraction_end s (String.length s) 20 in
    if bool_decide (i = 20%nat) then None else Some i
  else Some 19%nat.
Definition zone_offset (s : string) (tz : nat) : option Z :=
  c ← byte_at s tz;
  if (c =? 90) && bool_decide (S tz = String.length s) then Some 0
  else if ((c =? 43) || (c =? 45)) && bool_decide ((tz + 6)%nat = String.length s) then
    if negb (bool_decide (byte_at s (tz + 3) = Some 58)) then None
    else
      hours ← number s (tz + 1) (tz + 3);
      minutes ← number s (tz + 4) (tz + 6);
      if (23 <? hours) || (59 <? minutes) then None
      else let seconds := hours * 3600 + minutes * 60 in Some (if c =? 43 then seconds else - seconds)
  else None.
Definition date_days (year month day : Z) : Z :=
  let adjusted_year := year - Z.b2z (month <=? 2) in
  let era := Z.quot (if 0 <=? adjusted_year then adjusted_year else adjusted_year - 399) 400 in
  let year_of_era := adjusted_year - era * 400 in
  let shifted_month := month + (if 2 <? month then -3 else 9) in
  let day_of_year := Z.quot (153 * shifted_month + 2) 5 + day - 1 in
  let day_of_era := year_of_era * 365 + Z.quot year_of_era 4 - Z.quot year_of_era 100 + day_of_year in
  era * 146097 + day_of_era - 719468.
Definition month_days (year month : Z) : option Z :=
  let leap := (Z.rem year 4 =? 0) && (negb (Z.rem year 100 =? 0) || (Z.rem year 400 =? 0)) in
  if one_of [1; 3; 5; 7; 8; 10; 12] month then Some 31
  else if one_of [4; 6; 9; 11] month then Some 30
  else if month =? 2 then Some (if leap then 29 else 28)
  else None.
Definition parse_rfc3339_seconds (s : string) : option Z :=
  if (str_len s <? 20)
     || negb (bool_decide (byte_at s 4 = Some 45)) || negb (bool_decide (byte_at s 7 = Some 45))
     || negb (bool_decide (byte_at s 10 = Some 84)) || negb (bool_decide (byte_at s 13 = Some 58))
     || negb (bool_decide (byte_at s 16 = Some 58))
  then None
  else
    year ← number s 0 4; month ← number s 5 7; day ← number s 8 10;
    hour ← number s 11 13; minute ← number s 14 16; second ← number s 17 19;
    dim ← month_days year month;
    if negb (between 1 dim day) || (23 <? hour) || (59 <? minute) || (59 <? second) then None
    else
      tz ← timezone_index s;
      offset ← zone_offset s tz;
      days ← checked_i64 (date_days year month day * 86400);
      local ← checked_i64 (days + (hour * 3600 + minute * 60 + second));
      seconds ← checked_i64 (local - offset);
      if in_model_range seconds then Some seconds else None.

Definition u16_max : Z := 65535.
Definition anthropic_adapter_efforts (model : string) : list string :=
  let all := ["low"; "medium"; "high"; "xhigh"; "max"]%string in
  match List.find (fun o => bool_decide (o <> None))
          (map (fun p => strip_prefix p model) ["claude-opus-"; "claude-sonnet-"; "claude-haiku-"; "claude-fable-"]%string) with
  | Some (Some version) =>
      match split dash version with
      | [] => []
      | major :: parts =>
          match parse_unsigned_max u16_max major with
          | None => []
          | Some major =>
              if 4 <? major then all
              else if major =? 4 then
                match parts with
                | [] => []
                | minor :: _ =>
                    if 2 <? str_len minor then []
                    else match parse_unsigned_max u16_max minor with
                         | Some n => if n =? 6 then ["low"; "medium"; "high"; "max"]%string else if 7 <=? n then all else []
                         | None => []
                         end
                end
              else []
          end
      end
  | _ => []
  end.
Definition anthropic_capability_supported (model : Value) (field : string) : result () (option bool) :=
  match get "capabilities" model with
  | None => Ok None
  | Some capabilities =>
      capabilities ← need (as_object capabilities);
      match get field capabilities with
      | None => Ok None
      | Some capability =>
          capability ← need (as_object capability);
          supported ← need (get "supported" capability >>? as_bool);
          Ok (Some supported)
      end
  end.
Definition anthropic_aliases (id : string) : list string :=
  id :: (if bool_decide (id = "claude-haiku-4-5-20251001"%string) then ["claude-haiku-4-5"]%string else []).

(** ** The four catalogues *)
Fixpoint no_repeat (seen l : list string) : bool :=
  match l with [] => true | x :: l => negb (bool_decide (x ∈ seen)) && no_repeat (x :: seen) l end.
Definition unique_plane_entries (entries : list CatalogEntry) : result () (list CatalogEntry) :=
  if no_repeat [] (map e_id entries) then Ok entries else bad.
(** [filter_map(..).collect::<ParseResult>()]: a model is skipped ([Ok None]),
    read, or fails the whole catalogue. *)
Fixpoint collect_entries (f : Value -> result () (option CatalogEntry)) (models : list Value) : result () (list CatalogEntry) :=
  match models with
  | [] => Ok []
  | m :: models => e ← f m; rest ← collect_entries f models; Ok (option_list e ++ rest)
  end.
Definition parse_models (models : option (list Value)) (f : Value -> result () (option CatalogEntry)) : result () (list CatalogEntry) :=
  models ← need models;
  if MAX_MODELS_PER_PLANE <? Z.of_nat (length models) then bad
  else entries ← collect_entries f models; unique_plane_entries entries.

Definition anthropic_entry (model : Value) : result () (option CatalogEntry) :=
  model ← need (as_object model);
  id ← bounded_model_id (get "id" model >>? as_str);
  match id with
  | None => Ok None
  | Some id =>
      created ← need (get "created_at" model >>? as_str >>? parse_rfc3339_seconds);
      input ← positive_limit model "max_input_tokens";
      output ← positive_limit model "max_tokens";
      let limits := if bool_decide (input = None) && bool_decide (output = None) then None else Some (mkLimits input input output) in
      native_efforts ← parse_anthropic_efforts model;
      image_input ← anthropic_capability_supported model "image_input";
      structured_outputs ← anthropic_capability_supported model "structured_outputs";
      reasoning ← anthropic_capability_supported model "thinking";
      nid ← namespaced_id NS_ANTHROPIC id;
      display_name ← bounded_display_name (get "display_name" model >>? as_str);
      let adapter := anthropic_adapter_efforts id in
      let efforts := match native_efforts with Some native => List.filter (fun e => bool_decide (e ∈ native)) adapter | None => adapter end in
      Ok (Some (mkEntry nid id (anthropic_aliases id) display_name created None limits (Some efforts) (Some ["standard"%string])
                  (Some (if bool_decide (image_input = Some true) then ["text"; "image"]%string else ["text"%string])) (Some ["text"%string])
                  (Some true) structured_outputs reasoning (Some true)))
  end.
Definition parse_anthropic (body : Value) : result () (list CatalogEntry) :=
  parse_models (get "data" body >>? as_array) anthropic_entry.

Definition kimi_entry (model : Value) : result () (option CatalogEntry) :=
  model ← need (as_object model);
  id ← bounded_model_id (get "id" model >>? as_str);
  match id with
  | None => Ok None
  | Some id =>
      nid ← namespaced_id NS_KIMI id;
      display_name ← bounded_display_name (get "display_name" model >>? as_str);
      created ← created_seconds (get "created" model);
      context ← positive_limit model "max_input_tokens";
      efforts ← closed_list model "reasoning_efforts" REASONING_EFFORTS;
      let image_input := get "image_input" model >>? as_bool in
      let video_input := negb (bool_decide (id = "k3-256k"%string)) in
      Ok (Some (mkEntry nid id [id] display_name created None ((fun c => mkLimits (Some c) (Some c) None) <$> context) efforts
                  (Some ["standard"%string])
                  (Some (if bool_decide (image_input = Some true)
                         then ["text"; "image"]%string ++ (if video_input then ["video"%string] else []) else ["text"%string]))
                  (Some ["text"%string]) (Some true) (get "structured_outputs" model >>? as_bool) (get "reasoning" model >>? as_bool) (Some true)))
  end.
Definition parse_kimi (body : Value) : result () (list CatalogEntry) :=
  parse_models (get "data" body >>? as_array) kimi_entry.

Definition owned_entry (ns : string) (id_of display_of : Value -> option string) (model : Value) : result () (option CatalogEntry) :=
  model ← need (as_object model);
  id ← bounded_model_id (id_of model);
  match id with
  | None => Ok None
  | Some id =>
      md ← parse_owned_metadata model;
      created ← created_seconds (get "created" model);
      nid ← namespaced_id ns id;
      display_name ← bounded_display_name (display_of model);
      Ok (Some (mkEntry nid id [id] display_name created (om_endpoints md) (om_limits md) (om_reasoning_efforts md) (om_service_tiers md)
                  (om_input_modalities md) (om_output_modalities md) (om_tool_calling md) (om_structured_outputs md) (om_reasoning md) (om_streaming md)))
  end.
Definition parse_owned_models (models : option (list Value)) (ns : string) (id_of display_of : Value -> option string)
    : result () (list CatalogEntry) :=
  parse_models models (owned_entry ns id_of display_of).
Definition parse_openai (body : Value) : result () (list CatalogEntry) :=
  parse_owned_models (get "data" body >>? as_array) NS_OPENAI
    (fun m => get "id" m >>? as_str) (fun m => get "name" m >>? as_str).
Definition parse_gemini (body : Value) : result () (list CatalogEntry) :=
  parse_owned_models (get "models" body >>? as_array) NS_GOOGLE
    (fun m => (fun name => default name (strip_prefix "models/" name)) <$> (get "name" m >>? as_str))
    (fun m => get "displayName" m >>? as_str).

Example rfc3339_offset : parse_rfc3339_seconds "2026-05-28T03:00:00.125+03:00" = Some 1779926400.
Proof. vm_compute. reflexivity. Qed.
(** [str::parse] accepts a sign in every two-digit field. *)
Example rfc3339_signed_fields : parse_rfc3339_seconds "2026-+5-28T-1:00:00Z" = Some 1779922800.
Proof. vm_compute. reflexivity. Qed.

(** ** Fetching one plane *)
Inductive FetchResult : Type := FEntries (entries : list CatalogEntry) | FAuthRejected | FFailed | FOversized.
Definition catalog_path (p : Plane) : string :=
  match p with
  | PlAnthropic => "/v1/models?limit=1000" | PlOpenAi => "/v1/models"
  | PlGemini => "/v1beta/models?pageSize=1000" | PlKimi => "/internal/router/catalog/kimi"
  end.
Definition parse_plane (p : Plane) (body : Value) : result () (list CatalogEntry) :=
  match p with PlAnthropic => parse_anthropic body | PlOpenAi => parse_openai body | PlGemini => parse_gemini body | PlKimi => parse_kimi body end.
Definition plane_models (p : Plane) (body : Value) : option (list Value) :=
  match p with PlGemini => get "models" body >>? as_array | _ => get "data" body >>? as_array end.
Definition fetch_plane (from_slice : list byte -> option Value) (p : Plane) (reply : option Reply) : FetchResult :=
  match reply with
  | None => FFailed
  | Some r =>
      if (rp_status r =? 401) || (rp_status r =? 403) then FAuthRejected
      else if negb (is_success (rp_status r)) then FFailed
      else match response_bytes MAX_CATALOG_BODY_BYTES (rp_length r) (rp_chunks r) with
           | Err Oversized => FOversized
           | Err Transport => FFailed
           | Ok bytes =>
               match from_slice bytes with
               | None => FFailed
               | Some body =>
                   if match plane_models p body with Some models => MAX_MODELS_PER_PLANE <? Z.of_nat (length models) | None => false end
                   then FOversized
                   else match parse_plane p body with
                        | Err _ => FFailed
                        | Ok entries => if bool_decide (length entries = 0%nat) && negb (bool_decide (p = PlKimi)) then FFailed else FEntries entries
                        end
               end
           end
  end.

(** ** The cache of one plane

    Callers of [plane_entries] run concurrently: each step is one critical
    section or one atomic access; [now] only grows; a caller may be dropped at
    an await point. *)
Inductive PlaneOutcome : Type := Fresh (e : list CatalogEntry) | Stale (e : list CatalogEntry) | AuthRejected | Missing.
Definition outcome_entries (o : PlaneOutcome) : option (list CatalogEntry) :=
  match o with Fresh e | Stale e => Some e | _ => None end.
Record PlaneCache := mkCache { c_entries : list CatalogEntry; c_fetched_at : Z }.
Record PlaneState := mkPlane { p_cache : option PlaneCache; p_holder : option nat; p_failed_generation : Z }.
(** [plane_ttl] in nanoseconds: [mul_f64] by 0.9, 1.0, 1.1, 1.2, exact to the
    nanosecond on the 30 seconds of production. *)
Definition CATALOG_TTL : Z := 30000000000.
Definition plane_ttl (p : Plane) : Z :=
  match p with PlAnthropic => CATALOG_TTL * 9 / 10 | PlOpenAi => CATALOG_TTL | PlGemini => CATALOG_TTL * 11 / 10 | PlKimi => CATALOG_TTL * 12 / 10 end.
Definition fresh (ttl now : Z) (st : PlaneState) : option PlaneCache :=
  match p_cache st with Some c => if now - c_fetched_at c <? ttl then Some c else None | None => None end.
Definition last_good (st : PlaneState) : PlaneOutcome :=
  match p_cache st with Some c => Stale (c_entries c) | None => Missing end.
Definition write (now : Z) (e : list CatalogEntry) (st : PlaneState) : PlaneState :=
  mkPlane (Some (mkCache e now)) (p_holder st) (p_failed_generation st).
(** [fetch_add] wraps at 64 bits. *)
Definition bump (st : PlaneState) : PlaneState :=
  mkPlane (p_cache st) (p_holder st) (wrap_u64 (p_failed_generation st + 1)).
Definition set_holder (st : PlaneState) (h : option nat) : PlaneState := mkPlane (p_cache st) h (p_failed_generation st).

(** Where a caller is: before its generation read, waiting for the refresh lock,
    holding it before the recheck, after the recheck, in flight, and back. *)
Inductive Caller : Type :=
| Looked | Waiting (observed : Z) | Holding (observed : Z) | Rechecked (observed : Z) | Fetching (since : Z) | Returned (o : PlaneOutcome).
(** One caller's next step, on a lock it may take; [now] is read by the step. *)
Definition caller_step (ttl now : Z) (i : nat) (st : PlaneState) (c : Caller) : option (PlaneState * Caller) :=
  match c with
  | Looked => Some (st, Waiting (p_failed_generation st))
  | Waiting g => match p_holder st with None => Some (set_holder st (Some i), Holding g) | Some _ => None end
  | Holding g => Some match fresh ttl now st with
                      | Some c => (set_holder st None, Returned (Fresh (c_entries c)))
                      | None => (st, Rechecked g)
                      end
  | Rechecked g => Some (if p_failed_generation st =? g then (st, Fetching now) else (set_holder st None, Returned (last_good st)))
  | Fetching _ | Returned _ => None
  end.
Definition caller_enter (ttl now : Z) (st : PlaneState) : Caller :=
  match fresh ttl now st with Some c => Returned (Fresh (c_entries c)) | None => Looked end.
(** The answer of the plane reaches the holder. *)
Definition fetch_done (now : Z) (r : FetchResult) (st : PlaneState) : PlaneState * Caller :=
  match r with
  | FEntries e => (set_holder (write now e st) None, Returned (Fresh e))
  | FAuthRejected => (set_holder st None, Returned AuthRejected)
  | FFailed | FOversized => let st := bump st in (set_holder st None, Returned (last_good st))
  end.
Definition drop_caller (i : nat) (st : PlaneState) : PlaneState :=
  if bool_decide (p_holder st = Some i) then set_holder st None else st.

(** History no step reads: the answers of the plane so far, when a caller entered
    and how many answers there were when it read the generation. *)
Record Call := mkCall { entered_at : Z; seen_log : nat }.
Record CacheWorld := mkCW { w_now : Z; w_plane : PlaneState; w_log : list (Z * FetchResult); w_callers : gmap nat (Caller * Call) }.
Definition looking (c : Caller) (log : list (Z * FetchResult)) (call : Call) : Call :=
  match c with Looked => mkCall (entered_at call) (length log) | _ => call end.
Inductive wstep (ttl : Z) : CacheWorld -> CacheWorld -> Prop :=
| w_tick n st log cs d : 0 <= d -> wstep ttl (mkCW n st log cs) (mkCW (n + d) st log cs)
| w_enter n st log cs i : cs !! i = None ->
    wstep ttl (mkCW n st log cs) (mkCW n st log (<[i := (caller_enter ttl n st, mkCall n (length log))]> cs))
| w_run n st log cs i c call st' c' : cs !! i = Some (c, call) -> caller_step ttl n i st c = Some (st', c') ->
    wstep ttl (mkCW n st log cs) (mkCW n st' log (<[i := (c', looking c log call)]> cs))
| w_answer n st log cs i since call r : cs !! i = Some (Fetching since, call) ->
    wstep ttl (mkCW n st log cs)
      (mkCW n (fetch_done n r st).1 (log ++ [(n, r)]) (<[i := ((fetch_done n r st).2, call)]> cs))
| w_drop n st log cs i c : cs !! i = Some c -> wstep ttl (mkCW n st log cs) (mkCW n (drop_caller i st) log (delete i cs)).
Definition cache_start (now : Z) : CacheWorld := mkCW now (mkPlane None None 0) [] ∅.

(** ** Aggregation and resolution *)
Record Aggregate := mkAggregate { a_entries : list (string * CatalogEntry); a_degraded : list string; a_auth_rejected : bool }.
Definition aggregate_step (a : Aggregate) (po : Plane * PlaneOutcome) : Aggregate :=
  let '(p, o) := po in
  let a := match o with
           | AuthRejected => mkAggregate (a_entries a) (a_degraded a) true
           | Stale _ => mkAggregate (a_entries a) (a_degraded a ++ [namespace p]) (a_auth_rejected a)
           | Missing => if optional p then a else mkAggregate (a_entries a) (a_degraded a ++ [namespace p]) (a_auth_rejected a)
           | Fresh _ => a
           end in
  match outcome_entries o with
  | Some e => mkAggregate (a_entries a ++ map (pair (namespace p)) e) (a_degraded a) (a_auth_rejected a)
  | None => a
  end.
Definition aggregate (outcome : Plane -> PlaneOutcome) : Aggregate :=
  foldl aggregate_step (mkAggregate [] [] false) (map (fun p => (p, outcome p)) Plane_ALL).

Fixpoint keep_first (seen : list string) (l : list (string * CatalogEntry)) : list (string * CatalogEntry) :=
  match l with
  | [] => []
  | x :: l => if bool_decide (e_id x.2 ∈ seen) then keep_first seen l else x :: keep_first (e_id x.2 :: seen) l
  end.
Definition with_aliases (e : CatalogEntry) (aliases : list string) : CatalogEntry :=
  mkEntry (e_id e) (e_native_id e) aliases (e_display_name e) (e_created e) (e_endpoints e) (e_limits e) (e_reasoning_efforts e)
    (e_service_tiers e) (e_input_modalities e) (e_output_modalities e) (e_tool_calling e) (e_structured_outputs e) (e_reasoning e) (e_streaming e).
Definition alias_counts (l : list (string * CatalogEntry)) (alias : string) : Z :=
  sumZ (fun x => Z.of_nat (length (List.filter (fun a => bool_decide (a = alias)) (e_aliases x.2)))) l.
Definition dedup (entries : list (string * CatalogEntry)) : list (string * CatalogEntry) :=
  let out := keep_first [] entries in
  let namespaced := map (fun x => e_id x.2) out in
  map (fun x => (x.1, with_aliases x.2 (List.filter (fun a => (alias_counts out a =? 1) && negb (bool_decide (a ∈ namespaced))) (e_aliases x.2)))) out.
Definition find (entries : list (string * CatalogEntry)) (requested : string) : option (string * CatalogEntry) :=
  match List.find (fun x => bool_decide (e_id x.2 = requested)) entries with
  | Some x => Some x
  | None => List.find (fun x => bool_decide (requested ∈ e_aliases x.2)) entries
  end.

(** ** Resolution *)
Lemma keep_first_spec l : forall seen,
  NoDup (map (fun x => e_id x.2) (keep_first seen l))
  /\ (forall x, x ∈ keep_first seen l -> x ∈ l /\ e_id x.2 ∉ seen)
  /\ (forall x, x ∈ l -> e_id x.2 ∉ seen -> exists y, y ∈ keep_first seen l /\ e_id y.2 = e_id x.2).
Proof.
  induction l as [|x l IH]; intros seen; cbn.
  { split; [constructor|]. split; intros y Hy; by apply elem_of_nil in Hy. }
  case_bool_decide as Hx.
  - destruct (IH seen) as (H1 & H2 & H3). split; [done|]. split; [set_solver|].
    intros y [->|Hy]%elem_of_cons Hn; [done|]. by apply H3.
  - destruct (IH (e_id x.2 :: seen)) as (H1 & H2 & H3). split; [|split].
    + cbn. constructor; [|done]. intros (y & Hy & Hy')%list_elem_of_fmap. apply H2 in Hy' as [_ Hn]. rewrite Hy in Hn. set_solver.
    + intros y [->|Hy]%elem_of_cons; [set_solver|]. apply H2 in Hy. set_solver.
    + intros y Hy Hn. destruct (decide (e_id y.2 = e_id x.2)) as [E|E]; [exists x; set_solver|].
      apply elem_of_cons in Hy as [->|Hy]; [done|]. destruct (H3 y Hy ltac:(set_solver)) as (z & Hz & Ez). exists z. set_solver.
Qed.

Lemma sumZ_two {A} (f : A -> Z) l x y : (forall z, 0 <= f z) -> x ∈ l -> y ∈ l -> x <> y -> f x + f y <= sumZ f l.
Proof.
  intros Hf Hx Hy Hne. apply elem_of_Permutation in Hx as (l1 & H1). rewrite H1 in Hy.
  apply elem_of_cons in Hy as [->|Hy]; [done|]. rewrite (sumZ_perm _ _ _ H1). cbn.
  pose proof (sumZ_elem_le f l1 y). cut (f y <= sumZ f l1); [lia|]. naive_solver.
Qed.

Definition named (requested : string) (x : string * CatalogEntry) : Prop :=
  e_id x.2 = requested \/ requested ∈ e_aliases x.2.
Lemma dedup_ids l : map (fun x => e_id x.2) (dedup l) = map (fun x => e_id x.2) (keep_first [] l).
Proof. unfold dedup. cbv zeta. rewrite map_map. done. Qed.
Lemma same_id_same l x y : NoDup (map (fun x : string * CatalogEntry => e_id x.2) l) -> x ∈ l -> y ∈ l -> e_id x.2 = e_id y.2 -> x = y.
Proof.
  intros Hn (i & Hi)%list_elem_of_lookup (j & Hj)%list_elem_of_lookup E.
  assert (i = j) as ->; [|congruence]. eapply (NoDup_lookup _ _ _ (e_id x.2)); [exact Hn|..]; rewrite list_lookup_fmap.
  - by rewrite Hi.
  - rewrite Hj. cbn. by rewrite E.
Qed.
(** At most one entry of a deduplicated catalogue answers to a name. *)
Lemma dedup_named_unique l r x y : x ∈ dedup l -> y ∈ dedup l -> named r x -> named r y -> x = y.
Proof.
  pose proof (keep_first_spec l []) as (Hn & _ & _). intros Hx Hy Nx Ny.
  apply (same_id_same (dedup l)); [by rewrite dedup_ids|done|done|].
  unfold dedup in Hx, Hy. cbv zeta in Hx, Hy. set (out := keep_first [] l) in *.
  apply list_elem_of_fmap in Hx as (x0 & -> & Hx), Hy as (y0 & -> & Hy). unfold named in *. cbn in *.
  rewrite !elem_of_lfilter, !andb_true_iff, !negb_true_iff, !bool_decide_eq_false, !Z.eqb_eq in Nx, Ny.
  assert (Hid : forall z, z ∈ out -> e_id z.2 ∈ map (fun x => e_id x.2) out) by (intros z Hz; apply list_elem_of_fmap; by exists z).
  destruct Nx as [<-|(Ax & Cx & Dx)], Ny as [E|(Ay & Cy & Dy)]; [done|..].
  - destruct Dy. by apply Hid.
  - subst r. destruct Dx. by apply Hid.
  - destruct (decide (e_id x0.2 = e_id y0.2)) as [E|E]; [done|]. assert (Hne : x0 <> y0) by congruence. exfalso. unfold alias_counts in Cx.
    set (f := fun z : string * CatalogEntry => _) in Cx.
    assert (Hpos : forall z, r ∈ e_aliases z.2 -> 1 <= f z).
    { intros z Hz. unfold f. assert (r ∈ List.filter (fun a => bool_decide (a = r)) (e_aliases z.2)) as Hf.
      { apply elem_of_lfilter. by rewrite bool_decide_eq_true. }
      destruct (List.filter _ _); [by apply elem_of_nil in Hf|]. cbn. lia. }
    pose proof (sumZ_two f out x0 y0 ltac:(intros; unfold f; lia) Hx Hy Hne).
    pose proof (Hpos x0 Ax). pose proof (Hpos y0 Ay). lia.
Qed.
Lemma list_find_elem {A} (p : A -> bool) l x : List.find p l = Some x -> x ∈ l /\ p x = true.
Proof. intros H. apply List.find_some in H. by rewrite <- list_elem_of_In in H. Qed.

(** ** Well-formed entries *)
Definition in_vocabulary (allowed : list string) (o : option (list string)) : Prop :=
  from_option (fun l => NoDup l /\ forall s, s ∈ l -> s ∈ allowed) True o.
Definition limit_ok (o : option Z) : Prop := from_option (fun z => 1 <= z <= MAX_TOKEN_LIMIT) True o.
Definition limits_ok (o : option CatalogLimits) : Prop :=
  from_option (fun l => limit_ok (l_context l) /\ limit_ok (l_input l) /\ limit_ok (l_output l)
    /\ ~ (l_context l = None /\ l_input l = None /\ l_output l = None)
    /\ (forall c i, l_context l = Some c -> l_input l = Some i -> i <= c)) True o.
Record entry_ok (ns : string) (e : CatalogEntry) : Prop := {
  ok_id : e_id e = String.app ns (String.app "/" (e_native_id e));
  ok_native : trim_is_empty (e_native_id e) = false /\ trim (e_native_id e) = e_native_id e /\ has_control (e_native_id e) = false;
  ok_length : str_len (e_id e) <= MAX_MODEL_STRING_BYTES;
  ok_alias : e_native_id e ∈ e_aliases e;
  ok_created : MIN_MODEL_CREATED <= e_created e < MAX_MODEL_CREATED;
  ok_display : from_option (fun n => n <> EmptyString /\ trim n = n /\ has_control n = false /\ str_len n <= MAX_MODEL_STRING_BYTES) True (e_display_name e);
  ok_limits : limits_ok (e_limits e);
  ok_endpoints : in_vocabulary MODEL_ENDPOINTS (e_endpoints e);
  ok_efforts : in_vocabulary REASONING_EFFORTS (e_reasoning_efforts e);
  ok_tiers : in_vocabulary SERVICE_TIERS (e_service_tiers e);
  ok_modalities : in_vocabulary MODALITIES (e_input_modalities e) /\ in_vocabulary MODALITIES (e_output_modalities e)
}.

Lemma need_Ok {A} (o : option A) a : need o = Ok a <-> o = Some a.
Proof. apply ok_or_Ok. Qed.
(** One read of the JSON tree: expose the value it returned. *)
Ltac read_step :=
  match goal with
  | H : mbind _ ?m = Ok _ |- _ => apply bind_Ok in H as (? & ? & H)
  | H : need _ = Ok _ |- _ => apply need_Ok in H
  | H : (if ?c then _ else _) = Ok _ |- _ => let E := fresh "C" in destruct c eqn:E; [try discriminate H|try discriminate H]
  | H : bad = Ok _ |- _ => discriminate H
  | H : match ?o with _ => _ end = Ok _ |- _ => let E := fresh "M" in destruct o eqn:E; try discriminate H
  end.
Ltac read := repeat (read_step; simplify_eq).

Lemma bounded_model_id_Ok v id : bounded_model_id v = Ok (Some id) ->
  v = Some id /\ trim_is_empty id = false /\ trim id = id /\ has_control id = false.
Proof.
  unfold bounded_model_id. intros H. read. rewrite !orb_false_iff, negb_false_iff, bool_decide_eq_true in C0. naive_solver.
Qed.
Lemma bounded_display_name_Ok v n : bounded_display_name v = Ok n ->
  from_option (fun n => n <> EmptyString /\ trim n = n /\ has_control n = false /\ str_len n <= MAX_MODEL_STRING_BYTES) True n.
Proof.
  unfold bounded_display_name. intros H. read; cbn; [|done].
  rewrite !orb_false_iff, negb_false_iff, bool_decide_eq_true, bool_decide_eq_false, Z.ltb_ge in C. naive_solver.
Qed.
Lemma namespaced_id_Ok ns native id : namespaced_id ns native = Ok id ->
  id = String.app ns (String.app "/" native) /\ str_len id <= MAX_MODEL_STRING_BYTES.
Proof. unfold namespaced_id. intros H. read. by apply Z.leb_le in C. Qed.
Lemma positive_limit_Ok v f o : positive_limit v f = Ok o -> limit_ok o.
Proof. unfold positive_limit. intros H. read; cbn; [|done]. by apply between_spec in C. Qed.
Lemma closed_values_Ok allowed l : forall seen r, closed_values allowed seen l = Ok r ->
  NoDup r /\ (forall s, s ∈ r -> s ∈ allowed /\ s ∉ seen).
Proof.
  induction l as [|v l IH]; intros seen r H; cbn in H.
  { simplify_eq. split; [constructor|]. by intros s ?%elem_of_nil. }
  read. apply IH in H1 as [Hn Hs]. rewrite orb_false_iff, negb_false_iff, bool_decide_eq_true, bool_decide_eq_false in C.
  destruct C as [C1 C2]. split; [constructor; [|done]; intros ?%Hs; set_solver|]. intros s [->|?%Hs]%elem_of_cons; set_solver.
Qed.
Lemma closed_list_Ok v f allowed o : closed_list v f allowed = Ok o -> in_vocabulary allowed o.
Proof.
  unfold closed_list. intros H. read; [|done]. apply closed_values_Ok in H1 as [? Hs]. split; [done|]. intros s ?%Hs. naive_solver.
Qed.
Lemma parse_endpoints_Ok v o : parse_endpoints v = Ok o -> in_vocabulary MODEL_ENDPOINTS o.
Proof.
  unfold parse_endpoints. intros H. read; [|done]. apply closed_values_Ok in H1 as [? Hs]. split; [done|]. intros s ?%Hs. naive_solver.
Qed.
Lemma in_model_range_spec z : in_model_range z = true <-> MIN_MODEL_CREATED <= z < MAX_MODEL_CREATED.
Proof. unfold in_model_range. rewrite andb_true_iff, Z.leb_le, Z.ltb_lt. done. Qed.
Lemma created_seconds_Ok v z : created_seconds v = Ok z -> MIN_MODEL_CREATED <= z < MAX_MODEL_CREATED.
Proof. unfold created_seconds. intros H. read. by apply in_model_range_spec. Qed.
Lemma parse_limits_Ok v o : parse_limits v = Ok o -> limits_ok o.
Proof.
  unfold parse_limits. intros H. destruct (get "limits" v); [|by simplify_eq]. read_step. read_step. rename x0 into context.
  apply bind_Ok in H as (input & Hi & H). apply bind_Ok in H as (output & Ho & H).
  apply positive_limit_Ok in H1, Hi, Ho. rename H1 into Hc.
  destruct (match context, input with Some c, Some i => c <? i | _, _ => false end) eqn:C; [done|].
  destruct (bool_decide (context = None) && bool_decide (input = None) && bool_decide (output = None)) eqn:D; simplify_eq; [done|].
  split; [exact Hc|]. split; [exact Hi|]. split; [exact Ho|]. cbn. split.
  - intros (-> & -> & ->). done.
  - intros c i -> ->. by apply Z.ltb_ge in C.
Qed.
Record owned_ok (md : OwnedMetadata) : Prop := {
  ow_limits : limits_ok (om_limits md); ow_endpoints : in_vocabulary MODEL_ENDPOINTS (om_endpoints md);
  ow_efforts : in_vocabulary REASONING_EFFORTS (om_reasoning_efforts md); ow_tiers : in_vocabulary SERVICE_TIERS (om_service_tiers md);
  ow_inputs : in_vocabulary MODALITIES (om_input_modalities md); ow_outputs : in_vocabulary MODALITIES (om_output_modalities md) }.
Lemma parse_owned_metadata_Ok v md : parse_owned_metadata v = Ok md -> owned_ok md.
Proof.
  unfold parse_owned_metadata. intros H. destruct (get "apitoken" v); [|by simplify_eq].
  do 4 read_step. apply parse_limits_Ok in H1. apply parse_endpoints_Ok in H2.
  destruct (get "capabilities" x); [|by simplify_eq]. read.
  split; first [assumption|eapply closed_list_Ok; eassumption].
Qed.
Lemma parse_rfc3339_range s z : parse_rfc3339_seconds s = Some z -> MIN_MODEL_CREATED <= z < MAX_MODEL_CREATED.
Proof.
  unfold parse_rfc3339_seconds. intros H. destruct (_ || _); [done|]. do 7 apply bind_Some in H as (? & _ & H).
  destruct (_ || _); [done|]. do 5 apply bind_Some in H as (? & _ & H).
  destruct (in_model_range _) eqn:E; simplify_eq. by apply in_model_range_spec.
Qed.
Lemma adapter_efforts_vocabulary m :
  NoDup (anthropic_adapter_efforts m) /\ forall s, s ∈ anthropic_adapter_efforts m -> s ∈ REASONING_EFFORTS.
Proof.
  assert (H : forall l, bool_decide (NoDup l) && forallb (fun s => bool_decide (s ∈ REASONING_EFFORTS)) l = true ->
    NoDup l /\ forall s, s ∈ l -> s ∈ REASONING_EFFORTS).
  { intros l [Hn Hl]%andb_true_iff. split; [by apply bool_decide_eq_true in Hn|]. rewrite forallb_forall in Hl.
    intros s Hs%list_elem_of_In. by apply Hl, bool_decide_eq_true in Hs. }
  apply H. unfold anthropic_adapter_efforts. repeat case_match; vm_compute; reflexivity.
Qed.
Lemma vocabulary_filter allowed l (p : string -> bool) :
  in_vocabulary allowed (Some l) -> in_vocabulary allowed (Some (List.filter p l)).
Proof.
  intros [Hn Hl]. split; [by apply NoDup_ListNoDup, List.NoDup_filter, NoDup_ListNoDup|]. intros s [Hs _]%elem_of_lfilter. by apply Hl.
Qed.
Ltac vocabulary := split; [apply (bool_decide_unpack _); by vm_compute|intros ? Hin; cbn in Hin; set_solver].
Lemma anthropic_entry_ok v e : anthropic_entry v = Ok (Some e) -> entry_ok NS_ANTHROPIC e.
Proof.
  unfold anthropic_entry. intros H. apply bind_Ok in H as (m & _ & H). apply bind_Ok in H as ([id|] & Hid & H); [|done].
  apply bounded_model_id_Ok in Hid as (_ & Hid).
  apply bind_Ok in H as (created & Hc & H). apply need_Ok in Hc.
  destruct (get "created_at" m >>? as_str) as [cs|] eqn:Ecs; [|done]. apply parse_rfc3339_range in Hc.
  apply bind_Ok in H as (input & Hi & H). apply bind_Ok in H as (output & Ho & H). apply positive_limit_Ok in Hi, Ho.
  cbv zeta in H. apply bind_Ok in H as (native & _ & H). apply bind_Ok in H as (image & _ & H).
  apply bind_Ok in H as (so & _ & H). apply bind_Ok in H as (th & _ & H).
  apply bind_Ok in H as (nid & Hn & H). apply namespaced_id_Ok in Hn as [Hn Hl].
  apply bind_Ok in H as (dn & Hd & H). apply bounded_display_name_Ok in Hd. injection H as <-.
  split; try assumption; try done.
  - set_solver.
  - destruct input as [i|], output as [o|]; cbn; try done; repeat split; cbn in *; try done; naive_solver.
  - pose proof (adapter_efforts_vocabulary id) as Hv. destruct native as [native|]; [|exact Hv]. by apply vocabulary_filter.
  - vocabulary.
  - split; [|vocabulary]. cbn [e_input_modalities]. case_bool_decide; vocabulary.
Qed.
Lemma kimi_entry_ok v e : kimi_entry v = Ok (Some e) -> entry_ok NS_KIMI e.
Proof.
  unfold kimi_entry. intros H. apply bind_Ok in H as (m & _ & H). apply bind_Ok in H as ([id|] & Hid & H); [|done].
  apply bounded_model_id_Ok in Hid as (_ & Hid).
  apply bind_Ok in H as (nid & Hn & H). apply namespaced_id_Ok in Hn as [Hn Hl].
  apply bind_Ok in H as (dn & Hd & H). apply bounded_display_name_Ok in Hd.
  apply bind_Ok in H as (created & Hc & H). apply created_seconds_Ok in Hc.
  apply bind_Ok in H as (context & Hi & H). apply positive_limit_Ok in Hi.
  apply bind_Ok in H as (efforts & He & H). apply closed_list_Ok in He. cbv zeta in H. injection H as <-.
  split; try assumption; try done.
  - set_solver.
  - destruct context; cbn; [|done]. repeat split; cbn in *; try done; naive_solver.
  - vocabulary.
  - split; [|vocabulary]. cbn [e_input_modalities]. case_bool_decide; [case_bool_decide|]; vocabulary.
Qed.
Lemma owned_entry_ok ns idf df v e : owned_entry ns idf df v = Ok (Some e) -> entry_ok ns e.
Proof.
  unfold owned_entry. intros H. apply bind_Ok in H as (m & _ & H). apply bind_Ok in H as ([id|] & Hid & H); [|done].
  apply bounded_model_id_Ok in Hid as (_ & Hid).
  apply bind_Ok in H as (md & Hm & H). apply parse_owned_metadata_Ok in Hm.
  apply bind_Ok in H as (created & Hc & H). apply created_seconds_Ok in Hc.
  apply bind_Ok in H as (nid & Hn & H). apply namespaced_id_Ok in Hn as [Hn Hl].
  apply bind_Ok in H as (dn & Hd & H). apply bounded_display_name_Ok in Hd. injection H as <-.
  destruct Hm. split; try assumption; try done. set_solver.
Qed.

Lemma no_repeat_spec l : forall seen, no_repeat seen l = true -> NoDup l /\ forall x, x ∈ l -> x ∉ seen.
Proof.
  induction l as [|x l IH]; intros seen; cbn; [intros _; split; [constructor|by intros ? ?%elem_of_nil]|].
  rewrite andb_true_iff, negb_true_iff, bool_decide_eq_false. intros [Hx Hl]. apply IH in Hl as [Hn Hs].
  split; [constructor; [intros ?%Hs; set_solver|done]|]. intros y [->|Hy%Hs]%elem_of_cons; set_solver.
Qed.
Lemma parse_models_ok ns f models entries :
  (forall v e, f v = Ok (Some e) -> entry_ok ns e) -> parse_models models f = Ok entries ->
  Forall (entry_ok ns) entries /\ NoDup (map e_id entries) /\ Z.of_nat (length entries) <= MAX_MODELS_PER_PLANE.
Proof.
  intros Hf. unfold parse_models. intros (l & _ & H)%bind_Ok. destruct (_ <? _) eqn:C; [done|]. apply Z.ltb_ge in C.
  apply bind_Ok in H as (es & Hes & H). unfold unique_plane_entries in H. destruct (no_repeat _ _) eqn:Hn; [|done]. simplify_eq.
  apply no_repeat_spec in Hn as [Hn _].
  assert (Hc : Forall (entry_ok ns) entries /\ (length entries <= length l)%nat); [|split; [apply Hc|split; [done|lia]]].
  clear -Hes Hf. revert entries Hes. induction l as [|m l IH]; intros entries Hes; cbn in Hes; [simplify_eq; split; [constructor|cbn; lia]|].
  apply bind_Ok in Hes as (e & He & Hes). apply bind_Ok in Hes as (rest & Hr & Hes). simplify_eq.
  apply IH in Hr as [H1 H2]. destruct e as [e|]; cbn; [|split; [done|lia]]. split; [constructor; [by eapply Hf|done]|lia].
Qed.

(** ** The cache under interleaving *)
Definition is_failure (x : Z * FetchResult) : bool := match x.2 with FFailed | FOversized => true | _ => false end.
Definition failures (log : list (Z * FetchResult)) : Z := Z.of_nat (length (List.filter is_failure log)).
(** The last success of a history. *)
Definition last_success (log : list (Z * FetchResult)) : option PlaneCache :=
  foldl (fun c x => match x.2 with FEntries e => Some (mkCache e x.1) | _ => c end) None log.
Definition newer (log : list (Z * FetchResult)) (call : Call) : list (Z * FetchResult) := drop (seen_log call) log.
Definition failed_since (log : list (Z * FetchResult)) (call : Call) : Prop := exists x, x ∈ newer log call /\ is_failure x = true.
(** What an answer tells about the history. *)
Definition outcome_justified (ttl : Z) (log : list (Z * FetchResult)) (call : Call) (o : PlaneOutcome) : Prop :=
  match o with
  | Fresh e => exists t, (t, FEntries e) ∈ log /\ entered_at call - t < ttl
  | Stale e => (exists t, (t, FEntries e) ∈ log) /\ failed_since log call
  | Missing => (forall t e, (t, FEntries e) ∉ take (seen_log call) log) /\ failed_since log call
  | AuthRejected => exists t, (t, FAuthRejected) ∈ newer log call
  end.
Definition holds (c : Caller) : bool := match c with Holding _ | Rechecked _ | Fetching _ => true | _ => false end.
Definition caller_ok (ttl : Z) (log : list (Z * FetchResult)) (c : Caller) (call : Call) : Prop :=
  let seen := wrap_u64 (failures (take (seen_log call) log)) in
  match c with
  | Looked => True
  | Waiting g | Holding g | Rechecked g => g = seen
  | Fetching _ => wrap_u64 (failures log) = seen
  | Returned o => outcome_justified ttl log call o
  end.
Record cache_inv (ttl : Z) (w : CacheWorld) : Prop := {
  ci_cache : p_cache (w_plane w) = last_success (w_log w);
  ci_generation : p_failed_generation (w_plane w) = wrap_u64 (failures (w_log w));
  ci_times : forall x, x ∈ w_log w -> x.1 <= w_now w;
  ci_calls : forall i c call, w_callers w !! i = Some (c, call) ->
    (seen_log call <= length (w_log w))%nat /\ entered_at call <= w_now w
    /\ (holds c = true <-> p_holder (w_plane w) = Some i) /\ caller_ok ttl (w_log w) c call;
  ci_holder : forall i, p_holder (w_plane w) = Some i -> is_Some (w_callers w !! i)
}.

Lemma last_success_snoc log x : last_success (log ++ [x]) = match x.2 with FEntries e => Some (mkCache e x.1) | _ => last_success log end.
Proof. unfold last_success. by rewrite foldl_app. Qed.
Lemma last_success_in log c : last_success log = Some c -> (c_fetched_at c, FEntries (c_entries c)) ∈ log.
Proof.
  induction log as [|[t r] log IH] using rev_ind; [done|]. rewrite last_success_snoc. cbn.
  destruct r; intros H; simplify_eq/=; set_solver.
Qed.
Lemma last_success_None log : last_success log = None -> forall t e, (t, FEntries e) ∉ log.
Proof.
  induction log as [|[t r] log IH] using rev_ind; [intros _ t e; apply not_elem_of_nil|]. rewrite last_success_snoc. cbn.
  intros H t' e. destruct r; [done|..]; rewrite not_elem_of_app; (split; [by apply IH|set_solver]).
Qed.
Lemma failures_app l k : failures (l ++ k) = failures l + failures k.
Proof. unfold failures. rewrite List.filter_app, length_app. lia. Qed.
Lemma failures_nonneg l : 0 <= failures l.
Proof. unfold failures. lia. Qed.
Lemma failures_pos l : failures l <> 0 <-> exists x, x ∈ l /\ is_failure x = true.
Proof.
  unfold failures. split.
  - intros H. destruct (List.filter is_failure l) as [|x k] eqn:E; [done|]. exists x. apply elem_of_lfilter. rewrite E. set_solver.
  - intros (x & Hx). apply elem_of_lfilter in Hx. destruct (List.filter is_failure l); [by apply elem_of_nil in Hx|].
    cbn. lia.
Qed.
Lemma failures_split log call : failures log = failures (take (seen_log call) log) + failures (newer log call).
Proof. unfold newer. by rewrite <- failures_app, take_drop. Qed.
(** A generation that moved since a caller looked betrays a failure since then. *)
Lemma generation_moved log call : wrap_u64 (failures log) <> wrap_u64 (failures (take (seen_log call) log)) -> failed_since log call.
Proof.
  intros H. apply failures_pos. intros E. apply H. by rewrite (failures_split log call), E, Z.add_0_r.
Qed.
(** Later answers keep what earlier ones justified. *)
Lemma newer_snoc log x call : (seen_log call <= length log)%nat -> newer (log ++ [x]) call = newer log call ++ [x].
Proof. intros H. unfold newer. by rewrite drop_app_le. Qed.
Lemma take_snoc_le (log : list (Z * FetchResult)) x n : (n <= length log)%nat -> take n (log ++ [x]) = take n log.
Proof. intros H. by rewrite take_app_le. Qed.
Lemma outcome_justified_snoc ttl log x call o : (seen_log call <= length log)%nat ->
  outcome_justified ttl log call o -> outcome_justified ttl (log ++ [x]) call o.
Proof.
  intros Hn. unfold outcome_justified, failed_since. rewrite newer_snoc, take_snoc_le by done. destruct o; set_solver.
Qed.
Lemma justified_fresh ttl now log st call c : p_cache st = last_success log -> fresh ttl now st = Some c -> entered_at call <= now ->
  outcome_justified ttl log call (Fresh (c_entries c)).
Proof.
  unfold fresh. intros Hc Hf Hnow. rewrite Hc in Hf. destruct (last_success log) as [c'|] eqn:E; [|done].
  destruct (Z.ltb_spec (now - c_fetched_at c') ttl); [|done]. simplify_eq. apply last_success_in in E. exists (c_fetched_at c). split; [done|lia].
Qed.
Lemma justified_last_good ttl log st call : p_cache st = last_success log -> failed_since log call ->
  outcome_justified ttl log call (last_good st).
Proof.
  unfold last_good. intros -> Hf. destruct (last_success log) as [c|] eqn:E; cbn.
  - split; [|done]. exists (c_fetched_at c). by apply last_success_in.
  - split; [|done]. intros t e Hin. apply (last_success_None _ E t e). rewrite <- (take_drop (seen_log call) log). set_solver.
Qed.

(** Steps of one caller leave the others' claims on the lock as they were. *)
Lemma caller_step_holder ttl now i st c st' c' : caller_step ttl now i st c = Some (st', c') ->
  (holds c = true <-> p_holder st = Some i) ->
  (holds c' = true <-> p_holder st' = Some i) /\ (forall j, j <> i -> p_holder st' = Some j <-> p_holder st = Some j)
  /\ p_cache st' = p_cache st /\ p_failed_generation st' = p_failed_generation st.
Proof.
  destruct st as [cache holder gen]. intros H Hh. destruct c; cbn in *; try done; repeat (case_match; simplify_eq/=); try done;
    repeat split; intros; try done; naive_solver.
Qed.
Lemma caller_step_ok ttl now log i st c call st' c' :
  p_cache st = last_success log -> p_failed_generation st = wrap_u64 (failures log) -> entered_at call <= now ->
  caller_ok ttl log c call -> caller_step ttl now i st c = Some (st', c') -> caller_ok ttl log c' (looking c log call).
Proof.
  intros Hc Hg Hnow Hok. destruct c as [|g|g|g|since|o]; cbn in *; intros H; try done.
  - simplify_eq/=. rewrite Hg. by rewrite firstn_all.
  - destruct (p_holder st); by simplify_eq.
  - destruct (fresh ttl now st) as [c|] eqn:Ef; simplify_eq; [|done]. by eapply justified_fresh.
  - rewrite Hg in H. destruct (Z.eqb_spec (wrap_u64 (failures log)) g) as [E|E]; simplify_eq; [congruence|].
    apply justified_last_good; [done|]. by apply generation_moved.
Qed.
Lemma fetch_done_holder n r st : p_holder (fetch_done n r st).1 = None /\ holds (fetch_done n r st).2 = false.
Proof. by destruct r. Qed.
Lemma fetch_done_ok ttl n r st log call : 0 < ttl -> entered_at call <= n -> (seen_log call <= length log)%nat ->
  p_cache st = last_success log -> p_failed_generation st = wrap_u64 (failures log) ->
  let st' := (fetch_done n r st).1 in let log' := log ++ [(n, r)] in
  p_cache st' = last_success log' /\ p_failed_generation st' = wrap_u64 (failures log') /\ caller_ok ttl log' (fetch_done n r st).2 call.
Proof.
  intros Ht Hn Hs Hc Hg st' log'. assert (Hin : (n, r) ∈ newer log' call) by (unfold log'; rewrite newer_snoc by done; set_solver).
  assert (Hin' : (n, r) ∈ log') by (unfold log'; set_solver).
  assert (Hcache : p_cache st' = last_success log') by (unfold st', log'; rewrite last_success_snoc; by destruct r).
  split; [done|]. assert (Hf : failures log' = failures log + (if is_failure (n, r) then 1 else 0)).
  { unfold log'. rewrite failures_app. by destruct r. }
  split; [rewrite Hf; unfold st'; destruct r; cbn; rewrite Hg, ?Z.add_0_r; try done; unfold wrap_u64; by rewrite Zplus_mod_idemp_l|].
  destruct r; cbn.
  - exists n. split; [done|lia].
  - by exists n.
  - apply justified_last_good; [exact Hcache|]. by exists (n, FFailed).
  - apply justified_last_good; [exact Hcache|]. by exists (n, FOversized).
Qed.

Lemma wstep_inv ttl w w' : 0 < ttl -> wstep ttl w w' -> cache_inv ttl w -> cache_inv ttl w'.
Proof.
  intros Ht Hs [Hc Hg Htm Hcs Hh]. destruct Hs as [n st log cs d Hd|n st log cs i Hi|n st log cs i c call st' c' Hi Hst|n st log cs i since call r Hi|n st log cs i [c call] Hi];
    cbn [w_now w_plane w_log w_callers] in *.
  - split; cbn; try done; [intros x Hx; apply Htm in Hx; lia|]. intros i c call H. apply Hcs in H. split; [apply H|]. split; [lia|apply H].
  - split; cbn; try done.
    + intros j c call [[<- [= <- <-]]|[_ Hj]]%lookup_insert_Some; [|by apply Hcs]. cbn. split; [done|]. split; [done|].
      assert (Hn : p_holder st <> Some i) by (intros [? Hx]%Hh; congruence).
      unfold caller_enter. destruct (fresh ttl n st) eqn:Ef; cbn; (split; [naive_solver|]); [|done].
      exact (justified_fresh ttl n log st (mkCall n (length log)) _ Hc Ef (Z.le_refl n)).
    + intros j Hj. destruct (decide (i = j)) as [->|]; [rewrite lookup_insert_eq; by eexists|rewrite lookup_insert_ne by done; by apply Hh].
  - destruct (Hcs _ _ _ Hi) as (Hl & He & Hb & Ho).
    pose proof (caller_step_ok _ _ _ _ _ _ _ _ _ Hc Hg He Ho Hst) as Hok.
    destruct (caller_step_holder _ _ _ _ _ _ _ Hst Hb) as (Hb' & Hoth & Ec & Eg). split; cbn; [by rewrite Ec|by rewrite Eg|done|..].
    + intros j c1 call1 [[<- [= <- <-]]|[Hne Hj]]%lookup_insert_Some.
      * split; [destruct c; cbn; lia|]. split; [by destruct c|]. done.
      * rewrite (Hoth j) by done. by apply Hcs.
    + intros j Hj. destruct (decide (i = j)) as [->|Hne]; [rewrite lookup_insert_eq; by eexists|].
      rewrite lookup_insert_ne by done. apply Hh. by apply Hoth.
  - destruct (Hcs _ _ _ Hi) as (Hl & He & Hb & _). assert (Hholder : p_holder st = Some i) by (by apply Hb).
    destruct (fetch_done_ok ttl n r st log call Ht He Hl Hc Hg) as (Hc' & Hg' & Hok).
    destruct (fetch_done_holder n r st) as [Hn Hf]. split; cbn; [exact Hc'|exact Hg'|..].
    + intros x [Hx| ->%list_elem_of_singleton]%elem_of_app; [by apply Htm|]. cbn. lia.
    + intros j c1 call1 [[<- [= <- <-]]|[Hne Hj]]%lookup_insert_Some; rewrite length_app, Hn.
      * split; [lia|]. split; [done|]. split; [rewrite Hf; naive_solver|done].
      * destruct (Hcs _ _ _ Hj) as (Hl1 & He1 & Hb1 & Ho1). split; [lia|]. split; [done|].
        rewrite Hholder in Hb1. assert (holds c1 = false) as Hf1 by (destruct (holds c1); naive_solver). split; [rewrite Hf1; naive_solver|].
        unfold caller_ok in *. rewrite take_snoc_le by done.
        destruct c1; try done. by apply outcome_justified_snoc.
    + intros j. by rewrite Hn.
  - split; cbn; try done.
    + unfold drop_caller. by case_bool_decide.
    + unfold drop_caller. by case_bool_decide.
    + intros j c1 call1 [Hne Hj]%lookup_delete_Some. destruct (Hcs _ _ _ Hj) as (? & ? & Hb & ?). do 2 (split; [done|]). split; [|done].
      rewrite Hb. unfold drop_caller. case_bool_decide as E; cbn; [rewrite E; naive_solver|done].
    + intros j. unfold drop_caller. case_bool_decide as E; cbn; [done|]. intros Hj. rewrite lookup_delete_ne by congruence. by apply Hh.
Qed.
Lemma cache_start_inv ttl now : cache_inv ttl (cache_start now).
Proof. split; cbn; try done. intros x Hx. by apply elem_of_nil in Hx. Qed.

(** The router's release dates agree with the calendar of the lifecycle
    component on every valid date of the four-digit years. *)
Theorem date_days_calendar (y m d : Z) : -9999 <= y <= 9999 -> valid_date y m d -> days_from_civil y m d = Some (date_days y m d).
Proof.
  intros Hy [Hm Hd]. unfold days_from_civil. assert (Hmd : days_in_month y m <= 31) by (apply (dim_pos y m Hm)).
  rewrite (proj2 (Z.leb_le 1 m)), (proj2 (Z.leb_le m 12)), (proj2 (Z.eqb_neq d 0)), (proj2 (Z.ltb_ge (days_in_month y m) d)) by lia. cbn [negb andb orb].
  assert (Hq : forall a, 0 <= a -> Z.quot a 4 = a / 4 /\ Z.quot a 100 = a / 100 /\ Z.quot a 5 = a / 5 /\ Z.quot a 400 = a / 400).
  { intros a Ha. rewrite !Z.quot_div_nonneg by lia. done. }
  assert (Hera : forall a, Z.quot (if 0 <=? a then a else a - 399) 400 = a / 400).
  { intros a. destruct (Z.leb_spec 0 a); [by apply Hq|].
    replace (a - 399) with (- (399 - a)) by lia. rewrite Z.quot_opp_l, Z.quot_div_nonneg by lia. div_mod_lia. }
  unfold date_days. rewrite Hera, wrap_i128_id by (unfold is_i128; destruct (m <=? 2); cbn; width_lia).
  set (a := y - Z.b2z (m <=? 2)). assert (Ha : -10000 <= a <= 9999) by (unfold a; destruct (m <=? 2); cbn; lia).
  set (yoe := a - a / 400 * 400). assert (Hyoe : 0 <= yoe <= 399) by (unfold yoe; div_mod_lia).
  assert (Hera' : -25 <= a / 400 <= 24) by div_mod_lia.
  set (sm := m + (if 2 <? m then -3 else 9)). assert (Hsm : 0 <= sm <= 11) by (unfold sm; destruct (Z.ltb_spec 2 m); lia).
  destruct (Hq yoe ltac:(lia)) as (-> & -> & _). destruct (Hq (153 * sm + 2) ltac:(lia)) as (_ & _ & -> & _).
  assert (0 <= (153 * sm + 2) / 5 <= 337) by div_mod_lia. assert (0 <= yoe / 4 <= 99 /\ 0 <= yoe / 100 <= 3) by div_mod_lia.
  rewrite !checked_i128_in by (unfold is_i128; width_lia). cbn. rewrite checked_i128_in by (unfold is_i128; width_lia). cbn.
  rewrite checked_i128_in by (unfold is_i128, UNIX_EPOCH_DAY_OFFSET; width_lia). f_equal.
Qed.
Lemma date_days_calendar_witness : valid_date 2026 2 28 /\ days_from_civil 2026 2 28 = Some (date_days 2026 2 28).
Proof. assert (H : valid_date 2026 2 28) by (split; vm_compute; split; discriminate). split; [exact H|]. apply date_days_calendar; [lia|exact H]. Defined.

(** ** Theorems *)
(** A deduplicated catalogue resolves a requested name exactly to the
    one entry that carries it as its namespaced identifier or as an alias: no
    name is ambiguous, no identifier is lost, and nothing else is found. *)
Theorem catalog_resolution_exact (entries : list (string * CatalogEntry)) (requested : string) :
  (forall x, find (dedup entries) requested = Some x <-> x ∈ dedup entries /\ named requested x)
  /\ NoDup (map (fun x => e_id x.2) (dedup entries))
  /\ (forall x, x ∈ entries -> exists y, y ∈ dedup entries /\ e_id y.2 = e_id x.2)
  /\ (forall y, y ∈ dedup entries -> exists x, x ∈ entries /\ y.1 = x.1 /\ e_id y.2 = e_id x.2 /\ e_native_id y.2 = e_native_id x.2).
Proof.
  destruct (keep_first_spec entries []) as (Hn & Hin & Hall). split; [|split; [by rewrite dedup_ids|split]].
  - intros x. unfold find.
    destruct (List.find (fun x => bool_decide (e_id x.2 = requested)) (dedup entries)) as [y|] eqn:E1;
      [|destruct (List.find (fun x => bool_decide (requested ∈ e_aliases x.2)) (dedup entries)) as [y|] eqn:E2].
    + apply list_find_elem in E1 as [Hy Ey%bool_decide_eq_true]. split; [intros [= <-]; by split; [|left]|].
      intros [Hx Hnx]. f_equal. eapply dedup_named_unique; eauto. by left.
    + apply list_find_elem in E2 as [Hy Ey%bool_decide_eq_true]. split; [intros [= <-]; by split; [|right]|].
      intros [Hx Hnx]. f_equal. eapply dedup_named_unique; eauto. by right.
    + split; [done|]. intros [Hx%list_elem_of_In [Hid|Ha]].
      * by apply (List.find_none _ _ E1), bool_decide_eq_false in Hx.
      * by apply (List.find_none _ _ E2), bool_decide_eq_false in Hx.
  - intros x Hx. destruct (Hall x Hx ltac:(set_solver)) as (y & Hy & Ey).
    assert (Hm : e_id y.2 ∈ map (fun x => e_id x.2) (dedup entries)) by (rewrite dedup_ids; apply list_elem_of_fmap; by exists y).
    apply list_elem_of_fmap in Hm as (z & Ez & Hz). exists z. split; [done|congruence].
  - intros y Hy. unfold dedup in Hy. apply list_elem_of_fmap in Hy as (x & -> & Hx). exists x. apply Hin in Hx as [? _]. done.
Qed.

(** C15: Whatever a plane answers, the entries the router accepts are well
    formed: identifiers are the plane's namespace and a clean, bounded native
    name, distinct and reachable by that name, release times and token limits are in
    range and consistent, and every list is over its closed vocabulary without
    repetition; an empty list is accepted from the optional plane only. *)
Theorem catalog_entries_well_formed (from_slice : list byte -> option Value) (p : Plane) (reply : option Reply) (entries : list CatalogEntry) :
  fetch_plane from_slice p reply = FEntries entries ->
  Forall (entry_ok (namespace p)) entries /\ NoDup (map e_id entries)
  /\ Z.of_nat (length entries) <= MAX_MODELS_PER_PLANE /\ (entries = [] -> p = PlKimi).
Proof.
  unfold fetch_plane. intros H. destruct reply as [r|]; [|done]. destruct (_ || _); [done|]. destruct (negb _); [done|].
  destruct (response_bytes _ _ _) as [bytes|[]]; [|done..]. destruct (from_slice bytes) as [body|]; [|done].
  destruct (match plane_models p body with Some models => _ | None => _ end); [done|].
  destruct (parse_plane p body) as [es|] eqn:E; [|done]. destruct (_ && _) eqn:C; [done|]. injection H as ->.
  assert (Hp : Forall (entry_ok (namespace p)) entries /\ NoDup (map e_id entries) /\ Z.of_nat (length entries) <= MAX_MODELS_PER_PLANE).
  { destruct p; cbn in E; (eapply parse_models_ok; [|exact E]); intros v e;
      [apply anthropic_entry_ok|apply owned_entry_ok|apply owned_entry_ok|apply kimi_entry_ok]. }
  destruct Hp as (? & ? & ?). do 3 (split; [done|]). intros ->. by destruct p.
Qed.
Definition demo_model : Value :=
  VObject [("id", VString "k3"); ("created", VNumber (PosInt 1700000000)); ("max_input_tokens", VNumber (PosInt 262144))]%string.
Definition demo_reply : option Reply := Some (mkReply 200 None [CEnd]).
Definition demo_slice (b : list byte) : option Value := Some (VObject [("data"%string, VArray [demo_model])]).
Lemma catalog_entries_well_formed_witness : exists e, fetch_plane demo_slice PlKimi demo_reply = FEntries [e]
  /\ e_id e = "kimi/k3"%string /\ NoDup (map e_id [e]).
Proof.
  eexists. assert (H : fetch_plane demo_slice PlKimi demo_reply = FEntries [_]) by (vm_compute; reflexivity).
  split; [exact H|]. split; [reflexivity|].
  exact (proj1 (proj2 (catalog_entries_well_formed demo_slice PlKimi demo_reply _ H))).
Defined.

(** C10: The catalogue cache under every interleaving of callers, answers and
    cancellations: at most one refresh of a plane is in flight; the cache is the
    last success, which no failure, rejection or cancellation takes away; a fresh
    answer is younger than the plane's lifetime; a stale or missing one follows a
    failed refresh that ended while the caller waited, and nobody who waited for
    a failed refresh starts another. *)
Theorem catalog_cache_exact (ttl now : Z) (w : CacheWorld) :
  0 < ttl -> rtc (wstep ttl) (cache_start now) w ->
  p_cache (w_plane w) = last_success (w_log w)
  /\ (forall i j s t ci cj, w_callers w !! i = Some (Fetching s, ci) -> w_callers w !! j = Some (Fetching t, cj) -> i = j)
  /\ (forall i o call, w_callers w !! i = Some (Returned o, call) -> outcome_justified ttl (w_log w) call o)
  /\ (failures (w_log w) <= u64_max ->
      forall i since call, w_callers w !! i = Some (Fetching since, call) -> ~ failed_since (w_log w) call).
Proof.
  intros Ht Hr. assert (HI : cache_inv ttl w).
  { refine (rtc_invariant (wstep ttl) (cache_inv ttl) (cache_start now) w (cache_start_inv _ _) (fun a b => wstep_inv ttl a b Ht) Hr). }
  destruct HI as [Hc Hg Htm Hcs Hh]. split; [done|]. split; [|split].
  - intros i j s t ci cj Hi Hj. apply Hcs in Hi as (_ & _ & Hi & _), Hj as (_ & _ & Hj & _).
    pose proof (proj1 Hi eq_refl). pose proof (proj1 Hj eq_refl). congruence.
  - intros i o call Hi. by apply Hcs in Hi as (_ & _ & _ & Hi).
  - intros Hf i since call Hi. apply Hcs in Hi as (_ & _ & _ & Hi). cbn in Hi. unfold failed_since. rewrite <- failures_pos.
    pose proof (failures_split (w_log w) call) as Hs. pose proof (failures_nonneg (take (seen_log call) (w_log w))).
    pose proof (failures_nonneg (newer (w_log w) call)). rewrite !wrap_u64_id in Hi by (unfold is_u64; lia). lia.
Qed.
Definition demo_cache : CacheWorld := mkCW 5 (mkPlane None (Some 7%nat) 0) [] {[ 7%nat := (Fetching 5, mkCall 5 0) ]}.
Lemma demo_cache_reachable : rtc (wstep 10) (cache_start 5) demo_cache.
Proof.
  eapply rtc_l; [apply (w_enter 10 5 _ _ _ 7); reflexivity|].
  eapply rtc_l; [eapply (w_run 10 5 _ _ _ 7); [apply lookup_insert_eq|reflexivity]|].
  eapply rtc_l; [eapply (w_run 10 5 _ _ _ 7); [apply lookup_insert_eq|reflexivity]|].
  eapply rtc_l; [eapply (w_run 10 5 _ _ _ 7); [apply lookup_insert_eq|reflexivity]|].
  eapply rtc_l; [eapply (w_run 10 5 _ _ _ 7); [apply lookup_insert_eq|reflexivity]|].
  cbn. rewrite !insert_insert_eq. apply rtc_refl.
Qed.
Lemma catalog_cache_exact_witness : 0 < 10 /\ ~ failed_since (w_log demo_cache) (mkCall 5 0).
Proof.
  split; [lia|]. destruct (catalog_cache_exact 10 5 demo_cache ltac:(lia) demo_cache_reachable) as (_ & _ & _ & H).
  refine (H _ 7%nat 5 _ _); [by vm_compute|apply lookup_insert_eq].
Defined.
