(* ===== verification/RouterPolicy.v ===== *)
(** * Routing selectors, provider preferences and the account-policy preflight

    [crates/router/src/selectors.rs] and [policy.rs].  The streaming JSON reader
    and the derived struct codecs are parameters; so are the answers of the
    policy authorities. *)
From S2P Require Import Prelude Text Waits MeterUsage BodyStore RouterWire RouterCatalog.
#[local] Open Scope Z_scope.

(** ** Routing selectors *)
(** A top-level object as the map reader presents it: for every member the key
    borrowed from the input (an escaped key cannot be borrowed), the value as a
    tree and as a skipped value; then what follows the last member, and what
    follows the object.  Errors are their messages. *)
Record Member := mkMember { m_key : result string string; m_value : result string Value; m_skip : result string () }.
Inductive RawBody : Type :=
| RMap (members : list Member) (close : result string ()) (trailing : result string ())
| ROther (message : string).
Record RoutingSelectors := mkSelectors {
  s_model : string; s_has_models : bool; s_has_provider : bool; s_has_service_tier_alias : bool }.
Inductive SelectorError : Type := InvalidJson | DuplicateField | MissingModel | InvalidModel.

(** The locals of [visit_map]. *)
Record Visit := mkVisit { v_model : option string; v_seen_model : bool; v_models : bool; v_provider : bool; v_alias : bool }.
Definition visit_init : Visit := mkVisit None false false false false.
Definition duplicate_message : string := "duplicate routing field".
Definition visit_member (st : Visit) (m : Member) : result string Visit :=
  key ← m_key m;
  if bool_decide (key = "model"%string) then
    if v_seen_model st then Err duplicate_message
    else value ← m_value m;
         match value with
         | VString s => if bool_decide (s = EmptyString) then Err "invalid model"%string
                        else Ok (mkVisit (Some s) true (v_models st) (v_provider st) (v_alias st))
         | _ => Err "invalid model"%string
         end
  else if bool_decide (key = "models"%string) then
    if v_models st then Err duplicate_message
    else m_skip m;; Ok (mkVisit (v_model st) (v_seen_model st) true (v_provider st) (v_alias st))
  else if bool_decide (key = "provider"%string) then
    if v_provider st then Err duplicate_message
    else m_skip m;; Ok (mkVisit (v_model st) (v_seen_model st) (v_models st) true (v_alias st))
  else if bool_decide (key = "serviceTier"%string) then
    if v_alias st then Err duplicate_message
    else m_skip m;; Ok (mkVisit (v_model st) (v_seen_model st) (v_models st) (v_provider st) true)
  else m_skip m;; Ok st.
Fixpoint visit_members (st : Visit) (ms : list Member) : result string Visit :=
  match ms with [] => Ok st | m :: ms => st ← visit_member st m; visit_members st ms end.
Definition visit_map (ms : list Member) (close : result string ()) : result string RoutingSelectors :=
  st ← visit_members visit_init ms;
  close;;
  model ← ok_or (v_model st) "missing model"%string;
  Ok (mkSelectors model (v_models st) (v_provider st) (v_alias st)).
Definition read_selectors (raw : RawBody) : result string RoutingSelectors :=
  match raw with
  | RMap ms close trailing => s ← visit_map ms close; trailing;; Ok s
  | ROther message => Err message
  end.
Definition extract_routing_selectors (raw : RawBody) : result SelectorError RoutingSelectors :=
  match read_selectors raw with
  | Ok s => Ok s
  | Err message =>
      Err (if contains message "duplicate routing field" then DuplicateField
           else if contains message "missing model" then MissingModel
           else if contains message "invalid model" then InvalidModel else InvalidJson)
  end.

(** ** Provider preferences *)
Inductive ProviderNamespace : Type := NsAnthropic | NsOpenAi | NsGoogle | NsKimi.
#[global] Instance ProviderNamespace_eq_dec : EqDecision ProviderNamespace.
Proof. solve_decision. Defined.
Definition provider_str (p : ProviderNamespace) : string :=
  match p with NsAnthropic => "anthropic" | NsOpenAi => "openai" | NsGoogle => "google" | NsKimi => "kimi" end.
Definition provider_lane (p : ProviderNamespace) : Lane :=
  match p with NsAnthropic => LAnthropic | NsOpenAi => LOpenAi | NsGoogle => LGemini | NsKimi => LAnthropic end.
Definition provider_plane (p : ProviderNamespace) : Plane :=
  match p with NsAnthropic => PlAnthropic | NsOpenAi => PlOpenAi | NsGoogle => PlGemini | NsKimi => PlKimi end.
Definition provider_for_namespace (ns : string) : option ProviderNamespace :=
  if bool_decide (ns = NS_ANTHROPIC) then Some NsAnthropic
  else if bool_decide (ns = NS_OPENAI) then Some NsOpenAi
  else if bool_decide (ns = NS_GOOGLE) then Some NsGoogle
  else if bool_decide (ns = NS_KIMI) then Some NsKimi
  else None.
Definition provider_for_namespaced_model (model : string) : option ProviderNamespace :=
  '(prefix, native) ← split_once slash model;
  if bool_decide (native = EmptyString) then None else provider_for_namespace prefix.

Record ProviderPreferences := mkPrefs {
  pp_order : option (list ProviderNamespace); pp_only : option (list ProviderNamespace);
  pp_ignore : option (list ProviderNamespace); pp_allow_fallbacks : bool }.
Definition ProviderPreferences_default : ProviderPreferences := mkPrefs None None None true.
Fixpoint has_duplicates_from (seen values : list ProviderNamespace) : bool :=
  match values with [] => false | v :: values => bool_decide (v ∈ seen) || has_duplicates_from (v :: seen) values end.
Definition has_duplicates (values : list ProviderNamespace) : bool := has_duplicates_from [] values.
Definition prefs_parse (from_value : Value -> option ProviderPreferences) (value : Value) : result () ProviderPreferences :=
  parsed ← ok_or (from_value value) ();
  if existsb (from_option has_duplicates false) [pp_order parsed; pp_only parsed; pp_ignore parsed] then Err ()
  else if match pp_only parsed, pp_ignore parsed with
          | Some only, Some ignore => existsb (fun p => bool_decide (p ∈ ignore)) only
          | _, _ => false
          end then Err ()
  else Ok parsed.
Definition allows (p : ProviderPreferences) (provider : ProviderNamespace) : bool :=
  if from_option (fun only => negb (bool_decide (provider ∈ only))) false (pp_only p) then false
  else negb (from_option (fun ignore => bool_decide (provider ∈ ignore)) false (pp_ignore p)).
Fixpoint position {A} (p : A -> bool) (l : list A) : option nat :=
  match l with [] => None | x :: l => if p x then Some 0%nat else S <$> position p l end.
Definition order_rank (p : ProviderPreferences) (provider : ProviderNamespace) : Z :=
  match pp_order p with
  | None => 0
  | Some order => Z.of_nat (default (length order) (position (fun c => bool_decide (c = provider)) order))
  end.

(** ** The account-policy preflight *)
Definition SCHEMA_VERSION : Z := 1.
Definition MAX_CANDIDATES : Z := 32.
Definition POLICY_MAX_BODY_BYTES : Z := 64 * 1024.
Record PolicyCandidate := mkCandidate { pc_id : string; pc_provider : ProviderNamespace; pc_canonical_model_id : string }.
Inductive PreflightError : Type := PolicyUnauthorized | PolicyUnavailable | PolicyRestricted.
Inductive PolicyMode : Type := Unrestricted | Strict.
#[global] Instance PolicyMode_eq_dec : EqDecision PolicyMode.
Proof. solve_decision. Defined.
Record PreflightResponse := mkPreflight { pr_schema_version : Z; pr_mode : PolicyMode; pr_allowed : list string }.

Definition push_plane (order : list Plane) (p : Plane) : list Plane := if bool_decide (p ∈ order) then order else order ++ [p].
Definition origin_order (candidates : list PolicyCandidate) : list Plane :=
  foldl push_plane [] (map (fun c => provider_plane (pc_provider c)) candidates ++ Plane_ALL).

Fixpoint allowed_in_order (candidates : list PolicyCandidate) (previous : option nat) (allowed : list string) : bool :=
  match allowed with
  | [] => true
  | id :: allowed =>
      match position (fun c => bool_decide (pc_id c = id)) candidates with
      | None => false
      | Some index =>
          if from_option (fun previous => bool_decide (index <= previous)%nat) false previous then false
          else allowed_in_order candidates (Some index) allowed
      end
  end.
Definition validate_response (candidates : list PolicyCandidate) (r : PreflightResponse) : option (list string) :=
  if negb (pr_schema_version r =? SCHEMA_VERSION) || bool_decide (length candidates < length (pr_allowed r))%nat then None
  else if negb (allowed_in_order candidates None (pr_allowed r)) then None
  else if bool_decide (pr_mode r = Unrestricted) && negb (bool_decide (pr_allowed r = map pc_id candidates)) then None
  else Some (pr_allowed r).

Section Preflight.
  Context (encode : list PolicyCandidate -> option (list byte)) (decode : list byte -> option PreflightResponse).
  Context (ask : Plane -> list byte -> option Reply).
(** The answer of one authority: [None] moves on to the next. *)
Definition authority_verdict (candidates : list PolicyCandidate) (reply : option Reply) : option (result PreflightError (list string)) :=
  match reply with
  | None => None
  | Some r =>
      if rp_status r =? 401 then Some (Err PolicyUnauthorized)
      else if negb (is_success (rp_status r)) then None
      else match response_bytes POLICY_MAX_BODY_BYTES (rp_length r) (rp_chunks r) with
           | Err _ => None
           | Ok bytes =>
               match decode bytes >>? validate_response candidates with
               | None => None
               | Some [] => Some (Err PolicyRestricted)
               | Some allowed => Some (Ok allowed)
               end
           end
  end.
Fixpoint ask_in_order (candidates : list PolicyCandidate) (body : list byte) (planes : list Plane) : result PreflightError (list string) :=
  match planes with
  | [] => Err PolicyUnavailable
  | p :: planes => match authority_verdict candidates (ask p body) with
                   | Some r => r
                   | None => ask_in_order candidates body planes
                   end
  end.
Definition policy_preflight (candidates : list PolicyCandidate) : result PreflightError (list string) :=
  if bool_decide (candidates = []) || (MAX_CANDIDATES <? Z.of_nat (length candidates)) then Err PolicyUnavailable
  else body ← ok_or (encode candidates) PolicyUnavailable;
       if POLICY_MAX_BODY_BYTES <? len body then Err PolicyUnavailable
       else ask_in_order candidates body (origin_order candidates).
End Preflight.

(** ** Selectors are unambiguous *)
Definition with_key (k : string) (ms : list Member) : list Member :=
  List.filter (fun m => bool_decide (m_key m = Ok k)) ms.
Definition has_key (k : string) (ms : list Member) : bool := negb (bool_decide (length (with_key k ms) = 0%nat)).
Definition at_most_once (k : string) (ms : list Member) : Prop := (length (with_key k ms) <= 1)%nat.
(** What the locals say about the members read so far. *)
Record visit_ok (st : Visit) (ms : list Member) : Prop := {
  vo_keys : Forall (fun m => exists k, m_key m = Ok k) ms;
  vo_model : match v_model st with
             | Some s => s <> EmptyString /\ exists m, with_key "model" ms = [m] /\ m_value m = Ok (VString s)
             | None => with_key "model" ms = []
             end;
  vo_seen : v_seen_model st = has_key "model" ms;
  vo_models : at_most_once "models" ms /\ v_models st = has_key "models" ms;
  vo_provider : at_most_once "provider" ms /\ v_provider st = has_key "provider" ms;
  vo_alias : at_most_once "serviceTier" ms /\ v_alias st = has_key "serviceTier" ms
}.
Lemma with_key_snoc k ms m : with_key k (ms ++ [m]) = with_key k ms ++ (if bool_decide (m_key m = Ok k) then [m] else []).
Proof. unfold with_key. rewrite List.filter_app. cbn. by case_bool_decide. Qed.
Lemma has_key_length k ms : has_key k ms = false <-> with_key k ms = [].
Proof. unfold has_key. rewrite negb_false_iff, bool_decide_eq_true. destruct (with_key k ms); [done|]. split; [cbn; lia|done]. Qed.
Lemma key_count_snoc k ms m : m_key m <> Ok k ->
  with_key k (ms ++ [m]) = with_key k ms /\ has_key k (ms ++ [m]) = has_key k ms.
Proof. intros H. unfold has_key. rewrite with_key_snoc, bool_decide_false by done. by rewrite app_nil_r. Qed.
Lemma key_first_snoc k ms m : m_key m = Ok k -> has_key k ms = false ->
  with_key k (ms ++ [m]) = [m] /\ has_key k (ms ++ [m]) = true.
Proof. intros H E%has_key_length. unfold has_key. rewrite with_key_snoc, bool_decide_true, E by done. done. Qed.
Lemma visit_init_ok : visit_ok visit_init [].
Proof. split; try done; (split; [unfold at_most_once; cbn; lia|done]). Qed.
Ltac other_keys :=
  repeat match goal with
  | |- context [with_key ?k (?ms ++ [?m])] => rewrite (proj1 (key_count_snoc k ms m ltac:(congruence)))
  | |- context [has_key ?k (?ms ++ [?m])] => rewrite (proj2 (key_count_snoc k ms m ltac:(congruence)))
  end.
Ltac first_key :=
  repeat match goal with
  | |- context [with_key ?k (?ms ++ [?m])] => rewrite (proj1 (key_first_snoc k ms m ltac:(assumption) ltac:(congruence)))
  | |- context [has_key ?k (?ms ++ [?m])] => rewrite (proj2 (key_first_snoc k ms m ltac:(assumption) ltac:(congruence)))
  end.
Lemma visit_member_ok st ms m st' : visit_ok st ms -> visit_member st m = Ok st' -> visit_ok st' (ms ++ [m]).
Proof.
  intros [Hk Hm Hs [Hms Hms'] [Hp Hp'] [Ha Ha']]. unfold visit_member. intros (key & Hkey & H)%bind_Ok.
  assert (Hk' : Forall (fun m => exists k, m_key m = Ok k) (ms ++ [m])) by (apply Forall_app; split; [done|repeat constructor; by eexists]).
  unfold at_most_once in *.
  case_bool_decide as K1; [|case_bool_decide as K2; [|case_bool_decide as K3; [|case_bool_decide as K4]]]; try subst key.
  - destruct (v_seen_model st) eqn:Es; [done|]. apply bind_Ok in H as (v & Hv & H). destruct v; try done.
    case_bool_decide; [done|]. injection H as <-.
    split; cbn [v_model v_seen_model v_models v_provider v_alias]; unfold at_most_once; other_keys; first_key; eauto 10.
  - destruct (v_models st) eqn:Es; [done|]. apply bind_Ok in H as (? & _ & [= <-]).
    split; cbn [v_model v_seen_model v_models v_provider v_alias]; unfold at_most_once; other_keys; first_key; eauto.
  - destruct (v_provider st) eqn:Es; [done|]. apply bind_Ok in H as (? & _ & [= <-]).
    split; cbn [v_model v_seen_model v_models v_provider v_alias]; unfold at_most_once; other_keys; first_key; eauto.
  - destruct (v_alias st) eqn:Es; [done|]. apply bind_Ok in H as (? & _ & [= <-]).
    split; cbn [v_model v_seen_model v_models v_provider v_alias]; unfold at_most_once; other_keys; first_key; eauto.
  - apply bind_Ok in H as (? & _ & [= <-]). split; unfold at_most_once; other_keys; eauto.
Qed.
Lemma visit_members_ok ms : forall st done_ st', visit_ok st done_ -> visit_members st ms = Ok st' -> visit_ok st' (done_ ++ ms).
Proof.
  induction ms as [|m ms IH]; intros st d st' Hst H; cbn in H; [simplify_eq; by rewrite app_nil_r|].
  apply bind_Ok in H as (st1 & H1 & H). rewrite cons_middle, (assoc_L (++)). eapply IH; [|exact H]. by eapply visit_member_ok.
Qed.

(** ** The order of authorities *)
Lemma push_plane_spec l : forall order, NoDup order ->
  NoDup (foldl push_plane order l) /\ (forall p, p ∈ foldl push_plane order l <-> p ∈ order \/ p ∈ l)
  /\ order `prefix_of` foldl push_plane order l.
Proof.
  induction l as [|p l IH]; intros order Hn; cbn [foldl]; [split; [done|split; [set_solver|done]]|].
  assert (Hn' : NoDup (push_plane order p)).
  { unfold push_plane. case_bool_decide as E; [done|]. apply NoDup_app. split; [done|]. split; [set_solver|apply NoDup_singleton]. }
  destruct (IH _ Hn') as (H1 & H2 & H3). split; [done|]. split.
  - intros q. rewrite H2. unfold push_plane. case_bool_decide; set_solver.
  - etrans; [|exact H3]. unfold push_plane. case_bool_decide; [done|by eexists].
Qed.
Lemma Plane_ALL_spec : NoDup Plane_ALL /\ forall p, p ∈ Plane_ALL.
Proof. split; [apply (bool_decide_unpack _); by vm_compute|]. intros []; set_solver. Qed.
Lemma origin_order_spec cs : origin_order cs ≡ₚ Plane_ALL
  /\ forall c rest, cs = c :: rest -> head (origin_order cs) = Some (provider_plane (pc_provider c)).
Proof.
  destruct (push_plane_spec (map (fun c => provider_plane (pc_provider c)) cs ++ Plane_ALL) [] ltac:(constructor)) as (H1 & H2 & _).
  destruct Plane_ALL_spec as [N1 N2]. split; [apply NoDup_Permutation; [done|done|]|].
  - intros p. unfold origin_order. rewrite H2. set_solver.
  - intros c rest ->. unfold origin_order. cbn [map app foldl]. unfold push_plane at 2. rewrite bool_decide_false by set_solver. cbn [app].
    destruct (push_plane_spec (map (fun c => provider_plane (pc_provider c)) rest ++ Plane_ALL) [provider_plane (pc_provider c)] ltac:(apply NoDup_singleton))
      as (_ & _ & [l ->]). done.
Qed.

(** ** Accepted verdicts are ordered subsets *)
Lemma position_Some {A} (p : A -> bool) l i : position p l = Some i -> exists x, l !! i = Some x /\ p x = true.
Proof.
  revert i. induction l as [|x l IH]; intros i; cbn; [done|]. destruct (p x) eqn:E; [intros [= <-]; by exists x|].
  intros (j & Hj & ->)%fmap_Some. by apply IH.
Qed.
(** One more element of an ordered subset, found at [index]. *)
Lemma sublist_at {A} (ids : list A) id rest k index :
  (k <= index)%nat -> ids !! index = Some id -> sublist rest (drop (S index) ids) -> sublist (id :: rest) (drop k ids).
Proof.
  intros Hle Hid Hs. pose proof (drop_S _ _ _ Hid) as Hd.
  replace index with (k + (index - k))%nat in Hd at 1 by lia. rewrite <- drop_drop in Hd.
  transitivity (id :: drop (S index) ids); [by apply sublist_skip|]. rewrite <- Hd. apply sublist_drop.
Qed.
Lemma allowed_in_order_sublist cs allowed : forall previous, allowed_in_order cs previous allowed = true ->
  sublist allowed (drop (from_option S 0%nat previous) (map pc_id cs)).
Proof.
  induction allowed as [|id allowed IH]; intros previous H; cbn in H; [apply sublist_nil_l|].
  destruct (position _ cs) as [index|] eqn:E; [|done]. apply position_Some in E as (c & Hc & Hid%bool_decide_eq_true).
  destruct (from_option _ false previous) eqn:F; [done|]. apply IH in H. apply (sublist_at _ _ _ _ index); [|by rewrite list_lookup_fmap, Hc, <- Hid|done].
  destruct previous as [q|]; cbn in *; [apply bool_decide_eq_false in F; lia|lia].
Qed.
Lemma validate_response_Some cs r allowed : validate_response cs r = Some allowed ->
  allowed = pr_allowed r /\ pr_schema_version r = SCHEMA_VERSION /\ sublist allowed (map pc_id cs)
  /\ (pr_mode r = Unrestricted -> allowed = map pc_id cs).
Proof.
  unfold validate_response. destruct (negb _ || _) eqn:C1; [done|]. destruct (negb (allowed_in_order _ _ _)) eqn:C2; [done|].
  destruct (_ && _) eqn:C3; [done|]. intros [= <-].
  rewrite orb_false_iff, negb_false_iff, Z.eqb_eq in C1. rewrite negb_false_iff in C2. apply allowed_in_order_sublist in C2.
  do 2 (split; [naive_solver|]). split; [by rewrite drop_0 in C2|]. intros Hm. rewrite bool_decide_true in C3 by done. cbn in C3.
  by apply negb_false_iff, bool_decide_eq_true in C3.
Qed.

Lemma ask_in_order_spec decode ask cs body planes :
  match ask_in_order decode ask cs body planes with
  | Err PolicyUnavailable => forall p, p ∈ planes -> authority_verdict decode cs (ask p body) = None
  | r => exists earlier p later, planes = earlier ++ p :: later
      /\ Forall (fun q => authority_verdict decode cs (ask q body) = None) earlier /\ authority_verdict decode cs (ask p body) = Some r
  end.
Proof.
  induction planes as [|p planes IH]; cbn [ask_in_order]; [by intros p ?%elem_of_nil|].
  destruct (authority_verdict decode cs (ask p body)) as [r|] eqn:E.
  - assert (Hr : r <> Err PolicyUnavailable).
    { intros ->. unfold authority_verdict in E. repeat (case_match; try done). }
    destruct r as [allowed|[]]; try done; exists [], p, planes; by rewrite E.
  - destruct (ask_in_order decode ask cs body planes) as [allowed|[]];
      [destruct IH as (e & q & l & -> & Hf & Hq); exists (p :: e), q, l; split; [done|]; split; [by constructor|done]..| |].
    + intros q [->|Hq]%elem_of_cons; [done|by apply IH].
    + destruct IH as (e & q & l & -> & Hf & Hq). exists (p :: e), q, l. split; [done|]. split; [by constructor|done].
Qed.
Lemma authority_verdict_Ok decode cs reply allowed : authority_verdict decode cs reply = Some (Ok allowed) ->
  allowed <> [] /\ exists r bytes resp, reply = Some r /\ is_success (rp_status r) = true
    /\ response_bytes POLICY_MAX_BODY_BYTES (rp_length r) (rp_chunks r) = Ok bytes /\ decode bytes = Some resp
    /\ validate_response cs resp = Some allowed.
Proof.
  unfold authority_verdict. destruct reply as [r|]; [|done]. destruct (_ =? 401); [done|].
  destruct (is_success (rp_status r)) eqn:Es; cbn [negb]; [|done]. destruct (response_bytes _ _ _) as [bytes|] eqn:Eb; [|done].
  destruct (decode bytes) as [resp|] eqn:Ed; cbn; [|done]. destruct (validate_response cs resp) as [[|id l]|] eqn:Ev; [done| |done].
  intros [= <-]. split; [done|]. exists r, bytes, resp. done.
Qed.

(** ** Theorems *)
(** C12: The selectors the router acts on are the ones every reader of the
    body sees: an accepted body has exactly one readable [model] member, a
    non-empty string, and at most one of each other routing field, whose presence
    is reported exactly; every key is plainly readable, so no escaped spelling
    hides a second one. *)
Theorem selectors_unambiguous (raw : RawBody) (s : RoutingSelectors) :
  extract_routing_selectors raw = Ok s ->
  exists ms close trailing m, raw = RMap ms close trailing
  /\ Forall (fun m => exists k, m_key m = Ok k) ms
  /\ with_key "model" ms = [m] /\ m_value m = Ok (VString (s_model s)) /\ s_model s <> EmptyString
  /\ at_most_once "models" ms /\ at_most_once "provider" ms /\ at_most_once "serviceTier" ms
  /\ s_has_models s = has_key "models" ms /\ s_has_provider s = has_key "provider" ms
  /\ s_has_service_tier_alias s = has_key "serviceTier" ms.
Proof.
  unfold extract_routing_selectors. destruct (read_selectors raw) as [s'|] eqn:E; [|done]. intros [= ->].
  destruct raw as [ms close trailing|]; [|done]. unfold read_selectors, visit_map in E.
  apply bind_Ok in E as (s1 & E & Hs). apply bind_Ok in Hs as (? & _ & [= ->]).
  apply bind_Ok in E as (st & Hst & E). apply bind_Ok in E as (? & _ & E). apply bind_Ok in E as (model & Hm & [= <-]). apply ok_or_Ok in Hm.
  apply (visit_members_ok ms _ [] _ visit_init_ok) in Hst as [Hk Hmod _ [? ?] [? ?] [? ?]]. rewrite Hm in Hmod.
  destruct Hmod as (Hne & m & Hw & Hv). by exists ms, close, trailing, m.
Qed.
Definition demo_raw : RawBody :=
  RMap [mkMember (Ok "model"%string) (Ok (VString "openai/gpt-5.6")) (Ok ()); mkMember (Ok "models"%string) (Ok (VArray [])) (Ok ())] (Ok ()) (Ok ()).
Lemma selectors_unambiguous_witness :
  extract_routing_selectors demo_raw = Ok (mkSelectors "openai/gpt-5.6" true false false)
  /\ exists ms close trailing m, demo_raw = RMap ms close trailing /\ with_key "model" ms = [m].
Proof.
  assert (H : extract_routing_selectors demo_raw = Ok (mkSelectors "openai/gpt-5.6" true false false)) by (vm_compute; reflexivity).
  split; [exact H|]. destruct (selectors_unambiguous _ _ H) as (ms & c & t & m & H1 & _ & H2 & _). exists ms, c, t, m. exact (conj H1 H2).
Defined.

(** C11: The policy preflight asks every plane at most once, the first
    candidate's plane first, and acts on the first authority that gives a
    verdict: a granted chain is a non-empty ordered subset of the proposed one (all
    of it when the account is unrestricted), read from a complete success
    response; the authority counts as unavailable only when none of the four gave
    a verdict or the chain itself cannot be sent. *)
Theorem policy_preflight_exact (encode : list PolicyCandidate -> option (list byte)) (decode : list byte -> option PreflightResponse)
    (ask : Plane -> list byte -> option Reply) (cs : list PolicyCandidate) :
  origin_order cs ≡ₚ Plane_ALL
  /\ (forall c rest, cs = c :: rest -> head (origin_order cs) = Some (provider_plane (pc_provider c)))
  /\ match policy_preflight encode decode ask cs with
     | Ok allowed => allowed <> [] /\ sublist allowed (map pc_id cs)
         /\ exists body earlier p later r bytes resp, encode cs = Some body
            /\ origin_order cs = earlier ++ p :: later /\ Forall (fun q => authority_verdict decode cs (ask q body) = None) earlier
            /\ ask p body = Some r /\ is_success (rp_status r) = true
            /\ response_bytes POLICY_MAX_BODY_BYTES (rp_length r) (rp_chunks r) = Ok bytes /\ decode bytes = Some resp
            /\ pr_schema_version resp = SCHEMA_VERSION /\ pr_allowed resp = allowed
            /\ (pr_mode resp = Unrestricted -> allowed = map pc_id cs)
     | Err PolicyUnavailable =>
         (cs = [] \/ MAX_CANDIDATES < Z.of_nat (length cs) \/ encode cs = None
          \/ exists body, encode cs = Some body
             /\ (POLICY_MAX_BODY_BYTES < len body \/ forall p, authority_verdict decode cs (ask p body) = None))
     | Err e => exists body earlier p later, encode cs = Some body /\ origin_order cs = earlier ++ p :: later
         /\ Forall (fun q => authority_verdict decode cs (ask q body) = None) earlier
         /\ authority_verdict decode cs (ask p body) = Some (Err e)
     end.
Proof.
  destruct (origin_order_spec cs) as [Hp Hh]. split; [done|]. split; [done|]. unfold policy_preflight.
  destruct (bool_decide (cs = []) || _) eqn:C.
  { apply orb_true_iff in C as [C%bool_decide_eq_true|C%Z.ltb_lt]; [by left|by right; left]. }
  destruct (encode cs) as [body|] eqn:Ee; cbn; [|by right; right; left].
  destruct (Z.ltb_spec POLICY_MAX_BODY_BYTES (len body)).
  { right; right; right. exists body. split; [done|by left]. }
  pose proof (ask_in_order_spec decode ask cs body (origin_order cs)) as H1.
  destruct (ask_in_order decode ask cs body (origin_order cs)) as [allowed|e].
  - destruct H1 as (earlier & p & later & Ho & Hf & Hv).
    apply authority_verdict_Ok in Hv as (Hne & r & bytes & resp & Hr & Hs & Hb & Hd & Hval).
    apply validate_response_Some in Hval as (Ha & Hsch & Hsub & Hun). split; [done|]. split; [done|].
    exists body, earlier, p, later, r, bytes, resp. done.
  - destruct e; [destruct H1 as (earlier & p & later & ? & ? & ?); by exists body, earlier, p, later| |
                 destruct H1 as (earlier & p & later & ? & ? & ?); by exists body, earlier, p, later].
    right; right; right. exists body. split; [done|]. right. intros p. apply H1. rewrite Hp. apply Plane_ALL_spec.
Qed.
