(* ===== verification/RouterRoute.v ===== *)
(** * Universal routing and serial fallback ([crates/router/src/routing.rs])

    One universal request from its authenticated, materialized body to the
    response: selectors, preferences, the resolved chain, the policy preflight,
    the normalization of the service tier, and the serial attempts.  The handler
    is split where it first contacts a plane for execution: [prepare] computes
    either a final response or a plan, [execute] runs the plan and returns the
    requests it sent with their outcomes.  JSON codecs, the catalogue of the
    moment, the policy authorities, fresh identities and the planes are
    parameters. *)
From S2P Require Import Prelude Text Waits ApiLimits MeterUsage BodyStore RouterWire RouterCatalog RouterPolicy.
#[local] Open Scope Z_scope.

(** ** Surfaces *)
Inductive Surface : Type := Chat | Responses | Messages.
#[global] Instance Surface_eq_dec : EqDecision Surface.
Proof. solve_decision. Defined.
Definition COUNT_TOKENS : string := "/v1/messages/count_tokens".
Definition error_lane (s : Surface) : Lane := match s with Messages => LAnthropic | _ => LOpenAi end.
(** The envelope of a synthetic error on a surface. *)
Definition surface_error (id : string) (s : Surface) (e : RouterError) : Response :=
  match s with Messages => messages_envelope id e | _ => openai_envelope e end.
Inductive BodyReadError : Type := BTooLarge | BOverloaded | BTimeout | BTransport.

(** ** JSON objects: keys are unique; their order carries no meaning *)
Definition obj_get (v : Value) (k : string) : option Value := get k v.
Definition obj_remove (v : Value) (k : string) : Value :=
  match v with VObject fields => VObject (List.filter (fun f => negb (bool_decide (f.1 = k))) fields) | _ => v end.
Definition obj_insert (v : Value) (k : string) (x : Value) : Value :=
  match obj_remove v k with VObject fields => VObject (fields ++ [(k, x)]) | v => v end.

(** ** Service tier *)
Definition is_fast (v : option Value) : bool :=
  match v >>? as_str with Some s => bool_decide (s = "fast"%string) || bool_decide (s = "priority"%string) | None => false end.
Definition take_fast_service_tier_header (h : Headers) (s : Surface) (path : string) : Headers * result RouterError bool :=
  let '(present, valid) := match get_all h SERVICE_TIER_HEADER with
                           | [] => (false, false)
                           | [v] => (true, bool_decide (v = "fast"%string) || bool_decide (v = "priority"%string))
                           | _ => (true, false)
                           end in
  if negb present then (h, Ok false)
  else
    let h := remove h SERVICE_TIER_HEADER in
    (h, if negb valid then Err (EInvalid "Header `x-apitoken-service-tier` must occur once with value `fast` or `priority`." (Some SERVICE_TIER_HEADER))
        else if bool_decide (path = COUNT_TOKENS)
             then Err (EInvalid "Header `x-apitoken-service-tier` is not supported for token counting." (Some SERVICE_TIER_HEADER))
        else Ok true).
Definition normalize_fast_service_tier (v : Value) (s : Surface) (header_present : bool) : result RouterError Value :=
  match v with
  | VObject _ =>
      let alias := obj_get v "serviceTier" in
      let alias_present := bool_decide (alias <> None) in
      if negb header_present && negb alias_present then Ok v
      else if alias_present && bool_decide (s = Messages) then
        Err (EInvalid "Body parameter `serviceTier` is supported only on OpenAI-compatible Chat and Responses surfaces." (Some "serviceTier"%string))
      else if alias_present && negb (is_fast alias) then
        Err (EInvalid "Body parameter `serviceTier` must be `fast` or `priority`." (Some "serviceTier"%string))
      else if bool_decide (obj_get v "service_tier" <> None) && negb (is_fast (obj_get v "service_tier")) then
        Err (EInvalid "Fast service-tier compatibility selector conflicts with body parameter `service_tier`." (Some "service_tier"%string))
      else if header_present && bool_decide (s = Messages) && bool_decide (obj_get v "speed" <> None)
              && negb (bool_decide (obj_get v "speed" >>? as_str = Some "fast"%string)) then
        Err (EInvalid "Header `x-apitoken-service-tier` conflicts with body parameter `speed`." None)
      else Ok (obj_insert (obj_remove v "serviceTier") "service_tier" (VString "priority"))
  | _ => Err (EInvalid "Invalid JSON object in request body." None)
  end.

(** ** The chain *)
Record ResolvedAttempt := mkResolved {
  ra_body_model_value : string; ra_catalog_id : string; ra_provider : ProviderNamespace; ra_canonical_model_id : string; ra_lane : Lane }.
Definition FAST_ONLY_GPT (fast_header : bool) : RouterError :=
  EInvalid "Fast service-tier compatibility selectors are supported only for GPT models."
    (Some (if fast_header then "x-apitoken-service-tier" else "serviceTier")%string).
(** [models]: a non-empty array of non-blank strings after the mandatory model. *)
Fixpoint fallback_models (l : list Value) : result RouterError (list string) :=
  match l with
  | [] => Ok []
  | v :: l =>
      match as_str v with
      | Some s => if trim_is_empty s then Err (EInvalid "Every entry in `models` must be a non-empty string." (Some "models"%string))
                  else rest ← fallback_models l; Ok (s :: rest)
      | None => Err (EInvalid "Every entry in `models` must be a non-empty string." (Some "models"%string))
      end
  end.
Definition requested_models (v : Value) (model : string) : result RouterError (list string) :=
  requested ← match obj_get v "models" with
              | None => Ok [model]
              | Some models =>
                  match as_array models with
                  | Some ((_ :: _) as l) => rest ← fallback_models l; Ok (model :: rest)
                  | _ => Err (EInvalid "Parameter `models` must be a non-empty array of model IDs." (Some "models"%string))
                  end
              end;
  if negb (no_repeat [] requested) then Err (EInvalid "The fallback chain must not contain duplicate models." (Some "models"%string))
  else if MAX_CANDIDATES <? Z.of_nat (length requested) then Err (EInvalid "The routing chain must contain at most 32 models." (Some "models"%string))
  else Ok requested.
Definition unknown_model (m : string) : RouterError :=
  EInvalid (String.app "Unknown model in routing chain: `" (String.app m "`.")) (Some "models"%string).
Fixpoint resolve_chain (entries : list (string * CatalogEntry)) (canonical_seen : list string) (requested : list string)
    : result RouterError (list ResolvedAttempt) :=
  match requested with
  | [] => Ok []
  | m :: requested =>
      match find entries m with
      | None => Err (unknown_model m)
      | Some (ns, e) =>
          if bool_decide (e_id e ∈ canonical_seen) then Err (EInvalid "The routing chain must not contain duplicate models." (Some "models"%string))
          else match provider_for_namespace ns with
               | None => Err (unknown_model m)
               | Some provider =>
                   rest ← resolve_chain entries (e_id e :: canonical_seen) requested;
                   Ok (mkResolved m (e_id e) provider (e_native_id e) (provider_lane provider) :: rest)
               end
      end
  end.
(** Preferences: filter, stable sort by rank, and the head alone when fallbacks are off. *)
Definition apply_preferences (p : ProviderPreferences) (attempts : list ResolvedAttempt) : result RouterError (list ResolvedAttempt) :=
  let kept := List.filter (fun a => allows p (ra_provider a)) attempts in
  if bool_decide (length kept = 0%nat) then Err (EInvalid "Provider preferences removed every model from the routing chain." (Some "provider"%string))
  else let sorted := sort_by (fun a => [order_rank p (ra_provider a)]) kept in
       Ok (if pp_allow_fallbacks p then sorted else take 1 sorted).
Definition candidate_of (a : ResolvedAttempt) : PolicyCandidate := mkCandidate (ra_catalog_id a) (ra_provider a) (ra_canonical_model_id a).
Definition policy_error (e : PreflightError) : RouterError :=
  match e with PolicyUnauthorized => EAuthRejected | PolicyUnavailable => EPolicyUnavailable | PolicyRestricted => EPolicyRestricted end.
Definition keep_allowed (allowed : list string) (attempts : list ResolvedAttempt) : list ResolvedAttempt :=
  List.filter (fun a => bool_decide (ra_catalog_id a ∈ allowed)) attempts.

(** ** Environment and plan *)
Record RouterConfig := mkRConfig { rc_origin : Plane -> string; rc_fallback_enabled : bool; rc_request_limit : ByteLimit }.
Definition origin_for_provider (cfg : RouterConfig) (p : ProviderNamespace) : string := rc_origin cfg (provider_plane p).
(** [Parts]: what remains of the request beside its body. *)
Record Parts := mkParts { pt_method : string; pt_path : string; pt_path_query : option string; pt_headers : Headers }.
Definition request_of (p : Parts) (body : list byte) : Req := mkReq (pt_method p) (pt_path_query p) (pt_headers p) body.
(** [request_from_parts]: the client's length no longer holds. *)
Definition request_from_parts (p : Parts) (body : list byte) : Req :=
  mkReq (pt_method p) (pt_path_query p) (remove (pt_headers p) "content-length") body.
Record Chain := mkChain { ch_value : Value; ch_parts : Parts; ch_attempts : list ResolvedAttempt; ch_logical : string; ch_group : option string }.
Inductive Plan : Type :=
| PlanSingle (provider : ProviderNamespace) (req : Req) (logical : string)
| PlanChain (c : Chain).

Section Handler.
  Context (from_slice : list byte -> option Value) (to_vec : Value -> option (list byte)) (read_map : list byte -> RawBody).
  Context (prefs_from_value : Value -> option ProviderPreferences).
  Context (encode : list PolicyCandidate -> option (list byte)) (decode : list byte -> option PreflightResponse).
  Context (ask : Headers -> Plane -> list byte -> option Reply).
  Context (catalog : Headers -> Aggregate).
  Context (fresh_logical fresh_group : option string) (error_id : string).
  Context (send : nat -> Outgoing -> Sent).
  Context (cfg : RouterConfig) (surface : Surface).

Definition INVALID_JSON : RouterError := EInvalid "Invalid JSON in request body." None.
(** Resolving against the catalogue of the moment. *)
Definition catalog_entries (auth : Headers) : result RouterError (list (string * CatalogEntry)) :=
  let a := catalog auth in
  if a_auth_rejected a then Err EAuthRejected
  else let entries := dedup (a_entries a) in
       if bool_decide (length entries = 0%nat) then Err ECatalogUnavailable else Ok entries.

(** [proxy_single] up to its only attempt. *)
Definition resolve_single (parts : Parts) (model : string) : result RouterError (ProviderNamespace * option string) :=
  match provider_for_namespaced_model model with
  | Some provider => Ok (provider, None)
  | None =>
      entries ← catalog_entries (auth_passthrough (pt_headers parts));
      match find entries model with
      | None => Err (EModelNotFound model)
      | Some (ns, e) =>
          provider ← ok_or (provider_for_namespace ns) (EModelNotFound model);
          Ok (provider, if bool_decide (e_native_id e = model) then None else Some (e_native_id e))
      end
  end.
Definition rewrite_model (v : Value) (native : option string) : Value :=
  match native with Some m => obj_insert v "model" (VString m) | None => v end.
Definition single_body (bytes : list byte) (provider : ProviderNamespace) (native : option string) (fast_header fast_alias : bool)
    : result RouterError (list byte) :=
  let fast := fast_header || fast_alias in
  if fast || bool_decide (native <> None) then
    value ← ok_or (from_slice bytes) INVALID_JSON;
    value ← (if fast then
               if bool_decide (provider_lane provider <> LOpenAi) then Err (FAST_ONLY_GPT fast_header)
               else normalize_fast_service_tier value surface fast_header
             else Ok value);
    ok_or (to_vec (rewrite_model value native)) INVALID_JSON
  else Ok bytes.
Definition prepare_single (parts : Parts) (bytes : list byte) (model : string) (fast_header fast_alias : bool) : result RouterError Plan :=
  '(provider, native) ← resolve_single parts model;
  body ← single_body bytes provider native fast_header fast_alias;
  logical ← ok_or fresh_logical ECatalogUnavailable;
  Ok (PlanSingle provider
        (if fast_header || fast_alias || bool_decide (native <> None) then request_from_parts parts body else request_of parts body) logical).

(** The advanced path up to its first attempt. *)
Definition parse_preferences (v : Value) : result RouterError ProviderPreferences :=
  match obj_get v "provider" with
  | None => Ok ProviderPreferences_default
  | Some p => map_err (fun _ => EInvalid "Parameter `provider` contains invalid routing preferences." (Some "provider"%string))
                (prefs_parse prefs_from_value p)
  end.
Definition disabled (has_models : bool) : RouterError :=
  if has_models then EInvalid "Parameter `models` is disabled on this router." (Some "models"%string)
  else EInvalid "Parameter `provider` is disabled on this router." (Some "provider"%string).
Definition normalized (v : Value) (attempts : list ResolvedAttempt) (fast_header fast_alias : bool) : result RouterError Value :=
  if fast_header || fast_alias then
    if existsb (fun a => bool_decide (ra_lane a <> LOpenAi)) attempts then Err (FAST_ONLY_GPT fast_header)
    else normalize_fast_service_tier v surface fast_header
  else Ok v.
Definition prepare_chain (parts : Parts) (bytes : list byte) (s : RoutingSelectors) (fast_header : bool) : result RouterError Plan :=
  value ← ok_or (from_slice bytes) INVALID_JSON;
  guard_ok (rc_fallback_enabled cfg) (disabled (s_has_models s));;
  prefs ← parse_preferences value;
  requested ← requested_models value (s_model s);
  let auth := auth_passthrough (pt_headers parts) in
  entries ← catalog_entries auth;
  resolved ← resolve_chain entries [] requested;
  attempts ← apply_preferences prefs resolved;
  allowed ← map_err policy_error (policy_preflight encode decode (ask auth) (map candidate_of attempts));
  let attempts := keep_allowed allowed attempts in
  value ← normalized value attempts fast_header (s_has_service_tier_alias s);
  match value with
  | VObject _ =>
      let value := obj_remove (obj_remove value "models") "provider" in
      if bool_decide (length attempts = 0%nat) then Err (EInvalid "The fallback chain is empty." (Some "models"%string))
      else
        logical ← ok_or fresh_logical ECatalogUnavailable;
        if bool_decide (1 < length attempts)%nat then
          group ← ok_or fresh_group ECatalogUnavailable;
          Ok (PlanChain (mkChain value parts attempts logical (Some group)))
        else Ok (PlanChain (mkChain value parts attempts logical None))
  | _ => Err (EInvalid "Invalid JSON object in request body." None)
  end.

Definition selector_error (e : SelectorError) : RouterError :=
  match e with
  | InvalidJson => INVALID_JSON
  | DuplicateField => EInvalid "Duplicate routing field in request body." None
  | MissingModel | InvalidModel => EInvalid "Missing or invalid required parameter: model." (Some "model"%string)
  end.
Definition body_error (e : BodyReadError) : RouterError :=
  match e with
  | BTooLarge => EPayloadTooLarge (String.app "Request body exceeds the " (String.app (ByteLimit_to_string (rc_request_limit cfg)) " limit."))
  | BOverloaded => EOverloaded
  | BTimeout => EBodyTimeout
  | BTransport => EInvalid "Failed to read request body." None
  end.
Definition auth_error (e : AuthError) : RouterError := match e with Unauthorized => EAuthRejected | AuthUnavailable => EAuthUnavailable end.
Definition prepare (auth : result AuthError ()) (parts : Parts) (body : result BodyReadError (list byte)) : result RouterError Plan :=
  map_err auth_error auth;;
  guard_ok (negb (request_content_encoding_forbidden (pt_headers parts))) EUnsupportedContentEncoding;;
  bytes ← map_err body_error body;
  s ← map_err selector_error (extract_routing_selectors (read_map bytes));
  let '(headers, fast) := take_fast_service_tier_header (pt_headers parts) surface (pt_path parts) in
  let parts := mkParts (pt_method parts) (pt_path parts) (pt_path_query parts) headers in
  fast_header ← fast;
  if negb (s_has_models s) && negb (s_has_provider s) then prepare_single parts bytes (s_model s) fast_header (s_has_service_tier_alias s)
  else prepare_chain parts bytes s fast_header.

(** ** Execution *)
(** One attempt of a chain, as sent and as answered. *)
Record Contact := mkContact { ct_attempt : ResolvedAttempt; ct_out : Outgoing; ct_result : ProxyAttempt }.
Definition chain_request (c : Chain) (a : ResolvedAttempt) : option Req :=
  bytes ← to_vec (obj_insert (ch_value c) "model" (VString (ra_body_model_value a)));
  Some (request_from_parts (ch_parts c) bytes).
Definition execution_headers (c : Chain) (index : nat) : option ExecutionAttemptHeaders :=
  (fun g => mkExecution g (Z.of_nat index + 1)) <$> ch_group c.
Fixpoint run_attempts (c : Chain) (index : nat) (attempts : list ResolvedAttempt) : list Contact * Response :=
  match attempts with
  | [] => ([], surface_error error_id surface (EInvalid "The fallback chain is empty." (Some "models"%string)))
  | a :: rest =>
      match chain_request c a with
      | None => ([], surface_error error_id surface INVALID_JSON)
      | Some req =>
          let '(out, result) := proxy_attempt error_id (send index) (origin_for_provider cfg (ra_provider a)) (error_lane surface) req
                                  (Some (ch_logical c)) (execution_headers c index) in
          let contact := mkContact a out result in
          if bool_decide (retry_reason result <> None) && bool_decide (S index < length (ch_attempts c))%nat then
            let '(contacts, r) := run_attempts c (S index) rest in (contact :: contacts, r)
          else ([contact], response result)
      end
  end.
Definition execute (p : Plan) : list Outgoing * Response :=
  match p with
  | PlanSingle provider req logical =>
      let '(out, result) := proxy_attempt error_id (send 0) (origin_for_provider cfg provider) (error_lane surface) req (Some logical) None in
      ([out], response result)
  | PlanChain c => let '(contacts, r) := run_attempts c 0 (ch_attempts c) in (map ct_out contacts, r)
  end.
Definition proxy_universal (auth : result AuthError ()) (parts : Parts) (body : result BodyReadError (list byte)) : list Outgoing * Response :=
  match prepare auth parts body with
  | Err e => ([], surface_error error_id surface e)
  | Ok plan => execute plan
  end.
End Handler.

(** ** Objects *)
Lemma obj_get_remove v k k' : obj_get (obj_remove v k) k' = if bool_decide (k' = k) then (match v with VObject _ => None | _ => obj_get v k' end) else obj_get v k'.
Proof.
  destruct v as [| | | | |fields]; cbn; try (by case_bool_decide).
  induction fields as [|[f x] fields IH]; cbn; [by case_bool_decide|].
  destruct (decide (f = k)) as [->|Hf]; [rewrite bool_decide_true by done|rewrite (bool_decide_false (f = k)) by done]; cbn.
  - rewrite IH. repeat case_bool_decide; subst; naive_solver.
  - case_bool_decide as E1; [subst; by rewrite bool_decide_false|by destruct (bool_decide (f = k'))].
Qed.
Lemma find_app {A} (p : A -> bool) l x : List.find p (l ++ [x]) = match List.find p l with Some y => Some y | None => if p x then Some x else None end.
Proof. induction l as [|y l IH]; cbn; [done|]. by destruct (p y). Qed.
Lemma obj_get_insert fields k x k' :
  obj_get (obj_insert (VObject fields) k x) k' = if bool_decide (k' = k) then Some x else obj_get (VObject fields) k'.
Proof.
  pose proof (obj_get_remove (VObject fields) k k') as H. unfold obj_insert. cbn [obj_remove] in *. unfold obj_get, get in *.
  rewrite find_app. cbn. destruct (List.find _ (List.filter _ fields)) as [[f y]|] eqn:E; cbn in *.
  - rewrite H. by case_bool_decide.
  - repeat case_bool_decide; subst; done.
Qed.

(** ** The plan *)
Lemma resolve_chain_ok entries requested : forall seen attempts, resolve_chain entries seen requested = Ok attempts ->
  map ra_body_model_value attempts = requested
  /\ NoDup (map ra_catalog_id attempts) /\ (forall a, a ∈ attempts -> ra_catalog_id a ∉ seen)
  /\ Forall (fun a => exists ns e, find entries (ra_body_model_value a) = Some (ns, e) /\ ra_catalog_id a = e_id e
               /\ provider_for_namespace ns = Some (ra_provider a) /\ ra_canonical_model_id a = e_native_id e
               /\ ra_lane a = provider_lane (ra_provider a)) attempts.
Proof.
  induction requested as [|m requested IH]; intros seen attempts H; cbn in H.
  { simplify_eq. split; [done|]. split; [constructor|]. split; [by intros a ?%elem_of_nil|constructor]. }
  destruct (find entries m) as [[ns e]|] eqn:Ef; [|done]. case_bool_decide as Hs; [done|].
  destruct (provider_for_namespace ns) as [p|] eqn:Ep; [|done]. apply bind_Ok in H as (rest & Hr & [= <-]).
  apply IH in Hr as (H1 & H2 & H3 & H4). split; [cbn; by rewrite H1|]. split; [|split].
  - cbn. constructor; [|done]. intros (a & Ha & Hin)%list_elem_of_fmap. apply H3 in Hin. rewrite <- Ha in Hin. set_solver.
  - intros a [->|Ha]%elem_of_cons; [done|]. apply H3 in Ha. set_solver.
  - constructor; [|done]. exists ns, e. done.
Qed.
Definition rank_of (p : ProviderPreferences) (a : ResolvedAttempt) : list Z := [order_rank p (ra_provider a)].
Lemma lfilter_sublist {A} (p : A -> bool) l : sublist (List.filter p l) l.
Proof. induction l as [|x l IH]; cbn; [constructor|]. destruct (p x); by constructor. Qed.
Lemma apply_preferences_ok p resolved attempts : apply_preferences p resolved = Ok attempts ->
  exists sorted, sorted ≡ₚ List.filter (fun a => allows p (ra_provider a)) resolved /\ ordered_by (rank_of p) sorted
  /\ (forall k, with_key_of (rank_of p) k sorted = with_key_of (rank_of p) k (List.filter (fun a => allows p (ra_provider a)) resolved))
  /\ attempts `prefix_of` sorted /\ attempts = (if pp_allow_fallbacks p then sorted else take 1 sorted) /\ attempts <> [].
Proof.
  unfold apply_preferences. cbv zeta. case_bool_decide as Hl; [done|]. intros [= <-].
  set (kept := List.filter _ resolved) in *. destruct (sort_by_spec (rank_of p) kept) as [H1 H2].
  exists (sort_by (rank_of p) kept). split; [done|]. split; [done|]. split; [intros k; apply sort_by_stable|].
  assert (Hne : sort_by (rank_of p) kept <> []) by (intros E; rewrite E in H1; apply Permutation_length in H1; cbn in H1; lia).
  change (fun a => [order_rank p (ra_provider a)]) with (rank_of p).
  destruct (pp_allow_fallbacks p); (split; [|split; [done|]]); try done.
  - exists (drop 1 (sort_by (rank_of p) kept)). by rewrite take_drop.
  - destruct (sort_by (rank_of p) kept); done.
Qed.

(** What a chain that will be executed satisfies. *)
Record chain_sound (catalog : Headers -> Aggregate) (c : Chain) (prefs : ProviderPreferences) (requested allowed : list string) : Prop := {
  cs_distinct : NoDup (map ra_catalog_id (ch_attempts c));
  cs_bound : (1 <= length (ch_attempts c) <= 32)%nat;
  cs_resolved : Forall (fun a => ra_body_model_value a ∈ requested
      /\ exists ns e, find (dedup (a_entries (catalog (auth_passthrough (pt_headers (ch_parts c)))))) (ra_body_model_value a) = Some (ns, e)
         /\ ra_catalog_id a = e_id e /\ provider_for_namespace ns = Some (ra_provider a)
         /\ ra_lane a = provider_lane (ra_provider a)) (ch_attempts c);
  cs_preferred : Forall (fun a => allows prefs (ra_provider a) = true) (ch_attempts c);
  cs_ordered : ordered_by (rank_of prefs) (ch_attempts c);
  cs_single : pp_allow_fallbacks prefs = false -> length (ch_attempts c) = 1%nat;
  cs_allowed : Forall (fun a => ra_catalog_id a ∈ allowed) (ch_attempts c);
  cs_group : ch_group c <> None <-> (1 < length (ch_attempts c))%nat;
  cs_body : (exists fields, ch_value c = VObject fields) /\ obj_get (ch_value c) "models" = None /\ obj_get (ch_value c) "provider" = None
}.
Lemma ordered_prefix {A} (key : A -> list Z) l k : ordered_by key k -> l `prefix_of` k -> ordered_by key l.
Proof.
  intros H. revert l. induction H as [|x k Hx Hk IH]; intros l Hl.
  - apply prefix_nil_inv in Hl as ->. constructor.
  - destruct l as [|y l]; [constructor|]. pose proof (prefix_cons_inv_1 _ _ _ _ Hl) as ->. apply prefix_cons_inv_2 in Hl.
    constructor; [|by apply IH]. destruct Hl as [r ->]. by apply Forall_app in Hx as [? _].
Qed.
Lemma ordered_filter {A} (key : A -> list Z) (p : A -> bool) l : ordered_by key l -> ordered_by key (List.filter p l).
Proof.
  induction 1 as [|x l Hx Hl IH]; cbn; [constructor|]. destruct (p x); [|done]. constructor; [|done].
  rewrite Forall_forall in *. intros y [Hy _]%elem_of_lfilter. by apply Hx.
Qed.
Lemma Forall_sub {A} (P : A -> Prop) l k : (forall x, x ∈ l -> x ∈ k) -> Forall P k -> Forall P l.
Proof. rewrite !Forall_forall. naive_solver. Qed.
Lemma NoDup_sublist_map {A} (f : A -> string) l k : sublist l k -> NoDup (map f k) -> NoDup (map f l).
Proof. intros Hs Hn. eapply sublist_NoDup; [exact Hn|]. by apply fmap_sublist. Qed.
Lemma requested_models_ok v m r : requested_models v m = Ok r -> head r = Some m /\ NoDup r /\ Z.of_nat (length r) <= MAX_CANDIDATES.
Proof.
  unfold requested_models. intros (l & Hl & H)%bind_Ok. destruct (no_repeat [] l) eqn:Hn; [|done]. cbn [negb] in H.
  destruct (Z.ltb_spec MAX_CANDIDATES (Z.of_nat (length l))); [done|]. injection H as <-. apply no_repeat_spec in Hn as [Hn _].
  split; [|done]. destruct (obj_get v "models") as [x|]; [|by simplify_eq].
  destruct (as_array x) as [[|y ys]|]; [done| |done]. by apply bind_Ok in Hl as (rest & _ & [= <-]).
Qed.
Lemma catalog_entries_Ok catalog auth entries : catalog_entries catalog auth = Ok entries ->
  a_auth_rejected (catalog auth) = false /\ entries = dedup (a_entries (catalog auth)).
Proof.
  unfold catalog_entries. cbv zeta. destruct (a_auth_rejected (catalog auth)); [done|]. case_bool_decide; [done|]. by intros [= <-].
Qed.
Section PlanSound.
  Context (catalog : Headers -> Aggregate) (prefs : ProviderPreferences) (requested allowed : list string)
    (resolved attempts : list ResolvedAttempt) (entries : list (string * CatalogEntry)).
  Hypothesis Hresolved : resolve_chain entries [] requested = Ok resolved.
  Hypothesis Hattempts : apply_preferences prefs resolved = Ok attempts.
Lemma planned_sub a : a ∈ keep_allowed allowed attempts -> a ∈ resolved /\ allows prefs (ra_provider a) = true /\ ra_catalog_id a ∈ allowed.
Proof.
  intros [Ha Hal%bool_decide_eq_true]%elem_of_lfilter.
  destruct (apply_preferences_ok _ _ _ Hattempts) as (sorted & Hp & _ & _ & [l Hl] & _).
  assert (Hs : a ∈ sorted) by (rewrite Hl; set_solver). rewrite Hp in Hs. apply elem_of_lfilter in Hs. naive_solver.
Qed.
Lemma planned_distinct : NoDup (map ra_catalog_id (keep_allowed allowed attempts)).
Proof.
  destruct (resolve_chain_ok _ _ _ _ Hresolved) as (_ & Hn & _). destruct (apply_preferences_ok _ _ _ Hattempts) as (sorted & Hp & _ & _ & [l Hl] & _).
  eapply NoDup_sublist_map; [apply lfilter_sublist|]. eapply (NoDup_sublist_map _ _ sorted); [rewrite Hl; by apply sublist_inserts_r|].
  apply (fmap_Permutation ra_catalog_id) in Hp. rewrite Hp. eapply NoDup_sublist_map; [apply lfilter_sublist|done].
Qed.
Lemma planned_length : (length (keep_allowed allowed attempts) <= length requested)%nat.
Proof.
  destruct (resolve_chain_ok _ _ _ _ Hresolved) as (Hr & _). destruct (apply_preferences_ok _ _ _ Hattempts) as (sorted & Hp & _ & _ & [l Hl] & _).
  pose proof (sublist_length _ _ (lfilter_sublist (fun a => bool_decide (ra_catalog_id a ∈ allowed)) attempts)).
  apply Permutation_length in Hp. pose proof (sublist_length _ _ (lfilter_sublist (fun a => allows prefs (ra_provider a)) resolved)).
  rewrite Hl, length_app in Hp. rewrite <- Hr, length_map. unfold keep_allowed. lia.
Qed.
Lemma planned_order : ordered_by (rank_of prefs) (keep_allowed allowed attempts).
Proof.
  destruct (apply_preferences_ok _ _ _ Hattempts) as (sorted & _ & Ho & _ & Hpre & _). apply ordered_filter. by eapply ordered_prefix.
Qed.
Lemma planned_single : pp_allow_fallbacks prefs = false -> (length (keep_allowed allowed attempts) <= 1)%nat.
Proof.
  intros E. destruct (apply_preferences_ok _ _ _ Hattempts) as (sorted & _ & _ & _ & _ & Ha & _). rewrite E in Ha.
  pose proof (sublist_length _ _ (lfilter_sublist (fun a => bool_decide (ra_catalog_id a ∈ allowed)) attempts)) as Hl.
  rewrite Ha in Hl at 2. rewrite length_take in Hl. unfold keep_allowed. lia.
Qed.
Lemma plan_chain_sound c : entries = dedup (a_entries (catalog (auth_passthrough (pt_headers (ch_parts c))))) ->
  Z.of_nat (length requested) <= MAX_CANDIDATES ->
  ch_attempts c = keep_allowed allowed attempts -> keep_allowed allowed attempts <> [] ->
  (ch_group c <> None <-> (1 < length (ch_attempts c))%nat) ->
  (exists fields, ch_value c = VObject fields) -> obj_get (ch_value c) "models" = None -> obj_get (ch_value c) "provider" = None ->
  chain_sound catalog c prefs requested allowed.
Proof.
  intros He Hmax Hc Hne Hg Hf Hm Hpv. destruct (resolve_chain_ok _ _ _ _ Hresolved) as (Hr & _ & _ & Hall). pose proof planned_length as Hlen.
  split; rewrite ?Hc; try done.
  - apply planned_distinct.
  - unfold MAX_CANDIDATES in Hmax. destruct (keep_allowed allowed attempts); [done|cbn in *; lia].
  - eapply Forall_sub; [intros a Ha; by apply planned_sub in Ha as [Ha _]; exact Ha|]. rewrite Forall_forall in *. intros a Ha. split.
    + rewrite <- Hr. apply list_elem_of_fmap. by exists a.
    + destruct (Hall a Ha) as (ns & e & H1 & H2 & H3 & _ & H5). exists ns, e. by rewrite <- He.
  - rewrite Forall_forall. intros a Ha. by apply planned_sub in Ha as (_ & ? & _).
  - apply planned_order.
  - intros E. apply planned_single in E. destruct (keep_allowed allowed attempts); [done|cbn in *; lia].
  - rewrite Forall_forall. intros a Ha. by apply planned_sub in Ha as (_ & _ & ?).
  - by rewrite <- Hc.
Qed.
End PlanSound.

(** ** Execution *)
Section Execution.
  Context (to_vec : Value -> option (list byte)) (error_id : string) (send : nat -> Outgoing -> Sent) (cfg : RouterConfig) (surface : Surface).
(** A contact of a chain: which attempt it is, what was sent and what came back. *)
Definition contact_ok (c : Chain) (i : nat) (k : Contact) : Prop :=
  exists bytes, to_vec (obj_insert (ch_value c) "model" (VString (ra_body_model_value (ct_attempt k)))) = Some bytes
  /\ ct_out k = outgoing (rc_origin cfg (provider_plane (ra_provider (ct_attempt k)))) (request_from_parts (ch_parts c) bytes)
                  (Some (ch_logical c)) (execution_headers c i)
  /\ ct_result k = attempt_of error_id (error_lane surface) (send i (ct_out k)).
Lemma run_attempts_spec c : forall attempts index contacts r,
  (index + length attempts = length (ch_attempts c))%nat ->
  run_attempts to_vec error_id send cfg surface c index attempts = (contacts, r) ->
  map ct_attempt contacts `prefix_of` attempts
  /\ (forall i k, contacts !! i = Some k -> contact_ok c (index + i) k)
  /\ (forall i k, contacts !! i = Some k -> (S i < length contacts)%nat -> retry_reason (ct_result k) <> None)
  /\ ((exists k, last contacts = Some k /\ r = response (ct_result k)
        /\ (retry_reason (ct_result k) = None \/ length contacts = length attempts))
      \/ (attempts = [] /\ contacts = [])
      \/ (exists a, attempts !! length contacts = Some a /\ r = surface_error error_id surface INVALID_JSON
          /\ to_vec (obj_insert (ch_value c) "model" (VString (ra_body_model_value a))) = None)).
Proof.
  induction attempts as [|a attempts IH]; intros index contacts r Hl; cbn [run_attempts].
  { intros [= <- <-]. split; [apply prefix_nil|]. split; [done|]. split; [done|]. by right; left. }
  unfold chain_request. destruct (to_vec _) as [bytes|] eqn:Eb; cbn [mbind option_bind].
  2: { intros [= <- <-]. split; [apply prefix_nil|]. split; [done|]. split; [done|]. right; right. by exists a. }
  unfold proxy_attempt. set (out := outgoing _ _ _ _). set (res := attempt_of _ _ _).
  assert (Hk : contact_ok c (index + 0) (mkContact a out res)) by (rewrite Nat.add_0_r; by exists bytes).
  destruct (bool_decide (retry_reason res <> None) && bool_decide (S index < length (ch_attempts c))%nat) eqn:C.
  - apply andb_true_iff in C as [C1%bool_decide_eq_true C2%bool_decide_eq_true].
    destruct (run_attempts to_vec error_id send cfg surface c (S index) attempts) as [ks r'] eqn:E. intros [= <- <-].
    destruct (IH (S index) ks r' ltac:(cbn [length] in Hl; lia) E) as (Hp & Hc & Hr & He). split; [by apply prefix_cons|]. split; [|split].
    + intros [|i] k Hi; cbn in Hi; [by simplify_eq|]. apply Hc in Hi. by rewrite Nat.add_succ_r.
    + intros [|i] k Hi Hlt; cbn in Hi, Hlt; [by simplify_eq|]. apply (Hr i); [done|lia].
    + cbn in Hl. destruct He as [(k & Hk1 & Hk2 & Hk3)|[(-> & ->)|(b & Hb & Hr1 & Hr2)]].
      * left. exists k. split; [by destruct ks|]. split; [done|]. destruct Hk3; [by left|right; cbn; lia].
      * cbn in Hl. lia.
      * right; right. by exists b.
  - intros [= <- <-]. split; [cbn; by eexists|]. split; [intros [|i] k Hi; cbn in Hi; by simplify_eq|].
    split; [intros i k _ Hlt; cbn [length] in Hlt; lia|]. left. exists (mkContact a out res). split; [done|]. split; [done|]. cbn.
    apply andb_false_iff in C as [C%bool_decide_eq_false|C%bool_decide_eq_false]; [left; by apply dec_stable|].
    right. destruct attempts; [done|]. cbn in Hl. lia.
Qed.
End Execution.

Lemma obj_get_insert_ne v k x k' : k' <> k -> obj_get (obj_insert v k x) k' = obj_get v k'.
Proof.
  intros Hne. destruct v as [| | | | |fields]; try done. rewrite obj_get_insert. by rewrite bool_decide_false.
Qed.
Lemma normalize_other v s h v' k : normalize_fast_service_tier v s h = Ok v' -> k <> "serviceTier"%string -> k <> "service_tier"%string ->
  obj_get v' k = obj_get v k.
Proof.
  unfold normalize_fast_service_tier. destruct v; try done. cbv zeta. intros H Hk1 Hk2.
  repeat match type of H with (if ?c then _ else _) = _ => destruct c; try done end; simplify_eq; [done|].
  pose proof (obj_get_remove (VObject fields) "serviceTier" k) as Hr. rewrite bool_decide_false in Hr by done.
  rewrite obj_get_insert_ne by done. exact Hr.
Qed.
Lemma take_fast_spec h s path h' r : take_fast_service_tier_header h s path = (h', r) ->
  get_all h' SERVICE_TIER_HEADER = [] /\ (r = Ok false -> h' = h)
  /\ (r = Ok true -> path <> COUNT_TOKENS /\ exists v, get_all h SERVICE_TIER_HEADER = [v] /\ (v = "fast" \/ v = "priority")%string).
Proof.
  unfold take_fast_service_tier_header. destruct (get_all h SERVICE_TIER_HEADER) as [|v [|w l]] eqn:E; cbn [negb]; intros [= <- <-].
  - by rewrite E.
  - rewrite get_all_remove, bool_decide_true by done. split; [done|]. split; [by repeat case_match|]. intros H.
    destruct (bool_decide (v = "fast"%string) || bool_decide (v = "priority"%string)) eqn:C; cbn in H; [|done]. case_bool_decide; [done|]. split; [done|].
    exists v. split; [done|]. apply orb_true_iff in C as [C%bool_decide_eq_true|C%bool_decide_eq_true]; auto.
  - rewrite get_all_remove, bool_decide_true by done. done.
Qed.

(** ** Theorems *)
Section Theorems.
  Context (from_slice : list byte -> option Value) (to_vec : Value -> option (list byte)) (read_map : list byte -> RawBody).
  Context (prefs_from_value : Value -> option ProviderPreferences).
  Context (encode : list PolicyCandidate -> option (list byte)) (decode : list byte -> option PreflightResponse).
  Context (ask : Headers -> Plane -> list byte -> option Reply) (catalog : Headers -> Aggregate).
  Context (fresh_logical fresh_group : option string) (cfg : RouterConfig) (surface : Surface).
  Abbreviation prepared := (prepare from_slice to_vec read_map prefs_from_value encode decode ask catalog fresh_logical fresh_group cfg surface).

(** C8: A chain reaches execution only for an authenticated request whose body was
    read, and it is sound: at most 32 pairwise different catalogue models, every
    one requested by name and resolved by the current catalogue, admitted by the
    client's provider preferences, in their order, and granted by the account
    policy for exactly this chain; an execution group exists exactly when there
    is more than one attempt, and no router-only field is left in the body. *)
Theorem universal_route_sound (auth : result AuthError ()) (parts : Parts) (body : result BodyReadError (list byte)) (c : Chain) :
  prepared auth parts body = Ok (PlanChain c) ->
  auth = Ok () /\ rc_fallback_enabled cfg = true
  /\ exists bytes s value prefs requested proposed allowed,
     body = Ok bytes /\ extract_routing_selectors (read_map bytes) = Ok s /\ from_slice bytes = Some value
     /\ parse_preferences prefs_from_value value = Ok prefs
     /\ requested_models value (s_model s) = Ok requested /\ head requested = Some (s_model s)
     /\ policy_preflight encode decode (ask (auth_passthrough (pt_headers (ch_parts c)))) (map candidate_of proposed) = Ok allowed
     /\ ch_attempts c = keep_allowed allowed proposed
     /\ chain_sound catalog c prefs requested allowed.
Proof.
  unfold prepare. intros (? & Ha & H)%bind_Ok. destruct x. apply map_err_Ok in Ha.
  apply bind_Ok in H as (? & _ & H). apply bind_Ok in H as (bytes & Hb & H). apply map_err_Ok in Hb.
  apply bind_Ok in H as (s & Hs & H). apply map_err_Ok in Hs.
  destruct (take_fast_service_tier_header _ _ _) as [headers fast]. cbv zeta in H. apply bind_Ok in H as (fast_header & _ & H).
  destruct (_ && _).
  { unfold prepare_single in H. apply bind_Ok in H as ([p n] & _ & H). apply bind_Ok in H as (? & _ & H). by apply bind_Ok in H as (? & _ & [=]). }
  unfold prepare_chain in H. set (parts' := mkParts _ _ _ _) in H.
  apply bind_Ok in H as (value & Hv & H). apply ok_or_Ok in Hv. apply bind_Ok in H as ([] & Hg & H). apply guard_ok_Ok in Hg.
  apply bind_Ok in H as (prefs & Hpr & H). apply bind_Ok in H as (requested & Hrq & H). cbv zeta in H.
  apply bind_Ok in H as (entries & Hen & H). apply catalog_entries_Ok in Hen as [_ Hen].
  apply bind_Ok in H as (resolved & Hrs & H). apply bind_Ok in H as (attempts & Hat & H).
  apply bind_Ok in H as (allowed & Hal & H). apply map_err_Ok in Hal. apply bind_Ok in H as (value' & _ & H).
  destruct value' as [| | | | |fields]; try done. case_bool_decide as Hl; [done|].
  apply bind_Ok in H as (logical & _ & H).
  assert (Hplan : exists group, c = mkChain (obj_remove (obj_remove (VObject fields) "models") "provider") parts' (keep_allowed allowed attempts) logical group
            /\ (group <> None <-> (1 < length (keep_allowed allowed attempts))%nat)).
  { case_bool_decide; [apply bind_Ok in H as (g & _ & [= <-]); exists (Some g)|injection H as <-; exists None]; naive_solver. }
  destruct Hplan as (group & -> & Hgroup). split; [done|]. split; [done|].
  destruct (requested_models_ok _ _ _ Hrq) as (Hhd & _ & Hmax).
  exists bytes, s, value, prefs, requested, attempts, allowed. do 8 (split; [done|]).
  eapply plan_chain_sound; try done.
  - intros E. cbn in Hl. by rewrite E in Hl.
  - by eexists.
  - cbn [ch_value]. rewrite !obj_get_remove. by rewrite bool_decide_false, bool_decide_true.
  - cbn [ch_value]. rewrite !obj_get_remove. by rewrite bool_decide_true.
Qed.

(** A request without routing fields makes exactly one attempt, at the
    plane its namespace names (or the one the catalogue resolves an alias to),
    with the client's bytes and headers untouched; only a service-tier selector or
    an alias rewrites the body, and then in the fields of the tier and the model
    alone. *)
Theorem single_route_exact (error_id : string) (send : nat -> Outgoing -> Sent) (auth : result AuthError ()) (parts : Parts)
    (body : result BodyReadError (list byte)) (provider : ProviderNamespace) (req : Req) (logical : string) :
  prepared auth parts body = Ok (PlanSingle provider req logical) ->
  auth = Ok ()
  /\ fst (execute to_vec error_id send cfg surface (PlanSingle provider req logical))
     = [outgoing (rc_origin cfg (provider_plane provider)) req (Some logical) None]
  /\ exists bytes s native, body = Ok bytes /\ extract_routing_selectors (read_map bytes) = Ok s
     /\ s_has_models s = false /\ s_has_provider s = false
     /\ (forall p, provider_for_namespaced_model (s_model s) = Some p -> provider = p /\ native = None)
     /\ (provider_for_namespaced_model (s_model s) = None ->
         exists h ns e, find (dedup (a_entries (catalog h))) (s_model s) = Some (ns, e) /\ provider_for_namespace ns = Some provider
         /\ default (s_model s) native = e_native_id e)
     /\ (get_all (pt_headers parts) SERVICE_TIER_HEADER = [] -> s_has_service_tier_alias s = false -> native = None ->
         req = request_of parts bytes)
     /\ (q_body req = bytes \/ exists value value', from_slice bytes = Some value /\ to_vec value' = Some (q_body req)
         /\ forall k, k <> "model"%string -> k <> "serviceTier"%string -> k <> "service_tier"%string -> obj_get value' k = obj_get value k).
Proof.
  unfold prepare. intros (? & Ha & H)%bind_Ok. destruct x. apply map_err_Ok in Ha.
  apply bind_Ok in H as (? & _ & H). apply bind_Ok in H as (bytes & Hb & H). apply map_err_Ok in Hb.
  apply bind_Ok in H as (s & Hs & H). apply map_err_Ok in Hs.
  destruct (take_fast_service_tier_header _ _ _) as [headers fast] eqn:Et. cbv zeta in H.
  apply bind_Ok in H as (fast_header & Hfast & H). subst fast.
  destruct (negb (s_has_models s) && negb (s_has_provider s)) eqn:Hadv; cycle 1.
  { unfold prepare_chain in H. repeat (apply bind_Ok in H as (? & _ & H)). destruct x8; try done. case_bool_decide; [done|].
    apply bind_Ok in H as (? & _ & H). case_bool_decide; [by apply bind_Ok in H as (? & _ & [=])|done]. }
  apply andb_true_iff in Hadv as [Hm%negb_true_iff Hp%negb_true_iff].
  unfold prepare_single in H. apply bind_Ok in H as ([p native] & Hres & H). apply bind_Ok in H as (out & Hout & H).
  apply bind_Ok in H as (l & _ & [= -> <- ->]). apply take_fast_spec in Et as (_ & Hf & Htrue).
  split; [done|]. split; [done|]. exists bytes, s, native. do 4 (split; [done|]). unfold resolve_single in Hres. split; [|split; [|split]].
  - intros p Hpn. rewrite Hpn in Hres. by simplify_eq.
  - intros Hpn. rewrite Hpn in Hres. apply bind_Ok in Hres as (entries & Hen & Hres). apply catalog_entries_Ok in Hen as [_ ->].
    set (h := auth_passthrough _) in Hres. destruct (find _ (s_model s)) as [[ns e]|] eqn:Ef; [|done].
    apply bind_Ok in Hres as (q & Hq & [= -> <-]). apply ok_or_Ok in Hq. exists h, ns, e. split; [done|]. split; [done|].
    case_bool_decide; done.
  - intros Hnone Halias ->. destruct fast_header; [destruct (Htrue eq_refl) as (_ & v & Hv & _); congruence|].
    rewrite Halias in *. cbn. unfold single_body in Hout. cbn in Hout. simplify_eq. rewrite (Hf eq_refl). by destruct parts.
  - unfold single_body in Hout. destruct (fast_header || s_has_service_tier_alias s || bool_decide (native <> None)) eqn:Erw; cycle 1.
    { left. cbn. by simplify_eq. }
    right. apply bind_Ok in Hout as (value & Hv & Hout). apply ok_or_Ok in Hv. apply bind_Ok in Hout as (v1 & Hv1 & Hout). apply ok_or_Ok in Hout.
    exists value, (rewrite_model v1 native). split; [done|]. split; [done|]. intros k K1 K2 K3.
    assert (Hg : obj_get v1 k = obj_get value k).
    { destruct (fast_header || s_has_service_tier_alias s); [|by simplify_eq]. case_bool_decide; [done|]. by eapply normalize_other. }
    rewrite <- Hg. destruct native as [nm|]; [|done]. by apply obj_get_insert_ne.
Qed.
End Theorems.

(** C7: Nothing is executed twice on the router's account: the attempts made are a
    prefix of the planned chain, each at its own provider's plane, with its own
    model in the body, the same logical identity, and its number in the group (as
    no client can set them); every attempt but the last was answered by a proof
    that nothing had been executed, and the client gets the last answer. *)
Theorem fallback_needs_proof (to_vec : Value -> option (list byte)) (error_id : string) (send : nat -> Outgoing -> Sent) (cfg : RouterConfig)
    (surface : Surface) (c : Chain) (contacts : list Contact) (r : Response) :
  run_attempts to_vec error_id send cfg surface c 0 (ch_attempts c) = (contacts, r) ->
  map ct_attempt contacts `prefix_of` ch_attempts c
  /\ (forall i k, contacts !! i = Some k ->
      o_url (ct_out k) = String.app (rc_origin cfg (provider_plane (ra_provider (ct_attempt k)))) (default "/"%string (pt_path_query (ch_parts c)))
      /\ to_vec (obj_insert (ch_value c) "model" (VString (ra_body_model_value (ct_attempt k)))) = Some (o_body (ct_out k))
      /\ get_all (o_headers (ct_out k)) LOGICAL_REQUEST_ID_HEADER = [ch_logical c]
      /\ get_all (o_headers (ct_out k)) EXECUTION_GROUP_HEADER = option_list (ch_group c)
      /\ get_all (o_headers (ct_out k)) EXECUTION_ATTEMPT_HEADER = option_list ((fun _ => pretty (Z.of_nat i + 1)) <$> ch_group c)
      /\ get_all (o_headers (ct_out k)) SERVICE_TIER_HEADER = [])
  /\ (forall i k, contacts !! i = Some k -> (S i < length contacts)%nat ->
      match send i (ct_out k) with
      | Answered status headers _ _ => get_all headers EXECUTION_STATE_HEADER = [EXECUTION_STATE_NOT_STARTED]
          /\ ~ (200 <= status <= 299) /\ (~ (400 <= status <= 499) \/ status = 429)
      | SendFailed chain => Some IoConnectionRefused ∈ chain
      | HeaderTimeout => False
      end)
  /\ (ch_attempts c <> [] ->
      (exists k, last contacts = Some k /\ r = response (ct_result k)
        /\ (retry_reason (ct_result k) = None \/ length contacts = length (ch_attempts c)))
      \/ (exists a, ch_attempts c !! length contacts = Some a /\ r = surface_error error_id surface INVALID_JSON
          /\ to_vec (obj_insert (ch_value c) "model" (VString (ra_body_model_value a))) = None)).
Proof.
  intros H. apply (run_attempts_spec _ _ _ _ _ _ _ 0%nat _ _ eq_refl) in H as (Hp & Hc & Hr & He). split; [done|]. split; [|split].
  - intros i k Hi. destruct (Hc i k Hi) as (bytes & Hb & Ho & _). rewrite Ho. split; [done|]. split; [done|].
    rewrite !outgoing_headers. unfold execution_headers. by destruct (ch_group c).
  - intros i k Hi Hlt. destruct (Hc i k Hi) as (bytes & _ & _ & Hres). apply (Hr i k Hi) in Hlt. rewrite Hres in Hlt.
    destruct (retry_reason _) as [reason|] eqn:E; [|done]. apply attempt_of_retry in E. cbn in E. destruct (send i (ct_out k)); naive_solver.
  - intros Hne. destruct He as [He|[[? _]|He]]; [by left|done|by right].
Qed.

(** ** A concrete request with one fallback *)
Definition demo_entry (ns native : string) : string * CatalogEntry :=
  (ns, mkEntry (String.app ns (String.app "/" native)) native [native] None 1700000000 None None None None None None None None None None).
Definition demo_value : Value := VObject [("model", VString "openai/gpt-5.6"); ("models", VArray [VString "claude-opus-4-8"])]%string.
Definition demo_body : list byte := [Byte.x7b; Byte.x7d].
Definition demo_from_slice (b : list byte) : option Value := Some demo_value.
Definition demo_to_vec (v : Value) : option (list byte) := Some demo_body.
Definition demo_read_map (b : list byte) : RawBody := demo_raw.
Definition demo_prefs (v : Value) : option ProviderPreferences := None.
Definition demo_encode (cs : list PolicyCandidate) : option (list byte) := Some demo_body.
Definition demo_decode (b : list byte) : option PreflightResponse := Some (mkPreflight 1 Strict ["openai/gpt-5.6"; "anthropic/claude-opus-4-8"]%string).
Definition demo_ask (h : Headers) (p : Plane) (b : list byte) : option Reply := Some (mkReply 200 None [CEnd]).
Definition demo_catalog (h : Headers) : Aggregate :=
  mkAggregate [demo_entry NS_ANTHROPIC "claude-opus-4-8"; demo_entry NS_OPENAI "gpt-5.6"] [] false.
Definition demo_cfg : RouterConfig := mkRConfig (fun p => String.app "http://" (namespace p)) true (256 * MIB).
Definition demo_parts : Parts :=
  mkParts "POST" "/v1/chat/completions" (Some "/v1/chat/completions"%string) [("x-api-key", "k"); (EXECUTION_GROUP_HEADER, "forged")]%string.
Definition demo_prepare : result RouterError Plan :=
  prepare demo_from_slice demo_to_vec demo_read_map demo_prefs demo_encode demo_decode demo_ask demo_catalog
    (Some "logical"%string) (Some "group"%string) demo_cfg Chat (Ok ()) demo_parts (Ok demo_body).
Definition demo_chain : Chain := Eval vm_compute in
  match demo_prepare with Ok (PlanChain c) => c | _ => mkChain VNull demo_parts [] EmptyString None end.
(** The first plane refuses before executing, the second answers. *)
Definition demo_send (i : nat) (o : Outgoing) : Sent :=
  match i with O => Answered 503 [(EXECUTION_STATE_HEADER, EXECUTION_STATE_NOT_STARTED)] [] true | _ => Answered 200 [] demo_body true end.

Lemma universal_route_sound_witness :
  demo_prepare = Ok (PlanChain demo_chain) /\ map ra_catalog_id (ch_attempts demo_chain) = ["openai/gpt-5.6"; "anthropic/claude-opus-4-8"]%string
  /\ rc_fallback_enabled demo_cfg = true.
Proof.
  assert (H : demo_prepare = Ok (PlanChain demo_chain)) by (vm_compute; reflexivity). split; [exact H|]. split; [reflexivity|].
  exact (proj1 (proj2 (universal_route_sound demo_from_slice demo_to_vec demo_read_map demo_prefs demo_encode demo_decode demo_ask demo_catalog
    (Some "logical"%string) (Some "group"%string) demo_cfg Chat (Ok ()) demo_parts (Ok demo_body) demo_chain H))).
Defined.
Lemma fallback_needs_proof_witness :
  exists contacts r, run_attempts demo_to_vec "req_0" demo_send demo_cfg Chat demo_chain 0 (ch_attempts demo_chain) = (contacts, r)
  /\ length contacts = 2%nat /\ r_status r = 200 /\ map ct_attempt contacts `prefix_of` ch_attempts demo_chain.
Proof.
  eexists _, _. assert (H : run_attempts demo_to_vec "req_0" demo_send demo_cfg Chat demo_chain 0 (ch_attempts demo_chain) = (_, _)) by (vm_compute; reflexivity).
  split; [exact H|]. split; [reflexivity|]. split; [reflexivity|].
  exact (proj1 (fallback_needs_proof demo_to_vec "req_0" demo_send demo_cfg Chat demo_chain _ _ H)).
Defined.
Definition demo_single_map (b : list byte) : RawBody :=
  RMap [mkMember (Ok "model"%string) (Ok (VString "kimi/k3")) (Ok ())] (Ok ()) (Ok ()).
Lemma single_route_exact_witness :
  prepare demo_from_slice demo_to_vec demo_single_map demo_prefs demo_encode demo_decode demo_ask demo_catalog
    (Some "logical"%string) None demo_cfg Messages (Ok ()) demo_parts (Ok demo_body)
  = Ok (PlanSingle NsKimi (request_of demo_parts demo_body) "logical")
  /\ fst (execute demo_to_vec "req_0" demo_send demo_cfg Messages (PlanSingle NsKimi (request_of demo_parts demo_body) "logical"))
     = [outgoing "http://kimi" (request_of demo_parts demo_body) (Some "logical"%string) None].
Proof.
  assert (H : prepare demo_from_slice demo_to_vec demo_single_map demo_prefs demo_encode demo_decode demo_ask demo_catalog
    (Some "logical"%string) None demo_cfg Messages (Ok ()) demo_parts (Ok demo_body)
    = Ok (PlanSingle NsKimi (request_of demo_parts demo_body) "logical")) by (vm_compute; reflexivity).
  split; [exact H|].
  exact (proj1 (proj2 (single_route_exact _ _ _ _ _ _ _ _ _ _ _ _ "req_0" demo_send _ _ _ _ _ _ H))).
Defined.
