(* ===== verification/RouterBody.v ===== *)
(** * Materializing a universal request body ([crates/router/src/routing.rs])

    [read_body_with_timeouts]: the declared length reserves its weight in two
    budgets before anything is read, chunks are stored through the bounded body
    store under an idle and an absolute deadline, and every early return gives
    everything back.  The state is the [World] of [BodyStore] and the gauge of
    admission units.  The clock, the arrivals of the stream and the operating
    system are arguments. *)
From S2P Require Import Prelude Text ApiLimits Budget BodyStore MeterUsage RouterWire RouterRoute.
#[local] Open Scope Z_scope.

Definition BODY_ADMISSION_UNIT_BYTES : Z := MIB.
(** What [AppState] contributes: the two budgets, the spool factory, the limits. *)
Record AppBody := mkAppBody {
  ab_storage : BudgetRef; ab_memory : BudgetRef; ab_factory : Factory; ab_config : StorageConfig; ab_usize_max : Z }.
(** The world and the gauge [body_units] of the metrics. *)
Record Gauged := mkGauged { g_world : World; g_units : Z }.
(** [BodyMetricUnits]: [new], [replace] and [Drop]. *)
Definition metric_new (g : Gauged) (units : Z) : Gauged := mkGauged (g_world g) (g_units g + units).
Definition metric_replace (g : Gauged) (held units : Z) : Gauged :=
  mkGauged (g_world g) (if held <? units then g_units g + (units - held) else g_units g - (held - units)).
Definition metric_drop (g : Gauged) (held : Z) : Gauged := mkGauged (g_world g) (g_units g - held).

Definition body_units_for_len (length body_limit : Z) : Z :=
  let max_units := Z.max 1 ((body_limit + (BODY_ADMISSION_UNIT_BYTES - 1)) / BODY_ADMISSION_UNIT_BYTES) mod 2 ^ 32 in
  Z.max 1 (Z.min max_units (sat_u64 (length + (BODY_ADMISSION_UNIT_BYTES - 1)) / BODY_ADMISSION_UNIT_BYTES)).
Definition declared_body_admission_units (h : Headers) (usize_max body_limit : Z) : result BodyReadError (option Z) :=
  match header h "content-length" >>? to_str >>? parse_unsigned_max usize_max with
  | None => Ok None
  | Some length => if body_limit <? length then Err BTooLarge else Ok (Some (body_units_for_len length body_limit))
  end.

(** One turn of the read loop: the clock at its top, what the timed wait for the
    next chunk returned, the clock after it, and the operating system while the
    chunk is stored. *)
Inductive Arrival : Type := Elapsed | Ended | Broken | Arrived (chunk : list byte).
Record Turn := mkTurn { t_now : Z; t_arrival : Arrival; t_after : Z; t_io : PushIo }.
Definition push_error (e : StorageError) : BodyReadError :=
  match e with TooLarge | StArithmeticOverflow => BTooLarge | _ => BOverloaded end.
(** The loop ends with the store, or with an error after the store was dropped.
    [idle] and [max] are the two timeouts; a stream that stops arriving elapses. *)
Fixpoint read_loop (idle max started last_progress : Z) (w : World) (s : BodyStore) (turns : list Turn)
    : result BodyReadError BodyStore * World :=
  match turns with
  | [] => (Err BTimeout, drop_store w s)
  | t :: turns =>
      if (idle <? t_now t - last_progress) || (max <? t_now t - started) then (Err BTimeout, drop_store w s)
      else match t_arrival t with
           | Elapsed => (Err BTimeout, drop_store w s)
           | Ended => (Ok s, w)
           | Broken => (Err BTransport, drop_store w s)
           | Arrived [] => read_loop idle max started last_progress w s turns
           | Arrived chunk =>
               match push (t_io t) w s chunk with
               | (Ok _, w, s) => read_loop idle max started (t_after t) w s turns
               | (Err e, w, s) => (Err (push_error e), drop_store w s)
               end
           end
  end.

(** [BodyOwnership]: the lease of the stored body and the units it is gauged by. *)
Record BodyOwnership := mkOwnership { bo_stored : StoredBodyLease; bo_metric_units : Z }.
Record ReadEnv := mkReadEnv {
  re_started : Z; re_turns : list Turn; re_idle : Z; re_max : Z; re_clone_ok : bool; re_flush : bool; re_read : ReadIo }.
Definition read_body_with_timeouts (app : AppBody) (h : Headers) (env : ReadEnv) (g : Gauged)
    : result BodyReadError (list byte * BodyOwnership) * Gauged :=
  match as_usize (ab_usize_max app) (request_limit (ab_config app)) with
  | Err _ => (Err BTooLarge, g)
  | Ok body_limit =>
    match declared_body_admission_units h (ab_usize_max app) body_limit with
    | Err e => (Err e, g)
    | Ok declared =>
      let initial_units := default 1 declared in
      let initial_weight := initial_units * MIB in
      match try_reserve (budgets (g_world g)) (ref_cell (ab_storage app)) initial_weight with
      | Err _ => (Err BOverloaded, g)
      | Ok (h1, storage) =>
        match try_reserve h1 (ref_cell (ab_memory app)) initial_weight with
        | Err _ => (Err BOverloaded, mkGauged (with_budgets (g_world g) (drop_res h1 storage)) (g_units g))
        | Ok (h2, memory) =>
          let w2 := with_budgets (g_world g) h2 in
          let g2 := metric_new (mkGauged w2 (g_units g)) initial_units in
          if negb (re_clone_ok env) then (Err BOverloaded, metric_drop (mkGauged (drop_two w2 storage memory) (g_units g2)) initial_units)
          else
            match start (ab_usize_max app) w2 (ab_config app) (ab_storage app) (ab_memory app) storage memory (ab_factory app) with
            | (Err _, w3) => (Err BOverloaded, metric_drop (mkGauged w3 (g_units g2)) initial_units)
            | (Ok store, w3) =>
              match read_loop (re_idle env) (re_max env) (re_started env) (re_started env) w3 store (re_turns env) with
              | (Err e, w4) => (Err e, metric_drop (mkGauged w4 (g_units g2)) initial_units)
              | (Ok store, w4) =>
                match finish (re_flush env) w4 store with
                | (Err _, w5) => (Err BOverloaded, metric_drop (mkGauged w5 (g_units g2)) initial_units)
                | (Ok stored, w5) =>
                  match into_bytes (re_read env) (ab_usize_max app) w5 stored with
                  | (Err _, w6) => (Err BOverloaded, metric_drop (mkGauged w6 (g_units g2)) initial_units)
                  | (Ok (bytes, lease), w6) =>
                      let units := body_units_for_len (len bytes) body_limit in
                      (Ok (bytes, mkOwnership lease units), metric_replace (mkGauged w6 (g_units g2)) initial_units units)
                  end
                end
              end
            end
        end
      end
    end
  end.
(** Dropping the ownership: the lease, then the gauge. *)
Definition drop_ownership (g : Gauged) (o : BodyOwnership) : Gauged :=
  metric_drop (mkGauged (drop_lease (g_world g) (bo_stored o)) (g_units g)) (bo_metric_units o).

(** ** Lemmas *)
Fixpoint arrived (turns : list Turn) : list byte :=
  match turns with
  | [] => []
  | t :: turns => match t_arrival t with Arrived chunk => chunk ++ arrived turns | _ => [] end
  end.
Lemma body_units_range length limit : 0 <= length -> 1 <= body_units_for_len length limit <= u32_max.
Proof.
  intros Hl. unfold body_units_for_len. set (m := _ mod 2 ^ 32). assert (0 <= m < 2 ^ 32) by (apply Z.mod_pos_bound; lia).
  unfold u32_max. lia.
Qed.
Lemma unsigned_value_nonneg s z : unsigned_value s = Some z -> 0 <= z.
Proof.
  assert (H : forall s acc z, 0 <= acc -> digits_value acc s = Some z -> 0 <= z).
  { clear. induction s as [|c s IH]; intros acc z Ha Hd; cbn in Hd; [by simplify_eq|]. destruct (byte_between 48 57 c) eqn:E; [|done].
    apply IH in Hd; [done|]. unfold byte_between in E. lia. }
  unfold unsigned_value. destruct s; [done|]. by apply H.
Qed.
Lemma parse_unsigned_max_range max s z : parse_unsigned_max max s = Some z -> 0 <= z <= max.
Proof.
  unfold parse_unsigned_max. destruct s as [|c s]; [done|]. intros (v & Hv & H)%bind_Some.
  destruct (Z.leb_spec v max); [|done]. simplify_eq. split; [|done]. destruct (_ =? 43); by apply unsigned_value_nonneg in Hv.
Qed.
Lemma declared_units_range h usize limit d : declared_body_admission_units h usize limit = Ok d -> 1 <= default 1 d <= u32_max.
Proof.
  unfold declared_body_admission_units. destruct (_ >>? parse_unsigned_max usize) as [l|] eqn:E; [|intros [= <-]; by vm_compute].
  destruct (limit <? l); [done|]. intros [= <-]. apply body_units_range. apply bind_Some in E as (? & _ & E). by apply parse_unsigned_max_range in E as [? _].
Qed.
Lemma try_reserve_alloc h l n h' r l' : try_reserve h l n = Ok (h', r) -> is_Some (h !! l') -> is_Some (h' !! l').
Proof.
  unfold try_reserve, acquire. intros (u & _ & H)%bind_Ok Hs. apply bind_Ok in H as (h1 & H & [= <- <-]).
  apply bind_Ok in H as (i & _ & [= <-]). destruct (decide (l = l')) as [->|]; [rewrite lookup_insert_eq; by eexists|by rewrite lookup_insert_ne].
Qed.
Lemma read_loop_ok idle max started frame turns : forall last w s b res w',
  store_inv w s frame -> body_contents s = Some b -> read_loop idle max started last w s turns = (res, w') ->
  match res with
  | Ok s' => store_inv w' s' frame /\ body_contents s' = Some (b ++ arrived turns) /\ st_config s' = st_config s
      /\ Exists (fun t => t_arrival t = Ended) turns
  | Err _ => owned (budgets w') frame
  end.
Proof.
  induction turns as [|t turns IH]; intros last w s b res w' HI Hb; cbn [read_loop arrived].
  { intros [= <- <-]. by apply drop_store_owned, HI. }
  destruct (_ || _); [intros [= <- <-]; by apply drop_store_owned, HI|].
  destruct (t_arrival t) as [| | |[|x chunk]] eqn:Ea; cbn [app]; try (intros [= <- <-]; by apply drop_store_owned, HI).
  - intros [= <- <-]. rewrite app_nil_r. split; [done|]. split; [done|]. split; [done|]. by apply Exists_cons_hd.
  - intros H. apply (IH _ _ _ _ _ _ HI Hb) in H. destruct res; [|done]. destruct H as (? & ? & ? & ?). do 3 (split; [done|]). by apply Exists_cons_tl.
  - destruct (push (t_io t) w s (x :: chunk)) as [[r1 w1] s1] eqn:Ep. apply (push_inv _ _ _ _ _ _ _ _ HI) in Ep as (HI1 & Hc & _ & Ho).
    destruct r1 as [[]|e]; [|intros [= <- <-]; by apply drop_store_owned, HI1].
    destruct Ho as (b' & Hb' & Hb1). rewrite Hb in Hb'. simplify_eq. intros H. apply (IH _ _ _ _ _ _ HI1 Hb1) in H.
    destruct res; [|done]. destruct H as (? & Hbs & Hcs & ?). rewrite <- (assoc_L (++)) in Hbs. split; [done|]. split; [exact Hbs|].
    split; [congruence|]. by apply Exists_cons_tl.
Qed.
Lemma metric_drop_new g units w : metric_drop (mkGauged w (g_units (metric_new g units))) units = mkGauged w (g_units g).
Proof. unfold metric_drop, metric_new. cbn. f_equal. lia. Qed.
Lemma metric_replace_new g units units' w :
  metric_replace (mkGauged w (g_units (metric_new g units))) units units' = mkGauged w (g_units g + units').
Proof. unfold metric_replace, metric_new. cbn. f_equal. destruct (Z.ltb_spec units units'); lia. Qed.

(** ** Theorem *)
(** C9: Whatever the client, the clock and the operating system do,
    reading a body leaks nothing: an error returns both budgets and the gauge to
    what the other owners hold; a success hands over exactly the arrived bytes,
    within the request limit and only after the stream ended, together with the
    reservations and the gauge units that dropping them gives back. *)
Theorem body_admission_exact (app : AppBody) (h : Headers) (env : ReadEnv) (g : Gauged) (frame : list Reservation) :
  owned (budgets (g_world g)) frame ->
  is_Some (budgets (g_world g) !! ref_cell (ab_storage app)) -> is_Some (budgets (g_world g) !! ref_cell (ab_memory app)) ->
  is_u64 (request_limit (ab_config app)) -> 0 <= memory_threshold (ab_config app) ->
  match read_body_with_timeouts app h env g with
  | (Ok (bytes, o), g') =>
      bytes = arrived (re_turns env) /\ len bytes <= request_limit (ab_config app)
      /\ Exists (fun t => t_arrival t = Ended) (re_turns env)
      /\ bo_metric_units o = body_units_for_len (len bytes) (request_limit (ab_config app)) /\ g_units g' = g_units g + bo_metric_units o
      /\ owned (budgets (g_world g')) (lease_storage (bo_stored o) :: lease_memory (bo_stored o) :: frame)
      /\ owned (budgets (g_world (drop_ownership g' o))) frame /\ g_units (drop_ownership g' o) = g_units g
  | (Err _, g') => owned (budgets (g_world g')) frame /\ g_units g' = g_units g
  end.
Proof.
  intros HO Hs Hm Hlim Hthr. unfold read_body_with_timeouts, as_usize.
  destruct (_ <=? _); [|done]. destruct (declared_body_admission_units _ _ _) as [declared|] eqn:Ed; [|done].
  apply declared_units_range in Ed. set (units := default 1 declared) in *. cbv zeta.
  assert (Hw : is_u64 (units * MIB)) by (unfold is_u64, u32_max, MIB in *; width_lia).
  destruct (try_reserve _ _ _) as [[h1 storage]|] eqn:E1; [|done].
  pose proof (try_reserve_alloc _ _ _ _ _ _ E1 Hm) as Hm1. apply (try_reserve_owned _ _ _ _ _ _ HO Hs Hw) in E1 as (HO1 & _).
  destruct (try_reserve h1 _ _) as [[h2 memory]|] eqn:E2; [|cbn; split; [by apply drop_res_owned|done]].
  apply (try_reserve_owned _ _ _ _ _ _ HO1 Hm1 Hw) in E2 as (HO2 & _). apply owned_swap in HO2.
  destruct (re_clone_ok env); cbn [negb]; [|rewrite metric_drop_new; split; [by apply drop_two_owned|done]].
  pose proof (start_accepts_exactly (ab_usize_max app) (with_budgets (g_world g) h2) (ab_config app) (ab_storage app) (ab_memory app) storage memory (ab_factory app) frame HO2 Hlim Hthr) as Hst.
  destruct (start _ _ _ _ _ _ _ _) as [[store|] w3] eqn:Est; cbn zeta in Hst; [|rewrite metric_drop_new; by destruct Hst as (_ & _ & ?)].
  destruct Hst as (_ & -> & Hb0 & _ & HI). assert (Hcfg : st_config store = ab_config app).
  { unfold start in Est. destruct (StorageConfig_validate _ _) eqn:Ev; [|done]. destruct (_ || _); [done|]. injection Est as <-.
    unfold StorageConfig_validate in Ev. by inv_ok. }
  destruct (read_loop _ _ _ _ _ _ _) as [[store'|] w4] eqn:Er; apply (read_loop_ok _ _ _ frame _ _ _ _ _ _ _ HI Hb0) in Er;
    [|rewrite metric_drop_new; done]. destruct Er as (HI4 & Hb4 & Hc4 & Hend). change (body_contents store' = Some (arrived (re_turns env))) in Hb4.
  destruct (finish _ _ _) as [[stored|] w5] eqn:Ef; apply (finish_inv _ _ _ _ _ _ HI4) in Ef; [|rewrite metric_drop_new; done].
  destruct Ef as [HB Hc5]. destruct (into_bytes _ _ _ _) as [[[bytes lease]|] w6] eqn:Ei; apply (into_bytes_inv _ _ _ _ _ _ _ HB) in Ei;
    [|rewrite metric_drop_new; done]. destruct Ei as [-> HO6]. rewrite metric_replace_new.
  assert (Ebytes : stored_contents stored = arrived (re_turns env)) by (rewrite Hb4 in Hc5; by injection Hc5).
  split; [done|]. split.
  { pose proof (store_len _ _ _ _ HI4 Hb4) as Hsl. pose proof (inv_len _ _ _ HI4) as Hl4. rewrite Hc4, Hcfg in Hl4. unfold len. rewrite Ebytes. lia. }
  split; [done|]. split; [done|]. split; [done|]. split; [done|]. split; [by apply drop_two_owned|].
  cbn. lia.
Qed.

Definition demo_body_world : World :=
  mkWorld {[ 1%positive := mkInner 100 MIB 0; 2%positive := mkInner 100 MIB 0 ]} {[ 7%positive := 0 ]}.
Lemma demo_body_owned : owned (budgets demo_body_world) [].
Proof.
  assert (H : forall l i, budgets demo_body_world !! l = Some i -> i = mkInner 100 MIB 0).
  { unfold demo_body_world; cbn [budgets]. intros l i [[<- <-]|[_ [<- <-]%lookup_singleton_Some]]%lookup_insert_Some; auto. }
  split; [intros l i ->%H; vm_compute; intuition discriminate|intros l i ->%H; reflexivity|intros r Hr; by apply elem_of_nil in Hr..].
Qed.
Definition demo_app : AppBody := mkAppBody (mkRef 8 1) (mkRef 16 2) (mkFactory 7) (mkConfig 10 2) 1000.
Definition demo_env : ReadEnv :=
  mkReadEnv 0 [mkTurn 1 (Arrived [Byte.x61; Byte.x62; Byte.x63]) 2 demo_io; mkTurn 3 Ended 3 demo_io] 5 50 true true (mkReadIo true true true).
Lemma body_admission_exact_witness :
  match read_body_with_timeouts demo_app [("content-length", "3")]%string demo_env (mkGauged demo_body_world 0) with
  | (Ok (bytes, o), g') => bytes = [Byte.x61; Byte.x62; Byte.x63] /\ g_units g' = 1 /\ owned (budgets (g_world (drop_ownership g' o))) []
  | _ => False
  end.
Proof.
  pose proof (body_admission_exact demo_app [("content-length", "3")]%string demo_env (mkGauged demo_body_world 0) []
    demo_body_owned ltac:(by eexists) ltac:(by eexists) ltac:(by vm_compute) ltac:(by vm_compute)) as H.
  assert (E : exists b o g', read_body_with_timeouts demo_app [("content-length", "3")]%string demo_env (mkGauged demo_body_world 0) = (Ok (b, o), g')
    /\ b = [Byte.x61; Byte.x62; Byte.x63] /\ g_units g' = 1) by (do 3 eexists; repeat split; vm_compute; reflexivity).
  destruct E as (b & o & g' & E & Hb & Hg). rewrite E in H |- *. split; [exact Hb|]. split; [exact Hg|]. apply H.
Defined.
