(* ===== verification/RouterModels.v ===== *)
(** * Configuration, identities and the public model list of the router

    [crates/router/src/config.rs], [identity.rs], [pricing.rs] and the model
    surfaces of [main.rs]: the key-scoped prices of the aggregated catalogue, and
    the JSON a client sees.  Environment variables, entropy, codecs and the
    pricing authorities are arguments. *)
From S2P Require Import Prelude Text ApiLimits MeterUsage BodyStore RouterWire RouterCatalog RouterPolicy.
#[local] Open Scope Z_scope.

(** ** Configuration *)
Inductive EnvVar : Type := NotPresent | NotUnicode | Present (value : string).
Record Config := mkConfigR {
  cf_host : string; cf_port : Z; cf_anthropic_origin : string; cf_openai_origin : string; cf_gemini_origin : string; cf_kimi_origin : string;
  cf_fallback_enabled : bool; cf_body_limits : BodyLimits; cf_body_idle_secs : Z; cf_body_max_secs : Z; cf_body_spool_root : string }.
Definition ROUTER_BODY_IDLE_SECS : Z := 120.
Definition ROUTER_BODY_MAX_SECS : Z := 30 * 60.
Section FromEnv.
  Context (env : string -> EnvVar).
Definition env_or (key default : string) : string := match env key with Present v => v | _ => default end.
Definition parse_mib (key : string) (default : ByteLimit) : result string ByteLimit :=
  match env key with
  | Present v => map_err (fun _ => key) (parse_decimal_mib v)
  | NotPresent => Ok default
  | NotUnicode => Err key
  end.
Definition parse_seconds (key : string) (default : Z) : result string Z :=
  match env key with
  | Present v => map_err (fun _ => key) (parse_decimal_seconds v)
  | NotPresent => Ok default
  | NotUnicode => Err key
  end.
Definition parse_strict_bool (key : string) (value : option string) (default : bool) : result string bool :=
  match value with
  | None => Ok default
  | Some v =>
      if bool_decide (v = "0"%string) then Ok false
      else if bool_decide (v = "1"%string) then Ok true
      else if eq_ignore_ascii_case v "false" then Ok false
      else if eq_ignore_ascii_case v "true" then Ok true
      else Err key
  end.
Definition ends_with_slash (s : string) : bool := bool_decide (String.get (String.length s - 1) s = Some slash).
Definition origin_ok (name origin : string) : result string () :=
  guard_ok (starts_with "http://" origin || starts_with "https://" origin) name;;
  guard_ok (negb (ends_with_slash origin)) name.
(** [Path::is_absolute] on Unix. *)
Definition is_absolute (path : string) : bool := starts_with "/" path.
Definition config_from_env : result string Config :=
  let anthropic_origin := env_or "CLAUDE_ROUTER_ANTHROPIC_ORIGIN" "http://127.0.0.1:8790" in
  request ← parse_mib "CLAUDE_ROUTER_MAX_BODY_MIB" (bl_request current_ROUTER);
  memory_budget ← parse_mib "CLAUDE_ROUTER_BODY_MEMORY_BUDGET_MIB" (bl_memory_budget current_ROUTER);
  spool_budget ← parse_mib "CLAUDE_ROUTER_BODY_SPOOL_BUDGET_MIB" (bl_spool_budget current_ROUTER);
  memory_threshold ← parse_mib "CLAUDE_ROUTER_BODY_MEMORY_THRESHOLD_MIB" (bl_memory_threshold current_ROUTER);
  limits ← map_err (fun _ => "invalid router body limits"%string)
    (BodyLimits_validate (Build_BodyLimits request memory_budget spool_budget memory_threshold (bl_response current_ROUTER)) hard_SPOOL);
  guard_ok (bl_request limits <=? bl_request current_ROUTER) "CLAUDE_ROUTER_MAX_BODY_MIB"%string;;
  guard_ok (bl_memory_budget limits <=? bl_memory_budget current_ROUTER) "CLAUDE_ROUTER_BODY_MEMORY_BUDGET_MIB"%string;;
  guard_ok (bl_spool_budget limits <=? bl_spool_budget current_ROUTER) "CLAUDE_ROUTER_BODY_SPOOL_BUDGET_MIB"%string;;
  guard_ok ((bl_memory_threshold limits =? bl_request limits) || (bl_memory_threshold limits =? bl_memory_threshold current_ROUTER))
    "CLAUDE_ROUTER_BODY_MEMORY_THRESHOLD_MIB"%string;;
  idle ← parse_seconds "CLAUDE_ROUTER_BODY_IDLE_SECS" ROUTER_BODY_IDLE_SECS;
  max ← parse_seconds "CLAUDE_ROUTER_BODY_MAX_SECS" ROUTER_BODY_MAX_SECS;
  guard_ok (idle <=? max) "idle timeout"%string;;
  guard_ok ((idle <=? ROUTER_BODY_IDLE_SECS) && (max <=? ROUTER_BODY_MAX_SECS)) "upload timeouts"%string;;
  spool_root ← (match env "CLAUDE_ROUTER_BODY_SPOOL_ROOT" with Present v => Ok v | _ => Err "CLAUDE_ROUTER_BODY_SPOOL_ROOT"%string end);
  guard_ok (is_absolute spool_root) "CLAUDE_ROUTER_BODY_SPOOL_ROOT"%string;;
  port ← ok_or (parse_unsigned_max u16_max (env_or "CLAUDE_ROUTER_PORT" "8798")) "CLAUDE_ROUTER_PORT"%string;
  fallback ← parse_strict_bool "CLAUDE_ROUTER_FALLBACK_ENABLED"
    (match env "CLAUDE_ROUTER_FALLBACK_ENABLED" with Present v => Some v | _ => None end) false;
  let cfg := mkConfigR (env_or "CLAUDE_ROUTER_HOST" "127.0.0.1") port anthropic_origin
               (env_or "CLAUDE_ROUTER_OPENAI_ORIGIN" "http://127.0.0.1:8792") (env_or "CLAUDE_ROUTER_GEMINI_ORIGIN" "http://127.0.0.1:8794")
               (env_or "CLAUDE_ROUTER_KIMI_ORIGIN" "http://127.0.0.1:8803") fallback limits idle max spool_root in
  origin_ok "CLAUDE_ROUTER_ANTHROPIC_ORIGIN" (cf_anthropic_origin cfg);;
  origin_ok "CLAUDE_ROUTER_OPENAI_ORIGIN" (cf_openai_origin cfg);;
  origin_ok "CLAUDE_ROUTER_GEMINI_ORIGIN" (cf_gemini_origin cfg);;
  origin_ok "CLAUDE_ROUTER_KIMI_ORIGIN" (cf_kimi_origin cfg);;
  Ok cfg.
End FromEnv.

(** ** Identities *)
Definition hex_digit (n : Z) : Ascii.ascii := Ascii.ascii_of_N (Z.to_N (if n <? 10 then 48 + n else 87 + n)).
(** [{:02x}] of a byte. *)
Definition hex2 (b : Z) : string := String (hex_digit (Z.shiftr b 4)) (String (hex_digit (Z.land b 15)) EmptyString).
Definition hex_bytes (l : list Z) : string := foldr (fun b s => String.app (hex2 b) s) EmptyString l.
Definition canonical_uuid_v4 (bytes : list Z) : string :=
  let bytes := <[6%nat := Z.lor (Z.land (bytes !!! 6%nat) 15) 64]> bytes in
  let bytes := <[8%nat := Z.lor (Z.land (bytes !!! 8%nat) 63) 128]> bytes in
  let part a n := hex_bytes (take n (drop a bytes)) in
  String.concat "-" [part 0 4; part 4 2; part 6 2; part 8 2; part 10 6]%nat.
(** [None]: the operating system has no entropy. *)
Definition fresh_uuid_v4 (entropy : option (list Z)) : result () string := ok_or (canonical_uuid_v4 <$> entropy) ().

(** ** Key-scoped prices *)
Definition UNIT : string := "nano_usd_per_million_tokens".
Definition MAX_CANDIDATES_PER_REQUEST : nat := 256.
Definition PRICING_MAX_BODY_BYTES : Z := 1024 * 1024.
Record PricingCandidate := mkPricing { pg_id : string; pg_provider_id : string; pg_model_id : string }.
Inductive PricingMode : Type := PmAdmin | PmLegacy | PmStrict.
Record RateCard := mkRateCard { rt_input : string; rt_output : string; rt_cache_read : string; rt_cache_write : string; rt_cache_write_1h : option string }.
Record ContextTier := mkTier { tier_threshold : Z; tier_standard : RateCard; tier_priority : option RateCard }.
Record PricingEntry := mkPricingEntry { pe_id : string; pe_standard : RateCard; pe_priority : option RateCard; pe_long_context : option ContextTier }.
Record PricingResponse := mkPricingResponse { ps_schema_version : Z; ps_unit : string; ps_mode : PricingMode; ps_entries : list PricingEntry }.
Inductive PricingError : Type := PricingUnauthorized | PricingUnavailable.

Definition is_digit (c : Ascii.ascii) : bool := byte_between 48 57 c.
Definition canonical_nonnegative_integer (v : string) : bool :=
  bool_decide (v = "0"%string)
  || match v with EmptyString => false | String c _ => is_digit c && negb (byte_of c =? 48) && all_bytes is_digit v end.
Definition valid_rate_card (c : RateCard) : bool :=
  forallb canonical_nonnegative_integer ([rt_input c; rt_output c; rt_cache_read c; rt_cache_write c] ++ option_list (rt_cache_write_1h c)).
Definition valid_optional_card (c : option RateCard) : bool := from_option valid_rate_card true c.
Definition valid_tier (t : option ContextTier) : bool :=
  from_option (fun t => negb (tier_threshold t =? 0) && valid_rate_card (tier_standard t) && valid_optional_card (tier_priority t)) true t.
Fixpoint entries_in_order (cs : list PricingCandidate) (previous : option nat) (entries : list PricingEntry) : bool :=
  match entries with
  | [] => true
  | e :: entries =>
      match position (fun c => bool_decide (pg_id c = pe_id e)) cs with
      | None => false
      | Some index =>
          if from_option (fun previous => bool_decide (index <= previous)%nat) false previous || negb (valid_rate_card (pe_standard e))
             || negb (valid_optional_card (pe_priority e)) || negb (valid_tier (pe_long_context e)) then false
          else entries_in_order cs (Some index) entries
      end
  end.
Definition validate_pricing (cs : list PricingCandidate) (r : PricingResponse) : option (list PricingEntry) :=
  if negb (ps_schema_version r =? 1) || negb (bool_decide (ps_unit r = UNIT)) || bool_decide (length cs < length (ps_entries r))%nat then None
  else if entries_in_order cs None (ps_entries r) then Some (ps_entries r) else None.
Definition pricing_origin_order (cs : list PricingCandidate) : list Plane :=
  foldl push_plane [] (omap (fun c => provider_plane <$> provider_for_namespace (pg_provider_id c)) cs ++ Plane_ALL).

Section Pricing.
  Context (encode : list PricingCandidate -> option (list byte)) (decode : list byte -> option PricingResponse).
  Context (ask : Plane -> list byte -> option Reply).
Definition pricing_verdict (cs : list PricingCandidate) (reply : option Reply) : option (result PricingError (list PricingEntry)) :=
  match reply with
  | None => None
  | Some r =>
      if rp_status r =? 401 then Some (Err PricingUnauthorized)
      else if negb (is_success (rp_status r)) then None
      else match response_bytes PRICING_MAX_BODY_BYTES (rp_length r) (rp_chunks r) with
           | Err _ => None
           | Ok bytes => Ok <$> (decode bytes >>? validate_pricing cs)
           end
  end.
Fixpoint ask_prices (cs : list PricingCandidate) (body : list byte) (planes : list Plane) : result PricingError (list PricingEntry) :=
  match planes with
  | [] => Err PricingUnavailable
  | p :: planes => match pricing_verdict cs (ask p body) with Some r => r | None => ask_prices cs body planes end
  end.
Definition fetch_chunk (cs : list PricingCandidate) : result PricingError (list PricingEntry) :=
  body ← ok_or (encode cs) PricingUnavailable;
  if PRICING_MAX_BODY_BYTES <? len body then Err PricingUnavailable else ask_prices cs body (pricing_origin_order cs).
(** [slice::chunks]; the fuel is the length of the list. *)
Fixpoint chunks {A} (n fuel : nat) (l : list A) : list (list A) :=
  match fuel, l with S fuel, _ :: _ => take n l :: chunks n fuel (drop n l) | _, _ => [] end.
Fixpoint fetch_chunks (l : list (list PricingCandidate)) : result PricingError (list PricingEntry) :=
  match l with [] => Ok [] | c :: l => entries ← fetch_chunk c; rest ← fetch_chunks l; Ok (entries ++ rest) end.
Definition pricing_fetch (cs : list PricingCandidate) : result PricingError (list PricingEntry) :=
  if bool_decide (length cs = 0%nat) then Err PricingUnavailable
  else fetch_chunks (chunks MAX_CANDIDATES_PER_REQUEST (length cs) cs).
End Pricing.
Definition overlay_entry (overlay : list PricingEntry) (id : string) : option PricingEntry :=
  List.find (fun e => bool_decide (pe_id e = id)) overlay.

(** ** What a client sees *)
Definition strs (l : list string) : Value := VArray (map VString l).
Definition field (k : string) (o : option Value) : list (string * Value) := match o with Some v => [(k, v)] | None => [] end.
Definition object_unless_empty (fields : list (string * Value)) : option Value := match fields with [] => None | _ => Some (VObject fields) end.
Definition limit_json (z : Z) : Value := VNumber (PosInt z).
Definition apitoken_json (e : CatalogEntry) : list (string * Value) :=
  field "endpoints" (strs <$> e_endpoints e)
  ++ field "limits" (match e_limits e with
                     | Some l => object_unless_empty (field "context" (limit_json <$> l_context l) ++ field "input" (limit_json <$> l_input l)
                                                      ++ field "output" (limit_json <$> l_output l))
                     | None => None
                     end)
  ++ field "capabilities"
       (object_unless_empty
          (field "reasoning_efforts" (strs <$> e_reasoning_efforts e) ++ field "service_tiers" (strs <$> e_service_tiers e)
           ++ field "input_modalities" (strs <$> e_input_modalities e) ++ field "output_modalities" (strs <$> e_output_modalities e)
           ++ field "tool_calling" (VBool <$> e_tool_calling e) ++ field "structured_outputs" (VBool <$> e_structured_outputs e)
           ++ field "reasoning" (VBool <$> e_reasoning e) ++ field "streaming" (VBool <$> e_streaming e))).
Definition base_json (e : CatalogEntry) (owned_by : string) : list (string * Value) :=
  [("id", VString (e_id e)); ("object", VString "model"); ("created", VNumber (PosInt (e_created e))); ("owned_by", VString owned_by);
   ("aliases", strs (e_aliases e))]%string
  ++ field "name" (VString <$> e_display_name e) ++ field "display_name" (VString <$> e_display_name e)
  ++ field "reasoning_efforts" (strs <$> e_reasoning_efforts e) ++ field "service_tiers" (strs <$> e_service_tiers e).
Definition to_json (e : CatalogEntry) (owned_by : string) : Value :=
  VObject (base_json e owned_by ++ field "apitoken" (object_unless_empty (apitoken_json e))).

Definition card_json (c : RateCard) : Value :=
  VObject ([("input", VString (rt_input c)); ("output", VString (rt_output c)); ("cache_read", VString (rt_cache_read c));
            ("cache_write", VString (rt_cache_write c))]%string ++ field "cache_write_1h" (VString <$> rt_cache_write_1h c)).
Definition tier_json (t : ContextTier) : Value :=
  VObject ([("threshold_tokens", VNumber (PosInt (tier_threshold t))); ("standard", card_json (tier_standard t))]%string
           ++ field "priority" (card_json <$> tier_priority t)).
Definition or_null (o : option Value) : Value := default VNull o.
Definition public_json (p : PricingEntry) : Value :=
  VObject [("unit", VString UNIT); ("standard", card_json (pe_standard p)); ("priority", or_null (card_json <$> pe_priority p));
           ("long_context", or_null (tier_json <$> pe_long_context p))]%string.
(** [entry("apitoken").or_insert_with(..)], then its [pricing]. *)
Definition model_json_with_pricing (ns : string) (e : CatalogEntry) (rate : PricingEntry) : Value :=
  VObject (base_json e ns ++ [("apitoken"%string, VObject (apitoken_json e ++ [("pricing"%string, public_json rate)]))]).

Definition requests_codex_models_envelope (h : Headers) : bool :=
  existsb (fun name => match header h name >>? to_str with
                       | Some v => starts_with "codex" (to_ascii_lowercase v)
                       | None => false
                       end) ["originator"; "user-agent"]%string.
Definition private_catalog_response (r : Response) : Response :=
  mkResponse (r_status r) (insert_header (r_headers r) "cache-control" "private, no-store") (r_body r).
Definition DEGRADED_HEADER : string := "x-apitoken-catalog-degraded".
Definition with_degraded (degraded : list string) (r : Response) : Response :=
  match degraded with
  | [] => r
  | _ => mkResponse (r_status r) (insert_header (r_headers r) DEGRADED_HEADER (String.concat "," degraded)) (r_body r)
  end.
Definition pricing_unavailable : Response :=
  coded 503 "Personalized model pricing is temporarily unavailable." "server_error" "pricing_unavailable".
Definition eligible (overlay : list PricingEntry) (entries : list (string * CatalogEntry)) : list (string * CatalogEntry * PricingEntry) :=
  omap (fun x => pair x <$> overlay_entry overlay (e_id x.2)) entries.
Section Models.
  Context (encode : list PricingCandidate -> option (list byte)) (decode : list byte -> option PricingResponse).
  Context (ask : Headers -> Plane -> list byte -> option Reply) (catalog : Headers -> Aggregate).
Definition catalog_pricing (auth : Headers) (entries : list (string * CatalogEntry)) : result Response (list PricingEntry) :=
  map_err (fun e => match e with PricingUnauthorized => openai_envelope EAuthRejected | PricingUnavailable => pricing_unavailable end)
    (pricing_fetch encode decode (ask auth) (map (fun x => mkPricing (e_id x.2) x.1 (e_native_id x.2)) entries)).
Definition priced_catalog (h : Headers) : result Response (list (string * CatalogEntry * PricingEntry) * list string) :=
  let auth := auth_passthrough h in
  let a := catalog auth in
  if a_auth_rejected a then Err (openai_envelope EAuthRejected)
  else
    let entries := dedup (a_entries a) in
    if bool_decide (length entries = 0%nat) then Err (openai_envelope ECatalogUnavailable)
    else overlay ← catalog_pricing auth entries; Ok (eligible overlay entries, a_degraded a).
Definition list_models (h : Headers) : Response :=
  private_catalog_response
    match priced_catalog h with
    | Err r => r
    | Ok (models, degraded) =>
        with_degraded degraded
          (if requests_codex_models_envelope h then json_response 200 (VObject [("models"%string, VArray [])])
           else json_response 200 (VObject [("object"%string, VString "list");
                  ("data"%string, VArray (map (fun x => model_json_with_pricing x.1.1 x.1.2 x.2) models))]))
    end.
Definition get_model (h : Headers) (id : string) : Response :=
  private_catalog_response
    match priced_catalog h with
    | Err r => r
    | Ok (models, degraded) =>
        match find (map fst models) id with
        | None => openai_envelope (EModelNotFound id)
        | Some x => match List.find (fun y => bool_decide (e_id y.1.2 = e_id x.2)) models with
                    | Some y => with_degraded degraded (json_response 200 (model_json_with_pricing x.1 x.2 y.2))
                    | None => openai_envelope (EModelNotFound id)
                    end
        end
    end.
End Models.

(** ** Accepted prices are an ordered, canonical subset *)
Definition canonical_entry (e : PricingEntry) : Prop :=
  valid_rate_card (pe_standard e) = true /\ valid_optional_card (pe_priority e) = true /\ valid_tier (pe_long_context e) = true.
Lemma entries_in_order_spec cs entries : forall previous, entries_in_order cs previous entries = true ->
  sublist (map pe_id entries) (drop (from_option S 0%nat previous) (map pg_id cs)) /\ Forall canonical_entry entries.
Proof.
  induction entries as [|e entries IH]; intros previous H; cbn in H; [split; [apply sublist_nil_l|done]|].
  destruct (position _ cs) as [index|] eqn:E; [|done]. apply position_Some in E as (c & Hc & Hid%bool_decide_eq_true).
  destruct (_ || _) eqn:F; [done|]. rewrite !orb_false_iff, !negb_false_iff in F. destruct F as [[[F ?] ?] ?]. apply IH in H as [Hs Hf].
  split; [|by constructor]. apply (sublist_at _ _ _ _ index); [|by rewrite list_lookup_fmap, Hc; cbn; rewrite Hid|done].
  destruct previous as [q|]; cbn in *; [apply bool_decide_eq_false in F; lia|lia].
Qed.
Definition priced_subset (cs : list PricingCandidate) (entries : list PricingEntry) : Prop :=
  sublist (map pe_id entries) (map pg_id cs) /\ Forall canonical_entry entries.
Lemma validate_pricing_Some cs r entries : validate_pricing cs r = Some entries ->
  entries = ps_entries r /\ ps_schema_version r = 1 /\ ps_unit r = UNIT /\ priced_subset cs entries.
Proof.
  unfold validate_pricing. destruct (_ || _) eqn:C; [done|]. destruct (entries_in_order _ _ _) eqn:E; [|done]. intros [= <-].
  rewrite !orb_false_iff, !negb_false_iff, Z.eqb_eq, bool_decide_eq_true in C. apply entries_in_order_spec in E as [Es Ef].
  rewrite drop_0 in Es. destruct C as [[? ?] _]. done.
Qed.
Lemma ask_prices_Ok decode ask cs body planes entries : ask_prices decode ask cs body planes = Ok entries -> priced_subset cs entries.
Proof.
  induction planes as [|p planes IH]; cbn [ask_prices]; [done|]. destruct (pricing_verdict _ _ _) as [r|] eqn:E; [|done]. intros ->.
  unfold pricing_verdict in E. destruct (ask p body) as [r|]; [|done]. destruct (_ =? 401); [done|]. destruct (negb _); [done|].
  destruct (response_bytes _ _ _) as [bytes|]; [|done]. apply fmap_Some in E as (l & E & [= <-]).
  destruct (decode bytes); cbn in E; [|done]. by apply validate_pricing_Some in E as (_ & _ & _ & ?).
Qed.
Lemma fetch_chunk_Ok encode decode ask cs entries : fetch_chunk encode decode ask cs = Ok entries -> priced_subset cs entries.
Proof.
  unfold fetch_chunk. intros (body & _ & H)%bind_Ok. destruct (_ <? _); [done|]. by eapply ask_prices_Ok.
Qed.
(** The pieces are the list: the fuel is enough. *)
Lemma chunks_concat {A} n (l : list A) : (0 < n)%nat -> forall fuel, (length l <= fuel)%nat -> concat (chunks n fuel l) = l.
Proof.
  intros Hn fuel. revert l. induction fuel as [|fuel IH]; intros l Hl; [by destruct l; [|cbn in Hl; lia]|].
  destruct l as [|x l]; [done|]. cbn [chunks concat]. rewrite IH by (rewrite length_drop; cbn in *; lia). apply take_drop.
Qed.
Lemma fetch_chunks_Ok encode decode ask l : forall entries, fetch_chunks encode decode ask l = Ok entries -> priced_subset (concat l) entries.
Proof.
  induction l as [|c l IH]; cbn [fetch_chunks]; intros entries; [intros [= <-]; split; [apply sublist_nil_l|constructor]|].
  intros (e & [He1 He2]%fetch_chunk_Ok & (rest & [Hr1 Hr2]%IH & [= <-])%bind_Ok)%bind_Ok. unfold priced_subset. cbn [concat]. rewrite !map_app.
  split; [by apply sublist_app|by apply Forall_app].
Qed.
Lemma pricing_fetch_Ok encode decode ask cs entries : pricing_fetch encode decode ask cs = Ok entries -> priced_subset cs entries.
Proof.
  unfold pricing_fetch. case_bool_decide; [done|]. intros Hf%fetch_chunks_Ok. by rewrite chunks_concat in Hf by (unfold MAX_CANDIDATES_PER_REQUEST; lia).
Qed.

(** ** The overlay selects and prices exactly its own models *)
Lemma overlay_skip o overlay id : pe_id o <> id -> overlay_entry (o :: overlay) id = overlay_entry overlay id.
Proof. intros H. unfold overlay_entry. cbn [List.find]. by rewrite bool_decide_false. Qed.
Lemma overlay_absent overlay id : id ∉ map pe_id overlay -> overlay_entry overlay id = None.
Proof. induction overlay as [|o l IH]; [done|]. cbn [map]. intros [? ?]%not_elem_of_cons. rewrite overlay_skip by done. by apply IH. Qed.
Lemma eligible_exact entries : forall overlay, NoDup (map (fun x : string * CatalogEntry => e_id x.2) entries) ->
  sublist (map pe_id overlay) (map (fun x : string * CatalogEntry => e_id x.2) entries) ->
  map snd (eligible overlay entries) = overlay /\ sublist (map fst (eligible overlay entries)) entries
  /\ Forall (fun x => e_id x.1.2 = pe_id x.2) (eligible overlay entries).
Proof.
  induction entries as [|x entries IH]; intros overlay Hn Hs; cbn [map] in *.
  { destruct overlay as [|o l]; [done|]. by inversion Hs. }
  apply NoDup_cons in Hn as [Hx Hn]. unfold eligible in *. cbn [omap list_omap].
  destruct (decide (e_id x.2 ∈ map pe_id overlay)) as [Hin|Hout].
  - destruct overlay as [|o l]; [by apply elem_of_nil in Hin|]. cbn [map] in *. assert (pe_id o = e_id x.2) as Ho.
    { inversion Hs as [|? ? ? Hs'|? ? ? Hs']; subst; [done|]. exfalso. apply Hx. by eapply elem_of_sublist. }
    assert (Hs' : sublist (map pe_id l) (map (fun x => e_id x.2) entries)).
    { inversion Hs as [|? ? ? ?|? ? ? Hs']; subst; [done|]. exfalso. apply Hx. rewrite <- Ho. eapply elem_of_sublist; [|exact Hs']. by left. }
    assert (overlay_entry (o :: l) (e_id x.2) = Some o) as ->.
    { unfold overlay_entry. cbn [List.find]. by rewrite bool_decide_true. }
    cbn [fmap option_fmap option_map].
    rewrite (list_omap_ext _ (fun y => pair y <$> overlay_entry l (e_id y.2)) entries entries).
    + destruct (IH l Hn Hs') as (H1 & H2 & H3). cbn [map fst snd]. rewrite H1. split; [done|]. split; [by apply sublist_skip|by constructor].
    + apply Forall_Forall2_diag, Forall_forall. intros y Hy. rewrite overlay_skip; [done|]. rewrite Ho. intros Heq. apply Hx. rewrite Heq.
      apply list_elem_of_fmap. by exists y.
  - rewrite overlay_absent by done. cbn [fmap option_fmap option_map].
    destruct (IH overlay Hn) as (H1 & H2 & H3); [|split; [done|split; [by apply sublist_cons|done]]].
    inversion Hs as [|? ? ? ? E1|]; subst; [|done]. exfalso. apply Hout. rewrite <- E1. by left.
Qed.
Lemma find_by_key {A} (key : A -> string) l x : NoDup (map key l) -> x ∈ l -> List.find (fun y => bool_decide (key y = key x)) l = Some x.
Proof.
  induction l as [|y l IH]; cbn [map List.find]; [by intros _ ?%elem_of_nil|]. intros [Hy Hn]%NoDup_cons [->|Hx]%elem_of_cons.
  - by rewrite bool_decide_true.
  - rewrite bool_decide_false; [by apply IH|]. intros Heq. apply Hy. rewrite Heq. apply list_elem_of_fmap. by exists x.
Qed.
Lemma dedup_NoDup l : NoDup (map (fun x => e_id x.2) (dedup l)).
Proof. rewrite dedup_ids. apply keep_first_spec. Qed.

Section PricedModels.
  Context (encode : list PricingCandidate -> option (list byte)) (decode : list byte -> option PricingResponse).
  Context (ask : Headers -> Plane -> list byte -> option Reply) (catalog : Headers -> Aggregate).
Abbreviation prices h :=
  (pricing_fetch encode decode (ask (auth_passthrough h))
     (map (fun x => mkPricing (e_id x.2) x.1 (e_native_id x.2)) (dedup (a_entries (catalog (auth_passthrough h)))))).
Lemma priced_catalog_Ok h models degraded : priced_catalog encode decode ask catalog h = Ok (models, degraded) ->
  exists overlay, prices h = Ok overlay /\ models = eligible overlay (dedup (a_entries (catalog (auth_passthrough h))))
    /\ degraded = a_degraded (catalog (auth_passthrough h)).
Proof.
  unfold priced_catalog. cbv zeta. destruct (a_auth_rejected _); [done|]. case_bool_decide; [done|].
  intros (overlay & Ho & [= <- <-])%bind_Ok. apply map_err_Ok in Ho. by exists overlay.
Qed.
(** The models a key is shown are exactly the ones its pricing authority
    priced, each under its own price: the priced entries are those of the
    aggregated catalogue in its order, the rates are the authority's in its order,
    canonical integers throughout, and every model of the list is served again,
    with the same object, under its identifier. *)
Theorem priced_models_exact (h : Headers) (models : list (string * CatalogEntry * PricingEntry)) (degraded : list string) :
  priced_catalog encode decode ask catalog h = Ok (models, degraded) ->
  prices h = Ok (map snd models)
  /\ sublist (map fst models) (dedup (a_entries (catalog (auth_passthrough h))))
  /\ Forall (fun x => e_id x.1.2 = pe_id x.2 /\ canonical_entry x.2) models
  /\ NoDup (map (fun x => e_id x.1.2) models)
  /\ forall x, x ∈ models -> get_model encode decode ask catalog h (e_id x.1.2)
       = private_catalog_response (with_degraded degraded (json_response 200 (model_json_with_pricing x.1.1 x.1.2 x.2))).
Proof.
  intros H. pose proof H as (overlay & Ho & -> & ->)%priced_catalog_Ok. pose proof Ho as [Hs Hc]%pricing_fetch_Ok.
  rewrite map_map in Hs. cbn [pg_id] in Hs. set (entries := dedup _) in *. pose proof (dedup_NoDup (a_entries (catalog (auth_passthrough h)))) as Hn.
  destruct (eligible_exact entries overlay Hn Hs) as (H1 & H2 & H3). set (models := eligible overlay entries) in *.
  assert (Hnm : NoDup (map (fun x => e_id x.1.2) models)).
  { rewrite <- (map_map fst (fun y => e_id y.2)). eapply sublist_NoDup; [exact Hn|]. by apply fmap_sublist. }
  rewrite H1. split_and!; [done|done| |done|].
  - apply Forall_and. split; [done|]. rewrite <- H1 in Hc. rewrite List.Forall_map in Hc. exact Hc.
  - intros x Hx. unfold get_model. rewrite H. unfold find.
    rewrite (find_by_key (fun y : string * CatalogEntry => e_id y.2) (map fst models) x.1);
      [|by rewrite map_map|apply list_elem_of_fmap; by exists x].
    by rewrite (find_by_key (fun y : string * CatalogEntry * PricingEntry => e_id y.1.2) models x).
Qed.
End PricedModels.

(** A configuration the router starts with stays within the compiled
    ceilings: its request, memory and spool limits are non-zero, ordered and at
    most the production values, its upload timeouts ordered and at most the
    production ones, its threshold one of the two supported ones, its spool root absolute. *)
Theorem config_within_ceilings (env : string -> EnvVar) (c : Config) :
  config_from_env env = Ok c ->
  let l := cf_body_limits c in
  0 <> bl_request l /\ bl_request l <= 256 * MIB /\ bl_request l <= bl_spool_budget l
  /\ bl_memory_budget l <= 4 * 1024 * MIB /\ bl_spool_budget l <= 16 * 1024 * MIB
  /\ (bl_memory_threshold l = bl_request l \/ bl_memory_threshold l = 8 * MIB) /\ bl_memory_threshold l <= bl_request l
  /\ cf_body_idle_secs c <= cf_body_max_secs c /\ cf_body_idle_secs c <= 120 /\ cf_body_max_secs c <= 1800
  /\ cf_port c <= u16_max /\ is_absolute (cf_body_spool_root c) = true
  /\ Forall (fun o => ends_with_slash o = false) [cf_anthropic_origin c; cf_openai_origin c; cf_gemini_origin c; cf_kimi_origin c].
Proof.
  unfold config_from_env, origin_ok. cbv zeta. intros H. inv_ok.
  repeat match goal with
  | H : BodyLimits_validate _ _ = Ok _ |- _ => apply BodyLimits_validate_iff in H as (-> & ? & _ & _ & _ & _ & ? & ? & _)
  | H : parse_unsigned_max _ _ = Some _ |- _ => apply parse_unsigned_max_le in H
  | H : andb _ _ = true |- _ => apply andb_true_iff in H as [? ?]
  | H : orb _ _ = true |- _ => apply orb_true_iff in H
  | H : negb _ = true |- _ => apply negb_true_iff in H
  end.
  rewrite ?Z.leb_le, ?Z.eqb_eq in *. unfold ROUTER_BODY_IDLE_SECS, ROUTER_BODY_MAX_SECS in *. cbn in *.
  split_and!; try done; try lia. repeat constructor; done.
Qed.

(** Two catalogue entries, one of them priced. *)
Definition demo_entry (id native : string) : CatalogEntry :=
  mkEntry id native [native] None 0 None None None None None None None None None None.
Definition demo_card : RateCard := mkRateCard "3000000000" "15000000000" "300000000" "3750000000" (Some "0").
Definition demo_price : PricingEntry := mkPricingEntry "anthropic/b" demo_card None None.
Definition demo_catalog : Headers -> Aggregate :=
  fun _ => mkAggregate [("anthropic", demo_entry "anthropic/a" "a"); ("anthropic", demo_entry "anthropic/b" "b")]%string [] false.
Definition demo_reply : Reply := mkReply 200 None [].
Definition demo_decode (_ : list byte) : option PricingResponse := Some (mkPricingResponse 1 UNIT PmStrict [demo_price]).
Lemma priced_models_exact_witness :
  exists models, priced_catalog (fun _ => Some []) demo_decode (fun _ _ _ => Some demo_reply) demo_catalog [] = Ok (models, [])
  /\ map snd models = [demo_price]
  /\ Forall (fun x => e_id x.1.2 = pe_id x.2 /\ canonical_entry x.2) models.
Proof.
  eexists. split; [vm_compute; reflexivity|].
  destruct (priced_models_exact (fun _ => Some []) demo_decode (fun _ _ _ => Some demo_reply) demo_catalog [] _ [] eq_refl) as (_ & _ & H & _).
  split; [vm_compute; reflexivity|exact H].
Defined.
Definition demo_env (key : string) : EnvVar :=
  if bool_decide (key = "CLAUDE_ROUTER_BODY_SPOOL_ROOT"%string) then Present "/var/spool/router" else NotPresent.
Lemma config_within_ceilings_witness :
  exists c, config_from_env demo_env = Ok c /\ cf_port c <= u16_max.
Proof.
  eexists. split; [vm_compute; reflexivity|].
  pose proof (config_within_ceilings demo_env _ eq_refl) as H. apply H.
Defined.

