(* ===== verification/Ingress.v ===== *)
(** * Identity and credentials of a request at a provider plane

    What a plane reads from the headers of one request: the logical identity and
    the execution attempt the router stamped ([crates/forward/src/execution.rs]),
    the client's attribution, the first-byte clock, and the credentials with the
    authorization they lead to ([client_keys] ... [authorize] of
    [crates/forward/src/proxy.rs]).  Fresh identities, the clock and the billing
    authority are arguments. *)
From stdpp Require Import sorting.
From S2P Require Import Prelude Text LedgerDb Accounts Settlement MeterUsage RouterWire RouterModels.
#[local] Open Scope Z_scope.

(** ** Reserved headers *)
Module Execution.
Definition LOGICAL_REQUEST_ID_HEADER : string := "x-apitoken-logical-request-id".
Definition CLIENT_ATTRIBUTION_HEADER : string := "x-apitoken-client".
Definition EXECUTION_GROUP_HEADER : string := "x-apitoken-execution-group".
Definition EXECUTION_ATTEMPT_HEADER : string := "x-apitoken-attempt".
End Execution.
Inductive LogicalRequestIdError : Type := LDuplicate | LInvalid.
Inductive ExecutionIdentityError : Type := XIncomplete | XDuplicate | XInvalidGroup | XInvalidAttempt.

(** The header is removed on every path; absence draws a fresh identity. *)
Definition admit_logical_request_id (fresh : string) (h : Headers) : Headers * result LogicalRequestIdError string :=
  let parsed := match get_all h Execution.LOGICAL_REQUEST_ID_HEADER with
                | [] => Ok None
                | [v] => match to_str v with Some v => Ok (Some v) | None => Err LInvalid end
                | _ => Err LDuplicate
                end in
  (remove h Execution.LOGICAL_REQUEST_ID_HEADER,
   parsed ← parsed;
   match parsed with
   | None => Ok fresh
   | Some v => if is_canonical_uuid_v4 v then Ok v else Err LInvalid
   end).

Definition exactly_one (h : Headers) (n : string) : result ExecutionIdentityError (option string) :=
  match get_all h n with [] => Ok None | [v] => Ok (Some v) | _ => Err XDuplicate end.
Definition parse_i32 (raw : string) : option Z := parse_i64 raw >>? (fun z => if (- (i32_max + 1) <=? z) && (z <=? i32_max) then Some z else None).
Definition starts_with_zero (s : string) : bool := match s with String c _ => byte_of c =? 48 | EmptyString => false end.
Definition parse_execution_attempt (h : Headers) : result ExecutionIdentityError ExecutionAttempt :=
  group ← exactly_one h Execution.EXECUTION_GROUP_HEADER;
  attempt ← exactly_one h Execution.EXECUTION_ATTEMPT_HEADER;
  match group, attempt with
  | None, None => Ok ExecutionAttempt_direct
  | Some group, Some attempt =>
      group ← ok_or (to_str group) XInvalidGroup;
      attempt ← ok_or (to_str attempt) XInvalidAttempt;
      if bool_decide (attempt = EmptyString) || starts_with_zero attempt || negb (all_bytes is_digit attempt) then Err XInvalidAttempt
      else
        attempt ← ok_or (parse_i32 attempt >>? (fun z => if 0 <? z then Some z else None)) XInvalidAttempt;
        map_err (fun _ => XInvalidGroup) (ExecutionAttempt_grouped group attempt)
  | _, _ => Err XIncomplete
  end.

(** ** Client attribution *)
Inductive ClientKind : Type := ClaudeCode | OpenCode | CodexCli | Cursor | Sdk | CustomClient | UnknownClient.
Inductive ClientSource : Type := Explicit | Heuristic | UnknownSource.
Record ClientAttribution := mkAttribution { at_kind : ClientKind; at_source : ClientSource; at_version : option string }.
Definition unknown_for_internal_use : ClientAttribution := mkAttribution UnknownClient UnknownSource None.
Definition is_ascii_control (c : Ascii.ascii) : bool := (byte_of c <? 32) || (byte_of c =? 127).
Definition is_ascii (c : Ascii.ascii) : bool := byte_of c <? 128.
Definition is_ascii_alphanumeric (c : Ascii.ascii) : bool := byte_between 48 57 c || byte_between 65 90 c || byte_between 97 122 c.
Definition version_char (c : Ascii.ascii) : bool := is_ascii_alphanumeric c || bool_decide (byte_of c ∈ [46; 95; 43; 45]).
Definition slash_char : Ascii.ascii := Ascii.ascii_of_nat 47.
Definition attribution_version (v : option string) : option (option string) :=
  match v with
  | None => Some None
  | Some v => if (1 <=? str_len v) && (str_len v <=? 64) && all_bytes version_char v then Some (Some v) else None
  end.
Definition parse_explicit_client_attribution (v : string) : option ClientAttribution :=
  if bool_decide (v = EmptyString) || (80 <? str_len v) || negb (all_bytes (fun c => negb (byte_of c =? 44)) v)
     || negb (all_bytes is_ascii v) || negb (all_bytes (fun c => negb (is_ascii_control c)) v) then None
  else match split slash_char v with
       | kind :: segments =>
           kind ← (if bool_decide (kind = "opencode"%string) then Some OpenCode
                   else if bool_decide (kind = "claude_code"%string) then Some ClaudeCode else None);
           match segments with
           | [] | [_] => version ← attribution_version (head segments); Some (mkAttribution kind Explicit version)
           | _ => None
           end
       | [] => None
       end.
Definition admit_client_attribution (h : Headers) : Headers * ClientAttribution :=
  let parsed := match get_all h Execution.CLIENT_ATTRIBUTION_HEADER with
                | [] => None
                | [v] => Some (parse_explicit_client_attribution v)
                | _ => Some None
                end in
  (remove h Execution.CLIENT_ATTRIBUTION_HEADER, match parsed with Some (Some a) => a | _ => unknown_for_internal_use end).

Definition MAX_REQUEST_FACT_MODEL_LEN : Z := 256.
Definition bounded_requested_model (request : Value) : option string :=
  model ← get "model" request >>? as_str;
  if negb (bool_decide (model = EmptyString)) && (str_len model <=? MAX_REQUEST_FACT_MODEL_LEN)
     && all_bytes (fun c => byte_between 33 126 c || (byte_of c =? 32)) model then Some model else None.

(** ** The first-byte clock: one atomic, zero while open *)
Definition SEALED_WITHOUT_BYTE : Z := -1.
Definition observe_first_public_byte_at (clock ts : Z) : Z := if (0 <? ts) && (clock =? 0) then ts else clock.
Definition first_public_byte_at (clock : Z) : option Z := if 0 <? clock then Some clock else None.
Definition seal_first_public_byte_for_terminal (clock admitted_at terminal_at : Z) : Z * option Z :=
  let observed := if clock =? 0 then None else if 0 <? clock then Some clock else None in
  (if clock =? 0 then SEALED_WITHOUT_BYTE else clock,
   if (admitted_at <? 0) || (terminal_at <? admitted_at) then None
   else observed >>? (fun ts => if between admitted_at terminal_at ts then Some ts else None)).
(** Every access of the shared carrier, in the order of the atomic. *)
Inductive ClockEvent : Type := Observed (ts : Z) | Sealed (admitted_at terminal_at : Z).
Definition clock_step (clock : Z) (e : ClockEvent) : Z :=
  match e with Observed ts => observe_first_public_byte_at clock ts | Sealed a t => (seal_first_public_byte_for_terminal clock a t).1 end.

(** ** Credentials *)
(** [BTreeSet<String>]: byte-wise order, no repetition. *)
Fixpoint insert_key (k : string) (l : list string) : list string :=
  match l with
  | [] => [k]
  | x :: l => match String.compare k x with Eq => x :: l | Lt => k :: x :: l | Gt => x :: insert_key k l end
  end.
(** [split_once(char::is_whitespace)] on a visible header value. *)
Fixpoint split_once_space (s : string) : option (string * string) :=
  match s with
  | EmptyString => None
  | String c s => if ascii_space (byte_of c) then Some (EmptyString, s) else (fun p => (String c p.1, p.2)) <$> split_once_space s
  end.
Definition plain_key (v : string) : option string :=
  v ← to_str v; let key := trim v in if bool_decide (key = EmptyString) then None else Some key.
Definition bearer_key (v : string) : option string :=
  v ← to_str v;
  '(scheme, token) ← split_once_space (trim v);
  let token := trim token in
  if eq_ignore_ascii_case scheme "bearer" && negb (bool_decide (token = EmptyString)) then Some token else None.
Definition credentials (h : Headers) : list string :=
  omap plain_key (get_all h "x-api-key") ++ omap plain_key (get_all h "x-goog-api-key") ++ omap bearer_key (get_all h "authorization").
Definition client_keys (h : Headers) : list string := foldl (fun keys k => insert_key k keys) [] (credentials h).

Fixpoint ct_diff (diff : Z) (a b : string) : Z :=
  match a, b with String x a, String y b => ct_diff (Z.lor diff (Z.lxor (byte_of x) (byte_of y))) a b | _, _ => diff end.
Definition ct_eq (a b : string) : bool := if negb (str_len a =? str_len b) then false else ct_diff 0 a b =? 0.

Record AuthConfig := mkAuthConfig { api_keys : list string; control_keys : list string; panel_keys : list string; trust_loopback : bool }.
Definition matching_key (h : Headers) (allow : list string) : option string :=
  foldl (fun matched candidate =>
    let candidate_matches := foldl (fun ok allowed => ok || ct_eq allowed candidate) false allow in
    if candidate_matches && bool_decide (matched = None) then Some candidate else matched) None (client_keys h).
Definition key_in (h : Headers) (allow : list string) : bool := bool_decide (matching_key h allow <> None).
Definition loopback_admin (cfg : AuthConfig) (loopback : bool) : bool := trust_loopback cfg && loopback.
Definition authed (cfg : AuthConfig) (h : Headers) (loopback : bool) : bool :=
  if bool_decide (api_keys cfg = []) then loopback_admin cfg loopback else key_in h (api_keys cfg).
Definition control_authed (cfg : AuthConfig) (h : Headers) (loopback : bool) : bool :=
  if authed cfg h loopback then true
  else if key_in h (control_keys cfg) then true
  else bool_decide (api_keys cfg = []) && bool_decide (control_keys cfg = []) && trust_loopback cfg && loopback.
Definition readonly_authed (cfg : AuthConfig) (h : Headers) (loopback : bool) : bool :=
  control_authed cfg h loopback || key_in h (panel_keys cfg).

Section Resolve.
  Context {E : Type} (key_auth : string -> result E (option KeyAuth)) (now : string -> Z).
(** The first error is kept while a later key may still be valid; [now] is the
    clock when a key is checked. *)
Fixpoint resolve_loop (first_error : option E) (keys : list string) : result E (option (string * KeyAuth)) :=
  match keys with
  | [] => match first_error with Some e => Err e | None => Ok None end
  | key :: keys =>
      match key_auth key with
      | Ok (Some auth) => if active_at auth (now key) then Ok (Some (key, auth)) else resolve_loop first_error keys
      | Ok None => resolve_loop first_error keys
      | Err e => resolve_loop (match first_error with None => Some e | some => some end) keys
      end
  end.
Definition resolve_client_keys (keys : list string) : result E (option (string * KeyAuth)) := resolve_loop None keys.
Definition resolve_client_key (h : Headers) : result E (option (string * KeyAuth)) := resolve_client_keys (client_keys h).
End Resolve.

Inductive Authz : Type :=
| Admin (affinity_scope : string)
| Metered (account_id key key_id : string) (mult_bp : Z) (provider_mult_bp : list (string * Z)) (available_nano : Z)
| Unauthorized
| Unavailable.
Definition available_nano_of (a : KeyAuth) : Z :=
  match (fun limit => Z.max 0 (sat_i64 (sat_i64 (limit - ka_spent a) - ka_reserved a))) <$> ka_spend_limit a with
  | Some remaining => Z.min remaining (ka_balance a)
  | None => ka_balance a
  end.
(** [billing]: the authority, when the process has one. *)
Definition authorize {E} (cfg : AuthConfig) (billing : option (string -> result E (option KeyAuth))) (now : string -> Z) (h : Headers) (loopback : bool) : Authz :=
  match matching_key h (api_keys cfg) with
  | Some credential => Admin credential
  | None =>
      if bool_decide (api_keys cfg = []) && trust_loopback cfg && loopback then Admin "loopback-admin"
      else match billing with
           | None => Unauthorized
           | Some key_auth =>
               match resolve_client_key key_auth now h with
               | Ok (Some (k, a)) => Metered (ka_account_id a) k (ka_key_id a) (ka_mult_bp a) (ka_provider_mult_bp a) (available_nano_of a)
               | Ok None => Unauthorized
               | Err _ => Unavailable
               end
           end
  end.
Definition affinity_scope (z : Authz) : option string :=
  match z with Admin s => Some s | Metered account _ _ _ _ _ => Some account | _ => None end.
Definition authz_mult_for (z : Authz) (provider_id : string) : Z :=
  match z with
  | Metered _ _ _ mult overrides _ => match List.find (fun pm => bool_decide (pm.1 = provider_id)) overrides with Some pm => pm.2 | None => mult end
  | _ => 0
  end.

(** ** Constant-time comparison is equality *)
Lemma byte_of_inj x y : byte_of x = byte_of y -> x = y.
Proof. unfold byte_of. intros H%N2Z.inj. rewrite <- (Ascii.ascii_N_embedding x), <- (Ascii.ascii_N_embedding y). by rewrite H. Qed.
Lemma ct_diff_zero a : forall b d, String.length a = String.length b -> ct_diff d a b = 0 <-> d = 0 /\ a = b.
Proof.
  induction a as [|x a IH]; intros [|y b] d Hl; cbn in *; try done; [naive_solver|].
  rewrite IH by lia. rewrite Z.lor_eq_0_iff, Z.lxor_eq_0_iff. split; [|intros [-> [= -> ->]]; done].
  intros [[-> H%byte_of_inj] ->]. by rewrite H.
Qed.
Lemma ct_eq_spec a b : ct_eq a b = bool_decide (a = b).
Proof.
  unfold ct_eq, str_len. destruct (Z.eqb_spec (Z.of_nat (String.length a)) (Z.of_nat (String.length b))) as [H|H]; cbn [negb].
  - apply Nat2Z.inj in H. apply eq_true_iff_eq. rewrite Z.eqb_eq, ct_diff_zero, bool_decide_eq_true by done. naive_solver.
  - rewrite bool_decide_false; [done|]. by intros ->.
Qed.

(** ** The credentials of a request, as a set *)
Definition key_lt (a b : string) : Prop := String.compare a b = Lt.
Lemma compare_refl a : String.compare a a = Eq.
Proof. pose proof (String.compare_antisym a a) as H. destruct (String.compare a a); done. Qed.
Lemma key_compare_cons x a y b :
  String.compare (String x a) (String y b) = match (byte_of x ?= byte_of y) with Eq => String.compare a b | c => c end.
Proof. cbn. unfold Ascii.compare, byte_of. by rewrite N2Z.inj_compare. Qed.
#[local] Instance key_lt_trans : Transitive key_lt.
Proof.
  intros a. induction a as [|x a IH]; intros [|y b] [|z c]; unfold key_lt; try done.
  rewrite !key_compare_cons. destruct (Z.compare_spec (byte_of x) (byte_of y)), (Z.compare_spec (byte_of y) (byte_of z)); try done; intros.
  - rewrite (proj2 (Z.compare_eq_iff _ _)) by lia. by eapply IH.
  - by rewrite (proj2 (Z.compare_lt_iff _ _)) by lia.
  - by rewrite (proj2 (Z.compare_lt_iff _ _)) by lia.
  - by rewrite (proj2 (Z.compare_lt_iff _ _)) by lia.
Qed.
#[local] Instance key_lt_antisymm : AntiSymm (=) key_lt.
Proof.
  intros a b H1 H2. pose proof (key_lt_trans a b a H1 H2) as H. unfold key_lt in H. by rewrite compare_refl in H.
Qed.
Lemma insert_key_elem k l x : x ∈ insert_key k l <-> x = k \/ x ∈ l.
Proof.
  induction l as [|y l IH]; cbn; [set_solver|]. destruct (String.compare k y) eqn:E; [|set_solver|set_solver].
  apply String.compare_eq_iff in E as ->. set_solver.
Qed.
Lemma insert_key_sorted k l : StronglySorted key_lt l -> StronglySorted key_lt (insert_key k l).
Proof.
  induction 1 as [|x l Hs IH Hx]; cbn; [repeat constructor|].
  destruct (String.compare k x) eqn:E; [by constructor| |].
  - constructor; [by constructor|]. constructor; [done|]. eapply Forall_impl; [exact Hx|]. intros y Hy. by etrans.
  - constructor; [done|]. apply Forall_forall. intros y [->|Hy]%insert_key_elem; [|by eapply Forall_forall in Hx].
    unfold key_lt. by rewrite String.compare_antisym, E.
Qed.
Lemma foldl_insert_key ks : forall l,
  (forall x, x ∈ foldl (fun keys k => insert_key k keys) l ks <-> x ∈ l \/ x ∈ ks)
  /\ (StronglySorted key_lt l -> StronglySorted key_lt (foldl (fun keys k => insert_key k keys) l ks)).
Proof.
  induction ks as [|k ks IH]; intros l; cbn [foldl]; [set_solver|]. destruct (IH (insert_key k l)) as [H1 H2]. split.
  - intros x. rewrite H1, insert_key_elem. set_solver.
  - intros Hl. by apply H2, insert_key_sorted.
Qed.
Lemma client_keys_elem h x : x ∈ client_keys h <-> x ∈ credentials h.
Proof. unfold client_keys. rewrite (proj1 (foldl_insert_key (credentials h) [])). set_solver. Qed.
Lemma client_keys_sorted h : StronglySorted key_lt (client_keys h).
Proof. apply (foldl_insert_key (credentials h) []). constructor. Qed.
Lemma key_lt_nodup l : StronglySorted key_lt l -> NoDup l.
Proof.
  induction 1 as [|x l Hs IH Hx]; constructor; [|done]. intros Hin. eapply Forall_forall in Hx; [|exact Hin].
  unfold key_lt in Hx. by rewrite compare_refl in Hx.
Qed.
(** Only the set of credentials counts, not their headers or their order. *)
Lemma client_keys_set h h' : (forall k, k ∈ credentials h <-> k ∈ credentials h') -> client_keys h = client_keys h'.
Proof.
  intros H. apply (StronglySorted_unique key_lt); try apply client_keys_sorted.
  apply NoDup_Permutation; [apply key_lt_nodup, client_keys_sorted..|]. intros x. rewrite !client_keys_elem. apply H.
Qed.

(** ** Matching and resolving *)
Lemma any_allowed allow candidate : forall ok,
  foldl (fun ok allowed => ok || ct_eq allowed candidate) ok allow = ok || bool_decide (candidate ∈ allow).
Proof.
  induction allow as [|a allow IH]; intros ok; cbn [foldl]; [by rewrite bool_decide_false, orb_false_r by set_solver|].
  rewrite IH, ct_eq_spec, <- orb_assoc. f_equal. apply eq_true_iff_eq. rewrite orb_true_iff, !bool_decide_eq_true. set_solver.
Qed.
Lemma matching_fold allow keys : forall matched,
  foldl (fun matched candidate =>
    let candidate_matches := foldl (fun ok allowed => ok || ct_eq allowed candidate) false allow in
    if candidate_matches && bool_decide (matched = None) then Some candidate else matched) matched keys
  = match matched with Some k => Some k | None => List.find (fun k => bool_decide (k ∈ allow)) keys end.
Proof.
  induction keys as [|k keys IH]; intros matched; cbn [foldl List.find]; [by destruct matched|].
  cbv zeta. rewrite any_allowed, IH. cbn [orb]. destruct matched as [m|]; [by rewrite (bool_decide_false (Some m = None)), andb_false_r|].
  rewrite (bool_decide_true (None = None)), andb_true_r by done. by destruct (bool_decide (k ∈ allow)).
Qed.
Lemma matching_key_spec h allow : matching_key h allow = List.find (fun k => bool_decide (k ∈ allow)) (client_keys h).
Proof. apply matching_fold. Qed.
Lemma find_sorted (p : string -> bool) l k : StronglySorted key_lt l -> List.find p l = Some k ->
  k ∈ l /\ p k = true /\ forall k', k' ∈ l -> key_lt k' k -> p k' = false.
Proof.
  induction 1 as [|x l Hs IH Hx]; cbn; [done|]. destruct (p x) eqn:E.
  - intros [= <-]. split; [by left|]. split; [done|]. intros k' [->|Hk]%elem_of_cons Hlt.
    + unfold key_lt in Hlt. by rewrite compare_refl in Hlt.
    + eapply Forall_forall in Hx; [|exact Hk]. pose proof (key_lt_trans _ _ _ Hlt Hx) as H. unfold key_lt in H. by rewrite compare_refl in H.
  - intros (H1 & H2 & H3)%IH. split; [by right|]. split; [done|]. intros k' [->|Hk]%elem_of_cons Hlt; [done|by apply H3].
Qed.
Lemma find_none_elem (p : string -> bool) l k : List.find p l = None -> k ∈ l -> p k = false.
Proof. intros H Hk. apply (List.find_none _ _ H). by apply list_elem_of_In. Qed.

Section ResolveFacts.
  Context {E : Type} (f : string -> result E (option KeyAuth)) (now : string -> Z).
Definition valid_key (k : string) : bool := match f k with Ok (Some a) => active_at a (now k) | _ => false end.
Definition failed_key (k : string) : bool := match f k with Err _ => true | _ => false end.
Lemma resolve_loop_spec keys : forall err, StronglySorted key_lt keys ->
  match resolve_loop f now err keys with
  | Ok (Some (k, a)) => k ∈ keys /\ f k = Ok (Some a) /\ active_at a (now k) = true /\ forall k', k' ∈ keys -> key_lt k' k -> valid_key k' = false
  | Ok None => err = None /\ forall k, k ∈ keys -> valid_key k = false /\ failed_key k = false
  | Err e => (err = Some e \/ exists k, k ∈ keys /\ f k = Err e) /\ forall k, k ∈ keys -> valid_key k = false
  end.
Proof.
  induction keys as [|k keys IH]; intros err Hs; cbn [resolve_loop].
  { destruct err as [e|]; split; try done; [by left|..]; by intros ? ?%elem_of_nil. }
  apply StronglySorted_inv in Hs as [Hs Hk].
  assert (Hskip : forall err', valid_key k = false -> (forall e, err' = Some e -> err = Some e \/ f k = Err e) ->
    (err' = None -> err = None /\ failed_key k = false) ->
    match resolve_loop f now err' keys with
    | Ok (Some (k', a)) => k' ∈ k :: keys /\ f k' = Ok (Some a) /\ active_at a (now k') = true /\ forall k'', k'' ∈ k :: keys -> key_lt k'' k' -> valid_key k'' = false
    | Ok None => err = None /\ forall k', k' ∈ k :: keys -> valid_key k' = false /\ failed_key k' = false
    | Err e => (err = Some e \/ exists k', k' ∈ k :: keys /\ f k' = Err e) /\ forall k', k' ∈ k :: keys -> valid_key k' = false
    end).
  { intros err' Hv HS HN. specialize (IH err' Hs). destruct (resolve_loop f now err' keys) as [[[k' a]|]|e].
    - destruct IH as (H1 & H2 & H3 & H4). split; [by right|]. do 2 (split; [done|]). intros k'' [->|Hk'']%elem_of_cons; [done|by apply H4].
    - destruct IH as [H0 H]. destruct (HN H0) as [He Hf]. split; [done|]. intros k' [->|Hk']%elem_of_cons; [done|by apply H].
    - destruct IH as [H1 H2]. split; [|intros k' [->|?]%elem_of_cons; [done|by apply H2]].
      destruct H1 as [H1|(k' & Hk' & He)]; [|right; exists k'; split; [by right|done]].
      destruct (HS e H1) as [?|?]; [by left|]. right. exists k. split; [by left|done]. }
  destruct (f k) as [[a|]|e] eqn:Ef.
  - destruct (active_at a (now k)) eqn:Ea.
    + split; [by left|]. do 2 (split; [done|]). intros k' [->|Hk']%elem_of_cons Hlt.
      * unfold key_lt in Hlt. by rewrite compare_refl in Hlt.
      * eapply Forall_forall in Hk; [|exact Hk']. pose proof (key_lt_trans _ _ _ Hlt Hk) as H. unfold key_lt in H. by rewrite compare_refl in H.
    + apply Hskip; [by unfold valid_key; rewrite Ef|by left|]. intros ->. unfold failed_key. by rewrite Ef.
  - apply Hskip; [by unfold valid_key; rewrite Ef|by left|]. intros ->. unfold failed_key. by rewrite Ef.
  - apply Hskip; [by unfold valid_key; rewrite Ef| |by destruct err]. intros e' He. destruct err; [by left|]. right. congruence.
Qed.
End ResolveFacts.

(** ** The identities the router writes are the ones a plane reads *)
Definition is_byte (b : Z) : Prop := 0 <= b <= 255.
Lemma byte_cases (P : Z -> bool) : forallb (fun n => P (Z.of_nat n)) (seq 0 256) = true -> forall b, is_byte b -> P b = true.
Proof.
  intros H b Hb. rewrite forallb_forall in H. rewrite <- (Z2Nat.id b) by apply Hb. apply H, in_seq. unfold is_byte in Hb. lia.
Qed.
Lemma hex_high b : is_byte b -> is_lower_hex (byte_of (hex_digit (Z.shiftr b 4))) = true.
Proof. by apply (byte_cases (fun b => is_lower_hex (byte_of (hex_digit (Z.shiftr b 4))))). Qed.
Lemma hex_low b : is_byte b -> is_lower_hex (byte_of (hex_digit (Z.land b 15))) = true.
Proof. by apply (byte_cases (fun b => is_lower_hex (byte_of (hex_digit (Z.land b 15))))). Qed.
Lemma version_byte b : is_byte b -> is_byte (Z.lor (Z.land b 15) 64) /\ byte_of (hex_digit (Z.shiftr (Z.lor (Z.land b 15) 64) 4)) = 52.
Proof.
  intros Hb. pose proof (byte_cases (fun b => between 0 255 (Z.lor (Z.land b 15) 64) && (byte_of (hex_digit (Z.shiftr (Z.lor (Z.land b 15) 64) 4)) =? 52))
    ltac:(by vm_compute) b Hb) as H. cbn beta in H. rewrite andb_true_iff, between_spec, Z.eqb_eq in H. done.
Qed.
Lemma variant_byte b : is_byte b -> is_byte (Z.lor (Z.land b 63) 128)
  /\ byte_of (hex_digit (Z.shiftr (Z.lor (Z.land b 63) 128) 4)) ∈ [56; 57; 97; 98].
Proof.
  intros Hb. pose proof (byte_cases (fun b => between 0 255 (Z.lor (Z.land b 63) 128)
      && bool_decide (byte_of (hex_digit (Z.shiftr (Z.lor (Z.land b 63) 128) 4)) ∈ [56; 57; 97; 98]))
    ltac:(by vm_compute) b Hb) as H. cbn beta in H. rewrite andb_true_iff, between_spec, bool_decide_eq_true in H. done.
Qed.
Lemma canonical_uuid bytes : length bytes = 16%nat -> Forall is_byte bytes -> is_canonical_uuid_v4 (canonical_uuid_v4 bytes) = true.
Proof.
  intros Hl Hb. do 16 (destruct bytes as [|? bytes]; [done|]). destruct bytes; [|done]. clear Hl.
  repeat match goal with H : Forall is_byte (_ :: _) |- _ => apply Forall_cons in H as [? H] end. clear Hb.
  pose proof (version_byte z5 ltac:(done)) as [Hv1 Hv2]. pose proof (variant_byte z7 ltac:(done)) as [Hw1 Hw2].
  unfold canonical_uuid_v4. cbn [list_insert insert lookup_total list_lookup_total].
  set (v := Z.lor (Z.land z5 15) 64) in *. set (w := Z.lor (Z.land z7 63) 128) in *. clearbody v w.
  repeat match goal with H : is_byte ?b |- _ => pose proof (hex_high b H); pose proof (hex_low b H); clear H end.
  unfold hex_bytes, hex2. cbn [take drop foldr String.append String.concat].
  repeat match goal with H : is_lower_hex (byte_of (hex_digit ?e)) = true |- _ => generalize dependent (hex_digit e); intros end.
  match goal with |- is_canonical_uuid_v4 ?s = true => let t := eval lazy in s in change (is_canonical_uuid_v4 t = true) end.
  unfold is_canonical_uuid_v4, Settlement.byte_at. cbn [String.length String.get seq forallb].
  rewrite (bool_decide_true _ Hw2). rewrite Hv2.
  repeat match goal with H : is_lower_hex (byte_of ?c) = true |- _ => rewrite ?H; clear H end. reflexivity.
Qed.
Lemma all_bytes_get p s : (forall i c, String.get i s = Some c -> p c = true) -> all_bytes p s = true.
Proof.
  induction s as [|c s IH]; intros H; [done|]. cbn. rewrite (H 0%nat c) by done. apply IH. intros i d Hd. by apply (H (S i)).
Qed.
Lemma get_lt s : forall i c, String.get i s = Some c -> (i < String.length s)%nat.
Proof. induction s as [|x s IH]; intros [|i] c H; cbn in *; try done; [lia|]. apply IH in H. lia. Qed.
Lemma canonical_to_str g : is_canonical_uuid_v4 g = true -> to_str g = Some g.
Proof.
  unfold is_canonical_uuid_v4. destruct (_ || _) eqn:C; [done|]. intros H. rewrite forallb_forall in H.
  unfold to_str. rewrite all_bytes_get; [done|]. intros i c Hc.
  specialize (H i ltac:(apply in_seq; pose proof (get_lt _ _ _ Hc); lia)).
  assert (Hi : Settlement.byte_at g i = byte_of c) by (unfold Settlement.byte_at; by rewrite Hc). rewrite Hi in H. unfold byte_between.
  apply orb_true_iff in H as [H%bool_decide_eq_true|H].
  - rewrite !orb_false_iff, !negb_false_iff, !Z.eqb_eq in C. assert (byte_of c = 45) as -> by (rewrite <- Hi; set_solver). done.
  - unfold is_lower_hex in H. lia.
Qed.
Lemma go_head x : (0 < x)%N -> forall s, exists c t, pretty_N_go x s = String c t /\ byte_of c <> 48.
Proof.
  induction (N.lt_wf_0 x) as [x _ IH]. intros Hx s. rewrite pretty_N_go_step by done. assert (Hlt : (x / 10 < x)%N) by (apply N.div_lt; lia). destruct (x / 10)%N as [|q] eqn:E.
  - apply N.div_small_iff in E; [|lia]. exists (pretty_N_char (x mod 10)), s. split; [done|]. rewrite N.mod_small by done.
    destruct (digit_char x E) as [_ H]. lia.
  - by apply IH.
Qed.
Lemma digits_all s : forall acc z, digits_value acc s = Some z -> all_bytes is_digit s = true.
Proof.
  induction s as [|c s IH]; intros acc z H; cbn in *; [done|]. unfold is_digit. destruct (byte_between 48 57 c); [|done]. by apply IH in H.
Qed.
Lemma pretty_attempt n : 1 <= n <= i32_max ->
  exists c t, pretty n = String c t /\ byte_of c <> 48 /\ all_bytes is_digit (pretty n) = true /\ parse_i32 (pretty n) = Some n.
Proof.
  intros Hn. destruct n as [|x|x]; [lia| |lia]. change (pretty (Zpos x)) with (pretty (Npos x)).
  pose proof (pretty_digits (Npos x)) as Hu. destruct (go_head (Npos x) ltac:(lia) EmptyString) as (c & t & Ht & Hc).
  assert (Hp : pretty (Npos x) = String c t) by exact Ht. exists c, t. rewrite Hp in *. do 2 (split; [done|]).
  split; [by apply digits_all in Hu|]. unfold parse_i32, parse_i64.
  destruct (unsigned_head _ _ Hu) as (c' & t' & [= <- <-] & Hd). unfold byte_between in Hd.
  rewrite !(proj2 (Z.eqb_neq _ _)) by lia. rewrite Hu. cbn [mbind option_bind]. unfold checked_i64, is_i64, i64_min, i64_max, i32_max in *.
  rewrite decide_True by lia. cbn. by rewrite !(proj2 (Z.leb_le _ _)) by lia.
Qed.
Lemma read_group h g n : get_all h Execution.EXECUTION_GROUP_HEADER = [g] -> get_all h Execution.EXECUTION_ATTEMPT_HEADER = [pretty n] ->
  is_canonical_uuid_v4 g = true -> 1 <= n <= i32_max -> parse_execution_attempt h = Ok (Settlement.mkAttempt (Some g) n).
Proof.
  intros Hg Ha Hc Hn. destruct (pretty_attempt n Hn) as (c & t & Hp & H0 & Hd & Hi).
  assert (Hs : to_str (pretty n) = Some (pretty n)).
  { unfold to_str. rewrite all_bytes_get; [done|]. intros i d Hi'. revert Hd Hi'. generalize (pretty n). clear. intros s.
    revert i. induction s as [|x s IH]; intros [|i] Hd Hg; cbn in *; try done; [|apply andb_true_iff in Hd as [_ Hd]; by eapply IH].
    injection Hg as ->. unfold is_digit, byte_between in *. lia. }
  unfold parse_execution_attempt, exactly_one. rewrite Hg, Ha. cbn [mbind result_bind].
  rewrite (canonical_to_str g Hc), Hs. cbn [ok_or mbind result_bind]. rewrite Hd, Hi, Hp.
  rewrite (bool_decide_false (String c t = EmptyString)) by done. cbn [starts_with_zero negb orb]. rewrite (proj2 (Z.eqb_neq _ _)) by done.
  cbn [orb mbind option_bind]. rewrite (proj2 (Z.ltb_lt 0 n)) by lia. cbn [ok_or mbind result_bind]. unfold ExecutionAttempt_grouped. rewrite Hc, (proj2 (Z.ltb_lt 0 n)) by lia. done.
Qed.

(** ** Theorems *)
(** C20: What the router decides about identity is what a plane reads, whatever
    the client wrote into its own headers: a chained attempt carries its fresh
    group and number, a single one is a direct execution, the logical identity is
    the router's, and it is consumed before anything is forwarded. *)
Theorem execution_identity_roundtrip (origin fresh : string) (req : Req) (logical group : list Z) (n : Z) :
  length logical = 16%nat -> Forall is_byte logical -> length group = 16%nat -> Forall is_byte group -> 1 <= n <= i32_max ->
  let chained := o_headers (outgoing origin req (Some (canonical_uuid_v4 logical)) (Some (mkExecution (canonical_uuid_v4 group) n))) in
  let single := o_headers (outgoing origin req (Some (canonical_uuid_v4 logical)) None) in
  parse_execution_attempt chained = Ok (Settlement.mkAttempt (Some (canonical_uuid_v4 group)) n)
  /\ parse_execution_attempt single = Ok ExecutionAttempt_direct
  /\ forall h, h = chained \/ h = single ->
     (admit_logical_request_id fresh h).2 = Ok (canonical_uuid_v4 logical)
     /\ get_all (admit_logical_request_id fresh h).1 LOGICAL_REQUEST_ID_HEADER = [].
Proof.
  intros Hl Hlb Hg Hgb Hn chained single.
  assert (Hc : forall x, get_all chained x = _) by (intros x; apply outgoing_headers).
  assert (Hs : forall x, get_all single x = _) by (intros x; apply outgoing_headers).
  split; [|split].
  - apply read_group; [by rewrite Hc|by rewrite Hc|by apply canonical_uuid|done].
  - unfold parse_execution_attempt, exactly_one. by rewrite !Hs.
  - intros h Hh. assert (Hlog : get_all h Execution.LOGICAL_REQUEST_ID_HEADER = [canonical_uuid_v4 logical]) by (destruct Hh as [-> | ->]; [by rewrite Hc|by rewrite Hs]).
    pose proof (canonical_uuid logical Hl Hlb) as Hu. unfold admit_logical_request_id. rewrite Hlog, (canonical_to_str _ Hu). cbn [fst snd mbind result_bind].
    rewrite Hu, get_all_remove. done.
Qed.
Lemma execution_identity_roundtrip_witness :
  parse_execution_attempt (o_headers (outgoing "http://127.0.0.1:8790" (mkReq "POST" None [(EXECUTION_GROUP_HEADER, "forged")] [])
    (Some (canonical_uuid_v4 (repeat 255 16))) (Some (mkExecution (canonical_uuid_v4 (repeat 7 16)) 2))))
  = Ok (Settlement.mkAttempt (Some (canonical_uuid_v4 (repeat 7 16))) 2).
Proof.
  apply (execution_identity_roundtrip "http://127.0.0.1:8790" "" (mkReq "POST" None [(EXECUTION_GROUP_HEADER, "forged")] []) (repeat 255 16) (repeat 7 16) 2);
    [reflexivity|repeat constructor; done|reflexivity|repeat constructor; done|vm_compute; split; discriminate].
Defined.

(** The first-byte clock records at most one instant: after any order of
    observations and terminations it holds the first effective one, and a sealed
    clock never reports a byte. *)
Definition effective (e : ClockEvent) : bool := match e with Observed ts => 0 <? ts | Sealed _ _ => true end.
Theorem first_byte_exact (events : list ClockEvent) :
  foldl clock_step 0 events = match List.find effective events with
                              | Some (Observed ts) => ts
                              | Some (Sealed _ _) => SEALED_WITHOUT_BYTE
                              | None => 0
                              end.
Proof.
  assert (Hfix : forall l c, c <> 0 -> foldl clock_step c l = c).
  { induction l as [|e l IH]; intros c Hc; [done|]. cbn [foldl]. assert (clock_step c e = c) as ->; [|by apply IH].
    destruct e; cbn; unfold observe_first_public_byte_at; rewrite (proj2 (Z.eqb_neq c 0)) by done; [by rewrite andb_false_r|done]. }
  induction events as [|e l IH]; [done|]. cbn [foldl List.find]. destruct e as [ts|a t]; cbn [effective clock_step].
  - unfold observe_first_public_byte_at. destruct (Z.ltb_spec 0 ts); cbn [andb]; [apply Hfix; lia|exact IH].
  - by apply Hfix.
Qed.

(** What a key can still spend: its balance, and no more than its limit less
    what it spent and holds, when it has a limit. *)
Definition left_to_spend (a : KeyAuth) : Z :=
  match ka_spend_limit a with
  | Some limit => Z.min (ka_balance a) (Z.max 0 (limit - ka_spent a - ka_reserved a))
  | None => ka_balance a
  end.
(** The counters as the authority stores them: never negative, the limit a
    64-bit number. *)
Definition key_counters_ok (a : KeyAuth) : Prop :=
  0 <= ka_spent a /\ 0 <= ka_reserved a /\ from_option is_i64 True (ka_spend_limit a).
Lemma available_exact a : key_counters_ok a -> available_nano_of a = left_to_spend a.
Proof.
  unfold key_counters_ok, available_nano_of, left_to_spend. intros (H1 & H2 & H3).
  destruct (ka_spend_limit a) as [limit|]; [|done]. cbn in *. width_lia.
Qed.

(** C19: Authorization depends on the set of credentials alone, not on their
    headers or order, and its answer is exact: an operator key always wins, an
    invalid or failing key never hides a valid one, a failing billing authority
    without a valid key is unavailability and never a rejection, and a rejection
    means that every credential was refused.  The least valid customer key is
    admitted with its account, its key id, its multiplier for each provider and,
    as the amount it may spend, its balance capped by what its limit leaves after
    its spending and holds (the stored counters being non-negative).  Operator rights include control
    rights, and those the read-only ones. *)
Theorem authorize_exact {E : Type} (cfg : AuthConfig) (billing : option (string -> result E (option KeyAuth))) (now : string -> Z) (h : Headers) (loopback : bool) :
  (forall h', (forall k, k ∈ credentials h <-> k ∈ credentials h') -> authorize cfg billing now h' loopback = authorize cfg billing now h loopback)
  /\ match authorize cfg billing now h loopback with
     | Admin s => (s ∈ credentials h /\ s ∈ api_keys cfg) \/ (api_keys cfg = [] /\ trust_loopback cfg = true /\ loopback = true)
     | z => authed cfg h loopback = false /\ (forall k, k ∈ credentials h -> k ∉ api_keys cfg)
        /\ match billing, z with
           | Some f, Metered account k key_id mult overrides available =>
               exists a, k ∈ credentials h /\ f k = Ok (Some a) /\ active_at a (now k) = true
               /\ account = ka_account_id a /\ key_id = ka_key_id a /\ (forall p, authz_mult_for z p = mult_for a p)
               /\ available <= ka_balance a /\ (key_counters_ok a -> available = left_to_spend a)
               /\ forall k', k' ∈ credentials h -> key_lt k' k -> valid_key f now k' = false
           | Some f, Unavailable => (forall k, k ∈ credentials h -> valid_key f now k = false) /\ exists k e, k ∈ credentials h /\ f k = Err e
           | Some f, _ => forall k, k ∈ credentials h -> valid_key f now k = false /\ failed_key f k = false
           | None, z => z = Unauthorized
           end
     end
  /\ (authed cfg h loopback = true <-> exists s, authorize cfg billing now h loopback = Admin s)
  /\ (authed cfg h loopback = true -> control_authed cfg h loopback = true)
  /\ (control_authed cfg h loopback = true -> readonly_authed cfg h loopback = true).
Proof.
  split.
  { intros h' Hh. unfold authorize, matching_key, resolve_client_key. by rewrite (client_keys_set h h'). }
  assert (Hin : forall k, k ∈ client_keys h <-> k ∈ credentials h) by apply client_keys_elem. pose proof (client_keys_sorted h) as Hs.
  assert (Hauthed : authed cfg h loopback = bool_decide (matching_key h (api_keys cfg) <> None)
                    || (bool_decide (api_keys cfg = []) && trust_loopback cfg && loopback)).
  { unfold authed, key_in, loopback_admin. destruct (decide (api_keys cfg = [])) as [E0|E0]; [|by rewrite (bool_decide_false (api_keys cfg = [])), orb_false_r by done].
    rewrite (bool_decide_true (api_keys cfg = [])), E0 by done. rewrite matching_key_spec.
    destruct (List.find _ (client_keys h)) as [k|] eqn:Ef; [|done]. apply (find_sorted _ _ _ Hs) in Ef as (_ & Hk%bool_decide_eq_true & _). set_solver. }
  split; [|split; [|split; [unfold control_authed; by intros ->|unfold readonly_authed; by intros ->]]].
  - unfold authorize. destruct (matching_key h (api_keys cfg)) as [s|] eqn:Em.
    { rewrite matching_key_spec in Em. apply (find_sorted _ _ _ Hs) in Em as (H1 & H2%bool_decide_eq_true & _). left. by rewrite <- Hin. }
    destruct (bool_decide (api_keys cfg = []) && trust_loopback cfg && loopback) eqn:El.
    { rewrite !andb_true_iff, bool_decide_eq_true in El. right. naive_solver. }
    rewrite (bool_decide_false (None <> None)) in Hauthed by naive_solver. cbn [orb] in Hauthed. rewrite matching_key_spec in Em.
    assert (Hno : forall k, k ∈ credentials h -> k ∉ api_keys cfg).
    { intros k Hk%Hin. by apply (find_none_elem _ _ _ Em), bool_decide_eq_false in Hk. }
    destruct billing as [f|]; [|done]. unfold resolve_client_key, resolve_client_keys. pose proof (resolve_loop_spec f now (client_keys h) None Hs) as H.
    destruct (resolve_loop f now None (client_keys h)) as [[[k a]|]|e]; (split; [done|split; [done|]]).
    + destruct H as (H1 & H2 & H3 & H4). exists a. rewrite <- Hin. do 5 (split; [done|]). split; [done|]. split; [|split].
      * unfold available_nano_of. destruct (ka_spend_limit a); cbn; lia.
      * apply available_exact.
      * intros k' Hk'%Hin. by apply H4.
    + destruct H as [_ H]. intros k Hk%Hin. by apply H.
    + destruct H as [[H|(k & Hk & He)] H2]; [done|]. split; [intros k' Hk'%Hin; by apply H2|]. exists k, e. by rewrite <- Hin.
  - rewrite Hauthed. unfold authorize. destruct (matching_key h (api_keys cfg)) as [s|] eqn:Em.
    + rewrite bool_decide_true by done. split; [by exists s|done].
    + rewrite bool_decide_false by naive_solver. cbn [orb]. destruct (_ && _ && _) eqn:El; [split; [by eexists|done]|]. split; [done|]. intros [s H]. revert H.
      destruct billing as [f|]; [|done]. by destruct (resolve_client_key f now h) as [[[k a]|]|].
Qed.
(** A customer with a balance of 1000 and a limit of 600, of which 150 are spent
    and 50 held, may spend 400. *)
Definition limited_key : KeyAuth := mkKeyAuth "acct" "key-1" 10000 [] 1000 150 50 (Some 600) None true.
Definition limited_config : AuthConfig := mkAuthConfig ["operator"%string] [] [] false.
Definition limited_billing (k : string) : result () (option KeyAuth) :=
  Ok (if bool_decide (k = "sk-customer"%string) then Some limited_key else None).
Definition limited_headers : Headers := [("x-api-key", "sk-customer")]%string.
Lemma authorize_exact_witness :
  authorize limited_config (Some limited_billing) (fun _ => 5) limited_headers false
    = Metered "acct" "sk-customer" "key-1" 10000 [] (left_to_spend limited_key)
  /\ left_to_spend limited_key = 400.
Proof.
  split; [|vm_compute; reflexivity].
  destruct (proj1 (proj2 (authorize_exact limited_config (Some limited_billing) (fun _ => 5) limited_headers false)))
    as (_ & _ & a & _ & Hf & _ & _ & _ & _ & _ & Hv & _).
  assert (E : a = limited_key) by (vm_compute in Hf; by injection Hf as <-). subst a.
  transitivity (Metered "acct" "sk-customer" "key-1" 10000 [] (available_nano_of limited_key)); [vm_compute; reflexivity|].
  rewrite <- Hv; [reflexivity|]. split; [done|]. split; [done|]. vm_compute. split; discriminate.
Defined.
