(* ===== verification/RouterAuthority.v ===== *)
(** * What the router asks a provider runtime ([crates/server/src/router_*.rs])

    The four read-only producers behind the router's preflights: credentials
    ([router_auth.rs]), account policy ([router_policy.rs]), key-scoped prices
    ([router_pricing.rs]) and the KIMI model list ([router_catalog.rs]).  The
    second half composes them with the router's own readers: what a producer
    says and what the router makes of it.  The clock, the billing authority and
    the hot tariff book are arguments; an answer is the status and the JSON value
    of its body. *)
From S2P Require Import Prelude Text LedgerDb Accounts Tariffs MeterUsage TurnMeter KimiTariffs CodexTariffs GeminiTariffs MediaTariffs TariffPayload TariffBook.
From S2P Require Import Settlement BodyStore RouterWire RouterCatalog RouterPolicy RouterModels Ingress.
#[local] Open Scope Z_scope.

Record Answer := mkAnswer { an_status : Z; an_body : Value }.
Definition num (z : Z) : Value := VNumber (PosInt z).
Definition error_answer (status : Z) (code message : string) : Answer :=
  mkAnswer status (VObject [("error", VObject [("code", str code); ("message", str message)])]%string).
Definition unauthorized : Answer := error_answer 401 "unauthorized" "Invalid API credential.".
(** A runtime: the operator keys and the billing authority, when it has one. *)
Record Runtime (E : Type) := mkRuntime { rt_cfg : AuthConfig; rt_billing : option (string -> result E (option KeyAuth)) }.
Arguments mkRuntime {E}.
Arguments rt_cfg {E}.
Arguments rt_billing {E}.

(** ** Credentials *)
Definition serve_auth {E} (rt : Runtime E) (now : string -> Z) (h : Headers) (loopback : bool) : Answer :=
  let authenticated := mkAnswer 200 (VObject [("schema_version", num 1); ("authenticated", VBool true)])%string in
  if authed (rt_cfg rt) h loopback then authenticated
  else match rt_billing rt with
       | None => unauthorized
       | Some key_auth =>
           match resolve_client_key key_auth now h with
           | Ok (Some _) => authenticated
           | Ok None => unauthorized
           | Err _ => error_answer 503 "auth_unavailable" "Authentication is temporarily unavailable."
           end
       end.

(** ** Account policy *)
Module Policy.
Definition MAX_CANDIDATES : Z := 32.
Definition MAX_ID_BYTES : Z := 256.
Record Candidate := mkCandidate { id : string; provider_id : string; canonical_model_id : string }.
Record PreflightRequest := mkRequest { schema_version : Z; candidates : list Candidate }.
End Policy.
Definition valid_id (v : string) : bool :=
  negb (bool_decide (v = EmptyString)) && (str_len v <=? Policy.MAX_ID_BYTES) && bool_decide (trim v = v)
  && all_bytes (fun c => negb (is_ascii_control c)) v.
(** [ids.insert(..)] inside [all]: the first failure stops the scan. *)
Fixpoint all_distinct {A} (ok : A -> bool) (key : A -> string) (seen : list string) (l : list A) : bool :=
  match l with
  | [] => true
  | x :: l => ok x && negb (bool_decide (key x ∈ seen)) && all_distinct ok key (key x :: seen) l
  end.
Definition validate_policy (r : Policy.PreflightRequest) : bool :=
  if negb (Policy.schema_version r =? 1) || bool_decide (length (Policy.candidates r) = 0%nat)
     || (Policy.MAX_CANDIDATES <? Z.of_nat (length (Policy.candidates r))) then false
  else all_distinct (fun c => valid_id (Policy.id c) && valid_id (Policy.canonical_model_id c)
                              && bool_decide (Policy.provider_id c ∈ ["anthropic"; "openai"; "google"]%string))
         Policy.id [] (Policy.candidates r).
Definition policy_response (mode : string) (allowed : list string) : Answer :=
  mkAnswer 200 (VObject [("schema_version", num 1); ("mode", str mode); ("allowed", strs allowed)])%string.
Definition serve_policy {E} (rt : Runtime E) (now : string -> Z) (h : Headers) (loopback : bool) (payload : option Policy.PreflightRequest) : Answer :=
  let invalid := error_answer 400 "invalid_request" "Invalid router policy preflight request." in
  match payload with
  | None => invalid
  | Some r =>
      if negb (validate_policy r) then invalid
      else
        let all := policy_response "unrestricted" (map Policy.id (Policy.candidates r)) in
        if authed (rt_cfg rt) h loopback then all
        else match rt_billing rt with
             | None => unauthorized
             | Some key_auth =>
                 match resolve_client_key key_auth now h with
                 | Ok (Some _) => all
                 | Ok None => unauthorized
                 | Err _ => error_answer 503 "policy_unavailable" "Account policy is temporarily unavailable."
                 end
             end
  end.

(** ** Prices *)
Definition TOKENS_PER_MILLION : Z := 1000000.
Record RawRateCard := mkRaw { rw_input : Z; rw_output : Z; rw_cache_read : Z; rw_cache_write : Z; rw_cache_write_1h : option Z }.
Record RawContextTier := mkRawTier { rw_threshold : Z; rw_standard : RawRateCard; rw_priority : option RawRateCard }.
Record BasePricing := mkBase {
  bp_canonical_model_id : string; bp_standard : RawRateCard; bp_priority : option RawRateCard; bp_long_context : option RawContextTier }.
Definition scaled_rate (rate_per_token multiplier_bp : Z) : string :=
  pretty (Z.max 0 (apply_multiplier (sat_i128 (rate_per_token * TOKENS_PER_MILLION)) multiplier_bp)).
Definition rate_card (raw : RawRateCard) (bp : Z) : RateCard :=
  mkRateCard (scaled_rate (rw_input raw) bp) (scaled_rate (rw_output raw) bp) (scaled_rate (rw_cache_read raw) bp)
    (scaled_rate (rw_cache_write raw) bp) ((fun r => scaled_rate r bp) <$> rw_cache_write_1h raw).
Definition apply_basis_points (rate basis_points : Z) : Z := apply_multiplier rate basis_points.

Section Quotes.
  Context (book : TariffBookSnapshot) (now : Z).
Definition anthropic_pricing (model_id : string) : BasePricing :=
  let prices := match anthropic_matched_tariff_at model_id now false with
                | Some (family, compiled) => reserve_prices (reserve_base book family now compiled as_anthropic)
                | None => model_prices_at model_id now
                end in
  let canonical := match anthropic_tariff_capability_at model_id now (mkModifiers Tariffs.Standard Tariffs.Global) with
                   | Ok identity => Tariffs.canonical_model_id identity
                   | Err _ => model_id
                   end in
  mkBase canonical (mkRaw (p_input prices) (p_output prices) (p_cache_read prices) (p_cache_write_5m prices) (Some (p_cache_write_1h prices))) None None.
Definition codex_rate_card (p : Codex.CodexPrices) (input_bp output_bp : Z) (fast : bool) : RawRateCard :=
  let fast_bp := if fast then Codex.api_fast_multiplier_basis_points p else 10000 in
  let scale rate bp := apply_basis_points (apply_basis_points rate bp) fast_bp in
  mkRaw (scale (Codex.input p) input_bp) (scale (Codex.output p) output_bp) (scale (Codex.cached_input p) input_bp)
    (scale (Codex.cache_write_input p) input_bp) None.
Definition codex_pricing (spec : Codex.CodexModelSpec) : BasePricing :=
  let p := match Codex.codex_matched_tariff_at (Codex.spec_id spec) now with
           | Some (family, compiled) => reserve_prices (reserve_base book family now compiled as_codex)
           | None => Codex.spec_prices spec
           end in
  let long fast := codex_rate_card p (Codex.long_input_basis_points p) (Codex.long_output_basis_points p) fast in
  mkBase (Codex.spec_upstream spec) (codex_rate_card p 10000 10000 false)
    ((fun _ => codex_rate_card p 10000 10000 true) <$> Codex.spec_fast spec)
    (Some (mkRawTier (Codex.long_context_threshold p) (long false) ((fun _ => long true) <$> Codex.spec_fast spec))).
Definition gemini_rate_card (p : Gemini.GeminiPrices) (long : bool) : RawRateCard :=
  mkRaw (if long then Gemini.long_input p else Gemini.input p) (if long then Gemini.long_output p else Gemini.output p)
    (if long then Gemini.long_cached_input p else Gemini.cached_input p) 0 None.
Definition gemini_pricing (model_id : string) (p : Gemini.GeminiPrices) : BasePricing :=
  mkBase model_id (gemini_rate_card p false) None
    (if Gemini.long_context_threshold p =? u64_max then None
     else Some (mkRawTier (Gemini.long_context_threshold p) (gemini_rate_card p true) None)).
Definition kimi_pricing (canonical : string) (p : TurnPrices) : BasePricing :=
  mkBase canonical (mkRaw (TurnMeter.input p) (TurnMeter.output p) (TurnMeter.cached_input p) (TurnMeter.cache_write p) None) None None.
Definition openai_image_pricing (t : OpenAiImage.OpenAiImageTariffIdentity) : BasePricing :=
  let p := reserve_prices (reserve_base book OpenAiImage.OPENAI_IMAGE_TARIFF_FAMILY now (OpenAiImage.prices t) as_openai_image) in
  mkBase (OpenAiImage.canonical_model_id t)
    (mkRaw (OpenAiImage.fresh_text_input p) (OpenAiImage.image_output p) (OpenAiImage.cached_text_input p) 0 None) None None.
Definition base_pricing (c : PricingCandidate) : option BasePricing :=
  if bool_decide (pg_provider_id c = "anthropic"%string) then Some (anthropic_pricing (pg_model_id c))
  else if bool_decide (pg_provider_id c = "openai"%string) then
    match List.find (fun m => bool_decide (Codex.spec_id m = pg_model_id c)) (Codex.codex_catalog_at now) with
    | Some spec => Some (codex_pricing spec)
    | None => match OpenAiImage.openai_image_tariff (pg_model_id c) with Ok t => Some (openai_image_pricing t) | Err _ => None end
    end
  else if bool_decide (pg_provider_id c = "google"%string) then
    (fun fc => gemini_pricing (pg_model_id c) (reserve_prices (reserve_base book fc.1 now fc.2 as_gemini)))
      <$> Gemini.gemini_matched_tariff_at (pg_model_id c) now
  else if bool_decide (pg_provider_id c = "kimi"%string) then
    resolved ← Kimi.kimi_resolve_subscription_model (pg_model_id c);
    '(family, compiled) ← Kimi.kimi_matched_tariff_at (pg_model_id c) now;
    Some (kimi_pricing (Kimi.official_model resolved) (reserve_prices (reserve_base book family now compiled as_kimi)))
  else None.
Definition priced_entry (id : string) (base : BasePricing) (bp : Z) : PricingEntry :=
  mkPricingEntry id (rate_card (bp_standard base) bp) ((fun raw => rate_card raw bp) <$> bp_priority base)
    ((fun t => mkTier (rw_threshold t) (rate_card (rw_standard t) bp) ((fun raw => rate_card raw bp) <$> rw_priority t)) <$> bp_long_context base).
(** The entries of one request at one multiplier. *)
Definition quotes (cs : list PricingCandidate) (bp : Z) : list PricingEntry :=
  omap (fun c => (fun base => priced_entry (pg_id c) base bp) <$> base_pricing c) cs.
End Quotes.

Definition validate_pricing_request (schema_version : Z) (cs : list PricingCandidate) : bool :=
  if negb (schema_version =? 1) || bool_decide (length cs = 0%nat) || (256 <? Z.of_nat (length cs)) then false
  else all_distinct (fun c => valid_id (pg_id c) && valid_id (pg_model_id c)
                              && bool_decide (pg_provider_id c ∈ ["anthropic"; "openai"; "google"; "kimi"]%string)) pg_id [] cs.
Definition entry_json (e : PricingEntry) : Value :=
  VObject ([("id", str (pe_id e)); ("standard", card_json (pe_standard e))]%string
           ++ field "priority" (card_json <$> pe_priority e) ++ field "long_context" (tier_json <$> pe_long_context e)).
Definition pricing_response (mode : string) (entries : list PricingEntry) : Answer :=
  mkAnswer 200 (VObject [("schema_version", num 1); ("unit", str UNIT); ("mode", str mode); ("entries", VArray (map entry_json entries))])%string.
Definition serve_pricing {E} (rt : Runtime E) (book : TariffBookSnapshot) (now : Z) (clock : string -> Z) (h : Headers) (loopback : bool)
    (payload : option (Z * list PricingCandidate)) : Answer :=
  let invalid := error_answer 400 "invalid_request" "Invalid catalog pricing request." in
  match payload with
  | None => invalid
  | Some (schema_version, cs) =>
      if negb (validate_pricing_request schema_version cs) then invalid
      else if authed (rt_cfg rt) h loopback then pricing_response "admin" (quotes book now cs 10000)
      else match rt_billing rt with
           | None => unauthorized
           | Some key_auth =>
               match resolve_client_key key_auth clock h with
               | Ok (Some (_, auth)) => if active_at auth now then pricing_response "legacy" (quotes book now cs (ka_mult_bp auth)) else unauthorized
               | Ok None => unauthorized
               | Err _ => error_answer 503 "pricing_unavailable" "Catalog pricing is temporarily unavailable."
               end
           end
  end.

(** ** The KIMI model list *)
Definition KIMI_REASONING_EFFORTS : list string := ["none"; "low"; "medium"; "high"; "xhigh"; "max"]%string.
Definition kimi_display_name (alias : string) : string :=
  if bool_decide (alias = "kimi-for-coding"%string) then "Kimi for Coding"
  else if bool_decide (alias = "kimi-for-coding-highspeed"%string) then "Kimi for Coding (High Speed)"
  else if bool_decide (alias = "k3"%string) then "Kimi K3 (1M)"
  else if bool_decide (alias = "k3[1m]"%string) then "Kimi K3 (1M)"
  else if bool_decide (alias = "k3-256k"%string) then "Kimi K3 (256K)"
  else "Kimi".
Definition kimi_model_json (m : Kimi.KimiSubscriptionModel) : Value :=
  VObject [("id", str (Kimi.alias m)); ("display_name", str (kimi_display_name (Kimi.alias m))); ("created", num (Kimi.created m));
           ("max_input_tokens", num (Kimi.sub_input_token_limit m)); ("reasoning_efforts", strs KIMI_REASONING_EFFORTS);
           ("reasoning", VBool true); ("image_input", VBool true); ("structured_outputs", VNull)]%string.
Definition kimi_catalog (enabled : bool) : Value :=
  VObject [("schema_version", num 1); ("data", VArray (if enabled then map kimi_model_json Kimi.kimi_subscription_models else []))]%string.
Definition serve_kimi {E} (rt : Runtime E) (enabled : bool) (clock : string -> Z) (now : Z) (h : Headers) (loopback : bool) : Answer :=
  let ok := mkAnswer 200 (kimi_catalog enabled) in
  if authed (rt_cfg rt) h loopback then ok
  else match rt_billing rt with
       | None => unauthorized
       | Some key_auth =>
           match resolve_client_key key_auth clock h with
           | Ok (Some (_, auth)) => if active_at auth now then ok else unauthorized
           | Ok None => unauthorized
           | Err _ => error_answer 503 "catalog_unavailable" "Catalog discovery is temporarily unavailable."
           end
       end.

(** ** How the router reads an answer: the derived struct readers *)
(** [deny_unknown_fields]. *)
Definition closed (names : list string) (v : Value) : option Value :=
  match v with VObject l => if forallb (fun f => bool_decide (f.1 ∈ names)) l then Some v else None | _ => None end.
Definition req {A} (f : string) (rd : Value -> option A) (v : Value) : option A := get f v >>? rd.
Definition opt {A} (f : string) (rd : Value -> option A) (v : Value) : option (option A) :=
  match get f v with None | Some VNull => Some None | Some x => Some <$> rd x end.
Fixpoint read_all {A} (rd : Value -> option A) (l : list Value) : option (list A) :=
  match l with [] => Some [] | v :: l => x ← rd v; rest ← read_all rd l; Some (x :: rest) end.
Definition read_array {A} (rd : Value -> option A) (v : Value) : option (list A) := as_array v >>? read_all rd.
Definition read_auth (v : Value) : option AuthResponse :=
  v ← closed ["schema_version"; "authenticated"]%string v;
  version ← req "schema_version" as_u64 v; ok ← req "authenticated" as_bool v; Some (mkAuthResponse version ok).
Definition read_startup_error (v : Value) : option (string * string) :=
  v ← closed ["error"]%string v; e ← req "error" Some v; e ← closed ["code"; "message"]%string e;
  code ← req "code" as_str e; message ← req "message" as_str e; Some (code, message).
Definition read_mode (v : Value) : option PolicyMode :=
  s ← as_str v;
  if bool_decide (s = "unrestricted"%string) then Some Unrestricted else if bool_decide (s = "strict"%string) then Some Strict else None.
Definition read_policy (v : Value) : option PreflightResponse :=
  v ← closed ["schema_version"; "mode"; "allowed"]%string v;
  version ← req "schema_version" as_u64 v; mode ← req "mode" read_mode v; allowed ← req "allowed" (read_array as_str) v;
  Some (mkPreflight version mode allowed).
Definition read_card (v : Value) : option RateCard :=
  v ← closed ["input"; "output"; "cache_read"; "cache_write"; "cache_write_1h"]%string v;
  input ← req "input" as_str v; output ← req "output" as_str v; cr ← req "cache_read" as_str v; cw ← req "cache_write" as_str v;
  cw1 ← opt "cache_write_1h" as_str v; Some (mkRateCard input output cr cw cw1).
Definition read_tier (v : Value) : option ContextTier :=
  v ← closed ["threshold_tokens"; "standard"; "priority"]%string v;
  threshold ← req "threshold_tokens" as_u64 v; standard ← req "standard" read_card v; priority ← opt "priority" read_card v;
  Some (mkTier threshold standard priority).
Definition read_entry (v : Value) : option PricingEntry :=
  v ← closed ["id"; "standard"; "priority"; "long_context"]%string v;
  id ← req "id" as_str v; standard ← req "standard" read_card v; priority ← opt "priority" read_card v; long ← opt "long_context" read_tier v;
  Some (mkPricingEntry id standard priority long).
Definition read_pricing_mode (v : Value) : option PricingMode :=
  s ← as_str v;
  if bool_decide (s = "admin"%string) then Some PmAdmin else if bool_decide (s = "legacy"%string) then Some PmLegacy
  else if bool_decide (s = "strict"%string) then Some PmStrict else None.
Definition read_pricing (v : Value) : option PricingResponse :=
  v ← closed ["schema_version"; "unit"; "mode"; "entries"]%string v;
  version ← req "schema_version" as_u64 v; unit ← req "unit" as_str v; mode ← req "mode" read_pricing_mode v;
  entries ← req "entries" (read_array read_entry) v; Some (mkPricingResponse version unit mode entries).


(** ** What is written is what is read *)
Lemma read_card_json c : read_card (card_json c) = Some c.
Proof. destruct c as [? ? ? ? []]; reflexivity. Qed.
Lemma read_tier_json t : read_tier (tier_json t) = Some t.
Proof. destruct t as [z [? ? ? ? []] [[? ? ? ? []]|]]; reflexivity. Qed.
Lemma read_entry_json e : read_entry (entry_json e) = Some e.
Proof. destruct e as [id [? ? ? ? []] [[? ? ? ? []]|] [[? [? ? ? ? []] [[? ? ? ? []]|]]|]]; reflexivity. Qed.
Lemma read_all_map {A} (rd : Value -> option A) (w : A -> Value) l : (forall x, rd (w x) = Some x) -> read_all rd (map w l) = Some l.
Proof. intros H. induction l as [|x l IH]; [done|]. cbn [map read_all]. rewrite H, IH. done. Qed.
Lemma read_pricing_response mode m entries :
  read_pricing_mode (str mode) = Some m ->
  read_pricing (an_body (pricing_response mode entries)) = Some (mkPricingResponse 1 UNIT m entries).
Proof.
  intros Hm. transitivity (m ← read_pricing_mode (str mode); entries ← read_all read_entry (map entry_json entries); Some (mkPricingResponse 1 UNIT m entries)); [reflexivity|].
  rewrite Hm, (read_all_map _ _ _ read_entry_json). done.
Qed.
Lemma read_policy_response allowed : read_policy (an_body (policy_response "unrestricted" allowed)) = Some (mkPreflight 1 Unrestricted allowed).
Proof.
  transitivity (l ← read_all as_str (map VString allowed); Some (mkPreflight 1 Unrestricted l)); [reflexivity|].
  by rewrite (read_all_map _ VString) by done.
Qed.

(** ** Distinct identities and their positions *)
Lemma all_distinct_spec {A} (ok : A -> bool) (key : A -> string) l : forall seen,
  all_distinct ok key seen l = true <-> Forall (fun x => ok x = true) l /\ NoDup (map key l) /\ forall x, x ∈ map key l -> x ∉ seen.
Proof.
  induction l as [|x l IH]; intros seen; cbn [all_distinct map].
  - split; [|done]. intros _. split; [done|]. split; [constructor|]. by intros y Hy%elem_of_nil.
  - rewrite !andb_true_iff, negb_true_iff, bool_decide_eq_false, IH, Forall_cons, NoDup_cons. set_solver.
Qed.
Lemma position_nodup {A} (key : A -> string) l i x : NoDup (map key l) -> l !! i = Some x ->
  position (fun y => bool_decide (key y = key x)) l = Some i.
Proof.
  revert i. induction l as [|y l IH]; intros i; [done|]. cbn [map position]. intros [Hn Hd]%NoDup_cons. destruct i as [|i]; cbn.
  - intros [= ->]. by rewrite bool_decide_true.
  - intros Hi. rewrite bool_decide_false, (IH i Hd Hi); [done|]. intros E. apply Hn. rewrite E. apply list_elem_of_fmap. exists x. split; [done|].
    by eapply list_elem_of_lookup_2.
Qed.
(** The head of an ordered subset is found at some later index. *)
Lemma sublist_head_at {A} (ids : list A) id rest k : sublist (id :: rest) (drop k ids) ->
  exists index, (k <= index)%nat /\ ids !! index = Some id /\ sublist rest (drop (S index) ids).
Proof.
  intros (l1 & l2 & Hd & Hs)%sublist_cons_l. exists (k + length l1)%nat. split; [lia|]. split.
  - by rewrite <- lookup_drop, Hd, list_lookup_middle.
  - replace (S (k + length l1)) with (k + S (length l1))%nat by lia. by rewrite <- drop_drop, Hd, (cons_middle id), (assoc_L (++)), drop_app_length' by (rewrite length_app; cbn; lia).
Qed.
Lemma allowed_in_order_complete cs : NoDup (map pc_id cs) -> forall allowed previous,
  sublist allowed (drop (from_option S 0%nat previous) (map pc_id cs)) -> allowed_in_order cs previous allowed = true.
Proof.
  intros Hn. induction allowed as [|id allowed IH]; intros previous H; [done|]. cbn [allowed_in_order].
  apply sublist_head_at in H as (index & Hk & Hid & Hs). rewrite list_lookup_fmap in Hid. apply fmap_Some in Hid as (c & Hc & ->).
  rewrite (position_nodup pc_id cs index c Hn Hc). destruct (from_option _ false previous) eqn:F; [|by apply IH].
  destruct previous as [q|]; cbn in *; [apply bool_decide_eq_true in F; lia|done].
Qed.
Lemma entries_in_order_complete cs : NoDup (map pg_id cs) -> forall entries previous, Forall canonical_entry entries ->
  sublist (map pe_id entries) (drop (from_option S 0%nat previous) (map pg_id cs)) -> entries_in_order cs previous entries = true.
Proof.
  intros Hn. induction entries as [|e entries IH]; intros previous Hf H; [done|]. cbn [entries_in_order].
  apply Forall_cons in Hf as [(H1 & H2 & H3) Hf].
  apply sublist_head_at in H as (index & Hk & Hid & Hs). rewrite list_lookup_fmap in Hid. apply fmap_Some in Hid as (c & Hc & Hid).
  rewrite Hid, (position_nodup pg_id cs index c Hn Hc), H1, H2, H3. cbn [negb]. rewrite !orb_false_r.
  destruct (from_option _ false previous) eqn:F; [|by apply IH].
  destruct previous as [q|]; cbn in *; [apply bool_decide_eq_true in F; lia|done].
Qed.

(** ** Quotes are canonical *)
Lemma pretty_canonical z : 0 <= z -> canonical_nonnegative_integer (pretty z) = true.
Proof.
  intros Hz. destruct z as [|x|x]; [done| |lia]. change (pretty (Zpos x)) with (pretty (Npos x)).
  pose proof (pretty_digits (Npos x)) as Hu. destruct (go_head (Npos x) ltac:(lia) EmptyString) as (c & t & Ht & Hc).
  assert (Hp : pretty (Npos x) = String c t) by exact Ht. unfold canonical_nonnegative_integer. rewrite Hp in *.
  unfold unsigned_value in Hu. pose proof Hu as Hd%digits_all.
  rewrite Hd, (proj2 (Z.eqb_neq _ _)) by done. cbn in Hd. apply andb_true_iff in Hd as [-> _]. by rewrite orb_true_r.
Qed.
Lemma rate_card_canonical raw bp : valid_rate_card (rate_card raw bp) = true.
Proof.
  unfold valid_rate_card. apply forallb_forall. unfold rate_card, scaled_rate. cbn [rt_input rt_output rt_cache_read rt_cache_write rt_cache_write_1h].
  intros s Hs. destruct (rw_cache_write_1h raw); cbn in Hs; repeat destruct Hs as [<-|Hs]; try (by apply pretty_canonical; lia); done.
Qed.
Lemma optional_card_canonical o bp : valid_optional_card ((fun raw => rate_card raw bp) <$> o) = true.
Proof. destruct o; [apply rate_card_canonical|done]. Qed.
Definition tier_positive (base : BasePricing) : Prop :=
  match bp_long_context base with Some t => rw_threshold t <> 0 | None => True end.
#[global] Instance tier_positive_dec base : Decision (tier_positive base).
Proof. unfold tier_positive. destruct (bp_long_context base); apply _. Defined.
Lemma priced_entry_canonical id base bp : tier_positive base -> canonical_entry (priced_entry id base bp).
Proof.
  unfold tier_positive. intros H. split; [apply rate_card_canonical|]. split; [apply optional_card_canonical|].
  unfold priced_entry. cbn [pe_long_context]. destruct (bp_long_context base) as [t|]; [|done].
  cbn [fmap option_fmap option_map valid_tier from_option tier_threshold tier_standard tier_priority].
  by rewrite (proj2 (Z.eqb_neq _ _) H), rate_card_canonical, optional_card_canonical.
Qed.

Lemma priced_entry_zero_tier id base bp : canonical_entry (priced_entry id base bp) -> tier_positive base.
Proof.
  intros (_ & _ & H). unfold tier_positive. unfold priced_entry in H. cbn [pe_long_context] in H.
  destruct (bp_long_context base) as [t|]; [|done].
  cbn [fmap option_fmap option_map valid_tier from_option tier_threshold] in H.
  intros E. by rewrite E in H.
Qed.

(** The router accepts a list of quotes iff no quoted long-context tier starts at
    zero: one such entry and it discards the whole list. *)
Definition quotable (book : TariffBookSnapshot) (now : Z) (cs : list PricingCandidate) : bool :=
  forallb (fun c => from_option (fun base => bool_decide (tier_positive base)) true (base_pricing book now c)) cs.
Definition accepted_quotes (book : TariffBookSnapshot) (now : Z) (cs : list PricingCandidate) (bp : Z) : option (list PricingEntry) :=
  if quotable book now cs then Some (quotes book now cs bp) else None.

(** No published override puts the long-context tier at zero. *)
Definition book_tiers_positive (book : TariffBookSnapshot) : Prop :=
  forall k p, payloads book !! k = Some p -> Forall (fun t => t <> 0) (thresholds p).
Lemma reserve_leg {T} book family now compiled (convert : TariffOverridePayload -> option T) (leg : T -> Z) :
  book_tiers_positive book -> leg compiled <> 0 ->
  (forall p x, convert p = Some x -> leg x ∈ thresholds p) ->
  leg (reserve_prices (reserve_base book family now compiled convert)) <> 0.
Proof.
  intros Hb Hc Hl. unfold reserve_base, resolve. destruct (resolve_tariff_override _ _ _) as [row|]; cbn; [|done].
  destruct (payloads book !! _) as [p|] eqn:E; cbn; [|done]. destruct (convert p) as [x|] eqn:Ex; cbn; [|done].
  apply Hb in E. rewrite Forall_forall in E. apply E. by apply Hl.
Qed.
(** An epoch is one of its schedule's. *)
Lemma epoch_kept {A B} (P : B -> Prop) (g : A -> B) (f : A -> bool) l : forall x, P x -> Forall (fun e => P (g e)) l ->
  P (fold_left (fun x e => if f e then g e else x) l x).
Proof. induction l as [|e l IH]; intros x Hx Hl; [done|]. apply Forall_cons in Hl as [He Hl]. cbn. apply IH; [by destruct (f e)|done]. Qed.
Lemma codex_compiled_threshold e now : e ∈ Codex.CATALOG -> Codex.long_context_threshold (Codex.prices_at (Codex.schedule e) now) = 272000.
Proof.
  intros He. unfold Codex.prices_at, Codex.price_epoch_at.
  apply (epoch_kept (fun x => Codex.long_context_threshold (Codex.prices_of (eprices x)) = 272000) (fun x => x));
    revert e He; apply Forall_forall; repeat constructor.
Qed.
Lemma gemini_compiled_threshold e now : e ∈ Gemini.CATALOG -> 0 < Gemini.long_context_threshold (prices_at (Gemini.schedule e) now).
Proof.
  intros He. unfold prices_at.
  apply (epoch_kept (fun x => 0 < Gemini.long_context_threshold x)); revert e He; apply Forall_forall; repeat constructor.
Qed.
Lemma find_id_elem {A} (p : A -> bool) l x : List.find p l = Some x -> x ∈ l.
Proof. intros [H _]%List.find_some. by apply list_elem_of_In. Qed.
Lemma codex_tier_positive book now spec : book_tiers_positive book -> spec ∈ Codex.codex_catalog_at now -> tier_positive (codex_pricing book now spec).
Proof.
  intros Hb Hs. unfold tier_positive, codex_pricing. cbn [bp_long_context rw_threshold].
  apply list_elem_of_fmap in Hs as (e & -> & He). cbn [Codex.spec_id Codex.spec_prices].
  unfold Codex.codex_matched_tariff_at. destruct (Codex.find_id _) as [e'|] eqn:E; cbn [fmap option_fmap option_map].
  - apply reserve_leg; [done|rewrite codex_compiled_threshold; [done|by eapply find_id_elem]|].
    intros [] x; try done. intros [= <-]. set_solver.
  - by rewrite codex_compiled_threshold.
Qed.
Lemma base_tier_positive book now c base : book_tiers_positive book -> base_pricing book now c = Some base -> tier_positive base.
Proof.
  intros Hb. unfold base_pricing. case_bool_decide; [by intros [= <-]|]. case_bool_decide.
  { destruct (List.find _ _) as [spec|] eqn:E; [intros [= <-]; apply codex_tier_positive; [done|by eapply find_id_elem]|].
    destruct (OpenAiImage.openai_image_tariff _); [by intros [= <-]|done]. }
  case_bool_decide.
  { unfold Gemini.gemini_matched_tariff_at. intros ([family p] & (e & He & [= -> ->])%fmap_Some & ->)%fmap_Some.
    unfold tier_positive, gemini_pricing. cbn [bp_long_context fst snd].
    destruct (_ =? u64_max); [done|]. cbn [rw_threshold]. apply reserve_leg; [done| |].
    - pose proof (gemini_compiled_threshold e now ltac:(by eapply find_id_elem)). cbn in *. lia.
    - intros [] x; try done. intros [= <-]. set_solver. }
  case_bool_decide; [|done]. destruct (Kimi.kimi_resolve_subscription_model _); cbn; [|done].
  destruct (Kimi.kimi_matched_tariff_at _ _) as [[]|]; cbn; [|done]. by intros [= <-].
Qed.

(** ** Delivery *)
(** A reply carries an answer: its status, and a body within the reader's limit
    that the JSON reader turns into the value written. *)
Definition delivers (limit : Z) (parse : list byte -> option Value) (a : Answer) (reply : option Reply) : Prop :=
  exists r bytes, reply = Some r /\ rp_status r = an_status a
    /\ response_bytes limit (rp_length r) (rp_chunks r) = Ok bytes /\ parse bytes = Some (an_body a).
Definition typed {A} (parse : list byte -> option Value) (rd : Value -> option A) (bytes : list byte) : option A := parse bytes >>? rd.
(** What the router's policy candidates are on the wire. *)
Definition wire_candidate (c : PolicyCandidate) : Policy.Candidate :=
  Policy.mkCandidate (pc_id c) (provider_str (pc_provider c)) (pc_canonical_model_id c).
Definition wire_request (cs : list PolicyCandidate) : Policy.PreflightRequest := Policy.mkRequest SCHEMA_VERSION (map wire_candidate cs).
(** Whether a runtime knows the caller; [None] while its authority fails. *)
Definition standing {E} (rt : Runtime E) (now : string -> Z) (h : Headers) (loopback : bool) : option bool :=
  if authed (rt_cfg rt) h loopback then Some true
  else match rt_billing rt with
       | None => Some false
       | Some key_auth => match resolve_client_key key_auth now h with Ok (Some _) => Some true | Ok None => Some false | Err _ => None end
       end.
(** The verdict of the first plane whose authority answers. *)
Fixpoint first_standing (known : Plane -> option bool) (planes : list Plane) : option bool :=
  match planes with [] => None | p :: planes => match known p with Some b => Some b | None => first_standing known planes end end.

Lemma wire_ids cs : map Policy.id (Policy.candidates (wire_request cs)) = map pc_id cs.
Proof. cbn. rewrite List.map_map. done. Qed.
Lemma validate_policy_kimi cs : (exists c, c ∈ cs /\ pc_provider c = NsKimi) -> validate_policy (wire_request cs) = false.
Proof.
  intros (c & Hc & Hk). unfold validate_policy. destruct (_ || _); [done|]. apply not_true_iff_false. intros [H _]%all_distinct_spec.
  rewrite Forall_forall in H. specialize (H (wire_candidate c) ltac:(by apply list_elem_of_fmap; exists c)). cbn in H.
  rewrite Hk, !andb_true_iff, bool_decide_eq_true in H. cbn in H. destruct H as [_ H]. set_solver.
Qed.
Lemma validate_policy_nodup cs : validate_policy (wire_request cs) = true -> NoDup (map pc_id cs) /\ cs <> [].
Proof.
  unfold validate_policy. destruct (_ || _) eqn:C; [done|]. intros (_ & H & _)%all_distinct_spec. rewrite wire_ids in H. split; [done|].
  intros ->. cbn in C. done.
Qed.
Lemma policy_verdict_delivered {E} parse (rt : Runtime E) now h lb cs reply :
  delivers POLICY_MAX_BODY_BYTES parse (serve_policy rt now h lb (Some (wire_request cs))) reply ->
  authority_verdict (typed parse read_policy) cs reply
  = if validate_policy (wire_request cs)
    then (fun b => if b : bool then Ok (map pc_id cs) else Err PolicyUnauthorized) <$> standing rt now h lb
    else None.
Proof.
  intros (r & bytes & -> & Hs & Hb & Hp). unfold authority_verdict, typed. rewrite Hs, Hb, Hp. clear Hs Hb Hp. cbn [mbind option_bind].
  unfold serve_policy, standing. destruct (validate_policy _) eqn:V; cbn [negb]; [|done].
  assert (Hall : read_policy (an_body (policy_response "unrestricted" (map Policy.id (Policy.candidates (wire_request cs))))) >>? validate_response cs = Some (map pc_id cs)).
  { rewrite read_policy_response, wire_ids. cbn. apply validate_policy_nodup in V as [Hn _]. unfold validate_response. cbn.
    rewrite bool_decide_false by (rewrite length_map; lia). rewrite (allowed_in_order_complete cs Hn _ None) by (by rewrite drop_0).
    cbn [negb orb]. rewrite !bool_decide_true by done. done. }
  assert (Hne : exists x l, map pc_id cs = x :: l) by (apply validate_policy_nodup in V as [_ Hne]; destruct cs; [done|cbn; eauto]).
  destruct Hne as (x & l & Hne).
  destruct (authed _ _ _); [cbn -[read_policy validate_response policy_response wire_request]; rewrite Hall, Hne; done|].
  destruct (rt_billing rt) as [ka|]; [|done]. destruct (resolve_client_key ka now h) as [[[k a]|]|e]; [|done|done].
  cbn -[read_policy validate_response policy_response wire_request]; rewrite Hall, Hne; done.
Qed.
Lemma ask_known_planes parse (ask : Plane -> list byte -> option Reply) cs body (known : Plane -> option bool) planes (ok : list string) :
  (forall p, authority_verdict parse cs (ask p body) = (fun b : bool => if b then Ok ok else Err PolicyUnauthorized) <$> known p) ->
  ask_in_order parse ask cs body planes
  = match first_standing known planes with Some true => Ok ok | Some false => Err PolicyUnauthorized | None => Err PolicyUnavailable end.
Proof.
  intros H. induction planes as [|p planes IH]; cbn [ask_in_order first_standing]; [done|]. rewrite H.
  destruct (known p) as [[]|]; cbn [fmap option_fmap option_map]; done.
Qed.
Lemma ask_silent_planes parse ask cs body planes :
  (forall p, authority_verdict parse cs (ask p body) = None) -> ask_in_order parse ask cs body planes = Err PolicyUnavailable.
Proof. intros H. induction planes as [|p planes IH]; cbn [ask_in_order]; [done|]. by rewrite H. Qed.

(** The in-memory operator check is the first step of admission. *)
Lemma authed_authorize {E} cfg (billing : option (string -> result E (option KeyAuth))) now h loopback :
  if authed cfg h loopback then exists s, authorize cfg billing now h loopback = Admin s
  else authorize cfg billing now h loopback
       = match billing with
         | None => Ingress.Unauthorized
         | Some key_auth =>
             match resolve_client_key key_auth now h with
             | Ok (Some (k, a)) => Metered (ka_account_id a) k (ka_key_id a) (ka_mult_bp a) (ka_provider_mult_bp a) (available_nano_of a)
             | Ok None => Ingress.Unauthorized
             | Err _ => Unavailable
             end
         end.
Proof.
  unfold authed, authorize, key_in, loopback_admin. case_bool_decide as Hk; cbn [andb].
  - assert (matching_key h (api_keys cfg) = None) as ->.
    { rewrite matching_key_spec, Hk. destruct (List.find _ _) as [k|] eqn:F; [|done]. apply List.find_some in F as [_ F%bool_decide_eq_true].
      by apply elem_of_nil in F. }
    destruct (trust_loopback cfg && loopback); [by eexists|done].
  - destruct (matching_key h (api_keys cfg)) as [s|]; [by eexists|done].
Qed.
Lemma quotes_ids book now cs bp : sublist (map pe_id (quotes book now cs bp)) (map pg_id cs).
Proof.
  induction cs as [|c cs IH]; [constructor|]. cbn. destruct (base_pricing book now c); cbn; by constructor.
Qed.
Lemma quotable_spec book now cs :
  quotable book now cs = true <-> forall c base, c ∈ cs -> base_pricing book now c = Some base -> tier_positive base.
Proof.
  unfold quotable. rewrite forallb_forall. split.
  - intros H c base Hc%list_elem_of_In Hb. specialize (H c Hc). rewrite Hb in H. by apply bool_decide_eq_true in H.
  - intros H c Hc%list_elem_of_In. destruct (base_pricing book now c) as [base|] eqn:E; [|done].
    cbn. apply bool_decide_eq_true. by eapply H.
Qed.
Lemma quotes_canonical book now cs bp : quotable book now cs = true <-> Forall canonical_entry (quotes book now cs bp).
Proof.
  rewrite quotable_spec, Forall_forall. split.
  - intros H e He. apply list_elem_of_omap in He as (c & Hc & (base & Hb & ->)%fmap_Some). by eapply priced_entry_canonical, H.
  - intros H c base Hc Hb. apply (priced_entry_zero_tier (pg_id c) base bp), H. apply list_elem_of_omap.
    exists c. split; [done|]. by rewrite Hb.
Qed.
(** A candidate is quoted its own price, or nothing. *)
Lemma quotes_find book now cs bp c : NoDup (map pg_id cs) -> c ∈ cs ->
  overlay_entry (quotes book now cs bp) (pg_id c) = (fun base => priced_entry (pg_id c) base bp) <$> base_pricing book now c.
Proof.
  unfold overlay_entry. induction cs as [|d cs IH]; [by intros _ ?%elem_of_nil|]. cbn [map]. intros [Hd Hn]%NoDup_cons Hc.
  assert (Hno : pg_id c = pg_id d -> List.find (fun e => bool_decide (pe_id e = pg_id c)) (quotes book now cs bp) = None).
  { intros E. destruct (List.find _ _) as [e|] eqn:F; [|done]. apply List.find_some in F as [He Hid%bool_decide_eq_true]. destruct Hd.
    eapply elem_of_sublist; [|apply (quotes_ids book now cs bp)]. apply list_elem_of_fmap. exists e.
    split; [congruence|by apply list_elem_of_In]. }
  apply elem_of_cons in Hc as [->|Hc].
  - cbn. destruct (base_pricing book now d); cbn; [by rewrite bool_decide_true|]. by apply Hno.
  - cbn. destruct (base_pricing book now d) as [base|]; cbn; [|by apply IH]. rewrite bool_decide_false; [by apply IH|].
    intros E. apply Hd. rewrite E. apply list_elem_of_fmap. eauto.
Qed.
Lemma quotes_accepted book now cs bp m : NoDup (map pg_id cs) ->
  validate_pricing cs (mkPricingResponse 1 UNIT m (quotes book now cs bp)) = accepted_quotes book now cs bp.
Proof.
  intros Hn. unfold validate_pricing, accepted_quotes. cbn [ps_schema_version ps_unit ps_entries]. rewrite !bool_decide_true by done.
  rewrite bool_decide_false by (pose proof (sublist_length _ _ (quotes_ids book now cs bp)) as H; rewrite !length_map in H; lia).
  cbn [negb orb]. destruct (quotable book now cs) eqn:Q.
  - rewrite (entries_in_order_complete cs Hn _ None); [done|by apply quotes_canonical|rewrite drop_0; apply quotes_ids].
  - destruct (entries_in_order _ _ _) eqn:E; [|done]. apply entries_in_order_spec in E as [_ E].
    apply quotes_canonical in E. congruence.
Qed.

(** C16: A key-scoped price list survives the hop: when the runtime's answer is
    delivered, the router's verdict is exactly the runtime's decision: the quotes
    at the caller's default multiplier (the list price for an operator) when it is
    known and active, a rejection when it is not, and no verdict when the
    authority failed or the request is malformed.  A list of quotes is dropped
    whole, so that there is no verdict either, exactly when the tariff in force
    of some candidate starts its long-context tier at zero, which no compiled
    tariff does and an override can; in a list every candidate has its own price
    or none. *)
Theorem pricing_contract {E} (parse : list byte -> option Value) (rt : Runtime E) (book : TariffBookSnapshot) (now : Z) (clock : string -> Z)
    (h : Headers) (loopback : bool) (cs : list PricingCandidate) (reply : option Reply) :
  delivers PRICING_MAX_BODY_BYTES parse (serve_pricing rt book now clock h loopback (Some (1, cs))) reply ->
  pricing_verdict (typed parse read_pricing) cs reply
  = (if negb (validate_pricing_request 1 cs) then None
     else if authed (rt_cfg rt) h loopback then Ok <$> accepted_quotes book now cs 10000
     else match rt_billing rt with
          | None => Some (Err PricingUnauthorized)
          | Some key_auth =>
              match resolve_client_key key_auth clock h with
              | Ok (Some (_, auth)) =>
                  if active_at auth now then Ok <$> accepted_quotes book now cs (ka_mult_bp auth) else Some (Err PricingUnauthorized)
              | Ok None => Some (Err PricingUnauthorized)
              | Err _ => None
              end
          end)
  /\ (quotable book now cs = true <-> forall c base, c ∈ cs -> base_pricing book now c = Some base -> tier_positive base)
  /\ (book_tiers_positive book -> quotable book now cs = true)
  /\ (validate_pricing_request 1 cs = true -> forall bp c, c ∈ cs ->
      overlay_entry (quotes book now cs bp) (pg_id c) = (fun base => priced_entry (pg_id c) base bp) <$> base_pricing book now c).
Proof.
  intros (r & bytes & -> & Hs & Hy & Hp).
  assert (Hv : validate_pricing_request 1 cs = true -> NoDup (map pg_id cs)).
  { unfold validate_pricing_request. destruct (_ || _); [done|]. by intros (_ & H & _)%all_distinct_spec. }
  split; [|split; [apply quotable_spec|split; [intros Hb; apply quotable_spec; intros c base _; by apply base_tier_positive|
    intros V bp c Hc; by apply quotes_find; [apply Hv|]]]].
  unfold pricing_verdict, typed. rewrite Hs, Hy, Hp. clear Hs Hy Hp. cbn [mbind option_bind]. unfold serve_pricing.
  destruct (validate_pricing_request 1 cs) eqn:V; cbn [negb]; [|done]. specialize (Hv eq_refl).
  assert (Hq : forall mode m bp, read_pricing_mode (str mode) = Some m ->
    read_pricing (an_body (pricing_response mode (quotes book now cs bp))) >>? validate_pricing cs = accepted_quotes book now cs bp).
  { intros mode m bp Hm. rewrite (read_pricing_response mode m _ Hm). by apply quotes_accepted. }
  destruct (authed _ _ _); [cbn -[read_pricing validate_pricing pricing_response quotes]; by rewrite (Hq "admin" PmAdmin)%string by done|].
  destruct (rt_billing rt) as [ka|]; [|done]. destruct (resolve_client_key ka clock h) as [[[k a]|]|e]; [|done|done].
  destruct (active_at a now); [|done]. cbn -[read_pricing validate_pricing pricing_response quotes]; by rewrite (Hq "legacy" PmLegacy)%string by done.
Qed.

(** A customer with a default of half the list price and an OpenAI override of a
    quarter, one valid key, and the list of prices it asks for. *)
Definition demo_customer : KeyAuth :=
  mkKeyAuth "acct" "key-1" 5000 [("openai", 2500)]%string 1000000 0 0 None None true.
Definition demo_runtime : Runtime () :=
  mkRuntime (mkAuthConfig ["operator"%string] [] [] false)
    (Some (fun k => Ok (if bool_decide (k = "sk-customer"%string) then Some demo_customer else None))).
Definition demo_headers : Headers := [("x-api-key", "sk-customer")]%string.
Definition demo_candidates : list PricingCandidate :=
  [mkPricing "openai/gpt-5.4" "openai" "gpt-5.4"; mkPricing "openai/unknown" "openai" "unknown"; mkPricing "kimi/k3" "kimi" "k3"]%string.
Definition demo_answer : Answer :=
  serve_pricing demo_runtime snapshot_empty 1790000000 (fun _ => 1790000000) demo_headers false (Some (1, demo_candidates)).
(** The quoted default and the multiplier the same request is charged at. *)
Lemma pricing_contract_witness :
  pricing_verdict (typed (fun _ => Some (an_body demo_answer)) read_pricing) demo_candidates (Some (mkReply 200 None []))
  = Some (Ok (quotes snapshot_empty 1790000000 demo_candidates 5000))
  /\ map pe_id (quotes snapshot_empty 1790000000 demo_candidates 5000) = ["openai/gpt-5.4"; "kimi/k3"]%string
  /\ authz_mult_for (authorize (rt_cfg demo_runtime) (rt_billing demo_runtime) (fun _ => 1790000000) demo_headers false) "openai" = 2500.
Proof.
  split; [|split; vm_compute; reflexivity].
  refine (eq_trans (proj1 (pricing_contract (fun _ => Some (an_body demo_answer)) demo_runtime snapshot_empty 1790000000 (fun _ => 1790000000)
    demo_headers false demo_candidates (Some (mkReply 200 None [])) _)) _); [|vm_compute; reflexivity].
  exists (mkReply 200 None []), []. split; [reflexivity|]. split; [vm_compute; reflexivity|]. split; reflexivity.
Defined.

(** C17: The policy preflight end to end, when every plane's answer is delivered:
    a well-formed chain is granted whole when the first plane whose authority
    answers knows the caller, and rejected when that plane does not; the policy
    counts as unavailable only when no authority answers or the planes refuse the
    request as malformed; and they refuse every chain that names a KIMI model. *)
Theorem policy_contract {E} (encode : list PolicyCandidate -> option (list byte)) (parse : list byte -> option Value)
    (ask : Plane -> list byte -> option Reply) (rt : Plane -> Runtime E) (now : Plane -> string -> Z) (h : Headers) (loopback : Plane -> bool)
    (cs : list PolicyCandidate) (body : list byte) :
  encode cs = Some body -> len body <= POLICY_MAX_BODY_BYTES ->
  (forall p, delivers POLICY_MAX_BODY_BYTES parse (serve_policy (rt p) (now p) h (loopback p) (Some (wire_request cs))) (ask p body)) ->
  let outcome := policy_preflight encode (typed parse read_policy) ask cs in
  outcome = (if validate_policy (wire_request cs)
             then match first_standing (fun p => standing (rt p) (now p) h (loopback p)) (origin_order cs) with
                  | Some true => Ok (map pc_id cs)
                  | Some false => Err PolicyUnauthorized
                  | None => Err PolicyUnavailable
                  end
             else Err PolicyUnavailable)
  /\ ((exists c, c ∈ cs /\ pc_provider c = NsKimi) -> outcome = Err PolicyUnavailable).
Proof.
  intros He Hl Hd. cbv zeta.
  assert (H : policy_preflight encode (typed parse read_policy) ask cs
    = if validate_policy (wire_request cs)
      then match first_standing (fun p => standing (rt p) (now p) h (loopback p)) (origin_order cs) with
           | Some true => Ok (map pc_id cs) | Some false => Err PolicyUnauthorized | None => Err PolicyUnavailable end
      else Err PolicyUnavailable).
  { unfold policy_preflight. rewrite He. cbn [ok_or mbind result_bind]. rewrite (proj2 (Z.ltb_ge POLICY_MAX_BODY_BYTES (len body)) Hl).
    pose proof (fun p => policy_verdict_delivered _ _ _ _ _ _ _ (Hd p)) as Hv.
    destruct (validate_policy (wire_request cs)) eqn:V.
    - assert (Hn : bool_decide (cs = []) || (MAX_CANDIDATES <? Z.of_nat (length cs)) = false).
      { destruct (validate_policy_nodup cs V) as [_ Hne]. rewrite bool_decide_false by done. unfold validate_policy in V.
        destruct (_ || (_ <? _)) eqn:C; [done|]. apply orb_false_iff in C as [_ C]. cbn [Policy.candidates wire_request] in C. by rewrite length_map in C. }
      rewrite Hn. apply (ask_known_planes _ _ _ _ (fun p => standing (rt p) (now p) h (loopback p))). exact Hv.
    - destruct (_ || _); [done|]. by apply ask_silent_planes. }
  split; [exact H|]. intros Hk. rewrite H. by rewrite (validate_policy_kimi cs Hk).
Qed.
Definition demo_chain (p : ProviderNamespace) : list PolicyCandidate :=
  [mkCandidate "openai/gpt-5.4" NsOpenAi "gpt-5.4"; mkCandidate (provider_str p +:+ "/m") p "m"].
Definition demo_policy (p : ProviderNamespace) : Answer :=
  serve_policy demo_runtime (fun _ => 0) demo_headers false (Some (wire_request (demo_chain p))).
Lemma policy_contract_witness :
  let run p := policy_preflight (fun _ => Some []) (typed (fun _ => Some (an_body (demo_policy p))) read_policy)
                 (fun _ _ => Some (mkReply (an_status (demo_policy p)) None [])) (demo_chain p) in
  run NsGoogle = Ok ["openai/gpt-5.4"; "google/m"]%string /\ run NsKimi = Err PolicyUnavailable.
Proof.
  assert (D : forall p (q : Plane), delivers POLICY_MAX_BODY_BYTES (fun _ => Some (an_body (demo_policy p))) (demo_policy p)
    (Some (mkReply (an_status (demo_policy p)) None []))).
  { intros p q. exists (mkReply (an_status (demo_policy p)) None []), []. repeat split. }
  split.
  - refine (eq_trans (proj1 (policy_contract (fun _ => Some []) _ _ (fun _ => demo_runtime) (fun _ _ => 0) demo_headers (fun _ => false)
      (demo_chain NsGoogle) [] eq_refl _ (D NsGoogle))) _); [by vm_compute|vm_compute; reflexivity].
  - refine (proj2 (policy_contract (fun _ => Some []) _ _ (fun _ => demo_runtime) (fun _ _ => 0) demo_headers (fun _ => false)
      (demo_chain NsKimi) [] eq_refl _ (D NsKimi)) _); [by vm_compute|]. eexists. split; [right; left|reflexivity].
Defined.

(** C18: The credential preflight agrees with admission: when its answer is
    delivered, the router sees a success exactly for the callers the forwarding
    path would admit (operators and active customer keys), an authoritative
    rejection exactly for those it would refuse, and no verdict exactly while the
    billing authority fails; the start-up probe is satisfied exactly by a
    rejection. *)
Theorem auth_contract {E} (parse : list byte -> option Value) (rt : Runtime E) (now : string -> Z) (h : Headers) (loopback : bool) (reply : option Reply) :
  delivers AUTH_MAX_BODY_BYTES parse (serve_auth rt now h loopback) reply ->
  probe_auth (typed parse read_auth) reply
  = match authorize (rt_cfg rt) (rt_billing rt) now h loopback with
    | Admin _ | Metered _ _ _ _ _ _ => PSuccess
    | Ingress.Unauthorized => PUnauthorized
    | Unavailable => PInconclusive
    end
  /\ (probe_unauthenticated_contract (typed parse read_startup_error) reply = true
      <-> authorize (rt_cfg rt) (rt_billing rt) now h loopback = Ingress.Unauthorized).
Proof.
  intros (r & bytes & -> & Hs & Hb & Hp). unfold probe_auth, probe_unauthenticated_contract, typed. rewrite Hs, Hb, Hp. clear Hs Hb Hp.
  pose proof (authed_authorize (rt_cfg rt) (rt_billing rt) now h loopback) as Ha. cbn [mbind option_bind].
  unfold serve_auth. destruct (authed _ _ _); [destruct Ha as [s ->]; by split|]. rewrite Ha.
  destruct (rt_billing rt) as [ka|]; [|by split].
  destruct (resolve_client_key ka now h) as [[[k a]|]|e]; by split.
Qed.
Lemma auth_contract_witness :
  let a := serve_auth demo_runtime (fun _ => 0) demo_headers false in
  probe_auth (typed (fun _ => Some (an_body a)) read_auth) (Some (mkReply (an_status a) None [])) = PSuccess
  /\ authorize (rt_cfg demo_runtime) (rt_billing demo_runtime) (fun _ => 0) demo_headers false
     = Metered "acct" "sk-customer" "key-1" 5000 [("openai", 2500)]%string 1000000.
Proof.
  split; [|vm_compute; reflexivity].
  refine (eq_trans (proj1 (auth_contract _ demo_runtime (fun _ => 0) demo_headers false _ _)) _); [|vm_compute; reflexivity].
  eexists _, []. split; [reflexivity|]. split; [reflexivity|]. by split.
Defined.

Lemma kimi_alias_quoted book now id m : m ∈ Kimi.kimi_subscription_models ->
  exists base, base_pricing book now (mkPricing id NS_KIMI (Kimi.alias m)) = Some base
    /\ Kimi.official_model <$> Kimi.kimi_resolve_subscription_model (Kimi.alias m) = Some (bp_canonical_model_id base).
Proof. revert m. apply Forall_forall. repeat constructor; (eexists; split; reflexivity). Qed.

(** The KIMI model list and the price list agree: while the plane is on, the
    router reads one well-formed entry per subscription alias, in order, and each
    of them is quoted whatever overrides are published and whatever the time, so
    that none is dropped from the priced catalogue; while the plane is off the
    list is empty. *)
Theorem kimi_catalog_contract (book : TariffBookSnapshot) (now : Z) :
  parse_kimi (kimi_catalog false) = Ok []
  /\ exists entries, parse_kimi (kimi_catalog true) = Ok entries
     /\ map e_native_id entries = map Kimi.alias Kimi.kimi_subscription_models
     /\ Forall (fun e => entry_ok NS_KIMI e
          /\ exists base, base_pricing book now (mkPricing (e_id e) NS_KIMI (e_native_id e)) = Some base
             /\ Kimi.official_model <$> Kimi.kimi_resolve_subscription_model (e_native_id e) = Some (bp_canonical_model_id base)) entries.
Proof.
  split; [vm_compute; reflexivity|]. destruct (parse_kimi (kimi_catalog true)) as [entries|] eqn:H; [|by vm_compute in H].
  assert (Hn : map e_native_id entries = map Kimi.alias Kimi.kimi_subscription_models).
  { transitivity (map e_native_id (match parse_kimi (kimi_catalog true) with Ok l => l | Err _ => [] end)); [by rewrite H|by vm_compute]. }
  exists entries. split; [done|]. split; [exact Hn|].
  apply (parse_models_ok NS_KIMI) in H as [H _]; [|exact kimi_entry_ok]. rewrite Forall_forall in *. intros e He. split; [by apply H|].
  assert (He' : e_native_id e ∈ map e_native_id entries) by (apply list_elem_of_fmap; eauto).
  rewrite Hn in He'. apply list_elem_of_fmap in He' as (m & -> & Hm). by apply kimi_alias_quoted.
Qed.

(** An override whose long-context tier starts at zero is a valid payload, and
    one such row makes the router discard every price of a request that names
    the model. *)
Definition zero_tier : TariffOverridePayload := P_Codex (mkCodexT 1 1 1 1 10000 0 10000 10000).
Definition zero_row : TariffOverride :=
  mkOverride "openai/codex/gpt-5.4" 1 0 (to_canonical_value (PayloadSerde:=FieldCodec.serde) zero_tier) "" 0 "" "".
Example zero_tier_discards_prices :
  exists book, from_rows (H:=FieldCodec.serde) 0 [zero_row] = Ok book
  /\ let a := serve_pricing demo_runtime book 1790000000 (fun _ => 1790000000) demo_headers false (Some (1, demo_candidates)) in
     an_status a = 200
     /\ pricing_verdict (typed (fun _ => Some (an_body a)) read_pricing) demo_candidates (Some (mkReply 200 None [])) = None.
Proof. eexists. split; [vm_compute; reflexivity|]. split; vm_compute; reflexivity. Qed.
