(* ===== verification/Affinity.v ===== *)
(** * Cache-lineage affinity ([crates/forward/src/affinity.rs])

    Which home already holds the prompt prefix of a conversation: the keyed
    digests that identify a request, the process-local store behind its lock, and
    its composition with the shared store.  The hash functions, the size of a
    serialized value, the text of a number, the clock, the iteration order of a
    hash map and every answer of the shared store are arguments; monitoring
    counters are left out. *)
From stdpp Require Import sorting.
From S2P Require Import Prelude Text MeterUsage RouterWire RouterCatalog RouterModels Ingress.
#[local] Open Scope Z_scope.

(** ** Constants *)
Definition REDIS_PREFIX : string := "claude-api:aff:v1".
Definition REDIS_ROOT_PREFIX : string := "claude-api:aff:v2".
Definition REDIS_COOLING_PREFIX : string := "claude-api:cool:v1".
Definition MIN_COOLING_HINT_TTL_SECS : Z := 3.
Definition MAX_COOLING_HINT_TTL_SECS : Z := 8 * 24 * 3600.
Definition DEFAULT_LOCAL_CAP : Z := 100000.
Definition CACHE_ROOT_MIN_BYTES : Z := 4 * 1024.
Definition CACHE_ROOT_TTL_5M : Z := 5 * 60.
Definition CACHE_ROOT_TTL_30M : Z := 30 * 60.
Definition CACHE_ROOT_TTL_1H : Z := 60 * 60.

(** ** Data *)
Inductive AffinitySource : Type := SrcNative | SrcTranscript | SrcNew.
Inductive AliasKind : Type := Native | Transcript.
#[global] Instance AliasKind_eq_dec : EqDecision AliasKind.
Proof. solve_decision. Defined.
Record Alias := mkAlias { al_digest : string; al_kind : AliasKind }.
Record CacheRoot := mkRoot { cr_digest : string; cr_ttl_secs : Z }.
Record AffinityInput := mkInput {
  account_tag : string; aliases : list Alias; cache_root : option CacheRoot; cacheable_bytes : Z }.
Record AffinityResolution := mkResolution { rs_session_id : string; rs_home : string; rs_source : AffinitySource; rs_account_tag : string }.
Record LocalAlias := mkLocalAlias { la_session_id : string; la_expires_at : Z }.
Record LocalSession := mkLocalSession { ls_home : string; ls_expires_at : Z }.
Record LocalState := mkLocal {
  st_aliases : gmap string LocalAlias; st_sessions : gmap string LocalSession; st_roots : gmap string (gmap string Z) }.
Definition LocalState_default : LocalState := mkLocal ∅ ∅ ∅.
Definition source_for (k : AliasKind) : AffinitySource := match k with Native => SrcNative | Transcript => SrcTranscript end.

(** ** Canonical bytes of a JSON value *)
Definition byte_str (b : Z) : string := String (Ascii.ascii_of_N (Z.to_N b)) EmptyString.
Definition bytes_str (l : list Z) : string := foldr (fun b s => String (Ascii.ascii_of_N (Z.to_N b)) s) EmptyString l.
(** [u64::to_le_bytes]. *)
Definition le64 (n : Z) : string := bytes_str (map (fun i => Z.land (Z.shiftr n (8 * i)) 255) [0; 1; 2; 3; 4; 5; 6; 7]).
Fixpoint insert_field (f : string * string) (l : list (string * string)) : list (string * string) :=
  match l with
  | [] => [f]
  | g :: l => match String.compare f.1 g.1 with Gt => g :: insert_field f l | _ => f :: g :: l end
  end.
(** [sort_unstable] of the keys of a map. *)
Definition sort_fields (l : list (string * string)) : list (string * string) := foldr insert_field [] l.

Section Digests.
  Context (number_text : Number -> string).
  (** The keyed hash of everything fed, and the unkeyed one. *)
  Context (keyed plain : string -> list Z).
  (** The length of [serde_json::to_vec]. *)
  Context (json_len : Value -> Z).
Fixpoint feed_canonical_json (v : Value) : string :=
  match v with
  | VNull => "n"
  | VBool b => "b" +:+ byte_str (if b then 1 else 0)
  | VNumber n => "d" +:+ number_text n
  | VString s => "s" +:+ le64 (str_len s) +:+ s
  | VArray l => "[" +:+ le64 (Z.of_nat (length l)) +:+ String.concat "" (map feed_canonical_json l) +:+ "]"
  | VObject fields =>
      "{" +:+ le64 (Z.of_nat (length fields))
      +:+ String.concat "" (map (fun f => le64 (str_len f.1) +:+ f.1 +:+ f.2)
            (sort_fields (map (fun f => (f.1, feed_canonical_json f.2)) fields))) +:+ "}"
  end.
Definition hex_digest (bytes : list Z) : string := hex_bytes bytes.
Definition digest_parts (domain : string) (parts : list string) : string :=
  hex_digest (keyed (domain +:+ String.concat "" (map (fun p => le64 (str_len p) +:+ p) parts))).
Definition home_id (subscription_id : string) : string := digest_parts "home" [subscription_id].
Definition cool_tenant_tag : string := digest_parts "cool-tenant" [].

(** ** Reading a request *)
Definition valid_native_id (v : string) : bool := negb (bool_decide (v = EmptyString)) && (str_len v <=? 512).
Definition opt_min (a b : option Z) : option Z :=
  match a, b with Some x, Some y => Some (Z.min x y) | Some x, None => Some x | None, o => o end.
Fixpoint cache_control_ttl (v : Value) : option Z :=
  match v with
  | VArray l => foldr opt_min None (map cache_control_ttl l)
  | VObject fields =>
      let local := (fun control =>
        match get "ttl" control >>? as_str with
        | Some ttl => if eq_ignore_ascii_case ttl "1h" then CACHE_ROOT_TTL_1H else CACHE_ROOT_TTL_5M
        | None => CACHE_ROOT_TTL_5M
        end) <$> get "cache_control" v in
      opt_min local (foldr opt_min None (map (fun f => cache_control_ttl f.2) fields))
  | _ => None
  end.
Definition NATIVE_HEADERS : list string :=
  ["x-claude-code-session-id"; "x-conversation-id"; "x-session-id"; "session-id"; "x-thread-id"; "x-session-affinity"]%string.
Definition NATIVE_FIELDS : list string := ["session_id"; "conversation_id"; "thread_id"]%string.
Definition BASE_FIELDS : list string := ["model"; "system"; "tools"; "thinking"; "context_management"]%string.
Fixpoint header_aliases (h : Headers) (names : list string) : list Alias :=
  match names with
  | [] => []
  | n :: names =>
      match header h n >>? to_str with
      | None => header_aliases h names
      | Some v => let v := trim v in
          if negb (valid_native_id v) then header_aliases h names
          else [mkAlias (digest_parts "native" [v]) Native; mkAlias (digest_parts "native" [n; v]) Native]
      end
  end.
Fixpoint body_aliases (body : Value) (fields : list string) : list Alias :=
  match fields with
  | [] => []
  | f :: fields =>
      let metadata := get "metadata" body >>? as_object in
      let v := match get f body >>? as_str with Some v => Some v | None => metadata >>? get f >>? as_str end in
      match (fun v => trim v) <$> v with
      | Some v => if valid_native_id v then [mkAlias (digest_parts "native" [v]) Native] else body_aliases body fields
      | None => body_aliases body fields
      end
  end.
Definition native_aliases (h : Headers) (body : Value) : list Alias :=
  match header_aliases h NATIVE_HEADERS with [] => body_aliases body NATIVE_FIELDS | l => l end.
Definition base_digest (body : Value) : list Z :=
  keyed ("cache-base-v1" +:+ String.concat "" (map (fun f =>
    f +:+ byte_str 0 +:+ match get f body with Some v => feed_canonical_json v | None => "missing" end +:+ byte_str 255) BASE_FIELDS)).
(** The digests of every prefix of the history, shortest first. *)
Fixpoint message_chain (chain : list Z) (messages : list Value) : list (list Z) :=
  match messages with
  | [] => []
  | m :: messages =>
      let next := keyed ("message-chain-v1" +:+ bytes_str chain +:+ feed_canonical_json m) in next :: message_chain next messages
  end.
Definition transcript_aliases (base : list Z) (messages : list Value) : list Alias :=
  reverse (map (fun c => mkAlias (hex_digest c) Transcript) (message_chain base messages)).
Definition root_values (body : Value) : list Value := omap (fun f => get f body) ["system"; "tools"]%string.
Definition sum_saturating (l : list Z) : Z := foldl (fun acc n => sat_u64 (acc + n)) 0 l.
Definition infer (account_scope : string) (h : Headers) (body : Value) : option AffinityInput :=
  messages ← get "messages" body >>? as_array;
  if bool_decide (messages = []) then None
  else
    let base := base_digest body in
    let root_cacheable_bytes := foldr Z.add 0 (map json_len (root_values body)) in
    let explicit_root_ttl := foldr opt_min None (map cache_control_ttl (root_values body)) in
    Some (mkInput (digest_parts "account" [account_scope])
      (native_aliases h body ++ transcript_aliases base messages)
      (if (CACHE_ROOT_MIN_BYTES <=? root_cacheable_bytes) || bool_decide (explicit_root_ttl <> None)
       then Some (mkRoot (hex_digest base) (default CACHE_ROOT_TTL_5M explicit_root_ttl)) else None)
      (sat_u64 (sum_saturating (map json_len messages) + root_cacheable_bytes))).
Definition infer_codex (account_scope : string) (h : Headers) (model : string) (instructions : option string)
    (tools items : list Value) (prompt_cache_key : option string) : option AffinityInput :=
  if bool_decide (items = []) then None
  else
    let str_or_null o := match o with Some s => VString s | None => VNull end in
    input ← infer account_scope h (VObject [("model", VString model); ("system", str_or_null instructions); ("tools", VArray tools);
              ("messages", VArray items); ("session_id", str_or_null prompt_cache_key)]%string);
    Some (mkInput (account_tag input) (aliases input) ((fun r => mkRoot (cr_digest r) CACHE_ROOT_TTL_30M) <$> cache_root input) (cacheable_bytes input)).
Definition infer_gemini (account_scope : string) (h : Headers) (model : string) (body : Value) : option AffinityInput :=
  contents ← get "contents" body >>? as_array;
  if bool_decide (contents = []) then None
  else
    let cfg f := or_null (get "generationConfig" body >>? get f) in
    let at_ f := or_null (get f body) in
    infer account_scope h (VObject [("model", VString model); ("system", at_ "systemInstruction"); ("tools", at_ "tools");
      ("thinking", cfg "thinkingConfig");
      ("context_management", VObject [("toolConfig", at_ "toolConfig"); ("safetySettings", at_ "safetySettings");
         ("responseMimeType", cfg "responseMimeType"); ("responseSchema", cfg "responseSchema")]);
      ("messages", VArray contents)]%string).
(** ** What is derived from an identity *)
Definition provider_lineage (input : AffinityInput) (lineage : string) : string :=
  hex_digest (plain ("provider-lineage-v1" +:+ account_tag input +:+ byte_str 0 +:+ lineage)).
Definition cooling_hint_key (email : string) : string :=
  REDIS_COOLING_PREFIX +:+ ":{" +:+ cool_tenant_tag +:+ "}:h:" +:+ home_id email.
End Digests.

Definition primary (input : AffinityInput) : Alias := default (mkAlias EmptyString Transcript) (head (aliases input)).
Definition primary_lineage (input : AffinityInput) : string := al_digest (primary input).
Definition is_native (a : Alias) : bool := bool_decide (al_kind a = Native).
Fixpoint take_while {A} (p : A -> bool) (l : list A) : list A :=
  match l with [] => [] | x :: l => if p x then x :: take_while p l else [] end.
Definition resolution_aliases (input : AffinityInput) : list Alias :=
  if is_native (primary input) then take_while is_native (aliases input) else aliases input.
Definition prompt_cache_key (input : AffinityInput) (resolved_session_id : option string) : string :=
  let lineage := if is_native (primary input) then al_digest (primary input)
                 else match cache_root input with
                      | Some root => cr_digest root
                      | None => default (al_digest (primary input)) resolved_session_id
                      end in
  account_tag input +:+ ":" +:+ lineage.

(** ** The process-local store: each operation holds the lock once *)
Definition local_key (tag value : string) : string := tag +:+ ":" +:+ value.
Section Local.
  Context (local_cap local_ttl_secs : Z).
  (** The iteration order of a hash map. *)
  Context (keys : forall A : Type, gmap string A -> list string).
Definition set_aliases (st : LocalState) (m : gmap string LocalAlias) : LocalState := mkLocal m (st_sessions st) (st_roots st).
Definition set_sessions (st : LocalState) (m : gmap string LocalSession) : LocalState := mkLocal (st_aliases st) m (st_roots st).
Definition set_roots (st : LocalState) (m : gmap string (gmap string Z)) : LocalState := mkLocal (st_aliases st) (st_sessions st) m.
Fixpoint local_resolve_aliases (now : Z) (st : LocalState) (tag : string) (l : list Alias) : LocalState * option AffinityResolution :=
  match l with
  | [] => (st, None)
  | alias :: l =>
      let key := local_key tag (al_digest alias) in
      match st_aliases st !! key with
      | None => local_resolve_aliases now st tag l
      | Some binding =>
          let st' := set_aliases st (delete key (st_aliases st)) in
          if la_expires_at binding <=? now then local_resolve_aliases now st' tag l
          else
            let session_key := local_key tag (la_session_id binding) in
            match st_sessions st !! session_key with
            | None => local_resolve_aliases now st' tag l
            | Some session =>
                if ls_expires_at session <=? now
                then local_resolve_aliases now (set_sessions st' (delete session_key (st_sessions st))) tag l
                else (st, Some (mkResolution (la_session_id binding) (ls_home session) (source_for (al_kind alias)) tag))
            end
      end
  end.
Definition local_resolve (now : Z) (st : LocalState) (input : AffinityInput) : LocalState * option AffinityResolution :=
  local_resolve_aliases now st (account_tag input) (resolution_aliases input).

(** [keys().take(remove)], then their removal. *)
Definition evict {A} (m : gmap string A) : gmap string A :=
  foldl (fun m k => delete k m) m (take (size m / 4 + 1)%nat (keys A m)).
Definition over_cap {A} (m : gmap string A) : bool := local_cap <=? Z.of_nat (size m).
Definition evict_over {A} (m : gmap string A) : gmap string A := if over_cap m then evict m else m.
Definition purge (now : Z) (st : LocalState) : LocalState :=
  if over_cap (st_aliases st) || over_cap (st_sessions st) then
    mkLocal (evict_over (filter (fun kv => now < la_expires_at kv.2) (st_aliases st)))
            (evict_over (filter (fun kv => now < ls_expires_at kv.2) (st_sessions st))) (st_roots st)
  else st.
Definition store_session (overwrite : bool) (key : string) (s : LocalSession) (m : gmap string LocalSession) : gmap string LocalSession :=
  if overwrite then <[key := s]> m
  else match m !! key with
       | Some existing => if bool_decide (ls_home existing = ls_home s) then <[key := mkLocalSession (ls_home existing) (ls_expires_at s)]> m else m
       | None => <[key := s]> m
       end.
Definition store_alias (overwrite : bool) (tag : string) (b : LocalAlias) (m : gmap string LocalAlias) (alias : Alias) : gmap string LocalAlias :=
  let key := local_key tag (al_digest alias) in
  if is_native alias || overwrite then <[key := b]> m
  else match m !! key with Some _ => m | None => <[key := b]> m end.
(** [purge_now]: the second reading of the clock. *)
Definition local_store_resolution (now purge_now : Z) (st : LocalState) (input : AffinityInput) (r : AffinityResolution)
    (overwrite_transcript : bool) : LocalState :=
  let expires_at := sat_i64 (now + local_ttl_secs) in
  let st := purge purge_now st in
  let sessions := store_session overwrite_transcript (local_key (account_tag input) (rs_session_id r)) (mkLocalSession (rs_home r) expires_at) (st_sessions st) in
  let aliases := foldl (store_alias overwrite_transcript (account_tag input) (mkLocalAlias (rs_session_id r) expires_at)) (st_aliases st) (aliases input) in
  mkLocal aliases sessions (st_roots st).
Definition local_rebind (now : Z) (st : LocalState) (r : AffinityResolution) (old_home : string) : LocalState :=
  let key := local_key (rs_account_tag r) (rs_session_id r) in
  match st_sessions st !! key with
  | Some session =>
      if bool_decide (ls_home session = old_home)
      then set_sessions st (<[key := mkLocalSession (rs_home r) (sat_i64 (now + local_ttl_secs))]> (st_sessions st)) else st
  | None => st
  end.
Definition live_homes (now : Z) (homes : gmap string Z) : gmap string Z := filter (fun kv => now < kv.2) homes.
Definition local_warm_homes (now : Z) (st : LocalState) (input : AffinityInput) : LocalState * list string :=
  match cache_root input with
  | None => (st, [])
  | Some root =>
      let key := local_key (account_tag input) (cr_digest root) in
      match st_roots st !! key with
      | None => (st, [])
      | Some homes =>
          let homes := live_homes now homes in
          (set_roots st (if bool_decide (homes = ∅) then delete key (st_roots st) else <[key := homes]> (st_roots st)), keys Z homes)
      end
  end.
Definition local_mark_cache_warm (now : Z) (st : LocalState) (input : AffinityInput) (home : string) : LocalState :=
  match cache_root input with
  | None => st
  | Some root =>
      let expires_at := sat_i64 (now + cr_ttl_secs root) in
      let key := local_key (account_tag input) (cr_digest root) in
      let roots := if over_cap (st_roots st) && bool_decide (st_roots st !! key = None)
                   then evict_over (filter (fun kv => kv.2 <> ∅) (live_homes now <$> st_roots st)) else st_roots st in
      set_roots st (<[key := <[home := expires_at]> (default ∅ (roots !! key))]> roots)
  end.
End Local.

(** ** The shared store: a lazy connection with a back-off, and its answers *)
Record Link := mkLink { configured : bool; connected : bool; redis_retry_after : Z }.
(** What the environment does during one shared operation: the clock at the two
    checks and at a failure, and whether a new connection succeeds in time. *)
Record LinkEnv := mkLinkEnv { le_now : Z; le_locked : Z; le_failed : Z; le_connects : bool }.
Definition back_off (now : Z) (l : Link) (connected : bool) : Link := mkLink (configured l) connected (sat_i64 (now + 1)).
Definition ready (now : Z) (l : Link) : option (result () bool) :=
  if now <? redis_retry_after l then Some (Err ()) else if connected l then Some (Ok true) else None.
Definition connection (e : LinkEnv) (l : Link) : Link * result () bool :=
  if negb (configured l) then (l, Ok false)
  else match ready (le_now e) l with
       | Some r => (l, r)
       | None =>
           match ready (le_locked e) l with
           | Some r => (l, r)
           | None => if le_connects e then (mkLink true true 0, Ok true) else (back_off (le_failed e) l false, Err ())
           end
       end.
Definition reset_connection (now : Z) (l : Link) : Link := back_off now l false.
(** Every shared operation: nothing without a configured store, the query under
    its time limit (an [Err] is an error or the limit), a reset after a failure. *)
Definition shared {A} (e : LinkEnv) (l : Link) (absent : A) (query : result () A) : Link * result () A :=
  let '(l, c) := connection e l in
  match c with
  | Err _ => (l, Err ())
  | Ok false => (l, Ok absent)
  | Ok true => match query with Ok a => (l, Ok a) | Err _ => (reset_connection (le_failed e) l, Err ()) end
  end.

Definition redis_alias_key (tag alias : string) : string := REDIS_PREFIX +:+ ":{" +:+ tag +:+ "}:a:" +:+ alias.
Definition redis_session_key (tag session : string) : string := REDIS_PREFIX +:+ ":{" +:+ tag +:+ "}:s:" +:+ session.
Definition redis_root_key (tag root : string) : string := REDIS_ROOT_PREFIX +:+ ":{" +:+ tag +:+ "}:r:" +:+ root.
Fixpoint first_home (get_home : string -> result () (option string)) (tag : string) (l : list (Alias * option string)) : result () (option AffinityResolution) :=
  match l with
  | [] => Ok None
  | (_, None) :: l => first_home get_home tag l
  | (alias, Some session_id) :: l =>
      home ← get_home (redis_session_key tag session_id);
      match home with
      | Some home => if bool_decide (home = EmptyString) then first_home get_home tag l
                     else Ok (Some (mkResolution session_id home (source_for (al_kind alias)) tag))
      | None => first_home get_home tag l
      end
  end.
Definition redis_resolve (e : LinkEnv) (l : Link) (mget : list string -> result () (list (option string)))
    (get_home : string -> result () (option string)) (input : AffinityInput) : Link * result () (option AffinityResolution) :=
  let names := resolution_aliases input in
  shared e l None
    (values ← mget (map (fun a => redis_alias_key (account_tag input) (al_digest a)) names);
     first_home get_home (account_tag input) (zip names values)).
(** The commands of [remember]: [true] where the write must not replace. *)
Definition remember_writes (input : AffinityInput) (r : AffinityResolution) : list (string * string * bool) :=
  (redis_session_key (account_tag input) (rs_session_id r), rs_home r, true)
  :: map (fun a => (redis_alias_key (account_tag input) (al_digest a), rs_session_id r, negb (is_native a))) (aliases input).
Definition redis_remember (e : LinkEnv) (l : Link) (write : list (string * string * bool) -> result () ()) (input : AffinityInput) (r : AffinityResolution)
    : Link * result () () :=
  shared e l () (write (remember_writes input r)).
(** [publish alias session proposal] answers the session that owns the alias;
    [cleanup alias session] drops an alias whose session is gone. *)
Definition redis_claim (e e' : LinkEnv) (l : Link) (publish : string -> string -> string -> result () string)
    (get_home : string -> result () (option string)) (cleanup : string -> string -> result () ())
    (write : list (string * string * bool) -> result () ()) (input : AffinityInput) (session_id proposed_home : string)
    : Link * result () (option AffinityResolution) :=
  let tag := account_tag input in
  let alias_key := redis_alias_key tag (al_digest (primary input)) in
  let '(l, r) := shared e l None
    (winner ← publish alias_key (redis_session_key tag session_id) proposed_home;
     home ← get_home (redis_session_key tag winner);
     match home with
     | None => cleanup alias_key winner;; Ok None
     | Some home => Ok (Some (mkResolution winner home (if is_native (primary input) then SrcNative else SrcNew) tag))
     end) in
  match r with
  | Ok (Some winner) => ((redis_remember e' l write input winner).1, Ok (Some winner))
  | r => (l, r)
  end.
Definition redis_rebind (e : LinkEnv) (l : Link) (swap : string -> string -> string -> result () string) (r : AffinityResolution) (old_home : string)
    : Link * result () (option string) :=
  shared e l None (home ← swap (redis_session_key (rs_account_tag r) (rs_session_id r)) old_home (rs_home r); Ok (Some home)).
Definition redis_warm_homes (e : LinkEnv) (l : Link) (range : string -> result () (list string)) (input : AffinityInput) : Link * result () (list string) :=
  match cache_root input with
  | None => (l, Ok [])
  | Some root => shared e l [] (range (redis_root_key (account_tag input) (cr_digest root)))
  end.
(** A hint lives no longer than the cooling it describes. *)
Definition cooling_hint_ttl (now until : Z) : option Z :=
  let ttl := Z.max 0 (Z.min (until - now) MAX_COOLING_HINT_TTL_SECS) in
  if ttl <? MIN_COOLING_HINT_TTL_SECS then None else Some ttl.
(** The max-merge script. *)
Definition cooling_merge (existing : option Z) (until : Z) : option Z :=
  if until <=? default 0 existing then None else Some until.

(** ** Operations of a request; [others] is what other requests do to the
    local store while this one waits *)
Section Operations.
  Context (local_cap local_ttl_secs : Z) (keys : forall A : Type, gmap string A -> list string).
Abbreviation store := (local_store_resolution local_cap local_ttl_secs keys).
Definition resolve (now now' purge_now : Z) (others : LocalState -> LocalState) (st : LocalState)
    (answer : result () (option AffinityResolution)) (input : AffinityInput) : LocalState * option AffinityResolution :=
  match local_resolve now st input with
  | (st, Some found) => (st, Some found)
  | (st, None) =>
      let st := others st in
      match answer with
      | Ok (Some found) => (store now' purge_now st input found true, Some found)
      | _ => (st, None)
      end
  end.
Definition claim (now now' now'' : Z) (others others' : LocalState -> LocalState) (st : LocalState)
    (answer : result () (option AffinityResolution)) (input : AffinityInput) (proposed_home : string) : LocalState * AffinityResolution :=
  match local_resolve now st input with
  | (st, Some found) => (st, found)
  | (st, None) =>
      let proposal := mkResolution (al_digest (primary input)) proposed_home SrcNew (account_tag input) in
      let st := others' (store now' now' (others st) input proposal false) in
      match answer with
      | Ok (Some winner) => (store now'' now'' st input winner true, winner)
      | _ => (st, proposal)
      end
  end.
Definition rebind (now now' : Z) (others : LocalState -> LocalState) (st : LocalState) (answer : result () (option string))
    (r : AffinityResolution) (new_home : string) : LocalState * AffinityResolution :=
  if bool_decide (rs_home r = new_home) then (st, r)
  else
    let moved := mkResolution (rs_session_id r) new_home (rs_source r) (rs_account_tag r) in
    let st := others (local_rebind local_ttl_secs now st moved (rs_home r)) in
    match answer with
    | Ok (Some shared_home) =>
        if bool_decide (shared_home = new_home) then (st, moved)
        else let shared := mkResolution (rs_session_id r) shared_home (rs_source r) (rs_account_tag r) in
             (local_rebind local_ttl_secs now' st shared new_home, shared)
    | _ => (st, moved)
    end.
Definition warm_homes (now : Z) (st : LocalState) (answer : result () (list string)) (input : AffinityInput) : LocalState * list string :=
  match cache_root input with
  | None => (st, [])
  | Some _ =>
      let '(st, homes) := local_warm_homes keys now st input in
      (st, foldr insert_key [] (homes ++ match answer with Ok l => l | Err _ => [] end))
  end.
End Operations.

(** ** Tenants are separate: tags have no colon *)
Definition no_colon (tag : string) : Prop := all_bytes (fun c => negb (byte_of c =? 58)) tag = true.
Lemma local_key_inj t v : forall t' v', no_colon t -> no_colon t' -> local_key t v = local_key t' v' -> t = t' /\ v = v'.
Proof.
  unfold no_colon, local_key. induction t as [|c t IH]; intros [|c' t'] v' H H' E; cbn in *.
  - by injection E.
  - injection E as <- _. by rewrite andb_false_l in H'.
  - injection E as -> _. by rewrite andb_false_l in H.
  - apply andb_true_iff in H as [_ H], H' as [_ H']. injection E as -> E. by apply IH in E as [-> ->].
Qed.
Lemma hex_bytes_no_colon l : Forall is_byte l -> no_colon (hex_bytes l).
Proof.
  unfold no_colon. induction 1 as [|b l Hb Hl IH]; [done|].
  change (hex_bytes (b :: l)) with (String (hex_digit (Z.shiftr b 4)) (String (hex_digit (Z.land b 15)) (hex_bytes l))). cbn [all_bytes].
  assert (Hd : forall n, 0 <= n < 16 -> (byte_of (hex_digit n) =? 58) = false).
  { intros n Hn. assert (n ∈ [0;1;2;3;4;5;6;7;8;9;10;11;12;13;14;15]) as He by (rewrite !elem_of_cons; lia).
    clear Hn. revert n He. apply Forall_forall. repeat constructor. }
  unfold is_byte in Hb. rewrite !Hd; [exact IH| |].
  - change 15 with (Z.ones 4). rewrite Z.land_ones by lia. apply Z.mod_pos_bound. lia.
  - rewrite Z.shiftr_div_pow2 by lia. change (2 ^ 4) with 16. split; [apply Z.div_pos; lia|apply Z.div_lt_upper_bound; lia].
Qed.

(** ** Where a binding comes from *)
Inductive LocalOp : Type :=
| OpResolve (now : Z) (input : AffinityInput)
| OpStore (now purge_now : Z) (input : AffinityInput) (r : AffinityResolution) (overwrite_transcript : bool)
| OpRebind (now : Z) (r : AffinityResolution) (old_home : string)
| OpWarm (now : Z) (input : AffinityInput)
| OpMark (now : Z) (input : AffinityInput) (home : string).
Section Runs.
  Context (local_cap local_ttl_secs : Z) (keys : forall A : Type, gmap string A -> list string).
Definition local_step (st : LocalState) (op : LocalOp) : LocalState :=
  match op with
  | OpResolve now input => (local_resolve now st input).1
  | OpStore now purge_now input r ow => local_store_resolution local_cap local_ttl_secs keys now purge_now st input r ow
  | OpRebind now r old_home => local_rebind local_ttl_secs now st r old_home
  | OpWarm now input => (local_warm_homes keys now st input).1
  | OpMark now input home => local_mark_cache_warm local_cap keys now st input home
  end.
(** Requests interleave at the lock. *)
Definition local_run (ops : list LocalOp) : LocalState := foldl local_step LocalState_default ops.

Definition deadline (now : Z) : Z := sat_i64 (now + local_ttl_secs).
Definition bound_by (ops : list LocalOp) (key : string) (b : LocalAlias) : Prop :=
  exists now purge_now input r ow a, OpStore now purge_now input r ow ∈ ops /\ a ∈ aliases input
    /\ key = local_key (account_tag input) (al_digest a) /\ b = mkLocalAlias (rs_session_id r) (deadline now).
Definition placed_by (ops : list LocalOp) (key : string) (s : LocalSession) : Prop :=
  (exists now purge_now input r ow, OpStore now purge_now input r ow ∈ ops
     /\ key = local_key (account_tag input) (rs_session_id r) /\ s = mkLocalSession (rs_home r) (deadline now))
  \/ exists now r old, OpRebind now r old ∈ ops
     /\ key = local_key (rs_account_tag r) (rs_session_id r) /\ s = mkLocalSession (rs_home r) (deadline now).
Record accounted (ops : list LocalOp) (st : LocalState) : Prop := {
  ac_aliases : forall k b, st_aliases st !! k = Some b -> bound_by ops k b;
  ac_sessions : forall k s, st_sessions st !! k = Some s -> placed_by ops k s }.
Lemma accounted_weaken ops ops' st : ops ⊆ ops' -> accounted ops st -> accounted ops' st.
Proof. intros Hs [Ha Hb]. split; [intros k b H; destruct (Ha k b H) as (?&?&?&?&?&?&?&?)|intros k s H; destruct (Hb k s H) as [(?&?&?&?&?&?&?)|(?&?&?&?&?)]]; [|left|right]; repeat eexists; naive_solver. Qed.
Lemma accounted_sub ops st st' : st_aliases st' ⊆ st_aliases st -> st_sessions st' ⊆ st_sessions st -> accounted ops st -> accounted ops st'.
Proof. intros H1 H2 [Ha Hb]. split; intros k x H; [apply Ha|apply Hb]; by eapply lookup_weaken. Qed.
Lemma local_resolve_sub now tag l : forall st,
  st_aliases (local_resolve_aliases now st tag l).1 ⊆ st_aliases st /\ st_sessions (local_resolve_aliases now st tag l).1 ⊆ st_sessions st.
Proof.
  induction l as [|a l IH]; intros st; cbn [local_resolve_aliases]; [done|].
  destruct (st_aliases st !! _) as [b|]; [|apply IH]. cbv zeta.
  assert (Hd : forall st1, st_aliases st1 ⊆ st_aliases st -> st_sessions st1 ⊆ st_sessions st ->
    st_aliases (local_resolve_aliases now st1 tag l).1 ⊆ st_aliases st /\ st_sessions (local_resolve_aliases now st1 tag l).1 ⊆ st_sessions st).
  { intros st1 H1 H2. destruct (IH st1). split; by etrans. }
  destruct (_ <=? now); [apply Hd; [apply delete_subseteq|done]|].
  destruct (st_sessions st !! _) as [s|]; [|apply Hd; [apply delete_subseteq|done]].
  destruct (_ <=? now); [apply Hd; apply delete_subseteq|done].
Qed.
Lemma evict_sub {A} (m : gmap string A) : evict keys m ⊆ m.
Proof.
  unfold evict. generalize (take (size m / 4 + 1) (keys A m)). intros l. revert m.
  induction l as [|k l IH]; intros m; cbn; [done|]. etrans; [apply IH|apply delete_subseteq].
Qed.
Lemma evict_over_sub {A} (m : gmap string A) : evict_over local_cap keys m ⊆ m.
Proof. unfold evict_over. destruct (over_cap _ _); [apply evict_sub|done]. Qed.
Lemma purge_sub now st : st_aliases (purge local_cap keys now st) ⊆ st_aliases st /\ st_sessions (purge local_cap keys now st) ⊆ st_sessions st.
Proof.
  unfold purge. destruct (_ || _); [|done]. cbn. split; (etrans; [apply evict_over_sub|apply map_filter_subseteq]).
Qed.
Lemma store_aliases_lookup ow tag b l : forall m k x, foldl (store_alias ow tag b) m l !! k = Some x ->
  m !! k = Some x \/ x = b /\ exists a, a ∈ l /\ k = local_key tag (al_digest a).
Proof.
  induction l as [|a l IH]; intros m k x; cbn [foldl]; [by left|]. intros [H|(-> & a' & Ha & Hk)]%IH; [|right; split; [done|]; exists a'; set_solver].
  unfold store_alias in H. destruct (decide (k = local_key tag (al_digest a))) as [->|Hne].
  - destruct (is_native a || ow); [rewrite lookup_insert_eq in H|destruct (m !! _) eqn:E; [by left; rewrite E in H|rewrite lookup_insert_eq in H]];
      injection H as <-; right; (split; [done|]); exists a; set_solver.
  - left. destruct (is_native a || ow); [by rewrite lookup_insert_ne in H|destruct (m !! local_key _ _); [done|by rewrite lookup_insert_ne in H]].
Qed.
Lemma store_session_lookup ow key s m k x : store_session ow key s m !! k = Some x -> m !! k = Some x \/ k = key /\ x = s.
Proof.
  unfold store_session. destruct (decide (k = key)) as [->|Hne].
  - destruct ow; [rewrite lookup_insert_eq; intros [= <-]; by right|]. destruct (m !! key) as [e|] eqn:E.
    + case_bool_decide as Hh; [rewrite lookup_insert_eq; intros [= <-]; right; rewrite Hh; by destruct s|rewrite E; by left].
    + rewrite lookup_insert_eq. intros [= <-]. by right.
  - destruct ow; [rewrite lookup_insert_ne by done; by left|]. destruct (m !! key) as [e|];
      [case_bool_decide; [rewrite lookup_insert_ne by done|]; by left|rewrite lookup_insert_ne by done; by left].
Qed.
Lemma local_step_accounted ops st op : accounted ops st -> accounted (ops ++ [op]) (local_step st op).
Proof.
  intros Hi. apply (accounted_weaken _ (ops ++ [op])) in Hi; [|set_solver].
  destruct op as [now input|now pn input r ow|now r old|now input|now input home]; cbn [local_step].
  - eapply accounted_sub; [apply local_resolve_sub|apply local_resolve_sub|done].
  - destruct (purge_sub pn st) as [Hp1 Hp2]. pose proof (accounted_sub _ _ _ Hp1 Hp2 Hi) as [Ha Hs]. split; cbn.
    + intros k b [H|(-> & a & Hin & ->)]%store_aliases_lookup; [by apply Ha|]. exists now, pn, input, r, ow, a. set_solver.
    + intros k s [H|[-> ->]]%store_session_lookup; [by apply Hs|]. left. exists now, pn, input, r, ow. set_solver.
  - unfold local_rebind. destruct (st_sessions st !! _) as [s|] eqn:E; [|done]. case_bool_decide; [|done].
    destruct Hi as [Ha Hs]. split; cbn; [done|]. intros k x [[<- <-]|[_ H1]]%lookup_insert_Some; [|by apply Hs].
    right. exists now, r, old. set_solver.
  - unfold local_warm_homes. destruct (cache_root input); [|done]. destruct (st_roots st !! _); [|done]. cbn. by destruct Hi.
  - unfold local_mark_cache_warm. destruct (cache_root input); [|done]. by destruct Hi.
Qed.
Lemma local_run_accounted ops : accounted ops (local_run ops).
Proof.
  unfold local_run. induction ops as [|op ops IH] using rev_ind; [split; intros k x H; cbn in H; by rewrite lookup_empty in H|].
  rewrite foldl_app. by apply local_step_accounted.
Qed.
(** What a hit says about the store it was read from. *)
Lemma local_resolve_hit now tag l r : forall st, (local_resolve_aliases now st tag l).2 = Some r ->
  rs_account_tag r = tag /\ exists a b s, a ∈ l /\ rs_source r = source_for (al_kind a)
  /\ st_aliases st !! local_key tag (al_digest a) = Some b /\ now < la_expires_at b /\ la_session_id b = rs_session_id r
  /\ st_sessions st !! local_key tag (rs_session_id r) = Some s /\ now < ls_expires_at s /\ ls_home s = rs_home r.
Proof.
  induction l as [|a l IH]; intros st; cbn [local_resolve_aliases]; [done|].
  assert (Hrec : forall st1, st_aliases st1 ⊆ st_aliases st -> st_sessions st1 ⊆ st_sessions st ->
    (local_resolve_aliases now st1 tag l).2 = Some r ->
    rs_account_tag r = tag /\ exists a' b s, a' ∈ a :: l /\ rs_source r = source_for (al_kind a')
    /\ st_aliases st !! local_key tag (al_digest a') = Some b /\ now < la_expires_at b /\ la_session_id b = rs_session_id r
    /\ st_sessions st !! local_key tag (rs_session_id r) = Some s /\ now < ls_expires_at s /\ ls_home s = rs_home r).
  { intros st1 H1 H2 (Ht & a' & b & s & Ha & Hs & Hb & Hlt & Hid & Hse & Hls & Hh)%IH. split; [done|]. exists a', b, s.
    split; [by right|]. split; [done|]. split; [by eapply lookup_weaken|]. do 2 (split; [done|]). split; [by eapply lookup_weaken|]. done. }
  destruct (st_aliases st !! local_key tag (al_digest a)) as [b|] eqn:Eb; [|by apply Hrec]. cbv zeta.
  destruct (Z.leb_spec (la_expires_at b) now); [apply Hrec; [apply delete_subseteq|done]|].
  destruct (st_sessions st !! local_key tag (la_session_id b)) as [s|] eqn:Es; [|apply Hrec; [apply delete_subseteq|done]].
  destruct (Z.leb_spec (ls_expires_at s) now); [apply Hrec; apply delete_subseteq|]. cbn. intros [= <-]. cbn. split; [done|].
  exists a, b, s. split; [by left|]. done.
Qed.
End Runs.

(** ** What an inferred identity looks like *)
Section Inferred.
  Context (number_text : Number -> string) (keyed : string -> list Z) (json_len : Value -> Z).
  Hypothesis keyed_bytes : forall s, Forall is_byte (keyed s).
Abbreviation infer' := (infer number_text keyed json_len).
Lemma infer_Some scope h body input : infer' scope h body = Some input ->
  exists messages, get "messages" body >>? as_array = Some messages /\ messages <> []
  /\ account_tag input = digest_parts keyed "account" [scope]
  /\ aliases input = native_aliases keyed h body ++ transcript_aliases number_text keyed (base_digest number_text keyed body) messages.
Proof.
  unfold infer. destruct (get "messages" body >>? as_array) as [messages|]; cbn [mbind option_bind]; [|done].
  case_bool_decide; [done|]. intros [= <-]. by exists messages.
Qed.
Lemma inferred_tag scope h body input : infer' scope h body = Some input -> no_colon (account_tag input).
Proof. intros (_ & _ & _ & -> & _)%infer_Some. apply hex_bytes_no_colon, keyed_bytes. Qed.
End Inferred.

(** ** Stored bindings are found again *)
Section Found.
  Context (local_cap local_ttl_secs : Z) (keys : forall A : Type, gmap string A -> list string).
Lemma resolve_first now st tag b s l1 a l2 :
  (forall x, x ∈ l1 -> st_aliases st !! local_key tag (al_digest x) = None \/ st_aliases st !! local_key tag (al_digest x) = Some b) ->
  st_aliases st !! local_key tag (al_digest a) = Some b -> now < la_expires_at b ->
  st_sessions st !! local_key tag (la_session_id b) = Some s -> now < ls_expires_at s ->
  exists x, x ∈ l1 ++ [a] /\ local_resolve_aliases now st tag (l1 ++ a :: l2)
    = (st, Some (mkResolution (la_session_id b) (ls_home s) (source_for (al_kind x)) tag)).
Proof.
  intros Hl Ha Hb Hs Hls.
  assert (Hhit : forall x l, st_aliases st !! local_key tag (al_digest x) = Some b -> local_resolve_aliases now st tag (x :: l)
    = (st, Some (mkResolution (la_session_id b) (ls_home s) (source_for (al_kind x)) tag))).
  { intros x l Hx. cbn [local_resolve_aliases]. rewrite Hx. cbv zeta. rewrite (proj2 (Z.leb_gt _ _)) by lia. rewrite Hs.
    by rewrite (proj2 (Z.leb_gt _ _)) by lia. }
  induction l1 as [|x l1 IH]; cbn [app]; [exists a; split; [by left|by apply Hhit]|].
  destruct (Hl x ltac:(by left)) as [Hx|Hx]; [|exists x; split; [by left|by apply Hhit]].
  destruct IH as (y & Hy & E); [intros z Hz; apply Hl; by right|]. exists y. split; [by right|]. cbn [local_resolve_aliases]. by rewrite Hx.
Qed.
(** A miss leaves no binding for any alias it tried. *)
Lemma local_resolve_miss now tag l : forall st, (local_resolve_aliases now st tag l).2 = None ->
  forall x, x ∈ l -> st_aliases (local_resolve_aliases now st tag l).1 !! local_key tag (al_digest x) = None.
Proof.
  induction l as [|a l IH]; intros st H x Hx; [by apply elem_of_nil in Hx|]. cbn [local_resolve_aliases] in *.
  assert (Hgo : forall st1, st_aliases st1 !! local_key tag (al_digest a) = None -> (local_resolve_aliases now st1 tag l).2 = None ->
    st_aliases (local_resolve_aliases now st1 tag l).1 !! local_key tag (al_digest x) = None).
  { intros st1 H1 H2. apply elem_of_cons in Hx as [->|Hx]; [|by apply IH].
    destruct (st_aliases (local_resolve_aliases now st1 tag l).1 !! local_key tag (al_digest a)) eqn:E; [|done].
    pose proof (lookup_weaken _ _ _ _ E (proj1 (local_resolve_sub now tag l st1))). congruence. }
  destruct (st_aliases st !! local_key tag (al_digest a)) as [b|] eqn:Eb; [|by apply Hgo]. cbv zeta in *.
  destruct (la_expires_at b <=? now); [apply Hgo; [apply lookup_delete_eq|done]|].
  destruct (st_sessions st !! local_key tag (la_session_id b)) as [s|]; [|apply Hgo; [apply lookup_delete_eq|done]].
  destruct (ls_expires_at s <=? now); [apply Hgo; [apply lookup_delete_eq|done]|done].
Qed.
Lemma store_aliases_known ow tag b l : forall m k x, m !! k = Some x -> x = b -> foldl (store_alias ow tag b) m l !! k = Some b.
Proof.
  induction l as [|a l IH]; intros m k x H ->; [done|]. cbn [foldl]. eapply IH; [|done]. unfold store_alias. cbv zeta.
  destruct (decide (local_key tag (al_digest a) = k)) as [->|Hne].
  - destruct (is_native a || ow); [by rewrite lookup_insert_eq|]. rewrite H. exact H.
  - destruct (is_native a || ow); [by rewrite lookup_insert_ne|].
    destruct (m !! local_key tag (al_digest a)); [done|by rewrite lookup_insert_ne].
Qed.
Lemma store_aliases_new ow tag b l : forall m a, a ∈ l -> m !! local_key tag (al_digest a) = None -> foldl (store_alias ow tag b) m l !! local_key tag (al_digest a) = Some b.
Proof.
  induction l as [|x l IH]; intros m a Ha Hn; [by apply elem_of_nil in Ha|]. cbn [foldl].
  destruct (decide (local_key tag (al_digest x) = local_key tag (al_digest a))) as [E|E].
  - eapply store_aliases_known; [|done]. unfold store_alias. cbv zeta. rewrite E, Hn. destruct (_ || _); apply lookup_insert_eq.
  - apply elem_of_cons in Ha as [->|Ha]; [done|]. apply IH; [done|]. unfold store_alias. cbv zeta.
    destruct (_ || _); [by rewrite lookup_insert_ne|]. destruct (m !! local_key tag (al_digest x)); [done|by rewrite lookup_insert_ne].
Qed.
Lemma store_aliases_unknown ow tag b l m k : m !! k = None ->
  foldl (store_alias ow tag b) m l !! k = None \/ foldl (store_alias ow tag b) m l !! k = Some b.
Proof.
  intros Hn. destruct (foldl _ m l !! k) as [x|] eqn:E; [right|by left]. apply store_aliases_lookup in E as [E|[-> _]]; [congruence|done].
Qed.
Definition below_cap (st : LocalState) : Prop := Z.of_nat (size (st_aliases st)) < local_cap /\ Z.of_nat (size (st_sessions st)) < local_cap.
(** No other home is recorded under the session. *)
Definition session_free (st : LocalState) (tag session home : string) : Prop :=
  forall s, st_sessions st !! local_key tag session = Some s -> ls_home s = home.
Lemma purge_below now st : below_cap st -> purge local_cap keys now st = st.
Proof. intros [H1 H2]. unfold purge, over_cap. by rewrite !(proj2 (Z.leb_gt _ _)) by done. Qed.
(** After a store, the longest alias of a later request that is either new or
    just stored leads to the stored session. *)
Lemma stored_is_found now now' st input r later l1 a l2 :
  below_cap st -> session_free st (account_tag input) (rs_session_id r) (rs_home r) -> later < deadline local_ttl_secs now ->
  (forall x, x ∈ l1 -> st_aliases st !! local_key (account_tag input) (al_digest x) = None) ->
  a ∈ aliases input -> st_aliases st !! local_key (account_tag input) (al_digest a) = None ->
  exists x, x ∈ l1 ++ [a] /\
    local_resolve_aliases later (local_store_resolution local_cap local_ttl_secs keys now now' st input r false) (account_tag input) (l1 ++ a :: l2)
    = (local_store_resolution local_cap local_ttl_secs keys now now' st input r false,
       Some (mkResolution (rs_session_id r) (rs_home r) (source_for (al_kind x)) (account_tag input))).
Proof.
  intros Hb Hf Hlt Hl1 Ha Hn. unfold local_store_resolution. cbv zeta. rewrite (purge_below now' st Hb).
  change (sat_i64 (now + local_ttl_secs)) with (deadline local_ttl_secs now).
  apply (resolve_first later _ _ (mkLocalAlias (rs_session_id r) (deadline local_ttl_secs now)) (mkLocalSession (rs_home r) (deadline local_ttl_secs now)));
    cbn [st_aliases st_sessions la_expires_at la_session_id ls_expires_at]; try done.
  - intros x Hx. by apply store_aliases_unknown, Hl1.
  - by apply store_aliases_new.
  - unfold store_session. destruct (st_sessions st !! _) as [s|] eqn:E; [|apply lookup_insert_eq].
    apply Hf in E. cbn [ls_home ls_expires_at]. rewrite bool_decide_true by done. rewrite lookup_insert_eq. by rewrite E.
Qed.
End Found.

(** ** Theorems *)
Definition op_tagged (op : LocalOp) : Prop :=
  match op with
  | OpStore _ _ input _ _ => no_colon (account_tag input)
  | OpRebind _ r _ => no_colon (rs_account_tag r)
  | _ => True
  end.
Lemma take_while_all {A} (p : A -> bool) l x : x ∈ take_while p l -> p x = true /\ x ∈ l.
Proof.
  induction l as [|y l IH]; cbn; [by intros ?%elem_of_nil|]. destruct (p y) eqn:E; [|by intros ?%elem_of_nil].
  intros [->|H]%elem_of_cons; [split; [done|by left]|]. destruct (IH H). split; [done|by right].
Qed.
(** C21: The affinity of one request never leaks into another tenant or
    session: whatever requests did before, in whatever order, a hit is a session
    that a request of the same tenant stored under a digest the resolving request
    itself carries, at a home placed for that session within the same tenant, both
    within the lifetime; and a request with a native identity is resolved by a
    native digest only, never by the similarity of transcripts. *)
Theorem affinity_isolated (local_cap local_ttl_secs : Z) (keys : forall A : Type, gmap string A -> list string)
    (ops : list LocalOp) (now : Z) (input : AffinityInput) (r : AffinityResolution) :
  Forall op_tagged ops -> no_colon (account_tag input) ->
  (local_resolve now (local_run local_cap local_ttl_secs keys ops) input).2 = Some r ->
  rs_account_tag r = account_tag input
  /\ exists alias, alias ∈ aliases input /\ (is_native (primary input) = true -> is_native alias = true)
  /\ (exists t t' input' r' ow a, OpStore t t' input' r' ow ∈ ops /\ account_tag input' = account_tag input
        /\ a ∈ aliases input' /\ al_digest a = al_digest alias /\ rs_session_id r' = rs_session_id r /\ now < deadline local_ttl_secs t)
  /\ (exists t, now < deadline local_ttl_secs t
        /\ ((exists t' input' r' ow, OpStore t t' input' r' ow ∈ ops /\ account_tag input' = account_tag input
               /\ rs_session_id r' = rs_session_id r /\ rs_home r' = rs_home r)
            \/ exists r' old, OpRebind t r' old ∈ ops /\ rs_account_tag r' = account_tag input
               /\ rs_session_id r' = rs_session_id r /\ rs_home r' = rs_home r)).
Proof.
  intros Ht Hn H. rewrite Forall_forall in Ht. destruct (local_run_accounted local_cap local_ttl_secs keys ops) as [Ha Hs].
  apply local_resolve_hit in H as (Htag & a & b & s & Hin & _ & Hb & Hlt & Hid & Hse & Hls & Hh). split; [done|]. exists a.
  apply Ha in Hb as (t & t' & input' & r' & ow & a' & Ho & Ha' & Hk & ->). apply Hs in Hse.
  pose proof (Ht _ Ho) as Ht1. cbn in Ht1. apply (local_key_inj _ _ _ _ Hn Ht1) in Hk as [Hk1 Hk2].
  assert (Hres : a ∈ aliases input /\ (is_native (primary input) = true -> is_native a = true)).
  { unfold resolution_aliases in Hin. destruct (is_native (primary input)); [|done]. by apply take_while_all in Hin as [? ?]. }
  destruct Hres as [Hr1 Hr2]. do 2 (split; [done|]). split; [by exists t, t', input', r', ow, a'|].
  destruct Hse as [(u & u' & input2 & r2 & ow2 & Hu & Hk & ->)|(u & r2 & old & Hu & Hk & ->)]; exists u; (split; [done|]);
    pose proof (Ht _ Hu) as Ht2; cbn in Ht2; apply (local_key_inj _ _ _ _ Hn Ht2) in Hk as [? ?]; [left|right].
  - by exists u', input2, r2, ow2.
  - by exists r2, old.
Qed.


(** A claim that no shared store answered is found again by the same request,
    provided no record of another home was left under its session. *)
Theorem claim_is_sticky (local_cap local_ttl_secs : Z) (keys : forall A : Type, gmap string A -> list string)
    (input : AffinityInput) (home : string) (st st' st'' : LocalState) (r : AffinityResolution) (answer : result () (option AffinityResolution)) (now later : Z) :
  aliases input <> [] -> local_resolve now st input = (st', None) -> (forall w, answer <> Ok (Some w)) ->
  below_cap local_cap st' -> session_free st' (account_tag input) (al_digest (primary input)) home ->
  claim local_cap local_ttl_secs keys now now now (fun s => s) (fun s => s) st answer input home = (st'', r) -> later < deadline local_ttl_secs now ->
  rs_home r = home /\ exists source, (local_resolve later st'' input).2
    = Some (mkResolution (rs_session_id r) home source (account_tag input)).
Proof.
  intros Hne Hmiss Hans Hcap Hfree Hc Hlt. unfold claim in Hc. rewrite Hmiss in Hc. cbv zeta in Hc.
  assert (Hr : st'' = local_store_resolution local_cap local_ttl_secs keys now now st' input (mkResolution (al_digest (primary input)) home SrcNew (account_tag input)) false
    /\ r = mkResolution (al_digest (primary input)) home SrcNew (account_tag input)).
  { destruct answer as [[w|]|]; [by destruct (Hans w)|..]; by injection Hc as <- <-. }
  destruct Hr as [-> ->]. split; [done|].
  assert (Hl : exists a l, resolution_aliases input = a :: l /\ a ∈ aliases input).
  { unfold resolution_aliases, primary. destruct (aliases input) as [|a l]; [done|]. cbn. destruct (is_native a); eexists a, _; split; try done; by left. }
  destruct Hl as (a & l & Hl & Hin). unfold local_resolve in *. rewrite Hl in *.
  destruct (stored_is_found local_cap local_ttl_secs keys now now st' input (mkResolution (al_digest (primary input)) home SrcNew (account_tag input)) later [] a l
    Hcap Hfree Hlt) as (x & _ & E); [by intros ? ?%elem_of_nil|done| |by exists (source_for (al_kind x)); cbn [app] in E; rewrite E].
  pose proof (local_resolve_miss now (account_tag input) (a :: l) st ltac:(by rewrite Hmiss) a ltac:(by left)) as H. by rewrite Hmiss in H.
Qed.
(** When the session record outlived its alias and names another home, the claim
    is not recorded: the next request of the same session misses again. *)
Definition demo_input : AffinityInput := mkInput "t" [mkAlias "n1" Native; mkAlias "n2" Native; mkAlias "m1" Transcript] None 0.
Definition demo_keys (A : Type) (m : gmap string A) : list string := (map_to_list m).*1.
Example stale_session_forgets_claim :
  let first := (claim 10 60 demo_keys 0 0 0 id id LocalState_default (Ok None) demo_input "home-a").1 in
  let '(second, r) := claim 10 60 demo_keys 100 100 100 id id first (Ok None) demo_input "home-b" in
  rs_home r = "home-b"%string /\ (local_resolve 101 second demo_input).2 = None.
Proof. split; vm_compute; reflexivity. Qed.

(** ** The store stays bounded *)
Section Bounded.
  Context (local_cap local_ttl_secs : Z) (keys : forall A : Type, gmap string A -> list string).
  Hypothesis keys_exact : forall A (m : gmap string A), keys A m ≡ₚ (map_to_list m).*1.
  Hypothesis cap_positive : 1 <= local_cap.
Lemma delete_all_size {A} (l : list string) : forall m : gmap string A, NoDup l -> (forall k, k ∈ l -> is_Some (m !! k)) ->
  (size (foldl (fun m k => delete k m) m l) + length l = size m)%nat.
Proof.
  induction l as [|k l IH]; intros m Hn Hk; cbn [foldl length]; [lia|]. apply NoDup_cons in Hn as [Hn1 Hn].
  destruct (Hk k ltac:(by left)) as [x Hx].
  assert (size m <> 0%nat) by (intros E%map_size_empty_iff; rewrite E, lookup_empty in Hx; done).
  assert (Hd : size (delete k m) = pred (size m)) by (by rewrite map_size_delete, Hx).
  specialize (IH (delete k m) Hn). rewrite Nat.add_succ_r, IH; [lia|].
  intros k' Hk'. rewrite lookup_delete_ne by (by intros ->). apply Hk. by right.
Qed.
Lemma keys_facts {A} (m : gmap string A) : NoDup (keys A m) /\ length (keys A m) = size m /\ forall k, k ∈ keys A m -> is_Some (m !! k).
Proof.
  split; [rewrite keys_exact; apply NoDup_fst_map_to_list|]. split.
  - rewrite (Permutation_length (keys_exact _ m)), length_fmap. by rewrite map_size_list_to_map || apply length_map_to_list.
  - intros k Hk. rewrite keys_exact in Hk. apply list_elem_of_fmap in Hk as ([k' x] & -> & Hx). apply elem_of_map_to_list in Hx. by exists x.
Qed.
Lemma evict_size {A} (m : gmap string A) : m <> ∅ -> (size (evict keys m) + (size m / 4 + 1) = size m)%nat.
Proof.
  intros Hm. destruct (keys_facts m) as (Hn & Hl & Hk). unfold evict.
  pose proof (delete_all_size (take (size m / 4 + 1) (keys A m)) m) as H. rewrite length_take, Hl in H.
  assert (size m <> 0%nat) by (by rewrite map_size_empty_iff).
  assert (H1 : NoDup (take (size m / 4 + 1) (keys A m))) by (eapply sublist_NoDup; [exact Hn|apply sublist_take]).
  assert (H2 : forall k, k ∈ take (size m / 4 + 1) (keys A m) -> is_Some (m !! k)) by (intros k Hk'; apply Hk; eapply elem_of_sublist; [exact Hk'|apply sublist_take]).
  specialize (H H1 H2). pose proof (Nat.div_mod (size m) 4 ltac:(lia)). lia.
Qed.
Lemma evict_over_size {A} (m : gmap string A) : Z.of_nat (size (evict_over local_cap keys m)) < local_cap
  \/ (size (evict_over local_cap keys m) + (size m / 4 + 1) = size m)%nat.
Proof.
  unfold evict_over, over_cap. destruct (Z.leb_spec local_cap (Z.of_nat (size m))); [right|by left]. apply evict_size.
  intros ->. rewrite map_size_empty in *. lia.
Qed.
Lemma filter_size {A} (P : string * A -> Prop) `{!forall x, Decision (P x)} (m : gmap string A) : (size (filter P m) <= size m)%nat.
Proof. apply map_subseteq_size, map_filter_subseteq. Qed.
Lemma insert_size {A} (m : gmap string A) k x : (size (<[k := x]> m) <= S (size m))%nat.
Proof. rewrite map_size_insert. destruct (m !! k); cbn; lia. Qed.
Lemma store_aliases_size ow tag b l : forall m, (size (foldl (store_alias ow tag b) m l) <= size m + length l)%nat.
Proof.
  induction l as [|a l IH]; intros m; cbn [foldl length]; [lia|]. etrans; [apply IH|]. unfold store_alias. cbv zeta.
  pose proof (insert_size m (local_key tag (al_digest a)) b). destruct (_ || _); [lia|]. destruct (m !! _); lia.
Qed.
Lemma store_session_size ow key s m : (size (store_session ow key s m) <= S (size m))%nat.
Proof.
  unfold store_session. destruct ow; [apply insert_size|]. destruct (m !! key) as [e|]; [case_bool_decide; [apply insert_size|lia]|apply insert_size].
Qed.

Definition alias_count (op : LocalOp) : nat := match op with OpStore _ _ input _ _ => length (aliases input) | _ => 0 end.
Record sized (n : nat) (st : LocalState) : Prop := {
  sz_sessions : Z.of_nat (size (st_sessions st)) <= local_cap;
  sz_roots : Z.of_nat (size (st_roots st)) <= local_cap;
  sz_aliases : Z.of_nat (size (st_aliases st)) <= local_cap + 4 * Z.of_nat n }.
Lemma store_sized n now pn st input r ow : (length (aliases input) <= n)%nat -> sized n st ->
  sized n (local_store_resolution local_cap local_ttl_secs keys now pn st input r ow).
Proof.
  intros Hn [Hs Hr Ha]. unfold local_store_resolution. cbv zeta.
  pose proof (store_session_size ow (local_key (account_tag input) (rs_session_id r)) (mkLocalSession (rs_home r) (sat_i64 (now + local_ttl_secs)))
    (st_sessions (purge local_cap keys pn st))) as H1.
  pose proof (store_aliases_size ow (account_tag input) (mkLocalAlias (rs_session_id r) (sat_i64 (now + local_ttl_secs))) (aliases input)
    (st_aliases (purge local_cap keys pn st))) as H2.
  assert (Hp : Z.of_nat (size (st_sessions (purge local_cap keys pn st))) < local_cap /\ st_roots (purge local_cap keys pn st) = st_roots st
    /\ (Z.of_nat (size (st_aliases (purge local_cap keys pn st))) < local_cap
        \/ exists k, (size (st_aliases (purge local_cap keys pn st)) + (k / 4 + 1) = k)%nat /\ (k <= size (st_aliases st))%nat)).
  { unfold purge, over_cap. destruct (Z.leb_spec local_cap (Z.of_nat (size (st_aliases st)))), (Z.leb_spec local_cap (Z.of_nat (size (st_sessions st)))); cbn [orb st_sessions st_roots st_aliases];
      [..|split; [lia|]; split; [done|left; lia]]; (split; [|split; [done|]]).
    all: match goal with |- context [evict_over _ _ (filter ?P ?m)] =>
      pose proof (filter_size P m); destruct (evict_over_size (filter P m)) end; try lia;
      first [by left|right; eexists; split; [eassumption|lia]]. }
  destruct Hp as (Hp1 & Hp2 & Hp3). split; cbn [st_sessions st_roots st_aliases]; [lia|by rewrite Hp2|].
  destruct Hp3 as [Hp3|(k & Hk & Hle)]; [lia|]. pose proof (Nat.div_mod k 4 ltac:(lia)). pose proof (Nat.mod_upper_bound k 4 ltac:(lia)). lia.
Qed.
Lemma mark_sized n now st input home : sized n st -> sized n (local_mark_cache_warm local_cap keys now st input home).
Proof.
  intros [Hs Hr Ha]. unfold local_mark_cache_warm. destruct (cache_root input) as [root|]; [|done]. cbv zeta. split; cbn; [done| |done].
  set (key := local_key _ _). rewrite map_size_insert. destruct (Z.leb_spec local_cap (Z.of_nat (size (st_roots st)))) as [Ho|Ho].
  - case_bool_decide as Hk; unfold over_cap; rewrite (proj2 (Z.leb_le _ _)) by done; cbn [andb].
    + match goal with |- context [evict_over _ _ ?m] => pose proof (evict_over_size m) as He end.
      match goal with H : context [filter ?P ?m] |- _ => pose proof (filter_size P m) as Hf end. rewrite map_size_fmap in Hf.
      destruct (evict_over _ _ _ !! key); cbn; lia.
    + destruct (st_roots st !! key); [cbn; lia|done].
  - unfold over_cap. rewrite (proj2 (Z.leb_gt _ _)) by done. cbn [andb]. destruct (st_roots st !! key); cbn; lia.
Qed.
Lemma warm_sized n now st input : sized n st -> sized n (local_warm_homes keys now st input).1.
Proof.
  intros [Hs Hr Ha]. unfold local_warm_homes. destruct (cache_root input) as [root|]; [|done]. cbv zeta.
  destruct (st_roots st !! _) as [homes|] eqn:E; [|done]. cbn [fst]. split; cbn; [done| |done].
  case_bool_decide; [|by rewrite map_size_insert, E]. pose proof (map_subseteq_size _ _ (delete_subseteq (st_roots st) (local_key (account_tag input) (cr_digest root)))). lia.
Qed.
Lemma local_step_sized n st op : (alias_count op <= n)%nat -> sized n st -> sized n (local_step local_cap local_ttl_secs keys st op).
Proof.
  intros Hn Hz. destruct op as [now input|now pn input r ow|now r old|now input|now input home]; cbn [local_step alias_count] in *.
  - destruct (local_resolve_sub now (account_tag input) (resolution_aliases input) st) as [H1%map_subseteq_size H2%map_subseteq_size].
    destruct Hz as [Hs Hr Ha]. unfold local_resolve. split; [lia| |lia].
    assert (Hroots : forall l st, st_roots (local_resolve_aliases now st (account_tag input) l).1 = st_roots st); [|by rewrite Hroots].
    clear. induction l as [|a l IH]; intros st; cbn [local_resolve_aliases]; [done|]. cbv zeta. repeat case_match; try done; by rewrite IH.
  - by apply store_sized.
  - destruct Hz as [Hs Hr Ha]. unfold local_rebind. destruct (st_sessions st !! _) as [s|] eqn:E; [|done]. case_bool_decide; [|done].
    split; cbn; [by rewrite map_size_insert, E|done|done].
  - by apply warm_sized.
  - by apply mark_sized.
Qed.
End Bounded.

(** The process-local store stays bounded under any load: after any
    sequence of operations it holds at most its capacity of sessions and of cache
    roots, and its capacity plus four times the longest history of aliases,
    whatever order the map evicts in. *)
Theorem local_store_bounded (local_cap local_ttl_secs : Z) (keys : forall A : Type, gmap string A -> list string) (n : nat) (ops : list LocalOp) :
  1 <= local_cap -> (forall A (m : gmap string A), keys A m ≡ₚ (map_to_list m).*1) ->
  Forall (fun op => (alias_count op <= n)%nat) ops ->
  let st := local_run local_cap local_ttl_secs keys ops in
  Z.of_nat (size (st_sessions st)) <= local_cap /\ Z.of_nat (size (st_roots st)) <= local_cap
  /\ Z.of_nat (size (st_aliases st)) <= local_cap + 4 * Z.of_nat n.
Proof.
  intros Hc Hk Hn. assert (Hz : sized local_cap n (local_run local_cap local_ttl_secs keys ops)); [|by destruct Hz].
  unfold local_run. revert Hn. induction ops as [|op ops IH] using rev_ind; intros Hn.
  { split; cbn; rewrite map_size_empty; lia. }
  apply Forall_app in Hn as [Hn Ho]. rewrite foldl_app. cbn [foldl]. apply local_step_sized; [done|done|by apply Forall_inv in Ho|by apply IH].
Qed.
Lemma demo_keys_exact A (m : gmap string A) : demo_keys A m ≡ₚ (map_to_list m).*1.
Proof. done. Qed.
Lemma local_store_bounded_witness :
  let st := local_run 2 60 demo_keys (map (fun n => OpStore n n (mkInput "t" [mkAlias (pretty n) Transcript] None 0) (mkResolution (pretty n) "home" SrcNew "t") false) [1; 2; 3; 4; 5]) in
  Z.of_nat (size (st_sessions st)) <= 2 /\ Z.of_nat (size (st_aliases st)) <= 6 /\ size (st_sessions st) <> 0%nat.
Proof.
  destruct (local_store_bounded 2 60 demo_keys 1
    (map (fun n => OpStore n n (mkInput "t" [mkAlias (pretty n) Transcript] None 0) (mkResolution (pretty n) "home" SrcNew "t") false) [1; 2; 3; 4; 5])
    ltac:(lia) demo_keys_exact ltac:(repeat constructor)) as (H1 & _ & H2).
  split; [exact H1|]. split; [exact H2|]. vm_compute. discriminate.
Defined.

(** ** The canonical bytes do not depend on the order of members *)
Fixpoint value_rect_strong (P : Value -> Prop) (Hnull : P VNull) (Hb : forall b, P (VBool b)) (Hn : forall n, P (VNumber n)) (Hs : forall s, P (VString s))
    (Ha : forall l, Forall P l -> P (VArray l)) (Ho : forall fs, Forall (fun f => P f.2) fs -> P (VObject fs)) (v : Value) : P v :=
  let rec := value_rect_strong P Hnull Hb Hn Hs Ha Ho in
  match v with
  | VNull => Hnull
  | VBool b => Hb b
  | VNumber n => Hn n
  | VString s => Hs s
  | VArray l => Ha l ((fix go l := match l return Forall P l with [] => Forall_nil_2 P | x :: l => Forall_cons_2 P x l (rec x) (go l) end) l)
  | VObject fs => Ho fs ((fix go l := match l return Forall (fun f => P f.2) l with [] => Forall_nil_2 _ | x :: l => Forall_cons_2 _ x l (rec x.2) (go l) end) fs)
  end.
(** The same value with the members of its objects in another order. *)
#[warnings="-register-all"]
Inductive same_json : Value -> Value -> Prop :=
| same_leaf v : same_json v v
| same_array l l' : Forall2 same_json l l' -> same_json (VArray l) (VArray l')
| same_object fs gs hs : fs ≡ₚ gs -> NoDup (map fst fs) -> Forall2 (fun g h => g.1 = h.1 /\ same_json g.2 h.2) gs hs -> same_json (VObject fs) (VObject hs).
Definition field_lt (a b : string * string) : Prop := key_lt a.1 b.1.
#[local] Instance field_lt_trans : Transitive field_lt.
Proof. intros a b c. unfold field_lt. apply key_lt_trans. Qed.
#[local] Instance field_lt_antisymm : AntiSymm (=) field_lt.
Proof. intros a b H1 H2. pose proof (key_lt_trans _ _ _ H1 H2) as H. unfold key_lt in H. by rewrite compare_refl in H. Qed.
Lemma insert_field_perm f l : insert_field f l ≡ₚ f :: l.
Proof. induction l as [|g l IH]; cbn; [done|]. destruct (String.compare f.1 g.1); try done. rewrite IH. apply Permutation_swap. Qed.
Lemma sort_fields_perm l : sort_fields l ≡ₚ l.
Proof. induction l as [|f l IH]; [done|]. cbn. by rewrite insert_field_perm, IH. Qed.
Lemma insert_field_sorted f l : (forall g, g ∈ l -> g.1 <> f.1) -> StronglySorted field_lt l -> StronglySorted field_lt (insert_field f l).
Proof.
  intros Hf Hs. induction Hs as [|g l Hs IH Hg]; cbn; [repeat constructor|].
  destruct (String.compare f.1 g.1) eqn:E.
  - apply String.compare_eq_iff in E. destruct (Hf g ltac:(by left)). done.
  - constructor; [by constructor|]. constructor; [done|]. eapply Forall_impl; [exact Hg|]. intros x Hx. by eapply field_lt_trans.
  - constructor; [apply IH; intros x Hx; apply Hf; by right|]. apply Forall_forall. intros x Hx. rewrite insert_field_perm in Hx.
    apply elem_of_cons in Hx as [->|Hx]; [unfold field_lt, key_lt; by rewrite String.compare_antisym, E|by eapply Forall_forall in Hg].
Qed.
Lemma sort_fields_sorted l : NoDup (map fst l) -> StronglySorted field_lt (sort_fields l).
Proof.
  induction l as [|f l IH]; cbn; [constructor|]. intros [Hf Hn]%NoDup_cons. apply insert_field_sorted; [|by apply IH].
  intros g Hg E. rewrite sort_fields_perm in Hg. apply Hf. rewrite <- E. apply list_elem_of_fmap. eauto.
Qed.
Lemma sort_fields_unique l l' : l ≡ₚ l' -> NoDup (map fst l) -> sort_fields l = sort_fields l'.
Proof.
  intros Hp Hn. apply (StronglySorted_unique field_lt); [by apply sort_fields_sorted|apply sort_fields_sorted; by rewrite <- Hp|].
  by rewrite !sort_fields_perm.
Qed.
(** The bytes a request is identified by do not depend on the order in which
    a client or a library writes the members of an object, at any depth. *)
Theorem canonical_json_order_free (number_text : Number -> string) (v w : Value) :
  same_json v w -> feed_canonical_json number_text v = feed_canonical_json number_text w.
Proof.
  revert w. induction v as [| | | |l IH|fs IH] using value_rect_strong; intros w H; inversion H as [|? l' Hl|? gs hs Hp Hn Hh]; subst; try done.
  - cbn [feed_canonical_json]. assert (E : map (feed_canonical_json number_text) l = map (feed_canonical_json number_text) l').
    { clear H. induction Hl as [|x y l l' Hxy _ IHl]; [done|]. apply Forall_cons in IH as [Hx IH]. cbn [map]. by rewrite (Hx y Hxy), (IHl IH). }
    by rewrite E, (Forall2_length _ _ _ Hl).
  - cbn [feed_canonical_json]. rewrite (Permutation_length Hp), (Forall2_length _ _ _ Hh).
    assert (E : map (fun f => (f.1, feed_canonical_json number_text f.2)) gs = map (fun f => (f.1, feed_canonical_json number_text f.2)) hs).
    { rewrite Hp in IH. clear -IH Hh. induction Hh as [|g h gs hs [Hk Hv] _ IHh]; [done|]. apply Forall_cons in IH as [Hg IH]. cbn [map].
      by rewrite Hk, (Hg _ Hv), (IHh IH). }
    rewrite (sort_fields_unique _ (map (fun f => (f.1, feed_canonical_json number_text f.2)) gs)), E; [done|by rewrite Hp|].
    by rewrite List.map_map.
Qed.
Lemma canonical_json_order_free_witness :
  feed_canonical_json (fun _ => "1"%string) (VObject [("b", VNull); ("a", VNumber (PosInt 1))]%string)
  = feed_canonical_json (fun _ => "1"%string) (VObject [("a", VNumber (PosInt 1)); ("b", VNull)]%string).
Proof.
  apply canonical_json_order_free.
  apply (same_object _ [("a", VNumber (PosInt 1)); ("b", VNull)]%string); [apply Permutation_swap| |].
  - apply (bool_decide_unpack _). vm_compute. exact I.
  - repeat constructor.
Defined.
Lemma affinity_isolated_witness :
  let ops := [OpStore 0 0 demo_input (mkResolution "n1" "home-a" SrcNew "t") false] in
  (local_resolve 10 (local_run 10 60 demo_keys ops) demo_input).2 = Some (mkResolution "n1" "home-a" SrcNative "t")
  /\ exists alias, alias ∈ aliases demo_input /\ is_native alias = true.
Proof.
  intros ops. assert (H : (local_resolve 10 (local_run 10 60 demo_keys ops) demo_input).2 = Some (mkResolution "n1" "home-a" SrcNative "t")) by (vm_compute; reflexivity).
  split; [exact H|].
  destruct (affinity_isolated 10 60 demo_keys ops 10 demo_input _ ltac:(repeat constructor) eq_refl H) as (_ & alias & Ha & Hk & _).
  exists alias. exact (conj Ha (Hk eq_refl)).
Defined.
