(* ===== verification/MediaPlane.v ===== *)
(** * The task-based media planes: what Suno and Tripo3D share
    ([crates/forward/src/suno/selection.rs], [pool.rs], [gateway.rs], mirrored by
    [crates/forward/src/tripo3d/])

    A request is placed on a profile under two cooling axes, attempted, rotated
    to another profile or answered, and once the provider has created the task it
    belongs to that profile.  Each plane has its own walls, verdicts and effects:
    the selector is generic in the reasons, the decision and the attempt loop in
    the verdicts, through the interface [PlaneVerdict] and its laws. *)
From S2P Require Import Prelude Text Tariffs MeterUsage RouterWire RouterCatalog.

(** [Iterator::min] on integers. *)
Definition least (l : list Z) : option Z := match l with [] => None | x :: l => Some (foldr Z.min x l) end.
Lemma least_spec l m : least l = Some m -> m ∈ l /\ forall x, x ∈ l -> m <= x.
Proof.
  destruct l as [|y l]; cbn; [done|]. intros [= <-]. induction l as [|z l [IH1 IH2]]; cbn; [set_solver by lia|].
  split; [destruct (Z.min_spec z (foldr Z.min y l)) as [[? ->]|[? ->]]; set_solver|].
  intros x Hx. assert (x = z \/ x ∈ y :: l) as [->|H%IH2] by set_solver; lia.
Qed.
Lemma least_None l : least l = None <-> l = [].
Proof. by destruct l. Qed.

(** ** Selection ([selection.rs]) *)
Section Selection.
Context {Hard Soft : Type}.

Record Candidate := mkCandidate {
  profile_id : string; hard : option Hard; soft : option Soft; inflight : Z }.
Definition is_hard_eligible (c : Candidate) : bool := match hard c with None => true | Some _ => false end.
Definition is_eligible (c : Candidate) : bool := is_hard_eligible c && match soft c with None => true | Some _ => false end.

(** The stable sort by profile id. *)
Fixpoint insert_by_id (c : Candidate) (l : list Candidate) : list Candidate :=
  match l with
  | [] => [c]
  | x :: l => if String.leb (profile_id c) (profile_id x) then c :: x :: l else x :: insert_by_id c l
  end.
Definition sort_by_id (l : list Candidate) : list Candidate := foldr insert_by_id [] l.

Definition tied (eligible : list Candidate) : list Candidate :=
  match least (map inflight eligible) with
  | None => []
  | Some best => sort_by_id (List.filter (fun c => inflight c =? best) eligible)
  end.
Definition pick (eligible : list Candidate) (cursor : Z) : option Candidate :=
  match eligible with
  | [] => None
  | _ => tied eligible !! Z.to_nat (cursor mod Z.of_nat (length (tied eligible)))
  end.
Definition select (candidates : list Candidate) (cursor : Z) : option Candidate :=
  pick (List.filter is_eligible candidates) cursor.
Definition select_ignoring_soft (candidates : list Candidate) (cursor : Z) : option Candidate :=
  pick (List.filter is_hard_eligible candidates) cursor.
Definition ineligible_ids (candidates : list Candidate) : gset string :=
  list_to_set (map profile_id (List.filter (fun c => negb (is_eligible c)) candidates)).
Definition hard_ineligible_ids (candidates : list Candidate) : gset string :=
  list_to_set (map profile_id (List.filter (fun c => negb (is_hard_eligible c)) candidates)).

(** ** The gateway's use of it: a roster as the selection reads it, every
    profile with its candidate unless it is out of routing. *)
Abbreviation view := (list (string * option Candidate)).
Definition candidates_of (v : view) (skip : string -> bool) : list Candidate :=
  omap snd (List.filter (fun p => negb (skip p.1)) v).
Definition find_profile (v : view) (id : string) : option string :=
  fst <$> List.find (fun p => bool_decide (p.1 = id)) v.
Definition in_set (s : gset string) (id : string) : bool := bool_decide (id ∈ s).

(** Strict pass, then the pass that ignores the soft axis. *)
Definition two_pass (candidates : list Candidate) (cursor : Z) : option Candidate :=
  match select candidates cursor with Some c => Some c | None => select_ignoring_soft candidates cursor end.
Definition select_profile (v : view) (excluded : gset string) (cursor : Z) : option string :=
  c ← two_pass (candidates_of v (in_set excluded)) cursor; find_profile v (profile_id c).
(** With the profile an upload is pinned to, when there is one. *)
Definition select_pinned (v : view) (excluded : gset string) (sticky : option string) (cursor : Z) : option string :=
  match sticky with
  | Some pinned =>
      c ← List.find (fun c => bool_decide (profile_id c = pinned) && is_hard_eligible c) (candidates_of v (in_set excluded));
      find_profile v (profile_id c)
  | None => select_profile v excluded cursor
  end.
Definition remaining_count (v : view) (excluded : gset string) (current : string) : Z :=
  let candidates := candidates_of v (fun id => bool_decide (id = current) || in_set excluded id) in
  let strict := Z.of_nat (length (List.filter is_eligible candidates)) in
  if 0 <? strict then strict else Z.of_nat (length (List.filter is_hard_eligible candidates)).

(** ** Placement *)
Lemma media_insert_by_id_perm c l : insert_by_id c l ≡ₚ c :: l.
Proof. induction l as [|x l IH]; cbn; [done|]. case_match; [done|]. rewrite IH. constructor. Qed.
Lemma media_sort_by_id_perm l : sort_by_id l ≡ₚ l.
Proof. induction l as [|x l IH]; cbn; [done|]. by rewrite media_insert_by_id_perm, IH. Qed.
Lemma media_tied_spec l c : c ∈ tied l <-> c ∈ l /\ forall d, d ∈ l -> inflight c <= inflight d.
Proof.
  unfold tied. destruct (least _) as [m|] eqn:E.
  - apply least_spec in E as [Hm Hl]. apply list_elem_of_fmap in Hm as (b & -> & Hb).
    rewrite media_sort_by_id_perm, elem_of_lfilter, Z.eqb_eq. split.
    + intros [Hc ->]. split; [done|]. intros d Hd. apply Hl, list_elem_of_fmap. eauto.
    + intros [Hc H]. split; [done|]. specialize (H b Hb).
      specialize (Hl (inflight c) ltac:(apply list_elem_of_fmap; eauto)). lia.
  - apply least_None in E. destruct l; [|done]. set_solver.
Qed.
Lemma media_tied_nonempty l : l <> [] -> tied l <> [].
Proof.
  intros Hl E. destruct (least (map inflight l)) as [m|] eqn:Em; [|by apply least_None in Em; destruct l].
  apply least_spec in Em as [Hm Hmin]. apply list_elem_of_fmap in Hm as (b & -> & Hb).
  apply (not_elem_of_nil b). rewrite <- E. apply media_tied_spec. split; [done|].
  intros d Hd. apply Hmin, list_elem_of_fmap. eauto.
Qed.
Lemma pick_elem l cursor c : pick l cursor = Some c -> c ∈ tied l.
Proof. destruct l; [done|]. apply list_elem_of_lookup_2. Qed.
Lemma pick_None l cursor : 0 <= cursor -> pick l cursor = None <-> l = [].
Proof.
  intros Hc. split; [|by intros ->]. intros H. destruct l as [|x l]; [done|]. exfalso.
  pose proof (media_tied_nonempty (x :: l) ltac:(done)) as Ht. unfold pick in H. destruct (tied (x :: l)) as [|y t] eqn:E; [done|].
  apply lookup_ge_None in H. pose proof (Z.mod_pos_bound cursor (Z.of_nat (length (y :: t))) ltac:(cbn; lia)). lia.
Qed.
Lemma filter_nil_iff {A} (p : A -> bool) l : List.filter p l = [] <-> forall x, x ∈ l -> p x = false.
Proof.
  split.
  - intros E x Hx. destruct (p x) eqn:Ep; [|done]. exfalso. apply (not_elem_of_nil x). rewrite <- E. by apply elem_of_lfilter.
  - intros H. destruct (List.filter p l) as [|x l'] eqn:E; [done|]. exfalso.
    assert (Hx : x ∈ List.filter p l) by (rewrite E; set_solver). apply elem_of_lfilter in Hx as [Hx Hp]. by rewrite H in Hp.
Qed.
Lemma eligible_hard c : is_eligible c = true -> is_hard_eligible c = true.
Proof. unfold is_eligible. by intros [? _]%andb_true_iff. Qed.

Lemma two_pass_Some l cursor c : two_pass l cursor = Some c ->
  c ∈ l /\ is_hard_eligible c = true
  /\ (is_eligible c = false -> forall d, d ∈ l -> is_eligible d = false)
  /\ (forall d, d ∈ l -> is_eligible d = true -> inflight c <= inflight d).
Proof.
  unfold two_pass. destruct (select l cursor) as [d|] eqn:E.
  - intros [= ->]. apply pick_elem, media_tied_spec in E as [[Hc He]%elem_of_lfilter Hm].
    split; [done|]. split; [by apply eligible_hard|]. split; [congruence|].
    intros d Hd Hde. apply Hm, elem_of_lfilter. done.
  - intros H. apply pick_elem, media_tied_spec in H as [[Hc He]%elem_of_lfilter Hm]. split; [done|]. split; [done|].
    assert (Hn : forall d, d ∈ l -> is_eligible d = false).
    { apply filter_nil_iff. unfold select, pick in E. destruct (List.filter is_eligible l) as [|x k] eqn:Ef; [done|]. exfalso.
      pose proof (media_tied_nonempty (x :: k) ltac:(done)) as Ht. destruct (tied (x :: k)) as [|y t] eqn:Et; [done|].
      apply lookup_ge_None in E. pose proof (Z.mod_pos_bound cursor (Z.of_nat (length (y :: t))) ltac:(cbn; lia)). lia. }
    split; [by intros _|]. intros d Hd Hde. by rewrite Hn in Hde.
Qed.
Lemma two_pass_None l cursor : 0 <= cursor -> two_pass l cursor = None <-> forall c, c ∈ l -> is_hard_eligible c = false.
Proof.
  intros Hcur. unfold two_pass. split.
  - destruct (select l cursor) eqn:E; [done|]. intros H. apply pick_None in H; [|done]. exact (proj1 (filter_nil_iff _ _) H).
  - intros H. assert (E : select l cursor = None).
    { apply pick_None; [done|]. apply filter_nil_iff. intros x Hx. destruct (is_eligible x) eqn:Ex; [|done].
      apply eligible_hard in Ex. by rewrite H in Ex. }
    rewrite E. apply pick_None; [done|]. by apply (proj2 (filter_nil_iff _ _)).
Qed.

(** A roster view names its candidates after its profiles. *)
Definition view_ok (v : view) : Prop := forall id c, (id, Some c) ∈ v -> profile_id c = id.
Lemma candidates_of_spec v skip c :
  view_ok v -> c ∈ candidates_of v skip <-> (profile_id c, Some c) ∈ v /\ skip (profile_id c) = false.
Proof.
  intros Hv. unfold candidates_of. rewrite list_elem_of_omap. split.
  - intros ([id o] & [Hin Hs]%elem_of_lfilter & Ho). cbn in *. subst o. rewrite (Hv _ _ Hin). by rewrite negb_true_iff in Hs.
  - intros [Hin Hs]. exists (profile_id c, Some c). split; [|done]. apply elem_of_lfilter. cbn. by rewrite Hs.
Qed.
Lemma find_profile_in v id c : (id, c) ∈ v -> find_profile v id = Some id.
Proof.
  intros Hin. unfold find_profile. destruct (List.find _ v) as [[j o]|] eqn:E; cbn.
  - apply List.find_some in E as [_ Hj%bool_decide_eq_true]. by cbn in Hj; subst j.
  - apply list_elem_of_In in Hin. pose proof (find_none _ _ E _ Hin) as Hf. cbn in Hf. by rewrite bool_decide_eq_true_2 in Hf.
Qed.

(** What a selection may return, and what its refusal means. *)
Definition hard_walled (v : view) (only : option string) (seen : gset string) : Prop :=
  forall id c, (id, Some c) ∈ v -> id ∉ seen -> (only = None \/ only = Some id) -> is_hard_eligible c = false.
Lemma select_pinned_id v ex p cursor id : select_pinned v ex (Some p) cursor = Some id -> id = p.
Proof.
  cbn. destruct (List.find _ _) as [c|] eqn:E; cbn; [|done]. apply List.find_some in E as [_ [Hc%bool_decide_eq_true _]%andb_true_iff].
  unfold find_profile. destruct (List.find _ v) as [[i o]|] eqn:Ef; cbn; [|done]. apply List.find_some in Ef as [_ Hi%bool_decide_eq_true].
  cbn in Hi. congruence.
Qed.
Lemma select_pinned_Some v ex sticky cursor id :
  view_ok v -> select_pinned v ex sticky cursor = Some id ->
  exists c, (id, Some c) ∈ v /\ (id ∉ ex) /\ is_hard_eligible c = true.
Proof.
  intros Hv. assert (Hk : forall c, c ∈ candidates_of v (in_set ex) -> is_hard_eligible c = true ->
    find_profile v (profile_id c) = Some id -> exists c, (id, Some c) ∈ v /\ (id ∉ ex) /\ is_hard_eligible c = true).
  { intros c [Hin Hs]%candidates_of_spec Hh Hf; [|done]. rewrite (find_profile_in _ _ _ Hin) in Hf. injection Hf as <-.
    exists c. apply bool_decide_eq_false in Hs. done. }
  destruct sticky as [pinned|]; cbn.
  - destruct (List.find _ _) as [c|] eqn:E; cbn; [|done]. apply List.find_some in E as [Hc%list_elem_of_In [_ Hh]%andb_true_iff]. eauto.
  - unfold select_profile. destruct (two_pass _ _) as [c|] eqn:E; cbn; [|done]. apply two_pass_Some in E as (Hc & Hh & _). eauto.
Qed.
Lemma select_pinned_None v ex sticky cursor :
  view_ok v -> 0 <= cursor -> select_pinned v ex sticky cursor = None -> hard_walled v sticky ex.
Proof.
  intros Hv Hcur HN id c Hin Hex Hs. pose proof (Hv _ _ Hin) as Hid.
  assert (Hc : c ∈ candidates_of v (in_set ex)).
  { apply candidates_of_spec; [done|]. rewrite Hid. split; [done|]. by apply bool_decide_eq_false. }
  destruct sticky as [pinned|]; cbn in HN.
  - destruct Hs as [?|[= ->]]; [done|]. destruct (is_hard_eligible c) eqn:Eh; [|done]. exfalso.
    destruct (List.find _ _) as [d|] eqn:E; cbn in HN.
    + apply List.find_some in E as [Hd%list_elem_of_In _]. apply candidates_of_spec in Hd as [Hd _]; [|done].
      by rewrite (find_profile_in _ _ _ Hd) in HN.
    + apply list_elem_of_In in Hc. pose proof (find_none _ _ E _ Hc) as Hf. cbn in Hf. by rewrite Hid, bool_decide_eq_true_2, Eh in Hf.
  - unfold select_profile in HN. destruct (two_pass _ _) as [d|] eqn:E; cbn in HN.
    + apply two_pass_Some in E as [Hd _]. apply candidates_of_spec in Hd as [Hd _]; [|done]. by rewrite (find_profile_in _ _ _ Hd) in HN.
    + by eapply (proj1 (two_pass_None _ _ Hcur) E).
Qed.
Lemma remaining_zero v ex current :
  view_ok v -> remaining_count v ex current = 0 -> hard_walled v None ({[current]} ∪ ex).
Proof.
  intros Hv H id c Hin Hn _. unfold remaining_count in H. case_match eqn:E; [apply Z.ltb_lt in E; lia|].
  set (l := candidates_of _ _) in H. assert (Hl : List.filter is_hard_eligible l = []) by (destruct (List.filter _ l); [done|cbn in H; lia]).
  rewrite filter_nil_iff in Hl. apply Hl. apply candidates_of_spec; [done|]. rewrite (Hv _ _ Hin). split; [done|].
  apply orb_false_iff. split; apply bool_decide_eq_false; set_solver.
Qed.
End Selection.
Arguments Candidate : clear implicits.

(** ** The decision after an attempt ([pool.rs])
    What the decision and the loop need from a plane's verdicts. *)
Class PlaneVerdict (V E : Type) := {
  verdict_dec :: EqDecision V;
  v_ok : V;
  v_transport : V;
  v_unblamed : V -> bool;   (* the request's own fault, or a changed wire *)
  may_rotate : V -> bool;
  spends_transport_budget : V -> bool;
  effect_none : E;
  effect_for : V -> E }.
Class PlaneVerdictLaws (V E : Type) `{!PlaneVerdict V E} := {
  ok_stays : may_rotate v_ok = false;
  unblamed_stays v : v_unblamed v = true -> may_rotate v = false;
  unblamed_effect v : v_unblamed v = true -> effect_for v = effect_none;
  only_transport_spends v : spends_transport_budget v = true <-> v = v_transport;
  transport_rotates : may_rotate v_transport = true }.

Inductive Phase : Type := BeforeCreate | TaskCreated.
#[global] Instance Phase_eq_dec : EqDecision Phase.
Proof. solve_decision. Defined.
Record AttemptPolicy := mkPolicy { transport_budget : Z }.
Definition AttemptPolicy_default : AttemptPolicy := mkPolicy 3.
Inductive NextStep : Type := RotateToAnotherProfile | SurfaceUpstreamError | SurfaceCapacityExhausted | CreatedStep.
#[global] Instance NextStep_eq_dec : EqDecision NextStep.
Proof. solve_decision. Defined.
Record Decision (E : Type) := mkDecision { next : NextStep; effect : E; policy : AttemptPolicy }.
Arguments mkDecision {E}.
Arguments next {E}.
Arguments effect {E}.
Arguments policy {E}.

Section Decide.
Context {V E : Type} `{!PlaneVerdict V E}.

Definition decide_create (verdict : V) (phase : Phase) (p : AttemptPolicy) (eligible_profiles_left : Z) : Decision E :=
  if bool_decide (verdict = v_ok) then mkDecision CreatedStep effect_none p
  else if bool_decide (phase = TaskCreated) then mkDecision SurfaceUpstreamError (effect_for verdict) p
  else if v_unblamed verdict then mkDecision SurfaceUpstreamError effect_none p
  else if negb (may_rotate verdict) then mkDecision SurfaceUpstreamError (effect_for verdict) p
  else
    let spends := spends_transport_budget verdict in
    let remaining := if spends then Z.max 0 (transport_budget p - 1) else transport_budget p in
    if spends && (remaining =? 0) then mkDecision SurfaceUpstreamError (effect_for verdict) (mkPolicy 0)
    else if eligible_profiles_left =? 0 then mkDecision SurfaceCapacityExhausted (effect_for verdict) (mkPolicy remaining)
    else mkDecision RotateToAnotherProfile (effect_for verdict) (mkPolicy remaining).

Context `{!PlaneVerdictLaws V E}.
Lemma decide_create_exact (v : V) (ph : Phase) (p : AttemptPolicy) (left : Z) :
  let r := decide_create v ph p left in
  (next r = CreatedStep <-> v = v_ok)
  /\ (next r = RotateToAnotherProfile <->
        ph = BeforeCreate /\ may_rotate v = true /\ left <> 0 /\ (v = v_transport -> 2 <= transport_budget p))
  /\ (next r = SurfaceCapacityExhausted -> ph = BeforeCreate /\ left = 0 /\ may_rotate v = true)
  /\ (next r = RotateToAnotherProfile ->
        transport_budget (policy r) = transport_budget p - (if bool_decide (v = v_transport) then 1 else 0))
  /\ (v <> v_ok -> effect r = effect_for v).
Proof.
  intros r. unfold r, decide_create. pose proof (only_transport_spends v) as Ht. pose proof transport_rotates as Htr.
  case_bool_decide as Eok; [rewrite Eok, ok_stays; repeat split; naive_solver|].
  case_bool_decide as Eph; [subst ph; repeat split; naive_solver|].
  assert (ph = BeforeCreate) as -> by (by destruct ph).
  destruct (v_unblamed v) eqn:Eu; [rewrite (unblamed_stays v Eu), (unblamed_effect v Eu); repeat split; naive_solver|].
  destruct (may_rotate v) eqn:Er; cbn; [|repeat split; naive_solver].
  destruct (spends_transport_budget v) eqn:Es.
  - assert (v = v_transport) as -> by (by apply Ht). rewrite bool_decide_eq_true_2 by done. cbn.
    destruct (Z.eqb_spec (Z.max 0 (transport_budget p - 1)) 0), (Z.eqb_spec left 0); cbn; repeat split; intros; destruct_and?; try done; try lia;
      match goal with H : v_transport = v_transport -> _ |- _ => specialize (H eq_refl); lia end.
  - assert (v <> v_transport) by (intros E2; apply Ht in E2; congruence). rewrite bool_decide_eq_false_2 by done. cbn.
    destruct (Z.eqb_spec left 0); cbn; repeat split; intros; destruct_and?; try done; try lia.
Qed.
End Decide.

(** ** The attempt loop ([gateway.rs], the loop of [handle_create]) *)
Section Loop.
Context {V E Hard Soft : Type} `{!PlaneVerdict V E}.
Abbreviation view := (list (string * option (Candidate Hard Soft))).

(** What one attempt meets: the roster its selection reads, the cursor, the
    outcome of the creation, and the roster its count reads. *)
Inductive outcome : Type :=
| Created (upstream_ids : list string)
| Refused (v : V) (status : Z)
| SendFailed
| Unread.
Record attempt_env := mkEnv { ae_view : view; ae_cursor : Z; ae_outcome : outcome; ae_count_view : view }.
Inductive handled : Type :=
| CreatedOn (id : string) (upstream_ids : list string)
| CapacityError
| UpstreamError (status : Z)
| TransportError
| BodyError
| ProtocolError.
Record loop_state := mkLoop { excluded : gset string; loop_policy : AttemptPolicy }.
Definition loop_init : loop_state := mkLoop ∅ AttemptPolicy_default.
(** One attempt as it happened: the profile, the verdict about it and the
    effect on its health, or neither. *)
Record tried := mkTried { t_id : string; t_verdict : option V; t_effect : option E }.

Definition attempt (env : attempt_env) (sticky : option string) (st : loop_state) : list tried * (handled + loop_state) :=
  match select_pinned (ae_view env) (excluded st) sticky (ae_cursor env) with
  | None => ([], inl CapacityError)
  | Some id =>
      let decided v := decide_create v BeforeCreate (loop_policy st) (remaining_count (ae_count_view env) (excluded st) id) in
      let blamed v := [mkTried id (Some v) (Some (effect (decided v)))] in
      let rotated v := mkLoop ({[id]} ∪ excluded st) (policy (decided v)) in
      match ae_outcome env with
      | Created ids => ([mkTried id None None], inl (CreatedOn id ids))
      | Unread => ([mkTried id None None], inl BodyError)
      | SendFailed =>
          (blamed v_transport,
           if bool_decide (next (decided v_transport) = RotateToAnotherProfile) then inr (rotated v_transport) else inl TransportError)
      | Refused v status =>
          (blamed v,
           match next (decided v) with
           | RotateToAnotherProfile => inr (rotated v)
           | SurfaceCapacityExhausted => inl CapacityError
           | SurfaceUpstreamError => inl (UpstreamError status)
           | CreatedStep => inl ProtocolError
           end)
      end
  end.
(** [fuel] bounds the iterations, [None] is running out of it. *)
Fixpoint attempt_loop (fuel : nat) (env : nat -> attempt_env) (sticky : option string) (st : loop_state)
    : option (handled * list tried) :=
  match fuel with
  | O => None
  | S fuel =>
      let '(now_tried, r) := attempt (env 0%nat) sticky st in
      match r with
      | inl out => Some (out, now_tried)
      | inr st' => '(out, trace) ← attempt_loop fuel (fun k => env (S k)) sticky st'; Some (out, now_tried ++ trace)
      end
  end.

(** ** What a run guarantees *)
Definition env_ok (ids : gset string) (env : attempt_env) : Prop :=
  0 <= ae_cursor env /\ view_ok (ae_view env) /\ view_ok (ae_count_view env)
  /\ (forall id, id ∈ map fst (ae_view env) -> id ∈ ids)
  /\ (forall v s, ae_outcome env = Refused v s -> v <> v_ok).
(** After [n] attempts no profile is left: either the selection of the next one
    read a roster in which every profile it may use (the pinned one, when the work
    is pinned) is tried or walled, or the count after the last attempt read a
    roster whose other profiles all are. *)
Definition capacity_exhausted (env : nat -> attempt_env) (sticky : option string) (n : nat) (seen : gset string) : Prop :=
  hard_walled (ae_view (env n)) sticky seen
  \/ exists k, n = S k /\ hard_walled (ae_count_view (env k)) None seen.
Record run_ok (env : nat -> attempt_env) (sticky : option string) (ids : gset string) (st : loop_state)
    (out : handled) (trace : list tried) : Prop := {
  ro_fresh : NoDup (map t_id trace);
  ro_ids : forall x, x ∈ map t_id trace -> x ∈ ids /\ x ∉ excluded st;
  ro_budget : Z.of_nat (length (filter (fun t => t_verdict t = Some v_transport) trace)) <= transport_budget (loop_policy st);
  ro_protocol : out <> ProtocolError;
  ro_created : forall id us, out = CreatedOn id us -> exists before, trace = before ++ [mkTried id None None];
  ro_rotated : forall t, t ∈ removelast trace -> exists v, t_verdict t = Some v /\ may_rotate v = true;
  ro_blame : forall t v, t ∈ trace -> t_verdict t = Some v -> t_effect t = Some (effect_for v);
  ro_capacity : out = CapacityError -> capacity_exhausted env sticky (length trace) (list_to_set (map t_id trace) ∪ excluded st)
}.

Context `{!PlaneVerdictLaws V E}.
Lemma media_attempt_ends env sticky ids st tr out :
  env_ok ids (env 0%nat) -> 1 <= transport_budget (loop_policy st) ->
  attempt (env 0%nat) sticky st = (tr, inl out) -> run_ok env sticky ids st out tr.
Proof.
  intros (Hcur & Hv & Hcv & Hids & Href) Hb. unfold attempt. destruct (select_pinned _ _ _ _) as [id|] eqn:Es.
  2: { intros [= <- <-]. split; cbn; try done; [constructor|set_solver|lia|set_solver|set_solver|].
       intros _. left. rewrite union_empty_l_L. by eapply select_pinned_None. }
  apply select_pinned_Some in Es as (c & Hin & Hex & _); [|done].
  assert (Hid : id ∈ ids) by (apply Hids, list_elem_of_fmap; by exists (id, Some c)).
  assert (Hwall : forall v, next (decide_create v BeforeCreate (loop_policy st)
     (remaining_count (ae_count_view (env 0%nat)) (excluded st) id)) = SurfaceCapacityExhausted ->
     capacity_exhausted env sticky 1 (list_to_set [id] ∪ excluded st)).
  { intros v Hn. apply (decide_create_exact v) in Hn as (_ & Hz & _). right. exists 0%nat. split; [done|].
    cbn. rewrite union_empty_r_L. by apply remaining_zero. }
  assert (Hone : forall v e o, o <> ProtocolError -> (forall i us, o = CreatedOn i us -> i = id /\ v = None /\ e = None) ->
    (forall w, v = Some w -> e = Some (effect_for w)) -> (o = CapacityError -> capacity_exhausted env sticky 1 (list_to_set [id] ∪ excluded st)) ->
    run_ok env sticky ids st o [mkTried id v e]).
  { intros v e o H1 H2 H3 H4. split; try done; [apply NoDup_singleton|set_solver| | |set_solver|].
    - rewrite filter_cons. case_decide; cbn; lia.
    - intros i us Ho. destruct (H2 _ _ Ho) as (-> & -> & ->). by exists [].
    - intros t w ->%list_elem_of_singleton. apply H3. }
  assert (Heff : forall v left, v <> v_ok -> effect (decide_create v BeforeCreate (loop_policy st) left) = effect_for v)
    by (intros; by apply decide_create_exact).
  assert (Htok : v_transport <> v_ok) by (intros E2; pose proof transport_rotates; rewrite E2, ok_stays in *; done).
  destruct (ae_outcome (env 0%nat)) as [us|v s| |] eqn:Eo.
  - intros [= <- <-]. apply Hone; naive_solver.
  - specialize (Href v s eq_refl). intros H. set (d := decide_create v _ _ _) in H.
    assert (next d <> CreatedStep) by (intros E2; by apply decide_create_exact in E2).
    assert (tr = [mkTried id (Some v) (Some (effect d))]) as -> by (by destruct (next d); simplify_eq).
    apply Hone; [by destruct (next d); simplify_eq|by destruct (next d); simplify_eq| |].
    + intros w [= <-]. unfold d. by rewrite Heff.
    + intros ->. apply (Hwall v). fold d. by destruct (next d); simplify_eq.
  - case_bool_decide; [done|]. intros [= <- <-]. apply Hone; [done|done| |done]. intros w [= <-]. by rewrite Heff.
  - intros [= <- <-]. apply Hone; naive_solver.
Qed.
Lemma media_attempt_rotates env sticky ids st tr st' :
  env_ok ids env -> 1 <= transport_budget (loop_policy st) ->
  attempt env sticky st = (tr, inr st') ->
  exists id v, tr = [mkTried id (Some v) (Some (effect_for v))] /\ may_rotate v = true /\ id ∈ ids /\ (id ∉ excluded st)
    /\ excluded st' = {[id]} ∪ excluded st /\ 1 <= transport_budget (loop_policy st')
    /\ transport_budget (loop_policy st') = transport_budget (loop_policy st) - (if bool_decide (v = v_transport) then 1 else 0).
Proof.
  intros (Hcur & Hv & Hcv & Hids & Href) Hb. unfold attempt. destruct (select_pinned _ _ _ _) as [id|] eqn:Es; [|done].
  apply select_pinned_Some in Es as (c & Hin & Hex & _); [|done].
  assert (Hid : id ∈ ids) by (apply Hids, list_elem_of_fmap; by exists (id, Some c)).
  set (left := remaining_count _ _ _). set (d := fun v => decide_create v BeforeCreate (loop_policy st) left).
  intros H. assert (Hd : exists v, next (d v) = RotateToAnotherProfile /\ tr = [mkTried id (Some v) (Some (effect (d v)))]
    /\ st' = mkLoop ({[id]} ∪ excluded st) (policy (d v))).
  { destruct (ae_outcome env) as [us|v s| |]; [done| | |done].
    - exists v. fold (d v) in H. by destruct (next (d v)) eqn:En; simplify_eq.
    - exists v_transport. fold (d v_transport) in H. case_bool_decide; by simplify_eq. }
  clear H. destruct Hd as (v & Hd & -> & ->). exists id, v.
  destruct (decide_create_exact v BeforeCreate (loop_policy st) left) as (H1 & H2 & _ & H4 & H5). fold (d v) in H1, H2, H4, H5.
  assert (v <> v_ok) by (intros E2%H1; congruence). pose proof (proj1 H2 Hd) as (_ & Hr & _ & Hbud).
  rewrite H5 by done. cbn [excluded loop_policy]. specialize (H4 Hd). rewrite H4. repeat split; try done.
  case_bool_decide as E2; [specialize (Hbud E2)|]; lia.
Qed.
Lemma media_run_ok_cons env sticky ids st st' id v out trace :
  id ∈ ids -> id ∉ excluded st -> may_rotate v = true -> excluded st' = {[id]} ∪ excluded st ->
  transport_budget (loop_policy st') = transport_budget (loop_policy st) - (if bool_decide (v = v_transport) then 1 else 0) ->
  run_ok (fun k => env (S k)) sticky ids st' out trace ->
  run_ok env sticky ids st out (mkTried id (Some v) (Some (effect_for v)) :: trace).
Proof.
  intros Hid Hex Hv He Hb [H1 H2 H3 H4 H5 H6 H7 H8]. rewrite He in *. split.
  - cbn. constructor; [|done]. intros Hin%H2. set_solver.
  - intros x [->|Hx%H2]%elem_of_cons; set_solver.
  - rewrite filter_cons. cbn [t_verdict]. destruct (decide (Some v = Some v_transport)) as [Ht|Ht]; rewrite ?length_cons.
    + assert (v = v_transport) by congruence. rewrite bool_decide_eq_true_2 in Hb by done. lia.
    + rewrite bool_decide_eq_false_2 in Hb by (intros ->; by apply Ht). lia.
  - done.
  - intros x us E2. destruct (H5 x us E2) as [before ->]. by exists (mkTried id (Some v) (Some (effect_for v)) :: before).
  - intros t. destruct trace as [|t2 trace]; [cbn; set_solver|]. set (x := mkTried id (Some v) _).
    assert (removelast (x :: t2 :: trace) = x :: removelast (t2 :: trace)) as -> by done. intros [->|Ht]%elem_of_cons; [by exists v|auto].
  - intros t w [->|Ht]%elem_of_cons; [cbn; by intros [= <-]|eauto].
  - intros Ho. unfold capacity_exhausted. cbn [map t_id length]. rewrite list_to_set_cons.
    replace ({[id]} ∪ list_to_set (map t_id trace) ∪ excluded st) with (list_to_set (map t_id trace) ∪ ({[id]} ∪ excluded st) : gset string) by set_solver.
    destruct (H8 Ho) as [Hx|(k & Hk & Hx)]; [by left|]. right. exists (S k). split; [by f_equal|done].
Qed.
Lemma media_attempt_loop_ok fuel env sticky ids st :
  (forall k, env_ok ids (env k)) -> 1 <= transport_budget (loop_policy st) -> (size (ids ∖ excluded st) < fuel)%nat ->
  exists out trace, attempt_loop fuel env sticky st = Some (out, trace) /\ run_ok env sticky ids st out trace.
Proof.
  revert env st. induction fuel as [|fuel IH]; intros env st Henv Hb Hf; [lia|]. cbn.
  destruct (attempt (env 0%nat) sticky st) as [tr [out|st']] eqn:Ea.
  - exists out, tr. split; [done|]. eapply media_attempt_ends; eauto.
  - destruct (media_attempt_rotates _ _ ids _ _ _ (Henv 0%nat) Hb Ea) as (id & v & -> & Hv & Hid & Hex & He & Hb' & Hbe).
    destruct (IH (fun k => env (S k)) st') as (out & trace & -> & Hrun); [intros k; apply Henv|done| |].
    + enough (Hs : (size (ids ∖ excluded st') < size (ids ∖ excluded st))%nat) by lia. apply subset_size. rewrite He. set_solver.
    + eexists _, _. split; [reflexivity|]. eapply media_run_ok_cons; eauto.
Qed.
(** Enough fuel: one more iteration than there are profiles. *)
Lemma attempts_bounded env sticky (ids : gset string) :
  (forall k, env_ok ids (env k)) ->
  exists out trace, attempt_loop (S (size ids)) env sticky loop_init = Some (out, trace)
  /\ run_ok env sticky ids loop_init out trace /\ (length trace <= size ids)%nat.
Proof.
  intros Henv. destruct (media_attempt_loop_ok (S (size ids)) env sticky ids loop_init Henv) as (out & trace & Hh & Hr).
  { cbn. lia. }
  { cbn. rewrite difference_empty_L. lia. }
  exists out, trace. split; [done|]. split; [done|]. destruct Hr as [H1 H2].
  rewrite <- (length_map t_id), <- (size_list_to_set (C:=gset string)) by done. apply subseteq_size.
  intros x Hx%elem_of_list_to_set. by apply H2.
Qed.
(** Pinned work is tried on its profile only. *)
Lemma pinned_trace fuel env p st out trace :
  attempt_loop fuel env (Some p) st = Some (out, trace) -> forall t, t ∈ trace -> t_id t = p.
Proof.
  revert env st trace. induction fuel as [|fuel IH]; intros env st trace; [done|]. cbn [attempt_loop].
  destruct (attempt (env 0%nat) (Some p) st) as [tr r] eqn:Ea.
  assert (Htr : forall t, t ∈ tr -> t_id t = p).
  { unfold attempt in Ea. destruct (select_pinned _ _ _ _) as [id|] eqn:Es; [|injection Ea as <- _; set_solver].
    apply select_pinned_id in Es as ->. intros t Ht. destruct (ae_outcome (env 0%nat)); injection Ea as <- _; set_solver. }
  destruct r as [o|st']; [by intros [= <- <-]|]. destruct (attempt_loop fuel _ _ st') as [[o tr']|] eqn:El; cbn; [|done].
  intros [= <- <-] t [Ht|Ht]%elem_of_app; [by apply Htr|]. by eapply (IH (fun k => env (S k))).
Qed.
(** A request that was answered, whether or not the answer was read, is the last
    one unless the answer was a refusal. *)
Lemma answered_is_last fuel env sticky st out trace k :
  attempt_loop fuel env sticky st = Some (out, trace) -> (exists ids, ae_outcome (env k) = Created ids) \/ ae_outcome (env k) = Unread ->
  (length trace <= S k)%nat.
Proof.
  revert env st trace k. induction fuel as [|fuel IH]; intros env st trace k; [done|]. cbn [attempt_loop].
  destruct (attempt (env 0%nat) sticky st) as [tr r] eqn:Ea. unfold attempt in Ea.
  assert (Hl : (length tr <= 1)%nat) by (repeat case_match; injection Ea as <- _; cbn; lia).
  destruct r as [o|st']; [intros [= <- <-]; lia|]. destruct (attempt_loop fuel _ _ st') as [[o tr']|] eqn:El; cbn; [|done].
  intros [= <- <-] Hk. destruct k as [|k].
  - exfalso. destruct (select_pinned _ _ _ _); [|done]. destruct Hk as [[ids Hk]|Hk]; by rewrite Hk in Ea.
  - rewrite length_app. specialize (IH _ _ _ k El Hk). lia.
Qed.
End Loop.

(** ** The plane's own failures and answers ([gateway.rs]) *)
Inductive GatewayFailure : Type :=
| F_Auth | F_Transport | F_Protocol | F_Capacity | F_LowBalance
| F_BadRequest (code : string) | F_Unsupported (code : string) | F_Unavailable (code : string) | F_Upstream (status : Z).
Record Response := mkResponse { rs_status : Z; rs_kind : string; rs_reason : string; rs_retry_after : option Z }.

Section Answers.
(** The name of the plane, which prefixes its reasons. *)
Context (plane : string).
Definition error_response_with_retry (f : GatewayFailure) (capacity_retry_after : Z) : Response :=
  match f with
  | F_Auth => mkResponse 503 "overloaded" (plane +:+ "_auth_unavailable") (Some 2)
  | F_Transport | F_Protocol => mkResponse 503 "overloaded" (plane +:+ "_upstream_unavailable") (Some 2)
  | F_Capacity => mkResponse 429 "rate_limit" (plane +:+ "_capacity_exhausted") (Some (Z.max capacity_retry_after 1))
  | F_LowBalance => mkResponse 402 "invalid_request" "billing_limit" None
  | F_BadRequest code | F_Unsupported code => mkResponse 400 "invalid_request" code None
  | F_Unavailable code => mkResponse 503 "overloaded" code (Some 2)
  | F_Upstream status =>
      if status =? 404 then mkResponse 404 "not_found" (plane +:+ "_upstream_rejected") None
      else if between 400 499 status then mkResponse 400 "invalid_request" (plane +:+ "_upstream_rejected") None
      else mkResponse 503 "overloaded" (plane +:+ "_upstream_rejected") (Some 2)
  end.
Definition error_response (f : GatewayFailure) : Response := error_response_with_retry f 60.

(** ** Money around a creation *)
Record BillingInput := mkInput { in_account : string; in_key : string; in_mult_bp : Z; in_available_nano : Z }.
Record Reservation := mkReservation { rv_account : string; rv_key : string; rv_hold : Z; rv_mult_bp : Z }.
Definition HOLD_NANO : Z := 0.
(** What the billing authority says: whether it is there, the reservation call
    (an error, or granted or not), whether the delivery marker was written, and
    whether background work is still accepted. *)
Record authority := mkAuthority { au_present : bool; au_reserve : option bool; au_marked : bool; au_tracked : bool }.
(** [priced] is whether the reserve converts to nanodollars. *)
Definition reserve_customer (au : authority) (priced : bool) (input : option BillingInput) : result GatewayFailure (option Reservation) :=
  match input with
  | None => Ok None
  | Some input =>
      _ ← guard_ok (au_present au) (F_Unavailable (plane +:+ "_billing_authority_unavailable"));
      _ ← guard_ok priced (F_Unavailable (plane +:+ "_price_overflow"));
      _ ← guard_ok (negb ((0 <? in_mult_bp input) && (in_available_nano input <=? 0))) F_LowBalance;
      match au_reserve au with
      | None => Err (F_Unavailable (plane +:+ "_reservation_unavailable"))
      | Some true => Ok (Some (mkReservation (in_account input) (in_key input) HOLD_NANO (in_mult_bp input)))
      | Some false => Err F_LowBalance
      end
  end.
Definition mark_delivering (au : authority) (r : option Reservation) : bool :=
  match r with None => true | Some _ => au_present au && au_marked au end.
(** What becomes of the hold when the handler returns: none was taken, the armed
    guard closes it at nothing, or the disarmed guard leaves it. *)
Inductive hold_fate : Type := NoHold | Refunded | LeftOpen.
Record drain := mkDrain { dr_profile : string; dr_upstream_ids : list string; dr_reservation : option Reservation }.
Definition armed (r : option Reservation) : hold_fate := match r with Some _ => Refunded | None => NoHold end.
Definition disarmed (r : option Reservation) : hold_fate := match r with Some _ => LeftOpen | None => NoHold end.
(** The money boundary: after the provider created the task. *)
Definition finish_create (au : authority) (ok : Response) (r : option Reservation) (id : string) (ids : list string)
    : Response * hold_fate * option drain :=
  if negb (mark_delivering au r) then
    (error_response (F_Unavailable (plane +:+ "_delivery_marker_unavailable")), armed r,
     if au_tracked au then Some (mkDrain id ids None) else None)
  else if negb (au_tracked au) then (error_response (F_Unavailable (plane +:+ "_shutdown")), disarmed r, None)
  else (ok, disarmed r, Some (mkDrain id ids r)).
(** The answer to the outcome of the attempts. *)
Definition conclude (au : authority) (retry_after : Z) (ok : Response) (r : option Reservation) (out : handled)
    : Response * hold_fate * option drain :=
  let failed f := (error_response f, armed r, None) in
  match out with
  | CreatedOn id ids => finish_create au ok r id ids
  | CapacityError => (error_response_with_retry F_Capacity retry_after, armed r, None)
  | UpstreamError status => failed (F_Upstream status)
  | TransportError => failed F_Transport
  | BodyError => failed F_Transport
  | ProtocolError => failed F_Protocol
  end.

Lemma error_status f n : rs_status (error_response_with_retry f n) <> 200 /\ (rs_status (error_response_with_retry f n) = 429 -> f = F_Capacity).
Proof. destruct f; cbn; try done. repeat case_match; done. Qed.
(** Nothing before the attempts reports exhausted capacity. *)
Definition no_capacity {A} (m : result GatewayFailure A) : Prop := m <> Err F_Capacity.
Lemma no_capacity_bind {A B} (m : result GatewayFailure A) (f : A -> result GatewayFailure B) :
  no_capacity m -> (forall a, no_capacity (f a)) -> no_capacity (m ≫= f).
Proof. unfold no_capacity. destruct m; cbn; [auto|]. intros H _ [= ->]. by apply H. Qed.
Lemma no_capacity_ok_or {A} (o : option A) f : f <> F_Capacity -> no_capacity (ok_or o f).
Proof. destruct o; cbn; [done|]. by intros H [= ->]. Qed.
Lemma no_capacity_guard b f : f <> F_Capacity -> no_capacity (guard_ok b f).
Proof. destruct b; cbn; [done|]. by intros H [= ->]. Qed.
Lemma reserve_no_capacity au priced input : no_capacity (reserve_customer au priced input).
Proof.
  unfold reserve_customer. destruct input; [|done]. apply no_capacity_bind; [by apply no_capacity_guard|]. intros _.
  apply no_capacity_bind; [by apply no_capacity_guard|]. intros _. apply no_capacity_bind; [by apply no_capacity_guard|].
  intros _. by destruct (au_reserve au) as [[]|].
Qed.
(** One owner of the hold, and success only with a drain. *)
Lemma conclude_spec au retry_after ok r out resp hold d :
  rs_status ok = 200 -> conclude au retry_after ok r out = (resp, hold, d) ->
  (rs_status resp = 200 -> d <> None /\ hold <> Refunded)
  /\ (forall x, d = Some x -> (exists ids, out = CreatedOn (dr_profile x) ids) /\ (dr_reservation x <> None -> hold = LeftOpen))
  /\ (hold = LeftOpen -> exists id ids, out = CreatedOn id ids)
  /\ (rs_status resp = 429 -> out = CapacityError).
Proof.
  intros Hok. assert (Hfail : forall f n, f <> F_Capacity -> (error_response_with_retry f n, armed r, None) = (resp, hold, d) ->
    (forall id ids, out <> CreatedOn id ids) ->
    (rs_status resp = 200 -> d <> None /\ hold <> Refunded)
    /\ (forall x, d = Some x -> (exists ids, out = CreatedOn (dr_profile x) ids) /\ (dr_reservation x <> None -> hold = LeftOpen))
    /\ (hold = LeftOpen -> exists id ids, out = CreatedOn id ids) /\ (rs_status resp = 429 -> out = CapacityError)).
  { intros f n Hf [= <- <- <-] Ho. pose proof (error_status f n) as [E1 E2]. split; [by intros ?%E1|]. split; [done|].
    split; [by destruct r|]. intros ?%E2. by subst. }
  destruct out as [id ids| |s| | |]; cbn [conclude]; intros H; try by eapply Hfail; [|exact H|].
  - unfold finish_create in H. destruct (negb (mark_delivering au r)).
    + injection H as <- <- <-. destruct r, (au_tracked au); cbn; repeat split; try done; naive_solver.
    + destruct (au_tracked au); cbn in H; injection H as <- <- <-; destruct r; cbn; repeat split; try done; try congruence; naive_solver.
  - injection H as <- <- <-. split; [done|]. split; [done|]. split; [by destruct r|done].
Qed.
End Answers.
#[export] Hint Resolve no_capacity_ok_or no_capacity_guard : core.
(** [no_capacity]: step through monadic code none of whose failures is the one
    for exhausted capacity. *)
Ltac no_capacity := repeat (first [solve [eauto] | apply no_capacity_bind; [|intros ?] | done | case_match; try done]).

(** ** Reading headers and request bodies *)
Definition parse_retry_after (value : string) : option Z :=
  seconds ← parse_i64 (trim value); if 0 <? seconds then Some seconds else None.
Definition as_strings (v : Value) : option (list string) := match v with VArray l => mapM as_str l | _ => None end.
(** A missing or null option is absent. *)
Definition opt_field {A} (read : Value -> option A) (k : string) (v : Value) : option (option A) :=
  match get k v with None | Some VNull => Some None | Some x => Some <$> read x end.
Definition is_given {A} (o : option A) : bool := match o with Some _ => true | None => false end.
Definition MAX_ID_LEN : Z := 128.
Definition bounded_text (value : string) (max : Z) : bool :=
  negb (bool_decide (value = EmptyString)) && (str_len value <=? max) && all_bytes (fun c => negb (byte_of c <? 8)) value.
(** An optional text control: checked and forwarded, or absent. *)
Definition text_control (v : option string) (max : Z) (wire err : string) : result GatewayFailure (list (string * Value)) :=
  match v with
  | None => Ok []
  | Some t => if bounded_text t max then Ok [(wire, VString t)] else Err (F_BadRequest err)
  end.
Definition required_id (v : option string) (missing invalid : string) : result GatewayFailure string :=
  v ← ok_or v (F_BadRequest missing);
  if bounded_text v MAX_ID_LEN then Ok v else Err (F_BadRequest invalid).
