(* ===== verification/MediaLease.v ===== *)
(** * Leases of a media profile and the readers of its quota
    ([ProfileLease], [precheck_and_create], [finalize_generation] and
    [poll_profile_quota] of [crates/forward/src/suno/gateway.rs]; the leases and
    the poll are the same in [crates/forward/src/tripo3d/gateway.rs])

    One profile's two counters and the provider's ledger of spent credits, under
    every interleaving of the requests that hold a lease on it.  A lease is taken
    in two atomic steps and dropped in one; readers load the counters and read the
    ledger at points of their own.  The ledger itself is the provider's: besides
    the generations that hold a lease it is moved by those whose lease is gone (an
    acceptance that was not read, a drain that gave up) and by whatever else uses
    the account. *)
From S2P Require Import Prelude.

(** ** Steps *)
Inductive lease_phase : Type := Counted | Published.
#[global] Instance lease_phase_eq_dec : EqDecision lease_phase.
Proof. solve_decision. Defined.
(** [gone]: the leases that were dropped. *)
Record world := mkWorld { inflight : Z; turn_epoch : Z; spent : Z; leases : gmap nat lease_phase; gone : gset nat }.
Definition world_init : world := mkWorld 0 0 0 ∅ ∅.
(** [ProfileLease::new] is [Count] then [Publish]; dropping the lease is
    [Release]; a generation spends from the publication of its lease on, whether
    or not the lease is still held; [Outside] is a movement that is no request's. *)
Inductive label : Type :=
  Count (l : nat) | Publish (l : nat) | Spend (l : nat) (credits : Z) | Outside (credits : Z) | Release (l : nat).
(** [None]: the step is not the lease's next one. *)
Definition exec (w : world) (a : label) : option world :=
  let '(mkWorld i e s ls g) := w in
  match a with
  | Count l => match ls !! l with None => if bool_decide (l ∈ g) then None else Some (mkWorld (i + 1) e s (<[l := Counted]> ls) g) | Some _ => None end
  | Publish l => match ls !! l with Some Counted => Some (mkWorld i (e + 1) s (<[l := Published]> ls) g) | _ => None end
  | Spend l n =>
      if (bool_decide (ls !! l = Some Published) || bool_decide (l ∈ g)) && (0 <=? n) then Some (mkWorld i e (s + n) ls g) else None
  | Outside n => if 0 <=? n then Some (mkWorld i e (s + n) ls g) else None
  | Release l => match ls !! l with Some Published => Some (mkWorld (i - 1) e s (delete l ls) ({[l]} ∪ g)) | _ => None end
  end.
Fixpoint execs (w : world) (t : list label) : option world :=
  match t with [] => Some w | a :: t => exec w a ≫= fun w => execs w t end.

(** ** Who spent what
    A movement has a spender, a lease or nobody; the sum over the movements whose
    spender satisfies [who] in the world they happen in. *)
Definition movement (a : label) : option (option nat * Z) :=
  match a with Spend l n => Some (Some l, n) | Outside n => Some (None, n) | _ => None end.
Fixpoint spends (who : world -> option nat -> bool) (w : world) (t : list label) : Z :=
  match t with
  | [] => 0
  | a :: t =>
      match movement a with Some (l, n) => if who w l then n else 0 | None => 0 end
      + match exec w a with Some w => spends who w t | None => 0 end
  end.
Definition holds_lease (w : world) (l : option nat) : bool :=
  match l with Some l => bool_decide (leases w !! l = Some Published) | None => false end.
Definition anyone (_ : world) (_ : option nat) : bool := true.
(** The lease [m] itself, the other holders of a lease, and the rest. *)
Definition owner (m : nat) (_ : world) (l : option nat) : bool := bool_decide (l = Some m).
Definition other_holder (m : nat) (w : world) (l : option nat) : bool := negb (owner m w l) && holds_lease w l.
Definition leaseless (m : nat) (w : world) (l : option nat) : bool := negb (owner m w l) && negb (holds_lease w l).

(** ** Readers *)
(** The quota poll's two loads, epoch first, and their repetition. *)
Definition poll_opens (loaded_epoch_at loaded_inflight_at : world) : option Z :=
  if inflight loaded_inflight_at =? 0 then Some (turn_epoch loaded_epoch_at) else None.
Definition poll_confirms (epoch : Z) (loaded_epoch_at loaded_inflight_at : world) : bool :=
  negb (negb (turn_epoch loaded_epoch_at =? epoch) || negb (inflight loaded_inflight_at =? 0)).
(** The attribution baseline of a creation, in-flight count first. *)
Definition baseline_epoch (loaded_inflight_at loaded_epoch_at : world) : option Z :=
  if inflight loaded_inflight_at =? 1 then Some (turn_epoch loaded_epoch_at) else None.
(** The attributed movement: the ledger before and after, when the epoch did not move. *)
Definition attributed (before : Z) (epoch : Z) (after : Z) (loaded_epoch_at : world) : option Z :=
  if turn_epoch loaded_epoch_at =? epoch then Some (after - before) else None.

(** ** The counters describe the leases *)
Definition counted_inv (w : world) : Prop := inflight w = Z.of_nat (size (leases w)).
(** [exec_cases H]: one goal per step that can be taken. *)
Ltac exec_cases H :=
  match type of H with
  | exec ?w ?a = Some _ =>
      destruct w as [i e s ls g]; destruct a as [lx|lx|lx nx|nx|lx]; cbn in H |- *; repeat (case_match; try discriminate H); injection H as <-; cbn
  end.
Lemma exec_inv w a w' : exec w a = Some w' -> counted_inv w -> counted_inv w'.
Proof.
  unfold counted_inv. intros H. exec_cases H; try done; intros ->.
  - rewrite map_size_insert_None by done. lia.
  - rewrite map_size_insert_Some; [done|by eexists].
  - rewrite map_size_delete. case_match; simplify_eq. assert (size ls <> 0%nat); [|lia]. intros Hz%map_size_empty_inv. by subst.
Qed.
Lemma execs_cons w a t w' : execs w (a :: t) = Some w' -> exists w1, exec w a = Some w1 /\ execs w1 t = Some w'.
Proof. cbn. destruct (exec w a); [eauto|done]. Qed.
Lemma execs_inv t w w' : execs w t = Some w' -> counted_inv w -> counted_inv w'.
Proof.
  revert w. induction t as [|a t IH]; intros w; [by intros [= ->]|]. intros (w1 & E & H)%execs_cons Hi.
  eapply IH; [done|]. by eapply exec_inv.
Qed.
Lemma execs_app t t' w w' : execs w (t ++ t') = Some w' <-> exists m, execs w t = Some m /\ execs m t' = Some w'.
Proof.
  revert w. induction t as [|a t IH]; cbn; intros w; [naive_solver|]. destruct (exec w a); cbn; [apply IH|naive_solver].
Qed.
(** The epoch counts the publications. *)
Fixpoint publications (t : list label) : list nat :=
  match t with [] => [] | Publish l :: t => l :: publications t | _ :: t => publications t end.
Lemma execs_epoch t w w' : execs w t = Some w' -> turn_epoch w' = turn_epoch w + Z.of_nat (length (publications t)).
Proof.
  revert w. induction t as [|a t IH]; intros w; [intros [= ->]; cbn; lia|].
  intros (w1 & E & H%IH)%execs_cons. exec_cases E; cbn in *; lia.
Qed.
Lemma publications_app t t' : publications (t ++ t') = publications t ++ publications t'.
Proof. induction t as [|[] t IH]; cbn; [done|exact IH|by rewrite IH|exact IH..]. Qed.

(** ** Sums of movements *)
Lemma spends_app who t t' w w1 : execs w t = Some w1 -> spends who w (t ++ t') = spends who w t + spends who w1 t'.
Proof.
  revert w. induction t as [|a t IH]; intros w; [by intros [= ->]|]. intros (w2 & E & H)%execs_cons.
  cbn [app spends]. rewrite E, (IH _ H). lia.
Qed.
Lemma spends_ext p q t w : (forall w l, p w l = q w l) -> spends p w t = spends q w t.
Proof.
  intros Hpq. revert w. induction t as [|a t IH]; intros w; [done|]. cbn [spends]. f_equal.
  - destruct (movement a) as [[l n]|]; [by rewrite Hpq|done].
  - by destruct (exec w a).
Qed.
Lemma spends_split p q t w : spends p w t = spends (fun w l => q w l && p w l) w t + spends (fun w l => negb (q w l) && p w l) w t.
Proof.
  revert w. induction t as [|a t IH]; intros w; [done|]. cbn [spends].
  assert (forall l n, (if p w l then n else 0) = (if q w l && p w l then n else 0) + (if negb (q w l) && p w l then n else 0)) as Hn
    by (intros l n; destruct (p w l), (q w l); cbn; lia).
  destruct (exec w a) as [w1|]; [rewrite (IH w1)|]; destruct (movement a) as [[l n]|]; rewrite ?(Hn l n); lia.
Qed.
Lemma execs_spent t w w' : execs w t = Some w' -> spent w' - spent w = spends anyone w t.
Proof.
  revert w. induction t as [|a t IH]; intros w; [intros [= ->]; cbn; lia|]. intros (w1 & E & H)%execs_cons.
  cbn [spends]. rewrite E, <- (IH _ H). clear IH H. exec_cases E; lia.
Qed.
(** Everything that moved is the lease's own, another holder's, or nobody's. *)
Lemma spends_owners m t w : spends anyone w t = spends (owner m) w t + spends (other_holder m) w t + spends (leaseless m) w t.
Proof.
  rewrite (spends_split anyone (owner m)), (spends_split (fun w l => negb (owner m w l) && anyone w l) holds_lease).
  rewrite (spends_ext _ (owner m) t w) by (intros; by rewrite andb_true_r).
  rewrite (spends_ext (fun w l => holds_lease w l && _) (other_holder m) t w) by (intros; unfold other_holder; by rewrite andb_true_r, andb_comm).
  rewrite (spends_ext (fun w l => negb (holds_lease w l) && _) (leaseless m) t w) by (intros; unfold leaseless; by rewrite andb_true_r, andb_comm).
  lia.
Qed.
(** Nobody satisfying [P] takes a lease who has none and does not publish. *)
Lemma exec_published w a w' l : exec w a = Some w' -> leases w !! l <> Some Published -> (forall k, a = Publish k -> k <> l) ->
  leases w' !! l <> Some Published.
Proof.
  intros H Hn Hp. exec_cases H; cbn in Hn; try done;
    (destruct (decide (lx = l)) as [->|]; [rewrite ?lookup_insert_eq, ?lookup_delete_eq|rewrite ?lookup_insert_ne, ?lookup_delete_ne by done]); try done.
  by destruct (Hp l eq_refl).
Qed.
Lemma holders_silent (P : nat -> Prop) who t w w' :
  execs w t = Some w' -> (forall l, P l -> leases w !! l <> Some Published) -> (forall l, l ∈ publications t -> ~ P l) ->
  (forall w l, who w l = true -> exists k, l = Some k /\ P k /\ leases w !! k = Some Published) ->
  spends who w t = 0 /\ forall l, P l -> leases w' !! l <> Some Published.
Proof.
  intros H Hn Hp Hw. revert w H Hn Hp. induction t as [|a t IH]; intros w; [by intros [= ->]|].
  intros (w1 & E & H)%execs_cons Hn Hp. cbn [spends]. rewrite E.
  destruct (IH w1 H) as [-> Hl].
  - intros l Hl. eapply exec_published; [exact E|by apply Hn|]. intros k -> ->. by apply (Hp l); [cbn; by left|].
  - intros l Hl. apply Hp. destruct a; cbn; try done. by right.
  - split; [|done]. destruct (movement a) as [[l n]|]; [|done]. destruct (who w l) eqn:Ew; [|done].
    apply Hw in Ew as (k & _ & HPk & Hk). by destruct (Hn k HPk).
Qed.

(** ** The readers *)
Lemma quiet_epochs w0 t0 w1 t1 w2 :
  execs w0 t0 = Some w1 -> execs w1 t1 = Some w2 -> turn_epoch w2 = turn_epoch w0 -> publications t0 = [] /\ publications t1 = [].
Proof.
  intros H0%execs_epoch H1%execs_epoch E. destruct (publications t0), (publications t1); cbn in *; try done; lia.
Qed.
Lemma no_lease w l : counted_inv w -> inflight w = 0 -> leases w !! l = None.
Proof. unfold counted_inv. intros -> H. assert (Hz : size (leases w) = 0%nat) by lia. apply map_size_empty_inv in Hz. by rewrite Hz. Qed.
Lemma sole_lease w m ph l : counted_inv w -> inflight w = 1 -> leases w !! m = Some ph -> l <> m -> leases w !! l = None.
Proof.
  unfold counted_inv. intros -> H Hm Hl. assert (Hz : size (delete m (leases w)) = 0%nat) by (rewrite map_size_delete, Hm; lia).
  apply map_size_empty_inv in Hz. by rewrite <- (lookup_delete_ne _ m), Hz.
Qed.

(** The quota poll never pairs a reading with leased work in progress.  Whatever
    the requests on the profile do between its steps, when the poll opens, reads
    the ledger and its loads confirm, then no lease was out when it opened, no
    holder of a lease spent anything until its second load of the epoch, and the
    reading is exactly what was spent before it opened and what moved since
    without a lease. *)
Theorem poll_reads_idle_profile (history t0 t1 t2 t3 : list label) (w0 w1 w2 w3 w4 : world) (epoch : Z) :
  execs world_init history = Some w0 -> execs w0 t0 = Some w1 -> execs w1 t1 = Some w2 ->
  execs w2 t2 = Some w3 -> execs w3 t3 = Some w4 ->
  poll_opens w0 w1 = Some epoch -> poll_confirms epoch w3 w4 = true ->
  leases w1 = ∅ /\ spends holds_lease w1 (t1 ++ t2) = 0
  /\ spent w2 = spends anyone world_init (history ++ t0) + spends (fun w l => negb (holds_lease w l)) w1 t1.
Proof.
  intros Hh H0 H1 H2 H3. unfold poll_opens, poll_confirms. destruct (Z.eqb_spec (inflight w1) 0) as [Hi|]; [|done]. intros [= <-].
  destruct (Z.eqb_spec (turn_epoch w3) (turn_epoch w0)) as [He|]; [|done]. intros _.
  assert (Hinv : counted_inv w1) by (eapply execs_inv; [exact H0|]; by eapply execs_inv; [exact Hh|]).
  assert (H12 : execs w1 (t1 ++ t2) = Some w3) by (apply execs_app; eauto).
  destruct (quiet_epochs _ _ _ _ _ H0 H12 He) as [_ Hq].
  assert (Hsil : forall t w', execs w1 t = Some w' -> publications t = [] -> spends holds_lease w1 t = 0).
  { intros t w' Ht Hp. apply (holders_silent (fun _ => True) _ _ _ _ Ht); [intros l _; by rewrite no_lease|rewrite Hp; set_solver|].
    intros w [l|]; [|done]. cbn. rewrite bool_decide_eq_true. eauto. }
  split; [apply map_empty; intros l; by apply no_lease|]. split; [by eapply Hsil|].
  assert (Ha : execs world_init (history ++ t0) = Some w1) by (apply execs_app; eauto). apply execs_spent in Ha. cbn in Ha.
  apply execs_spent in H1 as Hs. rewrite (spends_split anyone holds_lease) in Hs.
  rewrite (spends_ext _ holds_lease) in Hs by (intros; by rewrite andb_true_r).
  rewrite (spends_ext (fun w l => negb _ && _) (fun w l => negb (holds_lease w l))) in Hs by (intros; by rewrite andb_true_r).
  rewrite (Hsil _ _ H1) in Hs by (rewrite publications_app in Hq; by apply app_nil in Hq as [-> _]). lia.
Qed.

(** C24: What an attributed movement of the ledger is.  The lease [m] of a
    creation is out when the in-flight count is loaded.  If no other holder of a
    lease spent anything between the reading of the baseline and that load, if no
    other lease was published between the load of the count and the load of the
    epoch, and if the movement is attributed, then, whatever everyone does
    afterwards, the movement is exactly what [m] spent plus what moved in the
    window without a lease: generations whose lease was already dropped, and
    anything outside this process.  When nothing of that kind moved, it is exactly
    what [m] spent. *)
Theorem attribution_exact (m : nat) (history t0 t1 t2 t3 : list label) (w0 w1 w2 w3 w4 : world) (epoch delta : Z) :
  execs world_init history = Some w0 -> execs w0 t0 = Some w1 -> execs w1 t1 = Some w2 ->
  execs w2 t2 = Some w3 -> execs w3 t3 = Some w4 ->
  leases w1 !! m = Some Published ->
  spends (other_holder m) w0 t0 = 0 -> (forall l, l ∈ publications t1 -> l = m) ->
  baseline_epoch w1 w2 = Some epoch -> attributed (spent w0) epoch (spent w3) w4 = Some delta ->
  delta = spends (owner m) w0 (t0 ++ t1 ++ t2) + spends (leaseless m) w0 (t0 ++ t1 ++ t2)
  /\ (spends (leaseless m) w0 (t0 ++ t1 ++ t2) = 0 -> delta = spends (owner m) w0 (t0 ++ t1 ++ t2)).
Proof.
  intros Hh H0 H1 H2 H3 Hm Hgap Hpub. unfold baseline_epoch, attributed.
  destruct (Z.eqb_spec (inflight w1) 1) as [Hi|]; [|done]. intros [= <-].
  destruct (Z.eqb_spec (turn_epoch w4) (turn_epoch w2)) as [He|]; [|done]. intros [= <-].
  assert (Hinv : counted_inv w1) by (eapply execs_inv; [exact H0|]; by eapply execs_inv; [exact Hh|]).
  assert (H12 : execs w1 (t1 ++ t2) = Some w3) by (apply execs_app; eauto).
  assert (H012 : execs w0 (t0 ++ t1 ++ t2) = Some w3) by (apply execs_app; eauto).
  destruct (quiet_epochs _ _ _ _ _ H2 H3 He) as [Hq _].
  assert (Hsil : spends (other_holder m) w1 (t1 ++ t2) = 0).
  { apply (holders_silent (fun l => l <> m) _ _ _ _ H12).
    - intros l Hl. by rewrite (sole_lease w1 m Published).
    - intros l. rewrite publications_app, Hq, app_nil_r. intros Hl%Hpub. by intros [].
    - intros w [l|]; unfold other_holder, owner; cbn; [|by rewrite andb_false_r].
      rewrite andb_true_iff, negb_true_iff, bool_decide_eq_false, bool_decide_eq_true. intros [Hl ?].
      exists l. split; [done|]. split; [|done]. intros ->. by apply Hl. }
  pose proof (execs_spent _ _ _ H012) as Hs. rewrite (spends_owners m), (spends_app (other_holder m) _ _ _ _ H0) in Hs. lia.
Qed.

(** ** Where the attribution is not protected
    The baseline loads the in-flight count before the epoch, and the epoch after
    the reading: two gaps in which another generation stays unseen.  A lease that
    was dropped while its generation still runs leaves no trace in either. *)
Definition mine : nat := 0.
Definition other : nat := 1.
Definition at_ (t : list label) : world := default world_init (execs world_init t).
Definition attribution_of (t0 t1 t2 t3 : list label) (history : list label) : option Z :=
  let w0 := at_ history in
  let w1 := at_ (history ++ t0) in
  let w2 := at_ (history ++ t0 ++ t1) in
  let w3 := at_ (history ++ t0 ++ t1 ++ t2) in
  let w4 := at_ (history ++ t0 ++ t1 ++ t2 ++ t3) in
  e ← baseline_epoch w1 w2; attributed (spent w0) e (spent w3) w4.
(** A generation that starts, spends and ends while the billing answer is under
    way is charged to this one. *)
Example overlap_during_reading :
  attribution_of [Count other; Publish other; Spend other 50; Release other] [] [Spend mine 5] []
    [Count mine; Publish mine] = Some 55.
Proof. vm_compute. reflexivity. Qed.
(** So is one that takes its lease between the two loads. *)
Example overlap_between_loads :
  attribution_of [] [Count other; Publish other] [Spend other 50; Spend mine 5] []
    [Count mine; Publish mine] = Some 55.
Proof. vm_compute. reflexivity. Qed.
(** So is one whose lease was dropped before, with its answer unread or its drain
    given up, and that the provider finishes now. *)
Definition orphan_history : list label := [Count other; Publish other; Release other; Count mine; Publish mine].
Example orphan_charged_to_next :
  attribution_of [] [] [Spend other 50; Spend mine 5] [] orphan_history = Some 55.
Proof. vm_compute. reflexivity. Qed.
Lemma poll_reads_idle_profile_witness :
  let history := [Count 0; Publish 0; Spend 0 5; Release 0]%nat in
  spent (at_ history) = 5 /\ leases (at_ history) = ∅.
Proof.
  intros history.
  destruct (poll_reads_idle_profile history [] [] [Count 1%nat] [Publish 1%nat; Release 1%nat] (at_ history) (at_ history) (at_ history)
    (at_ (history ++ [Count 1%nat])) (at_ (history ++ [Count 1%nat; Publish 1%nat; Release 1%nat])) 1) as (H1 & _ & H4);
    try (vm_compute; reflexivity).
  split; [exact H4|exact H1].
Defined.
(** The orphan's fifty credits are accounted for as a movement without a lease. *)
Lemma attribution_exact_witness :
  55 = spends (owner mine) (at_ orphan_history) [Spend other 50; Spend mine 5; Count 2]
       + spends (leaseless mine) (at_ orphan_history) [Spend other 50; Spend mine 5; Count 2]
  /\ spends (owner mine) (at_ orphan_history) [Spend other 50; Spend mine 5; Count 2] = 5.
Proof.
  split; [|vm_compute; reflexivity].
  refine (proj1 (attribution_exact mine orphan_history [] [] [Spend other 50; Spend mine 5; Count 2%nat] []
    (at_ orphan_history) (at_ orphan_history) (at_ orphan_history)
    (at_ (orphan_history ++ [Spend other 50; Spend mine 5; Count 2%nat])) (at_ (orphan_history ++ [Spend other 50; Spend mine 5; Count 2%nat])) 2 55
    _ _ _ _ _ _ _ _ _ _)); try (vm_compute; reflexivity).
  intros a Ha. by apply elem_of_nil in Ha.
Defined.
