(* ===== verification/MediaDrain.v ===== *)
(** * What the media planes do after a creation
    ([crates/forward/src/suno/gateway.rs], [crates/forward/src/tripo3d/gateway.rs])

    The records customers read, the calls that settle a reservation, and the
    detached drain with its deadline.  The two planes run the same code over
    different payloads: [K] is the kind of work, [X] what a pending poll publishes
    beside its status, [F] what a poll finds finished and [T] the turn event. *)
From S2P Require Import Prelude Text Tariffs MediaPlane.
#[local] Open Scope Z_scope.

(** ** Records *)
Definition TRACK_CAPACITY : Z := 65536.
Record tracked (K X : Type) := mkRecord {
  g_kind : K; g_account : option string; g_status : string; g_extra : X; g_artifacts : list string;
  g_created_at : Z; g_updated_at : Z; g_error : option string; g_finalized : bool }.
Arguments mkRecord {K X}.
Arguments g_kind {K X}.
Arguments g_account {K X}.
Arguments g_status {K X}.
Arguments g_extra {K X}.
Arguments g_artifacts {K X}.
Arguments g_created_at {K X}.
Arguments g_updated_at {K X}.
Arguments g_error {K X}.
Arguments g_finalized {K X}.

Section Records.
Context {K X : Type}.
Abbreviation records := (gmap string (tracked K X)).
(** The first least-recently updated finalized record in the iteration order of
    the map, if there is one. *)
Definition oldest_finalized (entries : list (string * tracked K X)) : option string :=
  fst <$> min_by_key (fun e => g_updated_at e.2) (List.filter (fun e => g_finalized e.2) entries).
Definition track_record (entries : list (string * tracked K X)) (g : records) (request_id : string)
    (k : K) (x : X) (account : option string) (now : Z) : records :=
  let kept := if (TRACK_CAPACITY <=? Z.of_nat (size g)) && bool_decide (g !! request_id = None)
              then match oldest_finalized entries with Some id => delete id g | None => g end
              else g in
  <[request_id := mkRecord k account "created" x [] now now None false]> kept.
Definition update_record (g : records) (request_id : string) (f : tracked K X -> tracked K X) (now : Z) : records :=
  match g !! request_id with
  | Some r =>
      let '(mkRecord k a s x fs c _ e fin) := f r in <[request_id := mkRecord k a s x fs c now e fin]> g
  | None => g
  end.
Definition with_state (s : string) (x : X) (r : tracked K X) : tracked K X :=
  mkRecord (g_kind r) (g_account r) s x (g_artifacts r) (g_created_at r) (g_updated_at r) (g_error r) (g_finalized r).
Definition with_status (s : string) (r : tracked K X) : tracked K X := with_state s (g_extra r) r.
Definition with_error (e : string) (r : tracked K X) : tracked K X :=
  mkRecord (g_kind r) (g_account r) (g_status r) (g_extra r) (g_artifacts r) (g_created_at r) (g_updated_at r) (Some e) true.
Definition publish_terminal (g : records) (request_id status : string) (error : option string) (stored : list string) (now : Z) : records :=
  update_record g request_id
    (fun r => mkRecord (g_kind r) (g_account r) status (g_extra r) stored (g_created_at r) (g_updated_at r) error true) now.
(** [None] as the requester is the operator. *)
Definition readable (r : tracked K X) (requester : option string) : bool :=
  match g_account r, requester with Some owner, Some requester => bool_decide (owner = requester) | _, _ => true end.
Definition read_record (g : records) (id : string) (requester : option string) : option (tracked K X) :=
  r ← g !! id; if readable r requester then Some r else None.
Definition artifact_path_of (path : string -> string -> string) (g : records) (id name : string) (requester : option string)
    : option string :=
  r ← g !! id;
  if negb (readable r requester) then None
  else if bool_decide (name ∈ g_artifacts r) then Some (path id name) else None.

(** An update changes one record, and neither its owner nor whether others exist. *)
Lemma update_record_spec g id f now :
  (forall j, j <> id -> update_record g id f now !! j = g !! j)
  /\ (forall r, g !! id = Some r -> exists t, update_record g id f now !! id = Some t
       /\ g_status t = g_status (f r) /\ g_finalized t = g_finalized (f r) /\ g_account t = g_account (f r) /\ g_artifacts t = g_artifacts (f r)).
Proof.
  unfold update_record. destruct (g !! id) as [r|] eqn:E; [|done]. destruct (f r) as [k a s x fs c u e fin] eqn:Ef. split.
  - intros j Hj. by rewrite lookup_insert_ne.
  - intros r' [= <-]. rewrite lookup_insert_eq. eexists. by rewrite Ef.
Qed.
Lemma min_by_key_in {A} (key : A -> Z) l x : min_by_key key l = Some x -> x ∈ l.
Proof.
  revert x. induction l as [|y l IH]; cbn; intros x; [done|]. destruct (min_by_key key l) as [z|]; [|intros [= ->]; set_solver].
  case_match; intros [= <-]; [apply elem_of_cons; right; by apply IH|set_solver].
Qed.
Lemma min_by_key_None {A} (key : A -> Z) l : min_by_key key l = None -> l = [].
Proof. destruct l; cbn; [done|]. destruct (min_by_key key l); [case_match|]; done. Qed.
Lemma read_record_spec g id requester :
  is_Some (read_record g id requester) <->
  exists r, g !! id = Some r /\ (requester = None \/ g_account r = None \/ g_account r = requester).
Proof.
  unfold read_record. destruct (g !! id) as [r|]; cbn; [|split; [by intros [? ?]|naive_solver]].
  unfold readable. destruct (g_account r) as [owner|] eqn:Eo, requester as [q|]; cbn; [|by split; eauto..].
  case_bool_decide as E; split; [|done|by intros [? ?]|naive_solver]. intros _. exists r. split; [done|]. right. right. congruence.
Qed.
Lemma artifact_path_spec path g id name requester p :
  artifact_path_of path g id name requester = Some p ->
  p = path id name /\ exists r, read_record g id requester = Some r /\ name ∈ g_artifacts r.
Proof.
  unfold artifact_path_of, read_record. destruct (g !! id) as [r|]; cbn; [|done].
  destruct (readable r requester); cbn; [|done]. case_bool_decide as E; [|done]. intros [= <-]. split; [done|]. by eexists.
Qed.
(** Tracking forgets no record that still runs and stays within the capacity
    while a finished record can make room, whatever the iteration order. *)
Lemma track_record_spec entries g request_id k x account now :
  entries ≡ₚ map_to_list g ->
  let g' := track_record entries g request_id k x account now in
  (forall j r, g !! j = Some r -> g_finalized r = false -> j <> request_id -> g' !! j = Some r)
  /\ (Z.of_nat (size g) <= TRACK_CAPACITY -> g !! request_id = None ->
      (exists j r, g !! j = Some r /\ g_finalized r = true) -> Z.of_nat (size g') <= TRACK_CAPACITY).
Proof.
  intros Hp g'. unfold g', track_record.
  assert (Hold : forall j, oldest_finalized entries = Some j -> exists r, g !! j = Some r /\ g_finalized r = true).
  { intros j. unfold oldest_finalized. destruct (min_by_key _ _) as [[j' r]|] eqn:Em; cbn; [|done]. intros [= <-].
    apply min_by_key_in, elem_of_lfilter in Em as [Hin Hf]. cbn in Hf. rewrite Hp in Hin. apply elem_of_map_to_list in Hin. eauto. }
  split.
  - intros j r Hj Hf Hne. rewrite lookup_insert_ne by done. case_match; [|done]. destruct (oldest_finalized entries) as [o|] eqn:Eo; [|done].
    destruct (Hold o eq_refl) as (ro & Hro & Hfo). rewrite lookup_delete_ne; [done|]. intros ->. congruence.
  - intros Hsz Hnew (j & r & Hj & Hf). rewrite (bool_decide_eq_true_2 (g !! request_id = None)) by done. rewrite andb_true_r.
    destruct (Z.leb_spec TRACK_CAPACITY (Z.of_nat (size g))).
    + destruct (oldest_finalized entries) as [o|] eqn:Eo.
      2: { exfalso. unfold oldest_finalized in Eo. destruct (min_by_key _ _) eqn:Em; [done|]. apply min_by_key_None in Em.
           apply (not_elem_of_nil (j, r)). rewrite <- Em. apply elem_of_lfilter. split; [|done]. rewrite Hp. by apply elem_of_map_to_list. }
      destruct (Hold o eq_refl) as (ro & Hro & _). rewrite map_size_insert_None, map_size_delete, Hro by (by apply lookup_delete_None; right).
      assert (size g <> 0%nat) by (intros Hz%map_size_empty_inv; subst; done). lia.
    + rewrite map_size_insert_None by done. lia.
Qed.
End Records.
Abbreviation records K X := (gmap string (tracked K X)).

(** ** Calls of the billing authority about one reservation *)
Record settle_call := mkSettle { sc_hold : Z; sc_actual : Z; sc_reference : option string; sc_usage_nano : option Z }.
Definition settle_conservative_hold (authority : bool) (r : option Reservation) (reason : string) : list settle_call :=
  match r with
  | Some r => if authority then [mkSettle (rv_hold r) (rv_hold r) (Some reason) None] else []
  | None => []
  end.
Definition settle_exact (authority : bool) (r : option Reservation) (api_nano : Z) : list settle_call :=
  match r with
  | Some r =>
      if authority then
        let actual := Z.max 0 (Z.min i64_max (apply_multiplier api_nano (rv_mult_bp r))) in
        [mkSettle (rv_hold r) actual None (if 0 <? api_nano then Some api_nano else None)]
      else []
  | None => []
  end.
Definition is_blank (s : string) : bool := bool_decide (s = EmptyString).

(** One call closes the reservation and names exactly its hold. *)
Definition settles_once (r : option Reservation) (calls : list settle_call) : Prop :=
  match r with Some rv => exists call, calls = [call] /\ sc_hold call = rv_hold rv | None => calls = [] end.
Lemma settle_conservative_once r reason : settles_once r (settle_conservative_hold true r reason).
Proof. destruct r; cbn; [by eexists|done]. Qed.
Lemma settle_exact_once r nano : settles_once r (settle_exact true r nano).
Proof. destruct r; cbn; [by eexists|done]. Qed.
Lemma multiplier_exact api mult :
  0 <= api <= 1000000000000 -> 0 <= mult <= i64_max -> apply_multiplier api mult = (api * mult + 5000) / 10000.
Proof.
  intros Ha Hm. unfold apply_multiplier. rewrite (proj2 (Z.leb_le _ _)) by lia.
  assert (Hb : 0 <= api * mult <= 1000000000000 * i64_max) by (split; [nia|]; unfold_widths; nia).
  set (x := api * mult) in *. clearbody x. unfold_widths. rewrite (wrap_i128_id x) by width_lia. rewrite wrap_i128_id by width_lia.
  rewrite Z.quot_div_nonneg by lia. done.
Qed.
(** The customer pays the rounded product with the pinned multiplier. *)
Lemma settle_exact_spec r nano :
  0 <= nano <= 1000000000000 -> (forall rv, r = Some rv -> 0 <= rv_mult_bp rv <= i64_max) ->
  settle_exact true r nano = match r with
    | Some rv => [mkSettle (rv_hold rv) (Z.min i64_max ((nano * rv_mult_bp rv + 5000) / 10000)) None (if 0 <? nano then Some nano else None)]
    | None => []
    end.
Proof.
  intros Hn Hm. destruct r as [rv|]; [|done]. specialize (Hm rv eq_refl). cbn [settle_exact]. rewrite multiplier_exact by lia.
  assert (0 <= (nano * rv_mult_bp rv + 5000) / 10000) by (apply Z.div_pos; nia). by rewrite Z.max_r by width_lia.
Qed.

(** ** The drain *)
Inductive drain_end (F : Type) : Type := Aborted | Expired | Lost | Finished (f : F).
Arguments Aborted {F}.
Arguments Expired {F}.
Arguments Lost {F}.
Arguments Finished {F}.
(** What a poll amounts to: ongoing work, a finished one, work the provider does
    not know or describes in unknown words, or an exchange to repeat. *)
Inductive polled (F X : Type) : Type := Ongoing (status : string) (x : X) | Over (f : F) | Gone | Again.
Arguments Ongoing {F X}.
Arguments Over {F X}.
Arguments Gone {F X}.
Arguments Again {F X}.
(** One iteration: the abort flag, the time since the drain began, the poll. *)
Record poll_env (F X : Type) := mkPoll { pe_abort : bool; pe_elapsed_ms : Z; pe_polled : polled F X; pe_now : Z }.
Arguments mkPoll {F X}.
Arguments pe_abort {F X}.
Arguments pe_elapsed_ms {F X}.
Arguments pe_polled {F X}.
Arguments pe_now {F X}.
(** A plane's words for the two ends it decides itself: the error a reader sees
    and the reference of the settlement. *)
Record end_names := mkNames { expired_error : string; expired_reason : string; lost_error : string; lost_reason : string }.
(** What finalizing produces: the calls, the turn event with its reading, and the
    terminal record. *)
Record final_record (T : Type) := mkFinal {
  fr_settles : list settle_call; fr_turn : option T; fr_status : string; fr_error : option string; fr_stored : list string }.
Arguments mkFinal {T}.
Arguments fr_settles {T}.
Arguments fr_turn {T}.
Arguments fr_status {T}.
Arguments fr_error {T}.
Arguments fr_stored {T}.

Definition POLL_DEADLINE_MS : Z := 1800 * 1000.
Section Drain.
Context {K X F T : Type}.
Definition drain_step (e : poll_env F X) : drain_end F + option (string * X) :=
  if pe_abort e then inl Aborted
  else if POLL_DEADLINE_MS <=? pe_elapsed_ms e then inl Expired
  else match pe_polled e with
       | Ongoing status x => inr (Some (status, x))
       | Over f => inl (Finished f)
       | Gone => inl Lost
       | Again => inr None
       end.
(** [fuel] bounds the polls, [None] is running out of it. *)
Fixpoint drain_loop (fuel : nat) (env : nat -> poll_env F X) (request_id : string) (g : records K X)
    : option (drain_end F * records K X) :=
  match fuel with
  | O => None
  | S fuel =>
      match drain_step (env 0%nat) with
      | inl out => Some (out, g)
      | inr state =>
          drain_loop fuel (fun i => env (S i)) request_id
            (match state with Some (s, x) => update_record g request_id (with_state s x) (pe_now (env 0%nat)) | None => g end)
      end
  end.
Context (names : end_names) (authority : bool) (finalize : F -> final_record T).
Definition conclude_drain (request_id : string) (r : option Reservation) (out : drain_end F) (now : Z) (g : records K X)
    : list settle_call * option T * records K X :=
  match out with
  | Aborted => ([], None, g)
  | Expired =>
      (settle_conservative_hold authority r (expired_reason names), None,
       update_record g request_id (fun r => with_error (expired_error names) (with_status "expired" r)) now)
  | Lost =>
      (settle_conservative_hold authority r (lost_reason names), None,
       update_record g request_id (with_error (lost_error names)) now)
  | Finished f =>
      let d := finalize f in
      (fr_settles d, fr_turn d, publish_terminal g request_id (fr_status d) (fr_error d) (fr_stored d) now)
  end.
Definition run_drain (fuel : nat) (env : nat -> poll_env F X) (request_id : string) (r : option Reservation) (now : Z) (g : records K X)
    : option (drain_end F * list settle_call * option T * records K X) :=
  '(out, g) ← drain_loop fuel env request_id g;
  let '(calls, turn, g) := conclude_drain request_id r out now g in Some (out, calls, turn, g).

(** *** The drain ends and settles once *)
Lemma drain_loop_ends interval n env request_id g :
  0 < interval ->
  (forall i, pe_abort (env (S i)) = true \/ pe_elapsed_ms (env i) + interval <= pe_elapsed_ms (env (S i))) ->
  pe_abort (env 0%nat) = true \/ POLL_DEADLINE_MS - Z.of_nat n * interval <= pe_elapsed_ms (env 0%nat) ->
  exists out g', drain_loop (S n) env request_id g = Some (out, g').
Proof.
  intros Hi. revert env g. induction n as [|n IH]; intros env g Hstep H0.
  - cbn. unfold drain_step. destruct (pe_abort (env 0%nat)); [by eauto|]. destruct H0 as [?|H0]; [done|].
    rewrite (proj2 (Z.leb_le _ _)) by lia. eauto.
  - remember (S n) as m. cbn. destruct (drain_step (env 0%nat)) as [out|st] eqn:E; [by eauto|]. subst m.
    apply IH; [intros i; apply Hstep|].
    unfold drain_step in E. destruct (pe_abort (env 0%nat)); [done|]. destruct H0 as [?|H0]; [done|].
    destruct (Hstep 0%nat) as [H|H]; [by left|right]. lia.
Qed.
Lemma drain_loop_record n env id g out g' r :
  drain_loop n env id g = Some (out, g') -> g !! id = Some r ->
  exists r', g' !! id = Some r' /\ g_account r' = g_account r /\ g_finalized r' = g_finalized r.
Proof.
  revert env g r. induction n as [|n IH]; intros env g r; [done|]. cbn. destruct (drain_step (env 0%nat)) as [o|[[s x]|]].
  - intros [= <- <-]. eauto.
  - intros E Hr. destruct (update_record_spec g id (with_state s x) (pe_now (env 0%nat))) as [_ Hu].
    destruct (Hu r Hr) as (t & Ht & _ & Hf & Ha & _). destruct (IH _ _ _ E Ht) as (r' & Hr' & Ha' & Hf'). exists r'.
    by rewrite Ha', Hf', Ha, Hf.
  - apply IH.
Qed.
Lemma drain_loop_finished n env id g f g' :
  drain_loop n env id g = Some (Finished f, g') -> exists i, pe_polled (env i) = Over f.
Proof.
  revert env g. induction n as [|n IH]; intros env g; [done|]. cbn. destruct (drain_step (env 0%nat)) as [o|st] eqn:E.
  - intros [= -> <-]. exists 0%nat. unfold drain_step in E. destruct (pe_abort _); [done|]. destruct (_ <=? _); [done|].
    by destruct (pe_polled (env 0%nat)); simplify_eq.
  - intros [i Hi]%IH. by exists (S i).
Qed.
Lemma drain_ends interval fuel env id r now g rec :
  0 < interval -> POLL_DEADLINE_MS <= Z.of_nat fuel * interval ->
  0 <= pe_elapsed_ms (env 0%nat) ->
  (forall i, pe_abort (env (S i)) = true \/ pe_elapsed_ms (env i) + interval <= pe_elapsed_ms (env (S i))) ->
  g !! id = Some rec -> g_finalized rec = false -> authority = true -> (forall i f, pe_polled (env i) = Over f -> settles_once r (fr_settles (finalize f))) ->
  exists out calls turn g', run_drain (S fuel) env id r now g = Some (out, calls, turn, g')
  /\ (exists rec', g' !! id = Some rec' /\ g_account rec' = g_account rec
       /\ (g_finalized rec' = true <-> out <> Aborted)
       /\ (forall f, out = Finished f -> g_status rec' = fr_status (finalize f)))
  /\ (out = Aborted -> calls = []) /\ (out <> Aborted -> settles_once r calls)
  /\ (turn <> None -> exists f, out = Finished f).
Proof.
  intros Hi Hfuel H0 Hstep Hr Hfin Hau Hone. unfold run_drain.
  destruct (drain_loop_ends interval fuel env id g Hi Hstep) as (out & g1 & E); [right; lia|].
  rewrite E. cbn [mbind option_bind]. destruct (drain_loop_record _ _ _ _ _ _ _ E Hr) as (r1 & Hr1 & Ha1 & Hf1).
  assert (Hfin' : forall f, out = Finished f -> settles_once r (fr_settles (finalize f))).
  { intros f ->. destruct (drain_loop_finished _ _ _ _ _ _ E) as [i Hpoll]. by eapply Hone. }
  clear E Hstep H0 Hfuel. destruct (conclude_drain id r out now g1) as [[calls turn] g'] eqn:Ec. exists out, calls, turn, g'. split; [done|].
  assert (Hup : forall f, (forall r, g_account (f r) = g_account r) -> (forall r, g_finalized (f r) = true) ->
    exists t, update_record g1 id f now !! id = Some t /\ g_account t = g_account rec /\ g_finalized t = true /\ g_status t = g_status (f r1)).
  { intros f Hfa Hff. destruct (update_record_spec g1 id f now) as [_ Hu]. destruct (Hu r1 Hr1) as (t & Ht & Hs & Hf & Ha & _).
    exists t. rewrite Hf, Ha, Hfa, Hff. by rewrite Ha1. }
  destruct out as [| | |f]; cbn [conclude_drain] in Ec; injection Ec as <- <- <-.
  - split; [exists r1; rewrite Ha1, Hf1, Hfin; by repeat split|]. by repeat split.
  - destruct (Hup (fun r => with_error (expired_error names) (with_status "expired" r))) as (t & Ht & Ha & Hf & _); [done..|].
    split; [exists t; rewrite Hf, Ha; by repeat split|]. split; [done|]. split; [|done]. intros _. rewrite Hau. apply settle_conservative_once.
  - destruct (Hup (with_error (lost_error names))) as (t & Ht & Ha & Hf & _); [done..|].
    split; [exists t; rewrite Hf, Ha; by repeat split|]. split; [done|]. split; [|done]. intros _. rewrite Hau. apply settle_conservative_once.
  - unfold publish_terminal. match goal with |- context [update_record g1 id ?h now] => destruct (Hup h) as (t & Ht & Ha & Hf & Hs) end; [done..|].
    split; [exists t; rewrite Hf, Ha; repeat split; [done..|]; intros f' [= <-]; by rewrite Hs|]. split; [done|]. split; [intros _; by apply Hfin'|by eauto].
Qed.
End Drain.
