(* ===== verification/SunoPlane.v ===== *)
(** * Serving on the Suno plane
    ([crates/forward/src/suno/transport.rs], [pool.rs], [client.rs], [gateway.rs])

    Verdicts about upstream answers and their effects on a profile, the health of
    a profile with its hard and soft axes, admission of a generation request, and
    the creation handler: reserve, attempt over profiles, and hand the created
    generation to its drain.  The network, the clock, the roster read at each
    attempt and the billing authority are the environment; a response body is the
    JSON value it parses to, if it does. *)
From S2P Require Import Prelude Text Tariffs MeterUsage MediaTariffs RouterWire RouterCatalog MediaPlane.
#[local] Open Scope Z_scope.

(** ** Verdicts ([transport.rs]) *)
Inductive UpstreamVerdict : Type :=
| V_Ok | V_RateLimitedHard | V_QuotaExhausted | V_AuthRefused | V_CaptchaRequired | V_Transport | V_ClientError | V_Protocol.
#[global] Instance UpstreamVerdict_eq_dec : EqDecision UpstreamVerdict.
Proof. solve_decision. Defined.
Definition classify_status (status : Z) : UpstreamVerdict :=
  if between 200 299 status then V_Ok
  else if one_of [401; 403] status then V_AuthRefused
  else if status =? 429 then V_RateLimitedHard
  else if (status =? 408) || between 500 599 status then V_Transport
  else V_ClientError.
Definition suno_may_rotate (v : UpstreamVerdict) : bool :=
  match v with V_RateLimitedHard | V_QuotaExhausted | V_AuthRefused | V_CaptchaRequired | V_Transport => true | _ => false end.
Definition suno_spends_transport_budget (v : UpstreamVerdict) : bool := match v with V_Transport => true | _ => false end.

Inductive ProfileEffect : Type :=
| E_None | E_CoolRateLimited | E_RestForQuota | E_SoftAuthFault | E_SoftCaptchaGate | E_TransportFault.
Definition suno_effect_for (v : UpstreamVerdict) : ProfileEffect :=
  match v with
  | V_RateLimitedHard => E_CoolRateLimited
  | V_QuotaExhausted => E_RestForQuota
  | V_AuthRefused => E_SoftAuthFault
  | V_CaptchaRequired => E_SoftCaptchaGate
  | V_Transport => E_TransportFault
  | V_Ok | V_ClientError | V_Protocol => E_None
  end.
#[global] Instance suno_verdict : PlaneVerdict UpstreamVerdict ProfileEffect := {|
  v_ok := V_Ok; v_transport := V_Transport;
  v_unblamed v := match v with V_ClientError | V_Protocol => true | _ => false end;
  MediaPlane.may_rotate := suno_may_rotate;
  MediaPlane.spends_transport_budget := suno_spends_transport_budget;
  effect_none := E_None;
  MediaPlane.effect_for := suno_effect_for |}.
#[global] Instance suno_verdict_laws : PlaneVerdictLaws UpstreamVerdict ProfileEffect.
Proof. split; try done; by intros []. Qed.

(** ** Profile health ([gateway.rs]) *)
Definition TRANSPORT_COOL_SECS : Z := 15.
Definition AUTH_SOFT_BASE_SECS : Z := 15.
Definition AUTH_SOFT_MAX_SECS : Z := 900.
Definition RATE_LIMIT_FALLBACK_COOL_SECS : Z := 30.
Definition CAPTCHA_COOL_SECS : Z := 30.
Definition AUTH_DEAD_STREAK : Z := 8.
Definition AUTH_DEAD_ELAPSED_SECS : Z := 3600.
Inductive Hard : Type := RateLimited | QuotaExhausted | QuotaShortfall.
Inductive Soft : Type := AuthCooling | CaptchaRequired | TransportWedged.

(** The raw counters of the billing endpoint. *)
Record BillingSnapshot := mkSnapshot {
  total_credits_left : option Z; monthly_limit : option Z; monthly_usage : option Z; period_raw : option string }.
Record ProfileHealth := mkHealth {
  authenticated : bool;
  rate_limit_cool_until : Z;
  quota_walled : bool;
  auth_cool_until : Z;
  auth_soft_streak : Z;
  auth_first_fault_at : option Z;
  auth_dead : bool;
  captcha_cool_until : Z;
  transport_cool_until : Z;
  counters : BillingSnapshot;
  quota_observed_at : option Z }.
Definition ProfileHealth_default : ProfileHealth :=
  mkHealth false 0 false 0 0 None false 0 0 (mkSnapshot None None None None) None.
Record RuntimeProfile := mkProfile { p_id : string; p_health : ProfileHealth; p_inflight : Z }.

Definition proven_remaining_credits (s : BillingSnapshot) : option Z :=
  match total_credits_left s with
  | Some credits => Some credits
  | None => match monthly_limit s, monthly_usage s with
            | Some limit, Some used => Some (sat_i64 (limit - used))
            | _, _ => None
            end
  end.
Definition hard_axis (h : ProfileHealth) (now reserve_credits : Z) : option Hard :=
  if now <? rate_limit_cool_until h then Some RateLimited
  else if quota_walled h then Some QuotaExhausted
  else match proven_remaining_credits (counters h) with
       | Some remaining => if remaining <? reserve_credits then Some QuotaShortfall else None
       | None => None
       end.
Definition soft_axis (h : ProfileHealth) (now : Z) : option Soft :=
  if now <? auth_cool_until h then Some AuthCooling
  else if now <? captcha_cool_until h then Some CaptchaRequired
  else if now <? transport_cool_until h then Some TransportWedged
  else None.
Definition candidate (p : RuntimeProfile) (now reserve_credits : Z) : option (Candidate Hard Soft) :=
  if auth_dead (p_health p) then None
  else Some (mkCandidate (p_id p) (hard_axis (p_health p) now reserve_credits) (soft_axis (p_health p) now) (p_inflight p)).
(** A roster as a selection at [now] reads it. *)
Definition roster_view (profiles : list RuntimeProfile) (now reserve_credits : Z) : list (string * option (Candidate Hard Soft)) :=
  map (fun p => (p_id p, candidate p now reserve_credits)) profiles.

Definition auth_backoff (streak : Z) : Z := Z.min (sat_i64 (AUTH_SOFT_BASE_SECS * Z.shiftl 1 (Z.min streak 6))) AUTH_SOFT_MAX_SECS.
Definition apply_effect (h : ProfileHealth) (e : ProfileEffect) (now : Z) (retry_after : option Z) : ProfileHealth :=
  let '(mkHealth au rl qw ac st ff ad cc tc cs qo) := h in
  match e with
  | E_None => h
  | E_CoolRateLimited =>
      let until := match retry_after with
                   | Some until => if now <? until then until else sat_i64 (now + RATE_LIMIT_FALLBACK_COOL_SECS)
                   | None => sat_i64 (now + RATE_LIMIT_FALLBACK_COOL_SECS)
                   end in
      mkHealth au until qw ac st ff ad cc tc cs qo
  | E_RestForQuota => mkHealth au rl true ac st ff ad cc tc cs qo
  | E_SoftAuthFault =>
      let st := Z.min u32_max (st + 1) in
      let first := default now ff in
      let dead := (AUTH_DEAD_STREAK <=? st) && (AUTH_DEAD_ELAPSED_SECS <=? sat_i64 (now - first)) in
      mkHealth au rl qw (sat_i64 (now + auth_backoff st)) st (Some first) (ad || dead) cc tc cs qo
  | E_SoftCaptchaGate => mkHealth au rl qw ac st ff ad (sat_i64 (now + CAPTCHA_COOL_SECS)) tc cs qo
  | E_TransportFault => mkHealth au rl qw ac st ff ad cc (sat_i64 (now + TRANSPORT_COOL_SECS)) cs qo
  end.
Definition mark_generation_success (h : ProfileHealth) : ProfileHealth :=
  mkHealth true (rate_limit_cool_until h) (quota_walled h) 0 0 None false 0 0 (counters h) (quota_observed_at h).
Definition publish_quota (h : ProfileHealth) (snapshot : BillingSnapshot) (observed_at : Z) : ProfileHealth :=
  let walled := match proven_remaining_credits snapshot with
                | Some remaining => remaining <=? 0
                | None => quota_walled h
                end in
  mkHealth true (rate_limit_cool_until h) walled 0 0 None false 0 0 snapshot (Some observed_at).

(** ** The plane's own failures *)
Definition failure_verdict (f : GatewayFailure) : UpstreamVerdict :=
  match f with
  | F_Auth => V_AuthRefused
  | F_Transport | F_Protocol | F_Unavailable _ => V_Transport
  | F_Upstream status => classify_status status
  | F_Capacity => V_QuotaExhausted
  | F_LowBalance | F_BadRequest _ | F_Unsupported _ => V_ClientError
  end.
Definition from_verdict (v : UpstreamVerdict) (status : Z) : GatewayFailure :=
  match v with
  | V_AuthRefused => F_Auth
  | V_RateLimitedHard | V_QuotaExhausted | V_CaptchaRequired => F_Capacity
  | V_Transport => F_Transport
  | V_Protocol => F_Protocol
  | V_ClientError => F_Upstream status
  | V_Ok => F_Protocol
  end.
(** The effect of a failed probe, at startup and in the quota poll. *)
Definition probe_effect (f : GatewayFailure) : ProfileEffect :=
  match failure_verdict f with
  | V_AuthRefused => E_SoftAuthFault
  | V_RateLimitedHard => E_CoolRateLimited
  | V_QuotaExhausted => E_RestForQuota
  | V_CaptchaRequired => E_SoftCaptchaGate
  | V_Transport | V_Protocol => E_TransportFault
  | V_Ok | V_ClientError => E_None
  end.
Definition capacity_retry_after (profiles : list RuntimeProfile) (now : Z) : Z :=
  match least (omap (fun p => let until := rate_limit_cool_until (p_health p) in if now <? until then Some until else None) profiles) with
  | Some until => Z.max (wrap_i64 (until - now)) 1
  | None => 60
  end.

(** ** Health as a function of its history
    Every access of a profile's health, in the order of its lock. *)
Inductive health_event : Type :=
| Effect (e : ProfileEffect) (now : Z) (retry_after : option Z)
| GenerationSucceeded
| QuotaPublished (snapshot : BillingSnapshot) (observed_at : Z).
Definition health_step (h : ProfileHealth) (ev : health_event) : ProfileHealth :=
  match ev with
  | Effect e now retry_after => apply_effect h e now retry_after
  | GenerationSucceeded => mark_generation_success h
  | QuotaPublished s at_ => publish_quota h s at_
  end.
Definition health_of (history : list health_event) : ProfileHealth := fold_left health_step history ProfileHealth_default.

(** The refusals since the last proof that the session works. *)
Definition auth_faults (history : list health_event) : list Z :=
  fold_left (fun faults ev => match ev with
    | Effect E_SoftAuthFault now _ => faults ++ [now]
    | Effect _ _ _ => faults
    | GenerationSucceeded | QuotaPublished _ _ => []
    end) history [].
(** At least eight refusals in a row, an hour or more after the first. *)
Definition corroborated (faults : list Z) : Prop :=
  exists i first later, (7 <= i)%nat /\ faults !! 0%nat = Some first /\ faults !! i = Some later
    /\ AUTH_DEAD_ELAPSED_SECS <= sat_i64 (later - first).
(** What the last evidence about credits said. *)
Definition out_of_credits (history : list health_event) : bool :=
  fold_left (fun walled ev => match ev with
    | Effect E_RestForQuota _ _ => true
    | QuotaPublished s _ => match proven_remaining_credits s with Some remaining => remaining <=? 0 | None => walled end
    | _ => walled
    end) history false.

Lemma corroborated_app faults t : corroborated (faults ++ [t]) <->
  corroborated faults \/ (8 <= length (faults ++ [t]))%nat /\ AUTH_DEAD_ELAPSED_SECS <= sat_i64 (t - default t (faults !! 0%nat)).
Proof.
  unfold corroborated. split.
  - intros (i & a & b & Hi & Ha & Hb & He). destruct (decide (i < length faults)%nat) as [Hl|Hl].
    + left. exists i, a, b. rewrite lookup_app_l in Ha, Hb by lia. done.
    + right. pose proof (lookup_lt_Some _ _ _ Hb) as Hlt. rewrite length_app in *. cbn in Hlt |- *. assert (i = length faults) as -> by lia.
      rewrite list_lookup_middle in Hb by done. injection Hb as <-. rewrite lookup_app_l in Ha by lia. rewrite Ha. cbn. split; [lia|done].
  - intros [(i & a & b & Hi & Ha & Hb & He)|[Hl He]].
    + exists i, a, b. rewrite !lookup_app_l by (eapply lookup_lt_Some; eauto). done.
    + rewrite length_app in Hl. cbn in Hl. destruct (lookup_lt_is_Some_2 faults 0%nat) as [a Ha]; [lia|]. rewrite Ha in He. cbn in He.
      exists (length faults), a, t. rewrite lookup_app_l, Ha by lia. rewrite list_lookup_middle by done. split; [lia|done].
Qed.
Lemma health_of_snoc history ev : health_of (history ++ [ev]) = health_step (health_of history) ev.
Proof. unfold health_of. by rewrite fold_left_app. Qed.
Lemma auth_faults_snoc history ev : auth_faults (history ++ [ev]) =
  match ev with Effect E_SoftAuthFault now _ => auth_faults history ++ [now] | Effect _ _ _ => auth_faults history | _ => [] end.
Proof. unfold auth_faults. rewrite fold_left_app. by destruct ev as [[]| |]. Qed.

(** The auth part of the record is determined by the refusals. *)
Record auth_state (faults : list Z) (h : ProfileHealth) : Prop := {
  as_streak : auth_soft_streak h = Z.min u32_max (Z.of_nat (length faults));
  as_first : auth_first_fault_at h = faults !! 0%nat;
  as_dead : auth_dead h = true <-> corroborated faults;
  as_cool : auth_cool_until h = match last faults with Some t => sat_i64 (t + auth_backoff (auth_soft_streak h)) | None => 0 end }.
Lemma health_auth_state history : auth_state (auth_faults history) (health_of history).
Proof.
  assert (H0 : auth_state [] ProfileHealth_default).
  { split; try done. split; [done|]. by intros (i & a & b & _ & Ha & _). }
  induction history as [|ev history IH] using rev_ind; [done|]. rewrite health_of_snoc, auth_faults_snoc.
  assert (Hreset : forall h, auth_soft_streak h = 0 -> auth_first_fault_at h = None -> auth_dead h = false -> auth_cool_until h = 0 ->
    auth_state [] h).
  { intros h E1 E2 E3 E4. split; try done. rewrite E3. split; [done|]. by intros (i & a & b & _ & Ha & _). }
  destruct ev as [e now r| |s t]; cbn [health_step]; [|by apply Hreset|by apply Hreset].
  destruct IH as [H1 H2 H3 H4]. destruct (health_of history) as [au rl qw ac st ff ad cc tc cs qo]. cbn in *. subst st ff ac.
  destruct e; try (split; done). set (faults := auth_faults history) in *. cbn.
  assert (Hlen : Z.min u32_max (Z.min u32_max (Z.of_nat (length faults)) + 1) = Z.min u32_max (Z.of_nat (length (faults ++ [now])))).
  { rewrite length_app. cbn. width_lia. }
  rewrite Hlen. split; cbn [auth_soft_streak auth_first_fault_at auth_dead auth_cool_until].
  - done.
  - destruct faults; done.
  - rewrite orb_true_iff, H3, corroborated_app, andb_true_iff, !Z.leb_le.
    assert (Hq : AUTH_DEAD_STREAK <= Z.min u32_max (Z.of_nat (length (faults ++ [now]))) <-> (8 <= length (faults ++ [now]))%nat)
      by (unfold AUTH_DEAD_STREAK; width_lia). rewrite Hq. done.
  - by rewrite last_snoc.
Qed.
Lemma health_out_of_credits history : quota_walled (health_of history) = out_of_credits history.
Proof.
  induction history as [|ev history IH] using rev_ind; [done|]. rewrite health_of_snoc. unfold out_of_credits in *. rewrite fold_left_app.
  rewrite <- IH. cbn. destruct ev as [e now r| |s t]; cbn; [|done|done]. by destruct (health_of history), e.
Qed.

Lemma auth_backoff_bounds streak : 1 <= streak -> 30 <= auth_backoff streak <= 900.
Proof.
  intros Hs. unfold auth_backoff, AUTH_SOFT_BASE_SECS, AUTH_SOFT_MAX_SECS. rewrite Z.shiftl_mul_pow2, Z.mul_1_l by lia.
  assert (Hp : 2 <= 2 ^ Z.min streak 6 <= 64).
  { split; [change 2 with (2 ^ 1) at 1|change 64 with (2 ^ 6)]; apply Z.pow_le_mono_r; lia. }
  width_lia.
Qed.

(** Every instant a soft deadline was set from lies in the history. *)
Definition event_time (ev : health_event) : option Z := match ev with Effect _ now _ => Some now | _ => None end.
Lemma last_fault_in history t : last (auth_faults history) = Some t -> t ∈ omap event_time history.
Proof.
  revert t. induction history as [|ev history IH] using rev_ind; intros t; [done|].
  rewrite auth_faults_snoc, omap_app, elem_of_app. destruct ev as [[] now r| |]; try done; try (intros H; left; by apply IH).
  rewrite last_snoc. intros [= ->]. right. cbn. set_solver.
Qed.
Lemma soft_deadlines history now :
  0 <= now -> (forall t, t ∈ omap event_time history -> t + 900 <= now) -> soft_axis (health_of history) now = None.
Proof.
  intros Hn Ht. assert (Hc : captcha_cool_until (health_of history) <= now /\ transport_cool_until (health_of history) <= now).
  { revert Ht. induction history as [|ev history IH] using rev_ind; intros Ht; [done|]. rewrite health_of_snoc.
    destruct IH as [I1 I2]. { intros t Hin. apply Ht. rewrite omap_app. set_solver. }
    destruct ev as [e t r| |s t]; cbn; try done. specialize (Ht t ltac:(rewrite omap_app; cbn; set_solver)).
    destruct (health_of history), e; cbn in *; split; try done; unfold CAPTCHA_COOL_SECS, TRANSPORT_COOL_SECS; width_lia. }
  unfold soft_axis. destruct (health_auth_state history) as [H1 _ _ H4].
  assert (Ha : auth_cool_until (health_of history) <= now).
  { rewrite H4. destruct (last _) as [t|] eqn:El; [|done]. pose proof (Ht t (last_fault_in _ _ El)) as Hl.
    assert (Hne : (1 <= length (auth_faults history))%nat) by (destruct (auth_faults history); [done|cbn; lia]).
    pose proof (auth_backoff_bounds (auth_soft_streak (health_of history)) ltac:(rewrite H1; width_lia)). width_lia. }
  rewrite !(proj2 (Z.ltb_ge _ _)) by tauto. done.
Qed.

(** What a profile's health says is exactly what its history justifies.  A
    profile leaves routing exactly when, since the last success or passing probe,
    eight or more refusals arrived with an hour or more between the first and one
    of them; it is out of credits exactly when the last evidence about credits
    said so, whatever time passed; no inference touches the axes that may deny a
    request; and every inference lapses by itself within fifteen minutes. *)
Theorem suno_health_exact (id : string) (history : list health_event) (load : Z) :
  (forall now reserve, candidate (mkProfile id (health_of history) load) now reserve = None <-> corroborated (auth_faults history))
  /\ quota_walled (health_of history) = out_of_credits history
  /\ (forall e now r, e = E_SoftAuthFault \/ e = E_SoftCaptchaGate \/ e = E_TransportFault ->
       forall at_ reserve, hard_axis (health_of (history ++ [Effect e now r])) at_ reserve = hard_axis (health_of history) at_ reserve)
  /\ (forall now, 0 <= now -> soft_axis (health_of (history ++ [GenerationSucceeded])) now = None
       /\ ((forall t, t ∈ omap event_time history -> t + 900 <= now) -> soft_axis (health_of history) now = None)).
Proof.
  split; [|split; [apply health_out_of_credits|split]].
  - intros now reserve. unfold candidate. cbn [p_health]. rewrite <- (as_dead _ _ (health_auth_state history)).
    by destruct (auth_dead (health_of history)).
  - intros e now r He at_ reserve. rewrite health_of_snoc. cbn. destruct (health_of history).
    by destruct He as [->|[->| ->]].
  - intros now Hn. split; [|by apply soft_deadlines]. rewrite health_of_snoc. cbn. unfold soft_axis. cbn.
    by rewrite !(proj2 (Z.ltb_ge _ _)) by done.
Qed.

(** ** Admission of a request *)
Inductive OperationKind : Type := Song | Extend | Lyrics | Stems.
#[global] Instance OperationKind_eq_dec : EqDecision OperationKind.
Proof. solve_decision. Defined.
Definition from_wire (raw : string) : option OperationKind :=
  if bool_decide (raw = "song") then Some Song
  else if bool_decide (raw = "extend") then Some Extend
  else if bool_decide (raw = "lyrics") then Some Lyrics
  else if bool_decide (raw = "stems") then Some Stems
  else None.
Definition as_wire (k : OperationKind) : string :=
  match k with Song => "song" | Extend => "extend" | Lyrics => "lyrics" | Stems => "stems" end.
Definition kind_reserve_credits (k : OperationKind) : Z := match k with Song => Suno.SUNO_CREDITS_PER_SONG | _ => 50 end.

Record GenerationBody := mkBody {
  operation : string; b_model : option string; b_prompt : option string; b_tags : option string; b_title : option string;
  make_instrumental : option bool; negative_tags : option string; continue_at : option Number;
  continue_clip_id : option string; b_song_id : option string; attachments : option (list string) }.
Definition body_fields : list string :=
  ["operation"; "model"; "prompt"; "tags"; "title"; "make_instrumental"; "negative_tags"; "continue_at";
   "continue_clip_id"; "song_id"; "attachments"].
(** The derived deserializer: unknown members are refused, a missing or null
    option is absent, and a sequence of all fields in order is accepted too. *)
Definition as_number (v : Value) : option Number := match v with VNumber n => Some n | _ => None end.
Definition decode_object (v : Value) : option GenerationBody :=
  operation ← get "operation" v >>? as_str;
  model ← opt_field as_str "model" v;
  prompt ← opt_field as_str "prompt" v;
  tags ← opt_field as_str "tags" v;
  title ← opt_field as_str "title" v;
  instrumental ← opt_field as_bool "make_instrumental" v;
  negative ← opt_field as_str "negative_tags" v;
  at_ ← opt_field as_number "continue_at" v;
  clip ← opt_field as_str "continue_clip_id" v;
  song ← opt_field as_str "song_id" v;
  attached ← opt_field as_strings "attachments" v;
  Some (mkBody operation model prompt tags title instrumental negative at_ clip song attached).
Definition decode_body (v : Value) : option GenerationBody :=
  match v with
  | VObject fields => if forallb (fun f => bool_decide (f.1 ∈ body_fields)) fields then decode_object v else None
  | VArray l => if Nat.eqb (length l) (length body_fields) then decode_object (VObject (zip body_fields l)) else None
  | _ => None
  end.

Definition MAX_PROMPT_LEN : Z := 8 * 1024.
Definition MAX_TAGS_LEN : Z := 1024.
Definition MAX_TITLE_LEN : Z := 256.
Record AdmittedGeneration := mkAdmitted {
  kind : OperationKind; requested_model : option string; ad_song_id : option string; upstream_body : list (string * Value);
  reserve_credits : Z }.

Section Admit.
(** Whether a number written with a fraction or exponent lies in the range of a
    playback position: the model's numbers do not carry it. *)
Context (float_position : bool).
Definition position_ok (n : Number) : bool := match n with PosInt z => z <=? 86400 | NegInt _ => false | Float => float_position end.
Definition required_prompt (b : GenerationBody) : result GatewayFailure string :=
  match b_prompt b with
  | Some p => if bounded_text p MAX_PROMPT_LEN then Ok p else Err (F_BadRequest "suno_prompt_required")
  | None => Err (F_BadRequest "suno_prompt_required")
  end.
Definition not_applicable (given : list bool) : result GatewayFailure () :=
  guard_ok (negb (existsb id given)) (F_BadRequest "suno_option_not_applicable").

Definition admit_song (b : GenerationBody) : result GatewayFailure (list (string * Value)) :=
  model ← ok_or (b_model b) (F_BadRequest "suno_model_required");
  let base := [("mv", VString model); ("make_instrumental", VBool (default false (make_instrumental b)))] in
  if is_given (b_tags b) || is_given (b_title b) then
    prompt ← text_control (b_prompt b) MAX_PROMPT_LEN "prompt" "suno_prompt_invalid";
    tags ← text_control (b_tags b) MAX_TAGS_LEN "tags" "suno_tags_invalid";
    title ← text_control (b_title b) MAX_TITLE_LEN "title" "suno_title_invalid";
    negative ← text_control (negative_tags b) MAX_TAGS_LEN "negative_tags" "suno_negative_tags_invalid";
    Ok (base ++ prompt ++ tags ++ title ++ negative)
  else
    prompt ← required_prompt b;
    Ok (base ++ [("gpt_description_prompt", VString prompt)]).
Definition admit_extend (b : GenerationBody) : result GatewayFailure (list (string * Value)) :=
  clip ← required_id (continue_clip_id b) "suno_continue_clip_required" "suno_continue_clip_invalid";
  position ← match continue_at b with
             | None => Ok []
             | Some n => if position_ok n then Ok [("continue_at", VNumber Float)] else Err (F_BadRequest "suno_continue_at_invalid")
             end;
  _ ← not_applicable [is_given (b_model b); is_given (b_prompt b); is_given (b_tags b); is_given (b_title b);
        is_given (negative_tags b); is_given (make_instrumental b)];
  Ok (("continue_clip_id", VString clip) :: position).
Definition admit_lyrics (b : GenerationBody) : result GatewayFailure (list (string * Value)) :=
  prompt ← required_prompt b;
  _ ← not_applicable [is_given (b_model b); is_given (b_tags b); is_given (b_title b)];
  Ok [("prompt", VString prompt)].
Definition admit_stems (b : GenerationBody) : result GatewayFailure string :=
  song ← required_id (b_song_id b) "suno_song_id_required" "suno_song_id_invalid";
  _ ← not_applicable [is_given (b_model b); is_given (b_prompt b); is_given (b_tags b)];
  Ok song.

Definition admit_generation (b : GenerationBody) : result GatewayFailure AdmittedGeneration :=
  k ← ok_or (from_wire (operation b)) (F_BadRequest "suno_operation_unknown");
  if match attachments b with Some (_ :: _) => true | _ => false end
  then Err (F_Unsupported "suno_attachment_upstream_unknown")
  else
    _ ← match b_model b with
        | Some model => guard_ok (is_given (Suno.suno_paid_model model)) (F_BadRequest "suno_model_unknown")
        | None => Ok ()
        end;
    let admitted body song := mkAdmitted k (b_model b) song body (kind_reserve_credits k) in
    match k with
    | Song => body ← admit_song b; Ok (admitted body None)
    | Extend => body ← admit_extend b; Ok (admitted body None)
    | Lyrics => body ← admit_lyrics b; Ok (admitted body None)
    | Stems => song ← admit_stems b; Ok (admitted [] (Some song))
    end.
End Admit.

(** ** One creation on one profile ([client.rs], [gateway.rs]) *)
Definition MAX_PROVIDER_TOKEN_LEN : Z := 8192.
Definition provider_id (v : Value) : option string :=
  id ← get "id" v >>? as_str;
  if negb (bool_decide (id = EmptyString)) && (str_len id <=? MAX_PROVIDER_TOKEN_LEN) then Some id else None.
Definition parse_created_ids (status : Z) (body : option Value) : result UpstreamVerdict (list string) :=
  if negb (bool_decide (classify_status status = V_Ok)) then Err (classify_status status)
  else
    parsed ← ok_or body V_Protocol;
    ids ← match parsed with
          | VArray entries => ok_or (mapM provider_id entries) V_Protocol
          | _ => match get "id" parsed >>? as_str with
                 | Some _ => ok_or (provider_id parsed) V_Protocol ≫= fun id => Ok [id]
                 | None => Ok []
                 end
          end;
    match ids with [] => Err V_Protocol | _ => Ok ids end.
Definition parse_captcha_check (status : Z) (body : option Value) : result UpstreamVerdict bool :=
  if negb (bool_decide (classify_status status = V_Ok)) then Err (classify_status status)
  else ok_or (body >>? get "required" >>? as_bool) V_Protocol.

Inductive SessionError : Type := S_Invalid | S_Transport | S_Protocol.
Definition session_verdict (e : SessionError) : UpstreamVerdict :=
  match e with S_Invalid => V_AuthRefused | S_Transport => V_Transport | S_Protocol => V_Protocol end.
(** One exchange: the request did not get through, the body did not arrive, or
    an answer whose cookie rotation was recorded or not. *)
Inductive wire : Type :=
| WSendFailed
| WUnread (status : Z)
| WAnswer (status : Z) (rotated : bool) (body : option Value).
Definition captcha_required (w : wire) : result UpstreamVerdict bool :=
  match w with
  | WAnswer status true body => parse_captcha_check status body
  | _ => Err V_Transport
  end.
(** The verdict, the deadline the answer named and the status. *)
Definition send_create (now : Z) (retry_after : option string) (w : wire) : result (UpstreamVerdict * option Z * Z) (list string) :=
  match w with
  | WSendFailed => Err (V_Transport, None, 502)
  | WUnread status => Err (V_Transport, None, status)
  | WAnswer status _ body =>
      let deadline := retry_after >>? to_str >>? parse_retry_after >>? (fun s => Some (sat_i64 (now + s))) in
      map_err (fun v => (v, deadline, status)) (parse_created_ids status body)
  end.
Record AttributionBaseline := mkBaseline { bl_snapshot : BillingSnapshot; bl_epoch : Z }.
Inductive CreateOutcome : Type :=
| C_Created (ids : list string) (baseline : option AttributionBaseline)
| C_Refused (v : UpstreamVerdict) (retry_after : option Z) (status : Z).
(** What one profile's creation sequence meets. *)
Record create_wires := mkWires {
  cw_jwt : result SessionError ();
  cw_captcha : wire;
  cw_quota : option BillingSnapshot;
  cw_inflight : Z; cw_epoch : Z;
  cw_create : wire; cw_retry_after : option string; cw_now : Z }.
Definition precheck_and_create (w : create_wires) : CreateOutcome :=
  match cw_jwt w with
  | Err e => C_Refused (session_verdict e) None 502
  | Ok _ =>
      match captcha_required (cw_captcha w) with
      | Err v => C_Refused v None 502
      | Ok true => C_Refused V_CaptchaRequired None 200
      | Ok false =>
          let baseline := match cw_quota w with
                          | Some snapshot => if cw_inflight w =? 1 then Some (mkBaseline snapshot (cw_epoch w)) else None
                          | None => None
                          end in
          match send_create (cw_now w) (cw_retry_after w) (cw_create w) with
          | Ok ids => C_Created ids baseline
          | Err (v, retry_after, status) => C_Refused v retry_after status
          end
      end
  end.

(** ** The handler *)
(** One iteration of the loop: the rosters, clocks and cursor it reads and the
    exchanges of its profile. *)
Record suno_attempt := mkAttempt {
  sa_profiles : list RuntimeProfile; sa_now : Z; sa_cursor : Z; sa_wires : create_wires;
  sa_count_profiles : list RuntimeProfile; sa_count_now : Z }.
Definition attempt_of (reserve : Z) (a : suno_attempt) : attempt_env (V:=UpstreamVerdict) :=
  mkEnv (roster_view (sa_profiles a) (sa_now a) reserve) (sa_cursor a)
    (match precheck_and_create (sa_wires a) with C_Created ids _ => Created ids | C_Refused v _ status => Refused v status end)
    (roster_view (sa_count_profiles a) (sa_count_now a) reserve).
Record create_env := mkCreateEnv {
  h_shutting_down : bool;
  h_float : bool;
  h_authority : authority;
  h_attempts : nat -> suno_attempt;
  h_retry_profiles : list RuntimeProfile; h_retry_now : Z }.
Definition suno_priced (reserve : Z) : bool := match Suno.suno_cost_nanodollars reserve with Ok _ => true | Err _ => false end.

Record created := mkCreated {
  c_response : Response; c_hold : hold_fate; c_drain : option drain; c_trace : list (tried (V:=UpstreamVerdict) (E:=ProfileEffect)) }.
Definition refused_early (f : GatewayFailure) : created := mkCreated (error_response "suno" f) NoHold None [].
Definition ok_response (k : OperationKind) : Response := mkResponse 200 (as_wire k) "created" None.
Definition handle_create (fuel : nat) (env : create_env) (body : Value) (input : option BillingInput) : option created :=
  if h_shutting_down env then Some (refused_early (F_Unavailable "suno_shutdown"))
  else match decode_body body with
  | None => Some (refused_early (F_BadRequest "suno_invalid_body"))
  | Some b =>
      match admit_generation (h_float env) b with
      | Err f => Some (refused_early f)
      | Ok a =>
          match reserve_customer "suno" (h_authority env) (suno_priced (reserve_credits a)) input with
          | Err f => Some (refused_early f)
          | Ok r =>
              '(out, trace) ← attempt_loop fuel (fun k => attempt_of (reserve_credits a) (h_attempts env k)) None loop_init;
              let '(resp, hold, d) := conclude "suno" (h_authority env) (capacity_retry_after (h_retry_profiles env) (h_retry_now env))
                (ok_response (kind a)) r out in
              Some (mkCreated resp hold d trace)
          end
      end
  end.

(** ** What the handler guarantees *)
Lemma roster_view_ok profiles now reserve : view_ok (roster_view profiles now reserve).
Proof.
  intros id c (p & E & _)%list_elem_of_fmap. injection E as -> E. unfold candidate in E. case_match; [done|]. by injection E as ->.
Qed.
Lemma parse_created_refusal status body v : parse_created_ids status body = Err v -> v <> V_Ok.
Proof.
  unfold parse_created_ids. case_bool_decide as E; cbn; [|by intros [= <-]].
  destruct body as [b|]; cbn; [|by intros [= <-]]. intros H ->. revert H. set (ids := match b with VArray _ => _ | _ => _ end).
  assert (Hi : ids <> Err V_Ok).
  { assert (Ho : forall o : option string, ok_or o V_Protocol ≫= (fun id => Ok [id]) <> Err V_Ok) by (by intros [?|]).
    unfold ids. destruct b as [|? |? |? |entries|fields]; [..|by destruct (mapM provider_id entries)|];
      destruct (_ >>? as_str)%rust; try done; apply Ho. }
  destruct ids as [[|i l]|e]; cbn; naive_solver.
Qed.
Lemma precheck_refusal w v r s : precheck_and_create w = C_Refused v r s -> v <> V_Ok.
Proof.
  unfold precheck_and_create. destruct (cw_jwt w) as [|e]; [|intros [= <- <- <-]; by destruct e].
  destruct (captcha_required (cw_captcha w)) as [[]|e] eqn:Ec; [by intros [= <- <- <-]| |].
  - unfold send_create. destruct (cw_create w) as [| |st ro b]; cbn; [by intros [= <- <- <-]|by intros [= <- <- <-]|].
    destruct (parse_created_ids st b) eqn:E; cbn; [done|]. intros [= -> _ _]. by eapply parse_created_refusal.
  - intros [= -> _ _]. unfold captcha_required, parse_captcha_check in Ec. destruct (cw_captcha w) as [| |st [] b]; try (by injection Ec as <-).
    revert Ec. case_bool_decide as E; cbn; [|by intros [= <-]]. destruct (_ >>? as_bool)%rust; cbn; [done|]. by intros [= <-].
Qed.
Lemma attempt_of_ok ids reserve a :
  0 <= sa_cursor a -> (forall p, p ∈ sa_profiles a -> p_id p ∈ ids) -> env_ok ids (attempt_of reserve a).
Proof.
  intros Hc Hp. split; [done|]. split; [apply roster_view_ok|]. split; [apply roster_view_ok|]. split.
  - intros id. cbn. unfold roster_view. rewrite map_map. cbn. intros (p & -> & Hin)%list_elem_of_fmap. auto.
  - intros v s. cbn. destruct (precheck_and_create _) eqn:E; [done|]. intros [= -> _]. by eapply precheck_refusal.
Qed.
Lemma admit_no_capacity fl b : no_capacity (admit_generation fl b).
Proof.
  assert (Ht : forall v m w e, no_capacity (text_control v m w e)) by (intros [] *; cbn; [case_match|]; done).
  assert (Hp : no_capacity (required_prompt b)) by (unfold required_prompt; repeat case_match; done).
  assert (Hi : forall v m i, no_capacity (required_id v m i)) by (intros; unfold required_id; no_capacity).
  unfold admit_generation, admit_song, admit_extend, admit_lyrics, admit_stems, not_applicable. no_capacity.
Qed.

Lemma handle_create_cases fuel env body input :
  (exists f, f <> F_Capacity /\ handle_create fuel env body input = Some (refused_early f))
  \/ exists b a r, decode_body body = Some b /\ admit_generation (h_float env) b = Ok a /\ handle_create fuel env body input =
       ('(out, trace) ← attempt_loop fuel (fun n => attempt_of (reserve_credits a) (h_attempts env n)) None loop_init;
        let '(resp, hold, d) := conclude "suno" (h_authority env) (capacity_retry_after (h_retry_profiles env) (h_retry_now env)) (ok_response (kind a)) r out in
        Some (mkCreated resp hold d trace)).
Proof.
  unfold handle_create. destruct (h_shutting_down env); [left; by exists (F_Unavailable "suno_shutdown")|].
  destruct (decode_body body) as [b|]; [|left; by exists (F_BadRequest "suno_invalid_body")].
  pose proof (admit_no_capacity (h_float env) b) as Ha. destruct (admit_generation _ b) as [a|f] eqn:Ea; [|left; exists f; naive_solver].
  pose proof (reserve_no_capacity "suno" (h_authority env) (suno_priced (reserve_credits a)) input) as Hr.
  destruct (reserve_customer _ _ _ _) as [r|f]; [|left; exists f; naive_solver]. right. by exists b, a, r.
Qed.

(** C23: A generation is acknowledged at most once, and its hold has one owner.
    Whatever the network answers and however the health of the profiles changes
    meanwhile, the handler answers within one more attempt than there are
    profiles, tries no profile twice and spends at most three transport failures;
    before every rotation the verdict said that another profile may be tried, so
    that an acknowledged creation is the last attempt (one the provider accepted
    without its answer arriving counts as a transport failure, and may be
    repeated elsewhere).  Work is drained only for the profile that acknowledged
    the creation, which was the last one tried; success is reported only with such
    a drain; the drain settles the hold only if the handler did not return it, and
    the hold stays open only after an acknowledged creation.  Exhausted capacity is
    reported only when, at the reserve of the admitted request, the roster read for
    the next selection or for the count after the last attempt had every profile
    already tried, unroutable or walled by the provider. *)
Theorem suno_create_exact (env : create_env) (body : Value) (input : option BillingInput) (ids : gset string) :
  (forall k, 0 <= sa_cursor (h_attempts env k)) ->
  (forall k p, p ∈ sa_profiles (h_attempts env k) -> p_id p ∈ ids) ->
  exists r, handle_create (S (size ids)) env body input = Some r
  /\ NoDup (map t_id (c_trace r)) /\ (length (c_trace r) <= size ids)%nat
  /\ (length (filter (fun t => t_verdict t = Some V_Transport) (c_trace r)) <= 3)%nat
  /\ (forall t, t ∈ removelast (c_trace r) -> exists v, t_verdict t = Some v /\ suno_may_rotate v = true)
  /\ (forall k us base, precheck_and_create (sa_wires (h_attempts env k)) = C_Created us base -> (length (c_trace r) <= S k)%nat)
  /\ (rs_status (c_response r) = 200 -> c_drain r <> None /\ c_hold r <> Refunded)
  /\ (forall d, c_drain r = Some d ->
       (exists before, c_trace r = before ++ [mkTried (dr_profile d) None None]) /\ (dr_reservation d <> None -> c_hold r = LeftOpen))
  /\ (c_hold r = LeftOpen -> exists before id, c_trace r = before ++ [mkTried id None None])
  /\ (rs_status (c_response r) = 429 ->
       exists b a, decode_body body = Some b /\ admit_generation (h_float env) b = Ok a
       /\ capacity_exhausted (fun k => attempt_of (reserve_credits a) (h_attempts env k)) None (length (c_trace r)) (list_to_set (map t_id (c_trace r)))).
Proof.
  intros Hcur Hids. destruct (handle_create_cases (S (size ids)) env body input) as [(f & Hf & ->)|(b & a & r & Hb & Ha & ->)].
  { pose proof (error_status "suno" f 60) as [E1 E2]. eexists. split; [reflexivity|]. cbn. split; [constructor|]. split; [lia|]. split; [lia|].
    split; [set_solver|]. split; [lia|]. split; [by intros ?%E1|]. split; [done|]. split; [done|]. by intros ?%E2. }
  destruct (attempts_bounded (fun n => attempt_of (reserve_credits a) (h_attempts env n)) None ids) as (out & trace & El & [H1 _ H3 _ H5 H6 _ H8] & Hlen).
  { intros n. apply attempt_of_ok; [apply Hcur|apply Hids]. }
  rewrite El. cbn [mbind option_bind]. destruct (conclude _ _ _ _ r out) as [[resp hold] d] eqn:Ec.
  assert (Hok : rs_status (ok_response (kind a)) = 200) by reflexivity.
  pose proof (conclude_spec _ _ _ _ _ _ _ _ _ Hok Ec) as (C1 & C2 & C3 & C4). eexists. split; [reflexivity|].
  cbn [c_response c_hold c_drain c_trace]. split; [done|]. split; [done|]. split; [cbn in H3; lia|]. split; [done|].
  split; [intros k us base Hk; eapply answered_is_last; [exact El|left; exists us; cbn; by rewrite Hk]|]. split; [done|].
  split; [intros x Hx; destruct (C2 x Hx) as [[us Ho] Hr]; split; [by eapply H5|done]|]. split.
  - intros Hh. destruct (C3 Hh) as (id & us & Ho). destruct (H5 _ _ Ho) as [before Hbf]. eauto.
  - intros Hs. exists b, a. split; [done|]. split; [done|]. specialize (H8 (C4 Hs)). cbn [loop_init excluded] in H8. by rewrite union_empty_r_L in H8.
Qed.

(** ** Runs *)
Definition demo_profile (id : string) : RuntimeProfile := mkProfile id ProfileHealth_default 1.
Definition demo_wires (create : wire) : create_wires :=
  mkWires (Ok ()) (WAnswer 200 true (Some (VObject [("required", VBool false)]))) None 1 1 create None 1000.
Definition demo_created : wire := WAnswer 200 true (Some (VArray [VObject [("id", VString "clip")]])).
Definition demo_env (first : wire) : create_env :=
  let roster := [demo_profile "a"; demo_profile "b"] in
  mkCreateEnv false true (mkAuthority true (Some true) true true)
    (fun k => mkAttempt roster 1000 (Z.of_nat k) (demo_wires (match k with O => first | _ => demo_created end)) roster 1000)
    roster 1000.
Definition demo_body : Value := VObject [("operation", VString "lyrics"); ("prompt", VString "a song"); ("make_instrumental", VBool true)].
Definition demo_input : option BillingInput := Some (mkInput "acct" "key" 10000 500).

(** The first profile is rate limited, the second creates. *)
Example rotates_then_creates :
  handle_create 3 (demo_env (WAnswer 429 true None)) demo_body demo_input
  = Some (mkCreated (ok_response Lyrics) LeftOpen (Some (mkDrain "b" ["clip"] (Some (mkReservation "acct" "key" 0 10000))))
      [mkTried "a" (Some V_RateLimitedHard) (Some E_CoolRateLimited); mkTried "b" None None]).
Proof. vm_compute. reflexivity. Qed.
(** A creation that was accepted but whose answer did not arrive is a transport
    failure: the next profile creates the generation a second time. *)
Example unread_acceptance_creates_again :
  handle_create 3 (demo_env (WUnread 200)) demo_body demo_input
  = Some (mkCreated (ok_response Lyrics) LeftOpen (Some (mkDrain "b" ["clip"] (Some (mkReservation "acct" "key" 0 10000))))
      [mkTried "a" (Some V_Transport) (Some E_TransportFault); mkTried "b" None None]).
Proof. vm_compute. reflexivity. Qed.
(** A control the operation does not take is dropped without an error. *)
Example inapplicable_control_dropped :
  (b ← decode_body demo_body; res_ok (admit_generation true b))
  = Some (mkAdmitted Lyrics None None [("prompt", VString "a song")] 50).
Proof. vm_compute. reflexivity. Qed.
(** A rate-limited billing probe walls the profile as out of credits, and a later
    passing probe that names no counters does not lift that wall. *)
Example rate_limited_probe_walls_credits :
  let failure := from_verdict (classify_status 429) 429 in
  let h := health_of [Effect (probe_effect failure) 1000 None; QuotaPublished (mkSnapshot None None None None) 100000] in
  hard_axis h 200000 50 = Some QuotaExhausted.
Proof. vm_compute. reflexivity. Qed.

Lemma suno_create_exact_witness :
  exists r, handle_create (S (size ({["a"; "b"]} : gset string))) (demo_env (WAnswer 429 true None)) demo_body demo_input = Some r
    /\ (length (c_trace r) <= size ({["a"; "b"]} : gset string))%nat.
Proof.
  destruct (suno_create_exact (demo_env (WAnswer 429 true None)) demo_body demo_input {["a"; "b"]}) as (r & H1 & _ & H2 & _).
  - intros k. apply Nat2Z.is_nonneg.
  - intros k p Hp. cbn [demo_env h_attempts sa_profiles] in Hp.
    apply elem_of_cons in Hp as [->|Hp]; [cbn; set_solver|]. apply list_elem_of_singleton in Hp as ->. cbn. set_solver.
  - exists r. split; [exact H1|exact H2].
Defined.
(** Eight refusals over an hour take a profile out of routing. *)
Definition demo_refusals : list health_event :=
  map (fun t => Effect E_SoftAuthFault t None) [0; 600; 1200; 1800; 2400; 3000; 3300; 3600].
Lemma suno_health_exact_witness :
  candidate (mkProfile "a" (health_of demo_refusals) 0) 3601 5 = None /\ quota_walled (health_of demo_refusals) = false.
Proof.
  split.
  - refine (proj2 (proj1 (suno_health_exact "a" demo_refusals 0) 3601 5) _).
    exists 7%nat, 0, 3600. split; [lia|]. split; [vm_compute; reflexivity|]. split; [vm_compute; reflexivity|]. vm_compute. discriminate.
  - exact (proj1 (proj2 (suno_health_exact "a" demo_refusals 0))).
Defined.
