(* ===== verification/SunoSettle.v ===== *)
(** * The life of a Suno generation after its creation
    ([crates/forward/src/suno/client.rs], [gateway.rs],
    [crates/registry/src/suno_calibration.rs])

    The billing probe, the polls of a created generation, the detached drain with
    its deadline, the settlement from the attributed movement of credits, the
    immutable turn event, and the record customers read.  Answers, clocks, file
    storage and the billing authority are the environment. *)
From S2P Require Import Prelude Text Tariffs MeterUsage MediaTariffs RouterWire RouterCatalog MediaPlane MediaDrain SunoPlane.
#[local] Open Scope Z_scope.

(** ** The billing probe ([client.rs]) *)
Inductive BillingProbe : Type := ProbeValid (s : BillingSnapshot) | ProbeInvalid.
Definition raw_counter (v : option Value) : result () (option Z) :=
  match v with
  | None | Some VNull => Ok None
  | Some (VNumber n) => Some <$> ok_or (as_i64 (VNumber n)) ()
  | Some _ => Err ()
  end.
Definition parse_billing_probe (status : Z) (body : option Value) : result () BillingProbe :=
  if one_of [401; 403] status then Ok ProbeInvalid
  else if negb (status =? 200) then Err ()
  else
    parsed ← ok_or body ();
    period ← match get "period" parsed with
             | None | Some VNull => Ok None
             | Some (VString text) =>
                 let text := trim text in
                 if bool_decide (text = EmptyString) || (128 <? str_len text) then Err () else Ok (Some text)
             | Some _ => Err ()
             end;
    credits ← raw_counter (get "total_credits_left" parsed);
    limit ← raw_counter (get "monthly_limit" parsed);
    used ← raw_counter (get "monthly_usage" parsed);
    Ok (ProbeValid (mkSnapshot credits limit used period)).
(** A read of the endpoint: the maintenance path and the path of a creation.  An
    oversized answer and a shutdown during the exchange count as transport
    failures, whose verdict they share. *)
Definition fetch_quota (jwt : result SessionError ()) (w : wire) : result GatewayFailure BillingSnapshot :=
  match jwt with
  | Err e => Err (SunoPlane.from_verdict (session_verdict e) 502)
  | Ok _ =>
      match w with
      | WAnswer status true body =>
          match parse_billing_probe status body with
          | Ok (ProbeValid s) => Ok s
          | Ok ProbeInvalid => Err F_Auth
          | Err _ => Err (SunoPlane.from_verdict (classify_status status) status)
          end
      | _ => Err F_Transport
      end
  end.
Definition read_quota_with (w : wire) : result UpstreamVerdict BillingSnapshot :=
  match w with
  | WAnswer status true body =>
      match parse_billing_probe status body with
      | Ok (ProbeValid s) => Ok s
      | Ok ProbeInvalid => Err V_AuthRefused
      | Err _ => Err (classify_status status)
      end
  | _ => Err V_Transport
  end.

(** ** Polling a generation ([client.rs], [poll_upstream]) *)
Inductive ClipLifecycle : Type := Submitted | Queued | Streaming | Complete | Error.
#[global] Instance ClipLifecycle_eq_dec : EqDecision ClipLifecycle.
Proof. solve_decision. Defined.
Definition is_final (c : ClipLifecycle) : bool := match c with Complete | Error => true | _ => false end.
Definition lifecycle_str (c : ClipLifecycle) : string :=
  match c with Submitted => "submitted" | Queued => "queued" | Streaming => "streaming" | Complete => "complete" | Error => "error" end.
Definition parse_clip_lifecycle (raw : string) : option ClipLifecycle :=
  if bool_decide (raw = "submitted") then Some Submitted
  else if bool_decide (raw = "queued") then Some Queued
  else if bool_decide (raw = "streaming") then Some Streaming
  else if bool_decide (raw = "complete") then Some Complete
  else if bool_decide (raw = "error") then Some Error
  else None.
Record ClipState := mkClip {
  cl_id : string; cl_lifecycle : option ClipLifecycle; cl_served_model : option string; cl_title : option string;
  cl_artifacts : list (string * string) }.
Definition ARTIFACT_FIELDS : list string := ["audio_url"; "video_url"; "image_url"].
Definition bounded_field (k : string) (ok : string -> bool) (v : Value) : option string :=
  s ← get k v >>? as_str; if ok s then Some s else None.
Definition parse_clip_object (v : Value) : result UpstreamVerdict ClipState :=
  id ← ok_or (provider_id v) V_Protocol;
  lifecycle ← ok_or (get "status" v >>? as_str >>? parse_clip_lifecycle) V_Protocol;
  let model := bounded_field "model_name" (fun m => negb (bool_decide (m = EmptyString)) && (str_len m <=? 256)) v in
  let title := bounded_field "title" (fun t => str_len t <=? 1024) v in
  let artifacts := omap (fun f =>
    url ← bounded_field f (fun u => negb (bool_decide (u = EmptyString)) && (str_len u <=? 4096)) v; Some (f, url)) ARTIFACT_FIELDS in
  Ok (mkClip id (Some lifecycle) model title artifacts).
Definition on_success {A} (status : Z) (body : option Value) (read : Value -> result UpstreamVerdict A) : result UpstreamVerdict A :=
  if negb (bool_decide (classify_status status = V_Ok)) then Err (classify_status status)
  else parsed ← ok_or body V_Protocol; read parsed.
Definition parse_feed_clips (status : Z) (body : option Value) : result UpstreamVerdict (list ClipState) :=
  on_success status body (fun parsed => match parsed with VArray l => mapM parse_clip_object l | _ => Err V_Protocol end).
Definition parse_clip (status : Z) (body : option Value) : result UpstreamVerdict ClipState :=
  on_success status body parse_clip_object.
Record LyricsState := mkLyrics { ly_id : string; status_raw : option string; ly_title : option string; ly_text : option string }.
Definition parse_lyrics_state (status : Z) (body : option Value) : result UpstreamVerdict LyricsState :=
  on_success status body (fun parsed =>
    let bounded f max := bounded_field f (fun v => str_len v <=? max) parsed in
    id ← ok_or (provider_id parsed) V_Protocol;
    Ok (mkLyrics id (bounded "status" 128) (bounded "title" 1024) (bounded "text" (32 * 1024)))).

Inductive Finalized : Type := Clips (clips : list ClipState) (succeeded : bool) | LyricsDone (s : LyricsState) | LyricsFailed.
Inductive DrainPoll : Type := Pending (status : string) | Final (f : Finalized).
(** [authed_get]: the exchange of one poll. *)
Definition authed_get (jwt : result SessionError ()) (w : wire) : result UpstreamVerdict (Z * option Value) :=
  match jwt with
  | Err e => Err (session_verdict e)
  | Ok _ => match w with WAnswer status _ body => Ok (status, body) | _ => Err V_Transport end
  end.
Definition poll_upstream (k : OperationKind) (upstream_ids : list string) (jwt : result SessionError ()) (w : wire)
    : result UpstreamVerdict DrainPoll :=
  match k with
  | Song | Extend =>
      answer ← authed_get jwt w;
      clips ← parse_feed_clips answer.1 answer.2;
      if existsb (fun c => bool_decide (cl_lifecycle c = Some Error)) clips then Ok (Final (Clips clips false))
      else if match clips with [] => false | _ => true end
           && forallb (fun c => match cl_lifecycle c with Some l => is_final l | None => false end) clips
      then Ok (Final (Clips clips true))
      else Ok (Pending (match omap cl_lifecycle clips with l :: _ => lifecycle_str l | [] => "queued" end))
  | Stems =>
      match upstream_ids with
      | [] => Err V_Protocol
      | _ :: _ =>
          answer ← authed_get jwt w;
          clip ← parse_clip answer.1 answer.2;
          match cl_lifecycle clip with
          | Some Complete => Ok (Final (Clips [clip] true))
          | Some Error => Ok (Final (Clips [clip] false))
          | Some l => Ok (Pending (lifecycle_str l))
          | None => Err V_Protocol
          end
      end
  | Lyrics =>
      match upstream_ids with
      | [] => Err V_Protocol
      | _ :: _ =>
          answer ← authed_get jwt w;
          state ← parse_lyrics_state answer.1 answer.2;
          if bool_decide (status_raw state = Some "complete") then Ok (Final (LyricsDone state))
          else if bool_decide (status_raw state = Some "error") then Ok (Final LyricsFailed)
          else Ok (Pending "queued")
      end
  end.

(** ** The record customers read *)
Abbreviation GenerationRecord := (tracked OperationKind ()).
Abbreviation Generations := (records OperationKind ()).
Definition track_generation (entries : list (string * GenerationRecord)) (g : Generations) (request_id : string)
    (k : OperationKind) (account : option string) (now : Z) : Generations := track_record entries g request_id k () account now.
Definition terminal_status (f : Finalized) : string :=
  match f with Clips _ true | LyricsDone _ => "complete" | Clips _ false | LyricsFailed => "error" end.
Record GenerationView := mkView {
  v_generation_id : string; v_operation : string; v_status : string; v_artifacts : list string;
  v_created_at : Z; v_updated_at : Z; v_error : option string }.
Definition generation_view (g : Generations) (id : string) (requester : option string) : option GenerationView :=
  r ← read_record g id requester;
  Some (mkView id (as_wire (g_kind r)) (g_status r) (g_artifacts r) (g_created_at r) (g_updated_at r) (g_error r)).
Definition generation_artifact_path (path : string -> string -> string) (g : Generations) (id name : string) (requester : option string)
    : option string := artifact_path_of path g id name requester.

(** ** Settlement ([finalize_generation], [suno_calibration.rs]) *)
Definition SUNO_NANOUSD_PER_MILLICREDIT : Z := 4000.
Definition SUNO_TARIFF_SCHEDULE_ID : string := "suno/derived-subscription/2026-08-12".
Definition credit_delta (baseline post : BillingSnapshot) : option Z :=
  match total_credits_left baseline, total_credits_left post with
  | Some before, Some after => if after <=? before then Some (wrap_i64 (before - after)) else None
  | _, _ =>
      match monthly_usage baseline, monthly_usage post with
      | Some before, Some after => if before <=? after then Some (wrap_i64 (after - before)) else None
      | _, _ => None
      end
  end.
(** What the drain knows when the generation is final: the post-turn reading and
    the epoch loaded after it. *)
Record final_reading := mkReading { fr_post : option BillingSnapshot; fr_epoch : Z }.
Definition attributed_delta (baseline : option AttributionBaseline) (r : final_reading) : option Z :=
  match baseline, fr_post r with
  | Some b, Some post => if fr_epoch r =? bl_epoch b then credit_delta (bl_snapshot b) post else None
  | _, _ => None
  end.
Inductive Money : Type := Attributed (credits : Z) | Refund | Reserve (reason : string).
#[global] Instance Money_eq_dec : EqDecision Money.
Proof. solve_decision. Defined.
(** The counters [tariff_anomaly] and [unattributed_settlements] a decision adds to. *)
Record counted := mkCounted { n_anomaly : Z; n_unattributed : Z }.
Definition decide_money (succeeded : bool) (delta : option Z) (reserve_credits : Z) : Money * counted :=
  match delta with
  | Some delta =>
      if negb succeeded && (delta =? 0) then (Refund, mkCounted 0 0)
      else if (0 <? delta) && (delta <=? reserve_credits) then (Attributed delta, mkCounted 0 0)
      else (Reserve "suno-tariff-anomaly", mkCounted 1 0)
  | None => (Reserve "suno-attribution-ambiguous", mkCounted 0 1)
  end.
(** Both legs of the price and whether they come from the schedule; [None] is the
    overflow that falls back to the conservative settlement. *)
Definition api_leg (milli : Z) : option Z := checked_i128 (milli * SUNO_NANOUSD_PER_MILLICREDIT) >>? checked_i64.
Definition price (m : Money) (reserve_credits : Z) : option (Z * Z * bool) :=
  match m with
  | Attributed credits => let milli := sat_i64 (credits * 1000) in api ← api_leg milli; Some (milli, api, false)
  | Refund => Some (0, 0, true)
  | Reserve _ => let milli := sat_i64 (reserve_credits * 1000) in api ← api_leg milli; Some (milli, api, true)
  end.
Record SunoTurnCalibrationEvent := mkEvent {
  ev_request_id : string; ev_subject_id : string; ev_plan : string; ev_requested_model : string; ev_served_model : option string;
  ev_schedule : string; ev_priced_ts : Z; ev_completed_at : Z; ev_upstream_clip_id : string;
  ev_native_millicredits : Z; ev_api_nanousd : Z; ev_schedule_derived : bool }.
Inductive SunoEventError : Type := MissingIdentity | InvalidTimestamp | NegativeCounter | LegsDisagree | UnsupportedPlan.
Definition validate_event (e : SunoTurnCalibrationEvent) : result SunoEventError () :=
  _ ← guard_ok (negb (existsb is_blank [ev_request_id e; ev_subject_id e; ev_plan e; ev_requested_model e; ev_schedule e; ev_upstream_clip_id e])) MissingIdentity;
  _ ← guard_ok (negb (match ev_served_model e with Some m => is_blank m | None => false end)) MissingIdentity;
  _ ← guard_ok (bool_decide (ev_plan e = "Pro") || bool_decide (ev_plan e = "Premier")) UnsupportedPlan;
  _ ← guard_ok (negb ((ev_priced_ts e <=? 0) || (ev_completed_at e <=? 0))) InvalidTimestamp;
  _ ← guard_ok (negb ((ev_native_millicredits e <? 0) || (ev_api_nanousd e <? 0))) NegativeCounter;
  expected ← ok_or (checked_i128 (ev_native_millicredits e * SUNO_NANOUSD_PER_MILLICREDIT)) LegsDisagree;
  guard_ok (expected =? ev_api_nanousd e) LegsDisagree.

(** What the detached drain of a generation carries. *)
Record DrainContext := mkContext {
  dc_request_id : string; dc_kind : OperationKind; dc_requested_model : option string; dc_reserve_credits : Z; dc_priced_ts : Z;
  dc_subject_id : string; dc_plan : string; dc_reservation : option Reservation; dc_baseline : option AttributionBaseline }.
Definition succeeded_of (f : Finalized) : bool := match f with Clips _ s => s | LyricsDone _ => true | LyricsFailed => false end.
Definition served_model_of (f : Finalized) : option string :=
  match f with Clips clips _ => head (omap cl_served_model clips) | _ => None end.
Definition upstream_clip_id_of (f : Finalized) : string :=
  match f with Clips (c :: _) _ => cl_id c | Clips [] _ => "unknown" | LyricsDone s => ly_id s | LyricsFailed => "unknown" end.
(** The artifact names to store, in order, each with its source. *)
Definition artifact_jobs (f : Finalized) : list string :=
  match f with
  | Clips clips true =>
      clips ≫= fun c => map (fun a => match clips with _ :: _ :: _ => cl_id c +:+ "." +:+ a.1 | _ => a.1 end) (cl_artifacts c)
  | LyricsDone s => match ly_text s with Some _ => ["lyrics.txt"] | None => [] end
  | _ => []
  end.
Record finalized_result := mkFinalized {
  f_stored : list string; f_failures : Z; f_settles : list settle_call; f_counted : counted;
  f_turn : option (SunoTurnCalibrationEvent * option BillingSnapshot) }.
(** [store] is the outcome of storing one artifact, [read] what was read after
    the artifacts, [completed_at] the clock. *)
Definition finalize_generation (authority : bool) (c : DrainContext) (f : Finalized) (store : string -> option string)
    (r : final_reading) (completed_at : Z) : finalized_result :=
  let jobs := artifact_jobs f in
  let stored := omap store jobs in
  let failures := Z.of_nat (length jobs) - Z.of_nat (length stored) in
  let '(money, n) := decide_money (succeeded_of f) (attributed_delta (dc_baseline c) r) (dc_reserve_credits c) in
  match price money (dc_reserve_credits c) with
  | None =>
      mkFinalized stored failures (settle_conservative_hold authority (dc_reservation c) "suno-money-overflow")
        (mkCounted (n_anomaly n + 1) (n_unattributed n)) None
  | Some (native, api, derived) =>
      let event := mkEvent (dc_request_id c) (dc_subject_id c) (dc_plan c) (default (as_wire (dc_kind c)) (dc_requested_model c))
        (served_model_of f) SUNO_TARIFF_SCHEDULE_ID (dc_priced_ts c) completed_at (upstream_clip_id_of f) native api derived in
      mkFinalized stored failures (settle_exact authority (dc_reservation c) api) n
        (match validate_event event with Ok _ => Some (event, fr_post r) | Err _ => None end)
  end.

(** ** The drain *)
Definition POLL_INTERVAL_MS : Z := 3 * 1000.
(** One iteration: the abort flag, the time since the drain began, the session
    and the exchange of its poll, the clock. *)
Record suno_poll := mkSunoPoll { sp_abort : bool; sp_elapsed_ms : Z; sp_jwt : result SessionError (); sp_wire : wire; sp_now : Z }.
Definition poll_of (k : OperationKind) (ids : list string) (e : suno_poll) : poll_env Finalized () :=
  mkPoll (sp_abort e) (sp_elapsed_ms e)
    (match poll_upstream k ids (sp_jwt e) (sp_wire e) with
     | Ok (Pending status) => Ongoing status ()
     | Ok (Final f) => Over f
     | Err V_ClientError | Err V_Protocol => Gone
     | Err _ => Again
     end) (sp_now e).
Definition suno_ends : end_names :=
  mkNames "suno_poll_deadline" "suno-poll-deadline" "suno_generation_lost" "suno-generation-lost".
(** What the end of the drain meets. *)
Record end_env := mkEnd { ee_authority : bool; ee_store : string -> option string; ee_reading : final_reading; ee_now : Z }.
Definition finalized_record (c : DrainContext) (e : end_env) (f : Finalized)
    : final_record (SunoTurnCalibrationEvent * option BillingSnapshot) :=
  let r := finalize_generation (ee_authority e) c f (ee_store e) (ee_reading e) (ee_now e) in
  mkFinal (f_settles r) (f_turn r) (terminal_status f) None (f_stored r).
(** Only a generation the provider finished speaks for its profile, [h]. *)
Definition drained_health (out : drain_end Finalized) (h : ProfileHealth) : ProfileHealth :=
  match out with Finished _ => mark_generation_success h | _ => h end.
Definition drain_generation (fuel : nat) (env : nat -> suno_poll) (e : end_env) (c : DrainContext) (ids : list string) (h : ProfileHealth)
    (g : Generations)
    : option (drain_end Finalized * list settle_call * option (SunoTurnCalibrationEvent * option BillingSnapshot) * ProfileHealth * Generations) :=
  '(out, calls, turn, g) ← run_drain suno_ends (ee_authority e) (finalized_record c e) fuel (fun i => poll_of (dc_kind c) ids (env i))
    (dc_request_id c) (dc_reservation c) (ee_now e) g;
  Some (out, calls, turn, drained_health out h, g).

(** ** The settlement is exact *)
(** The parts of the event that do not concern money. *)
Definition identity_ok (c : DrainContext) (f : Finalized) (completed_at : Z) : bool :=
  negb (existsb is_blank [dc_request_id c; dc_subject_id c; dc_plan c; default (as_wire (dc_kind c)) (dc_requested_model c);
    upstream_clip_id_of f])
  && negb (match served_model_of f with Some m => is_blank m | None => false end)
  && (bool_decide (dc_plan c = "Pro") || bool_decide (dc_plan c = "Premier"))
  && negb ((dc_priced_ts c <=? 0) || (completed_at <=? 0)).
(** The native charge a finalized generation has earned, in credits. *)
Definition earned (succeeded : bool) (delta : option Z) (reserve : Z) : Z :=
  match delta with
  | Some d => if (0 <? d) && (d <=? reserve) then d else if negb succeeded && (d =? 0) then 0 else reserve
  | None => reserve
  end.
Definition provider_reported (delta : option Z) (reserve : Z) : bool :=
  match delta with Some d => (0 <? d) && (d <=? reserve) | None => false end.

Lemma price_decided succeeded delta reserve :
  0 < reserve <= 1000000 ->
  let native := 1000 * earned succeeded delta reserve in
  price (decide_money succeeded delta reserve).1 reserve
  = Some (native, SUNO_NANOUSD_PER_MILLICREDIT * native, negb (provider_reported delta reserve))
  /\ 0 <= native <= 1000 * reserve.
Proof.
  intros Hr. assert (Hleg : forall m, 0 <= m <= reserve ->
    api_leg (sat_i64 (m * 1000)) = Some (SUNO_NANOUSD_PER_MILLICREDIT * (1000 * m)) /\ sat_i64 (m * 1000) = 1000 * m).
  { intros m Hm. assert (Hs : sat_i64 (m * 1000) = 1000 * m) by width_lia. split; [|done]. rewrite Hs.
    unfold api_leg, SUNO_NANOUSD_PER_MILLICREDIT, checked_i128, checked_i64. rewrite decide_True by width_lia. cbn.
    rewrite decide_True by width_lia. f_equal. lia. }
  destruct (Hleg reserve ltac:(lia)) as [L1 L2]. unfold decide_money, earned, provider_reported. destruct delta as [d|].
  - destruct (Z.ltb_spec 0 d); cbn.
    + replace (d =? 0) with false by (symmetry; apply Z.eqb_neq; lia). rewrite andb_false_r.
      destruct (Z.leb_spec d reserve); cbn.
      * destruct (Hleg d ltac:(lia)) as [D1 D2]. rewrite D1, D2. cbn. split; [done|lia].
      * rewrite L1, L2. cbn. split; [done|lia].
    + destruct (negb succeeded && (d =? 0)) eqn:Ez; cbn; [split; [done|lia]|]. rewrite L1, L2. cbn. split; [done|lia].
  - cbn. rewrite L1, L2. cbn. split; [done|lia].
Qed.
Lemma validate_event_identity c f completed native derived served :
  0 <= native <= 1000000000 -> served = served_model_of f ->
  (exists x, validate_event (mkEvent (dc_request_id c) (dc_subject_id c) (dc_plan c) (default (as_wire (dc_kind c)) (dc_requested_model c))
     served SUNO_TARIFF_SCHEDULE_ID (dc_priced_ts c) completed (upstream_clip_id_of f) native (SUNO_NANOUSD_PER_MILLICREDIT * native) derived) = Ok x)
  <-> identity_ok c f completed = true.
Proof.
  intros Hn ->. unfold validate_event, identity_ok. cbn [ev_request_id ev_subject_id ev_plan ev_requested_model ev_served_model ev_schedule
    ev_priced_ts ev_completed_at ev_upstream_clip_id ev_native_millicredits ev_api_nanousd].
  assert (Hl : checked_i128 (native * SUNO_NANOUSD_PER_MILLICREDIT) = Some (native * SUNO_NANOUSD_PER_MILLICREDIT)).
  { unfold checked_i128, SUNO_NANOUSD_PER_MILLICREDIT. rewrite decide_True by width_lia. done. }
  rewrite Hl. cbn [existsb].
  replace (is_blank SUNO_TARIFF_SCHEDULE_ID) with false by done.
  rewrite (proj2 (Z.ltb_ge native 0)), (proj2 (Z.ltb_ge (SUNO_NANOUSD_PER_MILLICREDIT * native) 0)) by (unfold SUNO_NANOUSD_PER_MILLICREDIT; lia).
  rewrite (Z.mul_comm SUNO_NANOUSD_PER_MILLICREDIT). set (leg := native * SUNO_NANOUSD_PER_MILLICREDIT). clearbody leg. cbn [ok_or].
  destruct (is_blank (dc_request_id c)), (is_blank (dc_subject_id c)), (is_blank (dc_plan c)), (is_blank (default _ _)),
    (is_blank (upstream_clip_id_of f)); cbn; try (split; [by intros [? ?]|done]).
  destruct (match served_model_of f with Some m => is_blank m | None => false end); cbn; [split; [by intros [? ?]|done]|].
  destruct (bool_decide (dc_plan c = "Pro") || bool_decide (dc_plan c = "Premier")); cbn; [|split; [by intros [? ?]|done]].
  destruct ((dc_priced_ts c <=? 0) || (completed <=? 0)); cbn; [split; [by intros [? ?]|done]|].
  rewrite Z.eqb_refl. split; [done|by exists ()].
Qed.

(** C25: A final generation is charged exactly what it earned.  A movement of credits
    attributed to it within its reserve is charged as it is; a failed generation
    with no movement is free; everything else is charged at the reserve and marked
    as such.  The charge never exceeds the reserve, the nanodollar leg is the
    native leg at the fixed rate, no admitted price overflows, the customer pays
    the rounded product with the pinned multiplier in one call that also returns
    the hold, and the turn event is delivered exactly when its identity is
    complete: its money legs never make it invalid. *)
Theorem suno_settlement_exact (c : DrainContext) (f : Finalized) (store : string -> option string) (r : final_reading) (completed_at : Z) :
  dc_reserve_credits c = kind_reserve_credits (dc_kind c) ->
  (forall rv, dc_reservation c = Some rv -> 0 <= rv_mult_bp rv <= i64_max) ->
  let reserve := dc_reserve_credits c in
  let delta := attributed_delta (dc_baseline c) r in
  let credits := earned (succeeded_of f) delta reserve in
  let nano := 4000000 * credits in
  let out := finalize_generation true c f store r completed_at in
  0 <= credits <= reserve
  /\ f_settles out = match dc_reservation c with
     | Some rv => [mkSettle (rv_hold rv) (Z.min i64_max ((nano * rv_mult_bp rv + 5000) / 10000)) None (if 0 <? credits then Some nano else None)]
     | None => []
     end
  /\ (f_turn out <> None <-> identity_ok c f completed_at = true)
  /\ (forall ev post, f_turn out = Some (ev, post) -> post = fr_post r /\ ev_native_millicredits ev = 1000 * credits
        /\ ev_api_nanousd ev = nano /\ ev_schedule_derived ev = negb (provider_reported delta reserve))
  /\ f_counted out = mkCounted (if bool_decide (is_Some delta) && negb (provider_reported delta reserve)
                                  && negb (negb (succeeded_of f) && bool_decide (delta = Some 0)) then 1 else 0)
                               (if bool_decide (delta = None) then 1 else 0).
Proof.
  intros Hres Hmult reserve delta credits nano out.
  assert (Hr : 0 < reserve <= 50) by (unfold reserve; rewrite Hres; destruct (dc_kind c); by vm_compute).
  destruct (price_decided (succeeded_of f) delta reserve ltac:(lia)) as [Hp Hn]. fold credits in Hp, Hn.
  assert (Hnano : SUNO_NANOUSD_PER_MILLICREDIT * (1000 * credits) = nano) by (unfold SUNO_NANOUSD_PER_MILLICREDIT, nano; lia).
  assert (Hnb : 0 <= nano <= 200000000) by (unfold nano; lia).
  unfold out, finalize_generation. fold delta reserve. destruct (decide_money (succeeded_of f) delta reserve) as [money n] eqn:Em.
  cbn [fst] in Hp. rewrite Hp. cbn [f_settles f_turn f_counted]. clear Hp. clearbody credits reserve. split; [lia|]. split; [|split; [|split]].
  - rewrite Hnano, settle_exact_spec by (done || lia). destruct (dc_reservation c) as [rv|]; [|done].
    f_equal. f_equal. unfold nano. by destruct (Z.ltb_spec 0 credits), (Z.ltb_spec 0 (4000000 * credits)); try lia.
  - rewrite <- (validate_event_identity c f completed_at (1000 * credits) (negb (provider_reported delta reserve)) _ ltac:(lia) eq_refl).
    destruct (validate_event _) as [x|e]; split; try done; [by exists x|by intros [? ?]].
  - intros ev post. destruct (validate_event _); [|done]. intros [= <- <-]. by rewrite <- Hnano.
  - unfold decide_money, provider_reported in *. destruct delta as [d|]; [|by injection Em as <- <-].
    rewrite (bool_decide_eq_true_2 (is_Some (Some d))) by eauto. rewrite (bool_decide_eq_false_2 (Some d = None)) by done.
    replace (bool_decide (Some d = Some 0)) with (d =? 0)
      by (destruct (Z.eqb_spec d 0); [by rewrite bool_decide_eq_true_2 by congruence|by rewrite bool_decide_eq_false_2 by congruence]).
    destruct (negb (succeeded_of f) && (d =? 0)) eqn:Ez.
    + injection Em as <- <-. cbn. by rewrite andb_false_r.
    + cbn. rewrite andb_true_r. destruct ((0 <? d) && (d <=? reserve)); by injection Em as <- <-.
Qed.

(** ** The drain ends *)
(** The drain of a created generation always ends, and settles once.  With polls
    three seconds apart, unless a shutdown intervenes, it ends within 601 polls,
    whatever the provider answers.  A shutdown settles nothing and leaves the
    record open; every other end settles the reservation in exactly one call,
    returns exactly its hold, finalizes the record, and reports it complete
    exactly if the provider said that the generation succeeded.  A turn event is
    produced only by a generation the provider finished, and only such an end
    touches the health of the profile, whose walls it leaves standing. *)
Theorem suno_drain_ends (env : nat -> suno_poll) (e : end_env) (c : DrainContext) (ids : list string) (h : ProfileHealth)
    (g : Generations) (r : GenerationRecord) :
  0 <= sp_elapsed_ms (env 0%nat) ->
  (forall i, sp_abort (env (S i)) = true \/ sp_elapsed_ms (env i) + POLL_INTERVAL_MS <= sp_elapsed_ms (env (S i))) ->
  g !! dc_request_id c = Some r -> g_finalized r = false -> ee_authority e = true ->
  exists out calls turn h' g', drain_generation 601 env e c ids h g = Some (out, calls, turn, h', g')
  /\ (exists r', g' !! dc_request_id c = Some r' /\ g_account r' = g_account r
       /\ (g_finalized r' = true <-> out <> Aborted)
       /\ (forall f, out = Finished f -> g_status r' = "complete" <-> succeeded_of f = true))
  /\ (out = Aborted -> calls = [])
  /\ (out <> Aborted -> forall rv, dc_reservation c = Some rv -> exists call, calls = [call] /\ sc_hold call = rv_hold rv)
  /\ (turn <> None -> exists f, out = Finished f)
  /\ rate_limit_cool_until h' = rate_limit_cool_until h /\ quota_walled h' = quota_walled h
  /\ ((forall f, out <> Finished f) -> h' = h).
Proof.
  intros H0 Hstep Hr Hfin Hau. unfold drain_generation.
  destruct (drain_ends suno_ends (ee_authority e) (finalized_record c e) POLL_INTERVAL_MS 600 (fun i => poll_of (dc_kind c) ids (env i))
    (dc_request_id c) (dc_reservation c) (ee_now e) g r) as (out & calls & turn & g' & -> & (r' & Hr' & Ha & Hf & Hs) & Hab & Hone & Ht);
    [done|vm_compute; discriminate|done..| |].
  { intros i f _. cbn. unfold finalize_generation. rewrite Hau. destruct (decide_money _ _ _) as [money n].
    destruct (price money _) as [[[nat_ api] der]|]; [apply settle_exact_once|apply settle_conservative_once]. }
  cbn [mbind option_bind]. exists out, calls, turn, (drained_health out h), g'. split; [done|]. split.
  - exists r'. split; [done|]. split; [done|]. split; [done|]. intros f Ho. rewrite (Hs f Ho). cbn. by destruct f as [cl []| |].
  - split; [done|]. split; [intros Ho rv Hrv; specialize (Hone Ho); by rewrite Hrv in Hone|]. split; [done|].
    destruct out as [| | |f]; try done. split; [done|]. split; [done|]. intros Ho. by destruct (Ho f).
Qed.

(** ** Reading generations *)
(** Customers read exactly their own generations and those of the operator.  A
    view is answered exactly if the record exists and its owner, where it has one,
    is the reader or the reader is the operator; an artifact only under the same
    condition and only by a name the record holds.  Tracking a new generation
    forgets no other generation that still runs, whatever the iteration order of
    the map, and keeps the map within its capacity as long as a finished record
    can make room. *)
Theorem suno_generations_isolated (path : string -> string -> string) (g : Generations) (id : string) (requester : option string) :
  (is_Some (generation_view g id requester) <->
     exists r, g !! id = Some r /\ (requester = None \/ g_account r = None \/ g_account r = requester))
  /\ (forall name p, generation_artifact_path path g id name requester = Some p ->
        p = path id name /\ exists v, generation_view g id requester = Some v /\ name ∈ v_artifacts v)
  /\ (forall entries request_id k account now, entries ≡ₚ map_to_list g ->
        let g' := track_generation entries g request_id k account now in
        (forall j r, g !! j = Some r -> g_finalized r = false -> j <> request_id -> g' !! j = Some r)
        /\ (Z.of_nat (size g) <= TRACK_CAPACITY -> g !! request_id = None ->
            (exists j r, g !! j = Some r /\ g_finalized r = true) -> Z.of_nat (size g') <= TRACK_CAPACITY)).
Proof.
  split; [|split].
  - rewrite <- read_record_spec. unfold generation_view. destruct (read_record g id requester); cbn; (split; intros [y Hy]; [|]); by eauto.
  - intros name p (-> & r & Hr & Hin)%artifact_path_spec. split; [done|]. unfold generation_view. rewrite Hr. by eexists.
  - intros entries request_id k account now Hp. by apply track_record_spec.
Qed.

(** ** Runs *)
Definition demo_clip (id status : string) : Value :=
  VObject [("id", VString id); ("status", VString status); ("audio_url", VString "https://cdn/x")].
Definition demo_poll (clips : list Value) (elapsed : Z) : suno_poll :=
  mkSunoPoll false elapsed (Ok ()) (WAnswer 200 true (Some (VArray clips))) 2000.
(** While one of two clips still streams, the record already says complete. *)
Example complete_before_delivery :
  poll_upstream Song ["a"; "b"] (Ok ()) (WAnswer 200 true (Some (VArray [demo_clip "a" "complete"; demo_clip "b" "streaming"])))
  = Ok (Pending "complete").
Proof. vm_compute. reflexivity. Qed.
Definition demo_context : DrainContext :=
  mkContext "req" Song (Some "v5") 5 1000 "subject" "Pro" (Some (mkReservation "acct" "key" HOLD_NANO 11000))
    (Some (mkBaseline (mkSnapshot (Some 500) None None None) 7)).
Definition demo_generations : Generations := {["req" := mkRecord Song (Some "acct") "created" () [] 1000 1000 None false]}.
Definition demo_final : Finalized := Clips [mkClip "a" (Some Complete) None None [("audio_url", "https://cdn/x")]] true.
Definition demo_reading : final_reading := mkReading (Some (mkSnapshot (Some 496) None None None)) 7.
Definition demo_end : end_env := mkEnd true Some demo_reading 3000.
Definition demo_polls (i : nat) : suno_poll :=
  demo_poll [demo_clip "a" (match i with O => "queued" | _ => "complete" end)] (Z.of_nat i * 3000).
(** Four credits at eleven tenths of the price. *)
Example demo_drain :
  (fun x => (x.1.1.1.1, x.1.1.1.2)) <$> drain_generation 601 demo_polls demo_end demo_context ["a"] ProfileHealth_default demo_generations
  = Some (Finished demo_final, [mkSettle 0 17600000 None (Some 16000000)]).
Proof. vm_compute. reflexivity. Qed.
(** A lost generation, an expired drain and an overflow charge the hold, which is
    nothing. *)
Example conservative_settlement_is_free :
  settle_conservative_hold true (dc_reservation demo_context) "suno-generation-lost" = [mkSettle 0 0 (Some "suno-generation-lost") None].
Proof. reflexivity. Qed.
(** Any customer reads a generation of the operator. *)
Example operator_generation_readable :
  is_Some (generation_view {["req" := mkRecord Song None "created" () [] 1000 1000 None false]} "req" (Some "acct")).
Proof. vm_compute. eauto. Qed.

Lemma suno_settlement_exact_witness :
  f_settles (finalize_generation true demo_context demo_final Some demo_reading 3000)
  = [mkSettle 0 17600000 None (Some 16000000)].
Proof.
  refine (proj1 (proj2 (suno_settlement_exact demo_context demo_final Some demo_reading 3000 eq_refl _))).
  intros rv [= <-]. vm_compute. split; discriminate.
Defined.
Lemma suno_drain_ends_witness :
  exists out calls turn h' g', drain_generation 601 demo_polls demo_end demo_context ["a"] ProfileHealth_default demo_generations
    = Some (out, calls, turn, h', g').
Proof.
  destruct (suno_drain_ends demo_polls demo_end demo_context ["a"] ProfileHealth_default demo_generations (mkRecord Song (Some "acct") "created" () [] 1000 1000 None false))
    as (out & calls & turn & h' & g' & H & _).
  - vm_compute. discriminate.
  - intros i. right. unfold demo_polls, demo_poll, POLL_INTERVAL_MS. cbn [sp_elapsed_ms]. lia.
  - vm_compute. reflexivity.
  - reflexivity.
  - reflexivity.
  - exists out, calls, turn, h', g'. exact H.
Defined.
Lemma suno_generations_isolated_witness : is_Some (generation_view demo_generations "req" (Some "acct")).
Proof.
  refine (proj2 (proj1 (suno_generations_isolated (fun a b => a) demo_generations "req" (Some "acct"))) _).
  eexists. split; [vm_compute; reflexivity|]. right. right. reflexivity.
Defined.
