(* ===== verification/TripoAdmit.v ===== *)
(** * Admission on the Tripo3D plane ([crates/forward/src/tripo3d/gateway.rs])

    A create-task request is decoded, checked field by field for its kind,
    translated to the provider's body, pinned to the profile that owns its
    uploaded files, and given a reserve from the rate card.  An object being
    built is the list of its entries, whose keys are distinct. *)
From S2P Require Import Prelude Text Tariffs MeterUsage RouterWire RouterCatalog Tripo3d MediaPlane.
#[local] Open Scope Z_scope.

(** ** Upload tokens *)
Definition TOKEN_PIN_CAPACITY : Z := 4096.
Definition TOKEN_PIN_TTL_SECS : Z := 3600.
Record TokenPin := mkPin { pin_profile : string; pin_object : option (string * string); pin_created : Z }.
Abbreviation Pins := (gmap string TokenPin).
Definition live_pin (pins : Pins) (now : Z) (token : string) : option TokenPin :=
  pin ← pins !! token; if wrap_i64 (now - pin_created pin) <=? TOKEN_PIN_TTL_SECS then Some pin else None.
Definition profile_for_token (pins : Pins) (now : Z) (token : string) : option string := pin_profile <$> live_pin pins now token.
Definition model_object_for_token (pins : Pins) (now : Z) (token : string) : option (string * string * string) :=
  pin ← live_pin pins now token; '(bucket, key) ← pin_object pin; Some (pin_profile pin, bucket, key).
(** [entries] is the map in its iteration order. *)
Definition pin_token (entries : list (string * TokenPin)) (pins : Pins) (token : string) (pin : TokenPin) : Pins :=
  let kept := if (TOKEN_PIN_CAPACITY <=? Z.of_nat (size pins)) && bool_decide (pins !! token = None)
              then match min_by_key (fun e => pin_created e.2) entries with Some (oldest, _) => delete oldest pins | None => pins end
              else pins in
  <[token := pin]> kept.

(** ** The request *)
Record ImageRef := mkImage { im_token : option string; im_url : option string; im_type : option string }.
Record EditPrompt := mkEdit { ed_view : string; ed_prompt : string }.
Record GenerationBody := mkTaskBody {
  q_task_type : string; q_model_version : option string; q_prompt : option string; q_negative_prompt : option string;
  q_image : ImageRef;
  q_files : option (list (option ImageRef));
  q_model_token : option string; q_original_model_task_id : option string; q_draft_model_task_id : option string;
  q_original_task_id : option string; q_format : option string; q_mode : option string;
  q_animations : option (list string); q_out_format : option string; q_rig_type : option string; q_spec : option string;
  q_texture_prompt_text : option string; q_style_image_token : option string; q_style_image_url : option string;
  q_part_names : option (list string); q_prompts : option (list EditPrompt); q_template : option string;
  q_texture : option bool; q_pbr : option bool; q_smart_low_poly : option bool; q_generate_parts : option bool;
  q_quad : option bool; q_style : option bool; q_texture_quality : option string; q_geometry_quality : option string;
  q_face_limit : option Z; q_model_seed : option Z; q_texture_seed : option Z }.
Definition image_fields : list string := ["image_token"; "image_url"; "image_type"].
Definition edit_fields : list string := ["view"; "prompt"].
Definition task_fields : list string :=
  ["type"; "model_version"; "prompt"; "negative_prompt"; "image_token"; "image_url"; "image_type"; "files"; "model_token";
   "original_model_task_id"; "draft_model_task_id"; "original_task_id"; "format"; "mode"; "animations"; "out_format";
   "rig_type"; "spec"; "texture_prompt_text"; "style_image_token"; "style_image_url"; "part_names"; "prompts"; "template";
   "texture"; "pbr"; "smart_low_poly"; "generate_parts"; "quad"; "style"; "texture_quality"; "geometry_quality";
   "face_limit"; "model_seed"; "texture_seed"].
(** A derived deserializer: unknown members are refused, and a sequence of all
    fields in order is accepted as well. *)
Definition struct_of {A} (fields : list string) (read : Value -> option A) (v : Value) : option A :=
  match v with
  | VObject entries => if forallb (fun e => bool_decide (e.1 ∈ fields)) entries then read v else None
  | VArray l => if Nat.eqb (length l) (length fields) then read (VObject (zip fields l)) else None
  | _ => None
  end.
Definition decode_image (v : Value) : option ImageRef :=
  struct_of image_fields (fun v =>
    token ← opt_field as_str "image_token" v; url ← opt_field as_str "image_url" v; type ← opt_field as_str "image_type" v;
    Some (mkImage token url type)) v.
Definition decode_slot (v : Value) : option (option ImageRef) :=
  match v with VNull => Some None | _ => Some <$> decode_image v end.
Definition decode_edit (v : Value) : option EditPrompt :=
  struct_of edit_fields (fun v => view ← get "view" v >>? as_str; prompt ← get "prompt" v >>? as_str; Some (mkEdit view prompt)) v.
Definition as_list {A} (read : Value -> option A) (v : Value) : option (list A) :=
  match v with VArray l => mapM read l | _ => None end.
Definition decode_task (v : Value) : option GenerationBody :=
  struct_of task_fields (fun v =>
    type ← get "type" v >>? as_str;
    version ← opt_field as_str "model_version" v; prompt ← opt_field as_str "prompt" v; negative ← opt_field as_str "negative_prompt" v;
    itoken ← opt_field as_str "image_token" v; iurl ← opt_field as_str "image_url" v; itype ← opt_field as_str "image_type" v;
    files ← opt_field (as_list decode_slot) "files" v; mtoken ← opt_field as_str "model_token" v;
    original_model ← opt_field as_str "original_model_task_id" v; draft ← opt_field as_str "draft_model_task_id" v;
    original ← opt_field as_str "original_task_id" v; format ← opt_field as_str "format" v; mode ← opt_field as_str "mode" v;
    animations ← opt_field as_strings "animations" v; out_format ← opt_field as_str "out_format" v;
    rig ← opt_field as_str "rig_type" v; spec ← opt_field as_str "spec" v;
    ttext ← opt_field as_str "texture_prompt_text" v; stoken ← opt_field as_str "style_image_token" v;
    surl ← opt_field as_str "style_image_url" v; parts ← opt_field as_strings "part_names" v;
    prompts ← opt_field (as_list decode_edit) "prompts" v; template ← opt_field as_str "template" v;
    texture ← opt_field as_bool "texture" v; pbr ← opt_field as_bool "pbr" v; low ← opt_field as_bool "smart_low_poly" v;
    gparts ← opt_field as_bool "generate_parts" v; quad ← opt_field as_bool "quad" v; style ← opt_field as_bool "style" v;
    tq ← opt_field as_str "texture_quality" v; gq ← opt_field as_str "geometry_quality" v;
    face ← opt_field as_u64 "face_limit" v; mseed ← opt_field as_u64 "model_seed" v; tseed ← opt_field as_u64 "texture_seed" v;
    Some (mkTaskBody type version prompt negative (mkImage itoken iurl itype) files mtoken original_model draft original format mode
      animations out_format rig spec ttext stoken surl parts prompts template texture pbr low gparts quad style tq gq face mseed tseed)) v.

(** ** Pieces of the provider's body *)
Definition MAX_TEXT_LEN : Z := 8 * 1024.
Definition MAX_TOKEN_LEN : Z := 512.
Definition MAX_ANIMATIONS : Z := 16.
Definition MULTIVIEW_SLOTS : Z := 4.
Abbreviation entries := (list (string * Value)).
Definition bad_request {A} (code : string) : result GatewayFailure A := Err (F_BadRequest code).
Definition image_kind (image_type : option string) : option string :=
  let t := default "jpg" image_type in
  if bool_decide (t ∈ ["jpg"; "jpeg"]) then Some "jpeg"
  else if bool_decide (t = "png") then Some "png"
  else if bool_decide (t = "webp") then Some "webp"
  else None.
Definition image_file_object (im : ImageRef) : result GatewayFailure Value :=
  kind ← ok_or (image_kind (im_type im)) (F_BadRequest "tripo3d_image_type_unknown");
  match im_token im, im_url im with
  | Some token, None =>
      if bounded_text token MAX_TOKEN_LEN then Ok (VObject [("type", VString kind); ("file_token", VString token)])
      else bad_request "tripo3d_image_input_invalid"
  | None, Some url =>
      if bounded_text url 2048 && (String.prefix "https://" url || String.prefix "http://" url)
      then Ok (VObject [("type", VString kind); ("url", VString url)])
      else bad_request "tripo3d_image_input_invalid"
  | _, _ => bad_request "tripo3d_image_input_invalid"
  end.
Definition bool_flag (v : option bool) : bool := default false v.
Definition entry (b : bool) (k : string) (v : Value) : entries := if b then [(k, v)] else [].
Definition texture_quality_of (raw : option string) : option Tripo3dTextureQuality :=
  match raw with
  | None => Some TQ_Standard
  | Some q =>
      if bool_decide (q = "standard") then Some TQ_Standard
      else if bool_decide (q = "detailed") then Some TQ_Detailed
      else if bool_decide (q = "extreme") then Some TQ_Extreme
      else None
  end.
Definition geometry_quality_of (raw : option string) : option Tripo3dGeometryQuality :=
  match raw with
  | None => Some GQ_Standard
  | Some q => if bool_decide (q = "standard") then Some GQ_Standard else if bool_decide (q = "detailed") then Some GQ_Detailed else None
  end.
Definition generation_options (b : GenerationBody) : result GatewayFailure (Tripo3dOptions * entries) :=
  tq ← ok_or (texture_quality_of (q_texture_quality b)) (F_BadRequest "tripo3d_texture_quality_unknown");
  gq ← ok_or (geometry_quality_of (q_geometry_quality b)) (F_BadRequest "tripo3d_geometry_quality_unknown");
  let o := mkOptions (bool_flag (q_texture b)) (bool_flag (q_pbr b)) (bool_flag (q_smart_low_poly b)) (bool_flag (q_generate_parts b))
    (bool_flag (q_quad b)) (bool_flag (q_style b)) tq gq in
  Ok (o, entry (texture o) "texture" (VBool true) ++ entry (pbr o) "pbr" (VBool true)
    ++ entry (smart_low_poly o) "smart_low_poly" (VBool true) ++ entry (generate_parts o) "generate_parts" (VBool true)
    ++ entry (quad o) "quad" (VBool true) ++ entry (style o) "style" (VBool true)
    ++ entry (texture o && bool_decide (tq ≠ TQ_Standard)) "texture_quality" (VString (default "standard" (q_texture_quality b)))
    ++ entry (bool_decide (gq = GQ_Detailed)) "geometry_quality" (VString "detailed")).

(** ** Admission by kind *)
Section Admit.
Context (pins : Pins) (now : Z).
(** The profile a task is pinned to so far; two tokens never split. *)
Abbreviation sticky := (option string).
Definition pin_for (s : sticky) (token : option string) : result GatewayFailure sticky :=
  match token >>? profile_for_token pins now with
  | None => Ok s
  | Some profile =>
      match s with
      | Some existing => if bool_decide (existing = profile) then Ok (Some profile) else bad_request "tripo3d_image_inputs_split_profiles"
      | None => Ok (Some profile)
      end
  end.
Definition add_image (s : sticky) (im : ImageRef) : result GatewayFailure (Value * sticky) :=
  s ← pin_for s (im_token im); file ← image_file_object im; Ok (file, s).
(** The slots of a request; [skipped] is what an empty slot becomes. *)
Fixpoint add_images (skipped : result GatewayFailure Value) (s : sticky) (slots : list (option ImageRef))
    : result GatewayFailure (list Value * sticky) :=
  match slots with
  | [] => Ok ([], s)
  | slot :: slots =>
      '(file, s) ← match slot with Some im => add_image s im | None => file ← skipped; Ok (file, s) end;
      '(files, s) ← add_images skipped s slots;
      Ok (file :: files, s)
  end.
Definition original_model (b : GenerationBody) : result GatewayFailure string :=
  required_id (q_original_model_task_id b) "tripo3d_original_model_task_required" "tripo3d_original_model_task_invalid".
Definition part_names (b : GenerationBody) : result GatewayFailure entries :=
  match q_part_names b with
  | None => Ok []
  | Some names =>
      if (64 <? Z.of_nat (length names)) || negb (forallb (fun n => bounded_text n MAX_ID_LEN) names)
      then bad_request "tripo3d_part_names_invalid"
      else Ok [("part_names", VArray (map VString names))]
  end.
Definition one_word (v : option string) (words : list string) (key code : string) : result GatewayFailure entries :=
  match v with
  | None => Ok []
  | Some w => if bool_decide (w ∈ words) then Ok [(key, VString w)] else bad_request code
  end.
Definition prompt_within (b : GenerationBody) (max : Z) : result GatewayFailure string :=
  match q_prompt b with
  | Some p => if bounded_text p max then Ok p else bad_request "tripo3d_prompt_required"
  | None => bad_request "tripo3d_prompt_required"
  end.

Definition admit_text (b : GenerationBody) (max max_negative : Z) : result GatewayFailure entries :=
  prompt ← prompt_within b max;
  negative ← text_control (q_negative_prompt b) max_negative "negative_prompt" "tripo3d_negative_prompt_invalid";
  Ok (("prompt", VString prompt) :: negative).
Definition admit_image (b : GenerationBody) : result GatewayFailure (entries * sticky) :=
  '(file, s) ← add_image None (q_image b); Ok ([("file", file)], s).
Definition admit_multiview (b : GenerationBody) : result GatewayFailure (entries * sticky) :=
  files ← ok_or (q_files b) (F_BadRequest "tripo3d_multiview_files_required");
  if negb (Z.of_nat (length files) =? MULTIVIEW_SLOTS) || match files with Some _ :: _ => false | _ => true end
  then bad_request "tripo3d_multiview_slots_invalid"
  else '(wire, s) ← add_images (Ok (VObject [])) None files; Ok ([("files", VArray wire)], s).
Definition has_style_image (b : GenerationBody) : bool := is_given (q_style_image_token b) || is_given (q_style_image_url b).
Definition admit_texture (b : GenerationBody) : result GatewayFailure (entries * sticky) :=
  original ← original_model b;
  _ ← guard_ok (negb (bool_flag (q_style b) && negb (has_style_image b))) (F_BadRequest "tripo3d_style_image_required");
  text ← text_control (q_texture_prompt_text b) MAX_TEXT_LEN "text" "tripo3d_texture_prompt_invalid";
  '(image, s) ← (if has_style_image b
                 then '(file, s) ← add_image None (mkImage (q_style_image_token b) (q_style_image_url b) None); Ok ([("style_image", file)], s)
                 else Ok ([], None));
  parts ← part_names b;
  Ok ([("original_model_task_id", VString original); ("texture", VBool true); ("pbr", VBool true)]
      ++ match q_texture_quality b with Some q => [("texture_quality", VString q)] | None => [] end
      ++ match text ++ image with [] => [] | prompt => [("texture_prompt", VObject prompt)] end ++ parts, s).
Definition admit_rig (b : GenerationBody) : result GatewayFailure entries :=
  out ← one_word (q_out_format b) ["glb"; "fbx"] "out_format" "tripo3d_out_format_unknown";
  rig ← one_word (q_rig_type b) ["biped"; "quadruped"; "hexapod"; "octopod"; "avian"; "serpentine"; "aquatic"; "others"]
          "rig_type" "tripo3d_rig_type_unknown";
  spec ← one_word (q_spec b) ["mixamo"; "tripo"] "spec" "tripo3d_rig_spec_unknown";
  Ok (out ++ rig ++ spec).
Definition admit_retarget (b : GenerationBody) : result GatewayFailure (entries * Z) :=
  original ← original_model b;
  animations ← ok_or (q_animations b) (F_BadRequest "tripo3d_animations_required");
  let n := Z.of_nat (length animations) in
  if (n =? 0) || (MAX_ANIMATIONS <? n) || negb (forallb (fun a => bounded_text a MAX_ID_LEN) animations)
  then bad_request "tripo3d_animations_invalid"
  else
    credits ← ok_or (tripo3d_animate_retarget_credits n) (F_BadRequest "tripo3d_animations_invalid");
    Ok ([("original_model_task_id", VString original); ("animations", VArray (map VString animations))], credits).
Definition convert_mode (mode : option string) : option Tripo3dConvertMode :=
  match mode with
  | None => Some Basic
  | Some m => if bool_decide (m = "basic") then Some Basic else if bool_decide (m = "advanced") then Some Advanced else None
  end.
Definition admit_convert (b : GenerationBody) : result GatewayFailure (entries * Tripo3dConvertMode) :=
  original ← original_model b;
  format ← ok_or (q_format b) (F_BadRequest "tripo3d_format_required");
  if negb (bool_decide (format ∈ ["GLTF"; "USDZ"; "FBX"; "OBJ"; "STL"; "3MF"])) then bad_request "tripo3d_format_unknown"
  else
    mode ← ok_or (convert_mode (q_mode b)) (F_BadRequest "tripo3d_convert_mode_unknown");
    Ok ([("original_model_task_id", VString original); ("format", VString format)], mode).
Definition admit_import (b : GenerationBody) : result GatewayFailure (entries * sticky) :=
  token ← ok_or (q_model_token b) (F_BadRequest "tripo3d_model_token_required");
  '(profile, bucket, key) ← ok_or (model_object_for_token pins now token) (F_BadRequest "tripo3d_model_token_unknown");
  Ok ([("file", VObject [("object", VObject [("bucket", VString bucket); ("key", VString key)])])], Some profile).
Definition admit_generate_image (b : GenerationBody) : result GatewayFailure (entries * sticky) :=
  prompt ← text_control (q_prompt b) 1024 "prompt" "tripo3d_prompt_invalid";
  template ← text_control (q_template b) MAX_ID_LEN "template" "tripo3d_template_invalid";
  let has_single := is_given (im_token (q_image b)) || is_given (im_url (q_image b)) in
  '(inputs, s) ← match has_single, q_files b with
                 | true, None => admit_image b
                 | false, Some references =>
                     if (Z.of_nat (length references) =? 0) || (MULTIVIEW_SLOTS <? Z.of_nat (length references))
                     then bad_request "tripo3d_files_invalid"
                     else '(wire, s) ← add_images (bad_request "tripo3d_files_invalid") None references; Ok ([("files", VArray wire)], s)
                 | true, Some _ => bad_request "tripo3d_image_input_ambiguous"
                 | false, None => Ok ([], None)
                 end;
  let object := VObject (prompt ++ template ++ inputs) in
  if negb (is_given (get "prompt" object)) && negb (is_given (get "file" object)) && negb (is_given (get "template" object))
  then bad_request "tripo3d_generate_image_input_required"
  else Ok (prompt ++ template ++ inputs, s).
Definition edit_ok (e : EditPrompt) : bool :=
  bool_decide (ed_view e ∈ ["front"; "left"; "back"; "right"]) && bounded_text (ed_prompt e) MAX_TEXT_LEN.
Definition admit_edit (b : GenerationBody) : result GatewayFailure (entries * Z) :=
  original ← required_id (q_original_task_id b) "tripo3d_original_task_required" "tripo3d_original_task_invalid";
  prompts ← ok_or (q_prompts b) (F_BadRequest "tripo3d_edit_prompts_required");
  let n := Z.of_nat (length prompts) in
  if (n =? 0) || (MULTIVIEW_SLOTS <? n) || negb (forallb edit_ok prompts) then bad_request "tripo3d_edit_prompts_invalid"
  else
    credits ← ok_or (tripo3d_edit_multiview_image_credits n) (F_BadRequest "tripo3d_edit_prompts_invalid");
    Ok ([("original_task_id", VString original);
         ("prompts", VArray (map (fun e => VObject [("view", VString (ed_view e)); ("prompt", VString (ed_prompt e))]) prompts))], credits).
Definition admit_refine (b : GenerationBody) : result GatewayFailure entries :=
  draft ← required_id (q_draft_model_task_id b) "tripo3d_draft_model_task_required" "tripo3d_draft_model_task_invalid";
  Ok [("draft_model_task_id", VString draft)].

Record AdmittedTask := mkTask {
  a_kind : Tripo3dTaskKind; a_model_version : option string; a_upstream : entries; a_reserve : Z; a_conservative : bool;
  a_sticky : sticky }.
(** What a kind contributes: its entries and its pin, and for the counted kinds
    the reserve that ends admission there. *)
Definition admit_kind (k : Tripo3dTaskKind) (b : GenerationBody) (wire_options : entries)
    : result GatewayFailure (entries * sticky * option (Z * bool)) :=
  match k with
  | TextToModel => e ← admit_text b MAX_TEXT_LEN MAX_TEXT_LEN; Ok (e ++ wire_options, None, None)
  | ImageToModel => '(e, s) ← admit_image b; Ok (e ++ wire_options, s, None)
  | MultiviewToModel => '(e, s) ← admit_multiview b; Ok (e ++ wire_options, s, None)
  | TextureModel => '(e, s) ← admit_texture b; Ok (e, s, None)
  | MeshSegmentation => o ← original_model b; Ok ([("original_model_task_id", VString o)], None, None)
  | MeshCompletion => o ← original_model b; parts ← part_names b; Ok (("original_model_task_id", VString o) :: parts, None, None)
  | AnimatePrerigcheck => o ← original_model b; Ok ([("original_model_task_id", VString o)], None, None)
  | AnimateRig => o ← original_model b; rig ← admit_rig b; Ok (("original_model_task_id", VString o) :: rig, None, None)
  | AnimateRetarget => '(e, c) ← admit_retarget b; Ok (e, None, Some (c, false))
  | ConvertModel =>
      '(e, mode) ← admit_convert b;
      Ok (e, None, Some (tripo3d_convert_model_credits mode, match mode with Advanced => true | Basic => false end))
  | ImportModel => '(e, s) ← admit_import b; Ok (e, s, None)
  | TextToImage => e ← admit_text b 1024 255; Ok (e, None, None)
  | GenerateImage => '(e, s) ← admit_generate_image b; Ok (e, s, None)
  | GenerateMultiviewImage => '(e, s) ← admit_image b; Ok (e, s, None)
  | EditMultiviewImage => '(e, c) ← admit_edit b; Ok (e, None, Some (c, false))
  | RefineModel => e ← admit_refine b; Ok (e, None, None)
  | HighpolyToLowpoly => bad_request "tripo3d_highpoly_version_conflict"
  end.
Definition seed_entries (b : GenerationBody) : entries :=
  match q_model_seed b with Some s => [("model_seed", VNumber (PosInt s))] | None => [] end
  ++ match q_texture_seed b with Some s => [("texture_seed", VNumber (PosInt s))] | None => [] end.
Definition face_limit_entries (b : GenerationBody) : result GatewayFailure entries :=
  match q_face_limit b with
  | None => Ok []
  | Some n => if (n =? 0) || (10000000 <? n) then bad_request "tripo3d_face_limit_invalid" else Ok [("face_limit", VNumber (PosInt n))]
  end.
(** [tripo3d_reserve_credits] never panics ([tripo3d_reserve_exact]). *)
Definition reserve_of (k : Tripo3dTaskKind) (version : option string) (o : Tripo3dOptions) : option Tripo3dReserve :=
  match tripo3d_reserve_credits k version o with Ok r => r | Err _ => None end.
Definition head_entries (k : Tripo3dTaskKind) (version : option string) : entries :=
  ("type", VString (as_wire k)) :: match version with Some v => [("model_version", VString v)] | None => [] end.
Definition inapplicable_given (b : GenerationBody) : bool :=
  bool_flag (q_texture b) || bool_flag (q_pbr b) || bool_flag (q_smart_low_poly b) || bool_flag (q_generate_parts b)
  || bool_flag (q_quad b) || is_given (q_geometry_quality b).
Definition admit_task (b : GenerationBody) : result GatewayFailure AdmittedTask :=
  k ← ok_or (from_wire (q_task_type b)) (F_BadRequest "tripo3d_task_type_unknown");
  _ ← guard_ok (negb (bool_decide (k = HighpolyToLowpoly))) (F_BadRequest "tripo3d_highpoly_version_conflict");
  let version := q_model_version b in
  _ ← guard_ok (match version with Some v => negb (bool_decide (v = EmptyString) || (64 <? str_len v)) | None => true end)
        (F_BadRequest "tripo3d_model_version_invalid");
  let applicable := is_generation k in
  _ ← guard_ok (negb (bool_flag (q_style b) && applicable)) (F_Unsupported "tripo3d_style_wire_unproven");
  _ ← guard_ok (applicable || negb (inapplicable_given b)) (F_BadRequest "tripo3d_option_not_applicable");
  '(o, wire_options) ← generation_options b;
  '(e, s, counted) ← admit_kind k b wire_options;
  match counted with
  | Some (credits, conservative) => Ok (mkTask k version (head_entries k version ++ e) credits conservative s)
  | None =>
      face ← face_limit_entries b;
      let tail := if applicable then face ++ seed_entries b else [] in
      r ← ok_or (reserve_of k version o) (F_Unsupported "tripo3d_task_unpriced");
      Ok (mkTask k version (head_entries k version ++ e ++ tail) (credits r) (conservative r) s)
  end.
End Admit.

(** ** The reserve covers the price of what is sent *)
(** The options the provider reads from the body it receives. *)
Definition sent (k : string) (l : entries) : option Value := get k (VObject l).
Definition sent_flag (k : string) (l : entries) : bool := match sent k l with Some (VBool f) => f | _ => false end.
Definition sent_quality (l : entries) : Tripo3dTextureQuality := default TQ_Standard (texture_quality_of (sent "texture_quality" l >>? as_str)).
Definition sent_geometry (l : entries) : Tripo3dGeometryQuality := default GQ_Standard (geometry_quality_of (sent "geometry_quality" l >>? as_str)).
Definition sent_version (l : entries) : option string := sent "model_version" l >>? as_str.
Definition sent_length (k : string) (l : entries) : Z := match sent k l with Some (VArray x) => Z.of_nat (length x) | _ => 0 end.
(** What the rate card asks for a body: per option for the generations, per
    quality and style picture for a texture, per item for the counted kinds. *)
Definition sent_options (k : Tripo3dTaskKind) (l : entries) : Tripo3dOptions :=
  if is_generation k then
    mkOptions (sent_flag "texture" l) (sent_flag "pbr" l) (sent_flag "smart_low_poly" l) (sent_flag "generate_parts" l)
      (sent_flag "quad" l) (sent_flag "style" l) (sent_quality l) (sent_geometry l)
  else if bool_decide (k = TextureModel) then
    mkOptions false false false false false (is_given (sent "texture_prompt" l >>? get "style_image")) (sent_quality l) GQ_Standard
  else Tripo3dOptions_default.
Definition published_price (k : Tripo3dTaskKind) (l : entries) : option Z :=
  match k with
  | AnimateRetarget => Some (10 * sent_length "animations" l)
  | EditMultiviewImage => Some (5 * sent_length "prompts" l)
  | ConvertModel => Some (tripo3d_convert_model_credits Basic)
  | _ => match tripo3d_task_credits k (sent_version l) (sent_options k l) with Ok p => p | Err _ => None end
  end.

Lemma sent_app k l1 l2 : sent k (l1 ++ l2) = match sent k l1 with Some v => Some v | None => sent k l2 end.
Proof. unfold sent, get. induction l1 as [|[j v] l1 IH]; cbn; [done|]. by case_bool_decide. Qed.
Lemma sent_cons k j v l : sent k ((j, v) :: l) = if bool_decide (j = k) then Some v else sent k l.
Proof. unfold sent, get. cbn. by case_bool_decide. Qed.
Lemma sent_text k v max wire err l : text_control v max wire err = Ok l -> k <> wire -> sent k l = None.
Proof. unfold text_control. destruct v; [|by intros [= <-]]. case_match; [|done]. intros [= <-] Hk. by rewrite sent_cons, bool_decide_eq_false_2. Qed.


(** *** Pins *)
Section Pinned.
Context (pins : Pins) (now : Z).
End Pinned.

(** *** What each kind sends *)
Section Kinds.
Context (pins : Pins) (now : Z).
Lemma part_names_sent key b e : part_names b = Ok e -> key <> "part_names" -> sent key e = None.
Proof. unfold part_names. destruct (q_part_names b); [case_match; [done|]|]; intros [= <-] Hk; [|done]. by rewrite sent_cons, bool_decide_eq_false_2. Qed.
Lemma one_word_sent key v words k code e : one_word v words k code = Ok e -> key <> k -> sent key e = None.
Proof. unfold one_word. destruct v; [case_match; [|done]|]; intros [= <-] Hk; [|done]. by rewrite sent_cons, bool_decide_eq_false_2. Qed.

(** Entries that name neither a version nor a file. *)
Definition reserved : list string := ["model_version"; "file"; "files"; "texture_prompt"].
Definition quiet (l : entries) : Prop := forall key, key ∈ reserved -> sent key l = None.
Lemma quiet_nil : quiet [].
Proof. done. Qed.
Lemma quiet_cons key v l : (key ∉ reserved) -> quiet l -> quiet ((key, v) :: l).
Proof. intros Hk Hl k Hr. rewrite sent_cons, bool_decide_eq_false_2 by (intros ->; done). by apply Hl. Qed.
Lemma quiet_app l1 l2 : quiet l1 -> quiet l2 -> quiet (l1 ++ l2).
Proof. intros H1 H2 k Hr. rewrite sent_app, H1 by done. by apply H2. Qed.
Lemma quiet_text v max wire err l : text_control v max wire err = Ok l -> (wire ∉ reserved) -> quiet l.
Proof. intros H Hw k Hr. apply (sent_text k v max wire err l H). by intros ->. Qed.
Lemma quiet_parts b l : part_names b = Ok l -> quiet l.
Proof. intros H k Hr. apply (part_names_sent k b l H). intros ->. unfold reserved in Hr. set_solver. Qed.
Lemma quiet_word v words key code l : one_word v words key code = Ok l -> (key ∉ reserved) -> quiet l.
Proof. intros H Hw k Hr. apply (one_word_sent k v words key code l H). by intros ->. Qed.
Create HintDb quiet.
Hint Resolve quiet_nil quiet_cons quiet_app quiet_text quiet_parts quiet_word : quiet.
Hint Extern 1 (_ ∉ reserved) => unfold reserved; set_solver : quiet.
Lemma quiet_text_entries b m1 m2 e : admit_text b m1 m2 = Ok e -> quiet e.
Proof. intros (p & _ & H)%bind_Ok. apply bind_Ok in H as (n & Hn & [= <-]). eauto with quiet. Qed.
Lemma quiet_rig b e : admit_rig b = Ok e -> quiet e.
Proof.
  intros (x & H1 & H)%bind_Ok. apply bind_Ok in H as (y & H2 & H). apply bind_Ok in H as (z & H3 & [= <-]). eauto 6 with quiet.
Qed.
Lemma quiet_retarget b e c : admit_retarget b = Ok (e, c) -> quiet e.
Proof.
  intros (o & _ & H)%bind_Ok. apply bind_Ok in H as (l & _ & H). cbv beta zeta in H. case_match; [done|].
  apply bind_Ok in H as (c' & _ & [= <- <-]). eauto with quiet.
Qed.
Lemma quiet_convert b e c : admit_convert b = Ok (e, c) -> quiet e.
Proof.
  intros (o & _ & H)%bind_Ok. apply bind_Ok in H as (l & _ & H). case_match; [done|].
  apply bind_Ok in H as (c' & _ & [= <- <-]). eauto with quiet.
Qed.
Lemma quiet_edit b e c : admit_edit b = Ok (e, c) -> quiet e.
Proof.
  intros (o & _ & H)%bind_Ok. apply bind_Ok in H as (l & _ & H). cbv beta zeta in H. case_match; [done|].
  apply bind_Ok in H as (c' & _ & [= <- <-]). eauto with quiet.
Qed.
Lemma quiet_refine b e : admit_refine b = Ok e -> quiet e.
Proof. intros (d & _ & [= <-])%bind_Ok. eauto with quiet. Qed.
Hint Resolve quiet_refine quiet_text_entries quiet_rig quiet_retarget quiet_convert quiet_edit : quiet.
End Kinds.





(** ** Runs *)
Definition demo_pins : Pins := {["tok" := mkPin "p1" None 1000]}.
Definition demo_task (fields : list (string * Value)) : result GatewayFailure AdmittedTask :=
  b ← ok_or (decode_task (VObject fields)) (F_BadRequest "tripo3d_invalid_body"); admit_task demo_pins 1500 b.
Definition demo_fields : entries :=
  [("type", VString "image_to_model"); ("image_token", VString "tok"); ("texture", VBool true); ("texture_quality", VString "detailed"); ("quad", VBool true)].
(** Twenty for the shape, twenty for the texture, five for the quads. *)
Example pinned_task :
  demo_task demo_fields
  = Ok (mkTask ImageToModel None
      [("type", VString "image_to_model"); ("file", VObject [("type", VString "jpeg"); ("file_token", VString "tok")]);
       ("texture", VBool true); ("quad", VBool true); ("texture_quality", VString "detailed")] 45 false (Some "p1")).
Proof. vm_compute. reflexivity. Qed.
(** A style picture without the style flag is sent but not reserved for. *)
Example style_picture_unreserved :
  (fun a => (a_reserve a, a_conservative a, published_price (a_kind a) (a_upstream a)))
  <$> (match demo_task [("type", VString "texture_model"); ("original_model_task_id", VString "m"); ("style_image_url", VString "https://x/y")] with
       | Ok a => Some a | Err _ => None end)
  = Some (10, false, Some 15).
Proof. vm_compute. reflexivity. Qed.
(** Reference pictures alone are refused as no input, although one picture alone
    is accepted. *)
Example reference_pictures_are_no_input :
  demo_task [("type", VString "generate_image"); ("files", VArray [VObject [("image_url", VString "https://x/y")]])]
  = Err (F_BadRequest "tripo3d_generate_image_input_required")
  /\ is_given (match demo_task [("type", VString "generate_image"); ("image_url", VString "https://x/y")] with Ok a => Some a | Err _ => None end) = true.
Proof. vm_compute. done. Qed.
(** A control the kind does not take is dropped without an error. *)
Example inapplicable_limit_dropped :
  (fun a => a_upstream a) <$> (match demo_task [("type", VString "mesh_segmentation"); ("original_model_task_id", VString "m"); ("face_limit", VNumber (PosInt 500));
    ("texture_quality", VString "detailed")] with Ok a => Some a | Err _ => None end)
  = Some [("type", VString "mesh_segmentation"); ("original_model_task_id", VString "m")].
Proof. vm_compute. reflexivity. Qed.
