(* ===== verification/TripoPlane.v ===== *)
(** * Serving on the Tripo3D plane
    ([crates/forward/src/tripo3d/transport.rs], [pool.rs], [client.rs], [gateway.rs])

    Verdicts about upstream answers and their effects on a profile, the health of
    a profile with its hard and soft axes, the balance probe, and the creation
    handler.  The network, the clock, the roster read at each attempt and the
    billing authority are the environment; a body is the JSON value it parses to,
    if it does, with the text of the numbers the plane keeps verbatim. *)
From S2P Require Import Prelude Text Tariffs MeterUsage RouterWire RouterCatalog Tripo3d MediaPlane TripoAdmit.
#[local] Open Scope Z_scope.

(** ** Verdicts ([transport.rs]) *)
Inductive UpstreamVerdict : Type :=
| V_Ok | V_RateLimitedHard | V_InsufficientBalance | V_AuthRefused | V_Transport | V_ClientError | V_Protocol.
#[global] Instance UpstreamVerdict_eq_dec : EqDecision UpstreamVerdict.
Proof. solve_decision. Defined.
Definition error_business_code (payload : Value) : option Z :=
  match get "code" payload with
  | Some (VNumber (PosInt z)) => if z <=? u32_max then Some z else None
  | Some (VString text) => parse_unsigned_max u32_max (trim text)
  | _ => None
  end.
Definition classify_http_status (status : Z) : UpstreamVerdict :=
  if between 200 299 status then V_Protocol
  else if one_of [401; 403] status then V_AuthRefused
  else if one_of [408; 409; 425; 429] status then V_Transport
  else if between 500 599 status then V_Transport
  else V_ClientError.
Definition classify_status (status : Z) (business_code : option Z) : UpstreamVerdict :=
  match business_code with
  | Some code =>
      if code =? 0 then (if between 200 299 status then V_Ok else classify_http_status status)
      else if code =? 2000 then V_RateLimitedHard
      else if code =? 1007 then V_Transport
      else if code =? 2010 then V_InsufficientBalance
      else classify_http_status status
  | None => classify_http_status status
  end.
Definition tripo_may_rotate (v : UpstreamVerdict) : bool :=
  match v with V_RateLimitedHard | V_InsufficientBalance | V_AuthRefused | V_Transport => true | _ => false end.
Definition tripo_spends_transport_budget (v : UpstreamVerdict) : bool := match v with V_Transport => true | _ => false end.

Inductive ProfileEffect : Type := E_None | E_CoolRateLimited | E_RestForBalance | E_SoftAuthFault | E_TransportFault.
Definition tripo_effect_for (v : UpstreamVerdict) : ProfileEffect :=
  match v with
  | V_RateLimitedHard => E_CoolRateLimited
  | V_InsufficientBalance => E_RestForBalance
  | V_AuthRefused => E_SoftAuthFault
  | V_Transport => E_TransportFault
  | V_Ok | V_ClientError | V_Protocol => E_None
  end.
#[global] Instance tripo_verdict : PlaneVerdict UpstreamVerdict ProfileEffect := {|
  v_ok := V_Ok; v_transport := V_Transport;
  v_unblamed v := match v with V_ClientError | V_Protocol => true | _ => false end;
  MediaPlane.may_rotate := tripo_may_rotate;
  MediaPlane.spends_transport_budget := tripo_spends_transport_budget;
  effect_none := E_None;
  MediaPlane.effect_for := tripo_effect_for |}.
#[global] Instance tripo_verdict_laws : PlaneVerdictLaws UpstreamVerdict ProfileEffect.
Proof. split; try done; by intros []. Qed.

(** ** Profile health ([gateway.rs]) *)
Definition TRANSPORT_COOL_SECS : Z := 10.
Definition AUTH_SOFT_BASE_SECS : Z := 15.
Definition AUTH_SOFT_MAX_SECS : Z := 900.
Definition RATE_LIMIT_FALLBACK_COOL_SECS : Z := 30.
Inductive Hard : Type := RateLimited | BalanceWall | BalanceShortfall.
Inductive Soft : Type := AuthCooling | TransportWedged.
Record BalanceSnapshotView := mkBalance {
  balance_raw : string; frozen_raw : string; balance_micro_units : option Z; frozen_micro_units : option Z }.
Record ProfileHealth := mkHealth {
  authenticated : bool;
  rate_limit_cool_until : Z;
  balance_walled : bool;
  auth_cool_until : Z;
  auth_soft_streak : Z;
  transport_cool_until : Z;
  balance : option BalanceSnapshotView;
  balance_observed_at : option Z }.
Definition ProfileHealth_default : ProfileHealth := mkHealth false 0 false 0 0 0 None None.
Record RuntimeProfile := mkProfile { p_id : string; p_health : ProfileHealth; p_inflight : Z }.

Definition balance_shortfall (h : ProfileHealth) (reserve_credits : Z) : bool :=
  match balance h >>? balance_micro_units, balance h >>? frozen_micro_units with
  | Some balance, Some frozen => sat_i64 (balance - frozen) <? sat_i64 (reserve_credits * 1000000)
  | _, _ => false
  end.
Definition all_digits (s : string) : bool := all_bytes (fun c => between 48 57 (byte_of c)) s.
Definition nonzero_digit (s : string) : bool := negb (all_bytes (fun c => byte_of c =? 48) s).
(** The two halves of a decimal text. *)
Definition point : Ascii.ascii := Ascii.ascii_of_N 46.
Definition decimal_halves (raw : string) : string * string := default (raw, EmptyString) (split_once point raw).
Definition balance_shows_funds (raw : string) : bool :=
  let '(integer, fraction) := decimal_halves raw in
  if bool_decide (integer = EmptyString) || negb (all_digits integer) || negb (all_digits fraction) then false
  else nonzero_digit integer || nonzero_digit fraction.
Definition hard_axis (h : ProfileHealth) (now reserve_credits : Z) : option Hard :=
  if now <? rate_limit_cool_until h then Some RateLimited
  else if balance_walled h then Some BalanceWall
  else if balance_shortfall h reserve_credits then Some BalanceShortfall
  else None.
Definition soft_axis (h : ProfileHealth) (now : Z) : option Soft :=
  if now <? auth_cool_until h then Some AuthCooling
  else if now <? transport_cool_until h then Some TransportWedged
  else None.
Definition candidate (p : RuntimeProfile) (now reserve_credits : Z) : Candidate Hard Soft :=
  mkCandidate (p_id p) (hard_axis (p_health p) now reserve_credits) (soft_axis (p_health p) now) (p_inflight p).
Definition roster_view (profiles : list RuntimeProfile) (now reserve_credits : Z) : list (string * option (Candidate Hard Soft)) :=
  map (fun p => (p_id p, Some (candidate p now reserve_credits))) profiles.
Definition auth_backoff (streak : Z) : Z := Z.min (sat_i64 (AUTH_SOFT_BASE_SECS * Z.shiftl 1 (Z.min streak 6))) AUTH_SOFT_MAX_SECS.
Definition apply_effect (h : ProfileHealth) (e : ProfileEffect) (now : Z) (retry_after : option Z) : ProfileHealth :=
  let '(mkHealth au rl bw ac st tc ba ob) := h in
  match e with
  | E_None => h
  | E_CoolRateLimited =>
      let until := match retry_after with
                   | Some until => if now <? until then until else sat_i64 (now + RATE_LIMIT_FALLBACK_COOL_SECS)
                   | None => sat_i64 (now + RATE_LIMIT_FALLBACK_COOL_SECS)
                   end in
      mkHealth au until bw ac st tc ba ob
  | E_RestForBalance => mkHealth au rl true ac st tc ba ob
  | E_SoftAuthFault => let st := Z.min u32_max (st + 1) in mkHealth au rl bw (sat_i64 (now + auth_backoff st)) st tc ba ob
  | E_TransportFault => mkHealth au rl bw ac st (sat_i64 (now + TRANSPORT_COOL_SECS)) ba ob
  end.
Definition mark_task_success (h : ProfileHealth) : ProfileHealth :=
  mkHealth true (rate_limit_cool_until h) (balance_walled h) 0 0 0 (balance h) (balance_observed_at h).
Definition publish_balance (h : ProfileHealth) (snapshot : BalanceSnapshotView) (observed_at : Z) : ProfileHealth :=
  mkHealth true (rate_limit_cool_until h) (if balance_shows_funds (balance_raw snapshot) then false else balance_walled h) 0 0 0
    (Some snapshot) (Some observed_at).
Definition capacity_retry_after (profiles : list RuntimeProfile) (now : Z) : Z :=
  match least (omap (fun p => let until := rate_limit_cool_until (p_health p) in if now <? until then Some until else None) profiles) with
  | Some until => Z.max 1 (until - now)
  | None => 60
  end.

(** ** Failures of the plane as verdicts *)
Definition failure_verdict (f : GatewayFailure) : UpstreamVerdict :=
  match f with
  | F_Auth => V_AuthRefused
  | F_Transport | F_Protocol | F_Unavailable _ => V_Transport
  | F_Upstream status => classify_status status None
  | F_Capacity => V_InsufficientBalance
  | F_LowBalance | F_BadRequest _ | F_Unsupported _ => V_ClientError
  end.
Definition from_verdict (v : UpstreamVerdict) (status : Z) : GatewayFailure :=
  match v with
  | V_AuthRefused => F_Auth
  | V_RateLimitedHard | V_InsufficientBalance => F_Capacity
  | V_Transport => F_Transport
  | V_Protocol | V_Ok => F_Protocol
  | V_ClientError => F_Upstream status
  end.
Definition probe_effect (f : GatewayFailure) : ProfileEffect :=
  match failure_verdict f with
  | V_AuthRefused => E_SoftAuthFault
  | V_Transport | V_Protocol => E_TransportFault
  | V_RateLimitedHard => E_CoolRateLimited
  | V_InsufficientBalance => E_RestForBalance
  | V_Ok | V_ClientError => E_None
  end.

(** ** Answers ([client.rs]) *)
(** A body that parsed: the tree, and the text of each number under its key. *)
Record json := mkJson { tree : Value; token_text : string -> string }.
Inductive wire : Type := WSendFailed | WUnread (f : GatewayFailure) | WAnswer (status : Z) (body : option json).
Definition business_code (body : option json) : option Z := body >>? fun j => error_business_code (tree j).
Definition raw_number (j : json) (k : string) (v : option Value) : option string :=
  match v with Some (VNumber _) => Some (token_text j k) | _ => None end.
Inductive BalanceProbe : Type := ProbeValid (balance frozen : string) | ProbeInvalid.
Definition parse_balance_probe (status : Z) (body : option json) : result () BalanceProbe :=
  if status =? 401 then Ok ProbeInvalid
  else
    parsed ← ok_or body ();
    if bool_decide (error_business_code (tree parsed) = Some 401) then Ok ProbeInvalid
    else
      _ ← guard_ok (status =? 200) ();
      _ ← guard_ok (bool_decide (error_business_code (tree parsed) = Some 0)) ();
      data ← ok_or (get "data" (tree parsed)) ();
      balance ← ok_or (raw_number parsed "balance" (get "balance" data)) ();
      frozen ← ok_or (raw_number parsed "frozen" (get "frozen" data)) ();
      Ok (ProbeValid balance frozen).
(** [shutdown]: maintenance ended before the probe answered. *)
Definition fetch_balance (shutdown : bool) (w : wire) : result GatewayFailure BalanceSnapshotView :=
  if shutdown then Err (F_Unavailable "tripo3d_shutdown")
  else match w with
  | WSendFailed => Err F_Transport
  | WUnread f => Err f
  | WAnswer status body =>
      match parse_balance_probe status body with
      | Ok (ProbeValid balance frozen) => Ok (mkBalance balance frozen None None)
      | Ok ProbeInvalid => Err F_Auth
      | Err _ => Err (from_verdict (classify_status status (business_code body)) status)
      end
  end.
Definition parse_create_task (status : Z) (body : option json) : result UpstreamVerdict string :=
  let verdict := classify_status status (business_code body) in
  if negb (bool_decide (verdict = V_Ok)) then Err verdict
  else match body >>? (fun j => get "data" (tree j)) >>? get "task_id" >>? as_str with
       | Some id => if bool_decide (id = EmptyString) then Err V_Protocol else Ok id
       | None => Err V_Protocol
       end.

(** ** The handler *)
Record tripo_attempt := mkAttempt {
  ta_profiles : list RuntimeProfile; ta_now : Z; ta_cursor : Z; ta_wire : wire;
  ta_count_profiles : list RuntimeProfile; ta_count_now : Z }.
Definition outcome_of (w : wire) : outcome (V:=UpstreamVerdict) :=
  match w with
  | WSendFailed => SendFailed
  | WUnread _ => Unread
  | WAnswer status body => match parse_create_task status body with Ok id => Created [id] | Err v => Refused v status end
  end.
Definition attempt_of (reserve : Z) (a : tripo_attempt) : attempt_env (V:=UpstreamVerdict) :=
  mkEnv (roster_view (ta_profiles a) (ta_now a) reserve) (ta_cursor a) (outcome_of (ta_wire a))
    (roster_view (ta_count_profiles a) (ta_count_now a) reserve).
Record create_env := mkCreateEnv {
  h_shutting_down : bool;
  h_pins : Pins; h_pins_now : Z;
  h_authority : authority;
  h_attempts : nat -> tripo_attempt;
  h_retry_profiles : list RuntimeProfile; h_retry_now : Z }.
Definition tripo_priced (reserve : Z) : bool := match tripo3d_cost_nanodollars reserve with Ok _ => true | Err _ => false end.
Record created := mkCreated {
  c_response : Response; c_hold : hold_fate; c_drain : option drain; c_trace : list (tried (V:=UpstreamVerdict) (E:=ProfileEffect)) }.
Definition refused_early (f : GatewayFailure) : created := mkCreated (error_response "tripo3d" f) NoHold None [].
Definition ok_response (k : Tripo3dTaskKind) : Response := mkResponse 200 (as_wire k) "created" None.
Definition handle_create (fuel : nat) (env : create_env) (body : Value) (input : option BillingInput) : option created :=
  if h_shutting_down env then Some (refused_early (F_Unavailable "tripo3d_shutdown"))
  else match decode_task body with
  | None => Some (refused_early (F_BadRequest "tripo3d_invalid_body"))
  | Some b =>
      match admit_task (h_pins env) (h_pins_now env) b with
      | Err f => Some (refused_early f)
      | Ok a =>
          match reserve_customer "tripo3d" (h_authority env) (tripo_priced (a_reserve a)) input with
          | Err f => Some (refused_early f)
          | Ok r =>
              '(out, trace) ← attempt_loop fuel (fun k => attempt_of (a_reserve a) (h_attempts env k)) (a_sticky a) loop_init;
              let '(resp, hold, d) := conclude "tripo3d" (h_authority env) (capacity_retry_after (h_retry_profiles env) (h_retry_now env))
                (ok_response (a_kind a)) r out in
              Some (mkCreated resp hold d trace)
          end
      end
  end.



(** ** Runs *)
Definition demo_profile (id : string) : RuntimeProfile := mkProfile id ProfileHealth_default 1.
Definition demo_answer (status code : Z) (data : list (string * Value)) : wire :=
  WAnswer status (Some (mkJson (VObject [("code", VNumber (PosInt code)); ("data", VObject data)]) (fun _ => EmptyString))).
Definition demo_created : wire := demo_answer 200 0 [("task_id", VString "task")].
Definition demo_env (first : wire) : create_env :=
  let roster := [demo_profile "p0"; demo_profile "p1"] in
  mkCreateEnv false demo_pins 1500 (mkAuthority true (Some true) true true)
    (fun k => mkAttempt roster 1500 (Z.of_nat k) (match k with O => first | _ => demo_created end) roster 1500) roster 1500.
Definition demo_text : Value := VObject [("type", VString "text_to_model"); ("prompt", VString "a chair")].
Definition demo_input : option BillingInput := Some (mkInput "acct" "key" 10000 500).
Definition demo_reservation : Reservation := mkReservation "acct" "key" 0 10000.
(** A wall of the first profile sends the task to the second. *)
Example walled_then_created :
  handle_create 3 (demo_env (demo_answer 403 2010 [])) demo_text demo_input
  = Some (mkCreated (ok_response TextToModel) LeftOpen (Some (mkDrain "p1" ["task"] (Some demo_reservation)))
      [mkTried "p0" (Some V_InsufficientBalance) (Some E_RestForBalance); mkTried "p1" None None]).
Proof. vm_compute. reflexivity. Qed.
(** An answer that was not read ends the attempts: nothing is created twice. *)
Example unread_answer_is_final :
  handle_create 3 (demo_env (WUnread F_Transport)) demo_text demo_input
  = Some (mkCreated (error_response "tripo3d" F_Transport) Refunded None [mkTried "p0" None None]).
Proof. vm_compute. reflexivity. Qed.
(** A task that names an uploaded file goes to the profile that holds it. *)
Example uploaded_file_pins :
  (fun r => (c_trace r, dr_profile <$> c_drain r)) <$> handle_create 3 (demo_env demo_created) (VObject demo_fields) demo_input
  = Some ([mkTried "p1" None None], Some "p1").
Proof. vm_compute. reflexivity. Qed.
(** A rate limit on the balance probe walls the profile as out of funds; a probe
    that then reads a zero balance leaves the wall. *)
Example rate_limited_probe_walls_balance :
  let failure := from_verdict (classify_status 429 (Some 2000)) 429 in
  let h := publish_balance (apply_effect ProfileHealth_default (probe_effect failure) 1000 None) (mkBalance "0.00" "0" None None) 90000 in
  hard_axis h 100000 5 = Some BalanceWall.
Proof. vm_compute. reflexivity. Qed.
