(* ===== verification/TripoSettle.v ===== *)
(** * The life of a Tripo3D task after its creation
    ([crates/forward/src/tripo3d/client.rs], [gateway.rs],
    [crates/registry/src/tripo3d_calibration.rs])

    The polls of a created task, the exact reading of its consumed credits, the
    settlement from what the provider reports, the immutable turn event, the
    detached drain and the record customers read.  Answers, clocks, file storage
    and the billing authority are the environment. *)
From S2P Require Import Prelude Text Tariffs MeterUsage RouterWire RouterCatalog Tripo3d MediaPlane MediaDrain TripoAdmit TripoPlane.
#[local] Open Scope Z_scope.

(** ** Polling a task ([client.rs]) *)
Inductive TaskLifecycle : Type := Queued | Running | Success | Failed | Banned | ExpiredTask | Cancelled | Unknown.
#[global] Instance TaskLifecycle_eq_dec : EqDecision TaskLifecycle.
Proof. solve_decision. Defined.
Definition is_final (l : TaskLifecycle) : bool :=
  match l with Success | Failed | Banned | ExpiredTask | Cancelled | Unknown => true | Queued | Running => false end.
Definition lifecycle_str (l : TaskLifecycle) : string :=
  match l with
  | Queued => "queued" | Running => "running" | Success => "success" | Failed => "failed" | Banned => "banned"
  | ExpiredTask => "expired" | Cancelled => "cancelled" | Unknown => "unknown"
  end.
Definition parse_lifecycle (raw : string) : option TaskLifecycle :=
  if bool_decide (raw = "queued") then Some Queued
  else if bool_decide (raw = "running") then Some Running
  else if bool_decide (raw = "success") then Some Success
  else if bool_decide (raw = "failed") then Some Failed
  else if bool_decide (raw = "banned") then Some Banned
  else if bool_decide (raw = "expired") then Some ExpiredTask
  else if bool_decide (raw = "cancelled") then Some Cancelled
  else if bool_decide (raw = "unknown") then Some Unknown
  else None.
Record TaskState := mkState {
  ts_lifecycle : TaskLifecycle; ts_progress : option Z; ts_consumed_raw : option string; ts_model_version : option string;
  ts_error_code : option Z; ts_artifacts : list (string * string) }.
Definition ARTIFACT_FIELDS : list string := ["model"; "base_model"; "pbr_model"; "rendered_image"].
Definition nonempty_str (v : option Value) : option string :=
  s ← v >>? as_str; if bool_decide (s = EmptyString) then None else Some s.
Definition parse_task_poll (status : Z) (body : option json) : result UpstreamVerdict TaskState :=
  let verdict := classify_status status (business_code body) in
  if negb (bool_decide (verdict = V_Ok)) then Err verdict
  else
    j ← ok_or body V_Protocol;
    data ← ok_or (get "data" (tree j)) V_Protocol;
    lifecycle ← ok_or (get "status" data >>? as_str >>? parse_lifecycle) V_Protocol;
    let artifacts := match get "output" data with
                     | Some output => omap (fun f => url ← nonempty_str (get f output); Some (f, url)) ARTIFACT_FIELDS
                     | None => []
                     end in
    Ok (mkState lifecycle (get "progress" data >>? as_i64) (raw_number j "consumed_credit" (get "consumed_credit" data))
          (nonempty_str (get "input" data >>? get "model_version")) (get "error_code" data >>? as_i64) artifacts).
Definition poll_upstream_task (w : wire) : result UpstreamVerdict TaskState :=
  match w with WAnswer status body => parse_task_poll status body | _ => Err V_Transport end.

(** ** Consumed credits *)
Definition millicredits_from_raw (raw : string) : option Z :=
  let '(integer, fraction) := decimal_halves raw in
  if bool_decide (integer = EmptyString) || negb (all_digits integer) then None
  else if negb (all_digits fraction) || (3 <? str_len fraction) then None
  else
    whole ← parse_i64 integer;
    value ← (if bool_decide (fraction = EmptyString) then Some 0 else parse_i64 fraction);
    let scale := 10 ^ (3 - str_len fraction) in
    thousands ← checked_i64 (whole * 1000);
    scaled ← checked_i64 (value * scale);
    checked_i64 (thousands + scaled).

(** ** The record customers read *)
Abbreviation TaskRecord := (tracked Tripo3dTaskKind (option Z)).
Abbreviation Tasks := (records Tripo3dTaskKind (option Z)).
Definition track_task (entries : list (string * TaskRecord)) (g : Tasks) (request_id : string)
    (k : Tripo3dTaskKind) (account : option string) (now : Z) : Tasks := track_record entries g request_id k None account now.
Record TaskView := mkTaskView {
  v_task_id : string; v_task_type : string; v_status : string; v_progress : option Z; v_artifacts : list string;
  v_created_at : Z; v_updated_at : Z; v_error : option string }.
Definition task_view (g : Tasks) (id : string) (requester : option string) : option TaskView :=
  r ← read_record g id requester;
  Some (mkTaskView id (as_wire (g_kind r)) (g_status r) (g_extra r) (g_artifacts r) (g_created_at r) (g_updated_at r) (g_error r)).
Definition task_artifact_path (path : string -> string -> string) (g : Tasks) (id name : string) (requester : option string)
    : option string := artifact_path_of path g id name requester.

(** ** Settlement ([finalize_task], [tripo3d_calibration.rs]) *)
Definition TRIPO3D_NANOUSD_PER_MILLICREDIT : Z := 10000.
Definition TRIPO3D_TARIFF_SCHEDULE_ID : string := "tripo3d/openapi-billing/2026-08-12".
Inductive Money : Type := Exact (milli : Z) | Refund | Conservative (reason : string).
(** The counters a decision adds to: [missing_consumed_credit], [tariff_anomaly]
    and [undocumented_final]. *)
Record counted := mkCounted { n_missing : Z; n_anomaly : Z; n_undocumented : Z }.
(** [None] is the early return for a task that still runs. *)
Definition decide_money (lifecycle : TaskLifecycle) (consumed_milli : option Z) (bound_milli : Z) : option (Money * counted) :=
  match lifecycle with
  | Success =>
      match consumed_milli with
      | Some milli =>
          if milli <=? bound_milli then Some (Exact milli, mkCounted 0 0 0) else Some (Conservative "tripo3d-tariff-anomaly", mkCounted 0 1 0)
      | None => Some (Conservative "tripo3d-consumed-credit-missing", mkCounted 1 0 0)
      end
  | Failed | ExpiredTask => Some (Refund, mkCounted (match consumed_milli with Some _ => 0 | None => 1 end) 0 0)
  | Banned | Cancelled | Unknown => Some (Conservative "tripo3d-task-undocumented-final", mkCounted 0 0 1)
  | Queued | Running => None
  end.
Definition api_leg (milli : Z) : option Z := checked_i128 (milli * TRIPO3D_NANOUSD_PER_MILLICREDIT) >>? checked_i64.
Definition terminal_error (lifecycle : TaskLifecycle) : option string :=
  match lifecycle with Banned | Cancelled | Unknown => Some "tripo3d_task_undocumented_final" | _ => None end.

Record Tripo3dTurnCalibrationEvent := mkEvent {
  ev_request_id : string; ev_subject_id : string; ev_cohort : string; ev_task_type : string; ev_requested_version : option string;
  ev_resolved_version : option string; ev_schedule : string; ev_priced_ts : Z; ev_completed_at : Z; ev_upstream_task_id : string;
  ev_native_millicredits : Z; ev_api_nanousd : Z }.
Inductive Tripo3dEventError : Type := MissingIdentity | InvalidTimestamp | NegativeCounter | LegsDisagree.
Definition blank_version (v : option string) : bool := match v with Some s => is_blank s | None => false end.
Definition validate_event (e : Tripo3dTurnCalibrationEvent) : result Tripo3dEventError () :=
  _ ← guard_ok (negb (existsb is_blank [ev_request_id e; ev_subject_id e; ev_cohort e; ev_task_type e; ev_schedule e; ev_upstream_task_id e])) MissingIdentity;
  _ ← guard_ok (negb (blank_version (ev_requested_version e) || blank_version (ev_resolved_version e))) MissingIdentity;
  _ ← guard_ok (negb ((ev_priced_ts e <=? 0) || (ev_completed_at e <=? 0))) InvalidTimestamp;
  _ ← guard_ok (negb ((ev_native_millicredits e <? 0) || (ev_api_nanousd e <? 0))) NegativeCounter;
  expected ← ok_or (checked_i128 (ev_native_millicredits e * TRIPO3D_NANOUSD_PER_MILLICREDIT)) LegsDisagree;
  guard_ok (expected =? ev_api_nanousd e) LegsDisagree.

Record DrainContext := mkContext {
  dc_request_id : string; dc_task_type : Tripo3dTaskKind; dc_requested_version : option string; dc_reserve_credits : Z;
  dc_priced_ts : Z; dc_subject_id : string; dc_cohort : string; dc_reservation : option Reservation }.
Record finalized_result := mkFinalized {
  f_stored : list string; f_failures : Z; f_settles : list settle_call; f_counted : counted;
  f_turn : option (Tripo3dTurnCalibrationEvent * option BalanceSnapshotView) }.
(** [store] is the outcome of storing one artifact, [probe] the balance read
    after the settlement, [completed_at] the clock. *)
Definition finalize_task (authority : bool) (c : DrainContext) (upstream_task_id : string) (st : TaskState)
    (store : string -> option string) (probe : result GatewayFailure BalanceSnapshotView) (completed_at : Z) : option finalized_result :=
  let jobs := if bool_decide (ts_lifecycle st = Success) then map fst (ts_artifacts st) else [] in
  let stored := omap store jobs in
  let failures := Z.of_nat (length jobs) - Z.of_nat (length stored) in
  let consumed := ts_consumed_raw st >>? millicredits_from_raw in
  '(money, n) ← decide_money (ts_lifecycle st) consumed (sat_i64 (dc_reserve_credits c * 1000));
  let conservative reason n := mkFinalized stored failures (settle_conservative_hold authority (dc_reservation c) reason) n None in
  let priced native api :=
    let event := mkEvent (dc_request_id c) (dc_subject_id c) (dc_cohort c) (as_wire (dc_task_type c)) (dc_requested_version c)
      (ts_model_version st) TRIPO3D_TARIFF_SCHEDULE_ID (dc_priced_ts c) completed_at upstream_task_id native api in
    mkFinalized stored failures (settle_exact authority (dc_reservation c) api) n
      (match validate_event event with
       | Ok _ => Some (event, match probe with Ok b => Some b | Err _ => None end)
       | Err _ => None
       end) in
  Some (match money with
        | Exact milli =>
            match api_leg milli with
            | Some api => priced milli api
            | None => conservative "tripo3d-money-overflow" (mkCounted (n_missing n) (n_anomaly n + 1) (n_undocumented n))
            end
        | Refund => priced 0 0
        | Conservative reason => conservative reason n
        end).

(** ** The drain *)
Definition POLL_INTERVAL_MS : Z := 2 * 1000.
Record tripo_poll := mkTripoPoll { tp_abort : bool; tp_elapsed_ms : Z; tp_wire : wire; tp_now : Z }.
Definition poll_of (e : tripo_poll) : poll_env TaskState (option Z) :=
  mkPoll (tp_abort e) (tp_elapsed_ms e)
    (match poll_upstream_task (tp_wire e) with
     | Ok st => if is_final (ts_lifecycle st) then Over st else Ongoing (lifecycle_str (ts_lifecycle st)) (ts_progress st)
     | Err V_ClientError | Err V_Protocol => Gone
     | Err _ => Again
     end) (tp_now e).
Definition tripo_ends : end_names :=
  mkNames "tripo3d_poll_deadline" "tripo3d-poll-deadline" "tripo3d_task_lost" "tripo3d-task-lost".
Record end_env := mkEnd { ee_authority : bool; ee_store : string -> option string; ee_probe : result GatewayFailure BalanceSnapshotView; ee_now : Z }.
(** The terminal record of a polled state; a state that still runs never gets here. *)
Definition finalized_record (c : DrainContext) (upstream_task_id : string) (e : end_env) (st : TaskState)
    : final_record (Tripo3dTurnCalibrationEvent * option BalanceSnapshotView) :=
  let '(settles, turn, stored) :=
    match finalize_task (ee_authority e) c upstream_task_id st (ee_store e) (ee_probe e) (ee_now e) with
    | Some r => (f_settles r, f_turn r, f_stored r)
    | None => ([], None, [])
    end in
  mkFinal settles turn (lifecycle_str (ts_lifecycle st)) (terminal_error (ts_lifecycle st)) stored.
(** Only a task the provider finished speaks for its profile, [h]. *)
Definition drained_health (out : drain_end TaskState) (h : ProfileHealth) : ProfileHealth :=
  match out with Finished _ => mark_task_success h | _ => h end.
Definition drain_task (fuel : nat) (env : nat -> tripo_poll) (e : end_env) (c : DrainContext) (upstream_task_id : string) (h : ProfileHealth)
    (g : Tasks)
    : option (drain_end TaskState * list settle_call * option (Tripo3dTurnCalibrationEvent * option BalanceSnapshotView) * ProfileHealth * Tasks) :=
  '(out, calls, turn, g) ← run_drain tripo_ends (ee_authority e) (finalized_record c upstream_task_id e) fuel (fun i => poll_of (env i))
    (dc_request_id c) (dc_reservation c) (ee_now e) g;
  Some (out, calls, turn, drained_health out h, g).

(** ** Consumed credits are read exactly *)
Lemma digits_nonneg s : forall acc z, 0 <= acc -> digits_value acc s = Some z -> 0 <= z.
Proof.
  induction s as [|c s IH]; cbn; intros acc z Ha; [by intros [= <-]|]. destruct (byte_between 48 57 c) eqn:E; [|done].
  apply IH. unfold byte_between in E. apply andb_true_iff in E as [E%Z.leb_le _]. lia.
Qed.
Lemma parse_digits_nonneg s z : all_digits s = true -> parse_i64 s = Some z -> 0 <= z.
Proof.
  destruct s as [|c s]; [done|]. intros Hd. unfold parse_i64. cbn in Hd. apply andb_true_iff in Hd as [Hc _].
  unfold between in Hc. apply andb_true_iff in Hc as [Hc%Z.leb_le _].
  rewrite (proj2 (Z.eqb_neq _ 45)), (proj2 (Z.eqb_neq _ 43)) by lia.
  intros (v & Hv & [-> _]%checked_i64_Some)%bind_Some. by apply (digits_nonneg (String c s) 0).
Qed.
Lemma millicredits_nonneg raw m : millicredits_from_raw raw = Some m -> 0 <= m.
Proof.
  unfold millicredits_from_raw. destruct (decimal_halves raw) as [integer fraction].
  destruct (bool_decide _ || negb (all_digits integer)) eqn:E1; [done|]. destruct (negb (all_digits fraction) || _) eqn:E2; [done|].
  apply orb_false_iff in E1 as [_ E1%negb_false_iff]. apply orb_false_iff in E2 as [E2%negb_false_iff _].
  intros (w & Hw%parse_digits_nonneg & H)%bind_Some; [|done]. apply bind_Some in H as (v & Hv & H). cbv beta zeta in H.
  apply bind_Some in H as (x & [-> _]%checked_i64_Some & H). apply bind_Some in H as (y & [-> _]%checked_i64_Some & [-> _]%checked_i64_Some).
  assert (0 <= v) by (case_bool_decide; [by simplify_eq|by eapply parse_digits_nonneg]).
  assert (0 <= 10 ^ (3 - str_len fraction)) by (apply Z.pow_nonneg; lia). nia.
Qed.

(** ** The settlement is exact *)
(** What a final task may be charged, in millicredits; [None] is a task whose
    consumption the plane does not believe. *)
Definition chargeable (l : TaskLifecycle) (consumed : option Z) (reserve : Z) : option Z :=
  match l with
  | Success => m ← consumed; if m <=? 1000 * reserve then Some m else None
  | Failed | ExpiredTask => Some 0
  | _ => None
  end.
(** Why a task is not believed. *)
Definition disbelief (l : TaskLifecycle) (consumed : option Z) : string :=
  match l with
  | Success => if bool_decide (consumed = None) then "tripo3d-consumed-credit-missing" else "tripo3d-tariff-anomaly"
  | _ => "tripo3d-task-undocumented-final"
  end.
Definition tripo_identity_ok (c : DrainContext) (upstream_task_id : string) (st : TaskState) (completed_at : Z) : bool :=
  negb (existsb is_blank [dc_request_id c; dc_subject_id c; dc_cohort c; upstream_task_id])
  && negb (blank_version (dc_requested_version c) || blank_version (ts_model_version st))
  && negb ((dc_priced_ts c <=? 0) || (completed_at <=? 0)).
Definition task_event (c : DrainContext) (upstream_task_id : string) (st : TaskState) (completed_at native : Z) : Tripo3dTurnCalibrationEvent :=
  mkEvent (dc_request_id c) (dc_subject_id c) (dc_cohort c) (as_wire (dc_task_type c)) (dc_requested_version c)
    (ts_model_version st) TRIPO3D_TARIFF_SCHEDULE_ID (dc_priced_ts c) completed_at upstream_task_id native (10000 * native).
Lemma tripo_event_identity c id st completed native :
  0 <= native <= 1000000000 ->
  validate_event (task_event c id st completed native)
  = if tripo_identity_ok c id st completed then Ok ()
    else Err (if negb (existsb is_blank [dc_request_id c; dc_subject_id c; dc_cohort c; id])
                && negb (blank_version (dc_requested_version c) || blank_version (ts_model_version st))
              then InvalidTimestamp else MissingIdentity).
Proof.
  intros Hn. unfold validate_event, tripo_identity_ok, task_event. cbn [ev_request_id ev_subject_id ev_cohort ev_task_type
    ev_requested_version ev_resolved_version ev_schedule ev_priced_ts ev_completed_at ev_upstream_task_id ev_native_millicredits ev_api_nanousd].
  assert (Hl : checked_i128 (native * TRIPO3D_NANOUSD_PER_MILLICREDIT) = Some (10000 * native)).
  { unfold checked_i128, TRIPO3D_NANOUSD_PER_MILLICREDIT. rewrite decide_True by width_lia. f_equal. lia. }
  rewrite Hl. clear Hl. assert (Hk : is_blank (as_wire (dc_task_type c)) = false) by (by destruct (dc_task_type c)).
  cbn [existsb]. rewrite Hk. replace (is_blank TRIPO3D_TARIFF_SCHEDULE_ID) with false by done.
  rewrite (proj2 (Z.ltb_ge native 0)), (proj2 (Z.ltb_ge (10000 * native) 0)) by lia.
  set (leg := 10000 * native). clearbody leg.
  destruct (is_blank (dc_request_id c)), (is_blank (dc_subject_id c)), (is_blank (dc_cohort c)), (is_blank id); cbn; try done.
  destruct (blank_version _ || blank_version _); cbn; [done|]. destruct ((dc_priced_ts c <=? 0) || (completed <=? 0)); cbn; [done|].
  by rewrite Z.eqb_refl.
Qed.
Lemma tripo_api_leg m : 0 <= m <= 1000000000 -> api_leg m = Some (10000 * m).
Proof.
  intros Hm. unfold api_leg, TRIPO3D_NANOUSD_PER_MILLICREDIT, checked_i128, checked_i64. rewrite decide_True by width_lia.
  cbn [mbind option_bind]. rewrite decide_True by width_lia. f_equal. lia.
Qed.
Lemma tripo_money l consumed reserve :
  is_final l = true -> 0 <= reserve <= 100000 -> (forall m, consumed = Some m -> 0 <= m) ->
  exists n, decide_money l consumed (sat_i64 (reserve * 1000)) =
    Some (match chargeable l consumed reserve with
          | Some m => if bool_decide (l = Success) then Exact m else Refund
          | None => Conservative (disbelief l consumed)
          end, n)
  /\ n_missing n = (if bool_decide (consumed = None) && bool_decide (l ∈ [Success; Failed; ExpiredTask]) then 1 else 0)
  /\ n_anomaly n = (if bool_decide (l = Success) && bool_decide (is_Some consumed) && bool_decide (chargeable l consumed reserve = None) then 1 else 0)
  /\ n_undocumented n = (if bool_decide (l ∈ [Banned; Cancelled; Unknown]) then 1 else 0).
Proof.
  intros Hl Hr Hc. assert (Hs : sat_i64 (reserve * 1000) = 1000 * reserve) by width_lia. rewrite Hs. unfold decide_money, chargeable, disbelief.
  destruct l; try done; destruct consumed as [m|]; cbn [mbind option_bind]; try destruct (m <=? 1000 * reserve);
    (eexists; split; [reflexivity|by vm_compute]).
Qed.

(** The whole result, once the money is decided. *)
Definition stored_of (store : string -> option string) (st : TaskState) : list string :=
  if bool_decide (ts_lifecycle st = Success) then omap store (map fst (ts_artifacts st)) else [].
Definition missed_of (store : string -> option string) (st : TaskState) : Z :=
  if bool_decide (ts_lifecycle st = Success) then Z.of_nat (length (ts_artifacts st)) - Z.of_nat (length (stored_of store st)) else 0.
Lemma finalize_shape authority c id st store probe completed_at :
  is_final (ts_lifecycle st) = true -> 0 <= dc_reserve_credits c <= 100000 ->
  let consumed := ts_consumed_raw st >>? millicredits_from_raw in
  let charge := chargeable (ts_lifecycle st) consumed (dc_reserve_credits c) in
  exists n, decide_money (ts_lifecycle st) consumed (sat_i64 (dc_reserve_credits c * 1000))
    = Some (match charge with
            | Some m => if bool_decide (ts_lifecycle st = Success) then Exact m else Refund
            | None => Conservative (disbelief (ts_lifecycle st) consumed)
            end, n)
  /\ (forall m, charge = Some m -> 0 <= m <= 1000 * dc_reserve_credits c)
  /\ finalize_task authority c id st store probe completed_at = Some (mkFinalized (stored_of store st) (missed_of store st)
       (match charge with
        | Some m => settle_exact authority (dc_reservation c) (10000 * m)
        | None => settle_conservative_hold authority (dc_reservation c) (disbelief (ts_lifecycle st) consumed)
        end) n
       (match charge with
        | Some m => if tripo_identity_ok c id st completed_at
                    then Some (task_event c id st completed_at m, match probe with Ok b => Some b | Err _ => None end) else None
        | None => None
        end)).
Proof.
  intros Hl Hr consumed charge.
  assert (Hpos : forall m, consumed = Some m -> 0 <= m) by (intros m (raw & _ & Hm)%bind_Some; by eapply millicredits_nonneg).
  destruct (tripo_money (ts_lifecycle st) consumed (dc_reserve_credits c) Hl Hr Hpos) as (n & Hd & _). exists n. split; [done|].
  assert (Hcase : forall m, charge = Some m -> 0 <= m <= 1000 * dc_reserve_credits c /\ (ts_lifecycle st <> Success -> m = 0)).
  { unfold charge, chargeable. intros m. destruct (ts_lifecycle st); try done; [|by intros [= <-]; split; [lia|]..].
    intros (m' & Hm & Hle)%bind_Some. destruct (Z.leb_spec m' (1000 * dc_reserve_credits c)); simplify_eq. naive_solver. }
  split; [intros m Hm; by apply Hcase|]. unfold finalize_task. fold consumed. rewrite Hd. cbn [mbind option_bind].
  assert (Hs : omap store (if bool_decide (ts_lifecycle st = Success) then map fst (ts_artifacts st) else []) = stored_of store st)
    by (unfold stored_of; by case_bool_decide).
  assert (Hf : Z.of_nat (length (if bool_decide (ts_lifecycle st = Success) then map fst (ts_artifacts st) else [])) - Z.of_nat (length (stored_of store st))
    = missed_of store st) by (unfold missed_of, stored_of; case_bool_decide; [by rewrite length_map|done]).
  rewrite Hs, Hf. fold charge. clear Hs Hf Hd. f_equal. destruct charge as [m|]; [|done]. destruct (Hcase m eq_refl) as [Hm Hz].
  pose proof (tripo_event_identity c id st completed_at m ltac:(lia)) as Hv. unfold task_event in *. case_bool_decide.
  - cbv iota beta. rewrite tripo_api_leg by lia. cbv iota beta. f_equal. rewrite Hv. by destruct (tripo_identity_ok _ _ _ _).
  - rewrite Hz in * by done. f_equal. change (10000 * 0) with 0 in *. rewrite Hv. by destruct (tripo_identity_ok _ _ _ _).
Qed.

(** C28: A final task is charged exactly what the provider says it consumed.  A
    successful task whose consumption is within its reserve is charged ten thousand
    nanodollars for each thousandth of a credit, times the pinned multiplier; a
    failed or expired one is free.  A success with a missing or impossible consumption and a final state
    the documents do not define keep the hold and say why.  Every case settles the
    reservation in one call and moves exactly its own counter; a turn event is
    produced exactly for a charged task with a complete identity, and its two legs
    are the charge. *)
Theorem tripo_settlement_exact (c : DrainContext) (id : string) (st : TaskState) (store : string -> option string)
    (probe : result GatewayFailure BalanceSnapshotView) (completed_at : Z) :
  is_final (ts_lifecycle st) = true -> 0 <= dc_reserve_credits c <= 100000 ->
  (forall rv, dc_reservation c = Some rv -> 0 <= rv_mult_bp rv <= i64_max) ->
  let l := ts_lifecycle st in
  let consumed := ts_consumed_raw st >>? millicredits_from_raw in
  let charge := chargeable l consumed (dc_reserve_credits c) in
  exists out, finalize_task true c id st store probe completed_at = Some out
  /\ match charge with
     | Some m =>
         0 <= m <= 1000 * dc_reserve_credits c
         /\ f_settles out = match dc_reservation c with
            | Some rv => [mkSettle (rv_hold rv) (Z.min i64_max ((10000 * m * rv_mult_bp rv + 5000) / 10000)) None
                            (if 0 <? m then Some (10000 * m) else None)]
            | None => []
            end
         /\ f_turn out = if tripo_identity_ok c id st completed_at
                         then Some (task_event c id st completed_at m, match probe with Ok b => Some b | Err _ => None end) else None
     | None =>
         f_settles out = match dc_reservation c with
           | Some rv => [mkSettle (rv_hold rv) (rv_hold rv) (Some (disbelief l consumed)) None]
           | None => []
           end
         /\ f_turn out = None
     end
  /\ n_missing (f_counted out) = (if bool_decide (consumed = None) && bool_decide (l ∈ [Success; Failed; ExpiredTask]) then 1 else 0)
  /\ n_anomaly (f_counted out) = (if bool_decide (l = Success) && bool_decide (is_Some consumed) && bool_decide (charge = None) then 1 else 0)
  /\ n_undocumented (f_counted out) = (if bool_decide (l ∈ [Banned; Cancelled; Unknown]) then 1 else 0)
  /\ (l <> Success -> f_stored out = [] /\ f_failures out = 0)
  /\ Z.of_nat (length (f_stored out)) + f_failures out = if bool_decide (l = Success) then Z.of_nat (length (ts_artifacts st)) else 0.
Proof.
  intros Hl Hr Hmult l consumed charge.
  destruct (finalize_shape true c id st store probe completed_at Hl Hr) as (n & Hd & Hb & ->). fold l consumed charge in Hd, Hb |- *.
  assert (Hpos : forall m, consumed = Some m -> 0 <= m) by (intros m (raw & _ & Hm)%bind_Some; by eapply millicredits_nonneg).
  destruct (tripo_money l consumed (dc_reserve_credits c) Hl Hr Hpos) as (n' & Hd' & N1 & N2 & N3).
  rewrite Hd in Hd'. injection Hd' as <-. fold charge in N2. eexists. split; [reflexivity|]. cbn [f_settles f_turn f_counted f_stored f_failures].
  rewrite N1, N2, N3. clear N1 N2 N3 Hd Hpos. split.
  - destruct charge as [m|]; [|done]. specialize (Hb m eq_refl). split; [done|]. split; [|done]. rewrite settle_exact_spec by (done || lia).
    destruct (dc_reservation c); [|done]. do 2 f_equal. by destruct (Z.ltb_spec 0 m), (Z.ltb_spec 0 (10000 * m)); try lia.
  - unfold missed_of, stored_of. fold l. do 3 (split; [done|]). case_bool_decide; (split; [done|]); cbn [length]; lia.
Qed.

(** ** The drain ends *)
Lemma tripo_finalize_once e c id st :
  ee_authority e = true -> is_final (ts_lifecycle st) = true ->
  settles_once (dc_reservation c) (fr_settles (finalized_record c id e st)).
Proof.
  intros Hau Hl. unfold finalized_record. destruct (finalize_task _ c id st _ _ _) as [r|] eqn:E; unfold finalize_task in E; rewrite Hau in E.
  - apply bind_Some in E as ([money n] & _ & [= <-]). cbn.
    destruct money as [m| |reason]; [destruct (api_leg m)| |]; cbn; (apply settle_exact_once || apply settle_conservative_once).
  - by destruct (ts_lifecycle st), (ts_consumed_raw st >>? millicredits_from_raw) as [m|]; cbn in E; try (destruct (m <=? _) in E).
Qed.

(** C29: The drain of a created task always ends, and settles once.  With polls two
    seconds apart, unless a shutdown intervenes, it ends within 901 polls, whatever
    the provider answers.  A shutdown settles nothing and leaves the record open;
    every other end settles the reservation in exactly one call, returns exactly
    its hold and finalizes the record, which shows the state the provider reported
    last.  A turn event is produced only by a task the provider finished, and
    only such an end touches the health of the profile, whose walls it leaves
    standing. *)
Theorem tripo_drain_ends (env : nat -> tripo_poll) (e : end_env) (c : DrainContext) (id : string) (h : ProfileHealth) (g : Tasks)
    (r : TaskRecord) :
  0 <= tp_elapsed_ms (env 0%nat) ->
  (forall i, tp_abort (env (S i)) = true \/ tp_elapsed_ms (env i) + POLL_INTERVAL_MS <= tp_elapsed_ms (env (S i))) ->
  g !! dc_request_id c = Some r -> g_finalized r = false -> ee_authority e = true ->
  exists out calls turn h' g', drain_task 901 env e c id h g = Some (out, calls, turn, h', g')
  /\ (exists r', g' !! dc_request_id c = Some r' /\ g_account r' = g_account r
       /\ (g_finalized r' = true <-> out <> Aborted)
       /\ (forall st, out = Finished st -> g_status r' = lifecycle_str (ts_lifecycle st)))
  /\ (out = Aborted -> calls = [])
  /\ (out <> Aborted -> forall rv, dc_reservation c = Some rv -> exists call, calls = [call] /\ sc_hold call = rv_hold rv)
  /\ (turn <> None -> exists st, out = Finished st)
  /\ rate_limit_cool_until h' = rate_limit_cool_until h /\ balance_walled h' = balance_walled h
  /\ ((forall st, out <> Finished st) -> h' = h).
Proof.
  intros H0 Hstep Hr Hfin Hau. unfold drain_task.
  destruct (drain_ends tripo_ends (ee_authority e) (finalized_record c id e) POLL_INTERVAL_MS 900 (fun i => poll_of (env i))
    (dc_request_id c) (dc_reservation c) (ee_now e) g r) as (out & calls & turn & g' & -> & (r' & Hr' & Ha & Hf & Hs) & Hab & Hone & Ht);
    [done|vm_compute; discriminate|done..| |].
  { intros i f Hp. apply tripo_finalize_once; [done|]. cbn in Hp. destruct (poll_upstream_task _) as [st|[]]; try done.
    by destruct (is_final (ts_lifecycle st)) eqn:E; simplify_eq. }
  cbn [mbind option_bind]. exists out, calls, turn, (drained_health out h), g'. split; [done|]. split.
  - exists r'. split; [done|]. split; [done|]. split; [done|]. intros st Ho. rewrite (Hs st Ho). unfold finalized_record.
    by destruct (finalize_task _ _ _ _ _ _ _).
  - split; [done|]. split; [intros Ho rv Hrv; specialize (Hone Ho); by rewrite Hrv in Hone|]. split; [done|].
    destruct out as [| | |st]; try done. split; [done|]. split; [done|]. intros Ho. by destruct (Ho st).
Qed.

(** ** Reading tasks *)
(** Customers read exactly their own tasks and those of the operator, and an
    artifact only by a name such a task holds. *)
Lemma tripo_tasks_isolated (path : string -> string -> string) (g : Tasks) (id : string) (requester : option string) :
  (is_Some (task_view g id requester) <->
     exists r, g !! id = Some r /\ (requester = None \/ g_account r = None \/ g_account r = requester))
  /\ (forall name p, task_artifact_path path g id name requester = Some p ->
        p = path id name /\ exists v, task_view g id requester = Some v /\ name ∈ v_artifacts v).
Proof.
  split.
  - rewrite <- read_record_spec. unfold task_view. destruct (read_record g id requester); cbn; (split; intros [y Hy]; [|]); by eauto.
  - intros name p (-> & r & Hr & Hin)%artifact_path_spec. split; [done|]. unfold task_view. rewrite Hr. by eexists.
Qed.

(** ** Runs *)
Definition demo_answer (status credit : string) : json :=
  mkJson (VObject [("code", VNumber (PosInt 0));
                   ("data", VObject [("status", VString status); ("consumed_credit", VNumber (PosInt 20));
                                     ("output", VObject [("pbr_model", VString "https://cdn/x"); ("model", VString "")])])])
    (fun _ => credit).
Definition demo_polls (i : nat) : tripo_poll :=
  mkTripoPoll false (Z.of_nat i * 2000) (WAnswer 200 (Some (demo_answer (match i with O => "running" | _ => "success" end) "20.5"))) 2000.
Definition demo_context : DrainContext :=
  mkContext "req" TextToModel (Some "v3.0-20250812") 30 1000 "subject" "Professional" (Some (mkReservation "acct" "key" HOLD_NANO 11000)).
Definition demo_tasks : Tasks := {["req" := mkRecord TextToModel (Some "acct") "created" None [] 1000 1000 None false]}.
Definition demo_end : end_env := mkEnd true Some (Err F_Transport) 3000.
Definition demo_state : TaskState := mkState Success None (Some "20.5") None None [("pbr_model", "https://cdn/x")].
(** Twenty and a half credits at eleven tenths of the price. *)
Example tripo_demo_drain :
  (fun x => (x.1.1.1.1, x.1.1.1.2)) <$> drain_task 901 demo_polls demo_end demo_context "up" ProfileHealth_default demo_tasks
  = Some (Finished demo_state, [mkSettle 0 225500000 None (Some 205000000)]).
Proof. vm_compute. reflexivity. Qed.
(** A successful task without the field, or one that reports more than its
    reserve, costs the hold, which is nothing. *)
Example unbelieved_success_is_free :
  map (fun raw => f_settles <$> finalize_task true demo_context "up" (mkState Success None raw None None []) Some (Err F_Transport) 3000)
    [None; Some "30.001"]
  = [Some [mkSettle 0 0 (Some "tripo3d-consumed-credit-missing") None]; Some [mkSettle 0 0 (Some "tripo3d-tariff-anomaly") None]].
Proof. vm_compute. reflexivity. Qed.
(** Credits with more than three decimals, a sign or an exponent are not read. *)
Example unread_credits : map millicredits_from_raw ["20"; "0.05"; "1.2345"; "-1"; "2e1"; ".5"; "7."] = [Some 20000; Some 50; None; None; None; None; Some 7000].
Proof. vm_compute. reflexivity. Qed.

Lemma tripo_settlement_exact_witness :
  exists out, finalize_task true demo_context "up" demo_state Some (Err F_Transport) 3000 = Some out.
Proof.
  destruct (tripo_settlement_exact demo_context "up" demo_state Some (Err F_Transport) 3000) as (out & H & _).
  - reflexivity.
  - vm_compute. split; discriminate.
  - intros rv [= <-]. vm_compute. split; discriminate.
  - exists out. exact H.
Defined.
Lemma tripo_drain_ends_witness :
  exists out calls turn h' g', drain_task 901 demo_polls demo_end demo_context "up" ProfileHealth_default demo_tasks
    = Some (out, calls, turn, h', g').
Proof.
  destruct (tripo_drain_ends demo_polls demo_end demo_context "up" ProfileHealth_default demo_tasks
    (mkRecord TextToModel (Some "acct") "created" None [] 1000 1000 None false)) as (out & calls & turn & h' & g' & H & _).
  - vm_compute. discriminate.
  - intros i. right. unfold demo_polls, POLL_INTERVAL_MS. cbn [tp_elapsed_ms]. lia.
  - vm_compute. reflexivity.
  - reflexivity.
  - reflexivity.
  - exists out, calls, turn, h', g'. exact H.
Defined.
