(* ===== verification/GeminiQuota.v ===== *)
(** * Quota evidence of a Gemini profile ([crates/forward/src/gemini/pool.rs],
    [config.rs], [calibration.rs])

    What Google reports about the quota of one subscription: the rows of the model
    catalogue, the exact fractions of the five-hour and weekly summaries, and what
    routing concludes from them.  Shares of a window are the [f64]s of the code:
    binary64 numbers with the rounding of the standard ([SpecFloat] of the Standard
    Library).  The digest that spreads the reserves is an argument. *)
From Stdlib Require Import SpecFloat.
From S2P Require Import Prelude Text MeterUsage RouterWire RouterCatalog Waits.
#[local] Open Scope Z_scope.

(** ** [f64] *)
Abbreviation f64 := spec_float.
#[global] Instance spec_float_eq_dec : EqDecision spec_float.
Proof. solve_decision. Defined.
Definition f64_of (z : Z) : f64 := binary_normalize 53 1024 z 0 false.
Definition f64_zero : f64 := S754_zero false.
Definition f64_sub : f64 -> f64 -> f64 := SFsub 53 1024.
Definition f64_add : f64 -> f64 -> f64 := SFadd 53 1024.
Definition f64_mul : f64 -> f64 -> f64 := SFmul 53 1024.
Definition f64_div : f64 -> f64 -> f64 := SFdiv 53 1024.
Definition is_finite (x : f64) : bool := match x with S754_zero _ | S754_finite _ _ _ => true | _ => false end.
Definition f64_clamp (lo hi x : f64) : f64 :=
  let x := if SFltb x lo then lo else x in if SFltb hi x then hi else x.
(** [x.floor() as i64]: not a number is zero, anything out of range saturates. *)
Definition floor_i64 (x : f64) : Z :=
  match x with
  | S754_zero _ | S754_nan => 0
  | S754_infinity s => if s then i64_min else i64_max
  | S754_finite s m e =>
      let v := if s then Zneg m else Zpos m in
      sat_i64 (if 0 <=? e then v * 2 ^ e else v / 2 ^ (- e))
  end.
(** [f64::total_cmp] on numbers: the negative zero is below the positive one. *)
Definition negative (x : f64) : bool :=
  match x with S754_zero s | S754_infinity s | S754_finite s _ _ => s | S754_nan => false end.
Definition total_le (x y : f64) : bool :=
  match SFcompare x y with
  | Some Lt => true
  | Some Eq => negative x || negb (negative y)
  | Some Gt => false
  | None => bool_decide (y = S754_nan)
  end.
(** [min_by]: the first of the least. *)
Fixpoint min_fraction (l : list f64) : option f64 :=
  match l with
  | [] => None
  | x :: l => Some (match min_fraction l with Some y => if total_le x y then x else y | None => x end)
  end.
Definition f64_one : f64 := f64_of 1.
Definition f64_hundred : f64 := f64_of 100.

(** ** Rows of the model catalogue *)
Inductive OAuthKind : Type := Antigravity | LegacyGeminiCli.
#[global] Instance OAuthKind_eq_dec : EqDecision OAuthKind.
Proof. solve_decision. Defined.
Record GeminiQuotaBucketStatus := mkBucket {
  b_model_id : string; b_remaining_amount : option Z; b_remaining_fraction : option f64; b_reset_time : option string; b_token_type : option string }.
Record GeminiQuotaSnapshot := mkQuota { q_updated_at : Z; q_buckets : list GeminiQuotaBucketStatus }.
Definition GeminiQuotaSnapshot_default : GeminiQuotaSnapshot := mkQuota 0 [].
Definition valid_model_id (model_id : string) : bool :=
  negb (bool_decide (model_id = EmptyString)) && (str_len model_id <=? 128)
  && all_bytes (fun c => byte_between 48 57 c || byte_between 65 90 c || byte_between 97 122 c || one_of [46; 95; 45] (byte_of c)) model_id.
Definition bounded_quota_text (v : option string) : option string :=
  s ← v;
  if negb (bool_decide (s = EmptyString)) && (str_len s <=? 128) && all_bytes (byte_between 33 126) s then Some s else None.
Definition sane_fraction (v : option f64) : option f64 :=
  x ← v; if is_finite x then Some (f64_clamp f64_zero f64_one x) else None.
(** [AvailableModel] and [QuotaBucket] as [serde] reads them. *)
Record AvailableModelQuota := mkModelQuota { am_fraction : option f64; am_reset_time : option string }.
Definition sanitized_model (model_id : string) (quota : option AvailableModelQuota) : option GeminiQuotaBucketStatus :=
  if valid_model_id model_id
  then Some (mkBucket model_id None (sane_fraction (quota >>? am_fraction)) (bounded_quota_text (quota >>? am_reset_time)) (Some "antigravity_model"))
  else None.
Record QuotaBucket := mkRow {
  r_model_id : option string; r_amount : option string; r_fraction : option f64; r_reset_time : option string; r_token_type : option string }.
Definition sanitized_bucket (b : QuotaBucket) : option GeminiQuotaBucketStatus :=
  model_id ← r_model_id b;
  if valid_model_id model_id
  then Some (mkBucket model_id (r_amount b >>? parse_unsigned_max u64_max) (sane_fraction (r_fraction b)) (bounded_quota_text (r_reset_time b))
               (bounded_quota_text (r_token_type b)))
  else None.
(** Reset times: like the router's release times, but a leap second and an empty
    fraction pass, and the arithmetic saturates. *)
Definition parse_rfc3339_seconds (s : string) : option Z :=
  if (str_len s <? 20)
     || negb (bool_decide (byte_at s 4 = Some 45)) || negb (bool_decide (byte_at s 7 = Some 45))
     || negb (bool_decide (byte_at s 10 = Some 84)) || negb (bool_decide (byte_at s 13 = Some 58))
     || negb (bool_decide (byte_at s 16 = Some 58))
  then None
  else
    year ← number s 0 4; month ← number s 5 7; day ← number s 8 10;
    hour ← number s 11 13; minute ← number s 14 16; second ← number s 17 19;
    dim ← month_days year month;
    if negb (between 1 dim day) || (23 <? hour) || (59 <? minute) || (60 <? second) then None
    else
      let tz := if bool_decide (byte_at s 19 = Some 46) then fraction_end s (String.length s) 20 else 19%nat in
      offset ← zone_offset s tz;
      Some (sat_i64 (sat_i64 (sat_i64 (date_days year month day * 86400) + (hour * 3600 + minute * 60 + second)) - offset)).

(** ** Configuration *)
Record GeminiConfig := mkConfig {
  max_transport_retries : Z; auth_quarantine_secs : Z; auth_blocked_cool_secs : Z; transport_cool_secs : Z;
  model_failure_cool_secs : Z; model_failure_max_cool_secs : Z; default_rate_limit_cool_secs : Z; rate_limit_rpm_cool_secs : Z;
  rate_limit_unknown_cool_secs : Z; quota_reserve_fraction : f64; quota_reserve_jitter : f64; batch_5h_headroom_percent : Z;
  health_probe_interval_secs : Z }.
Definition quota_model_id_matches_wire (kind : OAuthKind) (wire quota : string) : bool :=
  if bool_decide (kind = Antigravity) && bool_decide (wire = "gemini-3-flash")
  then bool_decide (quota ∈ ["gemini-3-flash"; "gemini-3-flash-agent"]) else bool_decide (quota = wire).
Definition stale_secs (cfg : GeminiConfig) : Z := clamp 60 3600 (sat_u64 (health_probe_interval_secs cfg * 2)).
Definition matching (kind : OAuthKind) (model_id : string) (q : GeminiQuotaSnapshot) : list GeminiQuotaBucketStatus :=
  List.filter (fun b => quota_model_id_matches_wire kind model_id (b_model_id b)) (q_buckets q).
(** [Some(0)] or [Some(0.0)]; the negative zero equals zero. *)
Definition explicitly_zero (b : GeminiQuotaBucketStatus) : bool :=
  bool_decide (b_remaining_amount b = Some 0) || from_option (fun x => SFeqb x f64_zero) false (b_remaining_fraction b).
Definition reports_positive (b : GeminiQuotaBucketStatus) : bool :=
  from_option (fun a => 0 <? a) false (b_remaining_amount b) || from_option (fun x => SFltb f64_zero x) false (b_remaining_fraction b).

(** ** Evidence read when a generation is refused *)
Record GeminiRateLimitQuotaEvidence := mkEvidence {
  ev_state : string; ev_age_secs : Z; ev_matching : Z; ev_zero : Z; ev_positive : Z; ev_unknown : Z;
  ev_min_remaining_bp : option Z; ev_latest_reset_in_secs : option Z }.
Definition count_of {A} (f : A -> bool) (l : list A) : Z := Z.of_nat (length (List.filter f l)).
Definition least (l : list Z) : option Z := match l with [] => None | x :: l => Some (foldl Z.min x l) end.
Definition greatest (l : list Z) : option Z := match l with [] => None | x :: l => Some (foldl Z.max x l) end.
Definition remaining_bp (x : f64) : Z := floor_i64 (f64_mul (f64_clamp f64_zero f64_one x) (f64_of 10000)).
Definition rate_limit_quota_evidence (cfg : GeminiConfig) (kind : OAuthKind) (model_id : string) (q : GeminiQuotaSnapshot) (now : Z)
    : GeminiRateLimitQuotaEvidence :=
  let rows := matching kind model_id q in
  mkEvidence
    (if q_updated_at q <=? 0 then "missing" else if sat_i64 (q_updated_at q + stale_secs cfg) <=? now then "stale" else "fresh")
    (if 0 <? q_updated_at q then Z.max 0 (sat_i64 (now - q_updated_at q)) else -1)
    (Z.of_nat (length rows)) (count_of explicitly_zero rows)
    (count_of (fun b => negb (explicitly_zero b) && reports_positive b) rows)
    (count_of (fun b => negb (explicitly_zero b) && negb (reports_positive b)) rows)
    (least (map remaining_bp (List.filter is_finite (omap b_remaining_fraction rows))))
    (greatest (map (fun reset => Z.max 0 (sat_i64 (reset - now))) (omap (fun b => b_reset_time b >>? parse_rfc3339_seconds) rows))).
Definition quota_reports_remaining (cfg : GeminiConfig) (kind : OAuthKind) (model_id : string) (q : GeminiQuotaSnapshot) (now : Z) : bool :=
  let e := rate_limit_quota_evidence cfg kind model_id q now in
  bool_decide (ev_state e = "fresh") && (0 <? ev_matching e) && (ev_zero e =? 0) && (0 <? ev_positive e)
  && from_option (fun bp => 0 <? bp) false (ev_min_remaining_bp e).

(** ** Steering and blocking *)
Definition QUOTA_STEER_FLOOR_USED_PERCENT : Z := 50.
Definition QUOTA_STEER_BUCKET_PERCENT : Z := 10.
Definition quota_rank (remaining : option f64) : Z :=
  let used := match remaining with
              | Some r => floor_i64 (f64_mul (f64_sub f64_one (f64_clamp f64_zero f64_one r)) f64_hundred)
              | None => 0
              end in
  Z.quot (Z.max 0 (sat_i64 (used - QUOTA_STEER_FLOOR_USED_PERCENT))) QUOTA_STEER_BUCKET_PERCENT.
Definition quota_steering (cfg : GeminiConfig) (kind : OAuthKind) (model_id : string) (q : GeminiQuotaSnapshot) (now : Z) : bool * option f64 :=
  if q_updated_at q <=? 0 then (false, None)
  else if sat_i64 (q_updated_at q + stale_secs cfg) <=? now then (true, None)
  else (false, min_fraction (omap b_remaining_fraction (matching kind model_id q))).
(** [digest] is the first two bytes of the hash of a text. *)
Definition quota_reserve_for (digest : string -> Z * Z) (cfg : GeminiConfig) (id model_id : string) : f64 :=
  let '(lo, hi) := digest (String.app id (String Ascii.zero model_id)) in
  let unit := f64_div (f64_of (lo + 256 * hi)) (f64_of 65535) in
  f64_clamp f64_zero (f64_div (f64_of 95) f64_hundred)
    (f64_add (quota_reserve_fraction cfg) (f64_mul (quota_reserve_jitter cfg) (f64_sub (f64_mul unit (f64_of 2)) f64_one))).
Definition blocked_by (now stale_at : Z) (b : GeminiQuotaBucketStatus) : Z :=
  match b_reset_time b >>? parse_rfc3339_seconds >>? (fun reset => if now <? reset then Some reset else None) with
  | Some reset => reset
  | None => if now <? stale_at then stale_at else 0
  end.
Definition quota_blocked_until (cfg : GeminiConfig) (kind : OAuthKind) (model_id : string) (q : GeminiQuotaSnapshot) (now : Z)
    (missing_quota_blocks : bool) : Z :=
  if (q_updated_at q <=? 0) || bool_decide (q_buckets q = []) then 0
  else
    let stale_at := sat_i64 (q_updated_at q + stale_secs cfg) in
    let rows := matching kind model_id q in
    if bool_decide (rows = []) then (if missing_quota_blocks && (now <? stale_at) then stale_at else 0)
    else default 0 (greatest (map (blocked_by now stale_at) (List.filter explicitly_zero rows))).

(** ** Exact fractions of the summaries *)
Definition FRACTION_SCALE : Z := 100000000.
Record ExactFractionValue := mkFraction { fr_units : Z; fr_resolution_units : Z }.
Definition checked_pow10 (n : Z) : option Z := if n <=? 38 then Some (10 ^ n) else None.
Definition all_digits (s : string) : bool := all_bytes (byte_between 48 57) s.
(** The first [e] or [E]. *)
Fixpoint split_exponent (s : string) : option (string * string) :=
  match s with
  | EmptyString => None
  | String c s => if one_of [101; 69] (byte_of c) then Some (EmptyString, s) else (fun p => (String c p.1, p.2)) <$> split_exponent s
  end.
Definition is_i32 (z : Z) : bool := (- (i32_max + 1) <=? z) && (z <=? i32_max).
Definition checked_i32 (z : Z) : option Z := if is_i32 z then Some z else None.
Definition as_i32 (z : Z) : Z := (z + 2 ^ 31) mod 2 ^ 32 - 2 ^ 31.
(** [digits.parse::<i128>()] of a text of digits. *)
Definition parse_digits_i128 (digits : string) : option Z := unsigned_value digits >>? checked_i128.
Definition exact_units (coefficient power : Z) : option Z :=
  scaled ← (if 0 <=? power then factor ← checked_pow10 power; checked_i128 (coefficient * factor)
            else divisor ← checked_pow10 (- power);
                 if Z.rem coefficient divisor =? 0 then Some (Z.quot coefficient divisor) else None);
  units ← checked_i64 scaled;
  if between 0 FRACTION_SCALE units then Some units else None.
Definition parse_fraction (raw : string) : option ExactFractionValue :=
  let value := trim raw in
  if bool_decide (value = EmptyString) || bool_decide (strip_prefix "-" value <> None) then None
  else
    '(mantissa, exponent) ← (match split_exponent value with
                             | Some (mantissa, e) => exponent ← parse_i64 e >>? checked_i32; Some (mantissa, exponent)
                             | None => Some (value, 0)
                             end);
    let '(whole, fraction) := default (mantissa, EmptyString) (split_once (Ascii.ascii_of_N 46) mantissa) in
    if bool_decide (whole = EmptyString) || negb (all_digits whole) || negb (all_digits fraction) then None
    else
      coefficient ← parse_digits_i128 (String.app whole fraction);
      raised ← checked_i32 (8 + exponent);
      power ← checked_i32 (raised - as_i32 (str_len fraction));
      units ← exact_units coefficient power;
      resolution ← (if 0 <=? power then checked_pow10 power else Some 1);
      resolution ← checked_i64 resolution;
      Some (mkFraction units (clamp 1 FRACTION_SCALE resolution)).

(** ** Summaries *)
Record BucketContract := mkContract { c_id : string; c_kind : string; c_duration_mins : Z }.
Definition BUCKET_5H : string := "gemini-5h".
Definition BUCKET_WEEKLY : string := "gemini-weekly".
Definition FIVE_HOUR : BucketContract := mkContract BUCKET_5H "5h" 300.
Definition WEEKLY : BucketContract := mkContract BUCKET_WEEKLY "weekly" 10080.
Definition bucket_contract (id : string) : option BucketContract :=
  if bool_decide (id = BUCKET_5H) then Some FIVE_HOUR else if bool_decide (id = BUCKET_WEEKLY) then Some WEEKLY else None.
Record GeminiSummaryBucket := mkSummary { s_contract : BucketContract; s_units : Z; s_resolution : Z; s_resets_at : Z }.
Record GeminiQuotaSummarySnapshot := mkSummaries { sm_updated_at : Z; sm_buckets : list GeminiSummaryBucket }.
Definition GeminiQuotaSummarySnapshot_default : GeminiQuotaSummarySnapshot := mkSummaries 0 [].
(** A row of a summary: its fraction is the text of the number or the string. *)
Record QuotaSummaryBucket := mkSummaryRow { sr_bucket_id : option string; sr_fraction : option string; sr_reset_time : option string }.
Definition summary_reading (contract : BucketContract) (row : QuotaSummaryBucket) : option GeminiSummaryBucket :=
  fraction ← sr_fraction row >>? parse_fraction;
  reset ← sr_reset_time row >>? parse_rfc3339_seconds;
  if 0 <? reset then Some (mkSummary contract (fr_units fraction) (fr_resolution_units fraction) reset) else None.
Definition summary_step (st : gset string * list GeminiSummaryBucket) (row : QuotaSummaryBucket) : gset string * list GeminiSummaryBucket :=
  match sr_bucket_id row >>? bucket_contract with
  | None => st
  | Some contract =>
      let '(seen, buckets) := st in
      if bool_decide (c_id contract ∈ seen)
      then (seen, List.filter (fun b => negb (bool_decide (c_id (s_contract b) = c_id contract))) buckets)
      else ({[c_id contract]} ∪ seen, match summary_reading contract row with Some b => buckets ++ [b] | None => buckets end)
  end.
(** [None] when the answer says nothing about Gemini: the last reading stays. *)
Definition refresh_quota_summary (rows : list QuotaSummaryBucket) (observed_at : Z) (old : GeminiQuotaSummarySnapshot) : GeminiQuotaSummarySnapshot :=
  let buckets := sort_by (fun b => [c_duration_mins (s_contract b)]) (foldl summary_step (∅, []) rows).2 in
  if bool_decide (buckets = []) then old else mkSummaries observed_at buckets.
(** The catalogue of either credential kind, in the order of its rows; it is kept
    in the order of the models. *)
Inductive catalogue : Type := AvailableModels (models : list (string * option AvailableModelQuota)) | UserQuota (buckets : list QuotaBucket).
Definition sanitized (c : catalogue) : list GeminiQuotaBucketStatus :=
  match c with
  | AvailableModels models => omap (fun m => sanitized_model m.1 m.2) models
  | UserQuota buckets => omap sanitized_bucket buckets
  end.
Fixpoint str_keys (s : string) : list Z := match s with EmptyString => [] | String c s => byte_of c :: str_keys s end.
(** [None] is an answer that was refused, too large or not read. *)
Definition refresh_model_quota (answer : option catalogue) (now : Z) (old : GeminiQuotaSnapshot) : GeminiQuotaSnapshot :=
  match answer with
  | Some c => mkQuota now (sort_by (fun b => str_keys (b_model_id b)) (take 256 (sanitized c)))
  | None => old
  end.
(** Whether the five-hour window of a fresh summary has room for batch work. *)
Definition headroom_threshold (cfg : GeminiConfig) : Z := Z.quot (sat_i64 (batch_5h_headroom_percent cfg * FRACTION_SCALE)) 100.
Definition batch_headroom (cfg : GeminiConfig) (s : GeminiQuotaSummarySnapshot) (now : Z) : bool :=
  (0 <? sm_updated_at s) && (sat_i64 (now - sm_updated_at s) <=? stale_secs cfg)
  && existsb (fun b => bool_decide (c_id (s_contract b) = BUCKET_5H) && (headroom_threshold cfg <? s_units b)) (sm_buckets s).

(** ** What the evidence means *)
(** A reading is a whole number of its resolution, within the window. *)
Lemma parse_fraction_sound raw r :
  parse_fraction raw = Some r ->
  0 <= fr_units r <= FRACTION_SCALE /\ 1 <= fr_resolution_units r <= FRACTION_SCALE /\ (fr_resolution_units r | fr_units r).
Proof.
  unfold parse_fraction. destruct (_ || _); [done|]. intros ([mantissa e] & _ & H)%bind_Some. revert H.
  destruct (default _ _) as [whole fraction]. destruct (_ || _); [done|].
  intros (c & _ & H)%bind_Some. apply bind_Some in H as (x & _ & H). apply bind_Some in H as (power & _ & H).
  apply bind_Some in H as (units & Hu & H). apply bind_Some in H as (resolution & Hr & H).
  apply bind_Some in H as (r' & [-> _]%checked_i64_Some & [= <-]). cbn [fr_units fr_resolution_units].
  unfold exact_units in Hu. apply bind_Some in Hu as (scaled & Hs & Hu). apply bind_Some in Hu as (u & [-> _]%checked_i64_Some & Hu).
  destruct (between 0 FRACTION_SCALE scaled) eqn:Eb; [|done]. injection Hu as <-. apply andb_true_iff in Eb as [E1%Z.leb_le E2%Z.leb_le].
  split; [done|]. assert (Hc : 1 <= clamp 1 FRACTION_SCALE resolution <= FRACTION_SCALE) by (unfold clamp, FRACTION_SCALE; lia).
  split; [done|]. destruct (Z.leb_spec 0 power).
  - apply bind_Some in Hs as (factor & Hf & [-> _]%checked_i128_Some). unfold checked_pow10 in Hr, Hf. destruct (power <=? 38); [|done].
    injection Hr as <-. injection Hf as <-. assert (0 < 10 ^ power) by (by apply Z.pow_pos_nonneg).
    destruct (Z.le_gt_cases (10 ^ power) FRACTION_SCALE) as [Hle|Hgt].
    + replace (clamp 1 FRACTION_SCALE (10 ^ power)) with (10 ^ power) by (unfold clamp; lia). by exists c.
    + assert (c = 0) as -> by nia. by exists 0.
  - injection Hr as <-. replace (clamp 1 FRACTION_SCALE 1) with 1 by (by vm_compute). apply Z.divide_1_l.
Qed.
Lemma foldl_max_ge l : forall y x, x ∈ y :: l -> x <= foldl Z.max y l.
Proof.
  induction l as [|z l IH]; intros y x Hx; cbn; [apply list_elem_of_singleton in Hx; lia|].
  pose proof (IH (Z.max y z) (Z.max y z) ltac:(set_solver)). apply elem_of_cons in Hx as [->|[->|Hx]%elem_of_cons]; [lia..|]. apply IH. set_solver.
Qed.
Lemma greatest_ge l m x : greatest l = Some m -> x ∈ l -> x <= m.
Proof. destruct l as [|y l]; [done|]. intros [= <-]. apply foldl_max_ge. Qed.
Lemma greatest_in l m : greatest l = Some m -> m ∈ l.
Proof.
  destruct l as [|y l]; [done|]. cbn. intros [= <-]. revert y. induction l as [|z l IH]; intros y; cbn; [set_solver|].
  specialize (IH (Z.max y z)). apply elem_of_cons in IH as [->|IH]; [|set_solver]. destruct (Z.max_spec y z) as [[_ ->]|[_ ->]]; set_solver.
Qed.
(** Only what the provider reported blocks: a missing row of a fresh catalogue, or
    an explicit zero that has neither been reset nor grown old. *)
Lemma quota_blocked_spec cfg kind model_id q now missing :
  0 <= now ->
  now < quota_blocked_until cfg kind model_id q now missing <->
  0 < q_updated_at q /\ q_buckets q <> []
  /\ ((matching kind model_id q = [] /\ missing = true /\ now < sat_i64 (q_updated_at q + stale_secs cfg))
      \/ exists b, b ∈ matching kind model_id q /\ explicitly_zero b = true
           /\ ((exists reset, b_reset_time b >>? parse_rfc3339_seconds = Some reset /\ now < reset) \/ now < sat_i64 (q_updated_at q + stale_secs cfg))).
Proof.
  intros Hnow. unfold quota_blocked_until. set (stale := sat_i64 _).
  assert (Hby : forall b, now < blocked_by now stale b <->
    (exists reset, b_reset_time b >>? parse_rfc3339_seconds = Some reset /\ now < reset) \/ now < stale).
  { intros b. unfold blocked_by. destruct (b_reset_time b >>? parse_rfc3339_seconds) as [reset|]; cbn.
    - destruct (Z.ltb_spec now reset); [split; [eauto|done]|]. destruct (Z.ltb_spec now stale); (split; [auto; lia|]); [done|].
      intros [(r & [= <-] & ?)|?]; lia.
    - destruct (Z.ltb_spec now stale); (split; [auto; lia|]); [done|]. intros [(r & ? & _)|?]; [done|lia]. }
  clearbody stale. destruct (Z.leb_spec (q_updated_at q) 0); [split; [cbn; lia|lia]|]. case_bool_decide as Eb; cbn [orb]; [split; [lia|by intros (_ & ? & _)]|].
  case_bool_decide as Em.
  - rewrite Em. split.
    + destruct missing, (Z.ltb_spec now stale); cbn; try lia. intros _. split; [lia|]. split; [done|]. by left.
    + intros (_ & _ & [(_ & -> & Hs)|(b & Hin & _)]); [|by apply elem_of_nil in Hin]. by rewrite (proj2 (Z.ltb_lt _ _) Hs).
  - destruct (greatest _) as [m|] eqn:Eg; cbn [default].
    + pose proof (greatest_in _ _ Eg) as (b & -> & [Hb Hz]%elem_of_lfilter)%list_elem_of_fmap. split.
      * intros Hlt. split; [done|]. split; [done|]. right. exists b. by rewrite <- Hby.
      * intros (_ & _ & [(? & _)|(b' & Hin & Hz' & Hw)]); [done|]. apply Hby in Hw.
        eapply Z.lt_le_trans; [exact Hw|]. eapply greatest_ge; [exact Eg|]. apply list_elem_of_fmap. exists b'.
        split; [done|]. by apply elem_of_lfilter.
    + split; [lia|]. intros (_ & _ & [(? & _)|(b & Hin & Hz & _)]); [done|].
      assert (Hf : b ∈ List.filter explicitly_zero (matching kind model_id q)) by (by apply elem_of_lfilter).
      destruct (List.filter explicitly_zero (matching kind model_id q)); [set_solver|done].
Qed.
(** Evidence of a remainder is never evidence of a wall. *)
Lemma reported_not_blocked cfg kind model_id q now missing :
  0 <= now -> quota_reports_remaining cfg kind model_id q now = true -> ~ now < quota_blocked_until cfg kind model_id q now missing.
Proof.
  intros Hnow H. rewrite quota_blocked_spec by done. intros (_ & _ & Hb). unfold quota_reports_remaining in H. cbn in H.
  rewrite !andb_true_iff, Z.ltb_lt, Z.eqb_eq in H. destruct H as ((((_ & Hm) & Hz) & _) & _). destruct Hb as [(E & _)|(b & Hin & Eb & _)].
  - rewrite E in Hm. cbn in Hm. lia.
  - assert (Hf : b ∈ List.filter explicitly_zero (matching kind model_id q)) by (by apply elem_of_lfilter). unfold count_of in Hz.
    destruct (List.filter explicitly_zero (matching kind model_id q)); [set_solver|]. cbn in Hz. lia.
Qed.
