(* ===== verification/GeminiPool.v ===== *)
(** * The Gemini pool ([crates/forward/src/gemini/pool.rs])

    Health of a subscription on its independent axes, its token with refresh under
    one lock, health probes, roster reload with restored cooling, and the four ways
    to select a profile: routed, ignoring what was only inferred, for batch work,
    and one named by the operator.  Clocks and answers of Google are arguments;
    atomics are read and written in the order of the code. *)
From S2P Require Import Prelude Text MeterUsage RouterWire Waits GeminiQuota.
#[local] Open Scope Z_scope.

(** ** Health *)
Record GeminiModelHealthState := mkModelHealth {
  m_cooling_until : Z; m_failure_streak : Z; m_last_success_at : Z; m_last_failure_at : Z; m_last_failure_class : option string }.
Definition GeminiModelHealthState_default : GeminiModelHealthState := mkModelHealth 0 0 0 0 None.
(** The atomics and the model map of a profile. *)
Record health := mkHealth {
  cooling_until : Z; quota_cooling_until : Z; auth_failure_streak : Z; authenticated : bool; model_health : gmap string GeminiModelHealthState }.
Definition model_health_for (h : health) (model_id : string) : GeminiModelHealthState :=
  default GeminiModelHealthState_default (model_health h !! model_id).
Definition set_model (h : health) (model_id : string) (m : GeminiModelHealthState) : health :=
  mkHealth (cooling_until h) (quota_cooling_until h) (auth_failure_streak h) (authenticated h) (<[model_id := m]> (model_health h)).
Definition mark_authenticated (h : health) : health := mkHealth 0 0 0 true (model_health h).
Definition mark_model_success (h : health) (model_id : string) (now : Z) : health :=
  let h := mark_authenticated h in let m := model_health_for h model_id in
  set_model h model_id (mkModelHealth 0 0 now (m_last_failure_at m) None).
Definition cool_until (h : health) (until : Z) : health :=
  mkHealth (Z.max (cooling_until h) until) (quota_cooling_until h) (auth_failure_streak h) (authenticated h) (model_health h).
Definition cool_quota_until (h : health) (until : Z) : health :=
  mkHealth (cooling_until h) (Z.max (quota_cooling_until h) until) (auth_failure_streak h) (authenticated h) (model_health h).
(** [base * 2^(streak-1)], within one second and the ceiling. *)
Definition backoff (base ceiling streak : Z) : Z := clamp 1 ceiling (sat_i64 (base * 2 ^ Z.min 30 (Z.max 0 (streak - 1)))).
Definition mark_auth_blocked (cfg : GeminiConfig) (h : health) (now : Z) : health :=
  let stored := (auth_failure_streak h + 1) mod 2 ^ 32 in
  let streak := Z.min u32_max (auth_failure_streak h + 1) in
  cool_until (mkHealth (cooling_until h) (quota_cooling_until h) stored (authenticated h) (model_health h))
    (sat_i64 (now + backoff (auth_blocked_cool_secs cfg) (auth_quarantine_secs cfg) streak)).
Definition mark_auth_failed (h : health) (until : Z) : health :=
  cool_until (mkHealth (cooling_until h) (quota_cooling_until h) (auth_failure_streak h) false (model_health h)) until.
Definition mark_model_failure (cfg : GeminiConfig) (h : health) (model_id class : string) (now : Z) : health :=
  let m := model_health_for h model_id in
  let streak := Z.min u32_max (m_failure_streak m + 1) in
  let delay := backoff (model_failure_cool_secs cfg) (model_failure_max_cool_secs cfg) streak in
  set_model h model_id (mkModelHealth (Z.max (m_cooling_until m) (sat_i64 (now + delay))) streak (m_last_success_at m) now (Some class)).

(** *** Cooling that survives a restart *)
Abbreviation CooldownState := (gmap string (gmap string Z)).
(** [disk] is the file, where it exists and parses; [writable] whether it can be
    replaced. *)
Definition persist_model_cooling (disk : option CooldownState) (writable : bool) (id model_id : string) (until : Z) : option CooldownState :=
  let document := default ∅ disk in
  if writable then Some (<[id := <[model_id := until]> (default ∅ (document !! id))]> document) else disk.
Definition cool_model_until (h : health) (disk : option CooldownState) (writable : bool) (id model_id : string) (until : Z)
    : health * option CooldownState :=
  let m := model_health_for h model_id in
  let until := Z.max (m_cooling_until m) until in
  (set_model h model_id (mkModelHealth until (m_failure_streak m) (m_last_success_at m) (m_last_failure_at m) (m_last_failure_class m)),
   persist_model_cooling disk writable id model_id until).
Definition load_active_cooldowns (disk : option CooldownState) (now : Z) : CooldownState :=
  filter (fun kv => kv.2 <> ∅) (filter (fun kv : string * Z => now < kv.2) <$> default ∅ disk).

(** ** Tokens *)
Definition ACCESS_TOKEN_SKEW_SECS : Z := 120.
Inductive TokenError : Type := InvalidGrant | BlockedToken | TemporaryToken.
#[global] Instance TokenError_eq_dec : EqDecision TokenError.
Proof. solve_decision. Defined.
Inductive TokenAcquisitionPolicy : Type := Normal | ExactCount | ExactGenerationCachedOnly.
#[global] Instance TokenAcquisitionPolicy_eq_dec : EqDecision TokenAcquisitionPolicy.
Proof. solve_decision. Defined.
Record GeminiCredential := mkCredential { access_token : string; expires_at : Z; refresh_token : string }.
(** The answer to a refresh: not sent or not read, a refusal with the error class
    of its body, or a token. *)
Inductive refresh_answer : Type :=
| RefreshLost | RefreshRefused (status : Z) (error : option string)
| RefreshMalformed | Refreshed (token : string) (expires_in : Z) (rotated : option string).
Definition classify_refresh_failure (status : Z) (google_error : option string) : TokenError :=
  if (status =? 400) && bool_decide (google_error = Some "invalid_grant") then InvalidGrant
  else if one_of [401; 403] status then BlockedToken else TemporaryToken.
Definition token_ok (token : string) (expires_in : Z) : bool :=
  between 8 16384 (str_len token) && all_bytes (byte_between 33 126) token && between 60 86400 expires_in.
Definition refresh_locked (c : GeminiCredential) (now : Z) (answer : refresh_answer) : result TokenError string * GeminiCredential :=
  match answer with
  | RefreshLost | RefreshMalformed => (Err TemporaryToken, c)
  | RefreshRefused status error => (Err (classify_refresh_failure status error), c)
  | Refreshed token expires_in rotated =>
      if token_ok token expires_in then
        let rotated := match rotated with
                       | Some r => if negb (bool_decide (r = EmptyString)) && (str_len r <=? 16384) then r else refresh_token c
                       | None => refresh_token c
                       end in
        (Ok token, mkCredential token (sat_i64 (sat_i64 (now + expires_in) - 60)) rotated)
      else (Err InvalidGrant, c)
  end.
Definition token_fresh (c : GeminiCredential) (now : Z) : bool :=
  (sat_i64 (now + ACCESS_TOKEN_SKEW_SECS) <? expires_at c) && negb (bool_decide (access_token c = EmptyString)).
(** Who asks for a token, and whether the request may ask Google for a new one. *)
Inductive token_request : Type :=
| AskToken (force_refresh : bool) | AskWithPolicy (policy : TokenAcquisitionPolicy) | AskAfterRejection (rejected : string).
(** The boolean says whether a refresh was sent. *)
Definition acquire_token (r : token_request) (c : GeminiCredential) (now : Z) (answer : refresh_answer)
    : result TokenError string * bool * GeminiCredential :=
  let cached := (Ok (access_token c), false, c) in
  let refreshed := let '(t, c) := refresh_locked c now answer in (t, true, c) in
  match r with
  | AskToken force => if negb force && token_fresh c now then cached else refreshed
  | AskWithPolicy Normal => if token_fresh c now then cached else refreshed
  | AskWithPolicy ExactCount => if token_fresh c now then cached else refreshed
  | AskWithPolicy ExactGenerationCachedOnly => if token_fresh c now then cached else (Err TemporaryToken, false, c)
  | AskAfterRejection rejected =>
      if negb (bool_decide (access_token c = rejected)) && token_fresh c now then cached else refreshed
  end.
(** The lock serves the requests one after another. *)
Fixpoint serve_tokens (c : GeminiCredential) (rs : list (token_request * Z * refresh_answer))
    : list (result TokenError string) * Z * GeminiCredential :=
  match rs with
  | [] => ([], 0, c)
  | (r, now, answer) :: rs =>
      let '(t, sent, c) := acquire_token r c now answer in
      let '(ts, n, c) := serve_tokens c rs in (t :: ts, Z.b2z sent + n, c)
  end.

(** ** Profiles *)
Record GeminiProfile := mkProfile {
  p_id : string; p_kind : OAuthKind; p_source : string; p_fingerprint : string; p_inflight : Z; p_health : health;
  p_quota : GeminiQuotaSnapshot; p_summary : GeminiQuotaSummarySnapshot; p_last_probe_at : Z }.
Definition with_health (p : GeminiProfile) (h : health) : GeminiProfile :=
  mkProfile (p_id p) (p_kind p) (p_source p) (p_fingerprint p) (p_inflight p) h (p_quota p) (p_summary p) (p_last_probe_at p).
Definition leased (p : GeminiProfile) : GeminiProfile :=
  mkProfile (p_id p) (p_kind p) (p_source p) (p_fingerprint p) (p_inflight p + 1) (p_health p) (p_quota p) (p_summary p) (p_last_probe_at p).
Definition cooling_until_inner (cfg : GeminiConfig) (p : GeminiProfile) (model_id : string) (now : Z)
    (generation hard_only missing_quota_blocks : bool) : Z :=
  let h := p_health p in
  let env := if hard_only then 0 else cooling_until h in
  let global := Z.max env (quota_cooling_until h) in
  if negb generation then global
  else Z.max (Z.max global (m_cooling_until (model_health_for h model_id)))
         (quota_blocked_until cfg (p_kind p) model_id (p_quota p) now missing_quota_blocks).
Definition cooling_until_for cfg p model_id now generation : Z := cooling_until_inner cfg p model_id now generation false true.
Definition hard_cooling_until_for cfg p model_id now generation : Z := cooling_until_inner cfg p model_id now generation true true.
Definition operator_cooling_until_for cfg p model_id now generation : Z := cooling_until_inner cfg p model_id now generation false false.

(** ** Probes *)
Inductive ProbeResult : Type := Healthy | RateLimited | ProbeInvalid | ProbeBlocked | ProbeTemporary.
Definition probe_token_error (e : TokenError) : ProbeResult :=
  match e with InvalidGrant => ProbeInvalid | BlockedToken => ProbeBlocked | TemporaryToken => ProbeTemporary end.
Definition is_success (status : Z) : bool := between 200 299 status.
(** One call of the liveness surface; [None] is a transport failure, and [inr] the
    one repetition after a rejected token. *)
Definition probe_attempt (first : bool) (status : option Z) : ProbeResult + () :=
  match status with
  | Some s =>
      if is_success s then inl Healthy
      else if s =? 429 then inl RateLimited
      else if (s =? 401) && first then inr ()
      else if one_of [401; 403] s then inl ProbeBlocked
      else inl ProbeTemporary
  | None => inl ProbeTemporary
  end.
Record probe_env := mkProbe {
  pr_now1 : Z; pr_answer1 : refresh_answer; pr_status1 : option Z; pr_now2 : Z; pr_answer2 : refresh_answer; pr_status2 : option Z }.
Definition probe (c : GeminiCredential) (e : probe_env) : ProbeResult * GeminiCredential :=
  let '(t, _, c) := acquire_token (AskToken false) c (pr_now1 e) (pr_answer1 e) in
  match t with
  | Err err => (probe_token_error err, c)
  | Ok _ =>
      match probe_attempt true (pr_status1 e) with
      | inl r => (r, c)
      | inr () =>
          let '(t, _, c) := acquire_token (AskToken true) c (pr_now2 e) (pr_answer2 e) in
          match t with
          | Err err => (probe_token_error err, c)
          | Ok _ => match probe_attempt false (pr_status2 e) with inl r => (r, c) | inr () => (ProbeBlocked, c) end
          end
      end
  end.
(** [now] is the start of the sweep, [mark_now] the clock when the result is applied. *)
Definition apply_probe (cfg : GeminiConfig) (now mark_now : Z) (r : ProbeResult) (h : health) : health :=
  match r with
  | Healthy => mark_authenticated h
  | RateLimited =>
      cool_quota_until (mkHealth (cooling_until h) (quota_cooling_until h) (auth_failure_streak h) true (model_health h))
        (now + default_rate_limit_cool_secs cfg)
  | ProbeInvalid => mark_auth_failed h (now + auth_quarantine_secs cfg)
  | ProbeBlocked => mark_auth_blocked cfg h mark_now
  | ProbeTemporary => cool_until h (now + transport_cool_secs cfg)
  end.

(** ** The pool *)
Record GeminiGateway := mkGateway { g_profiles : list GeminiProfile; g_disabled : gset string; g_shutting_down : bool; g_cursor : Z }.
Definition routable_profiles (g : GeminiGateway) : list GeminiProfile :=
  if bool_decide (g_disabled g = ∅) then g_profiles g
  else List.filter (fun p => negb (bool_decide (p_id p ∈ g_disabled g))) (g_profiles g).
(** The operator's switch; [None] is a read that failed. *)
Definition refresh_disabled (g : GeminiGateway) (answer : option (gset string)) : GeminiGateway :=
  match answer with Some d => mkGateway (g_profiles g) d (g_shutting_down g) (g_cursor g) | None => g end.
Definition has_authenticated_profiles (g : GeminiGateway) : bool := existsb (fun p => authenticated (p_health p)) (routable_profiles g).
Definition soonest_ready (cfg : GeminiConfig) (g : GeminiGateway) (model_id : string) (excluded : gset string) (generation : bool) (now : Z) : option Z :=
  least (omap (fun p =>
      if negb (bool_decide (p_id p ∈ excluded)) && authenticated (p_health p)
      then let until := cooling_until_for cfg p model_id now generation in if now <? until then Some until else None
      else None) (routable_profiles g)).

(** *** Routed selection *)
Definition CACHE_ROOT_MIN_WARM_PROFILES : nat := 2.
Record candidate := mkCandidate { c_index : nat; c_profile : GeminiProfile; c_stale : bool; c_rank : Z; c_protected : bool }.
Record route := mkRoute {
  rt_model : string; rt_excluded : gset string; rt_preferred : option string; rt_warm : gset string; rt_place_root : bool; rt_generation : bool }.
Definition eligible (cfg : GeminiConfig) (r : route) (ignore_env : bool) (now : Z) (p : GeminiProfile) : bool :=
  let cooling := if ignore_env then hard_cooling_until_for cfg p (rt_model r) now (rt_generation r)
                 else cooling_until_for cfg p (rt_model r) now (rt_generation r) in
  negb (bool_decide (p_id p ∈ rt_excluded r)) && (cooling <=? now) && authenticated (p_health p).
Section Select.
Context (digest : string -> Z * Z) (cfg : GeminiConfig).
Definition candidate_of (r : route) (now : Z) (index : nat) (p : GeminiProfile) : candidate :=
  let '(stale, remaining) := if rt_generation r then quota_steering cfg (p_kind p) (rt_model r) (p_quota p) now else (false, None) in
  mkCandidate index p stale (quota_rank remaining)
    (match remaining with Some x => SpecFloat.SFltb (quota_reserve_for digest cfg (p_id p) (rt_model r)) x | None => true end).
Definition candidates (r : route) (ignore_env : bool) (now : Z) (profiles : list GeminiProfile) : list candidate :=
  map (fun ip => candidate_of r now ip.1 ip.2)
    (List.filter (fun ip => eligible cfg r ignore_env now ip.2) (imap pair profiles)).
(** Profiles below their reserve rest while another has room. *)
Definition retained (l : list candidate) : list candidate := if existsb c_protected l then List.filter c_protected l else l.
Definition is_preferred (r : route) (c : candidate) : bool := bool_decide (rt_preferred r = Some (p_id (c_profile c))).
Definition is_warm (r : route) (c : candidate) : bool := bool_decide (p_id (c_profile c) ∈ rt_warm r).
Definition turn_order (len offset : Z) (c : candidate) : Z := (Z.of_nat (c_index c) + len - offset mod len) mod len.
Definition route_key (r : route) (len offset : Z) (c : candidate) : list Z :=
  [- Z.b2z (is_preferred r c); Z.b2z (c_stale c); p_inflight (c_profile c); c_rank c; turn_order len offset c].
(** The first of a kind, or else the first. *)
Definition first_such (f : candidate -> bool) (l : list candidate) : option candidate :=
  match List.find f l with Some c => Some c | None => head l end.
Definition same_profile (a b : candidate) : bool := Nat.eqb (c_index a) (c_index b).
Definition without (seen l : list candidate) : list candidate := List.filter (fun c => negb (existsb (same_profile c) seen)) l.
Definition seeded (r : route) (sorted : list candidate) : list candidate :=
  if negb (existsb (is_preferred r) sorted) && rt_place_root r then
    let warm := length (List.filter (is_warm r) sorted) in
    match first_such (fun c => if (warm <? CACHE_ROOT_MIN_WARM_PROFILES)%nat then negb (is_warm r c) else is_warm r c) sorted with
    | Some primary => primary :: without [primary] (List.filter (is_warm r) sorted)
    | None => []
    end
  else [].
Definition ordered (r : route) (sorted : list candidate) : list candidate := seeded r sorted ++ without (seeded r sorted) sorted.
Definition pick_routed (r : route) (ignore_env : bool) (now offset : Z) (profiles : list GeminiProfile) : option candidate :=
  let l := retained (candidates r ignore_env now profiles) in
  head (ordered r (sort_by (route_key r (Z.of_nat (length profiles)) offset) l)).
(** The profile taken and the cursor left behind; the lease counts on the profile. *)
Definition select_routed_inner (g : GeminiGateway) (r : route) (ignore_env : bool) (now : Z) : option GeminiProfile * Z :=
  if g_shutting_down g then (None, g_cursor g)
  else
    let profiles := routable_profiles g in
    if bool_decide (candidates r ignore_env now profiles = []) then (None, g_cursor g)
    else (leased <$> (c_profile <$> pick_routed r ignore_env now (g_cursor g) profiles), wrap_u64 (g_cursor g + 1)).
Definition select_routed (g : GeminiGateway) (r : route) (now : Z) : option GeminiProfile * Z := select_routed_inner g r false now.
Definition select_routed_ignoring_env_cooling (g : GeminiGateway) (r : route) (now : Z) : option GeminiProfile * Z :=
  select_routed_inner g r true now.
(** What the request path does: the second pass only when the first is empty. *)
Definition route_request (g : GeminiGateway) (r : route) (now1 now2 : Z) : option GeminiProfile * Z :=
  match select_routed g r now1 with
  | (Some p, cursor) => (Some p, cursor)
  | (None, cursor) => select_routed_ignoring_env_cooling (mkGateway (g_profiles g) (g_disabled g) (g_shutting_down g) cursor) r now2
  end.

(** *** Batch work and the operator's target *)
Inductive GeminiBatchSelectionStop : Type := Batch5hHeadroom | NoEligibleProfile.
Definition batch_open (model_id : string) (excluded : gset string) (now : Z) (p : GeminiProfile) : bool :=
  negb (bool_decide (p_id p ∈ excluded)) && (hard_cooling_until_for cfg p model_id now true <=? now) && authenticated (p_health p).
Definition select_batch (g : GeminiGateway) (model_id : string) (excluded : gset string) (now : Z)
    : (GeminiProfile + GeminiBatchSelectionStop) * Z :=
  if g_shutting_down g then (inr NoEligibleProfile, g_cursor g)
  else
    let profiles := routable_profiles g in
    let open := List.filter (fun ip => batch_open model_id excluded now ip.2) (imap pair profiles) in
    let roomy := List.filter (fun ip => batch_headroom cfg (p_summary ip.2) now) open in
    let len := Z.of_nat (length profiles) in
    match sort_by (fun ip => [p_inflight ip.2; (Z.of_nat ip.1 + len - g_cursor g mod len) mod len]) roomy with
    | [] => (inr (if existsb (fun ip => negb (batch_headroom cfg (p_summary ip.2) now)) open then Batch5hHeadroom else NoEligibleProfile), g_cursor g)
    | (_, p) :: _ => (inl (leased p), wrap_u64 (g_cursor g + 1))
    end.
Definition select_batch_profile (g : GeminiGateway) (model_id profile_id : string) (now : Z) : option GeminiProfile :=
  if g_shutting_down g then None
  else
    p ← List.find (fun p => bool_decide (p_id p = profile_id)) (routable_profiles g);
    if batch_open model_id ∅ now p && batch_headroom cfg (p_summary p) now then Some (leased p) else None.
Definition select_operator_target (g : GeminiGateway) (model_id target : string) (excluded : gset string) (generation : bool) (now : Z)
    : option GeminiProfile :=
  if g_shutting_down g || bool_decide (target ∈ excluded) then None
  else match List.filter (fun p => bool_decide (p_id p = target)) (routable_profiles g) with
  | [p] => if authenticated (p_health p) && (operator_cooling_until_for cfg p model_id now generation <=? now) then Some (leased p) else None
  | _ => None
  end.
End Select.

(** *** Reloading the roster *)
Record LoadedProfile := mkLoaded { l_id : string; l_kind : OAuthKind; l_source : string; l_fingerprint : string }.
Definition matches (p : GeminiProfile) (l : LoadedProfile) : bool :=
  bool_decide (p_source p = l_source l) && bool_decide (p_fingerprint p = l_fingerprint l).
Definition restored_health (models : gmap string Z) : health :=
  mkHealth 0 0 0 true ((fun until => mkModelHealth until 0 0 0 None) <$> models).
Definition admit_loaded (restored : CooldownState) (now : Z) (l : LoadedProfile) : GeminiProfile :=
  let h := restored_health (default ∅ (restored !! l_id l)) in
  mkProfile (l_id l) (l_kind l) (l_source l) (l_fingerprint l) 0
    (cool_until (mkHealth (cooling_until h) (quota_cooling_until h) (auth_failure_streak h) false (model_health h)) (now + 1))
    GeminiQuotaSnapshot_default GeminiQuotaSummarySnapshot_default 0.
Definition reload_profiles (current : list GeminiProfile) (loaded : list LoadedProfile) (disk : option CooldownState) (now : Z) : list GeminiProfile :=
  map (fun l => match List.find (fun p => matches p l) current with
                | Some p => p
                | None => admit_loaded (load_active_cooldowns disk now) now l
                end) loaded.

(** ** Selection *)
(** The axes that may deny a request: the profile's own quota cooling and, for a
    generation, the deadline of the model, which a quota answer for the model sets
    and so does every failure of the model ([mark_model_failure]), and the quota
    the provider reports. *)
Definition hard_denied (cfg : GeminiConfig) (r : route) (now : Z) (p : GeminiProfile) : Prop :=
  now < quota_cooling_until (p_health p)
  \/ (rt_generation r = true
      /\ (now < m_cooling_until (model_health_for (p_health p) (rt_model r))
          \/ now < quota_blocked_until cfg (p_kind p) (rt_model r) (p_quota p) now true)).
Definition usable (cfg : GeminiConfig) (r : route) (now : Z) (p : GeminiProfile) : Prop :=
  (p_id p ∉ rt_excluded r) /\ authenticated (p_health p) = true /\ ~ hard_denied cfg r now p.
Lemma eligible_spec cfg r ignore now p :
  0 <= now -> eligible cfg r ignore now p = true <-> usable cfg r now p /\ (ignore = true \/ cooling_until (p_health p) <= now).
Proof.
  intros Hn. unfold eligible, usable, hard_denied, hard_cooling_until_for, cooling_until_for, cooling_until_inner.
  rewrite !andb_true_iff, negb_true_iff, bool_decide_eq_false, Z.leb_le.
  destruct ignore, (rt_generation r); cbn [negb]; split.
  all: intros; repeat match goal with H : _ /\ _ |- _ => destruct H end; repeat split; try done; try (by left); try (right; lia); try lia.
  all: try (intros [?|[? [?|?]]]; try done; lia).
  all: try (match goal with H : _ \/ _ |- _ => destruct H end; try done).
  all: match goal with H : ~ (_ \/ _) |- _ => apply Decidable.not_or in H as [H1 H2] end; try lia.
Qed.
Section SelectSpec.
Context (digest : string -> Z * Z) (cfg : GeminiConfig).
Lemma candidates_spec r ignore now profiles c :
  c ∈ candidates digest cfg r ignore now profiles <->
  exists i p, profiles !! i = Some p /\ eligible cfg r ignore now p = true /\ c = candidate_of digest cfg r now i p.
Proof.
  unfold candidates. rewrite list_elem_of_fmap. split.
  - intros ([i p] & -> & [Hin He]%elem_of_lfilter). apply elem_of_lookup_imap in Hin as (j & q & [= -> ->] & Hq). by exists j, q.
  - intros (i & p & Hp & He & ->). exists (i, p). split; [done|]. apply elem_of_lfilter. split; [|done]. apply elem_of_lookup_imap. by exists i, p.
Qed.
Lemma candidate_profile r now i p : c_profile (candidate_of digest cfg r now i p) = p.
Proof. unfold candidate_of. by destruct (if rt_generation r then _ else _). Qed.
Lemma candidates_nil r ignore now profiles :
  candidates digest cfg r ignore now profiles = [] <-> forall p, p ∈ profiles -> eligible cfg r ignore now p = false.
Proof.
  split.
  - intros Hn p [i Hi]%list_elem_of_lookup. apply not_true_is_false. intros He. apply (not_elem_of_nil (candidate_of digest cfg r now i p)).
    rewrite <- Hn. apply candidates_spec. by exists i, p.
  - intros Hn. destruct (candidates _ _ _ _ _ _) as [|c l] eqn:E; [done|].
    assert (Hc : c ∈ candidates digest cfg r ignore now profiles) by (rewrite E; set_solver).
    apply candidates_spec in Hc as (i & p & Hi & He & _). rewrite Hn in He; [done|]. by eapply list_elem_of_lookup_2.
Qed.
Lemma retained_in l c : c ∈ retained l -> c ∈ l.
Proof. unfold retained. case_match; [|done]. by intros [? _]%elem_of_lfilter. Qed.
Lemma retained_nil l : retained l = [] -> l = [].
Proof.
  unfold retained. destruct (existsb c_protected l) eqn:E; [|done]. apply existsb_exists in E as (c & Hc%list_elem_of_In & Hp). intros Hn. exfalso.
  apply (not_elem_of_nil c). rewrite <- Hn. by apply elem_of_lfilter.
Qed.
Lemma retained_protected l c : c ∈ retained l -> existsb c_protected l = true -> c_protected c = true.
Proof. unfold retained. intros Hc E. rewrite E in Hc. by apply elem_of_lfilter in Hc as [_ ?]. Qed.
Lemma first_such_in f l : l <> [] -> exists c, first_such f l = Some c /\ c ∈ l.
Proof.
  intros Hl. unfold first_such. destruct (List.find f l) as [c|] eqn:E.
  - apply List.find_some in E as [Hc%list_elem_of_In _]. eauto.
  - destruct l as [|c l]; [done|]. exists c. split; [done|]. set_solver.
Qed.
Lemma root_order_head r l : l <> [] -> exists c, head (ordered r l) = Some c /\ c ∈ l
  /\ (existsb (is_preferred r) l = true -> head l = Some c).
Proof.
  intros Hl. unfold ordered, seeded. destruct (existsb (is_preferred r) l); cbn [negb andb].
  - destruct l as [|c l]; [done|]. exists c. cbn. split; [done|]. split; [set_solver|done].
  - destruct (rt_place_root r).
    + destruct (first_such_in (fun c => if (length (List.filter (is_warm r) l) <? CACHE_ROOT_MIN_WARM_PROFILES)%nat then negb (is_warm r c) else is_warm r c) l Hl)
        as (c & -> & Hc). exists c. split; [done|]. split; [done|discriminate].
    + destruct l as [|c l]; [done|]. exists c. cbn. split; [done|]. split; [set_solver|done].
Qed.
Lemma sort_by_nil {A} (key : A -> list Z) l : sort_by key l = [] -> l = [].
Proof. intros H. apply Permutation_nil. rewrite <- H. apply sort_by_spec. Qed.
(** The choice among the eligible: one of them, with room if any has, and the
    preferred one if it is among those left. *)
Lemma pick_routed_spec r ignore now offset profiles :
  candidates digest cfg r ignore now profiles <> [] ->
  exists c, pick_routed digest cfg r ignore now offset profiles = Some c /\ c ∈ candidates digest cfg r ignore now profiles
  /\ (existsb c_protected (candidates digest cfg r ignore now profiles) = true -> c_protected c = true)
  /\ (forall c', c' ∈ retained (candidates digest cfg r ignore now profiles) -> is_preferred r c' = true -> is_preferred r c = true).
Proof.
  intros Hne. unfold pick_routed. set (l := candidates _ _ _ _ _ _) in *. set (key := route_key r _ _).
  destruct (sort_by_spec key (retained l)) as [Hperm Hord].
  destruct (root_order_head r (sort_by key (retained l))) as (c & Hc & Hin & Hpref).
  { intros H%sort_by_nil%retained_nil. by apply Hne. }
  rewrite Hperm in Hin. exists c. split; [done|]. split; [by apply retained_in|]. split; [by intros; eapply retained_protected|].
  intros c' Hc' Hp. assert (Hin' : c' ∈ sort_by key (retained l)) by (by rewrite Hperm).
  assert (Hx : existsb (is_preferred r) (sort_by key (retained l)) = true) by (apply existsb_exists; exists c'; by rewrite <- list_elem_of_In).
  specialize (Hpref Hx). destruct (sort_by key (retained l)) as [|c0 rest]; [done|]. injection Hpref as ->.
  pose proof (Waits.ordered_head key c rest c' Hord Hin') as Hle. unfold key, route_key in Hle. rewrite Hp in Hle. cbn [lex_le] in Hle.
  destruct (is_preferred r c); [done|]. cbn in Hle. done.
Qed.
Lemma select_routed_spec g r ignore now :
  (fst (select_routed_inner digest cfg g r ignore now) = None <->
     g_shutting_down g = true \/ forall p, p ∈ routable_profiles g -> eligible cfg r ignore now p = false)
  /\ (forall q, fst (select_routed_inner digest cfg g r ignore now) = Some q ->
        exists p, p ∈ routable_profiles g /\ q = leased p /\ eligible cfg r ignore now p = true
        /\ (forall p', p' ∈ routable_profiles g -> eligible cfg r ignore now p' = true -> rt_preferred r = Some (p_id p') ->
              c_protected (candidate_of digest cfg r now 0 p') = true -> p_id p = p_id p')).
Proof.
  unfold select_routed_inner. destruct (g_shutting_down g); [split; [cbn; naive_solver|done]|].
  case_bool_decide as E; cbn [fst].
  - split; [|done]. pose proof (proj1 (candidates_nil _ _ _ _) E). split; [auto|done].
  - destruct (pick_routed_spec r ignore now (g_cursor g) (routable_profiles g) E) as (c & -> & Hc & Hprot & Hpref). cbn. split.
    + split; [done|]. intros [?|Hall]; [done|]. by destruct E; apply candidates_nil.
    + intros q [= <-]. pose proof Hc as (i & p & Hi & He & Ec)%candidates_spec. exists p. subst c. rewrite candidate_profile.
      split; [by eapply list_elem_of_lookup_2|]. split; [done|]. split; [done|].
      intros p' [j Hj]%list_elem_of_lookup He' Hr Hp'.
      assert (Hc' : candidate_of digest cfg r now j p' ∈ candidates digest cfg r ignore now (routable_profiles g)) by (apply candidates_spec; by exists j, p').
      assert (Hpj : c_protected (candidate_of digest cfg r now j p') = true).
      { rewrite <- Hp'. unfold candidate_of. by destruct (if rt_generation r then _ else _). }
      assert (Hret : candidate_of digest cfg r now j p' ∈ retained (candidates digest cfg r ignore now (routable_profiles g))).
      { unfold retained. case_match; [by apply elem_of_lfilter|done]. }
      specialize (Hpref _ Hret). unfold is_preferred in Hpref. rewrite !candidate_profile in Hpref.
      rewrite (bool_decide_eq_true_2 (rt_preferred r = Some (p_id p'))) in Hpref by done. specialize (Hpref eq_refl).
      apply bool_decide_eq_true in Hpref. congruence.
Qed.
End SelectSpec.

(** A failed model denies its profile for that model's generations. *)
Lemma failed_model_denies cfg r now p class :
  rt_generation r = true -> 1 <= model_failure_max_cool_secs cfg -> now < i64_max ->
  hard_denied cfg r now (with_health p (mark_model_failure cfg (p_health p) (rt_model r) class now)).
Proof.
  intros Hg Hc Hn. right. split; [done|]. left. cbn. unfold model_health_for at 1, mark_model_failure, set_model. cbn.
  rewrite lookup_insert_eq. cbn. unfold backoff, clamp.
  match goal with |- context [Z.max 1 ?x] => generalize (Z.le_max_l 1 x); generalize (Z.max 1 x) end.
  intros d Hd. unfold sat_i64. width_lia.
Qed.
(** Cooling the profile does not. *)
Lemma cooled_profile_denies cfg r now p until :
  hard_denied cfg r now (with_health p (cool_until (p_health p) until)) <-> hard_denied cfg r now p.
Proof. done. Qed.

(** C30: What leaves a request without a profile.  The two passes of the request
    path find nothing exactly if the pool shuts down or every routable profile is
    excluded, has lost its grant, or is denied by a hard axis: its quota cooling,
    or, for a generation, the deadline of the model or the quota the provider
    reports for it.  Cooling the whole profile (after a transport fault or a
    refused credential) denies nothing: such a profile is always taken before
    nothing is.  A failure of the model (a timeout, a malformed answer, a 5xx) does
    deny the profile for generations of that model until its deadline, although no
    quota was reported.  What the passes find can serve; as long as one such
    profile does not cool, the one taken does not either; a preferred profile that
    can serve and is above its reserve is the one taken, however many leases it
    holds. *)
Theorem gemini_routing_exact (digest : string -> Z * Z) (cfg : GeminiConfig) (g : GeminiGateway) (r : route) (now : Z) :
  0 <= now ->
  let cool p := cooling_until (p_health p) <= now in
  (fst (route_request digest cfg g r now now) = None <->
     g_shutting_down g = true \/ forall p, p ∈ routable_profiles g -> ~ usable cfg r now p)
  /\ (forall q, fst (route_request digest cfg g r now now) = Some q ->
        exists p, p ∈ routable_profiles g /\ q = leased p /\ usable cfg r now p
        /\ ((exists p', p' ∈ routable_profiles g /\ usable cfg r now p' /\ cool p') -> cool p)
        /\ (forall p', p' ∈ routable_profiles g -> usable cfg r now p' -> cool p' -> rt_preferred r = Some (p_id p') ->
              c_protected (candidate_of digest cfg r now 0 p') = true -> p_id p = p_id p'))
  /\ (forall p until, hard_denied cfg r now (with_health p (cool_until (p_health p) until)) <-> hard_denied cfg r now p)
  /\ (forall p class, rt_generation r = true -> 1 <= model_failure_max_cool_secs cfg -> now < i64_max ->
        hard_denied cfg r now (with_health p (mark_model_failure cfg (p_health p) (rt_model r) class now))).
Proof.
  intros Hnow cool. rewrite (assoc and). split; [|split; [intros; apply cooled_profile_denies|intros; by apply failed_model_denies]].
  unfold route_request, select_routed, select_routed_ignoring_env_cooling.
  assert (He : forall ignore p, eligible cfg r ignore now p = true <-> usable cfg r now p /\ (ignore = true \/ cool p)) by (intros; by apply eligible_spec).
  assert (Hf : forall ignore p, eligible cfg r ignore now p = false <-> ~ (usable cfg r now p /\ (ignore = true \/ cool p)))
    by (intros; rewrite <- He; by rewrite not_true_iff_false).
  destruct (select_routed_spec digest cfg g r false now) as [N1 S1].
  destruct (select_routed_inner digest cfg g r false now) as [[q|] cursor]; cbn [fst] in *.
  - destruct (S1 q eq_refl) as (p & Hp & -> & [Hu [?|Hc]]%He & Hpref); [done|]. split.
    + split; [done|]. intros Hn. assert (Some (leased p) = None); [|done]. apply N1. destruct Hn as [?|Hn]; [by left|right].
      intros p' Hp'. apply Hf. intros [? _]. by eapply Hn.
    + intros q' [= <-]. exists p. split; [done|]. split; [done|]. split; [done|]. split; [done|].
      intros p' Hp' Hu' Hc' Hr Hprot. apply Hpref; [done| |done..]. apply He. auto.
  - set (g' := mkGateway _ _ _ _). destruct (select_routed_spec digest cfg g' r true now) as [N2 S2].
    change (routable_profiles g') with (routable_profiles g) in *. change (g_shutting_down g') with (g_shutting_down g) in *.
    destruct (proj1 N1 eq_refl) as [Hs|Hnone].
    + split; [split; [auto|intros _; apply N2; by left]|]. intros q Hq. rewrite (proj2 N2) in Hq by (by left). done.
    + split.
      * rewrite N2. split; (intros [?|Hn]; [by left|right]); intros p Hp; [intros Hu; apply (proj1 (Hf true p)); auto|apply Hf; intros [Hu' _]; by eapply Hn].
      * intros q Hq. destruct (S2 q Hq) as (p & Hp & -> & [Hu _]%He & _). exists p. split; [done|]. split; [done|]. split; [done|].
        assert (Hno : forall p', p' ∈ routable_profiles g -> usable cfg r now p' -> ~ cool p').
        { intros p' Hp' Hu' Hc'. apply (proj1 (Hf false p') (Hnone p' Hp')). auto. }
        split; [intros (p' & Hp' & Hu' & Hc'); by destruct (Hno p')|]. intros p' Hp' Hu' Hc'. by destruct (Hno p').
Qed.

Lemma refresh_locked_spec c now a t c' :
  refresh_locked c now a = (t, c') ->
  (forall e, t = Err e -> c' = c)
  /\ (t = Err InvalidGrant -> a = RefreshRefused 400 (Some "invalid_grant") \/ exists tok e rot, a = Refreshed tok e rot /\ token_ok tok e = false).
Proof.
  destruct a as [|status err| |tok e rot]; cbn; try (intros [= <- <-]; split; [done|discriminate]).
  - intros [= <- <-]. split; [done|]. unfold classify_refresh_failure. destruct (Z.eqb_spec status 400) as [->|]; [|destruct (one_of _ _); discriminate].
    case_bool_decide as E; [subst; by left|]. destruct (one_of _ _); discriminate.
  - destruct (token_ok tok e) eqn:E; intros [= <- <-]; (split; [done|]); [discriminate|]. intros _. right. by exists tok, e, rot.
Qed.
Lemma acquire_token_spec r c now a t sent c' :
  acquire_token r c now a = (t, sent, c') ->
  (r = AskWithPolicy ExactGenerationCachedOnly -> sent = false)
  /\ (sent = true -> token_fresh c now = false \/ r = AskToken true \/ r = AskAfterRejection (access_token c))
  /\ (forall e, t = Err e -> c' = c)
  /\ (t = Err InvalidGrant -> a = RefreshRefused 400 (Some "invalid_grant") \/ exists tok e rot, a = Refreshed tok e rot /\ token_ok tok e = false).
Proof.
  unfold acquire_token. destruct (refresh_locked c now a) as [t' c2] eqn:E. pose proof (refresh_locked_spec _ _ _ _ _ E) as [R1 R2].
  destruct r as [[]|[]|rej]; cbn [negb andb]; destruct (token_fresh c now) eqn:Ef; try (case_bool_decide; subst); cbn [negb andb];
    intros [= <- <- <-]; repeat split; try done; auto.
Qed.

(** C31: One refresh serves a burst.  After a request that needed a new token obtained
    one, every request that comes while the token is valid, be it for an expired
    token or for a rejected one other than the new token, is served the new token,
    and no further refresh is sent.  Work bound to a cached token never sends one;
    a token that is fresh is not replaced unless it was the rejected one or a
    replacement is forced; a refresh that fails leaves the credential as it was;
    and the grant counts as lost only if Google said so or answered with a token
    that cannot be one. *)
Theorem gemini_refresh_single_flight (c : GeminiCredential) (r0 : token_request) (t0 expires_in : Z) (token : string)
    (rotated : option string) (rs : list (token_request * Z * refresh_answer)) :
  snd (fst (acquire_token r0 c t0 (Refreshed token expires_in rotated))) = true ->
  token_ok token expires_in = true -> i64_min <= t0 <= i64_max - 86400 ->
  (forall r now a, (r, now, a) ∈ rs -> r <> AskToken true /\ r <> AskAfterRejection token /\ t0 <= now < t0 + expires_in - 180) ->
  (let '(results, sends, c') := serve_tokens c ((r0, t0, Refreshed token expires_in rotated) :: rs) in
   sends = 1 /\ results = map (fun _ => Ok token) (r0 :: map (fun x => fst (fst x)) rs) /\ access_token c' = token)
  /\ forall r c now a t sent c', acquire_token r c now a = (t, sent, c') ->
       (r = AskWithPolicy ExactGenerationCachedOnly -> sent = false)
       /\ (sent = true -> token_fresh c now = false \/ r = AskToken true \/ r = AskAfterRejection (access_token c))
       /\ (forall e, t = Err e -> c' = c)
       /\ (t = Err InvalidGrant -> a = RefreshRefused 400 (Some "invalid_grant")
             \/ exists tok e rot, a = Refreshed tok e rot /\ token_ok tok e = false).
Proof.
  intros Hsent Hok Ht Hrs. split; [|intros *; apply acquire_token_spec]. set (c1 := snd (refresh_locked c t0 (Refreshed token expires_in rotated))).
  assert (Hc1 : access_token c1 = token /\ expires_at c1 = t0 + expires_in - 60).
  { unfold c1. cbn. rewrite Hok. cbn. split; [done|]. unfold token_ok in Hok. rewrite !andb_true_iff in Hok.
    destruct Hok as [_ [?%Z.leb_le ?%Z.leb_le]%andb_true_iff]. width_lia. }
  assert (Hne : token <> EmptyString) by (intros ->; by rewrite (eq_refl : token_ok "" expires_in = false) in Hok).
  assert (H0 : acquire_token r0 c t0 (Refreshed token expires_in rotated) = (Ok token, true, c1)).
  { unfold acquire_token, c1 in *. cbn [refresh_locked] in *. rewrite Hok in *. destruct r0 as [[]|[]|rej]; cbn [negb andb] in *; repeat case_match; done. }
  assert (Hserve : forall rs, (forall r now a, (r, now, a) ∈ rs -> r <> AskToken true /\ r <> AskAfterRejection token /\ t0 <= now < t0 + expires_in - 180) ->
    serve_tokens c1 rs = (map (fun _ => Ok token) (map (fun x => fst (fst x)) rs), 0, c1)).
  { clear rs Hrs. intros rs. induction rs as [|[[r now] a] rs IH]; intros Hrs; [done|]. cbn [serve_tokens map fst].
    destruct (Hrs r now a) as (H1 & H2 & H3); [set_solver|].
    assert (Hf : token_fresh c1 now = true).
    { unfold token_fresh. destruct Hc1 as [-> ->]. rewrite bool_decide_eq_false_2 by done. cbn. rewrite andb_true_r. apply Z.ltb_lt.
      unfold ACCESS_TOKEN_SKEW_SECS. width_lia. }
    assert (Ha : acquire_token r c1 now a = (Ok token, false, c1)).
    { unfold acquire_token. rewrite Hf, (proj1 Hc1). destruct r as [[]|[]|rej]; try done.
      rewrite bool_decide_eq_false_2 by congruence. done. }
    rewrite Ha, IH; [done|]. intros r' n' a' Hin. apply (Hrs r' n' a'). set_solver. }
  cbn [serve_tokens]. rewrite H0, (Hserve rs Hrs). cbn. destruct Hc1 as [-> _]. done.
Qed.

(** ** Reload and restart *)
(** A reload keeps the profiles whose sealed credential did not change, and a new
    one serves nobody before a probe. *)
Lemma reload_keeps current loaded disk now i l :
  loaded !! i = Some l ->
  match List.find (fun p => matches p l) current with
  | Some p => reload_profiles current loaded disk now !! i = Some p
  | None => exists p, reload_profiles current loaded disk now !! i = Some p /\ p_id p = l_id l
              /\ authenticated (p_health p) = false /\ p_inflight p = 0
  end.
Proof.
  intros Hl. unfold reload_profiles. assert (Hm : forall f : LoadedProfile -> GeminiProfile, map f loaded !! i = Some (f l)) by (intros f; by rewrite list_lookup_fmap, Hl).
  rewrite Hm. destruct (List.find _ current); [done|]. by eexists.
Qed.
(** A deadline written before a restart is the one restored after it, for as long
    as it lies ahead. *)
Lemma cooldown_roundtrip h disk id model_id until now h' disk' :
  cool_model_until h disk true id model_id until = (h', disk') ->
  let deadline := m_cooling_until (model_health_for h' model_id) in
  now < deadline -> load_active_cooldowns disk' now !! id ≫= (.!! model_id) = Some deadline.
Proof.
  intros [= <- <-]. unfold model_health_for, set_model. cbn [model_health]. rewrite lookup_insert_eq. cbn [default m_cooling_until].
  set (deadline := Z.max _ until). cbn [persist_model_cooling]. intros Hlt. unfold load_active_cooldowns, persist_model_cooling. cbn [from_option Datatypes.id].
  set (models := <[model_id := deadline]> (default ∅ (default ∅ disk !! id))).
  assert (Hm : filter (fun kv : string * Z => now < kv.2) models !! model_id = Some deadline).
  { apply map_lookup_filter_Some. split; [apply lookup_insert_eq|done]. }
  rewrite (proj2 (map_lookup_filter_Some _ _ id (filter (fun kv : string * Z => now < kv.2) models))); [done|]. split.
  - rewrite lookup_fmap, lookup_insert_eq. done.
  - cbn. intros E. by rewrite E in Hm.
Qed.

(** ** Runs *)
Definition demo_config : GeminiConfig :=
  mkConfig 2 3600 15 10 5 300 60 2 120 (f64_div (f64_of 10) f64_hundred) f64_zero 20 60.
Definition demo_row (fraction : f64) : GeminiQuotaBucketStatus := mkBucket "gemini-3-pro" None (Some fraction) None None.
Definition demo_profile (id : string) (env : Z) (rows : list GeminiQuotaBucketStatus) : GeminiProfile :=
  mkProfile id Antigravity id "f" 0 (mkHealth env 0 0 true ∅) (mkQuota 1000 rows) GeminiQuotaSummarySnapshot_default 1000.
Definition demo_gateway (profiles : list GeminiProfile) : GeminiGateway := mkGateway profiles ∅ false 0.
Definition demo_route (preferred : option string) : route := mkRoute "gemini-3-pro" ∅ preferred ∅ false true.
Definition half : f64 := f64_div (f64_of 1) (f64_of 2).
Definition twentieth : f64 := f64_div (f64_of 5) f64_hundred.
Definition demo_digest (_ : string) : Z * Z := (0, 128).
Definition routed_id (g : GeminiGateway) (r : route) : option string := p_id <$> fst (route_request demo_digest demo_config g r 1010 1010).
(** Half a window is above the reserve of a tenth, a twentieth is not: the fuller
    profile is taken although it is second in turn. *)
Example reserve_protects :
  routed_id (demo_gateway [demo_profile "a" 0 [demo_row twentieth]; demo_profile "b" 0 [demo_row half]]) (demo_route None) = Some "b".
Proof. vm_compute. reflexivity. Qed.
(** Every profile cools: the first pass is empty, the second serves. *)
Example cooling_never_empties :
  routed_id (demo_gateway [demo_profile "a" 2000 [demo_row half]]) (demo_route None) = Some "a".
Proof. vm_compute. reflexivity. Qed.
(** An explicit zero is a wall. *)
Example zero_is_a_wall :
  routed_id (demo_gateway [demo_profile "a" 0 [demo_row f64_zero]]) (demo_route None) = None.
Proof. vm_compute. reflexivity. Qed.
(** The preference does not lift the reserve: below it, another profile is taken. *)
Example reserve_before_preference :
  routed_id (demo_gateway [demo_profile "a" 0 [demo_row twentieth]; demo_profile "b" 0 [demo_row half]]) (demo_route (Some "a")) = Some "b".
Proof. vm_compute. reflexivity. Qed.
(** A healthy answer with an implausible lifetime counts as a revoked grant. *)
Example short_lived_token_kills_grant :
  probe (mkCredential "" 0 "refresh") (mkProbe 1000 (Refreshed "ya29.token" 30 None) (Some 200) 1000 RefreshLost None)
  = (ProbeInvalid, mkCredential "" 0 "refresh").
Proof. vm_compute. reflexivity. Qed.
(** A success clears the deadline in memory but not in the file, so a profile that
    is rebuilt cools again. *)
Example success_leaves_deadline :
  let '(h, disk) := cool_model_until (mkHealth 0 0 0 true ∅) None true "a" "m" 5000 in
  m_cooling_until (model_health_for (mark_model_success h "m" 1100) "m") = 0
  /\ m_cooling_until (model_health_for (p_health (admit_loaded (load_active_cooldowns disk 1200) 1200 (mkLoaded "a" Antigravity "s" "f2"))) "m") = 5000.
Proof. vm_compute. done. Qed.
Definition demo_burst : list (token_request * Z * refresh_answer) :=
  [(AskWithPolicy Normal, 1001, RefreshLost); (AskAfterRejection "old-token", 1002, RefreshLost); (AskWithPolicy ExactGenerationCachedOnly, 1003, RefreshLost)].

(** One malformed answer on the only profile and the next generation of the model
    has none, with half of the reported quota left. *)
Example failed_model_leaves_nobody :
  let p := demo_profile "a" 0 [demo_row half] in
  let failed := with_health p (mark_model_failure demo_config (p_health p) (rt_model (demo_route None)) "malformed" 1010) in
  is_Some (fst (route_request demo_digest demo_config (demo_gateway [p]) (demo_route None) 1010 1010))
  /\ fst (route_request demo_digest demo_config (demo_gateway [failed]) (demo_route None) 1010 1010) = None.
Proof. split; [eexists|]; vm_compute; reflexivity. Qed.
Lemma gemini_routing_exact_witness :
  exists p, usable demo_config (demo_route None) 1010 p
    /\ fst (route_request demo_digest demo_config (demo_gateway [demo_profile "a" 2000 [demo_row half]]) (demo_route None) 1010 1010) = Some (leased p).
Proof.
  destruct (gemini_routing_exact demo_digest demo_config (demo_gateway [demo_profile "a" 2000 [demo_row half]]) (demo_route None) 1010) as (_ & H & _).
  - lia.
  - destruct (fst (route_request demo_digest demo_config (demo_gateway [demo_profile "a" 2000 [demo_row half]]) (demo_route None) 1010 1010)) as [q|] eqn:E;
      [|vm_compute in E; discriminate]. destruct (H q eq_refl) as (p & _ & -> & Hu & _). exists p. split; [exact Hu|reflexivity].
Defined.
Lemma gemini_refresh_single_flight_witness :
  let '(results, sends, c') := serve_tokens (mkCredential "old-token" 900 "r") ((AskToken false, 1000, Refreshed "new-token" 3600 None) :: demo_burst) in
  sends = 1 /\ results = [Ok "new-token"; Ok "new-token"; Ok "new-token"; Ok "new-token"] /\ access_token c' = "new-token".
Proof.
  refine (proj1 (gemini_refresh_single_flight (mkCredential "old-token" 900 "r") (AskToken false) 1000 3600 "new-token" None demo_burst _ _ _ _)).
  - vm_compute. reflexivity.
  - vm_compute. reflexivity.
  - vm_compute. split; discriminate.
  - intros r now a Hin. repeat (apply elem_of_cons in Hin as [[= -> -> ->]|Hin]; [split; [discriminate|]; split; [discriminate|lia]|]). by apply elem_of_nil in Hin.
Defined.
