(* ===== verification/GeminiMoney.v ===== *)
(** * The money of a Gemini turn ([crates/forward/src/gemini/billing.rs])

    The reservation that admission opens and the ways a turn closes it: a terminal
    settlement that charges the measured usage at the pinned tariff, a failure, and
    the drop of an admission that was never settled.  What a turn hands to the
    billing actor is a value ([settlement]); the actor itself is the modelled
    ledger.  Clocks are arguments. *)
From S2P Require Import Prelude Text Waits Tariffs MeterUsage TurnMeter GeminiTariffs TariffPayload TariffBook LedgerDb GlmSettle.
#[local] Open Scope Z_scope.

(** ** Facts *)
Inductive ProviderTerminalClass : Type :=
| ClassSuccess | ClassClientError | ClassQuota | ClassAuth | ClassTimeout | ClassTransport | ClassUpstreamError | ClassProtocolError | ClassUnknown.
Inductive DeliveryState : Type := NotStarted | Started | Completed | Interrupted | DeliveryUnknown.
#[global] Instance ProviderTerminalClass_eq_dec : EqDecision ProviderTerminalClass.
Proof. solve_decision. Defined.
#[global] Instance DeliveryState_eq_dec : EqDecision DeliveryState.
Proof. solve_decision. Defined.
Record RequestFactTerminalEvidence := mkTerminalEvidence {
  te_terminal_at : Z; te_http_status : option Z; te_class : ProviderTerminalClass; te_delivery : DeliveryState; te_disconnect : option bool;
  te_first_byte_at : option Z; te_attempts : option Z; te_tool_calls : option bool }.
(** The count of physical sends; its greatest value means that it overflowed. *)
Definition ACTUAL_SEND_OVERFLOW : Z := u64_max.
Definition record_now (count : Z) : Z := if count =? ACTUAL_SEND_OVERFLOW then count else Z.min u64_max (count + 1).
Definition observed_count (count : Z) : option Z := if count =? ACTUAL_SEND_OVERFLOW then None else Some count.
(** [fc_clock] is the lifecycle clock: zero before the first byte, the time of the
    byte, or a negative seal. *)
Record GeminiBillableFactContext := mkFactContext { fc_admitted_at : Z; fc_clock : Z; fc_sends : Z; fc_disconnect : bool }.
Definition first_public_byte (clock admitted_at terminal_at : Z) : option Z :=
  if (0 <? clock) && negb (admitted_at <? 0) && negb (terminal_at <? admitted_at) && between admitted_at terminal_at clock then Some clock else None.
Definition terminal_evidence (c : GeminiBillableFactContext) (now : Z) (status : option Z) (class : ProviderTerminalClass) (delivery : DeliveryState)
    (disconnect : option bool) (exhaustive : bool) (tool_calls : option bool) : RequestFactTerminalEvidence :=
  let terminal_at := Z.max now (fc_admitted_at c) in
  mkTerminalEvidence terminal_at status class delivery
    (match disconnect with
     | Some true => Some true
     | _ => if fc_disconnect c then Some true else None
     end)
    (first_public_byte (fc_clock c) (fc_admitted_at c) terminal_at)
    (if exhaustive then observed_count (fc_sends c) >>? (fun n => if n <=? i32_max then Some n else None) else None) tool_calls.

(** ** Admission *)
Record GeminiModel := mkModel { gm_id : string; gm_prices : Gemini.GeminiPrices }.
Inductive AdmissionError : Type := Unauthorized | Unavailable | LowBalance.
Record Reservation := mkReservation {
  rs_mult_bp : Z; rs_hold : Z; rs_priced_ts : Z; rs_pin : option PinnedTariff; rs_armed : bool; rs_fact : option GeminiBillableFactContext }.
Record GeminiAdmission := mkAdmission { ad_reservation : option Reservation; ad_request_id : string; ad_exact_target : bool }.
Definition HOLD_NANO : Z := 0.
Definition compiled_prices (model : GeminiModel) (priced_ts : Z) : Gemini.GeminiPrices :=
  default (gm_prices model) (Gemini.gemini_prices_at (gm_id model) priced_ts).
Definition served_family (model : GeminiModel) (priced_ts : Z) : option string := fst <$> Gemini.gemini_matched_tariff_at (gm_id model) priced_ts.
Definition resolved_base (book : TariffBookSnapshot) (model : GeminiModel) (priced_ts : Z) : ReserveBase Gemini.GeminiPrices :=
  match served_family model priced_ts with
  | Some family => reserve_base book family priced_ts (compiled_prices model priced_ts) as_gemini
  | None => mkReserve (compiled_prices model priced_ts) None
  end.
(** What the ledger says to the reservation: opened, refused, or an error. *)
Inductive ledger_answer : Type := LedgerOpened | LedgerRefused | LedgerFailed.
Definition reserve_gemini_legacy_at (book : TariffBookSnapshot) (model : GeminiModel) (requested_output_tokens mult_bp priced_ts : Z)
    (fact : option GeminiBillableFactContext) (answer : ledger_answer) : result AdmissionError (Z * Reservation) :=
  match answer with
  | LedgerOpened =>
      Ok (Z.max 1 requested_output_tokens,
          mkReservation mult_bp HOLD_NANO priced_ts (reserve_pin (resolved_base book model priced_ts)) true fact)
  | LedgerRefused => Err LowBalance
  | LedgerFailed => Err Unavailable
  end.
Definition reserve_gemini_metered (book : TariffBookSnapshot) (model : GeminiModel) (requested_output_tokens mult_bp available_nano priced_ts : Z)
    (fact : option GeminiBillableFactContext) (answer : ledger_answer) : result AdmissionError (Z * Reservation) :=
  if (0 <? mult_bp) && (available_nano <=? 0) then Err LowBalance
  else reserve_gemini_legacy_at book model requested_output_tokens mult_bp priced_ts fact answer.
(** [metered]: the multiplier and the balance of a metered key where the billing
    authority runs; [postgres]: only that lane admits request facts. *)
Definition reserve (book : TariffBookSnapshot) (model : GeminiModel) (requested_output_tokens : Z) (metered : option (Z * Z)) (postgres : bool)
    (request_id : string) (exact_target : bool) (priced_ts : Z) (fact : option GeminiBillableFactContext) (answer : ledger_answer)
    : result AdmissionError (GeminiAdmission * Z) :=
  match metered with
  | Some (mult_bp, available) =>
      match reserve_gemini_metered book model requested_output_tokens mult_bp available priced_ts (if postgres then fact else None) answer with
      | Ok (output, r) => Ok (mkAdmission (Some r) request_id exact_target, output)
      | Err e => Err e
      end
  | None => Ok (mkAdmission None request_id exact_target, Z.max 1 requested_output_tokens)
  end.
Definition without_reserve (request_id : string) (exact_target : bool) : GeminiAdmission := mkAdmission None request_id exact_target.
Definition requires_usage (a : GeminiAdmission) : bool := bool_decide (is_Some (ad_reservation a)).
Definition observed_failure_delivery (a : GeminiAdmission) : DeliveryState :=
  match ad_reservation a >>? rs_fact >>? (fun c => observed_count (fc_sends c)) with
  | Some n => if n =? 0 then NotStarted else Interrupted
  | None => DeliveryUnknown
  end.
(** [marker]: what the ledger answers; [None] is an error. *)
Definition mark_delivering (a : GeminiAdmission) (marker : option bool) : bool :=
  match ad_reservation a with None => true | Some _ => bool_decide (marker = Some true) end.

(** ** Charges *)
Definition as_i64_sat (z : Z) : Z := Z.min i64_max z.
Definition clamp_i64 (z : Z) : Z := clamp 0 i64_max z.
Definition is_long (u : Gemini.GeminiUsage) (p : Gemini.GeminiPrices) : bool := Gemini.long_context_threshold p <? Gemini.prompt_tokens u.
Definition tier (u : Gemini.GeminiUsage) (p : Gemini.GeminiPrices) : Z * Z * Z * Z * Z :=
  if is_long u p
  then (Gemini.long_input p, Gemini.long_audio_input p, Gemini.long_cached_input p, Gemini.long_cached_audio_input p, Gemini.long_output p)
  else (Gemini.input p, Gemini.audio_input p, Gemini.cached_input p, Gemini.cached_audio_input p, Gemini.output p).
Definition settled_charge_with_prices (model : GeminiModel) (u : Gemini.GeminiUsage) (mult_bp now : Z) (p : Gemini.GeminiPrices)
    : Z * option UsageEventInput :=
  let real := Gemini.cost_nanodollars u p in
  let charge := clamp_i64 (apply_multiplier real mult_bp) in
  if real <=? 0 then (charge, None)
  else
    let '(inp, audio, cached, cached_audio, out) := tier u p in
    let input_nano := sat_i128 (sat_i128 (Gemini.input_tokens u * inp) + sat_i128 (Gemini.audio_input_tokens u * audio)) in
    let cache_nano := sat_i128 (sat_i128 (Gemini.cached_input_tokens u * cached) + sat_i128 (Gemini.cached_audio_input_tokens u * cached_audio)) in
    let output_nano := sat_i128 (sat_i128 (Gemini.output_tokens u * out) + sat_i128 (Gemini.image_output_tokens u * Gemini.image_output p)) in
    let '(requests, search_nano) :=
      match Gemini.search p with
      | Gemini.PerQuery nano => (Gemini.search_queries u, sat_i128 (Gemini.search_queries u * nano))
      | Gemini.PerGroundedPrompt nano => (Gemini.grounded_search_prompts u, sat_i128 (Gemini.grounded_search_prompts u * nano))
      end in
    (charge, Some (mkUsage (gm_id model) "google"
       (as_i64_sat (sat_u64 (Gemini.input_tokens u + Gemini.audio_input_tokens u)))
       (as_i64_sat (sat_u64 (Gemini.output_tokens u + Gemini.image_output_tokens u)))
       (as_i64_sat (sat_u64 (Gemini.cached_input_tokens u + Gemini.cached_audio_input_tokens u)))
       0 0 (as_i64_sat requests) (clamp_i64 real) (clamp_i64 real) "standard" ""
       (clamp_i64 input_nano) (clamp_i64 output_nano) (clamp_i64 cache_nano) 0 0 (clamp_i64 search_nano) now)).
Definition nonzero (u : option Gemini.GeminiUsage) : option Gemini.GeminiUsage := x ← u; if Gemini.is_zero x then None else Some x.
Definition settled_charge_or_hold_with_prices (charge_hold_on_unknown_usage : bool) (model : GeminiModel) (u : option Gemini.GeminiUsage)
    (hold mult_bp now : Z) (p : Gemini.GeminiPrices) : Z * option UsageEventInput :=
  match nonzero u with
  | Some u => settled_charge_with_prices model u mult_bp now p
  | None => (unknown_usage_charge charge_hold_on_unknown_usage hold, None)
  end.

(** ** The event that calibrates capacity *)
Definition TARIFF_SCHEDULE_ID : string := "google/gemini-developer-api/2026-08-14".
Record ProviderTurnCalibrationEvent := mkTurnEvent {
  ev_request_id : string; ev_subject_id : string; ev_model_id : string; ev_schedule : string; ev_priced_ts : Z; ev_completed_at : Z;
  ev_input_tokens : Z; ev_audio_input_tokens : Z; ev_cache_read_tokens : Z; ev_cached_audio_input_tokens : Z; ev_output_tokens : Z;
  ev_thinking_output_tokens : Z; ev_image_output_tokens : Z; ev_tool_prompt_tokens : Z; ev_search_queries : Z; ev_grounded_search_prompts : Z;
  ev_api_input : Z; ev_api_audio_input : Z; ev_api_cache_read : Z; ev_api_cached_audio_input : Z; ev_api_output : Z; ev_api_image_output : Z;
  ev_api_search : Z; ev_api_total : Z }.
Definition leg_cost (tokens rate : Z) : option Z := checked_i128 (tokens * rate) >>? checked_i64.
Fixpoint try_sum (acc : Z) (l : list Z) : option Z :=
  match l with [] => Some acc | x :: l => acc' ← checked_i64 (acc + x); try_sum acc' l end.
Definition gemini_calibration_event_with_prices (request_id profile_id : string) (model : GeminiModel) (u : Gemini.GeminiUsage)
    (priced_ts completed_at : Z) (p : Gemini.GeminiPrices) (override_schedule_id : option string) : option ProviderTurnCalibrationEvent :=
  if bool_decide (request_id = EmptyString) || bool_decide (profile_id = EmptyString) || Gemini.is_zero u then None
  else
    let '(inp, audio, cached, cached_audio, out) := tier u p in
    api_input ← leg_cost (Gemini.input_tokens u) inp;
    api_audio ← leg_cost (Gemini.audio_input_tokens u) audio;
    api_cache ← leg_cost (Gemini.cached_input_tokens u) cached;
    api_cached_audio ← leg_cost (Gemini.cached_audio_input_tokens u) cached_audio;
    api_output ← leg_cost (Gemini.output_tokens u) out;
    api_image ← leg_cost (Gemini.image_output_tokens u) (Gemini.image_output p);
    api_search ← (match Gemini.search p with
                  | Gemini.PerQuery nano => leg_cost (Gemini.search_queries u) nano
                  | Gemini.PerGroundedPrompt nano => leg_cost (Gemini.grounded_search_prompts u) nano
                  end);
    total ← try_sum 0 [api_input; api_audio; api_cache; api_cached_audio; api_output; api_image; api_search];
    if total <=? 0 then None
    else
      input_tokens ← checked_i64 (Gemini.input_tokens u);
      audio_tokens ← checked_i64 (Gemini.audio_input_tokens u);
      cache_read ← (if Gemini.cached_input_tokens u + Gemini.cached_audio_input_tokens u <=? u64_max
                    then checked_i64 (Gemini.cached_input_tokens u + Gemini.cached_audio_input_tokens u) else None);
      cached_audio_tokens ← checked_i64 (Gemini.cached_audio_input_tokens u);
      output_tokens ← checked_i64 (Gemini.output_tokens u);
      thinking ← checked_i64 (Gemini.thinking_output_tokens u);
      image ← checked_i64 (Gemini.image_output_tokens u);
      tool_prompt ← checked_i64 (Gemini.tool_prompt_tokens u);
      queries ← checked_i64 (Gemini.search_queries u);
      grounded ← checked_i64 (Gemini.grounded_search_prompts u);
      Some (mkTurnEvent request_id profile_id (gm_id model) (default TARIFF_SCHEDULE_ID override_schedule_id) priced_ts completed_at
        input_tokens audio_tokens cache_read cached_audio_tokens output_tokens thinking image tool_prompt queries grounded
        api_input api_audio api_cache api_cached_audio api_output api_image api_search total).

(** ** Settlement *)
(** A call of the billing actor: the hold it closes, the charge, the usage event and
    the evidence of a fact that was admitted. *)
Record settlement := mkSettlement {
  st_hold : Z; st_actual : Z; st_usage : option UsageEventInput; st_evidence : option RequestFactTerminalEvidence }.
Record GeminiTerminalFact := mkTerminal {
  tf_status : option Z; tf_class : ProviderTerminalClass; tf_delivery : DeliveryState; tf_disconnect : option bool; tf_exhaustive : bool;
  tf_tool_calls : option bool }.
Definition evidence_of (r : Reservation) (now : Z) (t : option GeminiTerminalFact) : option RequestFactTerminalEvidence :=
  (fun c => match t with
            | Some t => terminal_evidence c now (tf_status t) (tf_class t) (tf_delivery t) (tf_disconnect t) (tf_exhaustive t) (tf_tool_calls t)
            | None => terminal_evidence c now None ClassUnknown DeliveryUnknown None false None
            end) <$> rs_fact r.
(** The end of an admission that nobody settled: its own drop where a fact was
    admitted, the drop of the hold guard otherwise. *)
Definition drop_admission (a : GeminiAdmission) (now : Z) : list settlement :=
  match ad_reservation a with
  | None => []
  | Some r =>
      match rs_fact r with
      | Some _ => [mkSettlement (rs_hold r) 0 None (evidence_of r now None)]
      | None => if rs_armed r then [mkSettlement (rs_hold r) 0 None None] else []
      end
  end.
Definition settle_failure (a : GeminiAdmission) (now : Z) (status : Z) (class : ProviderTerminalClass) (delivery : DeliveryState) : list settlement :=
  match ad_reservation a with
  | None => []
  | Some r =>
      match rs_fact r with
      | Some c => [mkSettlement (rs_hold r) 0 None (Some (terminal_evidence c now (Some status) class delivery None true None))]
      | None => drop_admission a now
      end
  end.
Definition unmetered_base (book : TariffBookSnapshot) (model : GeminiModel) (completed_at : Z) : Gemini.GeminiPrices * option string :=
  let compiled := compiled_prices model completed_at in
  match Gemini.gemini_matched_tariff_at (gm_id model) completed_at with
  | Some (family, compiled) =>
      match resolve book family completed_at with
      | Some (pin, payload) => match as_gemini payload with Some prices => (prices, Some (pin_schedule_id pin)) | None => (compiled, None) end
      | None => (compiled, None)
      end
  | None => (compiled, None)
  end.
(** The card a reservation is charged by, and the override it belongs to; [None] if
    the pinned version is gone. *)
Definition settlement_prices (book : TariffBookSnapshot) (r : Reservation) (model : GeminiModel) : option (Gemini.GeminiPrices * option string) :=
  match charge_base book (rs_pin r) (served_family model (rs_priced_ts r)) (rs_priced_ts r) (compiled_prices model (rs_priced_ts r)) as_gemini with
  | Compiled prices => Some (prices, None)
  | Override prices schedule => Some (prices, Some schedule)
  | MissingPinned => None
  end.
Definition settle_at (charge_hold_on_unknown_usage : bool) (book : TariffBookSnapshot) (a : GeminiAdmission) (model : GeminiModel)
    (u : option Gemini.GeminiUsage) (profile_id : string) (completed_at now : Z) (t : option GeminiTerminalFact)
    : list settlement * option ProviderTurnCalibrationEvent :=
  match ad_reservation a with
  | Some r =>
      let priced_ts := rs_priced_ts r in
      match settlement_prices book r model with
      | Some (prices, schedule) =>
          let '(charge, event) := settled_charge_or_hold_with_prices charge_hold_on_unknown_usage model u (rs_hold r) (rs_mult_bp r) priced_ts prices in
          ([mkSettlement (rs_hold r) charge event (evidence_of r now t)],
           u ← nonzero u; gemini_calibration_event_with_prices (ad_request_id a) profile_id model u priced_ts completed_at prices schedule)
      | None => ([], None)
      end
  | None =>
      let '(prices, schedule) := unmetered_base book model completed_at in
      ([], u ← nonzero u; gemini_calibration_event_with_prices (ad_request_id a) profile_id model u completed_at completed_at prices schedule)
  end.
Definition settle_terminal charge_hold book a model u profile_id now t := settle_at charge_hold book a model u profile_id now now (Some t).
Definition settle_after_delivery_marker_failure charge_hold book a model u profile_id now tool_calls :=
  settle_terminal charge_hold book a model u profile_id now (mkTerminal (Some 503) ClassSuccess DeliveryUnknown None true tool_calls).

(** ** What is charged *)
Abbreviation LEG := (u64_max * 1000000000).
(** The tier the code picks is the tier of the exact cost. *)
Lemma tier_spec u p inp audio cached cached_audio out :
  Gemini.usage_ok u -> Gemini.prices_ok p -> tier u p = (inp, audio, cached, cached_audio, out) ->
  let search := match Gemini.search p with
                | Gemini.PerQuery n => Gemini.search_queries u * n
                | Gemini.PerGroundedPrompt n => Gemini.grounded_search_prompts u * n
                end in
  Gemini.exact_cost u p = Gemini.input_tokens u * inp + Gemini.audio_input_tokens u * audio + Gemini.cached_input_tokens u * cached
    + Gemini.cached_audio_input_tokens u * cached_audio + Gemini.output_tokens u * out + Gemini.image_output_tokens u * Gemini.image_output p + search
  /\ Forall (fun z => 0 <= z <= LEG) [Gemini.input_tokens u * inp; Gemini.audio_input_tokens u * audio; Gemini.cached_input_tokens u * cached;
       Gemini.cached_audio_input_tokens u * cached_audio; Gemini.output_tokens u * out; Gemini.image_output_tokens u * Gemini.image_output p; search].
Proof.
  intros Hu Hp Ht search. unfold tier, is_long in Ht. rewrite Gemini.prompt_tokens_spec in Ht by done.
  unfold Gemini.usage_ok in Hu. unfold Gemini.prices_ok in Hp. rewrite !Forall_cons in Hu. rewrite !Forall_cons in Hp.
  destruct Hu as (? & _ & ? & ? & ? & ? & _ & ? & ? & ? & _), Hp as (? & ? & ? & ? & ? & ? & ? & ? & ? & ? & ? & ? & _).
  assert (Hleg : forall t r, is_u64 t -> rate_ok r -> 0 <= t * r <= LEG) by (intros; by apply Gemini.sat_leg).
  unfold Gemini.exact_cost. destruct (_ <? _); injection Ht as <- <- <- <- <-; (split; [done|]);
    rewrite !Forall_cons, Forall_nil; repeat (split; [by apply Hleg|]); (split; [|done]); unfold search; destruct (Gemini.search p); by apply Hleg.
Qed.
Lemma half_up nano bp : 0 <= nano <= 7 * LEG -> 0 <= bp <= 10000 -> apply_multiplier nano bp = (nano * bp + 5000) / 10000.
Proof.
  intros Hn Hb. unfold apply_multiplier. rewrite (proj2 (Z.leb_le _ _)) by lia.
  assert (Hp : 0 <= nano * bp <= 7 * LEG * 10000) by nia.
  rewrite (wrap_i128_id (nano * bp)) by width_lia. rewrite wrap_i128_id by width_lia. apply Z.quot_div_nonneg; lia.
Qed.
(** The customer's side of a measured turn: the exact cost times the multiplier,
    rounded half up, and an event whose parts are the parts of the cost. *)
Lemma settled_charge_spec model u mult now p :
  Gemini.usage_ok u -> Gemini.prices_ok p -> 0 <= mult <= 10000 ->
  let cost := Gemini.exact_cost u p in
  exists event, settled_charge_with_prices model u mult now p = (Z.min i64_max ((cost * mult + 5000) / 10000), event)
    /\ (event = None <-> cost = 0)
    /\ forall e, event = Some e -> ue_real_nano e = Z.min i64_max cost /\ ue_charge_basis_nano e = Z.min i64_max cost /\ ue_priced_ts e = now
         /\ (cost <= i64_max -> ue_input_nano e + ue_output_nano e + ue_cache_read_nano e + ue_web_search_nano e = cost).
Proof.
  intros Hu Hp Hm cost. unfold settled_charge_with_prices. rewrite Gemini.card_cost_exact by done. fold cost.
  pose proof (Gemini.exact_cost_bounds u p Hu Hp) as Hb. fold cost in Hb. rewrite half_up by done.
  assert (0 <= (cost * mult + 5000) / 10000) by (apply Z.div_pos; nia).
  set (charge := (cost * mult + 5000) / 10000) in *. clearbody charge.
  assert (Hcl : forall z, 0 <= z -> clamp_i64 z = Z.min i64_max z) by (intros; unfold clamp_i64, clamp; width_lia). rewrite (Hcl charge) by done.
  destruct (Z.leb_spec cost 0); [exists None; split; [done|]; split; [split; [lia|done]|done]|].
  destruct (tier u p) as [[[[inp audio] cached] cached_audio] out] eqn:Et. destruct (tier_spec u p _ _ _ _ _ Hu Hp Et) as [Hc Hl].
  rewrite !Forall_cons in Hl. destruct Hl as (L1 & L2 & L3 & L4 & L5 & L6 & L7 & _). fold cost in Hc.
  assert (Hs : forall a b, 0 <= a <= LEG -> 0 <= b <= LEG -> sat_i128 (sat_i128 a + sat_i128 b) = a + b) by (intros; width_lia).
  rewrite (Hs _ _ L1 L2), (Hs _ _ L3 L4), (Hs _ _ L5 L6).
  assert (Hq : exists requests search, (match Gemini.search p with
      | Gemini.PerQuery nano => (Gemini.search_queries u, sat_i128 (Gemini.search_queries u * nano))
      | Gemini.PerGroundedPrompt nano => (Gemini.grounded_search_prompts u, sat_i128 (Gemini.grounded_search_prompts u * nano))
      end) = (requests, search) /\ 0 <= search
    /\ search = match Gemini.search p with Gemini.PerQuery n => Gemini.search_queries u * n | Gemini.PerGroundedPrompt n => Gemini.grounded_search_prompts u * n end).
  { destruct (Gemini.search p) as [n|n]; eexists _, _; (split; [done|]); set (y := _ * n) in *; clearbody y; width_lia. }
  destruct Hq as (requests & search & -> & Hs0 & Hs1). rewrite <- Hs1 in Hc. eexists. split; [done|]. split; [split; [done|lia]|].
  intros e [= <-]. cbn [ue_real_nano ue_charge_basis_nano ue_priced_ts ue_input_nano ue_output_nano ue_cache_read_nano ue_web_search_nano].
  rewrite !Hcl by lia. repeat (split; [done|]). lia.
Qed.
Lemma leg_cost_Some t r c : leg_cost t r = Some c -> c = t * r.
Proof. unfold leg_cost. intros (x & [-> _]%checked_i128_Some & [-> _]%checked_i64_Some)%bind_Some. done. Qed.
Lemma try_sum_spec l : forall acc s, try_sum acc l = Some s -> s = acc + foldr Z.add 0 l.
Proof.
  induction l as [|x l IH]; intros acc s; cbn; [intros [= <-]; lia|]. intros (y & [-> _]%checked_i64_Some & H)%bind_Some.
  rewrite (IH _ _ H). lia.
Qed.
(** The provider's side: the same cost, in legs that sum to it. *)
Lemma calibration_event_spec request_id profile_id model u priced_ts completed_at p schedule e :
  Gemini.usage_ok u -> Gemini.prices_ok p ->
  gemini_calibration_event_with_prices request_id profile_id model u priced_ts completed_at p schedule = Some e ->
  ev_api_total e = Gemini.exact_cost u p /\ 0 < ev_api_total e
  /\ ev_api_total e = ev_api_input e + ev_api_audio_input e + ev_api_cache_read e + ev_api_cached_audio_input e + ev_api_output e
       + ev_api_image_output e + ev_api_search e
  /\ ev_priced_ts e = priced_ts /\ ev_subject_id e = profile_id /\ ev_schedule e = default TARIFF_SCHEDULE_ID schedule.
Proof.
  intros Hu Hp. unfold gemini_calibration_event_with_prices. destruct (_ || _); [done|].
  destruct (tier u p) as [[[[inp audio] cached] cached_audio] out] eqn:Et. destruct (tier_spec u p _ _ _ _ _ Hu Hp Et) as [Hc _].
  intros H. do 6 (apply bind_Some in H as (? & ?%leg_cost_Some & H)). apply bind_Some in H as (se & Hse & H).
  apply bind_Some in H as (total & Ht & H). destruct (Z.leb_spec total 0); [done|].
  do 10 (apply bind_Some in H as (? & _ & H)). injection H as <-. cbn. apply try_sum_spec in Ht. cbn in Ht. subst.
  assert (se = match Gemini.search p with Gemini.PerQuery n => Gemini.search_queries u * n | Gemini.PerGroundedPrompt n => Gemini.grounded_search_prompts u * n end)
    as -> by (destruct (Gemini.search p); by apply leg_cost_Some).
  rewrite Hc. repeat split; lia.
Qed.

(** When that event is written: both names are there, the cost is positive and
    fits, and every counter of the turn fits a signed 64-bit column. *)
Definition counters_fit (u : Gemini.GeminiUsage) : Prop :=
  Forall (fun z => z <= i64_max)
    [Gemini.input_tokens u; Gemini.audio_input_tokens u; Gemini.cached_input_tokens u + Gemini.cached_audio_input_tokens u;
     Gemini.cached_audio_input_tokens u; Gemini.output_tokens u; Gemini.thinking_output_tokens u; Gemini.image_output_tokens u;
     Gemini.tool_prompt_tokens u; Gemini.search_queries u; Gemini.grounded_search_prompts u].
Lemma leg_cost_fits t r : 0 <= t * r <= i64_max -> leg_cost t r = Some (t * r).
Proof.
  intros H. unfold leg_cost, checked_i128, checked_i64. generalize dependent (t * r). intros z Hz.
  rewrite decide_True by width_lia. cbn. by rewrite decide_True by width_lia.
Qed.
Lemma leg_cost_bound t r c : leg_cost t r = Some c -> t * r <= i64_max.
Proof. unfold leg_cost. intros (x & [-> _]%checked_i128_Some & [-> H]%checked_i64_Some)%bind_Some. width_lia. Qed.
Lemma checked_i64_fits z : 0 <= z <= i64_max -> checked_i64 z = Some z.
Proof. intros H. unfold checked_i64. by rewrite decide_True by width_lia. Qed.
Lemma try_sum_fits l : forall acc, 0 <= acc -> Forall (fun z => 0 <= z) l -> acc + foldr Z.add 0 l <= i64_max ->
  try_sum acc l = Some (acc + foldr Z.add 0 l).
Proof.
  induction l as [|x l IH]; intros acc Ha Hl Hs; cbn in *; [f_equal; lia|]. apply Forall_cons in Hl as [Hx Hl].
  assert (0 <= foldr Z.add 0 l) by (clear -Hl; induction Hl; cbn; lia).
  rewrite checked_i64_fits by lia. cbn. rewrite IH by (done || lia). f_equal. lia.
Qed.
Lemma try_sum_bound l : forall acc s, acc <= i64_max -> try_sum acc l = Some s -> s <= i64_max.
Proof.
  induction l as [|x l IH]; intros acc s Ha; cbn; [by intros [= <-]|]. intros (y & [-> H]%checked_i64_Some & Hs)%bind_Some.
  eapply IH; [|exact Hs]. width_lia.
Qed.
Lemma calibration_event_written request_id profile_id model u priced_ts completed_at p schedule :
  Gemini.usage_ok u -> Gemini.prices_ok p -> Gemini.is_zero u = false ->
  is_Some (gemini_calibration_event_with_prices request_id profile_id model u priced_ts completed_at p schedule)
  <-> request_id <> EmptyString /\ profile_id <> EmptyString /\ 0 < Gemini.exact_cost u p <= i64_max /\ counters_fit u.
Proof.
  intros Hu Hp Hz. unfold gemini_calibration_event_with_prices. rewrite Hz, orb_false_r.
  destruct (tier u p) as [[[[inp audio] cached] cached_audio] out] eqn:Et. destruct (tier_spec u p _ _ _ _ _ Hu Hp Et) as [Hc Hl].
  set (search := match Gemini.search p with Gemini.PerQuery n => Gemini.search_queries u * n | Gemini.PerGroundedPrompt n => Gemini.grounded_search_prompts u * n end) in *.
  unfold Gemini.usage_ok in Hu. unfold counters_fit. rewrite !Forall_cons in Hl. rewrite !Forall_cons in Hu. rewrite !Forall_cons.
  destruct Hl as (L1 & L2 & L3 & L4 & L5 & L6 & L7 & _). destruct Hu as (U1 & U2 & U3 & U4 & U5 & U6 & U7 & U8 & U9 & U10 & _). split.
  - intros [e H]. do 2 (case_bool_decide; [done|]). cbn [orb] in H.
    do 6 (apply bind_Some in H as (? & ?%leg_cost_Some & H)). apply bind_Some in H as (se & Hse & H).
    assert (se = search) as -> by (unfold search; destruct (Gemini.search p); by apply leg_cost_Some).
    apply bind_Some in H as (total & Ht & H). apply try_sum_bound in Ht as Hb; [|vm_compute; discriminate]. apply try_sum_spec in Ht. cbn in Ht.
    destruct (Z.leb_spec total 0); [done|]. subst.
    do 2 (let F := fresh "F" in apply bind_Some in H as (? & [_ F]%checked_i64_Some & H)). apply bind_Some in H as (? & Hcr & H).
    do 7 (let F := fresh "F" in apply bind_Some in H as (? & [_ F]%checked_i64_Some & H)).
    destruct (_ <=? u64_max); [apply checked_i64_Some in Hcr as [_ Hcr]|done].
    do 2 (split; [done|]). split; [lia|]. repeat (split; [width_lia|]). done.
  - intros (H1 & H2 & H3 & C1 & C2 & C3 & C4 & C5 & C6 & C7 & C8 & C9 & C10 & _). rewrite !bool_decide_eq_false_2 by done. cbn [orb].
    rewrite !leg_cost_fits by lia. cbn [mbind option_bind].
    assert (Hs : match Gemini.search p with Gemini.PerQuery n => leg_cost (Gemini.search_queries u) n
      | Gemini.PerGroundedPrompt n => leg_cost (Gemini.grounded_search_prompts u) n end = Some search)
      by (unfold search in *; destruct (Gemini.search p); apply leg_cost_fits; lia).
    rewrite Hs. cbn [mbind option_bind]. rewrite try_sum_fits; [|done|repeat (constructor; [lia|]); constructor|cbn; lia].
    cbn [mbind option_bind]. destruct (Z.leb_spec (0 + foldr Z.add 0 [Gemini.input_tokens u * inp; Gemini.audio_input_tokens u * audio;
      Gemini.cached_input_tokens u * cached; Gemini.cached_audio_input_tokens u * cached_audio; Gemini.output_tokens u * out;
      Gemini.image_output_tokens u * Gemini.image_output p; search]) 0) as [Hle|_]; [cbn in Hle; lia|].
    rewrite (proj2 (Z.leb_le _ _)) by width_lia. rewrite !checked_i64_fits by width_lia. cbn [mbind option_bind]. by eexists.
Qed.

(** A version that was pinned is still the version that charges. *)
Definition keeps_versions (book book' : TariffBookSnapshot) : Prop :=
  forall family v payload, version_payload book family v = Some payload -> version_payload book' family v = Some payload.
Lemma max_by_key_in {A} (key : A -> Z) l x : max_by_key key l = Some x -> x ∈ l.
Proof.
  revert x. induction l as [|y l IH]; intros x; cbn; [done|]. destruct (max_by_key key l) as [z|].
  - destruct (key z <? key y); intros [= <-]; [set_solver|]. apply elem_of_cons. right. by apply IH.
  - intros [= <-]. set_solver.
Qed.
Lemma pinned_prices book book' model ts r pin :
  keeps_versions book book' -> reserve_pin (resolved_base book model ts) = Some pin -> rs_pin r = Some pin -> rs_priced_ts r = ts ->
  settlement_prices book' r model = Some (reserve_prices (resolved_base book model ts), Some (pin_schedule_id pin)).
Proof.
  intros Hk Hpin Hr Hts. unfold settlement_prices. rewrite Hr, Hts. unfold resolved_base in *. destruct (served_family model ts) as [family|]; [|done].
  unfold reserve_base in *. destruct (resolve book family ts) as [[pin' payload]|] eqn:Er; [|done]. destruct (as_gemini payload) as [prices|] eqn:Ea; [|done].
  cbn in Hpin. injection Hpin as ->. cbn [reserve_prices]. unfold resolve in Er. apply bind_Some in Er as (row & Hrow & Er).
  apply bind_Some in Er as (p & Hp & [= <- ->]). apply max_by_key_in, elem_of_lfilter in Hrow as [_ Hf]. apply andb_true_iff in Hf as [Hf _].
  unfold of_family in Hf. apply bool_decide_eq_true in Hf. unfold charge_base, pin_of. cbn [mbind option_bind PinnedTariff_of pin_family pin_version].
  rewrite bool_decide_eq_true_2 by done. cbn [PinnedTariff_of pin_family pin_version]. by rewrite (Hk _ _ _ Hp), Ea.
Qed.

Lemma compiled_card_ok model ts : is_Some (Gemini.gemini_prices_at (gm_id model) ts) -> Gemini.prices_ok (compiled_prices model ts).
Proof.
  intros [p H]. unfold compiled_prices. rewrite H. cbn. unfold Gemini.gemini_prices_at in H.
  apply fmap_Some in H as (e & He & ->). apply Gemini.gemini_catalog_prices_ok. apply List.find_some in He as [He _]. by apply list_elem_of_In.
Qed.

(** C33: What a Gemini turn is settled for.  Admission of a metered turn (at a
    multiplier of at most 10000 basis points) opens a reservation that holds
    nothing and pins the tariff in force.  The terminal settlement of a turn makes
    one call, unless the version that was pinned is gone from the book: then it
    makes none, records nothing and leaves the reservation to recovery.  The card
    is the one admission saw as long as the pinned version is in the book.  Where
    every rate of the card is between zero and 10^9 nanodollars, as every compiled
    card's is (an override may exceed it), the call for measured usage charges
    exactly the cost at that card times the multiplier, rounded half up; it carries
    a usage event exactly when the cost is not zero, and a calibration event is
    written exactly when both ids are given, the cost is positive and fits 64 bits
    and every counter does; both carry that same cost, in parts that sum to it.  A
    terminal without usage (whose pinned version is in the book), a failure and an
    admission that is dropped end in one call that charges nothing, whatever the
    operator's fallback for unmeasured turns says. *)
Theorem gemini_settlement_exact (fallback postgres : bool) (book book' : TariffBookSnapshot) (model : GeminiModel)
    (requested mult available ts now : Z) (request_id profile_id : string) (exact_target : bool) (fact : option GeminiBillableFactContext)
    (a : GeminiAdmission) (output : Z) (u : Gemini.GeminiUsage) (t : GeminiTerminalFact) :
  reserve book model requested (Some (mult, available)) postgres request_id exact_target ts fact LedgerOpened = Ok (a, output) ->
  0 <= mult <= 10000 -> Gemini.usage_ok u -> Gemini.is_zero u = false ->
  exists r, ad_reservation a = Some r /\ rs_hold r = 0 /\ rs_priced_ts r = ts
  /\ (forall p s, settlement_prices book' r model = Some (p, s) ->
        exists actual usage evidence event,
          settle_terminal fallback book' a model (Some u) profile_id now t = ([mkSettlement 0 actual usage evidence], event)
          /\ (Gemini.prices_ok p ->
               let cost := Gemini.exact_cost u p in
               actual = Z.min i64_max ((cost * mult + 5000) / 10000)
               /\ (usage = None <-> cost = 0)
               /\ (forall e, usage = Some e -> ue_real_nano e = Z.min i64_max cost /\ ue_charge_basis_nano e = Z.min i64_max cost /\ ue_priced_ts e = ts
                    /\ (cost <= i64_max -> ue_input_nano e + ue_output_nano e + ue_cache_read_nano e + ue_web_search_nano e = cost))
               /\ (is_Some event <-> request_id <> EmptyString /\ profile_id <> EmptyString /\ 0 < cost <= i64_max /\ counters_fit u)
               /\ (forall e, event = Some e -> ev_api_total e = cost /\ ev_subject_id e = profile_id /\ ev_priced_ts e = ts
                    /\ ev_schedule e = default TARIFF_SCHEDULE_ID s
                    /\ ev_api_input e + ev_api_audio_input e + ev_api_cache_read e + ev_api_cached_audio_input e + ev_api_output e
                       + ev_api_image_output e + ev_api_search e = cost)))
  /\ (is_Some (Gemini.gemini_prices_at (gm_id model) ts) -> Gemini.prices_ok (compiled_prices model ts))
  /\ (settlement_prices book' r model = None -> forall u', settle_terminal fallback book' a model u' profile_id now t = ([], None))
  /\ (forall pin, reserve_pin (resolved_base book model ts) = Some pin -> keeps_versions book book' ->
        settlement_prices book' r model = Some (reserve_prices (resolved_base book model ts), Some (pin_schedule_id pin)))
  /\ (forall calls,
        calls = drop_admission a now
        \/ (exists status class delivery, calls = settle_failure a now status class delivery)
        \/ (exists u', nonzero u' = None /\ settlement_prices book' r model <> None
             /\ calls = fst (settle_terminal fallback book' a model u' profile_id now t)) ->
        exists evidence, calls = [mkSettlement 0 0 None evidence] /\ (evidence = None <-> postgres = false \/ fact = None)).
Proof.
  intros Hr Hm Hu Hz. unfold reserve, reserve_gemini_metered in Hr. destruct (_ && _); [done|]. cbn in Hr. injection Hr as <- <-.
  eexists. split; [done|]. split; [done|]. split; [done|]. set (r := mkReservation _ _ _ _ _ _). split_and!.
  - intros p s Hp. unfold settle_terminal, settle_at. cbn [ad_reservation]. rewrite Hp.
    unfold settled_charge_or_hold_with_prices, nonzero. cbn [mbind option_bind]. rewrite Hz. cbn [r rs_mult_bp rs_priced_ts rs_hold mbind option_bind].
    destruct (settled_charge_with_prices model u mult ts p) as [actual usage] eqn:Es. do 4 eexists. split; [reflexivity|]. intros Hok.
    destruct (settled_charge_spec model u mult ts p Hu Hok Hm) as (usage' & Hs & Hu0 & He). rewrite Es in Hs. injection Hs as -> <-.
    split; [done|]. split; [exact Hu0|]. split; [exact He|]. split; [by apply calibration_event_written|].
    intros e Ee. destruct (calibration_event_spec _ _ _ _ _ _ _ _ _ Hu Hok Ee) as (H1 & _ & H2 & H3 & H4 & H5).
    split_and!; [done..|]. by rewrite <- H2.
  - apply compiled_card_ok.
  - intros Hn u'. unfold settle_terminal, settle_at. cbn [ad_reservation]. by rewrite Hn.
  - intros pin Hpin Hk. by eapply pinned_prices.
  - intros calls Hc.
    assert (Hfact : forall c : option GeminiBillableFactContext, c = (if postgres then fact else None) -> (c = None <-> postgres = false \/ fact = None))
      by (intros c ->; destruct postgres, fact; naive_solver).
    destruct Hc as [->|[(status & class & delivery & ->)|(u' & Hn & Hp & ->)]].
    + unfold drop_admission, evidence_of. cbn [ad_reservation r rs_fact rs_hold rs_armed]. specialize (Hfact _ eq_refl).
      destruct (if postgres then fact else None); eexists; (split; [done|]); rewrite <- Hfact; split; done.
    + unfold settle_failure, drop_admission. cbn [ad_reservation r rs_fact rs_hold rs_armed]. specialize (Hfact _ eq_refl).
      destruct (if postgres then fact else None); eexists; (split; [done|]); rewrite <- Hfact; split; done.
    + unfold settle_terminal, settle_at. cbn [ad_reservation]. destruct (settlement_prices book' r model) as [[p s]|]; [|done].
      unfold settled_charge_or_hold_with_prices. rewrite Hn. cbn [fst]. exists (evidence_of r now (Some t)).
      replace (unknown_usage_charge fallback (rs_hold r)) with 0 by (by destruct fallback). split; [done|].
      unfold evidence_of. cbn [r rs_fact]. rewrite <- (Hfact _ eq_refl). by destruct (if postgres then fact else None).
Qed.

(** ** Runs *)
Definition demo_model : GeminiModel := mkModel "gemini-3.6-flash" (Gemini.flat_prices 1 1 1 1 1 Gemini.SEARCH_GEMINI_3).
Definition demo_usage : Gemini.GeminiUsage := Gemini.mkGU 50 0 20 30 0 12 5 0 2 1.
Definition demo_fact : GeminiBillableFactContext := mkFactContext 1000 1005 2 false.
Definition demo_terminal : GeminiTerminalFact := mkTerminal (Some 200) ClassSuccess Completed None true None.
Definition demo_admission : GeminiAdmission := mkAdmission (Some (mkReservation 8000 0 1000 None true (Some demo_fact))) "req" false.
(** Two queries and a small prompt at eighty percent; the fact counts two sends. *)
Example measured_turn :
  settle_terminal false snapshot_empty demo_admission demo_model (Some demo_usage) "profile-1" 1010 demo_terminal
  = ([mkSettlement 0 22479800
        (Some (mkUsage "gemini-3.6-flash" "google" 70 12 30 0 0 2 28099750 28099750 "standard" "" 52500 45000 2250 0 0 28000000 1000))
        (Some (mkTerminalEvidence 1010 (Some 200) ClassSuccess Completed None (Some 1005) (Some 2) None))],
     Some (mkTurnEvent "req" "profile-1" "gemini-3.6-flash" TARIFF_SCHEDULE_ID 1000 1010 50 20 30 0 12 5 0 0 2 1 37500 15000 2250 0 45000 0 28000000 28099750)).
Proof. vm_compute. reflexivity. Qed.
(** The hold is zero, so an operator who charges unmeasured turns at their hold
    charges nothing here. *)
Example fallback_is_free :
  fst (settle_terminal true snapshot_empty demo_admission demo_model None "profile-1" 1010 demo_terminal)
  = [mkSettlement 0 0 None (Some (mkTerminalEvidence 1010 (Some 200) ClassSuccess Completed None (Some 1005) (Some 2) None))].
Proof. vm_compute. reflexivity. Qed.
(** A positive balance of one nanodollar admits any output: nothing is held and the
    ceiling is not lowered. *)
Example one_nanodollar_admits :
  reserve snapshot_empty demo_model 65536 (Some (10000, 1)) true "req" false 1000 (Some demo_fact) LedgerOpened
  = Ok (mkAdmission (Some (mkReservation 10000 0 1000 None true (Some demo_fact))) "req" false, 65536).
Proof. vm_compute. reflexivity. Qed.

Lemma gemini_settlement_exact_witness :
  (exists usage evidence e,
     settle_terminal false snapshot_empty demo_admission demo_model (Some demo_usage) "profile-1" 1010 demo_terminal
       = ([mkSettlement 0 22479800 (Some usage) evidence], Some e))
  /\ exists evidence, drop_admission demo_admission 1010 = [mkSettlement 0 0 None evidence] /\ evidence <> None.
Proof.
  destruct (gemini_settlement_exact false true snapshot_empty snapshot_empty demo_model 65536 8000 1 1000 1010 "req" "profile-1" false (Some demo_fact)
    demo_admission 65536 demo_usage demo_terminal) as (r & Hr & _ & _ & H1 & _ & _ & _ & H2).
  - vm_compute. reflexivity.
  - lia.
  - unfold Gemini.usage_ok. rewrite !Forall_cons, Forall_nil. cbn. width_lia.
  - vm_compute. reflexivity.
  - split.
    + injection Hr as <-.
      destruct (H1 (eprices Gemini.GEMINI_36_FLASH.1) None) as (actual & usage & evidence & event & E & H); [vm_compute; reflexivity|].
      destruct H as (Ha & Hu & _ & Hv & _); [apply (bool_decide_unpack _); vm_compute; exact I|].
      assert (Hc : Gemini.exact_cost demo_usage (eprices Gemini.GEMINI_36_FLASH.1) = 28099750) by (vm_compute; reflexivity). rewrite Hc in *.
      destruct usage as [usage|]; [|by discriminate (proj1 Hu eq_refl)].
      destruct (proj2 Hv) as [e He]; [do 2 (split; [discriminate|]); split; [vm_compute; split; [reflexivity|discriminate]|];
        unfold counters_fit; repeat (constructor; [vm_compute; discriminate|]); constructor|].
      exists usage, evidence, e. rewrite E, He, Ha. reflexivity.
    + destruct (H2 _ (or_introl eq_refl)) as (evidence & -> & He). exists evidence. split; [reflexivity|]. intros E. apply He in E as [E|E]; discriminate.
Defined.
