(* ===== verification/GeminiTurn.v ===== *)
(** * Rotation of a Gemini request ([crates/forward/src/gemini/api.rs])

    What one attempt on one profile amounts to ([verdict]), what it does to the
    profile, and the loop around it: select, reserve once, attempt, exclude, wait
    quietly while only capacity is missing, and answer.  The pool is read afresh in
    every iteration ([view]): other requests change it, so the views are arbitrary.
    A started stream is followed to its end and its settlement.
    Customer requests only; the exact-profile calibration lane is not modelled.
    Answers of Google are decoded facts, and the translation of bodies is an
    argument. *)
From S2P Require Import Prelude Text Waits MeterUsage TurnMeter GeminiTariffs TariffPayload TariffBook LedgerDb GeminiQuota GeminiPool GeminiMoney.
#[local] Open Scope Z_scope.

(** ** Errors of the API *)
Record ApiError := mkError { er_status : Z; er_retry_after : option Z; er_reason : string; er_not_started : bool }.
Definition unavailable (reason : string) : ApiError := mkError 503 (Some 2) reason true.
Definition rate_limited (retry_after : option Z) : ApiError := mkError 429 (Some (default 60 retry_after)) "gemini_capacity_exhausted" true.
Definition provider_rejected (status : Z) : ApiError :=
  mkError (if status =? 403 then 403 else if status =? 404 then 404 else if status =? 409 then 409 else 400) None "gemini_request_rejected" true.
Definition after_dispatch (e : ApiError) : ApiError := mkError (er_status e) (er_retry_after e) (er_reason e) false.
Definition is_client_error (status : Z) : bool := between 400 499 status.
Definition is_server_error (status : Z) : bool := between 500 599 status.
Definition provider_status_class (status : Z) : ProviderTerminalClass :=
  if is_success status then ClassSuccess
  else if one_of [401; 403] status then ClassAuth
  else if status =? 408 then ClassTimeout
  else if one_of [409; 425] status || is_server_error status then ClassUpstreamError
  else if status =? 429 then ClassQuota
  else if is_client_error status then ClassClientError
  else ClassUnknown.

(** ** One attempt *)
(** The two routes about models are answered before the loop. *)
Inductive Operation : Type := Generate | StreamGenerate | CountTokens.
#[global] Instance Operation_eq_dec : EqDecision Operation.
Proof. solve_decision. Defined.
Definition is_generation (op : Operation) : bool := negb (bool_decide (op = CountTokens)).
(** A refusal as the code reads it: whether Google denied the request itself, the
    hint when to retry, and whether the reason is an exhausted quota. *)
Record refusal := mkRefusal { rf_denied : bool; rf_hint : option Z; rf_exhausted : bool }.
(** [send_upstream] and what the response turns out to be. *)
Inductive push_result : Type := PushFailed (audio : bool) | PushEmpty | PushBytes.
Inductive stream_item : Type := Chunk (len : Z) (p : push_result) | StreamBroken | StreamTimeout.
Inductive body_answer : Type := BodyLost | BodyMalformed | BodyAudioUsage | BodyRead.
Record response := mkResponse {
  rs_status : Z; rs_refusal : refusal; rs_body : body_answer; rs_items : list stream_item; rs_finish : push_result;
  rs_provider_error : option (Z * refusal) }.
Inductive send_answer : Type := SendToken (e : TokenError) | SendTransport | SendExpired | SendOk (r : response).

(** [execute_nonstream_generate]: everything that can come back. *)
Inductive exec_answer : Type :=
| ExecToken | ExecTransport (headers_received : bool) | ExecMalformed | ExecAudioUsage
| ExecResponse (status : Z) (r : refusal) (usage : option Gemini.GeminiUsage).
(** Its map of the send; [wrapped]: whether the body could be wrapped for the profile. *)
Definition execute_nonstream (wrapped : bool) (send : send_answer) (usage : option Gemini.GeminiUsage) : exec_answer :=
  if negb wrapped then ExecMalformed
  else match send with
  | SendToken _ | SendExpired => ExecToken
  | SendTransport => ExecTransport false
  | SendOk r =>
      match rs_body r with
      | BodyLost => ExecTransport true
      | body =>
          if negb (is_success (rs_status r)) then ExecResponse (rs_status r) (rs_refusal r) None
          else match body with
          | BodyMalformed => ExecMalformed
          | BodyAudioUsage => ExecAudioUsage
          | _ => ExecResponse (rs_status r) (rs_refusal r) usage
          end
      end
  end.
Inductive verdict : Type :=
| Delivered (usage : option Gemini.GeminiUsage) | StreamStarted | UsageMissing (delivery : option DeliveryState) | AudioMissing
| GrantLost | AuthBlocked | Denied | QuotaHit (r : refusal)
| TransportFault (reason : string) (class : ProviderTerminalClass) (delivery : option DeliveryState)
| BackendFault (label : option string) (reason : string) (class : ProviderTerminalClass)
| ClientRejected (status : Z) | DispatchExpired.
Definition STREAM_START_MAX_BYTES : Z := 1024 * 1024.
Definition STREAM_START_MAX_CHUNKS : Z := 1024.
Definition GEMINI_BODY_LIMIT : Z := 256 * (1024 * 1024).
Definition IMAGE_STREAM_START_MAX_CHUNKS : Z := 8192.
Definition stream_limits (image : bool) : Z * Z :=
  if image then (GEMINI_BODY_LIMIT, IMAGE_STREAM_START_MAX_CHUNKS) else (STREAM_START_MAX_BYTES, STREAM_START_MAX_CHUNKS).
Definition account_stream_start_chunk (bytes chunks len max_bytes max_chunks : Z) : option (Z * Z) :=
  let bytes := sat_u64 (bytes + len) in let chunks := sat_u64 (chunks + 1) in
  if (max_bytes <? bytes) || (max_chunks <? chunks) then None else Some (bytes, chunks).
(** The private prelude of a stream: [Ok] once a public event exists; the error says
    whether the audio usage was missing. *)
Fixpoint stream_start (limits : Z * Z) (bytes chunks : Z) (items : list stream_item) (finish : push_result) : result bool () :=
  match items with
  | [] => match finish with PushBytes => Ok () | PushFailed audio => Err audio | PushEmpty => Err false end
  | Chunk len p :: items =>
      match account_stream_start_chunk bytes chunks len limits.1 limits.2 with
      | None => Err false
      | Some (bytes, chunks) =>
          match p with PushEmpty => stream_start limits bytes chunks items finish | PushBytes => Ok () | PushFailed audio => Err audio end
      end
  | (StreamBroken | StreamTimeout) :: _ => Err false
  end.
Definition retry_status (status : Z) : bool := one_of [408; 409; 425] status.
Definition denied_or_blocked (r : refusal) : verdict := if rf_denied r then Denied else AuthBlocked.
Definition interrupted : option DeliveryState := Some Interrupted.
Definition classify_generate (requires_usage : bool) (first second : exec_answer) : verdict :=
  match first with
  | ExecToken => TransportFault "gemini_transport_unavailable" ClassTransport None
  | ExecTransport headers =>
      TransportFault (if headers then "gemini_response_read_failed" else "gemini_transport_unavailable") ClassTransport None
  | ExecAudioUsage => AudioMissing
  | ExecMalformed => BackendFault (Some "malformed") "gemini_malformed_response" ClassProtocolError
  | ExecResponse status r usage =>
      if status =? 401 then
        match second with
        | ExecResponse status _ usage =>
            if is_success status
            then (if requires_usage && bool_decide (usage = None) then UsageMissing None else Delivered usage)
            else AuthBlocked
        | _ => AuthBlocked
        end
      else if status =? 403 then denied_or_blocked r
      else if status =? 429 then QuotaHit r
      else if retry_status status then TransportFault "gemini_backend_unavailable" ClassUpstreamError interrupted
      else if is_server_error status then BackendFault (Some "backend") "gemini_backend_unavailable" ClassUpstreamError
      else if is_success status
      then (if requires_usage && bool_decide (usage = None) then UsageMissing interrupted else Delivered usage)
      else if is_client_error status then ClientRejected status
      else BackendFault (Some "protocol") "gemini_backend_protocol_error" ClassProtocolError
  end.
Definition label_of (op : Operation) (label : string) : option string := if is_generation op then Some label else None.
Definition classify_stream (image : bool) (r : response) : verdict :=
  match stream_start (stream_limits image) 0 0 (rs_items r) (rs_finish r) with
  | Err true => AudioMissing
  | Err false => BackendFault (Some "stream_start") "gemini_stream_start_failed" ClassProtocolError
  | Ok () =>
      match rs_provider_error r with
      | Some (code, why) =>
          if one_of [401; 403] code then AuthBlocked
          else if code =? 429 then QuotaHit why
          else if retry_status code then TransportFault "gemini_stream_start_failed" ClassProtocolError interrupted
          else if is_server_error code then BackendFault (Some "backend") "gemini_stream_start_failed" ClassProtocolError
          else StreamStarted
      | None => StreamStarted
      end
  end.
Definition classify_body (op : Operation) (r : response) : verdict :=
  let status := rs_status r in
  match rs_body r with
  | BodyLost => TransportFault "gemini_response_read_failed" ClassTransport interrupted
  | body =>
      if status =? 401 then AuthBlocked
      else if status =? 403 then denied_or_blocked (rs_refusal r)
      else if status =? 429 then QuotaHit (rs_refusal r)
      else if retry_status status then TransportFault "gemini_backend_unavailable" ClassUpstreamError interrupted
      else if is_server_error status then BackendFault (label_of op "backend") "gemini_backend_unavailable" ClassUpstreamError
      else if is_success status then
        match body with
        | BodyAudioUsage => AudioMissing
        | BodyMalformed => BackendFault (label_of op "malformed") "gemini_malformed_response" ClassProtocolError
        | _ => Delivered None
        end
      else if is_client_error status then ClientRejected status
      else BackendFault (label_of op "protocol") "gemini_backend_protocol_error" ClassProtocolError
  end.
Definition classify_response (op : Operation) (image : bool) (r : response) : verdict :=
  if is_success (rs_status r) && bool_decide (op = StreamGenerate) then classify_stream image r else classify_body op r.
Definition classify_send (op : Operation) (image : bool) (first second : send_answer) : verdict :=
  match first with
  | SendToken InvalidGrant => GrantLost
  | SendToken _ | SendTransport => TransportFault "gemini_transport_unavailable" ClassTransport None
  | SendExpired => DispatchExpired
  | SendOk r =>
      if rs_status r =? 401 then
        match second with
        | SendOk r => classify_response op image r
        | SendToken InvalidGrant => GrantLost
        | SendToken _ | SendTransport | SendExpired => TransportFault "gemini_token_refresh_unavailable" ClassTransport None
        end
      else classify_response op image r
  end.
(** The first send and the one after a rejected token, with the usage read from each. *)
Record attempt := mkAttempt {
  at_wrapped : bool; at_send1 : send_answer; at_usage1 : option Gemini.GeminiUsage; at_send2 : send_answer; at_usage2 : option Gemini.GeminiUsage }.
Definition verdict_of (op : Operation) (image requires_usage : bool) (a : attempt) : verdict :=
  match op with
  | Generate =>
      classify_generate requires_usage (execute_nonstream (at_wrapped a) (at_send1 a) (at_usage1 a))
        (execute_nonstream (at_wrapped a) (at_send2 a) (at_usage2 a))
  | StreamGenerate | CountTokens => classify_send op image (at_send1 a) (at_send2 a)
  end.

(** ** What a verdict does to the profile *)
Inductive effect : Type :=
| MarkSuccess | MarkAuthenticated | MarkAuthFailed | MarkAuthBlocked | CoolTransport | MarkFailure (class : string) | CoolModel (r : refusal).
Definition generation_429_cool_secs (cfg : GeminiConfig) (r : refusal) (quota_has_remaining : bool) : Z :=
  match rf_hint r with
  | Some secs => if rf_exhausted r then secs else Z.min secs (rate_limit_unknown_cool_secs cfg)
  | None => if quota_has_remaining then rate_limit_rpm_cool_secs cfg else default_rate_limit_cool_secs cfg
  end.
(** The profile as it is when the effect runs, and the file of deadlines. *)
Definition apply_effect (cfg : GeminiConfig) (model_id : string) (now : Z) (writable : bool) (e : effect) (p : GeminiProfile) (disk : option CooldownState)
    : health * option CooldownState :=
  let h := p_health p in
  match e with
  | MarkSuccess => (mark_model_success h model_id now, disk)
  | MarkAuthenticated => (mark_authenticated h, disk)
  | MarkAuthFailed => (mark_auth_failed h (now + auth_quarantine_secs cfg), disk)
  | MarkAuthBlocked => (mark_auth_blocked cfg h now, disk)
  | CoolTransport => (cool_until h (now + transport_cool_secs cfg), disk)
  | MarkFailure class => (mark_model_failure cfg h model_id class now, disk)
  | CoolModel r =>
      cool_model_until h disk writable (p_id p) model_id
        (now + generation_429_cool_secs cfg r (quota_reports_remaining cfg (p_kind p) model_id (p_quota p) now))
  end.
Definition effects_of (op : Operation) (v : verdict) : list effect :=
  match v with
  | Delivered _ => [if is_generation op then MarkSuccess else MarkAuthenticated]
  | StreamStarted => [MarkSuccess]
  | UsageMissing _ => [MarkSuccess; MarkFailure "usage_metadata"]
  | AudioMissing => [MarkFailure "usage_metadata"]
  | GrantLost => [MarkAuthFailed]
  | AuthBlocked => [MarkAuthBlocked]
  | Denied => []
  | QuotaHit r => [CoolModel r]
  | TransportFault _ _ _ => [CoolTransport]
  | BackendFault label _ _ => match label with Some class => [MarkFailure class] | None => [] end
  | ClientRejected _ => [MarkAuthenticated]
  | DispatchExpired => []
  end.

(** ** The stream after its start ([stream_response])
    The task that forwards a started stream, drains it whether or not the client
    still listens, and settles the admission it was given.  What the translator
    made of each chunk, and what became of each send, are facts of the run. *)
Inductive send_out : Type := Sent | ClientGone | SendTimedOut.
(** [Read]: a chunk, its length and the public chunks it was translated into, or
    the translator's refusal.  The end of the list is the end of the stream. *)
Inductive stream_read : Type := AbortRequested | Read (len : Z) (pushed : option (list send_out)) | ReadFailed.
(** Whether the task was accepted and the delivery marked; the sends of the first
    chunks ([None]: an abort came first); the reads; the rest the translator held
    back at the end and its closing bracket; and what it knows at the end. *)
Record stream_run := mkStream {
  sm_tracked : bool; sm_marked : bool; sm_initial : list (option send_out); sm_reads : list stream_read;
  sm_pending : option (list send_out); sm_closing : option send_out;
  sm_usage : Gemini.GeminiUsage; sm_audio_failed : bool; sm_provider_error : option (Z * refusal); sm_tool_calls : option bool }.
Record stream_state := mkStreamState {
  ss_deliver : bool; ss_disconnected : bool; ss_private : Z * Z; ss_clean : bool; ss_aborted : bool; ss_malformed : bool; ss_transport_failed : bool }.
Definition stream_begin (deliver : bool) : stream_state := mkStreamState deliver false (0, 0) true false false false.
Definition deliver_one (st : stream_state) (o : send_out) : stream_state :=
  if ss_deliver st then
    match o with
    | Sent => st
    | ClientGone => mkStreamState false true (ss_private st) (ss_clean st) (ss_aborted st) (ss_malformed st) (ss_transport_failed st)
    | SendTimedOut => mkStreamState false (ss_disconnected st) (ss_private st) (ss_clean st) (ss_aborted st) (ss_malformed st) (ss_transport_failed st)
    end
  else st.
Definition stream_aborted (st : stream_state) : stream_state :=
  mkStreamState (ss_deliver st) (ss_disconnected st) (ss_private st) (ss_clean st) true (ss_malformed st) (ss_transport_failed st).
Definition stream_malformed (st : stream_state) (malformed : bool) : stream_state :=
  mkStreamState (ss_deliver st) (ss_disconnected st) (ss_private st) false (ss_aborted st) malformed (ss_transport_failed st).
Definition stream_lost (st : stream_state) : stream_state :=
  mkStreamState (ss_deliver st) (ss_disconnected st) (ss_private st) false (ss_aborted st) (ss_malformed st) true.
Definition with_private (st : stream_state) (private : Z * Z) : stream_state :=
  mkStreamState (ss_deliver st) (ss_disconnected st) private (ss_clean st) (ss_aborted st) (ss_malformed st) (ss_transport_failed st).
Fixpoint send_initial (st : stream_state) (l : list (option send_out)) : stream_state :=
  match l with
  | [] => st
  | o :: l =>
      if ss_deliver st then match o with None => stream_aborted st | Some o => send_initial (deliver_one st o) l end
      else send_initial st l
  end.
Fixpoint drain_stream (audio_failed : bool) (st : stream_state) (reads : list stream_read) : stream_state :=
  match reads with
  | [] => st
  | AbortRequested :: _ => stream_aborted st
  | ReadFailed :: _ => stream_lost st
  | Read _ None :: _ => stream_malformed st (negb audio_failed)
  | Read len (Some sends) :: reads =>
      match (if bool_decide (sends = [])
             then account_stream_start_chunk (ss_private st).1 (ss_private st).2 len STREAM_START_MAX_BYTES STREAM_START_MAX_CHUNKS
             else Some (0, 0)) with
      | None => stream_malformed st true
      | Some private => drain_stream audio_failed (foldl deliver_one (with_private st private) sends) reads
      end
  end.
Definition finish_drain (s : stream_run) (st : stream_state) : stream_state :=
  if ss_clean st && negb (ss_aborted st) then
    match sm_pending s with
    | None => stream_malformed st (negb (sm_audio_failed s))
    | Some sends => let st := foldl deliver_one st sends in match sm_closing s with Some o => deliver_one st o | None => st end
    end
  else st.
Definition drained (s : stream_run) : stream_state :=
  let st := send_initial (stream_begin (sm_marked s)) (sm_initial s) in
  finish_drain s (if ss_aborted st then st else drain_stream (sm_audio_failed s) st (sm_reads s)).
Definition stream_usage (s : stream_run) : option Gemini.GeminiUsage :=
  if negb (sm_audio_failed s) && negb (Gemini.is_zero (sm_usage s)) then Some (sm_usage s) else None.
Definition usage_missing (a : GeminiAdmission) (s : stream_run) : bool := bool_decide (stream_usage s = None) && requires_usage a.
Definition stream_judged (a : GeminiAdmission) (s : stream_run) (st : stream_state) : list effect :=
  let served := ss_clean st && negb (usage_missing a s) in
  let unserved := if sm_audio_failed s then [MarkFailure "usage_metadata"] else if ss_malformed st then [MarkFailure "malformed"] else [] in
  match sm_provider_error s with
  | Some (code, why) =>
      if one_of [401; 403] code then [MarkAuthBlocked]
      else if code =? 429 then [CoolModel why]
      else if retry_status code then [CoolTransport]
      else if is_server_error code then [MarkFailure "backend"]
      else if served then [MarkSuccess] else unserved
  | None => if served then [MarkSuccess] else unserved
  end.
Definition stream_effects (a : GeminiAdmission) (s : stream_run) : list effect :=
  let st := drained s in
  (if ss_transport_failed st then [CoolTransport] else [])
  ++ (if ss_aborted st then [] else stream_judged a s st)
  ++ (if usage_missing a s && negb (ss_aborted st) && negb (ss_malformed st) && bool_decide (sm_provider_error s = None)
      then [MarkFailure "usage_metadata"] else []).
Definition stream_class (a : GeminiAdmission) (s : stream_run) (st : stream_state) : ProviderTerminalClass * DeliveryState * option bool :=
  if ss_aborted st then (ClassUnknown, Interrupted, None)
  else match sm_provider_error s with
  | Some (code, _) => (provider_status_class code, Interrupted, None)
  | None =>
      if ss_transport_failed st then (ClassTransport, Interrupted, None)
      else if ss_malformed st || sm_audio_failed s then (ClassProtocolError, Interrupted, None)
      else if ss_clean st && negb (usage_missing a s) then (ClassSuccess, Completed, sm_tool_calls s)
      else (ClassProtocolError, Interrupted, None)
  end.
Definition record_downstream_disconnect (a : GeminiAdmission) : GeminiAdmission :=
  mkAdmission ((fun r => mkReservation (rs_mult_bp r) (rs_hold r) (rs_priced_ts r) (rs_pin r) (rs_armed r)
      ((fun c => mkFactContext (fc_admitted_at c) (fc_clock c) (fc_sends c) true) <$> rs_fact r)) <$> ad_reservation a)
    (ad_request_id a) (ad_exact_target a).
(** The error of the answer, and what the ledger and the calibration are told. *)
Definition stream_response (fallback : bool) (book : TariffBookSnapshot) (a : GeminiAdmission) (model : GeminiModel) (profile_id : string) (now : Z)
    (s : stream_run) : option ApiError * list settlement * option ProviderTurnCalibrationEvent :=
  if negb (sm_tracked s) then (Some (unavailable "gemini_shutdown"), drop_admission a now, None)
  else
    let st := drained s in
    let '(class, delivery, tool_calls) := stream_class a s st in
    let a := if ss_disconnected st then record_downstream_disconnect a else a in
    let '(calls, event) := settle_terminal fallback book a model (stream_usage s) profile_id now
      (mkTerminal (Some (if sm_marked s then 200 else 503)) class (if sm_marked s then delivery else DeliveryUnknown) None true tool_calls) in
    (if sm_marked s then None else Some (after_dispatch (unavailable "gemini_delivery_marker_failed")), calls, event).

(** ** The loop *)
Record turn := mkTurn {
  t_excluded : gset string; t_retry_failures : Z; t_saw_quota : bool; t_saw_auth : bool; t_saw_denied : bool; t_saw_backend : bool;
  t_admitted : bool; t_left_ms : Z }.
Definition turn_start (smooth_wait_ms : Z) : turn := mkTurn ∅ 0 false false false false false smooth_wait_ms.
(** How a request ends: its answer, and what its admission is settled with; the
    delivery state is the observed one where none is given. *)
Inductive ending : Type :=
| Served (profile_id : string) (usage : option Gemini.GeminiUsage) (marked : bool)
| Streaming (profile_id : string)
| Failed (answer : ApiError) (status : Z) (class : ProviderTerminalClass) (delivery : option DeliveryState)
| NotAdmitted (e : AdmissionError).
(** What one iteration reads: the pool, the preferred profile, two readings of the
    clock, the time spent since the last one, the answer of the ledger when the
    reservation is opened, the errors of writing the output ceiling and of wrapping
    the body, the attempt on the profile selected and the marker. *)
Record view := mkView {
  v_gateway : GeminiGateway; v_preferred : option string; v_now1 : Z; v_now2 : Z; v_elapsed_ms : Z; v_reserve : result AdmissionError ();
  v_cap_error : option ApiError; v_wrap_error : option ApiError; v_attempt : attempt; v_marked : bool }.
Record request := mkRequest {
  r_op : Operation; r_model : string; r_image : bool; r_requires_usage : bool; r_warm : gset string; r_place_root : bool }.
Section Loop.
Context (digest : string -> Z * Z) (cfg : GeminiConfig) (rq : request).
Definition generation : bool := is_generation (r_op rq).
Definition the_route (st : turn) (preferred : option string) : route :=
  mkRoute (r_model rq) (t_excluded st) preferred (r_warm rq) (r_place_root rq) generation.
Definition selected (v : view) (st : turn) : option GeminiProfile :=
  fst (route_request digest cfg (v_gateway v) (the_route st (v_preferred v)) (v_now1 v) (v_now2 v)).
Definition saw_verdict (st : turn) : bool := t_saw_auth st || t_saw_denied st || t_saw_backend st || (0 <? t_retry_failures st).
Definition left_after (st : turn) (spent : Z) : Z := Z.max 0 (t_left_ms st - Z.max 0 spent).
Definition exhausted (v : view) (st : turn) (retry : option Z) : ending :=
  if t_saw_denied st && negb (t_saw_quota st) then Failed (provider_rejected 403) 403 ClassAuth None
  else
    let '(class, error) :=
      if negb (has_authenticated_profiles (v_gateway v)) then (ClassAuth, unavailable "gemini_profiles_unauthenticated")
      else if t_saw_quota st then (ClassQuota, rate_limited retry)
      else if t_saw_auth st then (ClassAuth, unavailable "gemini_profiles_unavailable")
      else if t_saw_backend st || (0 <? t_retry_failures st) then (ClassUpstreamError, unavailable "gemini_profiles_unavailable")
      else (ClassQuota, rate_limited retry) in
    Failed error (er_status error) class None.
(** Nothing to select: another round after a quiet wait, while no profile has judged
    the request, or the answer. *)
Definition no_lease (v : view) (st : turn) : ending + turn :=
  let retry := (fun until => Z.max 1 (sat_i64 (until - v_now2 v))) <$> soonest_ready cfg (v_gateway v) (r_model rq) ∅ generation (v_now2 v) in
  match (if saw_verdict st then None else smooth_step (default 1 retry) (left_after st (v_elapsed_ms v))) with
  | Some step =>
      inr (mkTurn ∅ (t_retry_failures st) false (t_saw_auth st) (t_saw_denied st) (t_saw_backend st) (t_admitted st)
             (left_after st (Z.max 0 (v_elapsed_ms v) + step)))
  | None => inl (exhausted v st retry)
  end.
(** The profile is excluded; an error of the transport or the backend also counts
    against the retries. *)
Definition excluding (id : string) (v : view) (st : turn) (failures : Z) (quota auth denied backend : bool) : turn :=
  mkTurn ({[id]} ∪ t_excluded st) (t_retry_failures st + failures) (t_saw_quota st || quota) (t_saw_auth st || auth) (t_saw_denied st || denied)
    (t_saw_backend st || backend) true (left_after st (v_elapsed_ms v)).
Definition spent_retries (st : turn) : bool := max_transport_retries cfg <? t_retry_failures st.
Definition judge (id : string) (v : view) (st : turn) (d : verdict) : ending + turn :=
  match d with
  | Delivered usage => inl (Served id usage (v_marked v))
  | StreamStarted => inl (Streaming id)
  | UsageMissing delivery => inl (Failed (unavailable "gemini_usage_metadata_missing") 503 ClassProtocolError delivery)
  | AudioMissing => inl (Failed (unavailable "gemini_audio_usage_metadata_missing") 503 ClassProtocolError None)
  | GrantLost | AuthBlocked => inr (excluding id v st 0 false true false false)
  | Denied => inr (excluding id v st 0 false false true false)
  | QuotaHit _ => inr (excluding id v st 0 true false false false)
  | TransportFault reason class delivery =>
      let st := excluding id v st 1 false false false false in
      if spent_retries st then inl (Failed (unavailable reason) 503 class delivery) else inr st
  | BackendFault _ reason class =>
      let st := excluding id v st 1 false false false true in
      if spent_retries st then inl (Failed (unavailable reason) 503 class interrupted) else inr st
  | ClientRejected status => inl (Failed (provider_rejected status) status (provider_status_class status) interrupted)
  | DispatchExpired => inl (Failed (unavailable "gemini_calibration_dispatch_expired") 503 ClassTimeout None)
  end.
Definition the_verdict (v : view) : verdict := verdict_of (r_op rq) (r_image rq) (r_requires_usage rq) (v_attempt v).
(** What the iteration did: a quiet wait, or an attempt. *)
Inductive event : Type := Waited | Tried (id : string) (d : verdict).
(** What the request itself fails on: the ceiling is written once, into text
    generations; the wrapper of a plain generation is part of its attempt. *)
Definition local_error (v : view) (st : turn) : option ApiError :=
  match (if t_admitted st || negb generation || r_image rq then None else v_cap_error v) with
  | Some e => Some e
  | None => if bool_decide (r_op rq = Generate) then None else v_wrap_error v
  end.
Definition turn_step (v : view) (st : turn) : list event * (ending + turn) :=
  match selected v st with
  | None => match no_lease v st with inl e => ([], inl e) | inr st => ([Waited], inr st) end
  | Some p =>
      match (if t_admitted st then Ok () else v_reserve v) with
      | Err e => ([], inl (NotAdmitted e))
      | Ok () =>
          match local_error v st with
          | Some e => ([], inl (Failed e (er_status e) ClassUnknown None))
          | None => ([Tried (p_id p) (the_verdict v)], judge (p_id p) v st (the_verdict v))
          end
      end
  end.
Fixpoint run_turn (fuel : nat) (views : nat -> view) (i : nat) (st : turn) : option (list event * ending) :=
  match fuel with
  | O => None
  | S fuel =>
      match turn_step (views i) st with
      | (log, inl e) => Some (log, e)
      | (log, inr st) => '(rest, e) ← run_turn fuel views (S i) st; Some (log ++ rest, e)
      end
  end.
End Loop.
(** What the ledger is told at the end of an admitted request; a stream takes its
    admission along and settles it when it ends. *)
Definition close (fallback : bool) (book : TariffBookSnapshot) (a : GeminiAdmission) (model : GeminiModel) (now : Z) (tool_calls : option bool)
    (s : stream_run) (e : ending) : list settlement :=
  match e with
  | Served id usage true => fst (settle_terminal fallback book a model usage id now (mkTerminal (Some 200) ClassSuccess Completed None true tool_calls))
  | Served id usage false => fst (settle_after_delivery_marker_failure fallback book a model usage id now tool_calls)
  | Streaming id => snd (fst (stream_response fallback book a model id now s))
  | Failed _ status class delivery => settle_failure a now status class (default (observed_failure_delivery a) delivery)
  | NotAdmitted _ => []
  end.
(** The error the caller sees; a delivery that could not be marked has been sent. *)
Definition answer_error (s : stream_run) (e : ending) : option ApiError :=
  match e with
  | Served _ _ false => Some (after_dispatch (unavailable "gemini_delivery_marker_failed"))
  | Served _ _ true => None
  | Streaming _ =>
      if negb (sm_tracked s) then Some (unavailable "gemini_shutdown")
      else if sm_marked s then None else Some (after_dispatch (unavailable "gemini_delivery_marker_failed"))
  | Failed answer _ _ _ => Some answer
  | NotAdmitted _ => None
  end.

(** A stream never credits a model with a success on the turn it records as a
    usage failure. *)
Lemma stream_success_or_missing a s :
  MarkSuccess ∈ stream_effects a s -> MarkFailure "usage_metadata" ∉ stream_effects a s.
Proof.
  unfold stream_effects, stream_judged. set (st := drained s). destruct (usage_missing a s) eqn:Em.
  - rewrite !andb_false_r. destruct (ss_transport_failed st), (ss_aborted st), (ss_malformed st); cbn;
      repeat case_match; set_solver.
  - assert (Ha : sm_audio_failed s = true -> requires_usage a = false).
    { unfold usage_missing, stream_usage in Em. intros Hs. by rewrite Hs in Em. }
    cbn. rewrite !app_nil_r. destruct (ss_transport_failed st), (ss_aborted st); cbn; repeat case_match; set_solver.
Qed.
Lemma stream_answer_error fallback book a model id now s :
  answer_error s (Streaming id) = fst (fst (stream_response fallback book a model id now s)).
Proof. cbn. unfold stream_response. destruct (sm_tracked s); [|done]. cbn. repeat case_match; by simplify_eq/=. Qed.

(** ** The rotation *)
Lemma route_request_spec digest cfg g r now1 now2 q :
  fst (route_request digest cfg g r now1 now2) = Some q ->
  exists p, p ∈ routable_profiles g /\ q = leased p /\ (p_id p ∉ rt_excluded r).
Proof.
  unfold route_request, select_routed, select_routed_ignoring_env_cooling. intros H.
  assert (He : forall ignore now p, eligible cfg r ignore now p = true -> (p_id p ∉ rt_excluded r)).
  { intros ignore now p E. unfold eligible in E. rewrite !andb_true_iff, negb_true_iff, bool_decide_eq_false in E. tauto. }
  destruct (select_routed_spec digest cfg g r false now1) as [_ S1].
  destruct (select_routed_inner digest cfg g r false now1) as [[q1|] cursor]; cbn [fst] in *.
  - injection H as ->. destruct (S1 q eq_refl) as (p & Hp & -> & E & _). eauto.
  - destruct (select_routed_spec digest cfg (mkGateway (g_profiles g) (g_disabled g) (g_shutting_down g) cursor) r true now2) as [_ S2].
    destruct (S2 q H) as (p & Hp & -> & E & _). eauto.
Qed.
Lemma route_request_none digest cfg g r now1 now2 :
  fst (route_request digest cfg g r now1 now2) = None ->
  g_shutting_down g = true \/ forall p, p ∈ routable_profiles g -> eligible cfg r true now2 p = false.
Proof.
  unfold route_request, select_routed, select_routed_ignoring_env_cooling.
  destruct (select_routed_inner digest cfg g r false now1) as [[q1|] cursor]; cbn [fst]; [done|].
  by intros H%(proj1 (select_routed_spec digest cfg (mkGateway (g_profiles g) (g_disabled g) (g_shutting_down g) cursor) r true now2)).
Qed.
Lemma routable_in g p : p ∈ routable_profiles g -> p ∈ g_profiles g.
Proof. unfold routable_profiles. case_bool_decide; [done|]. by intros [? _]%elem_of_lfilter. Qed.

(** Within a round no profile comes twice. *)
Fixpoint rounds (excluded : gset string) (log : list event) : Prop :=
  match log with
  | [] => True
  | Waited :: log => rounds ∅ log
  | Tried id _ :: log => (id ∉ excluded) /\ rounds ({[id]} ∪ excluded) log
  end.
Lemma rounds_apart l : forall excluded log id d, rounds excluded (l ++ Tried id d :: log) -> id ∈ excluded -> Waited ∈ l.
Proof.
  induction l as [|ev l IH]; intros excluded log id d; cbn; [set_solver|]. destruct ev as [|id' d']; [set_solver|].
  intros [_ H] Hin. apply elem_of_cons. right. eapply IH; [exact H|set_solver].
Qed.
Lemma rounds_suffix l : forall excluded log, rounds excluded (l ++ log) -> exists excluded', rounds excluded' log.
Proof. induction l as [|[|id d] l IH]; intros excluded log; cbn; [eauto|eauto|]. intros [_ H]. eauto. Qed.

Section LoopSpec.
Context (digest : string -> Z * Z) (cfg : GeminiConfig) (rq : request).
Abbreviation step := (turn_step digest cfg rq).
Abbreviation run := (run_turn digest cfg rq).
(** A verdict that sends the request on to another profile. *)
Definition rotates (d : verdict) : bool :=
  match d with GrantLost | AuthBlocked | Denied | QuotaHit _ | TransportFault _ _ _ | BackendFault _ _ _ => true | _ => false end.
Definition is_fault (ev : event) : bool :=
  match ev with Tried _ (TransportFault _ _ _) | Tried _ (BackendFault _ _ _) => true | _ => false end.
Definition is_quota (d : verdict) : bool := match d with QuotaHit _ => true | _ => false end.
Definition faults (log : list event) : Z := Z.of_nat (length (List.filter is_fault log)).
(** Everything an iteration can do. *)
Inductive stepped (v : view) (st : turn) : list event -> ending + turn -> Prop :=
| step_exhausted retry : selected digest cfg rq v st = None -> stepped v st [] (inl (exhausted v st retry))
| step_waited ms : saw_verdict st = false -> 0 < left_after st (v_elapsed_ms v) ->
    Z.min 250 (left_after st (v_elapsed_ms v)) <= ms ->
    stepped v st [Waited] (inr (mkTurn ∅ (t_retry_failures st) false (t_saw_auth st) (t_saw_denied st) (t_saw_backend st) (t_admitted st)
      (left_after st (Z.max 0 (v_elapsed_ms v) + ms))))
| step_refused e : stepped v st [] (inl (NotAdmitted e))
| step_local e : local_error rq v st = Some e -> stepped v st [] (inl (Failed e (er_status e) ClassUnknown None))
| step_tried p d o : p ∈ g_profiles (v_gateway v) -> (p_id p ∉ t_excluded st) -> d = the_verdict rq v -> o = judge cfg (p_id p) v st d ->
    stepped v st [Tried (p_id p) d] o.
Lemma turn_step_spec v st l o : step v st = (l, o) -> stepped v st l o.
Proof.
  unfold turn_step. destruct (selected digest cfg rq v st) as [q|] eqn:Es.
  - destruct (if t_admitted st then _ else _) as [[]|e]; [|intros [= <- <-]; constructor].
    destruct (local_error rq v st) eqn:El; intros [= <- <-]; [by constructor|].
    unfold selected in Es. destruct (route_request_spec _ _ _ _ _ _ _ Es) as (p & Hp%routable_in & -> & Hx). by apply (step_tried v st p _ _ Hp Hx).
  - unfold no_lease. destruct (saw_verdict st) eqn:Ev; [intros [= <- <-]; by constructor|].
    set (retry := _ <$> soonest_ready _ _ _ _ _ _). unfold smooth_step.
    destruct (Z.eqb_spec (left_after st (v_elapsed_ms v)) 0) as [E|E]; intros [= <- <-]; [by constructor|].
    assert (0 <= left_after st (v_elapsed_ms v)) by (unfold left_after; lia).
    apply step_waited; [done|lia|]. unfold clamp. lia.
Qed.
(** Runs by induction. *)
Lemma run_ind (views : nat -> view) (P : nat -> turn -> list event -> ending -> Prop) :
  (forall i st l e, stepped (views i) st l (inl e) -> P i st l e) ->
  (forall i st l st' rest e, stepped (views i) st l (inr st') -> P (S i) st' rest e -> P i st (l ++ rest) e) ->
  forall fuel i st log e, run fuel views i st = Some (log, e) -> P i st log e.
Proof.
  intros He Hs fuel. induction fuel as [|fuel IH]; intros i st log e; [done|]. cbn [run_turn].
  destruct (step (views i) st) as [l [e'|st']] eqn:E; [intros [= <- <-]; apply He; by apply turn_step_spec|].
  intros ([rest e''] & Hr & [= <- <-])%bind_Some. eapply Hs; [by apply turn_step_spec|by apply IH].
Qed.
Definition is_denied (d : verdict) : bool := match d with Denied => true | _ => false end.
Lemma judge_continues id v st d st' :
  judge cfg id v st d = inr st' ->
  rotates d = true /\ t_excluded st' = {[id]} ∪ t_excluded st /\ t_left_ms st' = left_after st (v_elapsed_ms v)
  /\ t_retry_failures st' = t_retry_failures st + Z.b2z (is_fault (Tried id d))
  /\ (is_fault (Tried id d) = true -> t_retry_failures st' <= max_transport_retries cfg)
  /\ t_saw_quota st' = t_saw_quota st || is_quota d /\ t_saw_denied st' = t_saw_denied st || is_denied d
  /\ (0 <= t_retry_failures st -> saw_verdict st' = saw_verdict st || negb (is_quota d)).
Proof.
  assert (H0 : forall q a n b, 0 <= t_retry_failures st -> saw_verdict (excluding id v st 0 q a n b) = saw_verdict st || a || n || b).
  { intros q a n b H. unfold saw_verdict, excluding. cbn. rewrite Z.add_0_r.
    destruct (t_saw_auth st), (t_saw_denied st), (t_saw_backend st), (0 <? t_retry_failures st), a, n, b; done. }
  assert (H1 : forall q a n b, 0 <= t_retry_failures st -> saw_verdict (excluding id v st 1 q a n b) = true).
  { intros q a n b H. unfold saw_verdict, excluding. cbn. rewrite (proj2 (Z.ltb_lt 0 _)) by lia. apply orb_true_r. }
  destruct d; cbn [judge]; try done.
  all: try (destruct (spent_retries cfg _) eqn:Es; [done|]; unfold spent_retries in Es; cbn in Es; apply Z.ltb_ge in Es).
  all: intros [= <-]; cbn [is_fault Z.b2z is_quota is_denied rotates negb]; split_and!; try (cbn; done); try (cbn; lia);
    try (cbn; by rewrite ?orb_false_r, ?orb_true_r); intros H; rewrite ?H0, ?H1 by done; by rewrite ?orb_false_r, ?orb_true_r.
Qed.

(** *** It ends *)
Definition waits (left_ms : Z) : nat := Z.to_nat ((left_ms + 249) / 250).
Definition potential (ids : gset string) (st : turn) : nat := (waits (t_left_ms st) * S (size ids) + size (ids ∖ t_excluded st))%nat.
Lemma waits_mono a b : a <= b -> (waits a <= waits b)%nat.
Proof. intros. unfold waits. assert ((a + 249) / 250 <= (b + 249) / 250) by (apply Z.div_le_mono; lia). lia. Qed.
Lemma waits_less a b : 0 < b -> a <= 0 \/ a + 250 <= b -> (waits a < waits b)%nat.
Proof.
  intros Hb H. unfold waits. assert (1 <= (b + 249) / 250) by (apply Z.div_le_lower_bound; lia). destruct H.
  - assert ((a + 249) / 250 <= 0) by (apply Z.lt_succ_r, Z.div_lt_upper_bound; lia). lia.
  - assert ((a + 249) / 250 <= (b + 249) / 250 - 1); [|lia]. replace ((b + 249) / 250 - 1) with ((b + 249 + (-1) * 250) / 250)
      by (rewrite Z.div_add by lia; lia). apply Z.div_le_mono; lia.
Qed.
Lemma potential_falls ids v st l st' :
  (forall p, p ∈ g_profiles (v_gateway v) -> p_id p ∈ ids) -> stepped v st l (inr st') -> (potential ids st' < potential ids st)%nat.
Proof.
  intros Hids Hs. inversion Hs as [| ms Hq Hl Hms | | | p d o Hp Hx Hd Hj]; subst.
  - unfold potential. cbn [t_left_ms t_excluded]. rewrite difference_empty_L.
    assert ((waits (left_after st (Z.max 0 (v_elapsed_ms v) + ms)) < waits (t_left_ms st))%nat).
    { unfold left_after in *. apply waits_less; lia. }
    nia.
  - symmetry in Hj. destruct (judge_continues _ _ _ _ _ Hj) as (_ & Ex & El & _). unfold potential. rewrite Ex, El.
    assert (size (ids ∖ ({[p_id p]} ∪ t_excluded st)) < size (ids ∖ t_excluded st))%nat.
    { apply subset_size. specialize (Hids p Hp). set_solver. }
    assert (Hle : t_left_ms st < 0 \/ left_after st (v_elapsed_ms v) <= t_left_ms st) by (unfold left_after; lia).
    assert ((waits (left_after st (v_elapsed_ms v)) <= waits (t_left_ms st))%nat).
    { destruct Hle as [Hn|Hle]; [|by apply waits_mono]. unfold left_after. rewrite Z.max_l by lia. vm_compute (waits 0). lia. }
    nia.
Qed.
Lemma run_ends ids views : (forall i p, p ∈ g_profiles (v_gateway (views i)) -> p_id p ∈ ids) ->
  forall fuel i st, (potential ids st < fuel)%nat -> run fuel views i st <> None.
Proof.
  intros Hids fuel. induction fuel as [|fuel IH]; intros i st Hf; [lia|]. cbn [run_turn].
  destruct (step (views i) st) as [l [e|st']] eqn:E; [done|]. apply turn_step_spec in E.
  pose proof (potential_falls ids _ _ _ _ (Hids i) E). specialize (IH (S i) st' ltac:(lia)).
  destruct (run fuel views (S i) st') as [[rest e]|]; [done|]. done.
Qed.

(** *** What happens on the way *)
Lemma run_rounds views fuel i st log e : run fuel views i st = Some (log, e) -> rounds (t_excluded st) log.
Proof.
  revert fuel i st log e. apply (run_ind views (fun _ st log _ => rounds (t_excluded st) log)).
  - intros i st l e Hs. inversion Hs; subst; cbn; auto.
  - intros i st l st' rest e Hs IH. inversion Hs as [| ms Hq Hl Hms | | | p d o Hp Hx Hd Hj]; subst; cbn in *; [done|].
    symmetry in Hj. destruct (judge_continues _ _ _ _ _ Hj) as (_ & Ex & _). by rewrite Ex in IH.
Qed.
(** Before a wait there were only quotas. *)
Definition only_quota (log : list event) : Prop := forall id d, Tried id d ∈ log -> is_quota d = true.
Lemma run_waits views fuel i st log e : 0 <= t_retry_failures st -> run fuel views i st = Some (log, e) ->
  forall l1 l2, log = l1 ++ Waited :: l2 -> saw_verdict st = false /\ only_quota l1.
Proof.
  intros H0 Hr. revert H0. revert fuel i st log e Hr.
  apply (run_ind views (fun _ st log _ => 0 <= t_retry_failures st -> forall l1 l2, log = l1 ++ Waited :: l2 -> saw_verdict st = false /\ only_quota l1)).
  - intros i st l e Hs _ l1 l2 ->. inversion Hs as [| | | | p d o Hp Hx Hd Hj E1]; subst; try (by destruct l1).
    destruct l1 as [|ev l1]; [done|]. injection E1 as _ E1. by destruct l1.
  - intros i st l st' rest e Hs IH H0 l1 l2 E. inversion Hs as [| ms Hq Hl Hms | | | p d o Hp Hx Hd Hj]; subst.
    + destruct l1 as [|ev l1]; [split; [done|]; intros ? ? Hin; by apply elem_of_nil in Hin|]. cbn in E. injection E as <- E.
      destruct (IH H0 l1 l2 E) as [_ Ho]. split; [done|]. intros id d [?|Hin]%elem_of_cons; [done|]. by eapply Ho.
    + symmetry in Hj. destruct (judge_continues _ _ _ _ _ Hj) as (_ & _ & _ & Ef & _ & _ & _ & Ev). specialize (Ev H0).
      destruct l1 as [|ev l1]; [done|]. cbn in E. injection E as <- E.
      destruct (IH ltac:(rewrite Ef; destruct (is_fault _); cbn; lia) l1 l2 E) as [Hs' Ho]. rewrite Ev in Hs'. apply orb_false_iff in Hs' as [Hs' Hq].
      split; [done|]. intros id d [[= -> ->]|Hin]%elem_of_cons; [by apply negb_false_iff in Hq|]. by eapply Ho.
Qed.
Lemma run_faults views fuel i st log e :
  t_retry_failures st <= max_transport_retries cfg -> run fuel views i st = Some (log, e) ->
  t_retry_failures st + faults log <= max_transport_retries cfg + 1.
Proof.
  intros H0 Hr. revert H0. revert fuel i st log e Hr.
  apply (run_ind views (fun _ st log _ => t_retry_failures st <= max_transport_retries cfg -> t_retry_failures st + faults log <= max_transport_retries cfg + 1)).
  - intros i st l e Hs H0. assert (faults l <= 1); [|lia]. inversion Hs; subst; try (vm_compute; discriminate).
    unfold faults. cbn [List.filter]. destruct (is_fault _); cbn; lia.
  - intros i st l st' rest e Hs IH H0. inversion Hs as [| ms Hq Hl Hms | | | p d o Hp Hx Hd Hj]; subst; [by apply IH|].
    symmetry in Hj. destruct (judge_continues _ _ _ _ _ Hj) as (_ & _ & _ & Ef & Hm & _). unfold faults in *. cbn [List.app List.filter].
    destruct (is_fault (Tried (p_id p) (the_verdict rq (views i)))); cbn [Z.b2z] in Ef; cbn [length]; [specialize (Hm eq_refl)|]; specialize (IH ltac:(lia)); lia.
Qed.
(** Only the last attempt of a request can be one that is not passed on. *)
Lemma run_prefix views fuel i st log e : run fuel views i st = Some (log, e) ->
  (forall l1 id d l2, log = l1 ++ Tried id d :: l2 -> rotates d = true \/ l2 = [])
  /\ (forall id u m, e = Served id u m -> exists l, log = l ++ [Tried id (Delivered u)])
  /\ (forall id, e = Streaming id -> exists l, log = l ++ [Tried id StreamStarted]).
Proof.
  revert fuel i st log e.
  apply (run_ind views (fun _ st log e => (forall l1 id d l2, log = l1 ++ Tried id d :: l2 -> rotates d = true \/ l2 = [])
    /\ (forall id u m, e = Served id u m -> exists l, log = l ++ [Tried id (Delivered u)])
    /\ (forall id, e = Streaming id -> exists l, log = l ++ [Tried id StreamStarted]))).
  - intros i st l e Hs. split.
    { intros l1 id d l2 ->. right. inversion Hs as [| | | | p d' o Hp Hx Hd Hj E1]; subst; try (by destruct l1). destruct l1 as [|ev l1]; [by injection E1 as _ _ <-|].
      injection E1 as _ E1. by destruct l1. }
    assert (Hj : forall id d, judge cfg id (views i) st d = inl e ->
      (forall id' u m, e = Served id' u m -> id = id' /\ d = Delivered u) /\ (forall id', e = Streaming id' -> id = id' /\ d = StreamStarted)).
    { intros id d. destruct d; cbn [judge]; try (destruct (spent_retries _ _); [|done]); intros [= <-]; split; intros; simplify_eq; done. }
    inversion Hs as [retry Hn | | e' | e' | p d o Hp Hx Hd Hjd]; subst; try (split; intros; done).
    + unfold exhausted. destruct (_ && _); [split; intros; done|]. destruct (if negb _ then _ else _) as [c er]. split; intros; done.
    + symmetry in Hjd. destruct (Hj _ _ Hjd) as [H1 H2].
      split; [intros id u m E; destruct (H1 _ _ _ E) as [-> <-]; by exists []|intros id E; destruct (H2 _ E) as [-> <-]; by exists []].
  - intros i st l st' rest e Hs (I1 & I2 & I3). split_and!.
    + intros l1 id d l2 E. inversion Hs as [| ms Hq Hl Hms | | | p d' o Hp Hx Hd Hj]; subst; destruct l1 as [|ev l1]; cbn in E; simplify_eq.
      * by eapply I1.
      * symmetry in Hj. left. by destruct (judge_continues _ _ _ _ _ Hj).
      * by eapply I1.
    + intros id u m E. destruct (I2 id u m E) as [x ->]. exists (l ++ x). by rewrite app_assoc.
    + intros id E. destruct (I3 id E) as [x ->]. exists (l ++ x). by rewrite app_assoc.
Qed.
Lemma client_rejected_status v s : the_verdict rq v = ClientRejected s -> er_status (provider_rejected s) <> 403 /\ er_status (provider_rejected s) <> 429.
Proof.
  assert (Hs : forall op image r, classify_response op image r = ClientRejected s -> (rs_status r =? 403) = false /\ rs_status r = s).
  { intros op image r. unfold classify_response, classify_stream, classify_body, denied_or_blocked. repeat case_match; intros; simplify_eq; auto; done. }
  intros Hv. assert (H : s <> 403).
  { unfold the_verdict, verdict_of, classify_generate, classify_send, denied_or_blocked in Hv.
    repeat case_match; simplify_eq; try lia; apply Hs in Hv as [?%Z.eqb_neq <-]; done. }
  unfold provider_rejected. cbn. rewrite (proj2 (Z.eqb_neq s 403)) by done. repeat case_match; lia.
Qed.
(** When nobody was left, no untried profile could serve: it had lost its grant,
    or a hard axis denied it (its quota cooling, the deadline of the model, the
    quota reported). *)
Definition unserving (v : view) (p : GeminiProfile) : Prop :=
  authenticated (p_health p) = false \/ v_now2 v < hard_cooling_until_for cfg p (r_model rq) (v_now2 v) (generation rq).
Definition nobody_left (v : view) (tried : gset string) : Prop :=
  g_shutting_down (v_gateway v) = true
  \/ forall p, p ∈ routable_profiles (v_gateway v) -> (p_id p ∉ tried) -> unserving v p.
Lemma selected_none v st : selected digest cfg rq v st = None -> nobody_left v (t_excluded st).
Proof.
  intros [H|H]%route_request_none; [by left|]. right. intros p Hp Hx. specialize (H p Hp). unfold eligible in H. cbn in H.
  rewrite bool_decide_eq_false_2 in H by done. cbn in H. apply andb_false_iff in H as [H%Z.leb_gt|H]; [by right|by left].
Qed.
Definition local_invalid (v : view) : Prop := forall e, v_cap_error v = Some e \/ v_wrap_error v = Some e -> er_status e = 400.
Lemma local_error_invalid v st e : local_invalid v -> local_error rq v st = Some e -> er_status e = 400.
Proof. intros Hl. unfold local_error. repeat case_match; intros; simplify_eq; apply Hl; auto. Qed.
Lemma exhausted_status v st retry a s c d : exhausted v st retry = Failed a s c d ->
  (er_status a = 429 -> t_saw_quota st = true \/ saw_verdict st = false) /\ (er_status a = 403 -> t_saw_denied st = true).
Proof.
  unfold exhausted, saw_verdict. destruct (t_saw_denied st), (t_saw_quota st), (negb (has_authenticated_profiles (v_gateway v))), (t_saw_auth st),
    (t_saw_backend st), (0 <? t_retry_failures st); cbn; intros [= <- <- <- <-]; cbn; split; auto; discriminate.
Qed.
(** A refusal for capacity or for the request has its reason on the way. *)
Lemma run_refusals views fuel i st log e :
  (forall j, local_invalid (views j)) -> 0 <= t_retry_failures st -> run fuel views i st = Some (log, e) ->
  forall a s c d, e = Failed a s c d ->
    (er_status a = 429 ->
       ((t_saw_quota st = true \/ exists id r, Tried id (QuotaHit r) ∈ log) \/ (saw_verdict st = false /\ forall id d, Tried id d ∉ log))
       /\ exists j tried, nobody_left (views j) tried /\ forall id, id ∈ tried -> id ∈ t_excluded st \/ exists d, Tried id d ∈ log)
    /\ (er_status a = 403 -> t_saw_denied st = true \/ exists id, Tried id Denied ∈ log).
Proof.
  intros Hl H0 Hr. revert H0. revert fuel i st log e Hr.
  apply (run_ind views (fun _ st log e => 0 <= t_retry_failures st -> forall a s c d, e = Failed a s c d ->
    (er_status a = 429 ->
       ((t_saw_quota st = true \/ exists id r, Tried id (QuotaHit r) ∈ log) \/ (saw_verdict st = false /\ forall id d, Tried id d ∉ log))
       /\ exists j tried, nobody_left (views j) tried /\ forall id, id ∈ tried -> id ∈ t_excluded st \/ exists d, Tried id d ∈ log)
    /\ (er_status a = 403 -> t_saw_denied st = true \/ exists id, Tried id Denied ∈ log))).
  - intros i st l e Hs _ a s c d ->. inversion Hs as [retry Hn E1 E2 | | | e' Hloc | p d' o Hp Hx Hd Hj]; subst.
    + destruct (exhausted_status _ _ _ _ _ _ _ E2) as [H1 H2]. split; [|auto]. intros Ha. split.
      * destruct (H1 Ha) as [Hq|Hv]; [by left; left|]. right. split; [done|]. intros id d' Hin. by apply elem_of_nil in Hin.
      * exists i, (t_excluded st). split; [by apply selected_none|auto].
    + rewrite (local_error_invalid _ _ _ (Hl i) Hloc). split; discriminate.
    + assert (Hno : er_status a <> 429 /\ er_status a <> 403).
      { symmetry in Hj. revert Hj. destruct (the_verdict rq (views i)) eqn:Ev; cbn [judge]; try (destruct (spent_retries _ _); [|done]); intros [= <- <- <- <-];
          try (cbn; lia). destruct (client_rejected_status _ _ Ev). done. }
      split; intros; by destruct Hno.
  - intros i st l st' rest e Hs IH H0 a s c d He. inversion Hs as [| ms Hq Hlt Hms | | | p d' o Hp Hx Hd Hj]; subst.
    + destruct (IH H0 a s c d eq_refl) as [I1 I2]. cbn in I1, I2. split.
      * intros Ha. destruct (I1 Ha) as [Hw (j & tried & Hn & Ht)]. split.
        -- destruct Hw as [[?|(id & r & Hin)]|[Hv Hno]]; [done|left; right; exists id, r; set_solver|]. right. split; [done|].
           intros id d' [?|Hin]%elem_of_cons; [done|]. by eapply Hno.
        -- exists j, tried. split; [done|]. intros id Hid. destruct (Ht id Hid) as [?|[d' ?]]; [set_solver|]. right. exists d'. set_solver.
      * intros Ha. destruct (I2 Ha) as [?|(id & Hin)]; [by left|]. right. exists id. set_solver.
    + symmetry in Hj. destruct (judge_continues _ _ _ _ _ Hj) as (_ & Ex & _ & Ef & _ & Eq & Ed & Ev). specialize (Ev H0).
      destruct (IH ltac:(rewrite Ef; destruct (is_fault _); cbn; lia) a s c d eq_refl) as [I1 I2]. set (d' := the_verdict rq (views i)) in *. split.
      * intros Ha. destruct (I1 Ha) as [Hw (j & tried & Hn & Ht)]. split.
        -- assert (Hquota : is_quota d' = true -> exists id r, Tried id (QuotaHit r) ∈ Tried (p_id p) d' :: rest)
             by (destruct d' as [| | | | | | |r| | | |]; try done; intros _; exists (p_id p), r; set_solver).
           destruct Hw as [[Hq|(id & r & Hin)]|[Hv Hno]].
           ++ rewrite Eq in Hq. apply orb_true_iff in Hq as [Hq|Hq]; [by left; left|]. left. right. by apply Hquota.
           ++ left. right. exists id, r. set_solver.
           ++ rewrite Ev in Hv. apply orb_false_iff in Hv as [_ Hq%negb_false_iff]. left. right. by apply Hquota.
        -- exists j, tried. split; [done|]. intros id Hid. destruct (Ht id Hid) as [Hin|[d'' ?]]; [|right; exists d''; set_solver].
           rewrite Ex in Hin. apply elem_of_union in Hin as [->%elem_of_singleton|?]; [right; exists d'; set_solver|by left].
      * intros Ha. destruct (I2 Ha) as [Hdn|(id & Hin)]; [|right; exists id; set_solver]. rewrite Ed in Hdn. apply orb_true_iff in Hdn as [?|Hdn]; [by left|].
        right. exists (p_id p). destruct d'; try done. set_solver.
Qed.
End LoopSpec.
(** A terminal settlement is one call that closes the hold, unless the version
    pinned at admission is gone from the book: then there is none. *)
Definition settled_terminally (book : TariffBookSnapshot) (r : Reservation) (model : GeminiModel) (calls : list settlement) : Prop :=
  match settlement_prices book r model with
  | Some _ => exists call, calls = [call] /\ st_hold call = rs_hold r
  | None => calls = []
  end.
Definition settled_free (r : Reservation) (calls : list settlement) : Prop :=
  exists evidence, calls = [mkSettlement (rs_hold r) 0 None evidence].
Lemma settle_terminal_once fallback book a r model u id now t :
  ad_reservation a = Some r -> settled_terminally book r model (fst (settle_terminal fallback book a model u id now t)).
Proof.
  intros Ha. unfold settled_terminally, settle_terminal, settle_at. rewrite Ha. destruct (settlement_prices book r model) as [[p sch]|]; [|done].
  destruct (settled_charge_or_hold_with_prices _ _ _ _ _ _ _) as [charge event]. by eexists.
Qed.
Lemma drop_admission_free a r now : ad_reservation a = Some r -> rs_armed r = true -> settled_free r (drop_admission a now).
Proof. intros Ha Harm. unfold settled_free, drop_admission. rewrite Ha, Harm. destruct (rs_fact r); by eexists. Qed.
Lemma stream_once fallback book a r model id now s :
  ad_reservation a = Some r -> sm_tracked s = true ->
  settled_terminally book r model (snd (fst (stream_response fallback book a model id now s))).
Proof.
  intros Ha Ht. unfold stream_response. rewrite Ht. cbn [negb]. destruct (stream_class a s (drained s)) as [[class delivery] calls].
  set (t := mkTerminal _ _ _ _ _ _). set (a' := if ss_disconnected _ then _ else _).
  assert (Hr : exists r', ad_reservation a' = Some r' /\ rs_hold r' = rs_hold r /\ settlement_prices book r' model = settlement_prices book r model).
  { unfold a'. destruct (ss_disconnected _); [|by exists r]. cbn. rewrite Ha. by eexists. }
  destruct Hr as (r' & Hr & Hh & Hp). pose proof (settle_terminal_once fallback book a' r' model (stream_usage s) id now t Hr) as H.
  destruct (settle_terminal _ _ _ _ _ _ _ _) as [cs ev]. cbn. unfold settled_terminally in *. by rewrite Hp, Hh in H.
Qed.
Lemma close_settles fallback book a r model now tool_calls s e :
  ad_reservation a = Some r -> rs_armed r = true ->
  match e with
  | Served _ _ _ => settled_terminally book r model (close fallback book a model now tool_calls s e)
  | Streaming _ =>
      if sm_tracked s then settled_terminally book r model (close fallback book a model now tool_calls s e)
      else settled_free r (close fallback book a model now tool_calls s e)
  | Failed _ _ _ _ => settled_free r (close fallback book a model now tool_calls s e)
  | NotAdmitted _ => close fallback book a model now tool_calls s e = []
  end.
Proof.
  intros Ha Harm. destruct e as [id u m|id|answer st c d|er]; cbn [close]; [|destruct (sm_tracked s) eqn:Et| |done].
  - destruct m; by apply settle_terminal_once.
  - by apply stream_once.
  - unfold stream_response. rewrite Et. cbn. by apply drop_admission_free.
  - unfold settle_failure. rewrite Ha. destruct (rs_fact r) eqn:Ef; [by eexists|]. by apply drop_admission_free.
Qed.

(** C32: The rotation of a Gemini request ends, and everything it does has a reason.
    Whatever other requests do to the pool, the loop answers within the stated
    number of iterations.  A profile is tried again only after a quiet wait, only if
    its first answer was a quota, and a wait happens only while every answer so far
    was one: a request that a profile judged is never replayed.  At most
    [max_transport_retries + 1] attempts end in a fault; every attempt but the last
    is one that is passed on, and a delivered answer or a started stream is the
    last.  A 429 means that a profile reported a quota or that none was tried, and
    that the pool was shutting down or every routable profile not tried had lost
    its grant or was denied by a hard axis; a 403 that a profile denied the request
    (the refusals made before anything is sent being 400s).  What becomes of a
    metered admission: an answer that was served, and a stream that was started,
    whenever and however it ends, are settled by one call, or by none if the
    version pinned at admission is gone from the tariff book; a failed request, and
    a stream refused because the process shuts down, by one call that charges
    nothing. *)
Theorem gemini_turn_exact (digest : string -> Z * Z) (cfg : GeminiConfig) (rq : request) (ids : gset string) (views : nat -> view) (wait_ms : Z) :
  0 <= max_transport_retries cfg ->
  (forall i p, p ∈ g_profiles (v_gateway (views i)) -> p_id p ∈ ids) -> (forall i, local_invalid (views i)) ->
  exists log e, run_turn digest cfg rq (S (waits wait_ms * S (size ids) + size ids)) views 0 (turn_start wait_ms) = Some (log, e)
  /\ (forall l1 id d1 l2 d2 l3, log = l1 ++ Tried id d1 :: l2 ++ Tried id d2 :: l3 -> Waited ∈ l2 /\ is_quota d1 = true)
  /\ (forall l1 l2, log = l1 ++ Waited :: l2 -> only_quota l1)
  /\ faults log <= max_transport_retries cfg + 1
  /\ (forall l1 id d l2, log = l1 ++ Tried id d :: l2 -> rotates d = true \/ l2 = [])
  /\ (forall id u m, e = Served id u m -> exists l, log = l ++ [Tried id (Delivered u)])
  /\ (forall id, e = Streaming id -> exists l, log = l ++ [Tried id StreamStarted])
  /\ (forall a s c d, e = Failed a s c d ->
        (er_status a = 429 ->
           ((exists id r, Tried id (QuotaHit r) ∈ log) \/ forall id d, Tried id d ∉ log)
           /\ exists j tried, nobody_left cfg rq (views j) tried /\ forall id, id ∈ tried -> exists d, Tried id d ∈ log)
        /\ (er_status a = 403 -> exists id, Tried id Denied ∈ log))
  /\ (forall fallback book a r model now tool_calls s, ad_reservation a = Some r -> rs_armed r = true ->
        match e with
        | Served _ _ _ => settled_terminally book r model (close fallback book a model now tool_calls s e)
        | Streaming _ =>
            if sm_tracked s then settled_terminally book r model (close fallback book a model now tool_calls s e)
            else settled_free r (close fallback book a model now tool_calls s e)
        | Failed _ _ _ _ => settled_free r (close fallback book a model now tool_calls s e)
        | NotAdmitted _ => close fallback book a model now tool_calls s e = []
        end).
Proof.
  intros Hm Hids Hl. set (st := turn_start wait_ms).
  destruct (run_turn digest cfg rq (S (waits wait_ms * S (size ids) + size ids)) views 0 st) as [[log e]|] eqn:Hr.
  2: { exfalso. eapply (run_ends digest cfg rq ids views Hids); [|exact Hr]. unfold potential. cbn. rewrite difference_empty_L. lia. }
  exists log, e. split; [done|]. pose proof (run_waits _ _ _ _ _ _ st _ _ ltac:(done) Hr) as Hw. split_and!.
  - intros l1 id d1 l2 d2 l3 E. pose proof (run_rounds _ _ _ _ _ _ _ _ _ Hr) as Hrd. rewrite E in Hrd.
    apply rounds_suffix in Hrd as [x [_ Hrd]]. assert (Hin : Waited ∈ l2) by (eapply rounds_apart; [exact Hrd|set_solver]).
    split; [done|]. apply list_elem_of_split in Hin as (k1 & k2 & ->). destruct (Hw (l1 ++ Tried id d1 :: k1) (k2 ++ Tried id d2 :: l3)) as [_ Ho].
    { rewrite E. by rewrite <- !app_assoc. }
    apply (Ho id). set_solver.
  - intros l1 l2 E. by destruct (Hw l1 l2 E).
  - pose proof (run_faults _ _ _ _ _ _ st _ _ Hm Hr). cbn in *. lia.
  - by destruct (run_prefix _ _ _ _ _ _ _ _ _ Hr).
  - by destruct (run_prefix _ _ _ _ _ _ _ _ _ Hr) as (_ & ? & _).
  - by destruct (run_prefix _ _ _ _ _ _ _ _ _ Hr) as (_ & _ & ?).
  - intros a s c d E. destruct (run_refusals _ _ _ _ _ _ st _ _ Hl ltac:(done) Hr a s c d E) as [R1 R2]. split.
    + intros Ha. destruct (R1 Ha) as [R3 (j & tried & Hn & Ht)]. split; [destruct R3 as [[?|?]|[_ ?]]; [done|by left|by right]|].
      exists j, tried. split; [done|]. intros id Hid. destruct (Ht id Hid) as [?|?]; [set_solver|done].
    + intros Ha. by destruct (R2 Ha).
  - intros fallback book a r model now tool_calls s Ha Harm. by apply close_settles.
Qed.

(** ** Runs *)
Definition no_reason : refusal := mkRefusal false None false.
Definition replies (status : Z) (r : refusal) : response := mkResponse status r BodyRead [] PushEmpty None.
Definition demo_attempt (send1 send2 : send_answer) : attempt := mkAttempt true send1 (Some demo_usage) send2 (Some demo_usage).
Definition demo_view (send1 : send_answer) : view :=
  mkView (demo_gateway [demo_profile "a" 0 [demo_row half]; demo_profile "b" 0 [demo_row half]]) None 1010 1010 5 (Ok ()) None None
    (demo_attempt send1 SendTransport) true.
Definition demo_request (op : Operation) : request := mkRequest op "gemini-3-pro" false true ∅ false.
Definition demo_views (i : nat) : view :=
  demo_view (match i with O => SendOk (replies 429 (mkRefusal false (Some 30) false)) | S O => SendOk (replies 503 no_reason) | _ => SendOk (replies 200 no_reason) end).
(** A quota on the first profile, a fault of the second: no wait, no replay, 429. *)
Example quota_then_fault :
  run_turn demo_digest demo_config (demo_request Generate) 10 demo_views 0 (turn_start 1000)
  = Some ([Tried "a" (QuotaHit (mkRefusal false (Some 30) false)); Tried "b" (BackendFault (Some "backend") "gemini_backend_unavailable" ClassUpstreamError)],
          Failed (rate_limited None) 429 ClassQuota None).
Proof. vm_compute. reflexivity. Qed.
(** Quotas only: the request waits and is served in the second round. *)
Example quota_then_served :
  run_turn demo_digest demo_config (demo_request Generate) 10
    (fun i => demo_view (if (i <? 2)%nat then SendOk (replies 429 no_reason) else SendOk (replies 200 no_reason))) 0 (turn_start 1000)
  = Some ([Tried "a" (QuotaHit no_reason); Tried "b" (QuotaHit no_reason); Waited; Tried "a" (Delivered (Some demo_usage))], Served "a" (Some demo_usage) true).
Proof. vm_compute. reflexivity. Qed.
(** A revoked grant quarantines the profile of a stream, but counts as a transport
    fault of a plain generation. *)
Example revoked_grant_by_operation :
  let lost := demo_attempt (SendToken InvalidGrant) SendTransport in
  effects_of StreamGenerate (verdict_of StreamGenerate false true lost) = [MarkAuthFailed]
  /\ effects_of Generate (verdict_of Generate false true lost) = [CoolTransport].
Proof. split; reflexivity. Qed.
(** A token that was replaced after a rejection and then meets a quota: the quota is
    read as another refusal of the credential, not so in a stream. *)
Example quota_after_refresh :
  let refreshed := demo_attempt (SendOk (replies 401 no_reason)) (SendOk (replies 429 no_reason)) in
  verdict_of Generate false true refreshed = AuthBlocked /\ verdict_of StreamGenerate false true refreshed = QuotaHit no_reason.
Proof. split; reflexivity. Qed.

(** The client leaves after the first chunk: the stream is drained all the same and
    the turn is charged for its measured usage. *)
Definition demo_stream : stream_run :=
  mkStream true true [Some Sent] [Read 10 (Some [ClientGone]); Read 20 (Some [Sent])] (Some []) None demo_usage false None None.
Example abandoned_stream_is_charged :
  let '(error, calls, _) := stream_response false snapshot_empty demo_admission demo_model "profile-1" 1010 demo_stream in
  error = None /\ map (fun c => (st_actual c, te_disconnect <$> st_evidence c)) calls = [(22479800, Some (Some true))]
  /\ stream_effects demo_admission demo_stream = [MarkSuccess].
Proof. vm_compute. done. Qed.
(** A stream that breaks off before its usage arrived is settled at nothing. *)
Example broken_stream_is_free :
  let s := mkStream true true [Some Sent] [ReadFailed] None None (Gemini.mkGU 0 0 0 0 0 0 0 0 0 0) false None None in
  let '(_, calls, event) := stream_response false snapshot_empty demo_admission demo_model "profile-1" 1010 s in
  map st_actual calls = [0] /\ event = None /\ stream_effects demo_admission s = [CoolTransport; MarkFailure "usage_metadata"].
Proof. vm_compute. done. Qed.
Lemma gemini_turn_exact_witness : exists log e,
  run_turn demo_digest demo_config (demo_request Generate) 15 demo_views 0 (turn_start 1000) = Some (log, e) /\ faults log <= 3.
Proof.
  destruct (gemini_turn_exact demo_digest demo_config (demo_request Generate) {["a"; "b"]} demo_views 1000) as (log & e & Hr & _ & _ & Hf & _).
  - vm_compute. discriminate.
  - intros i p Hp. destruct i as [|[|i]]; cbn in Hp; apply elem_of_cons in Hp as [->|[->|Hp%elem_of_nil]%elem_of_cons]; try done; set_solver.
  - intros i e [H|H]; destruct i as [|[|i]]; discriminate.
  - exists log, e. split; [exact Hr|exact Hf].
Defined.
